(* ===== verification/_CoqProject ===== *)
-Q . S2P
Prelude.v
Core.v
Uint128.v
Codec.v
Heap.v
Balance.v
Expiry.v
Accounts.v
LedgerSpec.v
AccountsRefine.v
AccountsProps.v
Transfers.v
TransfersRefine.v
TransfersProps.v
Crc.v
Record.v
Wal.v
Recovery.v
WalProps.v
RecoveryProps.v
TruncateProps.v
Direct.v
DirectProps.v
Stream.v
StreamProps.v
Idempotency.v
IdempotencyProps.v
Engine.v
EngineRefine.v
EngineProps.v
Snapshot.v
SnapshotProps.v
Requests.v
RequestsProps.v
Checkpoint.v
SnapDirProps.v
Restore.v
CheckpointProps.v
Ring.v
RingProps.v
Replication.v
ReplicationProps.v
FollowerProps.v
ReplicaProps.v
Auditor.v
AuditProps.v
AuditEngine.v
DirectSpec.v
Faults.v
FaultProps.v
Text.v
Sha256.v
Api.v
Rest.v
TextProps.v
ApiErrors.v
ApiProps.v
ServiceProps.v
RetryProps.v
Postgres.v
PostgresTables.v
PostgresProps.v
PostgresLocks.v
Server.v
ServerProps.v
Loop.v
LoopChannels.v
LoopBatches.v
LoopProps.v
LoopCreates.v
LoopLive.v
LoopStore.v
LoopKeys.v
LoopSpec.v
