(* ===== verification/Prelude.v ===== *)
(** * Aequitas ledger: a double-entry ledger with a write-ahead log

    The development models the Go code under [src/internal] and the server's
    main function: the data model and its binary codecs, the account manager
    and batch validation, the write-ahead log with its recovery, the
    idempotency store, the event loop, snapshot files, the client calls,
    replication, the audit of a log, the gRPC and REST services, and the SQL
    store the benchmarks compare with.

    ** The program

    Clients speak gRPC (api/server.go) or HTTP (api/rest.go); the handlers
    convert a request and call [Ledger] (engine/ledger.go).  A call with an idempotency key
    reserves it in the store (engine/idempotency.go), its transfers go through
    a ring buffer to one event-loop goroutine (engine/loop.go), which stamps
    the batch with its clock, voids expired holds, validates the batch with its
    linked chains (engine/transfers.go), appends the accepted transfers to the
    log as one batch closed by a commit marker (wal/wal.go, wal/record.go),
    syncs it, and only then applies them to the accounts (engine/accounts.go)
    and acknowledges.  A restart loads the newest snapshot
    (snapshot/snapshot.go), recovers the log (wal/recovery.go) and replays its
    records through the same apply function.  A primary streams the synced part
    of its log to followers (wal/stream.go, replication/server.go), which store
    and apply it batch by batch (replication/follower.go) and can be promoted
    (replication/failover.go).  The auditor (audit/audit.go) reads the files of
    a log on its own and checks their frames, batches and balances.

    ** The files

    - Prelude, Core: results, the state-and-error monad, machine integers,
      big-endian bytes, sums; the types of [internal/core].
    - Uint128, Codec, Balance: core/uint128.go, core/codec.go, core/account.go.
    - Heap, Expiry: container/heap over an interface (a class with laws), and
      the heap of holds by deadline, whose pointers are addresses in a store.
    - Accounts: engine/accounts.go, one definition per method, over the
      record [AccountManager]; methods that fail are in the monad.
    - LedgerSpec: the abstract ledger - finite maps of accounts and holds, the
      recorded transfers and histories, a clock - with the operations a
      transfer stands for and their invariant.  AccountsRefine relates the two
      by [abs] under the invariant [good]; AccountsProps has the theorems:
      refinement, the exact pending totals of every reachable manager,
      conservation, settlement, history.
    - Transfers, TransfersRefine, TransfersProps: the batch validator with its
      staged copies, snapshots and rollback; that a batch is decided chain by
      chain as the abstract ledger would, and applies as decided.
    - Crc, Record: CRC-32 and the framed records; every one-byte change is
      caught.
    - Wal, Recovery, WalProps, RecoveryProps: segment files as byte lists,
      the appending loop with its rotation, recovery with its truncation; that
      the files hold the frames of the batches, that a crash loses no synced
      batch and no part of a batch comes back.
    - Idempotency, IdempotencyProps: the hash map with its doubly linked list
      of heap nodes, refined to a plain list.
    - Engine, EngineRefine, EngineProps: the loop's handlers and the restart;
      runs of the engine, durability of acknowledgements, and recovery of the
      same ledger.
    - Snapshot, SnapshotProps: snapshot files and their directory.
    - Requests, RequestsProps: the client calls with their idempotency keys;
      that a keyed transfer is applied at most once and that a batch call
      leaves no reservation behind.
    - Ring, RingProps: the ring buffer and the batcher, as steps of their
      goroutines on shared memory; order, exclusion and wake-ups in every
      interleaving.
    - Direct, DirectProps, DirectSpec: the log with direct I/O, in aligned
      blocks whose addresses and whose support by the file system are
      parameters; that it behaves as the buffered log whose segments are padded
      at the end, what a restart reads of it, and what the padding breaks.
    - Faults, FaultProps: the fault injector's operations on the segment files;
      that after a flipped bit the restarted ledger is that of the batches
      before it, and that a segment cut between batches goes unnoticed.
    - TruncateProps: how much of the log a snapshot makes unnecessary, and when
      the last LSN of a segment file can be read from its tail ([readable]:
      files of at most one chunk of 64 KiB, or longer ones in which no payload
      passes for a chain of frames).  The theorems on truncation, checkpoints,
      the stream and the follower have this condition.
      Checkpoint, SnapDirProps, Restore, CheckpointProps: snapshot calls that
      run while batches go on, and the restart from what they leave on disk.
    - Stream, StreamProps: the reader of the log that the server polls; that it
      delivers the batches that follow, after those of its first file that are
      covered already, and when it loses records.
    - Replication, ReplicationProps, FollowerProps, ReplicaProps: term files,
      the server's frames, the follower's connection and restart, promotion;
      that terms fence, that a follower always holds whole batches of the
      primary's log and ends with its ledger, and the cases in which the code
      loses or repeats records.
    - Auditor, AuditProps, AuditEngine: the auditor's walk over the files; what
      a valid audit means, and that the log of any run of the engine audits
      clean, with the ledger's balances and holds, expired ones included.
    - Loop: the event loop and the calls as goroutines - one step for each
      operation the others can see, with the pools of result channels, the
      shared completion of a batch, cancelled requests and the shutdown.  A
      Submit claims its slot of the ring and publishes it in two steps.
      LoopChannels (result channels), LoopBatches (batch completions),
      LoopProps (the engine's order) and LoopCreates (new accounts) are its
      invariants, LoopLive the loop's progress with a measure, LoopStore and
      LoopKeys the idempotency keys in use, each with a ghost status.
      LoopSpec: any schedule is one run of the sequential engine, every call
      gets its own answer, waiting calls are answered once the slots before
      their events are published, the loop's work is bounded, a keyed transfer
      is applied once, and the schedules in which the code does worse: a claimed
      slot keeps the loop spinning, an exit leaves the events behind it.
    - Text, Sha256: hexadecimal and the other text functions of the services,
      and the hash that makes a key of a text.
      Api, Rest: the handlers of the two services over decoded requests, their
      conversions and the status of each error; the routes of the HTTP service.
      ApiErrors: which errors a transfer can end with, by a predicate on
      computations that is closed under the monad.  TextProps, ApiProps,
      ServiceProps: round trips of IDs, types of what the services pass on,
      agreement of the two services, and what a client reads back on a running
      ledger.  RetryProps: a request repeated under its key after any other
      traffic, and the bound on the keys that this needs.

    - Postgres: store/postgres/store.go over a class of one operation per SQL
      statement, with the documented behaviour of the statements as a class of
      laws; PostgresTables has tables that satisfy them.  PostgresProps: what a
      transfer does on every branch, and that the store follows the ledger;
      PostgresLocks: the row locks of transfers that run at the same time.

    - Server, ServerProps: cmd/server/main.go - the process in which the
      ledger, its checkpointer and the follower share one log; what a follower's
      services answer, and why its restart fails.

    ** Conventions

    A Go integer is a [Z], with [u64], [u32], [i64] and the like written where
    the code can wrap; a byte array is a list of bytes whose length is part of
    [wf_account] and [wf_transfer]; a slice that the code extends or indexes is
    a list; a Go map is a [gmap]; a pointer that is shared is an address in a
    store kept in the state.  A function that returns an error is in [result],
    one that also changes state in [M]; a function that may not return, or may
    panic, has an [option] result, and the text says which.

    Loops whose recursion is not structural take fuel: the number of entries
    (expired holds, the heap's depth), of bytes (recovery, the frame walk) or
    of frames (appending), each an upper bound on the iterations, as the
    theorems about them show; Commit's eviction loop, which need not end, has
    the fuel after which it provably never does.

    ** Not modelled

    I/O errors and preallocation (wal/prealloc*.go, sync_linux.go): files are
    byte lists and a write is whole.  The metrics and logs have no effect on the
    ledger.  Contexts and scheduling are choices of the environment: of the
    schedule in Loop and Ring, and left out elsewhere, where a call runs to its
    end.  Generated protocol code, the reading of the environment (config.go),
    the operator's command line (cmd/ledger-cli) and the benchmarks.  TLS and the network are reduced to the bytes a connection
    delivers before it ends; the connection to the database does not fail.  Of
    the services, the encodings (JSON, protocol buffers), the texts of errors
    and the redirects of the HTTP mux; of the auditor, the text of violations. *)

(** ** Prelude

    The generic definitions and lemmas the components share. *)


From stdpp Require Export base gmap sets list strings sorting.
From Stdlib Require Export ZArith Lia.
From Stdlib Require Export Init.Byte Strings.Byte.

#[global] Open Scope Z_scope.

Declare Scope ledger_scope.
Delimit Scope ledger_scope with ledger.
#[global] Open Scope ledger_scope.

Create HintDb ledger.

(** ** Results and the state-and-error monad *)

(** A Go function that returns [(value, error)]: [Ok] when the error is nil. *)
Inductive result (A E : Type) : Type :=
| Ok (a : A)
| Err (e : E).
Arguments Ok {A E} a.
Arguments Err {A E} e.

Definition rbind {A B E} (r : result A E) (k : A -> result B E) : result B E :=
  match r with Ok a => k a | Err e => Err e end.

(** A Go method with a pointer receiver of type [S]: the receiver's final
    state is kept on the error path too, because a method that fails half way
    leaves its earlier writes behind. *)
Definition M (S E A : Type) : Type := S -> S * result A E.

Definition sret {S E A} (a : A) : M S E A := fun s => (s, Ok a).
Definition sfail {S E A} (e : E) : M S E A := fun s => (s, Err e).
Definition sget {S E} : M S E S := fun s => (s, Ok s).
Definition smodify {S E} (f : S -> S) : M S E unit := fun s => (f s, Ok tt).
Definition slift {S E A} (r : result A E) : M S E A := fun s => (s, r).
Definition sbind {S E A B} (c : M S E A) (k : A -> M S E B) : M S E B :=
  fun s => match c s with
           | (s', Ok a) => k a s'
           | (s', Err e) => (s', Err e)
           end.

Notation "x <-? c ;; k" := (rbind c (fun x => k))
  (at level 100, c at next level, right associativity) : ledger_scope.
Notation "x <-- c ;; k" := (sbind c (fun x => k))
  (at level 100, c at next level, right associativity) : ledger_scope.
Notation "c1 >> c2" := (sbind c1 (fun _ => c2))
  (at level 100, right associativity) : ledger_scope.

(** An error converted on the way out: [if err != nil { return other }]. *)
Definition map_err {A E E'} (f : E -> E') (r : result A E) : result A E' :=
  match r with Ok a => Ok a | Err e => Err (f e) end.

Lemma rbind_Ok {A B E} (r : result A E) (k : A -> result B E) b :
  rbind r k = Ok b <-> exists a, r = Ok a /\ k a = Ok b.
Proof.
  destruct r as [a|e]; simpl; split.
  - eauto.
  - by intros (? & [= <-] & ?).
  - done.
  - by intros (? & ? & ?).
Qed.

Lemma sbind_Ok {S E A B} (c : M S E A) (k : A -> M S E B) s s' b :
  sbind c k s = (s', Ok b) <-> exists a s1, c s = (s1, Ok a) /\ k a s1 = (s', Ok b).
Proof.
  unfold sbind. destruct (c s) as [s1 [a|e]]; split.
  - eauto.
  - by intros (? & ? & [= <- <-] & ?).
  - by intros [= _ ?].
  - by intros (? & ? & [= ] & ?).
Qed.

Lemma sbind_run_Ok {S E A B} (c : M S E A) (k : A -> M S E B) s s1 a :
  c s = (s1, Ok a) -> sbind c k s = k a s1.
Proof. unfold sbind. by intros ->. Qed.

Lemma sbind_run_Err {S E A B} (c : M S E A) (k : A -> M S E B) s s1 e :
  c s = (s1, Err e) -> sbind c k s = (s1, Err e).
Proof. unfold sbind. by intros ->. Qed.

(** Case analysis on the discriminees of a hypothesis, keeping equations. *)
Ltac case_in H :=
  match type of H with
  | context [match ?x with _ => _ end] => destruct x eqn:?
  end.
Ltac cases_in H := repeat (case_in H; simplify_eq/=).
Ltac case_goal :=
  match goal with
  | |- context [match ?x with _ => _ end] => destruct x eqn:?
  end.

(** ** Machine integers *)

Definition two64 : Z := 2 ^ 64.
Definition two32 : Z := 2 ^ 32.

(** Conversions to uint64, uint32, uint16 and int64. *)
Definition u64 (z : Z) : Z := z mod 2 ^ 64.
Definition u32 (z : Z) : Z := z mod 2 ^ 32.
Definition u16 (z : Z) : Z := z mod 2 ^ 16.
Definition i64 (z : Z) : Z := (z + 2 ^ 63) mod 2 ^ 64 - 2 ^ 63.
Definition i32 (z : Z) : Z := (z + 2 ^ 31) mod 2 ^ 32 - 2 ^ 31.
Definition is_u64 (z : Z) : Prop := 0 <= z < 2 ^ 64.
Definition is_u32 (z : Z) : Prop := 0 <= z < 2 ^ 32.
Definition is_u16 (z : Z) : Prop := 0 <= z < 2 ^ 16.
Definition is_i64 (z : Z) : Prop := - 2 ^ 63 <= z < 2 ^ 63.

Lemma u64_small z : is_u64 z -> u64 z = z.
Proof. intros. by apply Z.mod_small. Qed.
Lemma u64_range z : is_u64 (u64 z).
Proof. apply Z.mod_pos_bound. lia. Qed.
Lemma i64_small z : is_i64 z -> i64 z = z.
Proof. unfold is_i64, i64. intros. rewrite Z.mod_small; lia. Qed.
Lemma i64_u64 z : is_i64 z -> i64 (u64 z) = z.
Proof.
  unfold is_i64, i64, u64. intros H.
  rewrite Zplus_mod_idemp_l, Z.mod_small; lia.
Qed.
#[export] Hint Resolve u64_range : ledger.

(** ** Bytes *)

#[export] Instance byte_eq_dec : EqDecision byte := Byte.byte_eq_dec.
#[export] Program Instance byte_countable : Countable byte :=
  inj_countable Byte.to_N Byte.of_N _.
Next Obligation. intros b. apply Byte.of_to_N. Qed.

Definition byte_val (b : byte) : Z := Z.of_N (Byte.to_N b).
(** Truncation to a byte: [byte(z)]. *)
Definition byte_of_Z (z : Z) : byte :=
  match Byte.of_N (Z.to_N (z mod 256)) with Some b => b | None => x00 end.

Lemma byte_val_range b : 0 <= byte_val b < 256.
Proof. unfold byte_val. pose proof (Byte.to_N_bounded b). lia. Qed.

Lemma byte_val_of_Z z : byte_val (byte_of_Z z) = z mod 256.
Proof.
  unfold byte_val, byte_of_Z.
  pose proof (Z.mod_pos_bound z 256 ltac:(lia)).
  destruct (Byte.of_N _) as [b|] eqn:E.
  - apply Byte.to_of_N in E. rewrite E. lia.
  - apply Byte.of_N_None_iff in E. lia.
Qed.

Lemma byte_of_val b : byte_of_Z (byte_val b) = b.
Proof.
  unfold byte_of_Z. pose proof (byte_val_range b).
  rewrite Z.mod_small by done. unfold byte_val.
  by rewrite N2Z.id, Byte.of_to_N.
Qed.

Lemma byte_val_inj a b : byte_val a = byte_val b -> a = b.
Proof. intros H. by rewrite <- (byte_of_val a), <- (byte_of_val b), H. Qed.

(** ** Slices *)

(** [b[lo:hi]] for [lo <= hi <= len b]. *)
Definition slice {A} (lo hi : nat) (l : list A) : list A := take (hi - lo) (drop lo l).

(** [copy(b[off:off+len src], src)], with the slice in range. *)
Definition copy_at {A} (off : nat) (src b : list A) : list A :=
  take off b ++ src ++ drop (off + length src) b.

Lemma slice_app_r {A} (n : nat) (k l : list A) :
  length k = n -> slice n (n + length l) (k ++ l) = l.
Proof.
  intros <-. unfold slice. rewrite drop_app_length.
  apply take_ge. lia.
Qed.

Lemma slice_mid {A} (lo hi : nat) (a b c : list A) :
  lo = length a -> hi = (lo + length b)%nat -> slice lo hi (a ++ b ++ c) = b.
Proof.
  intros -> ->. unfold slice. rewrite drop_app_length.
  replace (length a + length b - length a)%nat with (length b) by lia.
  apply take_app_length.
Qed.

Lemma length_copy_at {A} off (src b : list A) :
  (off + length src <= length b)%nat -> length (copy_at off src b) = length b.
Proof.
  intros. unfold copy_at. rewrite !length_app, length_take, length_drop. lia.
Qed.

Lemma copy_at_app {A} off (src a b c : list A) :
  off = length a -> length b = length src ->
  copy_at off src (a ++ b ++ c) = a ++ src ++ c.
Proof.
  intros -> Hb. unfold copy_at.
  rewrite take_app_length. do 2 f_equal.
  rewrite app_assoc, drop_app_ge by (rewrite length_app; lia).
  rewrite length_app. replace (_ - _)%nat with 0%nat by lia. done.
Qed.

(** ** Big-endian words ([binary.BigEndian]) *)

Fixpoint be_bytes (n : nat) (z : Z) : list byte :=
  match n with
  | O => []
  | S n' => byte_of_Z (z / 2 ^ (8 * Z.of_nat n')) :: be_bytes n' z
  end.

Definition be_val (bs : list byte) : Z :=
  foldl (fun acc b => acc * 256 + byte_val b) 0 bs.

Lemma length_be_bytes n z : length (be_bytes n z) = n.
Proof. induction n; simpl; auto. Qed.

Lemma be_val_acc bs acc :
  foldl (fun acc b => acc * 256 + byte_val b) acc bs
  = acc * 2 ^ (8 * Z.of_nat (length bs)) + be_val bs.
Proof.
  unfold be_val. revert acc. induction bs as [|b bs IH]; intros acc; simpl foldl.
  { simpl. lia. }
  rewrite IH, (IH (0 * 256 + byte_val b)). simpl length.
  replace (8 * Z.of_nat (S (length bs))) with (8 + 8 * Z.of_nat (length bs)) by lia.
  rewrite Z.pow_add_r by lia. change (2 ^ 8) with 256. ring.
Qed.

Lemma be_val_cons b bs :
  be_val (b :: bs) = byte_val b * 2 ^ (8 * Z.of_nat (length bs)) + be_val bs.
Proof. unfold be_val at 1. simpl foldl. rewrite be_val_acc. ring. Qed.

Lemma be_val_bytes n z : be_val (be_bytes n z) = z mod 2 ^ (8 * Z.of_nat n).
Proof.
  induction n as [|n IH]; [simpl; by rewrite Z.mod_1_r|].
  simpl be_bytes. rewrite be_val_cons, IH, byte_val_of_Z, length_be_bytes.
  replace (8 * Z.of_nat (S n)) with (8 * Z.of_nat n + 8) by lia.
  rewrite Z.pow_add_r by lia. change (2 ^ 8) with 256.
  rewrite Z.rem_mul_r by lia. ring.
Qed.

Lemma be_val_range bs : 0 <= be_val bs < 2 ^ (8 * Z.of_nat (length bs)).
Proof.
  induction bs as [|b bs IH]; [unfold be_val; simpl; lia|].
  rewrite be_val_cons. simpl length.
  replace (8 * Z.of_nat (S (length bs))) with (8 + 8 * Z.of_nat (length bs)) by lia.
  rewrite Z.pow_add_r by lia. change (2 ^ 8) with 256.
  pose proof (byte_val_range b). nia.
Qed.

Lemma be_bytes_mod n z : be_bytes n (z mod 2 ^ (8 * Z.of_nat n)) = be_bytes n z.
Proof.
  enough (forall m, (n <= m)%nat ->
    be_bytes n (z mod 2 ^ (8 * Z.of_nat m)) = be_bytes n z) by auto.
  induction n as [|n IH]; intros m Hm; [done|]. simpl. f_equal; [|apply IH; lia].
  apply byte_val_inj. rewrite !byte_val_of_Z.
  replace (8 * Z.of_nat m) with (8 * Z.of_nat n + (8 + 8 * Z.of_nat (m - S n))) by lia.
  rewrite Z.pow_add_r, Z.rem_mul_r by lia.
  rewrite (Z.mul_comm (2 ^ (8 * Z.of_nat n))), Z.div_add by lia.
  rewrite (Z.div_small (_ mod _)) by (apply Z.mod_pos_bound; lia).
  rewrite Z.add_0_l, Z.pow_add_r by lia. change (2 ^ 8) with 256.
  rewrite Z.rem_mul_r by lia. rewrite (Z.mul_comm 256), Z.mod_add by lia.
  by rewrite Z.mod_mod by lia.
Qed.

Lemma be_bytes_val n bs : length bs = n -> be_bytes n (be_val bs) = bs.
Proof.
  intros <-. induction bs as [|b bs IH]; [done|].
  simpl length. simpl be_bytes. rewrite be_val_cons. pose proof (be_val_range bs).
  f_equal.
  - rewrite Z.div_add_l by lia. rewrite Z.div_small by done.
    rewrite Z.add_0_r. apply byte_of_val.
  - rewrite <- be_bytes_mod.
    rewrite (Z.add_comm (byte_val b * _)), Z.mod_add by lia.
    by rewrite Z.mod_small.
Qed.

Lemma be_val_u64 z : is_u64 z -> be_val (be_bytes 8 z) = z.
Proof. intros. rewrite be_val_bytes. by apply Z.mod_small. Qed.
Lemma be_val_u32 z : is_u32 z -> be_val (be_bytes 4 z) = z.
Proof. intros. rewrite be_val_bytes. by apply Z.mod_small. Qed.
Lemma be_val_u16 z : is_u16 z -> be_val (be_bytes 2 z) = z.
Proof. intros. rewrite be_val_bytes. by apply Z.mod_small. Qed.

(** ** Filters *)

Lemma filter_id {A} (P : A -> Prop) `{forall x, Decision (P x)} (l : list A) : Forall P l -> filter P l = l.
Proof. induction 1 as [|x l Hx _ IH]; [done|]. by rewrite filter_cons_True, IH. Qed.
Lemma filter_nil {A} (P : A -> Prop) `{forall x, Decision (P x)} (l : list A) :
  Forall (fun x => ~ P x) l -> filter P l = [].
Proof. induction 1 as [|x l Hx _ IH]; [done|]. by rewrite filter_cons_False, IH. Qed.

(** ** Sums over lists and maps *)

Definition lsum {A} (f : A -> Z) (l : list A) : Z := foldr (fun x acc => f x + acc) 0 l.

Lemma lsum_app {A} (f : A -> Z) l1 l2 : lsum f (l1 ++ l2) = lsum f l1 + lsum f l2.
Proof. induction l1; simpl; lia. Qed.

Lemma lsum_insert {A} (f : A -> Z) (l : list A) i x y :
  l !! i = Some x -> lsum f (<[i:=y]> l) = lsum f l - f x + f y.
Proof.
  revert i. induction l as [|z l IH]; intros [|i] H; simplify_eq/=; [lia|].
  rewrite (IH i) by done. lia.
Qed.

Lemma lsum_ext {A} (f g : A -> Z) l : (forall x, f x = g x) -> lsum f l = lsum g l.
Proof. intros H. induction l; simpl; rewrite ?H; congruence. Qed.

Lemma lsum_Permutation {A} (f : A -> Z) l1 l2 : l1 ≡ₚ l2 -> lsum f l1 = lsum f l2.
Proof. induction 1; simpl; lia. Qed.

#[export] Instance lsum_Proper {A} (f : A -> Z) : Proper ((≡ₚ) ==> eq) (lsum f).
Proof. intros ??. apply lsum_Permutation. Qed.

Lemma lsum_nonneg {A} (f : A -> Z) l : (forall x, 0 <= f x) -> 0 <= lsum f l.
Proof. intros H. induction l as [|x l IH]; simpl; [lia|]. specialize (H x). lia. Qed.

Section msum.
Context {K V : Type} `{Countable K}.
Implicit Types (m : gmap K V) (f : V -> Z).

Definition msum (f : V -> Z) (m : gmap K V) : Z := lsum (fun kv => f kv.2) (map_to_list m).

Lemma msum_empty f : msum f ∅ = 0.
Proof. unfold msum. by rewrite map_to_list_empty. Qed.

Lemma msum_insert_new f m k v : m !! k = None -> msum f (<[k:=v]> m) = f v + msum f m.
Proof. intros. unfold msum. by rewrite map_to_list_insert. Qed.

Lemma msum_delete f m k v : m !! k = Some v -> msum f (delete k m) = msum f m - f v.
Proof.
  intros E. rewrite <- (insert_id m k v E) at 2. rewrite <- insert_delete_eq.
  rewrite msum_insert_new by apply lookup_delete_eq. lia.
Qed.

Lemma msum_insert f m k v w :
  m !! k = Some w -> msum f (<[k:=v]> m) = msum f m - f w + f v.
Proof.
  intros E. rewrite <- insert_delete_eq, msum_insert_new by apply lookup_delete_eq.
  rewrite (msum_delete _ _ _ w) by done. lia.
Qed.

Lemma msum_nonneg f m : (forall v, 0 <= f v) -> 0 <= msum f m.
Proof. intros Hf. apply lsum_nonneg. auto. Qed.

Lemma msum_lookup_le f m k v : (forall v, 0 <= f v) -> m !! k = Some v -> f v <= msum f m.
Proof.
  intros Hf E. pose proof (msum_delete f m k v E).
  pose proof (msum_nonneg f (delete k m) Hf). lia.
Qed.

Lemma msum_alter f g m k w :
  m !! k = Some w -> msum f (alter g k m) = msum f m - f w + f (g w).
Proof.
  intros E. rewrite <- (insert_id m k w E) at 1. rewrite alter_insert_eq. by apply msum_insert.
Qed.

Lemma msum_filter f (P : K * V -> Prop) `{forall kv, Decision (P kv)} m :
  msum f m = msum f (filter P m) + msum f (filter (fun kv => ~ P kv) m).
Proof.
  induction m as [|k v m E IH] using map_ind.
  { rewrite !map_filter_empty, msum_empty. lia. }
  rewrite msum_insert_new by done. destruct (decide (P (k, v))) as [HP|HP].
  - rewrite map_filter_insert_True by done. rewrite map_filter_insert_False by auto.
    rewrite delete_id by done. rewrite msum_insert_new; [lia|].
    apply map_lookup_filter_None. auto.
  - rewrite (map_filter_insert_False _ _ _ _ HP), delete_id by done.
    rewrite map_filter_insert_True by done. rewrite msum_insert_new; [lia|].
    apply map_lookup_filter_None. auto.
Qed.

Lemma msum_ext f g m : (forall k v, m !! k = Some v -> f v = g v) -> msum f m = msum g m.
Proof.
  induction m as [|k v m E IH] using map_ind; intros Hfg; [by rewrite !msum_empty|].
  rewrite !msum_insert_new by done. rewrite (Hfg k v) by apply lookup_insert_eq.
  rewrite IH; [done|]. intros k' v' ?. apply (Hfg k'). rewrite lookup_insert_ne; [done|congruence].
Qed.
End msum.
