(* ===== verification/Core.v ===== *)
(** * Core data model

    The types of [internal/core]: 128-bit amounts (uint128.go), accounts
    (account.go), transfers (transfer.go), the sentinel and struct errors the
    engine, the WAL and the snapshot code return, and the flag bits with the
    predicates that read them. *)

From S2P Require Import Prelude.

(** ** Byte arrays *)

(** A Go string, or a fixed-size array such as [[16]byte]: the byte sequence.
    The length of an array is part of [wf_account] and [wf_transfer] below. *)
Abbreviation gostring := (list byte).
Abbreviation ID := (list byte).
Abbreviation Key := (list byte).

Definition gostr (s : string) : gostring := String.list_byte_of_string s.

(** [[n]byte{}]. *)
Definition zeros (n : nat) : list byte := replicate n x00.

(** ** Amounts *)

(** Two uint64 words; [Hi] holds the most significant 64 bits. *)
Record Uint128 := mkUint128 { Lo : Z; Hi : Z }.

#[export] Instance Uint128_eq_dec : EqDecision Uint128.
Proof. solve_decision. Defined.

Definition zero128 : Uint128 := mkUint128 0 0.

(** The integer a pair of words stands for. *)
Definition val (a : Uint128) : Z := Hi a * 2 ^ 64 + Lo a.
Definition wf128 (a : Uint128) : Prop := is_u64 (Lo a) /\ is_u64 (Hi a).

(** ** Errors *)

(** Every error value the modelled code constructs.  The [Reason] text of
    [ErrLinkedChainFailed] is [err.Error()] of the failing item: it is kept
    here as that error. *)
Inductive error : Type :=
| ErrUint128Overflow
| ErrUint128Underflow
| ErrInvalidUint128Binary
| ErrInvalidUint128String
| ErrInvalidTransferPayload
| ErrInvalidAccountPayload
| ErrInsufficientFunds (AccountID : ID) (Balance Amount : Uint128)
| ErrAccountNotFound (AccountID : ID)
| ErrDuplicateAccountID (AccountID : ID)
| ErrAccountFrozen (AccountID : ID)
| ErrAccountClosed (AccountID : ID)
| ErrSelfTransfer (AccountID : ID)
| ErrZeroAmount
| ErrCurrencyMismatch (DebitCurrency CreditCurrency : list byte)
| ErrBalanceOverflow (AccountID : ID)
| ErrIdempotencyConflict (k : Key)
| ErrBufferFull
| ErrNotLeader
| ErrLedgerClosed
| ErrBatchTooLarge (Got Max : Z)
| ErrInvalidRingBufferSize (Size : Z)
| ErrInvariantViolation (AccountID : ID) (PostedDebits PostedCredits : Uint128)
| ErrPendingNotFound (TransferID : ID)
| ErrInvalidTransferFlags (Flags : Z)
| ErrOverTransfer (TransferID : ID) (Pending Amount : Uint128)
| ErrTransferNotFound (TransferID : ID)
| ErrDuplicateTransferID (TransferID : ID)
| ErrLedgerMismatch (TransferLedger DebitLedger CreditLedger : Z)
| ErrLinkedChainFailed (FailedTransferID : ID) (Index : nat) (Reason : error)
| ErrLinkedChainOpen (TransferID : ID) (Index : nat)
(** engine/accounts.go, RestorePending *)
| ErrRestoredTwice (TransferID : ID)
(** internal/wal *)
| ErrCorrupted
| ErrPayloadTooLarge
| ErrInvalidRecordType
| ErrSegmentFull
| ErrRecordTooLarge (Got : Z) (SegmentSize : Z)
(** an error of the operating system's file calls *)
| ErrIO
(** the error of a cancelled or expired context *)
| ErrContext
(** internal/snapshot *)
| ErrInvalidSnapshotMagic
| ErrSnapshotCorrupted
| ErrInvalidSnapshotSize.

(** ** Accounts and transfers *)

(** The blank padding fields carry no data and are left out. *)
Record Account := mkAccount {
  a_ID : ID;
  a_Currency : list byte;
  a_Ledger : Z;
  a_Code : Z;
  a_Flags : Z;
  a_UserData128 : list byte;
  a_PostedDebits : Uint128;
  a_PostedCredits : Uint128;
  a_PendingDebits : Uint128;
  a_PendingCredits : Uint128 }.

Record Transfer := mkTransfer {
  t_ID : ID;
  t_DebitAccountID : ID;
  t_CreditAccountID : ID;
  t_Amount : Uint128;
  t_IdempotencyKey : Key;
  t_UserData128 : list byte;
  t_Timestamp : Z;
  t_Timeout : Z;
  t_Ledger : Z;
  t_Code : Z;
  t_Flags : Z }.

#[export] Instance Account_eq_dec : EqDecision Account.
Proof. solve_decision. Defined.
#[export] Instance Transfer_eq_dec : EqDecision Transfer.
Proof. solve_decision. Defined.

(** [core.Transfer{}] and [core.Account{}]. *)
Definition zeroTransfer : Transfer :=
  mkTransfer (zeros 16) (zeros 16) (zeros 16) zero128 (zeros 32) (zeros 16) 0 0 0 0 0.
Definition zeroAccount : Account :=
  mkAccount (zeros 16) (zeros 4) 0 0 0 (zeros 16) zero128 zero128 zero128 zero128.

(** The Go types of the fields: array lengths and integer widths. *)
Record wf_account (a : Account) : Prop := {
  wfa_id : length (a_ID a) = 16%nat;
  wfa_currency : length (a_Currency a) = 4%nat;
  wfa_ledger : is_u32 (a_Ledger a);
  wfa_code : is_u16 (a_Code a);
  wfa_flags : is_u32 (a_Flags a);
  wfa_user : length (a_UserData128 a) = 16%nat;
  wfa_pd : wf128 (a_PostedDebits a);
  wfa_pc : wf128 (a_PostedCredits a);
  wfa_hd : wf128 (a_PendingDebits a);
  wfa_hc : wf128 (a_PendingCredits a) }.

Record wf_transfer (t : Transfer) : Prop := {
  wft_id : length (t_ID t) = 16%nat;
  wft_debit : length (t_DebitAccountID t) = 16%nat;
  wft_credit : length (t_CreditAccountID t) = 16%nat;
  wft_amount : wf128 (t_Amount t);
  wft_key : length (t_IdempotencyKey t) = 32%nat;
  wft_user : length (t_UserData128 t) = 16%nat;
  wft_timestamp : is_i64 (t_Timestamp t);
  wft_timeout : is_u64 (t_Timeout t);
  wft_ledger : is_u32 (t_Ledger t);
  wft_code : is_u16 (t_Code t);
  wft_flags : is_u32 (t_Flags t) }.

(** Field updates. *)
Definition set_PostedDebits (v : Uint128) (a : Account) : Account :=
  mkAccount (a_ID a) (a_Currency a) (a_Ledger a) (a_Code a) (a_Flags a) (a_UserData128 a)
    v (a_PostedCredits a) (a_PendingDebits a) (a_PendingCredits a).
Definition set_PostedCredits (v : Uint128) (a : Account) : Account :=
  mkAccount (a_ID a) (a_Currency a) (a_Ledger a) (a_Code a) (a_Flags a) (a_UserData128 a)
    (a_PostedDebits a) v (a_PendingDebits a) (a_PendingCredits a).
Definition set_PendingDebits (v : Uint128) (a : Account) : Account :=
  mkAccount (a_ID a) (a_Currency a) (a_Ledger a) (a_Code a) (a_Flags a) (a_UserData128 a)
    (a_PostedDebits a) (a_PostedCredits a) v (a_PendingCredits a).
Definition set_PendingCredits (v : Uint128) (a : Account) : Account :=
  mkAccount (a_ID a) (a_Currency a) (a_Ledger a) (a_Code a) (a_Flags a) (a_UserData128 a)
    (a_PostedDebits a) (a_PostedCredits a) (a_PendingDebits a) v.

Definition set_Amount (v : Uint128) (t : Transfer) : Transfer :=
  mkTransfer (t_ID t) (t_DebitAccountID t) (t_CreditAccountID t) v (t_IdempotencyKey t)
    (t_UserData128 t) (t_Timestamp t) (t_Timeout t) (t_Ledger t) (t_Code t) (t_Flags t).
Definition set_Timestamp (v : Z) (t : Transfer) : Transfer :=
  mkTransfer (t_ID t) (t_DebitAccountID t) (t_CreditAccountID t) (t_Amount t) (t_IdempotencyKey t)
    (t_UserData128 t) v (t_Timeout t) (t_Ledger t) (t_Code t) (t_Flags t).
Definition set_Ledger (v : Z) (t : Transfer) : Transfer :=
  mkTransfer (t_ID t) (t_DebitAccountID t) (t_CreditAccountID t) (t_Amount t) (t_IdempotencyKey t)
    (t_UserData128 t) (t_Timestamp t) (t_Timeout t) v (t_Code t) (t_Flags t).
Definition set_DebitAccountID (v : ID) (t : Transfer) : Transfer :=
  mkTransfer (t_ID t) v (t_CreditAccountID t) (t_Amount t) (t_IdempotencyKey t)
    (t_UserData128 t) (t_Timestamp t) (t_Timeout t) (t_Ledger t) (t_Code t) (t_Flags t).
Definition set_CreditAccountID (v : ID) (t : Transfer) : Transfer :=
  mkTransfer (t_ID t) (t_DebitAccountID t) v (t_Amount t) (t_IdempotencyKey t)
    (t_UserData128 t) (t_Timestamp t) (t_Timeout t) (t_Ledger t) (t_Code t) (t_Flags t).

(** ** Flags *)

Definition AccountFlagFrozen : Z := 1.
Definition AccountFlagClosed : Z := 2.

Definition TransferFlagPending : Z := 1.
Definition TransferFlagPostPending : Z := 2.
Definition TransferFlagVoidPending : Z := 4.
Definition TransferFlagLinked : Z := 8.

(** [x&flag != 0]. *)
Definition has_flag (x flag : Z) : bool := negb (Z.land x flag =? 0).

Definition IsFrozen (a : Account) : bool := has_flag (a_Flags a) AccountFlagFrozen.
Definition IsClosed (a : Account) : bool := has_flag (a_Flags a) AccountFlagClosed.
