(* ===== verification/Uint128.v ===== *)
(** * Unsigned 128-bit arithmetic (internal/core/uint128.go)

    The operations on [Uint128] word by word, as the code computes them with
    [math/bits], and their specification as arithmetic on [val]: [Add], [Sub]
    and [mul64] are exact or report overflow, [Cmp] is the order of the
    values, decimal text and the 16-byte binary form round-trip. *)

From S2P Require Import Prelude Core.

(** ** [math/bits] *)

(** bits.Add64: sum and carry out. *)
Definition Add64 (x y carry : Z) : Z * Z := (u64 (x + y + carry), (x + y + carry) / 2 ^ 64).
(** bits.Sub64: difference and borrow out. *)
Definition Sub64 (x y borrow : Z) : Z * Z :=
  (u64 (x - y - borrow), if x <? y + borrow then 1 else 0).
(** bits.Mul64: high and low words of the product. *)
Definition Mul64 (x y : Z) : Z * Z := ((x * y) / 2 ^ 64, u64 (x * y)).

(** ** Operations *)

Definition Cmp (a b : Uint128) : Z :=
  if Hi a <? Hi b then -1
  else if Hi b <? Hi a then 1
  else if Lo a <? Lo b then -1
  else if Lo b <? Lo a then 1
  else 0.

Definition Add (a b : Uint128) : result Uint128 error :=
  let '(lo, carry) := Add64 (Lo a) (Lo b) 0 in
  let '(hi, carryHi) := Add64 (Hi a) (Hi b) carry in
  if negb (carryHi =? 0) then Err ErrUint128Overflow
  else Ok (mkUint128 lo hi).

Definition Sub (a b : Uint128) : result Uint128 error :=
  if Cmp a b <? 0 then Err ErrUint128Underflow
  else
    let '(lo, borrow) := Sub64 (Lo a) (Lo b) 0 in
    let '(hi, borrowHi) := Sub64 (Hi a) (Hi b) borrow in
    if negb (borrowHi =? 0) then Err ErrUint128Underflow
    else Ok (mkUint128 lo hi).

Definition IsZero (a : Uint128) : bool := (Hi a =? 0) && (Lo a =? 0).

Definition FromUint64 (v : Z) : Uint128 := mkUint128 v 0.

Definition mul64 (a : Uint128) (m : Z) : result Uint128 error :=
  let '(hiHi, hiLo) := Mul64 (Hi a) m in
  let '(loHi, loLo) := Mul64 (Lo a) m in
  let '(newHi, carry) := Add64 hiLo loHi 0 in
  if negb (hiHi =? 0) || negb (carry =? 0) then Err ErrUint128Overflow
  else Ok (mkUint128 loLo newHi).

(** The loop of FromString, from accumulator [acc]. *)
Fixpoint FromString_loop (acc : Uint128) (s : gostring) : result Uint128 error :=
  match s with
  | [] => Ok acc
  | c :: s' =>
      if (byte_val c <? 48) || (57 <? byte_val c) then Err ErrInvalidUint128String
      else
        mul <-? mul64 acc 10 ;;
        acc' <-? Add mul (FromUint64 (byte_val c - 48)) ;;
        FromString_loop acc' s'
  end.

Definition FromString (s : gostring) : result Uint128 error :=
  match s with
  | [] => Err ErrInvalidUint128String
  | _ => FromString_loop zero128 s
  end.

(** [big.Int.String]: the decimal digits of a value, most significant first.
    40 digits cover every 128-bit value. *)
Fixpoint decimal (fuel : nat) (z : Z) (acc : gostring) : gostring :=
  match fuel with
  | O => acc
  | S fuel' =>
      if z =? 0 then acc
      else decimal fuel' (z / 10) (byte_of_Z (48 + z mod 10) :: acc)
  end.

Definition String (a : Uint128) : gostring :=
  if IsZero a then gostr "0" else decimal 40 (val a) [].

Definition MarshalBinary (a : Uint128) : list byte := be_bytes 8 (Hi a) ++ be_bytes 8 (Lo a).

Definition UnmarshalBinary (b : list byte) : result Uint128 error :=
  if negb (length b =? 16)%nat then Err ErrInvalidUint128Binary
  else Ok (mkUint128 (be_val (drop 8 b)) (be_val (take 8 b))).

(** ** Specification *)

Lemma val_range a : wf128 a -> 0 <= val a < 2 ^ 128.
Proof. unfold wf128, is_u64, val. lia. Qed.

Lemma val_inj a b : wf128 a -> wf128 b -> val a = val b -> a = b.
Proof. destruct a, b. unfold wf128, is_u64, val. simpl. intros. f_equal; lia. Qed.

Lemma wf128_zero : wf128 zero128.
Proof. unfold wf128, is_u64. simpl. lia. Qed.
Lemma wf128_FromUint64 v : is_u64 v -> wf128 (FromUint64 v).
Proof. unfold wf128, is_u64. simpl. lia. Qed.
#[export] Hint Resolve wf128_zero wf128_FromUint64 : ledger.

Lemma Cmp_cases a b : wf128 a -> wf128 b ->
  (Cmp a b = -1 /\ val a < val b) \/ (Cmp a b = 0 /\ val a = val b)
  \/ (Cmp a b = 1 /\ val b < val a).
Proof.
  unfold Cmp, wf128, is_u64, val. intros.
  repeat case_match; lia.
Qed.

Lemma Cmp_ltb a b : wf128 a -> wf128 b -> (Cmp a b <? 0) = (val a <? val b).
Proof. intros Ha Hb. destruct (Cmp_cases a b Ha Hb) as [[-> ?]|[[-> ?]|[-> ?]]]; lia. Qed.
Lemma Cmp_gtb a b : wf128 a -> wf128 b -> (0 <? Cmp a b) = (val b <? val a).
Proof. intros Ha Hb. destruct (Cmp_cases a b Ha Hb) as [[-> ?]|[[-> ?]|[-> ?]]]; lia. Qed.
Lemma Cmp_eqb a b : wf128 a -> wf128 b -> (Cmp a b =? 0) = (val a =? val b).
Proof. intros Ha Hb. destruct (Cmp_cases a b Ha Hb) as [[-> ?]|[[-> ?]|[-> ?]]]; lia. Qed.

Lemma IsZero_spec a : wf128 a -> IsZero a = (val a =? 0).
Proof. unfold IsZero, wf128, is_u64, val. lia. Qed.

Lemma wrap64_div z : z = (z / 2 ^ 64) * 2 ^ 64 + u64 z.
Proof. unfold u64. rewrite (Z.div_mod z (2 ^ 64)) at 1 by lia. lia. Qed.

(** The sum is exact when it fits in 128 bits, an overflow error otherwise. *)
Lemma Add_spec a b : wf128 a -> wf128 b ->
  if val a + val b <? 2 ^ 128
  then exists c, Add a b = Ok c /\ wf128 c /\ val c = val a + val b
  else Add a b = Err ErrUint128Overflow.
Proof.
  intros [? ?] [? ?]. unfold Add, Add64. unfold is_u64, val in *.
  set (lo := Lo a + Lo b + 0). pose proof (wrap64_div lo). pose proof (u64_range lo) as Hl.
  set (hi := Hi a + Hi b + lo / 2 ^ 64).
  pose proof (wrap64_div hi). pose proof (u64_range hi) as Hh.
  unfold is_u64 in *.
  destruct (Z.ltb_spec (Hi a * 2 ^ 64 + Lo a + (Hi b * 2 ^ 64 + Lo b)) (2 ^ 128)).
  - replace (hi / 2 ^ 64) with 0 in * by lia. simpl.
    eexists; split; [done|]. split; [split; done|]. simpl. lia.
  - destruct (Z.eqb_spec (hi / 2 ^ 64) 0); [lia|done].
Qed.

Lemma Sub_spec a b : wf128 a -> wf128 b ->
  if val b <=? val a
  then exists c, Sub a b = Ok c /\ wf128 c /\ val c = val a - val b
  else Sub a b = Err ErrUint128Underflow.
Proof.
  intros Ha Hb. unfold Sub. rewrite Cmp_ltb by done.
  destruct (Z.leb_spec (val b) (val a)) as [Hle|Hlt].
  2:{ by rewrite (proj2 (Z.ltb_lt _ _) Hlt). }
  replace (val a <? val b) with false by lia.
  destruct Ha, Hb. unfold Sub64, val in *.
  set (lo := Lo a - Lo b - 0). pose proof (u64_range lo) as Hl.
  set (bo := if Lo a <? Lo b + 0 then 1 else 0).
  set (hi := Hi a - Hi b - bo). pose proof (u64_range hi) as Hh.
  assert (u64 lo = lo + bo * 2 ^ 64).
  { unfold u64. symmetry. apply (Z.mod_unique_pos _ _ (- bo)); unfold is_u64, bo, lo in *;
      case_match; lia. }
  assert (0 <= hi < 2 ^ 64) by (unfold is_u64, hi, bo, lo in *; case_match; lia).
  replace (if Hi a <? Hi b + bo then 1 else 0) with 0 by (unfold hi in *; case_match; lia).
  rewrite (u64_small hi) by done. simpl.
  eexists; split; [done|]. split; [split; done|]. simpl. lia.
Qed.

Lemma Add_Ok a b c : wf128 a -> wf128 b -> Add a b = Ok c ->
  wf128 c /\ val c = val a + val b.
Proof.
  intros Ha Hb H. pose proof (Add_spec a b Ha Hb) as S. rewrite H in S.
  case_match; [destruct S as (c' & [= ->] & ? & ?)|]; done.
Qed.

Lemma Sub_Ok a b c : wf128 a -> wf128 b -> Sub a b = Ok c ->
  wf128 c /\ val c = val a - val b.
Proof.
  intros Ha Hb H. pose proof (Sub_spec a b Ha Hb) as S. rewrite H in S.
  case_match; [destruct S as (c' & [= ->] & ? & ?)|]; done.
Qed.

Lemma Sub_total a b : wf128 a -> wf128 b -> val b <= val a ->
  exists c, Sub a b = Ok c /\ wf128 c /\ val c = val a - val b.
Proof.
  intros Ha Hb Hle. pose proof (Sub_spec a b Ha Hb) as S.
  by rewrite (proj2 (Z.leb_le _ _) Hle) in S.
Qed.

Lemma mul64_spec a m : wf128 a -> is_u64 m ->
  if val a * m <? 2 ^ 128
  then exists c, mul64 a m = Ok c /\ wf128 c /\ val c = val a * m
  else mul64 a m = Err ErrUint128Overflow.
Proof.
  intros [Hlo Hhi] Hm. unfold mul64, Mul64, Add64, val.
  set (h := Hi a * m). set (l := Lo a * m).
  pose proof (wrap64_div h). pose proof (wrap64_div l).
  pose proof (u64_range h) as Rh. pose proof (u64_range l) as Rl.
  assert (0 <= h) by (unfold is_u64, h in *; nia).
  assert (0 <= l) by (unfold is_u64, l in *; nia).
  assert (0 <= h / 2 ^ 64) by (apply Z.div_pos; lia).
  assert (0 <= l / 2 ^ 64) by (apply Z.div_pos; lia).
  set (s := u64 h + l / 2 ^ 64 + 0).
  pose proof (wrap64_div s). pose proof (u64_range s) as Rs.
  assert (0 <= s / 2 ^ 64) by (apply Z.div_pos; unfold is_u64 in *; lia).
  assert (E : (Hi a * 2 ^ 64 + Lo a) * m = h * 2 ^ 64 + l) by (unfold h, l; ring).
  rewrite E. unfold is_u64 in *. clearbody h l.
  destruct (Z.ltb_spec (h * 2 ^ 64 + l) (2 ^ 128)).
  - assert (h / 2 ^ 64 = 0) as -> by lia. assert (s / 2 ^ 64 = 0) as -> by lia. simpl.
    eexists; split; [done|]. split; [split; done|]. simpl. lia.
  - destruct (Z.eqb_spec (h / 2 ^ 64) 0); [|done].
    destruct (Z.eqb_spec (s / 2 ^ 64) 0); [lia|done].
Qed.

(** *** Decimal text *)

Definition is_digit (c : byte) : Prop := 48 <= byte_val c <= 57.

(** The number a digit string denotes. *)
Definition dec_val (s : gostring) : Z := foldl (fun acc c => acc * 10 + (byte_val c - 48)) 0 s.

Lemma dec_val_mono s acc : 0 <= acc -> Forall is_digit s ->
  acc <= foldl (fun acc c => acc * 10 + (byte_val c - 48)) acc s.
Proof.
  revert acc. induction s as [|c s IH]; intros acc Hacc Hs; simpl; [lia|].
  apply Forall_cons in Hs as [Hc Hs]. unfold is_digit in Hc.
  etrans; [|apply IH; [|done]]; lia.
Qed.

(** FromString accepts exactly the non-empty digit strings whose value fits. *)
Lemma FromString_loop_spec s acc a : wf128 acc -> wf128 a ->
  FromString_loop acc s = Ok a <->
  Forall is_digit s /\ foldl (fun acc c => acc * 10 + (byte_val c - 48)) (val acc) s = val a.
Proof.
  intros Hacc Ha. revert acc Hacc. induction s as [|c s IH]; intros acc Hacc; simpl.
  { split; [intros [= ->]; auto|]. intros [_ H]. f_equal. by apply val_inj. }
  pose proof (val_range a Ha) as Ra. pose proof (val_range acc Hacc) as Racc.
  pose proof (byte_val_range c) as Rc.
  destruct (_ || _) eqn:Ec.
  { split; [done|]. intros [H _]. apply Forall_cons in H as [H _]. unfold is_digit in H. lia. }
  assert (is_digit c) as Hc by (unfold is_digit; lia).
  pose proof (mul64_spec acc 10 Hacc ltac:(unfold is_u64; lia)) as Smul.
  destruct (Z.ltb_spec (val acc * 10) (2 ^ 128)).
  - destruct Smul as (m & -> & Hm & Em). simpl.
    pose proof (Add_spec m (FromUint64 (byte_val c - 48)) Hm) as Sadd.
    assert (Hd : wf128 (FromUint64 (byte_val c - 48))).
    { apply wf128_FromUint64. unfold is_u64. lia. }
    specialize (Sadd Hd). change (val (FromUint64 (byte_val c - 48))) with (byte_val c - 48) in Sadd.
    rewrite Em in Sadd.
    destruct (Z.ltb_spec (val acc * 10 + (byte_val c - 48)) (2 ^ 128)).
    + destruct Sadd as (r & -> & Hr & Er). simpl. rewrite IH by done. rewrite Er.
      rewrite Forall_cons. intuition.
    + rewrite Sadd. simpl. split; [done|]. intros [Hs E]. apply Forall_cons in Hs as [_ Hs].
      pose proof (dec_val_mono s (val acc * 10 + (byte_val c - 48)) ltac:(lia) Hs). lia.
  - rewrite Smul. simpl. split; [done|]. intros [Hs E]. apply Forall_cons in Hs as [_ Hs].
    pose proof (dec_val_mono s (val acc * 10 + (byte_val c - 48)) ltac:(lia) Hs). lia.
Qed.

Lemma FromString_spec s a : wf128 a ->
  FromString s = Ok a <-> s <> [] /\ Forall is_digit s /\ dec_val s = val a.
Proof.
  intros Ha. destruct s as [|c s]; simpl FromString.
  { split; [done|]. by intros [? _]. }
  pose proof (FromString_loop_spec (c :: s) zero128 a wf128_zero Ha) as S.
  unfold dec_val. change 0 with (val zero128). rewrite S. intuition done.
Qed.

Lemma dec_val_app s acc c s' :
  foldl (fun acc c => acc * 10 + (byte_val c - 48)) acc (s ++ c :: s')
  = foldl (fun acc c => acc * 10 + (byte_val c - 48))
      (foldl (fun acc c => acc * 10 + (byte_val c - 48)) acc s * 10 + (byte_val c - 48)) s'.
Proof. by rewrite foldl_app. Qed.

Lemma decimal_spec fuel z acc : 0 <= z < 10 ^ Z.of_nat fuel -> Forall is_digit acc ->
  Forall is_digit (decimal fuel z acc)
  /\ dec_val (decimal fuel z acc)
     = foldl (fun acc c => acc * 10 + (byte_val c - 48)) z acc.
Proof.
  revert z acc. induction fuel as [|fuel IH]; intros z acc Hz Hacc; simpl.
  { replace z with 0 by lia. done. }
  destruct (Z.eqb_spec z 0) as [->|Hnz]; [done|].
  pose proof (Z.mod_pos_bound z 10 ltac:(lia)).
  pose proof (Z.div_mod z 10 ltac:(lia)).
  assert (Hb : byte_val (byte_of_Z (48 + z mod 10)) = 48 + z mod 10).
  { rewrite byte_val_of_Z. apply Z.mod_small. lia. }
  destruct (IH (z / 10) (byte_of_Z (48 + z mod 10) :: acc)) as [IH1 IH2].
  - replace (Z.of_nat (S fuel)) with (Z.of_nat fuel + 1) in Hz by lia.
    rewrite Z.pow_add_r in Hz by lia. split; [apply Z.div_pos; lia|].
    apply Z.div_lt_upper_bound; lia.
  - constructor; [|done]. unfold is_digit. rewrite Hb. lia.
  - split; [done|]. rewrite IH2. simpl. rewrite Hb. f_equal. lia.
Qed.

Lemma String_digits a : wf128 a ->
  String a <> [] /\ Forall is_digit (String a) /\ dec_val (String a) = val a.
Proof.
  intros Ha. pose proof (val_range a Ha). unfold String.
  rewrite IsZero_spec by done. destruct (Z.eqb_spec (val a) 0) as [E|E].
  { rewrite E. split; [done|]. split; [|done]. constructor; [|constructor].
    by vm_compute. }
  destruct (decimal_spec 40 (val a) []) as [H1 H2]; [change (10 ^ Z.of_nat 40) with (10 ^ 40); lia|done|].
  split; [|done]. intros H0. rewrite H0 in H2. simpl in H2. by unfold dec_val in H2.
Qed.

Lemma UnmarshalBinary_Marshal a : wf128 a -> UnmarshalBinary (MarshalBinary a) = Ok a.
Proof.
  intros [? ?]. unfold UnmarshalBinary, MarshalBinary.
  rewrite length_app, !length_be_bytes. simpl negb. cbv iota.
  rewrite take_app_length', drop_app_length' by (by rewrite length_be_bytes).
  rewrite !be_val_u64 by done. by destruct a.
Qed.

(** ** Properties *)

(** C39. for operands within the Go types, Add returns the exact sum when it is
    below 2^128 and the overflow error otherwise; Sub returns the exact
    difference when it is not negative and the underflow error otherwise; Cmp
    has the sign of the difference of the values. *)
Theorem uint128_arithmetic (a b : Uint128) : wf128 a -> wf128 b ->
  (if val a + val b <? 2 ^ 128
   then exists c, Add a b = Ok c /\ wf128 c /\ val c = val a + val b
   else Add a b = Err ErrUint128Overflow)
  /\ (if val b <=? val a
      then exists c, Sub a b = Ok c /\ wf128 c /\ val c = val a - val b
      else Sub a b = Err ErrUint128Underflow)
  /\ Cmp a b = Z.sgn (val a - val b).
Proof.
  intros Ha Hb. split; [by apply Add_spec|]. split; [by apply Sub_spec|].
  destruct (Cmp_cases a b Ha Hb) as [[-> ?]|[[-> ?]|[-> ?]]]; lia.
Qed.

Lemma uint128_arithmetic_witness :
  wf128 (mkUint128 (2 ^ 64 - 1) 3) /\ wf128 (mkUint128 1 0)
  /\ Cmp (mkUint128 (2 ^ 64 - 1) 3) (mkUint128 1 0) = 1.
Proof.
  assert (H1 : wf128 (mkUint128 (2 ^ 64 - 1) 3)) by (unfold wf128, is_u64; simpl; lia).
  assert (H2 : wf128 (mkUint128 1 0)) by (unfold wf128, is_u64; simpl; lia).
  split; [exact H1|]. split; [exact H2|].
  destruct (uint128_arithmetic (mkUint128 (2 ^ 64 - 1) 3) (mkUint128 1 0) H1 H2) as (_ & _ & E).
  exact E.
Defined.

(** decimal text. FromString succeeds with value [a] exactly on the
    non-empty strings of digits that denote [val a], so a number of 2^128 or
    more is refused; and String prints such a string, so FromString inverts
    String. *)
Theorem uint128_decimal (a : Uint128) : wf128 a ->
  (forall s, FromString s = Ok a <-> s <> [] /\ Forall is_digit s /\ dec_val s = val a)
  /\ FromString (String a) = Ok a.
Proof.
  intros Ha. split; [intros s; by apply FromString_spec|].
  apply FromString_spec; [done|]. by apply String_digits.
Qed.

Lemma uint128_decimal_witness :
  wf128 (mkUint128 0 1) /\ FromString (String (mkUint128 0 1)) = Ok (mkUint128 0 1).
Proof.
  assert (H : wf128 (mkUint128 0 1)) by (unfold wf128, is_u64; simpl; lia).
  split; [exact H|]. exact (proj2 (uint128_decimal (mkUint128 0 1) H)).
Defined.
