(* ===== verification/Codec.v ===== *)
(** * Wire payloads (internal/core/codec.go, internal/engine/codec.go)

    The fixed-size transfer (144 bytes) and account (128 bytes) payloads that
    the WAL, the snapshot and the replication stream carry.  An encoder
    appends zeros to its destination and then writes each field at its running
    offset; a decoder reads the fields back from the same offsets. *)

From S2P Require Import Prelude Core.

Definition TransferPayloadSize : nat := 144.
Definition AccountPayloadSize : nat := 128.

(** ** Encoders *)

Definition AppendTransferPayload (dst : list byte) (t : Transfer) : list byte :=
  let start := length dst in
  let b := dst ++ zeros TransferPayloadSize in
  let off := start in
  let b := copy_at off (t_ID t) b in
  let off := (off + 16)%nat in
  let b := copy_at off (t_DebitAccountID t) b in
  let off := (off + 16)%nat in
  let b := copy_at off (t_CreditAccountID t) b in
  let off := (off + 16)%nat in
  let b := copy_at off (be_bytes 8 (Hi (t_Amount t))) b in
  let b := copy_at (off + 8) (be_bytes 8 (Lo (t_Amount t))) b in
  let off := (off + 16)%nat in
  let b := copy_at off (t_IdempotencyKey t) b in
  let off := (off + 32)%nat in
  let b := copy_at off (t_UserData128 t) b in
  let off := (off + 16)%nat in
  let b := copy_at off (be_bytes 8 (u64 (t_Timestamp t))) b in
  let off := (off + 8)%nat in
  let b := copy_at off (be_bytes 8 (t_Timeout t)) b in
  let off := (off + 8)%nat in
  let b := copy_at off (be_bytes 4 (t_Ledger t)) b in
  let off := (off + 4)%nat in
  let b := copy_at off (be_bytes 2 (t_Code t)) b in
  let off := (off + 2)%nat in
  let off := (off + 2)%nat in
  copy_at off (be_bytes 4 (t_Flags t)) b.

Definition EncodeTransferPayload (t : Transfer) : list byte := AppendTransferPayload [] t.

Definition AppendAccountPayload (dst : list byte) (a : Account) : list byte :=
  let start := length dst in
  let b := dst ++ zeros AccountPayloadSize in
  let off := start in
  let b := copy_at off (a_ID a) b in
  let off := (off + 16)%nat in
  let b := copy_at off (a_Currency a) b in
  let off := (off + 4)%nat in
  let b := copy_at off (be_bytes 4 (a_Ledger a)) b in
  let off := (off + 4)%nat in
  let b := copy_at off (be_bytes 2 (a_Code a)) b in
  let off := (off + 2)%nat in
  let off := (off + 2)%nat in
  let b := copy_at off (be_bytes 4 (a_Flags a)) b in
  let off := (off + 4)%nat in
  let b := copy_at off (a_UserData128 a) b in
  let off := (off + 16)%nat in
  let b := copy_at off (be_bytes 8 (Hi (a_PostedDebits a))) b in
  let b := copy_at (off + 8) (be_bytes 8 (Lo (a_PostedDebits a))) b in
  let off := (off + 16)%nat in
  let b := copy_at off (be_bytes 8 (Hi (a_PostedCredits a))) b in
  let b := copy_at (off + 8) (be_bytes 8 (Lo (a_PostedCredits a))) b in
  let off := (off + 16)%nat in
  let b := copy_at off (be_bytes 8 (Hi (a_PendingDebits a))) b in
  let b := copy_at (off + 8) (be_bytes 8 (Lo (a_PendingDebits a))) b in
  let off := (off + 16)%nat in
  let b := copy_at off (be_bytes 8 (Hi (a_PendingCredits a))) b in
  copy_at (off + 8) (be_bytes 8 (Lo (a_PendingCredits a))) b.

Definition EncodeAccountPayload (a : Account) : list byte := AppendAccountPayload [] a.

(** ** Decoders *)

(** [binary.BigEndian.Uint64(b[lo:hi])] and its narrower versions. *)
Definition read_be (lo hi : nat) (b : list byte) : Z := be_val (slice lo hi b).

Definition read_u128 (off : nat) (b : list byte) : Uint128 :=
  mkUint128 (read_be (off + 8) (off + 16) b) (read_be off (off + 8) b).

Definition DecodeTransferPayload (b : list byte) : result Transfer error :=
  if negb (length b =? TransferPayloadSize)%nat then Err ErrInvalidTransferPayload
  else
    let off := 0%nat in
    let id := slice off (off + 16) b in
    let off := (off + 16)%nat in
    let debit := slice off (off + 16) b in
    let off := (off + 16)%nat in
    let credit := slice off (off + 16) b in
    let off := (off + 16)%nat in
    let amount := read_u128 off b in
    let off := (off + 16)%nat in
    let key := slice off (off + 32) b in
    let off := (off + 32)%nat in
    let user := slice off (off + 16) b in
    let off := (off + 16)%nat in
    let timestamp := i64 (read_be off (off + 8) b) in
    let off := (off + 8)%nat in
    let timeout := read_be off (off + 8) b in
    let off := (off + 8)%nat in
    let ledger := read_be off (off + 4) b in
    let off := (off + 4)%nat in
    let code := read_be off (off + 2) b in
    let off := (off + 2)%nat in
    let off := (off + 2)%nat in
    let flags := read_be off (off + 4) b in
    Ok (mkTransfer id debit credit amount key user timestamp timeout ledger code flags).

Definition DecodeAccountPayload (b : list byte) : result Account error :=
  if negb (length b =? AccountPayloadSize)%nat then Err ErrInvalidAccountPayload
  else
    let off := 0%nat in
    let id := slice off (off + 16) b in
    let off := (off + 16)%nat in
    let currency := slice off (off + 4) b in
    let off := (off + 4)%nat in
    let ledger := read_be off (off + 4) b in
    let off := (off + 4)%nat in
    let code := read_be off (off + 2) b in
    let off := (off + 2)%nat in
    let off := (off + 2)%nat in
    let flags := read_be off (off + 4) b in
    let off := (off + 4)%nat in
    let user := slice off (off + 16) b in
    let off := (off + 16)%nat in
    let postedDebits := read_u128 off b in
    let off := (off + 16)%nat in
    let postedCredits := read_u128 off b in
    let off := (off + 16)%nat in
    let pendingDebits := read_u128 off b in
    let off := (off + 16)%nat in
    let pendingCredits := read_u128 off b in
    Ok (mkAccount id currency ledger code flags user
          postedDebits postedCredits pendingDebits pendingCredits).

(** ** Layout *)

(** The payload as the concatenation of its fields. *)
Definition transfer_fields (t : Transfer) : list (list byte) :=
  [t_ID t; t_DebitAccountID t; t_CreditAccountID t;
   be_bytes 8 (Hi (t_Amount t)); be_bytes 8 (Lo (t_Amount t));
   t_IdempotencyKey t; t_UserData128 t;
   be_bytes 8 (u64 (t_Timestamp t)); be_bytes 8 (t_Timeout t);
   be_bytes 4 (t_Ledger t); be_bytes 2 (t_Code t); zeros 2;
   be_bytes 4 (t_Flags t); zeros 4].

Definition account_fields (a : Account) : list (list byte) :=
  [a_ID a; a_Currency a; be_bytes 4 (a_Ledger a); be_bytes 2 (a_Code a); zeros 2;
   be_bytes 4 (a_Flags a); a_UserData128 a;
   be_bytes 8 (Hi (a_PostedDebits a)); be_bytes 8 (Lo (a_PostedDebits a));
   be_bytes 8 (Hi (a_PostedCredits a)); be_bytes 8 (Lo (a_PostedCredits a));
   be_bytes 8 (Hi (a_PendingDebits a)); be_bytes 8 (Lo (a_PendingDebits a));
   be_bytes 8 (Hi (a_PendingCredits a)); be_bytes 8 (Lo (a_PendingCredits a)); zeros 16].

Lemma length_zeros n : length (zeros n) = n.
Proof. apply length_replicate. Qed.

Lemma zeros_split n k : (k <= n)%nat -> zeros n = zeros k ++ zeros (n - k).
Proof. intros. unfold zeros. rewrite <- replicate_add. f_equal. lia. Qed.

(** One field written over the zeros that follow what is already there. *)
Lemma copy_at_zeros off (src a : list byte) n k :
  off = length a -> length src = k -> (k <= n)%nat ->
  copy_at off src (a ++ zeros n) = (a ++ src) ++ zeros (n - k).
Proof.
  intros -> Hk Hn. rewrite (zeros_split n k) by done.
  rewrite copy_at_app; [by rewrite <- app_assoc|done|by rewrite length_zeros].
Qed.

(** A gap of padding left as zeros. *)
Lemma app_zeros_gap (a : list byte) n k :
  (k <= n)%nat -> a ++ zeros n = (a ++ zeros k) ++ zeros (n - k).
Proof. intros. rewrite <- app_assoc. f_equal. by apply zeros_split. Qed.

Create Rewrite HintDb lengths.
#[export] Hint Rewrite @length_app length_be_bytes length_zeros : lengths.

Lemma AppendTransferPayload_layout dst t : wf_transfer t ->
  AppendTransferPayload dst t = dst ++ concat (transfer_fields t).
Proof.
  intros [Hid Hde Hcr [_ _] Hkey Hus _ _ _ _ _].
  unfold AppendTransferPayload, TransferPayloadSize. cbv zeta.
  do 11 (erewrite copy_at_zeros;
         [|autorewrite with lengths; rewrite ?Hid, ?Hde, ?Hcr, ?Hkey, ?Hus; lia
          |first [eassumption | apply length_be_bytes] | lia]).
  rewrite (app_zeros_gap _ _ 2) by lia.
  erewrite copy_at_zeros;
    [|autorewrite with lengths; rewrite ?Hid, ?Hde, ?Hcr, ?Hkey, ?Hus; lia
     |apply length_be_bytes|lia].
  unfold transfer_fields. cbn [concat]. rewrite <- !app_assoc, app_nil_r. done.
Qed.

Lemma AppendAccountPayload_layout dst a : wf_account a ->
  AppendAccountPayload dst a = dst ++ concat (account_fields a).
Proof.
  intros [Hid Hcu _ _ _ Hus _ _ _ _].
  unfold AppendAccountPayload, AccountPayloadSize. cbv zeta.
  do 4 (erewrite copy_at_zeros;
         [|autorewrite with lengths; rewrite ?Hid, ?Hcu, ?Hus; lia
          |first [eassumption | apply length_be_bytes] | lia]).
  rewrite (app_zeros_gap _ _ 2) by lia.
  do 10 (erewrite copy_at_zeros;
         [|autorewrite with lengths; rewrite ?Hid, ?Hcu, ?Hus; lia
          |first [eassumption | apply length_be_bytes] | lia]).
  unfold account_fields. cbn [concat]. rewrite <- !app_assoc, app_nil_r. done.
Qed.

(** ** Reading fields back *)

Lemma slice_skip {A} lo hi (a b : list A) :
  (length a <= lo)%nat -> slice lo hi (a ++ b) = slice (lo - length a) (hi - length a) b.
Proof.
  intros. unfold slice. rewrite drop_app_ge by done. f_equal. lia.
Qed.

Lemma slice_here {A} lo hi (a b : list A) :
  lo = 0%nat -> hi = length a -> slice lo hi (a ++ b) = a.
Proof. intros -> ->. unfold slice. rewrite Nat.sub_0_r, drop_0. apply take_app_length. Qed.

Ltac lens := autorewrite with lengths;
  repeat match goal with H : length ?x = _ |- context [length ?x] => rewrite H end; lia.
Ltac read_fields := repeat first [rewrite slice_here by lens | rewrite slice_skip by lens].

Lemma length_transfer_payload t : wf_transfer t ->
  length (concat (transfer_fields t)) = TransferPayloadSize.
Proof.
  intros [Hid Hde Hcr [_ _] Hkey Hus _ _ _ _ _]. unfold transfer_fields, TransferPayloadSize.
  cbn [concat]. rewrite app_nil_r. lens.
Qed.

Lemma length_account_payload a : wf_account a ->
  length (concat (account_fields a)) = AccountPayloadSize.
Proof.
  intros [Hid Hcu _ _ _ Hus _ _ _ _]. unfold account_fields, AccountPayloadSize.
  cbn [concat]. rewrite app_nil_r. lens.
Qed.

Lemma DecodeTransferPayload_fields t : wf_transfer t ->
  DecodeTransferPayload (concat (transfer_fields t)) = Ok t.
Proof.
  intros Ht. unfold DecodeTransferPayload. rewrite length_transfer_payload by done.
  rewrite Nat.eqb_refl. cbn [negb]. cbv zeta.
  destruct Ht as [Hid Hde Hcr [Hlo Hhi] Hkey Hus Hts Hto Hle Hco Hfl].
  unfold transfer_fields, read_u128, read_be. cbn [concat].
  read_fields.
  rewrite !be_val_u64, !be_val_u32, be_val_u16 by auto with ledger.
  rewrite i64_u64 by done. by destruct t as [? ? ? []].
Qed.

Lemma DecodeAccountPayload_fields a : wf_account a ->
  DecodeAccountPayload (concat (account_fields a)) = Ok a.
Proof.
  intros Ha. unfold DecodeAccountPayload. rewrite length_account_payload by done.
  rewrite Nat.eqb_refl. cbn [negb]. cbv zeta.
  destruct Ha as [Hid Hcu Hle Hco Hfl Hus [? ?] [? ?] [? ?] [? ?]].
  unfold account_fields, read_u128, read_be. cbn [concat].
  read_fields.
  rewrite !be_val_u64, !be_val_u32, be_val_u16 by done.
  by destruct a as [? ? ? ? ? ? [] [] [] []].
Qed.

(** Decoding only ever yields values of the Go types. *)
Lemma length_slice {A} lo hi (b : list A) :
  (lo <= hi <= length b)%nat -> length (slice lo hi b) = (hi - lo)%nat.
Proof. intros. unfold slice. rewrite length_take, length_drop. lia. Qed.

Lemma read_be_range lo hi (b : list byte) : (lo <= hi <= length b)%nat ->
  0 <= read_be lo hi b < 2 ^ (8 * Z.of_nat (hi - lo)).
Proof.
  intros. unfold read_be. pose proof (be_val_range (slice lo hi b)) as R.
  by rewrite length_slice in R.
Qed.

Lemma i64_range z : is_i64 (i64 z).
Proof. unfold is_i64, i64. pose proof (Z.mod_pos_bound (z + 2 ^ 63) (2 ^ 64)). lia. Qed.

Lemma wf128_read off (b : list byte) : (off + 16 <= length b)%nat -> wf128 (read_u128 off b).
Proof.
  intros. unfold read_u128. split; simpl.
  - pose proof (read_be_range (off + 8) (off + 16) b ltac:(lia)) as R.
    by replace (off + 16 - (off + 8))%nat with 8%nat in R by lia.
  - pose proof (read_be_range off (off + 8) b ltac:(lia)) as R.
    by replace (off + 8 - off)%nat with 8%nat in R by lia.
Qed.

Lemma DecodeTransferPayload_wf b t : DecodeTransferPayload b = Ok t -> wf_transfer t.
Proof.
  unfold DecodeTransferPayload, TransferPayloadSize.
  destruct (Nat.eqb_spec (length b) 144) as [Hb|]; [cbn -[read_be read_u128 slice i64]|done]. intros [= <-].
  split; cbn -[read_be read_u128 slice i64];
    try (rewrite length_slice; [lia|lia]);
    try (apply wf128_read; lia); try apply i64_range;
    match goal with |- _ (read_be ?lo ?hi _) =>
      pose proof (read_be_range lo hi b ltac:(lia)) as R; exact R end.
Qed.

Lemma DecodeAccountPayload_wf b a : DecodeAccountPayload b = Ok a -> wf_account a.
Proof.
  unfold DecodeAccountPayload, AccountPayloadSize.
  destruct (Nat.eqb_spec (length b) 128) as [Hb|]; [cbn -[read_be read_u128 slice i64]|done]. intros [= <-].
  split; cbn -[read_be read_u128 slice i64];
    try (rewrite length_slice; [lia|lia]);
    try (apply wf128_read; lia);
    match goal with |- _ (read_be ?lo ?hi _) =>
      pose proof (read_be_range lo hi b ltac:(lia)) as R; exact R end.
Qed.

(** ** Round trips *)

Lemma DecodeTransferPayload_length b :
  length b <> TransferPayloadSize -> DecodeTransferPayload b = Err ErrInvalidTransferPayload.
Proof. intros H. unfold DecodeTransferPayload. by rewrite (proj2 (Nat.eqb_neq _ _) H). Qed.

Lemma DecodeAccountPayload_length b :
  length b <> AccountPayloadSize -> DecodeAccountPayload b = Err ErrInvalidAccountPayload.
Proof. intros H. unfold DecodeAccountPayload. by rewrite (proj2 (Nat.eqb_neq _ _) H). Qed.

(** appending a transfer's payload to any buffer leaves the buffer's bytes
    in place and adds exactly 144 bytes, which decode to the same transfer;
    decoding refuses every other length. *)
Theorem transfer_payload_roundtrip (dst : list byte) (t : Transfer) : wf_transfer t ->
  exists p, AppendTransferPayload dst t = dst ++ p /\ EncodeTransferPayload t = p
    /\ length p = TransferPayloadSize /\ DecodeTransferPayload p = Ok t
    /\ forall b, length b <> length p -> DecodeTransferPayload b = Err ErrInvalidTransferPayload.
Proof.
  intros Ht. exists (concat (transfer_fields t)).
  unfold EncodeTransferPayload. rewrite !AppendTransferPayload_layout, length_transfer_payload by done.
  split; [done|]. split; [done|]. split; [done|].
  split; [by apply DecodeTransferPayload_fields|apply DecodeTransferPayload_length].
Qed.

Lemma transfer_payload_roundtrip_witness :
  wf_transfer zeroTransfer
  /\ exists p, AppendTransferPayload [x01] zeroTransfer = [x01] ++ p
       /\ DecodeTransferPayload p = Ok zeroTransfer.
Proof.
  assert (H : wf_transfer zeroTransfer).
  { split; try reflexivity; unfold wf128, is_u64, is_u32, is_u16, is_i64; simpl; lia. }
  split; [exact H|].
  destruct (transfer_payload_roundtrip [x01] zeroTransfer H) as (p & E & _ & _ & D & _).
  exists p. split; [exact E|exact D].
Defined.

(** the same for accounts: 128 bytes appended, decoding inverts encoding,
    and every other length is refused. *)
Theorem account_payload_roundtrip (dst : list byte) (a : Account) : wf_account a ->
  exists p, AppendAccountPayload dst a = dst ++ p /\ EncodeAccountPayload a = p
    /\ length p = AccountPayloadSize /\ DecodeAccountPayload p = Ok a
    /\ forall b, length b <> length p -> DecodeAccountPayload b = Err ErrInvalidAccountPayload.
Proof.
  intros Ha. exists (concat (account_fields a)).
  unfold EncodeAccountPayload. rewrite !AppendAccountPayload_layout, length_account_payload by done.
  split; [done|]. split; [done|]. split; [done|].
  split; [by apply DecodeAccountPayload_fields|apply DecodeAccountPayload_length].
Qed.

Lemma account_payload_roundtrip_witness :
  wf_account zeroAccount
  /\ exists p, AppendAccountPayload [x02] zeroAccount = [x02] ++ p
       /\ DecodeAccountPayload p = Ok zeroAccount.
Proof.
  assert (H : wf_account zeroAccount).
  { split; try reflexivity; unfold wf128, is_u64, is_u32, is_u16, is_i64; simpl; lia. }
  split; [exact H|].
  destruct (account_payload_roundtrip [x02] zeroAccount H) as (p & E & _ & _ & D & _).
  exists p. split; [exact E|exact D].
Defined.
