(* ===== verification/Heap.v ===== *)
(** * Binary heaps over an interface (Go's container/heap)

    The engine keeps open holds in an [expiryHeap], a type that implements
    [heap.Interface], and manipulates it only through [heap.Push], [heap.Pop]
    and [heap.Remove].  [HeapInterface] is the interface; the package's
    functions are written against it, and [HeapLaws] states what an
    implementation owes.  From the laws: the three operations keep the heap
    order, keep the elements (as a multiset), and [Pop] removes a minimum. *)

From S2P Require Import Prelude.

(** ** The interface and the package's functions *)

Class HeapInterface (H X : Type) := {
  Len : H -> nat;
  Less : nat -> nat -> H -> bool;
  Swap : nat -> nat -> H -> H;
  IPush : X -> H -> H;
  (** [None] where the Go method would index an empty slice. *)
  IPop : H -> H * option X }.

Section Package.
Context {H X : Type} `{HeapInterface H X}.

(** [for { i := (j-1)/2; if i == j || !Less(j, i) { break }; Swap(i, j); j = i }];
    [j] decreases, so [j + 1] iterations are enough. *)
Fixpoint up (fuel j : nat) (h : H) : H :=
  match fuel with
  | O => h
  | S fuel' =>
      let i := ((j - 1) / 2)%nat in
      if (i =? j)%nat || negb (Less j i h) then h else up fuel' i (Swap i j h)
  end.

(** The loop of [down] from position [i] below bound [n]; returns the final
    position.  [i] increases, so [n] iterations are enough. *)
Fixpoint down (fuel i n : nat) (h : H) : H * nat :=
  match fuel with
  | O => (h, i)
  | S fuel' =>
      let j1 := (2 * i + 1)%nat in
      if (n <=? j1)%nat then (h, i)
      else
        let j2 := (j1 + 1)%nat in
        let j := if (j2 <? n)%nat && Less j2 j1 h then j2 else j1 in
        if negb (Less j i h) then (h, i)
        else down fuel' j n (Swap i j h)
  end.

Definition heap_Push (x : X) (h : H) : H :=
  let h := IPush x h in up (Len h) (Len h - 1) h.

Definition heap_Pop (h : H) : H * option X :=
  let n := (Len h - 1)%nat in
  let h := Swap 0 n h in
  let '(h, _) := down n 0 n h in
  IPop h.

Definition heap_Remove (i : nat) (h : H) : H * option X :=
  let n := (Len h - 1)%nat in
  let h :=
    if negb (n =? i)%nat then
      let h := Swap i n h in
      let '(h, i') := down n i n h in
      if (i <? i')%nat then h else up (i + 1) i h
    else h in
  IPop h.

(** A property closed under [Swap] survives the loops. *)
Lemma up_closed (P : H -> Prop) : (forall i j h, P h -> P (Swap i j h)) ->
  forall fuel j h, P h -> P (up fuel j h).
Proof.
  intros HP fuel. induction fuel as [|fuel IH]; intros j h Hh; simpl; [done|].
  case_match; auto.
Qed.

Lemma down_closed (P : H -> Prop) : (forall i j h, P h -> P (Swap i j h)) ->
  forall fuel i n h, P h -> P (down fuel i n h).1.
Proof.
  intros HP fuel. induction fuel as [|fuel IH]; intros i n h Hh; simpl; [done|].
  repeat case_match; simpl; auto.
Qed.
End Package.

(** ** Heap order on lists *)

(** [l[i], l[j] = l[j], l[i]] for indices in range. *)
Definition swapl {A} (i j : nat) (l : list A) : list A :=
  match l !! i, l !! j with
  | Some a, Some b => <[i:=b]> (<[j:=a]> l)
  | _, _ => l
  end.

Lemma length_swapl {A} i j (l : list A) : length (swapl i j l) = length l.
Proof. unfold swapl. repeat case_match; by rewrite ?length_insert. Qed.

Lemma lookup_swapl {A} i j k (l : list A) : (i < length l)%nat -> (j < length l)%nat ->
  swapl i j l !! k =
    if decide (k = i) then l !! j else if decide (k = j) then l !! i else l !! k.
Proof.
  intros Hi Hj. unfold swapl.
  destruct (lookup_lt_is_Some_2 l i Hi) as [a Ea], (lookup_lt_is_Some_2 l j Hj) as [b Eb].
  rewrite Ea, Eb. case_decide; subst.
  { by rewrite list_lookup_insert_eq by (by rewrite length_insert). }
  rewrite list_lookup_insert_ne by done. case_decide; subst.
  - by rewrite list_lookup_insert_eq.
  - by rewrite list_lookup_insert_ne.
Qed.

Lemma swapl_Permutation {A} i j (l : list A) : swapl i j l ≡ₚ l.
Proof.
  destruct (decide (i < length l)%nat) as [Hi|Hi];
    [destruct (decide (j < length l)%nat) as [Hj|Hj]|].
  - apply Permutation_inj. split; [apply length_swapl|].
    exists (fun k => if decide (k = i) then j else if decide (k = j) then i else k).
    split; [intros x y; repeat case_decide; congruence|].
    intros k. rewrite lookup_swapl by done. repeat case_decide; congruence.
  - unfold swapl. rewrite (lookup_ge_None_2 l j) by lia. by case_match.
  - unfold swapl. by rewrite (lookup_ge_None_2 l i) by lia.
Qed.

Lemma drop_swapl {A} n i j (l : list A) :
  (i < n)%nat -> (j < n)%nat -> (n <= length l)%nat -> drop n (swapl i j l) = drop n l.
Proof.
  intros. apply list_eq. intros k. rewrite !lookup_drop, lookup_swapl by lia.
  repeat case_decide; lia || done.
Qed.

Section Order.
Context {A : Type} (key : A -> Z).
Implicit Types l : list A.

Definition kat (l : list A) (i : nat) : Z :=
  match l !! i with Some a => key a | None => 0 end.
Definition parent (i : nat) : nat := ((i - 1) / 2)%nat.

(** The order holds on every edge among the first [n] positions. *)
Definition heap_on (n : nat) (l : list A) : Prop :=
  forall c, (0 < c < n)%nat -> kat l (parent c) <= kat l c.
(** The order holds except at the edge above [j]. *)
Definition up_inv (n j : nat) (l : list A) : Prop :=
  (forall c, (0 < c < n)%nat -> c <> j -> kat l (parent c) <= kat l c)
  /\ (forall c, (0 < c < n)%nat -> parent c = j -> (0 < j)%nat -> kat l (parent j) <= kat l c).
(** The order holds except at the edges around [i]. *)
Definition hole_inv (n i : nat) (l : list A) : Prop :=
  (forall c, (0 < c < n)%nat -> c <> i -> parent c <> i -> kat l (parent c) <= kat l c)
  /\ (forall c, (0 < c < n)%nat -> parent c = i -> (0 < i)%nat -> kat l (parent i) <= kat l c).

Lemma parent_lt c : (0 < c)%nat -> (parent c < c)%nat.
Proof. intros. unfold parent. apply Nat.Div0.div_lt_upper_bound. lia. Qed.

Lemma parent_children c i : (0 < c)%nat -> parent c = i <-> c = (2 * i + 1)%nat \/ c = (2 * i + 2)%nat.
Proof. intros. unfold parent. pose proof (Nat.div_mod_eq (c - 1) 2).
  pose proof (Nat.mod_upper_bound (c - 1) 2). lia. Qed.

Lemma kat_swapl i j k l : (i < length l)%nat -> (j < length l)%nat ->
  kat (swapl i j l) k =
    if decide (k = i) then kat l j else if decide (k = j) then kat l i else kat l k.
Proof. intros. unfold kat. rewrite lookup_swapl by done. by repeat case_decide. Qed.

Lemma heap_min n l i : heap_on n l -> (i < n)%nat -> kat l 0 <= kat l i.
Proof.
  intros Hh. induction i as [i IH] using lt_wf_ind. intros Hi.
  destruct (decide (i = 0%nat)) as [->|]; [lia|].
  pose proof (parent_lt i ltac:(lia)). specialize (IH (parent i) ltac:(lia) ltac:(lia)).
  specialize (Hh i ltac:(lia)). lia.
Qed.

Lemma up_inv_heap n j l : up_inv n j l ->
  (j = 0%nat \/ (n <= j)%nat \/ kat l (parent j) <= kat l j) -> heap_on n l.
Proof.
  intros [H1 _] Hj c Hc. destruct (decide (c = j)) as [->|]; [|auto].
  destruct Hj as [?|[?|?]]; auto; lia.
Qed.

Lemma up_inv_swap n j l : (n <= length l)%nat -> (0 < j < n)%nat ->
  up_inv n j l -> kat l j < kat l (parent j) -> up_inv n (parent j) (swapl (parent j) j l).
Proof.
  intros Hn Hj [H1 H2] Hlt. pose proof (parent_lt j ltac:(lia)) as Hp.
  assert (E : forall k, kat (swapl (parent j) j l) k =
    if decide (k = parent j) then kat l j else if decide (k = j) then kat l (parent j) else kat l k)
    by (intros; apply kat_swapl; lia).
  split.
  - intros c Hc Hne. pose proof (parent_lt c ltac:(lia)). rewrite !E.
    specialize (H1 c Hc). specialize (H2 c Hc).
    destruct (decide (parent c = parent j)) as [Ep|Ep].
    + rewrite Ep in H1. repeat case_decide; try lia.
    + repeat case_decide; simplify_eq; try lia; auto with lia.
  - intros c Hc Ec Hpos. rewrite !E.
    pose proof (parent_lt (parent j) ltac:(lia)). pose proof (parent_lt c ltac:(lia)).
    assert (kat l (parent (parent j)) <= kat l (parent j)) by (apply H1; lia).
    specialize (H1 c Hc). rewrite Ec in H1. repeat case_decide; lia.
Qed.

Lemma hole_inv_settle n i l : hole_inv n i l ->
  (forall c, (0 < c < n)%nat -> parent c = i -> kat l i <= kat l c) -> up_inv n i l.
Proof.
  intros [H1 H2] Hc. split; [|done]. intros c Hcn Hne.
  destruct (decide (parent c = i)) as [Ep|Ep]; [rewrite Ep; by apply Hc|by apply H1].
Qed.

Lemma hole_inv_swap n i j l : (n <= length l)%nat -> (0 < j < n)%nat -> parent j = i ->
  hole_inv n i l -> kat l j < kat l i ->
  (forall c, (0 < c < n)%nat -> parent c = i -> kat l j <= kat l c) ->
  hole_inv n j (swapl i j l) /\ kat (swapl i j l) (parent j) <= kat (swapl i j l) j.
Proof.
  intros Hn Hj Hp [H1 H2] Hlt Hmin. pose proof (parent_lt j ltac:(lia)) as Hp'.
  assert (E : forall k, kat (swapl i j l) k =
    if decide (k = i) then kat l j else if decide (k = j) then kat l i else kat l k)
    by (intros; apply kat_swapl; lia).
  split; [split|].
  - intros c Hc Hne Hnp. rewrite !E. pose proof (parent_lt c ltac:(lia)).
    specialize (H1 c Hc). specialize (Hmin c Hc).
    destruct (decide (c = i)) as [->|Hci].
    { specialize (H2 j Hj Hp ltac:(lia)). repeat case_decide; lia. }
    destruct (decide (parent c = i)) as [Ep|Ep]; repeat case_decide; try lia; auto.
  - intros c Hc Ec Hpos. rewrite !E. pose proof (parent_lt c ltac:(lia)).
    specialize (H1 c Hc). rewrite Ec in H1. specialize (H1 ltac:(lia) ltac:(lia)).
    repeat case_decide; lia.
  - rewrite !E, Hp. repeat case_decide; lia.
Qed.
End Order.

(** ** What an implementation owes *)

(** [view] is the array as a list of elements, [hkey] the sort key [Less]
    compares, [ref] what [Pop] hands back for an element, and [hwf] the
    representation invariant. *)
Class HeapLaws (H X A : Type) `{HeapInterface H X} := {
  view : H -> list A;
  hkey : A -> Z;
  ref : A -> X;
  hwf : H -> Prop;
  Len_view : forall h, Len h = length (view h);
  Less_view : forall h i j a b, hwf h -> view h !! i = Some a -> view h !! j = Some b ->
    Less i j h = (hkey a <? hkey b);
  Swap_wf : forall h i j, hwf h -> hwf (Swap i j h);
  Swap_view : forall h i j, hwf h -> view (Swap i j h) = swapl i j (view h);
  IPop_view : forall h l a, hwf h -> view h = l ++ [a] ->
    exists h', IPop h = (h', Some (ref a)) /\ hwf h' /\ view h' = l }.

Section Operations.
Context {H X A : Type} `{L : HeapLaws H X A}.

Abbreviation order := (heap_on hkey).
Definition heap_ok (h : H) : Prop := hwf h /\ order (length (view h)) (view h).

Lemma Less_kat h i j : hwf h -> (i < length (view h))%nat -> (j < length (view h))%nat ->
  Less i j h = (kat hkey (view h) i <? kat hkey (view h) j).
Proof.
  intros Hh Hi Hj. unfold kat.
  destruct (lookup_lt_is_Some_2 _ i Hi) as [a Ea], (lookup_lt_is_Some_2 _ j Hj) as [b Eb].
  rewrite Ea, Eb. by apply Less_view.
Qed.

Lemma up_spec n fuel j h : hwf h -> (n <= length (view h))%nat -> (j < n)%nat -> (j < fuel)%nat ->
  up_inv hkey n j (view h) ->
  hwf (up fuel j h) /\ order n (view (up fuel j h)) /\ view (up fuel j h) ≡ₚ view h
  /\ drop n (view (up fuel j h)) = drop n (view h).
Proof.
  revert j h. induction fuel as [|fuel IH]; intros j h Hh Hn Hj Hf Hinv; [lia|].
  cbn [up]. cbv zeta. fold (parent j).
  destruct (Nat.eqb_spec (parent j) j) as [E|E]; cbn [orb].
  { split; [done|]. split; [|done]. eapply up_inv_heap; [done|]. left.
    destruct (decide (j = 0%nat)); [done|]. pose proof (parent_lt j ltac:(lia)). lia. }
  assert (0 < j)%nat by (destruct j; [done|lia]).
  pose proof (parent_lt j ltac:(lia)).
  rewrite Less_kat by (done || lia).
  destruct (Z.ltb_spec (kat hkey (view h) j) (kat hkey (view h) (parent j))) as [Hlt|Hge]; cbn [negb].
  2:{ split; [done|]. split; [|done]. eapply up_inv_heap; [done|]. right; right; done. }
  destruct (IH (parent j) (Swap (parent j) j h)) as (W & O & P & D).
  - by apply Swap_wf.
  - rewrite Swap_view, length_swapl by done. done.
  - lia.
  - lia.
  - rewrite Swap_view by done. apply up_inv_swap; auto with lia.
  - rewrite Swap_view in P, D by done. split; [done|]. split; [done|].
    split; [rewrite P; apply swapl_Permutation|]. rewrite D. apply drop_swapl; lia.
Qed.

Lemma down_spec n fuel i0 i h : hwf h -> (n <= length (view h))%nat -> (i0 <= i)%nat ->
  (n <= i + fuel)%nat -> hole_inv hkey n i (view h) ->
  (i = i0 \/ kat hkey (view h) (parent i) <= kat hkey (view h) i) ->
  let '(h', i') := down fuel i n h in
  hwf h' /\ view h' ≡ₚ view h /\ drop n (view h') = drop n (view h) /\ (i <= i')%nat
  /\ (order n (view h') \/ (i' = i0 /\ up_inv hkey n i0 (view h'))).
Proof.
  revert i h. induction fuel as [|fuel IH]; intros i h Hh Hn Hi Hf Hinv Hup; cbn [down]; cbv zeta.
  { assert (up_inv hkey n i (view h)) as U.
    { apply hole_inv_settle; [done|]. intros c Hc Hp. pose proof (parent_lt c ltac:(lia)). lia. }
    repeat (split; [done|]). left. eapply up_inv_heap; [done|]. lia. }
  assert (Hstop : (forall c, (0 < c < n)%nat -> parent c = i ->
      kat hkey (view h) i <= kat hkey (view h) c) ->
    hwf h /\ view h ≡ₚ view h /\ drop n (view h) = drop n (view h) /\ (i <= i)%nat
    /\ (order n (view h) \/ (i = i0 /\ up_inv hkey n i0 (view h)))).
  { intros Hch. pose proof (hole_inv_settle _ _ _ _ Hinv Hch) as U.
    repeat (split; [done|]). destruct Hup as [->|Hup]; [by right|].
    left. eapply up_inv_heap; [done|]. auto. }
  destruct (Nat.leb_spec n (2 * i + 1)) as [Hb|Hb].
  { apply Hstop. intros c Hc Hp. apply parent_children in Hp; lia. }
  set (j1 := (2 * i + 1)%nat) in *.
  set (j := if (j1 + 1 <? n)%nat && Less (j1 + 1) j1 h then (j1 + 1)%nat else j1).
  assert (Hj : (0 < j < n)%nat /\ parent j = i /\
    forall c, (0 < c < n)%nat -> parent c = i -> kat hkey (view h) j <= kat hkey (view h) c).
  { assert (Hc : forall c, (0 < c)%nat -> parent c = i <-> c = j1 \/ c = (j1 + 1)%nat)
      by (intros; rewrite parent_children by done; unfold j1; lia).
    unfold j. destruct (Nat.ltb_spec (j1 + 1) n) as [Hj2|Hj2]; simpl.
    - rewrite Less_kat by (done || lia).
      case_match; (split; [lia|]; split; [apply Hc; lia|]; intros c ? [->| ->]%Hc; lia).
    - split; [lia|]. split; [apply Hc; lia|]. intros c ? [->| ->]%Hc; lia. }
  destruct Hj as (Hjn & Hpj & Hmin). clearbody j. pose proof (parent_lt j ltac:(lia)).
  rewrite Less_kat by (done || lia).
  destruct (Z.ltb_spec (kat hkey (view h) j) (kat hkey (view h) i)) as [Hlt|Hge]; cbn [negb].
  2:{ apply Hstop. intros c Hc Hp. specialize (Hmin c Hc Hp). lia. }
  destruct (hole_inv_swap hkey n i j (view h)) as [Hhole Htop]; try done.
  specialize (IH j (Swap i j h)). destruct (down fuel j n (Swap i j h)) as [h' i'].
  rewrite Swap_view, length_swapl in IH by done.
  destruct IH as (W & P & D & Hle & O); auto using Swap_wf with lia.
  split; [done|]. split; [rewrite P; apply swapl_Permutation|].
  split; [|split; [lia|]].
  - rewrite D. apply drop_swapl; lia.
  - destruct O as [O|[-> _]]; [by left|lia].
Qed.

(** Push: the new element joins the others and the order is kept. *)
Lemma heap_Push_spec h x a : hwf (IPush x h) -> view (IPush x h) = view h ++ [a] ->
  order (length (view h)) (view h) ->
  heap_ok (heap_Push x h) /\ view (heap_Push x h) ≡ₚ a :: view h.
Proof.
  intros Hw Hv Ho. unfold heap_Push. rewrite Len_view.
  set (h1 := IPush x h) in *. set (n := length (view h1)).
  assert (Hn : n = S (length (view h))) by (unfold n; rewrite Hv, length_app; simpl; lia).
  destruct (up_spec n n (n - 1) h1) as (W & O & P & _); try done; try lia.
  { split.
    - intros c Hc Hne. specialize (Ho c ltac:(lia)). pose proof (parent_lt c ltac:(lia)).
      unfold kat in *. rewrite Hv, !lookup_app_l by lia. done.
    - intros c Hc Hp. pose proof (parent_lt c ltac:(lia)). lia. }
  split; [split; [done|]|].
  - by rewrite (Permutation_length P).
  - rewrite P, Hv. apply Permutation_app_comm.
Qed.

(** What the tail of Pop and Remove does once the first [n] positions are in order. *)
Lemma pop_last h l a : heap_ok h \/ (hwf h /\ order (length l) (view h)) ->
  view h = l ++ [a] ->
  exists h', IPop h = (h', Some (ref a)) /\ heap_ok h' /\ view h' = l.
Proof.
  intros Hh Hv.
  assert (Ho : hwf h /\ order (length l) l).
  { assert (hwf h /\ order (length l) (view h)) as [? Ho].
    { destruct Hh as [[? Ho]|?]; [|done]. split; [done|]. intros c Hc. apply Ho.
      rewrite Hv, length_app. simpl. lia. }
    split; [done|]. intros c Hc. specialize (Ho c Hc). pose proof (parent_lt c ltac:(lia)).
    unfold kat in *. by rewrite Hv, !lookup_app_l in Ho by lia. }
  destruct Ho as [Hw Ho]. destruct (IPop_view h l a Hw Hv) as (h' & E & W & V).
  exists h'. split; [done|]. split; [|done]. split; [done|]. by rewrite V.
Qed.

(** An element list whose last cell is known, after a reordering of the rest. *)
Lemma drop_last_app (l l' : list A) n a :
  length l = S n -> l' ≡ₚ l -> drop n l' = drop n l -> l !! n = Some a ->
  exists k, l' = k ++ [a] /\ length k = n.
Proof.
  intros Hl HP HD Ha. exists (take n l'). split.
  - rewrite <- (take_drop n l') at 1. f_equal. rewrite HD.
    rewrite (drop_S l a n) by done. rewrite drop_ge by lia. done.
  - rewrite length_take, (Permutation_length HP). lia.
Qed.

(** The removed element was moved to the end, the rest put in order. *)
Lemma pop_finish h h2 i n a : length (view h) = S n -> view h !! i = Some a ->
  hwf h2 -> order n (view h2) -> view h2 ≡ₚ swapl i n (view h) ->
  drop n (view h2) = drop n (swapl i n (view h)) ->
  exists h', IPop h2 = (h', Some (ref a)) /\ heap_ok h' /\ a :: view h' ≡ₚ view h.
Proof.
  intros Hl Ha W2 O2 P2 D2. pose proof (lookup_lt_Some _ _ _ Ha) as Hi.
  assert (Hlast : swapl i n (view h) !! n = Some a).
  { rewrite lookup_swapl by lia. repeat case_decide; congruence. }
  destruct (drop_last_app (swapl i n (view h)) (view h2) n a) as (k & Hk & Hkl); try done.
  { by rewrite length_swapl. }
  destruct (pop_last h2 k a) as (h' & E & O & V); [right; by rewrite Hkl|done|].
  exists h'. split; [done|]. split; [done|].
  rewrite V, <- (swapl_Permutation i n (view h)), <- P2, Hk. apply Permutation_cons_append.
Qed.

(** The array after the element to remove has been swapped with the last one. *)
Lemma hole_after_swap h i n : heap_ok h -> length (view h) = S n -> (i <= n)%nat ->
  hole_inv hkey n i (swapl i n (view h)).
Proof.
  intros [Hw Ho] Hl Hi.
  assert (Hsw : forall c, c <> i -> c <> n -> kat hkey (swapl i n (view h)) c = kat hkey (view h) c).
  { intros c ? ?. rewrite kat_swapl by lia. by rewrite !decide_False. }
  split.
  - intros c Hc ? ?. pose proof (parent_lt c ltac:(lia)). rewrite !Hsw by lia. apply Ho. lia.
  - intros c Hc Hp Hi0. pose proof (parent_lt c ltac:(lia)). pose proof (parent_lt i ltac:(lia)).
    rewrite !Hsw by lia. etrans; [apply (Ho i); lia|]. rewrite <- Hp. apply Ho. lia.
Qed.

(** Remove: exactly the element at [i] leaves. *)
Lemma heap_Remove_spec h i a : heap_ok h -> view h !! i = Some a ->
  exists h', heap_Remove i h = (h', Some (ref a)) /\ heap_ok h' /\ a :: view h' ≡ₚ view h.
Proof.
  intros [Hw Ho] Ha. pose proof (lookup_lt_Some _ _ _ Ha) as Hi.
  unfold heap_Remove. rewrite Len_view. set (n := (length (view h) - 1)%nat).
  destruct (Nat.eqb_spec n i) as [<-|Hne]; cbn [negb].
  { destruct (drop_last_app (view h) (view h) n a) as (k & Hk & _); try done; [lia|].
    destruct (pop_last h k a) as (h' & E & O & V); [by left|done|].
    exists h'. split; [done|]. split; [done|]. rewrite V, Hk. apply Permutation_cons_append. }
  pose proof (hole_after_swap h i n (conj Hw Ho) ltac:(lia) ltac:(lia)) as Hhole.
  pose proof (down_spec n n i i (Swap i n h)) as D.
  destruct (down n i n (Swap i n h)) as [h1 i1].
  rewrite Swap_view, length_swapl in D by done.
  destruct D as (W1 & P1 & D1 & Hle & O1); auto using Swap_wf with lia.
  set (h2 := if (i <? i1)%nat then h1 else up (i + 1) i h1).
  assert (H2 : hwf h2 /\ order n (view h2) /\ view h2 ≡ₚ swapl i n (view h)
    /\ drop n (view h2) = drop n (swapl i n (view h))).
  { assert (Hl1 : length (view h1) = length (view h)) by (by rewrite (Permutation_length P1), length_swapl).
    unfold h2. destruct (Nat.ltb_spec i i1) as [Hlt|Hge].
    { destruct O1 as [O1|[-> _]]; [done|lia]. }
    assert (U : up_inv hkey n i (view h1)).
    { destruct O1 as [O1|[_ U]]; [|done]. split; [auto|].
      intros c Hc Hp Hi0. etrans; [apply (O1 i); lia|]. rewrite <- Hp. apply O1. lia. }
    destruct (up_spec n (i + 1) i h1) as (W2 & O2 & P2 & D2); try done; try lia.
    split; [done|]. split; [done|]. split; [by rewrite P2|by rewrite D2]. }
  destruct H2 as (W2 & O2 & P2 & D2). by apply (pop_finish h h2 i n a); [lia|..].
Qed.

Lemma heap_Pop_spec h a : heap_ok h -> view h !! 0%nat = Some a ->
  exists h', heap_Pop h = (h', Some (ref a)) /\ heap_ok h' /\ a :: view h' ≡ₚ view h.
Proof.
  intros [Hw Ho] Ha. pose proof (lookup_lt_Some _ _ _ Ha) as Hi.
  unfold heap_Pop. rewrite Len_view. set (n := (length (view h) - 1)%nat).
  pose proof (hole_after_swap h 0 n (conj Hw Ho) ltac:(lia) ltac:(lia)) as Hhole.
  pose proof (down_spec n n 0 0 (Swap 0 n h)) as D.
  destruct (down n 0 n (Swap 0 n h)) as [h1 i1].
  rewrite Swap_view, length_swapl in D by done.
  destruct D as (W1 & P1 & D1 & _ & O1); auto using Swap_wf with lia.
  apply (pop_finish h h1 0 n a); try done; [lia|].
  destruct O1 as [O1|[_ U]]; [done|]. eapply up_inv_heap; [done|]. by left.
Qed.

(** The root is a minimum. *)
Lemma heap_root_min h a b : heap_ok h -> view h !! 0%nat = Some a -> b ∈ view h ->
  hkey a <= hkey b.
Proof.
  intros [_ Ho] Ha (i & Hi)%list_elem_of_lookup.
  pose proof (heap_min hkey _ _ i Ho (lookup_lt_Some _ _ _ Hi)) as Hm.
  unfold kat in Hm. by rewrite Ha, Hi in Hm.
Qed.
End Operations.
