(* ===== verification/Balance.v ===== *)
(** * Balances (internal/core/account.go)

    Posted and available balance of an account, and what they compute on
    accounts whose words are within the Go types. *)

From S2P Require Import Prelude Core Uint128.

Definition Balance (a : Account) : result Uint128 error :=
  match Sub (a_PostedCredits a) (a_PostedDebits a) with
  | Err _ => Err (ErrInvariantViolation (a_ID a) (a_PostedDebits a) (a_PostedCredits a))
  | Ok bal => Ok bal
  end.

Definition AvailableBalance (a : Account) : result Uint128 error :=
  posted <-? Balance a ;;
  match Sub posted (a_PendingDebits a) with
  | Err _ => Err (ErrInvariantViolation (a_ID a) (a_PostedDebits a) zero128)
  | Ok avail =>
      match Add avail (a_PendingCredits a) with
      | Err _ => Err (ErrBalanceOverflow (a_ID a))
      | Ok avail => Ok avail
      end
  end.

(** The amount fields as integers. *)
Definition vPD (a : Account) : Z := val (a_PostedDebits a).
Definition vPC (a : Account) : Z := val (a_PostedCredits a).
Definition vHD (a : Account) : Z := val (a_PendingDebits a).
Definition vHC (a : Account) : Z := val (a_PendingCredits a).

(** The words of the four amounts are 64-bit. *)
Definition amounts_wf (a : Account) : Prop :=
  wf128 (a_PostedDebits a) /\ wf128 (a_PostedCredits a)
  /\ wf128 (a_PendingDebits a) /\ wf128 (a_PendingCredits a).

Lemma Balance_Ok a b : amounts_wf a -> Balance a = Ok b ->
  wf128 b /\ val b = vPC a - vPD a /\ vPD a <= vPC a.
Proof.
  intros (HPD & HPC & _) H. unfold Balance in H.
  destruct (Sub _ _) as [c|] eqn:E; simplify_eq.
  apply Sub_Ok in E as [Hw E]; [|done..]. pose proof (val_range b Hw). unfold vPC, vPD. auto with lia.
Qed.

Lemma Balance_total a : amounts_wf a -> vPD a <= vPC a ->
  exists b, Balance a = Ok b /\ wf128 b /\ val b = vPC a - vPD a.
Proof.
  intros (HPD & HPC & _) H. unfold Balance.
  destruct (Sub_total (a_PostedCredits a) (a_PostedDebits a)) as (c & -> & ? & ?); eauto.
Qed.

Lemma Balance_iff a : amounts_wf a -> (exists b, Balance a = Ok b) <-> vPD a <= vPC a.
Proof.
  intros Ha. split.
  - intros (b & Hb). by apply Balance_Ok in Hb as (_ & _ & ?).
  - intros H. destruct (Balance_total a Ha H) as (b & ? & _). eauto.
Qed.

Lemma AvailableBalance_Ok a b : amounts_wf a -> AvailableBalance a = Ok b ->
  wf128 b /\ val b = vPC a - vPD a - vHD a + vHC a /\ vPD a + vHD a <= vPC a.
Proof.
  intros Ha H. pose proof Ha as (HPD & HPC & HHD & HHC). unfold AvailableBalance in H.
  destruct (Balance a) as [p|] eqn:EB; simplify_eq/=.
  apply Balance_Ok in EB as (Hp & Ep & Hle); [|done].
  destruct (Sub p _) as [av|] eqn:ES; simplify_eq/=.
  apply Sub_Ok in ES as [Hav Eav]; [|done..]. pose proof (val_range av Hav).
  destruct (Add av _) as [c|] eqn:EA; simplify_eq/=.
  apply Add_Ok in EA as [Hc Ec]; [|done..]. unfold vPC, vPD, vHD, vHC in *. auto with lia.
Qed.

Lemma AvailableBalance_total a : amounts_wf a -> vPD a + vHD a <= vPC a ->
  vPC a - vPD a - vHD a + vHC a < 2 ^ 128 -> exists b, AvailableBalance a = Ok b.
Proof.
  intros Ha H1 H2. pose proof Ha as (HPD & HPC & HHD & HHC). pose proof (val_range _ HHD).
  pose proof (val_range _ HHC). unfold AvailableBalance, vHD, vHC in *.
  destruct (Balance_total a Ha ltac:(lia)) as (b & -> & Wb & Vb). simpl.
  destruct (Sub_total b (a_PendingDebits a)) as (x & -> & Wx & Vx); [done|done|lia|].
  pose proof (Add_spec x (a_PendingCredits a) Wx HHC) as A.
  rewrite (proj2 (Z.ltb_lt _ _)) in A by lia. destruct A as (y & -> & _). eauto.
Qed.
