(* ===== verification/Expiry.v ===== *)
(** * Open holds and their deadline heap (internal/engine/accounts.go, lines 11-25)

    A hold is a [pendingEntry] allocated once and shared, by pointer, between
    the manager's [pending] map and the [expiry] heap: a partial settlement
    writes through the map and is seen through the heap.  Pointers are
    addresses into a store of entries, and the heap is a slice of addresses.
    [expiryHeap] implements the heap interface, so the laws of [Heap] apply. *)

From S2P Require Import Prelude Core Heap.

Record pendingEntry := mkPending {
  pe_transfer : Transfer;
  pe_expires : Z;
  pe_heapIdx : nat }.

Definition set_heapIdx (i : nat) (e : pendingEntry) : pendingEntry :=
  mkPending (pe_transfer e) (pe_expires e) i.
Definition set_transfer (t : Transfer) (e : pendingEntry) : pendingEntry :=
  mkPending t (pe_expires e) (pe_heapIdx e).

(** The slice of pointers, with the store they point into. *)
Record expiryHeap := mkExpiry {
  es_store : gmap nat pendingEntry;
  es_arr : list nat }.

(** [h[i].expires]; an index out of range is a panic in Go, and [expiry_wf]
    keeps every index the package uses in range. *)
Definition expires_at (h : expiryHeap) (a : nat) : Z :=
  match es_store h !! a with Some e => pe_expires e | None => 0 end.

Definition expiry_Less (i j : nat) (h : expiryHeap) : bool :=
  match es_arr h !! i, es_arr h !! j with
  | Some a, Some b => expires_at h a <? expires_at h b
  | _, _ => false
  end.

Definition expiry_Swap (i j : nat) (h : expiryHeap) : expiryHeap :=
  match es_arr h !! i, es_arr h !! j with
  | Some a, Some b =>
      mkExpiry (alter (set_heapIdx j) a (alter (set_heapIdx i) b (es_store h)))
        (<[i:=b]> (<[j:=a]> (es_arr h)))
  | _, _ => h
  end.

Definition expiry_Push (a : nat) (h : expiryHeap) : expiryHeap :=
  mkExpiry (alter (set_heapIdx (length (es_arr h))) a (es_store h)) (es_arr h ++ [a]).

Definition expiry_Pop (h : expiryHeap) : expiryHeap * option nat :=
  let n := length (es_arr h) in
  (mkExpiry (es_store h) (take (n - 1) (es_arr h)), es_arr h !! (n - 1)%nat).

#[export] Instance expiry_interface : HeapInterface expiryHeap nat := {
  Len h := length (es_arr h);
  Less := expiry_Less;
  Swap := expiry_Swap;
  IPush := expiry_Push;
  IPop := expiry_Pop }.

(** ** The laws *)

(** Every pointer is allocated, appears once, and knows its position. *)
Definition expiry_wf (h : expiryHeap) : Prop :=
  NoDup (es_arr h) /\
  forall i a, es_arr h !! i = Some a -> exists e, es_store h !! a = Some e /\ pe_heapIdx e = i.

Definition expiry_view (h : expiryHeap) : list (nat * Z) :=
  (fun a => (a, expires_at h a)) <$> es_arr h.

(** What the heap operations leave alone: the entries but for [heapIdx]. *)
Definition entries_rest (s : gmap nat pendingEntry) : gmap nat (Transfer * Z) :=
  (fun e => (pe_transfer e, pe_expires e)) <$> s.

Lemma entries_rest_alter i a s : entries_rest (alter (set_heapIdx i) a s) = entries_rest s.
Proof.
  unfold entries_rest. apply map_eq. intros k. rewrite !lookup_fmap, lookup_alter.
  case_decide; subst; [|done]. by destruct (s !! k).
Qed.

Lemma expires_at_rest h h' a :
  entries_rest (es_store h) = entries_rest (es_store h') -> expires_at h a = expires_at h' a.
Proof.
  intros E. apply (f_equal (fun m => m !! a)) in E. unfold entries_rest in E.
  rewrite !lookup_fmap in E. unfold expires_at.
  destruct (es_store h !! a), (es_store h' !! a); naive_solver.
Qed.

Lemma swap_rest i j h : entries_rest (es_store (expiry_Swap i j h)) = entries_rest (es_store h).
Proof. unfold expiry_Swap. repeat case_match; simpl; by rewrite ?entries_rest_alter. Qed.

Lemma swap_arr i j h : es_arr (expiry_Swap i j h) = swapl i j (es_arr h).
Proof. unfold expiry_Swap, swapl. by repeat case_match. Qed.

Lemma swapl_fmap {A B} (f : A -> B) i j l : swapl i j (f <$> l) = f <$> swapl i j l.
Proof.
  unfold swapl. rewrite !list_lookup_fmap.
  destruct (l !! i), (l !! j); simpl; by rewrite ?list_fmap_insert.
Qed.

Lemma view_rest h h' : es_arr h = es_arr h' ->
  entries_rest (es_store h) = entries_rest (es_store h') -> expiry_view h = expiry_view h'.
Proof.
  intros Ea Er. unfold expiry_view. rewrite Ea. apply list_fmap_ext. intros i a _.
  by rewrite (expires_at_rest h h').
Qed.

Lemma expiry_swap_wf h i j : expiry_wf h -> expiry_wf (expiry_Swap i j h).
Proof.
  intros [Hnd Hidx]. pose proof (swap_arr i j h) as Earr.
  split; [rewrite Earr, swapl_Permutation; done|].
  unfold expiry_Swap in *. destruct (es_arr h !! i) as [a|] eqn:Ei; [|done].
  destruct (es_arr h !! j) as [b|] eqn:Ej; [|done]. simpl in *.
  pose proof (lookup_lt_Some _ _ _ Ei). pose proof (lookup_lt_Some _ _ _ Ej).
  intros k c Hk. rewrite Earr, lookup_swapl in Hk by done.
  destruct (Hidx _ _ Ei) as (ea & Ea & _), (Hidx _ _ Ej) as (eb & Eb & _).
  assert (Hab : a = b -> i = j) by (intros ->; by eapply NoDup_lookup).
  assert (Hc : forall k' c', es_arr h !! k' = Some c' -> c' = a -> k' = i)
    by (intros k' c' ? ->; by eapply NoDup_lookup).
  assert (Hd : forall k' c', es_arr h !! k' = Some c' -> c' = b -> k' = j)
    by (intros k' c' ? ->; by eapply NoDup_lookup).
  case_decide as Hki; [|case_decide as Hkj].
  - subst k. rewrite Ej in Hk. injection Hk as <-. destruct (decide (a = b)) as [->|Hne].
    + rewrite lookup_alter_eq, lookup_alter_eq, Eb. eexists. split; [done|]. simpl. symmetry. auto.
    + rewrite lookup_alter_ne, lookup_alter_eq, Eb by done. eexists. split; done.
  - subst k. rewrite Ei in Hk. injection Hk as <-. rewrite lookup_alter_eq.
    rewrite (lookup_alter_ne _ _ b a), Ea by naive_solver. eexists. split; done.
  - destruct (Hidx _ _ Hk) as (e & E & Hi). exists e. split; [|done].
    rewrite !lookup_alter_ne; [done|..]; intros <-; eauto.
Qed.

#[export] Program Instance expiry_laws : HeapLaws expiryHeap nat (nat * Z) := {
  view := expiry_view;
  hkey := snd;
  ref := fst;
  hwf := expiry_wf }.
Next Obligation. intros h. simpl. unfold expiry_view. by rewrite length_fmap. Qed.
Next Obligation.
  intros h i j a b _ Ha Hb. simpl. unfold expiry_Less, expiry_view in *.
  rewrite list_lookup_fmap in Ha, Hb.
  destruct (es_arr h !! i), (es_arr h !! j); by simplify_eq/=.
Qed.
Next Obligation. intros h i j. apply expiry_swap_wf. Qed.
Next Obligation.
  intros h i j _. simpl. unfold expiry_view at 2. rewrite swapl_fmap, <- swap_arr.
  unfold expiry_view. apply list_fmap_ext. intros k a _.
  by rewrite (expires_at_rest _ _ a (swap_rest i j h)).
Qed.
Next Obligation.
  intros h l a [Hnd Hidx] Hv. unfold expiry_view in Hv.
  apply fmap_app_inv in Hv as (l1 & l2 & -> & Hl2 & Harr).
  symmetry in Hl2. apply fmap_cons_inv in Hl2 as (x & l3 & -> & Hl3 & ->).
  symmetry in Hl3. apply fmap_nil_inv in Hl3 as ->.
  simpl. unfold expiry_Pop. rewrite Harr, length_app. simpl.
  replace (length l1 + 1 - 1)%nat with (length l1) by lia.
  rewrite take_app_length, lookup_app_r, Nat.sub_diag by lia. simpl.
  eexists. split; [done|]. split; [|done].
  rewrite Harr in Hnd, Hidx. split; simpl.
  - by apply NoDup_app in Hnd as (? & _).
  - intros i c Hc. apply Hidx. by apply lookup_app_l_Some.
Qed.

(** ** The heap calls of the manager *)

Lemma rest_closed R : forall i j h, entries_rest (es_store h) = R ->
  entries_rest (es_store (Swap i j h)) = R.
Proof. intros i j h <-. apply swap_rest. Qed.

Lemma arr_of_view h : es_arr h = fst <$> expiry_view h.
Proof. unfold expiry_view. rewrite <- list_fmap_compose. by rewrite list_fmap_id. Qed.

Lemma push_rest a h : entries_rest (es_store (heap_Push a h)) = entries_rest (es_store h).
Proof.
  unfold heap_Push. apply up_closed with (P := fun h' => entries_rest (es_store h') = _);
    [apply rest_closed|]. apply entries_rest_alter.
Qed.

Lemma pop_closed R h : entries_rest (es_store h) = R -> entries_rest (es_store (IPop h).1) = R.
Proof. done. Qed.

Lemma remove_rest i h : entries_rest (es_store (heap_Remove i h).1) = entries_rest (es_store h).
Proof.
  unfold heap_Remove. apply pop_closed.
  set (P := fun h' => entries_rest (es_store h') = entries_rest (es_store h)).
  assert (Hc : forall i j h', P h' -> P (Swap i j h')) by (intros ???; apply rest_closed).
  case_match; [|done]. pose proof (down_closed P Hc (Len h - 1) i (Len h - 1) (Swap i (Len h - 1) h)
    (Hc _ _ _ eq_refl)) as Hd.
  destruct (down _ _ _ _) as [h1 b]. simpl in Hd. case_match; [done|]. by apply up_closed.
Qed.

Lemma heap_pop_rest h : entries_rest (es_store (heap_Pop h).1) = entries_rest (es_store h).
Proof.
  unfold heap_Pop.
  set (P := fun h' => entries_rest (es_store h') = entries_rest (es_store h)).
  assert (Hc : forall i j h', P h' -> P (Swap i j h')) by (intros ???; apply rest_closed).
  pose proof (down_closed P Hc (Len h - 1) 0 (Len h - 1) (Swap 0 (Len h - 1) h)
    (Hc _ _ _ eq_refl)) as Hd.
  by destruct (down _ _ _ _).
Qed.

Lemma expiry_push_spec h a e : heap_ok h -> es_store h !! a = Some e -> a ∉ es_arr h ->
  heap_ok (heap_Push a h) /\ es_arr (heap_Push a h) ≡ₚ a :: es_arr h.
Proof.
  intros [[Hnd Hidx] Ho] Ea Hna.
  assert (Hv : view (IPush a h) = view h ++ [(a, expires_at h a)]).
  { change (expiry_view (expiry_Push a h) = expiry_view h ++ [(a, expires_at h a)]).
    unfold expiry_view. simpl. rewrite fmap_app. simpl.
    assert (E : forall b, expires_at (expiry_Push a h) b = expires_at h b)
      by (intros; apply expires_at_rest, entries_rest_alter).
    f_equal; [apply list_fmap_ext; intros; by rewrite E|by rewrite E]. }
  destruct (heap_Push_spec h a (a, expires_at h a)) as [Hok Hp]; [|done|done|].
  - split; simpl.
    + apply NoDup_app. split; [done|]. split; [|apply NoDup_singleton].
      intros x Hx ->%list_elem_of_singleton. done.
    + intros i b [Hb|[Hi Hb]]%lookup_app_Some.
      * destruct (Hidx _ _ Hb) as (eb & Eb & ?). exists eb.
        rewrite lookup_alter_ne; [done|]. intros <-. apply Hna. by apply list_elem_of_lookup_2 in Hb.
      * apply list_lookup_singleton_Some in Hb as [Hi0 <-]. exists (set_heapIdx (length (es_arr h)) e).
        rewrite lookup_alter_eq, Ea. split; [done|]. simpl. lia.
  - split; [done|]. rewrite !arr_of_view. change (fst <$> view (heap_Push a h) ≡ₚ a :: (fst <$> view h)).
    by rewrite Hp.
Qed.

Lemma view_lookup h i a : es_arr h !! i = Some a -> view h !! i = Some (a, expires_at h a).
Proof.
  intros E. change (expiry_view h !! i = Some (a, expires_at h a)). unfold expiry_view.
  by rewrite list_lookup_fmap, E.
Qed.

Lemma arr_perm h h' (x : nat * Z) : x :: view h' ≡ₚ view h -> x.1 :: es_arr h' ≡ₚ es_arr h.
Proof.
  intros E. rewrite !arr_of_view. change (fst <$> x :: view h' ≡ₚ fst <$> view h). by rewrite E.
Qed.

Lemma expiry_remove_spec h i a : heap_ok h -> es_arr h !! i = Some a ->
  heap_ok (heap_Remove i h).1 /\ a :: es_arr (heap_Remove i h).1 ≡ₚ es_arr h.
Proof.
  intros Hok E. apply view_lookup in E.
  destruct (heap_Remove_spec h i _ Hok E) as (h' & -> & ? & Hp). split; [done|].
  by apply arr_perm in Hp.
Qed.

Lemma expiry_pop_spec h a : heap_ok h -> es_arr h !! 0%nat = Some a ->
  heap_ok (heap_Pop h).1 /\ a :: es_arr (heap_Pop h).1 ≡ₚ es_arr h.
Proof.
  intros Hok E. apply view_lookup in E.
  destruct (heap_Pop_spec h _ Hok E) as (h' & -> & ? & Hp). split; [done|].
  by apply arr_perm in Hp.
Qed.

(** The first entry has the earliest deadline. *)
Lemma expiry_top h a b : heap_ok h -> es_arr h !! 0%nat = Some a -> b ∈ es_arr h ->
  expires_at h a <= expires_at h b.
Proof.
  intros Hok E (i & Hi)%list_elem_of_lookup. apply view_lookup in E, Hi.
  apply (heap_root_min h (a, expires_at h a) (b, expires_at h b) Hok E).
  by apply list_elem_of_lookup_2 in Hi.
Qed.
