(* ===== verification/Accounts.v ===== *)
(** * The account state machine (internal/engine/accounts.go)

    [AccountManager] holds the accounts slice with its ID index, the logical
    clock, the open holds (a pointer map into a store of entries, and the
    deadline heap of [Expiry]) and the transfer index.  Methods with a pointer
    receiver are computations of the monad [AM]: a failing method keeps what it
    wrote before failing. *)

From S2P Require Import Prelude Core Uint128 Balance Heap Expiry.

Record AccountManager := mkAccountManager {
  m_accounts : list Account;
  m_index : gmap ID nat;
  m_clock : Z;
  m_entries : gmap nat pendingEntry;   (* the allocated pendingEntry values *)
  m_next : nat;                        (* the next free address *)
  m_pending : gmap ID nat;             (* transfer ID to entry pointer *)
  m_expiry : list nat;
  m_transfers : gmap ID Transfer;
  m_history : gmap ID (list ID) }.

Abbreviation AM := (M AccountManager error).

Definition set_accounts (v : list Account) (m : AccountManager) : AccountManager :=
  mkAccountManager v (m_index m) (m_clock m) (m_entries m) (m_next m) (m_pending m)
    (m_expiry m) (m_transfers m) (m_history m).
Definition set_index (v : gmap ID nat) (m : AccountManager) : AccountManager :=
  mkAccountManager (m_accounts m) v (m_clock m) (m_entries m) (m_next m) (m_pending m)
    (m_expiry m) (m_transfers m) (m_history m).
Definition set_clock (v : Z) (m : AccountManager) : AccountManager :=
  mkAccountManager (m_accounts m) (m_index m) v (m_entries m) (m_next m) (m_pending m)
    (m_expiry m) (m_transfers m) (m_history m).
Definition set_entries (v : gmap nat pendingEntry) (m : AccountManager) : AccountManager :=
  mkAccountManager (m_accounts m) (m_index m) (m_clock m) v (m_next m) (m_pending m)
    (m_expiry m) (m_transfers m) (m_history m).
Definition set_next (v : nat) (m : AccountManager) : AccountManager :=
  mkAccountManager (m_accounts m) (m_index m) (m_clock m) (m_entries m) v (m_pending m)
    (m_expiry m) (m_transfers m) (m_history m).
Definition set_pending (v : gmap ID nat) (m : AccountManager) : AccountManager :=
  mkAccountManager (m_accounts m) (m_index m) (m_clock m) (m_entries m) (m_next m) v
    (m_expiry m) (m_transfers m) (m_history m).
Definition set_transfers (v : gmap ID Transfer) (m : AccountManager) : AccountManager :=
  mkAccountManager (m_accounts m) (m_index m) (m_clock m) (m_entries m) (m_next m) (m_pending m)
    (m_expiry m) v (m_history m).
Definition set_history (v : gmap ID (list ID)) (m : AccountManager) : AccountManager :=
  mkAccountManager (m_accounts m) (m_index m) (m_clock m) (m_entries m) (m_next m) (m_pending m)
    (m_expiry m) (m_transfers m) v.

(** [&m.expiry], the receiver of the heap package's calls. *)
Definition expiry_of (m : AccountManager) : expiryHeap := mkExpiry (m_entries m) (m_expiry m).
Definition with_expiry (h : expiryHeap) (m : AccountManager) : AccountManager :=
  mkAccountManager (m_accounts m) (m_index m) (m_clock m) (es_store h) (m_next m) (m_pending m)
    (es_arr h) (m_transfers m) (m_history m).

(** Reading and writing through a [*core.Account] or [*pendingEntry]. *)
Definition acc_at (m : AccountManager) (i : nat) : Account :=
  default zeroAccount (m_accounts m !! i).
Definition entry_at (m : AccountManager) (a : nat) : pendingEntry :=
  default (mkPending zeroTransfer 0 0) (m_entries m !! a).
Definition upd_account (i : nat) (f : Account -> Account) : AM unit :=
  smodify (fun m => set_accounts (alter f i (m_accounts m)) m).

(** ** Construction, lookup, clock *)

Definition NewAccountManager : AccountManager :=
  mkAccountManager [] ∅ 0 ∅ 0 ∅ [] ∅ ∅.

Definition Create (a : Account) : AM unit :=
  m <-- sget ;;
  match m_index m !! a_ID a with
  | Some _ => sfail (ErrDuplicateAccountID (a_ID a))
  | None =>
      smodify (fun m => set_accounts (m_accounts m ++ [a]) m) >>
      smodify (fun m => set_index (<[a_ID a := (length (m_accounts m) - 1)%nat]> (m_index m)) m)
  end.

(** A pointer into the slice, as its index. *)
Definition Get (m : AccountManager) (id : ID) : result nat error :=
  match m_index m !! id with
  | None => Err (ErrAccountNotFound id)
  | Some idx => Ok idx
  end.

Definition SetClock (nanos : Z) (m : AccountManager) : AccountManager := set_clock nanos m.
Definition Clock (m : AccountManager) : Z := m_clock m.

Definition ValidateAccount (a : Account) : result unit error :=
  _ <-? Balance a ;; Ok tt.

(** ** Posting *)

Definition ApplyDebit (id : ID) (amount : Uint128) : AM unit :=
  m <-- sget ;;
  acc <-- slift (Get m id) ;;
  next <-- slift (map_err (fun _ => ErrBalanceOverflow id)
                    (Add (a_PostedDebits (acc_at m acc)) amount)) ;;
  upd_account acc (set_PostedDebits next) >>
  m <-- sget ;;
  slift (_ <-? Balance (acc_at m acc) ;; Ok tt).

Definition ApplyCredit (id : ID) (amount : Uint128) : AM unit :=
  m <-- sget ;;
  acc <-- slift (Get m id) ;;
  next <-- slift (map_err (fun _ => ErrBalanceOverflow id)
                    (Add (a_PostedCredits (acc_at m acc)) amount)) ;;
  upd_account acc (set_PostedCredits next).

Definition applyPendingDebit (id : ID) (amount : Uint128) : AM unit :=
  m <-- sget ;;
  acc <-- slift (Get m id) ;;
  next <-- slift (map_err (fun _ => ErrBalanceOverflow id)
                    (Add (a_PendingDebits (acc_at m acc)) amount)) ;;
  upd_account acc (set_PendingDebits next).

Definition applyPendingCredit (id : ID) (amount : Uint128) : AM unit :=
  m <-- sget ;;
  acc <-- slift (Get m id) ;;
  next <-- slift (map_err (fun _ => ErrBalanceOverflow id)
                    (Add (a_PendingCredits (acc_at m acc)) amount)) ;;
  upd_account acc (set_PendingCredits next).

Definition postImmediate (t : Transfer) : AM unit :=
  ApplyDebit (t_DebitAccountID t) (t_Amount t) >>
  ApplyCredit (t_CreditAccountID t) (t_Amount t).

(** ** Holds *)

(** [e := &pendingEntry{transfer: t}], pushed on the deadline heap when the
    transfer has a timeout, then registered under its ID. *)
Definition register_hold (t : Transfer) (m : AccountManager) : AccountManager :=
  let e := m_next m in
  let m := set_next (S e) (set_entries (<[e := mkPending t 0 0]> (m_entries m)) m) in
  let m :=
    if 0 <? t_Timeout t then
      let expires := i64 (t_Timestamp t + i64 (t_Timeout t)) in
      let m := set_entries (<[e := mkPending t expires 0]> (m_entries m)) m in
      with_expiry (heap_Push e (expiry_of m)) m
    else m in
  set_pending (<[t_ID t := e]> (m_pending m)) m.

Definition reservePending (t : Transfer) : AM unit :=
  applyPendingDebit (t_DebitAccountID t) (t_Amount t) >>
  applyPendingCredit (t_CreditAccountID t) (t_Amount t) >>
  smodify (register_hold t).

Definition RestorePending (t : Transfer) : AM unit :=
  m <-- sget ;;
  match m_pending m !! t_ID t with
  | Some _ => sfail (ErrRestoredTwice (t_ID t))
  | None => smodify (register_hold t)
  end.

(** Releases one side of a hold; the other side's failure keeps this write. *)
Definition releasePending (t : Transfer) : AM unit :=
  m <-- sget ;;
  acc <-- slift (Get m (t_DebitAccountID t)) ;;
  next <-- slift (map_err (fun _ => ErrInvariantViolation (a_ID (acc_at m acc)) zero128 zero128)
                    (Sub (a_PendingDebits (acc_at m acc)) (t_Amount t))) ;;
  upd_account acc (set_PendingDebits next) >>
  m <-- sget ;;
  acc <-- slift (Get m (t_CreditAccountID t)) ;;
  next <-- slift (map_err (fun _ => ErrInvariantViolation (a_ID (acc_at m acc)) zero128 zero128)
                    (Sub (a_PendingCredits (acc_at m acc)) (t_Amount t))) ;;
  upd_account acc (set_PendingCredits next).

(** Settles [amount] of an open hold: pending to posted on both sides. *)
Definition movePending (pending : Transfer) (amount : Uint128) : AM unit :=
  m <-- sget ;;
  acc <-- slift (Get m (t_DebitAccountID pending)) ;;
  next <-- slift (map_err (fun _ => ErrInvariantViolation (a_ID (acc_at m acc)) zero128 zero128)
                    (Sub (a_PendingDebits (acc_at m acc)) amount)) ;;
  posted <-- slift (map_err (fun _ => ErrBalanceOverflow (a_ID (acc_at m acc)))
                      (Add (a_PostedDebits (acc_at m acc)) amount)) ;;
  upd_account acc (set_PendingDebits next) >>
  upd_account acc (set_PostedDebits posted) >>
  m <-- sget ;;
  acc <-- slift (Get m (t_CreditAccountID pending)) ;;
  next <-- slift (map_err (fun _ => ErrInvariantViolation (a_ID (acc_at m acc)) zero128 zero128)
                    (Sub (a_PendingCredits (acc_at m acc)) amount)) ;;
  posted <-- slift (map_err (fun _ => ErrBalanceOverflow (a_ID (acc_at m acc)))
                      (Add (a_PostedCredits (acc_at m acc)) amount)) ;;
  upd_account acc (set_PendingCredits next) >>
  upd_account acc (set_PostedCredits posted).

Definition removePending (id : ID) (m : AccountManager) : AccountManager :=
  match m_pending m !! id with
  | Some e =>
      let i := pe_heapIdx (entry_at m e) in
      let m :=
        if (i <? length (m_expiry m))%nat && bool_decide (m_expiry m !! i = Some e)
        then with_expiry (heap_Remove i (expiry_of m)).1 m
        else m in
      set_pending (delete id (m_pending m)) m
  | None => m
  end.

Definition subtractPendingAmount (t : Transfer) (amount : Uint128) : Transfer :=
  match Sub (t_Amount t) amount with
  | Ok rest => set_Amount rest t
  | Err _ => t
  end.

(** The loop of CloseExpired.  Every iteration pops one entry, so the length
    of the heap bounds the iterations.  The error of releasePending only
    increments a metric. *)
Fixpoint CloseExpired_loop (fuel : nat) (m : AccountManager) : AccountManager :=
  match fuel with
  | O => m
  | S fuel' =>
      match m_expiry m !! 0%nat with
      | None => m
      | Some top =>
          if m_clock m <? pe_expires (entry_at m top) then m
          else
            let m := with_expiry (heap_Pop (expiry_of m)).1 m in
            let t := pe_transfer (entry_at m top) in
            let m := set_pending (delete (t_ID t) (m_pending m)) m in
            CloseExpired_loop fuel' (releasePending t m).1
      end
  end.

Definition CloseExpired (m : AccountManager) : AccountManager :=
  CloseExpired_loop (length (m_expiry m)) m.

(** ** Checking and applying a transfer *)

Definition knownFlags : Z :=
  Z.lor (Z.lor (Z.lor TransferFlagPending TransferFlagPostPending) TransferFlagVoidPending)
    TransferFlagLinked.

Definition isPost (t : Transfer) : bool := has_flag (t_Flags t) TransferFlagPostPending.
Definition isVoid (t : Transfer) : bool := has_flag (t_Flags t) TransferFlagVoidPending.
Definition isPending (t : Transfer) : bool := has_flag (t_Flags t) TransferFlagPending.
Definition isLinked (t : Transfer) : bool := has_flag (t_Flags t) TransferFlagLinked.

(** The flag guards that open checkTransfer and validateAndApply: an unknown
    bit, or a combination of two of post, void and pending. *)
Definition flags_invalid (t : Transfer) : bool :=
  negb (Z.ldiff (t_Flags t) knownFlags =? 0)
  || (isPost t && (isPending t || isVoid t) || isVoid t && isPending t).

(** Returns the amount a post or void settles; zero for other transfers. *)
Definition checkTransfer (m : AccountManager) (t : Transfer) : result Uint128 error :=
  if negb (Z.ldiff (t_Flags t) knownFlags =? 0) then Err (ErrInvalidTransferFlags (t_Flags t))
  else if isPost t && (isPending t || isVoid t) || isVoid t && isPending t
  then Err (ErrInvalidTransferFlags (t_Flags t))
  else if isPost t || isVoid t then
    match m_pending m !! t_ID t with
    | None => Err (ErrPendingNotFound (t_ID t))
    | Some p =>
        let pending := pe_transfer (entry_at m p) in
        if negb (t_Ledger t =? 0) && negb (t_Ledger t =? t_Ledger pending)
        then Err (ErrLedgerMismatch (t_Ledger t) (t_Ledger pending) (t_Ledger pending))
        else if isPost t && negb (IsZero (t_Amount t)) then
          if 0 <? Cmp (t_Amount t) (t_Amount pending)
          then Err (ErrOverTransfer (t_ID t) (t_Amount pending) (t_Amount t))
          else Ok (t_Amount t)
        else Ok (t_Amount pending)
    end
  else if IsZero (t_Amount t) then Err ErrZeroAmount
  else if decide (t_DebitAccountID t = t_CreditAccountID t)
  then Err (ErrSelfTransfer (t_DebitAccountID t))
  else
    di <-? Get m (t_DebitAccountID t) ;;
    ci <-? Get m (t_CreditAccountID t) ;;
    let debit := acc_at m di in
    let credit := acc_at m ci in
    if negb (bool_decide (a_Currency debit = a_Currency credit))
    then Err (ErrCurrencyMismatch (a_Currency debit) (a_Currency credit))
    else if negb (a_Ledger debit =? t_Ledger t) || negb (a_Ledger credit =? t_Ledger t)
    then Err (ErrLedgerMismatch (t_Ledger t) (a_Ledger debit) (a_Ledger credit))
    else if IsFrozen debit then Err (ErrAccountFrozen (a_ID debit))
    else if IsClosed debit then Err (ErrAccountClosed (a_ID debit))
    else if IsFrozen credit then Err (ErrAccountFrozen (a_ID credit))
    else if IsClosed credit then Err (ErrAccountClosed (a_ID credit))
    else if isPending t then
      avail <-? AvailableBalance debit ;;
      if Cmp avail (t_Amount t) <? 0
      then Err (ErrInsufficientFunds (a_ID debit) avail (t_Amount t))
      else Ok zero128
    else
      bal <-? Balance debit ;;
      if Cmp bal (t_Amount t) <? 0
      then Err (ErrInsufficientFunds (a_ID debit) bal (t_Amount t))
      else Ok zero128.

Definition ValidateTransfer (m : AccountManager) (t : Transfer) : result unit error :=
  _ <-? checkTransfer m t ;; Ok tt.

(** The transfer index; a repeated ID only increments a metric here. *)
Definition recordTransfer (t : Transfer) (m : AccountManager) : AccountManager :=
  let push id m :=
    set_history (<[id := default [] (m_history m !! id) ++ [t_ID t]]> (m_history m)) m in
  let m := set_transfers (<[t_ID t := t]> (m_transfers m)) m in
  let m := if decide (t_DebitAccountID t = t_CreditAccountID t) then m
           else push (t_DebitAccountID t) m in
  push (t_CreditAccountID t) m.

(** A post or void may leave the ledger and the account IDs to the hold. *)
Definition fill_from (p t : Transfer) : Transfer :=
  let t := if t_Ledger t =? 0 then set_Ledger (t_Ledger p) t else t in
  let t := if decide (t_DebitAccountID t = zeros 16) then set_DebitAccountID (t_DebitAccountID p) t
           else t in
  if decide (t_CreditAccountID t = zeros 16) then set_CreditAccountID (t_CreditAccountID p) t
  else t.

Definition ApplyTransferState (t : Transfer) : AM unit :=
  m <-- sget ;;
  remaining <-- slift (checkTransfer m t) ;;
  if isPost t then
    let p := default 0%nat (m_pending m !! t_ID t) in
    let hold := pe_transfer (entry_at m p) in
    let amount := remaining in
    let t := fill_from hold t in
    movePending hold amount >>
    (if Cmp (t_Amount hold) amount =? 0
     then smodify (removePending (t_ID t))
     else smodify (fun m => set_entries
            (alter (set_transfer (subtractPendingAmount hold amount)) p (m_entries m)) m)) >>
    smodify (recordTransfer t)
  else if isVoid t then
    let p := default 0%nat (m_pending m !! t_ID t) in
    let hold := pe_transfer (entry_at m p) in
    let t := fill_from hold t in
    releasePending hold >>
    smodify (removePending (t_ID t)) >>
    smodify (recordTransfer t)
  else if isPending t then
    reservePending t >>
    smodify (recordTransfer t)
  else
    postImmediate t >>
    smodify (recordTransfer t).

(** ** Reads *)

Definition Snapshot (m : AccountManager) : list Account := m_accounts m.

(** The open holds; Go iterates the map in an unspecified order. *)
Definition PendingTransfers (m : AccountManager) : list Transfer :=
  (fun kv => pe_transfer (entry_at m kv.2)) <$> map_to_list (m_pending m).

Definition GetTransfer (m : AccountManager) (id : ID) : option Transfer := m_transfers m !! id.

(** [start]: one past the first occurrence of the cursor, 0 when absent. *)
Definition cursor_start (afterID : ID) (ids : list ID) : nat :=
  if decide (afterID = zeros 16) then 0%nat
  else match list_find (fun id => id = afterID) ids with
       | Some (i, _) => S i
       | None => 0%nat
       end.

Definition AccountTransfers (m : AccountManager) (accountID afterID : ID) (limit : Z) : list Transfer :=
  let ids := default [] (m_history m !! accountID) in
  let start := cursor_start afterID ids in
  let room := Z.of_nat (length ids) - Z.of_nat start in
  let limit := if (limit <=? 0) || (room <? limit) then room else limit in
  omap (fun id => m_transfers m !! id) (slice start (start + Z.to_nat limit) ids).

Definition AccountManager_Len (m : AccountManager) : nat := length (m_accounts m).
