(* ===== verification/LedgerSpec.v ===== *)
(** * What the account state machine promises

    An abstract ledger: accounts and open holds are finite maps keyed by ID,
    amounts move by integer arithmetic, and an expiry closes every overdue hold
    at once.  There are no pointers, no slice, no heap and no 128-bit carries;
    [AccountsRefine] shows that the manager of [Accounts] implements it. *)

From S2P Require Import Prelude Core Uint128 Balance Accounts.

Record Ledger := mkLedger {
  l_accounts : gmap ID Account;
  l_holds : gmap ID Transfer;
  l_clock : Z;
  l_transfers : gmap ID Transfer;
  l_history : gmap ID (list ID) }.

(** ** Amounts as integers *)

Definition of_Z (z : Z) : Uint128 := mkUint128 (z mod 2 ^ 64) (z / 2 ^ 64).

Definition shift_debit (posted pending : Z) (a : Account) : Account :=
  set_PostedDebits (of_Z (vPD a + posted)) (set_PendingDebits (of_Z (vHD a + pending)) a).
Definition shift_credit (posted pending : Z) (a : Account) : Account :=
  set_PostedCredits (of_Z (vPC a + posted)) (set_PendingCredits (of_Z (vHC a + pending)) a).

(** Every operation moves the same pair of amounts on the two sides. *)
Definition move (dr cr : ID) (posted pending : Z) (A : gmap ID Account) : gmap ID Account :=
  alter (shift_credit posted pending) cr (alter (shift_debit posted pending) dr A).

Definition in128 (z : Z) : Prop := 0 <= z < 2 ^ 128.

(** The four amounts a move writes stay within 128 bits. *)
Definition fits (dr cr : ID) (posted pending : Z) (A : gmap ID Account) : Prop :=
  (forall a, A !! dr = Some a -> in128 (vPD a + posted) /\ in128 (vHD a + pending)) /\
  (forall a, A !! cr = Some a -> in128 (vPC a + posted) /\ in128 (vHC a + pending)).

(** ** Holds *)

Definition amt (t : Transfer) : Z := val (t_Amount t).

(** The absolute deadline of a hold; none without a timeout. *)
Definition deadline (t : Transfer) : option Z :=
  if 0 <? t_Timeout t then Some (i64 (t_Timestamp t + i64 (t_Timeout t))) else None.

Definition overdue (clock : Z) (t : Transfer) : Prop :=
  match deadline t with Some d => d <= clock | None => False end.
#[export] Instance overdue_dec clock t : Decision (overdue clock t).
Proof. unfold overdue. destruct (deadline t); apply _. Defined.

Definition debit_of (id : ID) (t : Transfer) : Z :=
  if decide (t_DebitAccountID t = id) then amt t else 0.
Definition credit_of (id : ID) (t : Transfer) : Z :=
  if decide (t_CreditAccountID t = id) then amt t else 0.
(** What the holds reserve on an account. *)
Definition held_debits (id : ID) (H : gmap ID Transfer) : Z := msum (debit_of id) H.
Definition held_credits (id : ID) (H : gmap ID Transfer) : Z := msum (credit_of id) H.

(** A settlement of [v] closes the hold or leaves the remainder open. *)
Definition settle (id : ID) (v : Z) (H : gmap ID Transfer) : gmap ID Transfer :=
  match H !! id with
  | Some h => if amt h =? v then delete id H else <[id := set_Amount (of_Z (amt h - v)) h]> H
  | None => H
  end.

(** ** Operations *)

Definition spec_create (a : Account) (L : Ledger) : Ledger :=
  mkLedger (<[a_ID a := a]> (l_accounts L)) (l_holds L) (l_clock L) (l_transfers L) (l_history L).

Definition spec_record (t : Transfer) (L : Ledger) : Ledger :=
  let push id h := <[id := default [] (h !! id) ++ [t_ID t]]> h in
  mkLedger (l_accounts L) (l_holds L) (l_clock L) (<[t_ID t := t]> (l_transfers L))
    (push (t_CreditAccountID t)
       (if decide (t_DebitAccountID t = t_CreditAccountID t) then l_history L
        else push (t_DebitAccountID t) (l_history L))).

Definition spec_move (dr cr : ID) (posted pending : Z) (H : gmap ID Transfer) (L : Ledger) : Ledger :=
  mkLedger (move dr cr posted pending (l_accounts L)) H (l_clock L) (l_transfers L) (l_history L).

(** The hold a post or void names. *)
Definition hold_of (t : Transfer) (L : Ledger) : Transfer :=
  default zeroTransfer (l_holds L !! t_ID t).

(** The accounts, the posted and the pending movement of an accepted
    operation; [v] is the amount a post settles. *)
Definition effect (v : Z) (t : Transfer) (L : Ledger) : ID * ID * Z * Z :=
  let h := hold_of t L in
  if isPost t then (t_DebitAccountID h, t_CreditAccountID h, v, - v)
  else if isVoid t then (t_DebitAccountID h, t_CreditAccountID h, 0, - amt h)
  else if isPending t then (t_DebitAccountID t, t_CreditAccountID t, 0, amt t)
  else (t_DebitAccountID t, t_CreditAccountID t, amt t, 0).

Definition holds_after (v : Z) (t : Transfer) (H : gmap ID Transfer) : gmap ID Transfer :=
  if isPost t then settle (t_ID t) v H
  else if isVoid t then delete (t_ID t) H
  else if isPending t then <[t_ID t := t]> H
  else H.

Definition recorded (t : Transfer) (L : Ledger) : Transfer :=
  if isPost t || isVoid t then fill_from (hold_of t L) t else t.

Definition effect_fits (v : Z) (t : Transfer) (L : Ledger) : Prop :=
  let '(dr, cr, posted, pending) := effect v t L in fits dr cr posted pending (l_accounts L).

Definition spec_apply (v : Z) (t : Transfer) (L : Ledger) : Ledger :=
  let '(dr, cr, posted, pending) := effect v t L in
  spec_record (recorded t L) (spec_move dr cr posted pending (holds_after v t (l_holds L)) L).

Definition spec_set_clock (now : Z) (L : Ledger) : Ledger :=
  mkLedger (l_accounts L) (l_holds L) now (l_transfers L) (l_history L).

(** An account loses what the closed holds [X] reserved on it. *)
Definition release_all (X : gmap ID Transfer) (id : ID) (a : Account) : Account :=
  shift_debit 0 (- held_debits id X) (shift_credit 0 (- held_credits id X) a).

Definition spec_close_expired (L : Ledger) : Ledger :=
  let X := filter (fun kv => overdue (l_clock L) kv.2) (l_holds L) in
  mkLedger (map_imap (fun id a => Some (release_all X id a)) (l_accounts L))
    (filter (fun kv => ~ overdue (l_clock L) kv.2) (l_holds L))
    (l_clock L) (l_transfers L) (l_history L).

(** ** When an operation is allowed *)

Definition open_for_transfers (a : Account) : Prop := IsFrozen a = false /\ IsClosed a = false.

(** A settlement needs an open hold on a matching ledger and at most its
    amount; [v] is the amount it moves. *)
Definition settlement_allowed (v : Z) (t : Transfer) (L : Ledger) : Prop :=
  exists h, l_holds L !! t_ID t = Some h
    /\ (t_Ledger t = 0 \/ t_Ledger t = t_Ledger h)
    /\ if isPost t && negb (amt t =? 0) then amt t <= amt h /\ v = amt t else v = amt h.

(** Funds: a plain transfer is covered by the posted balance; a hold by the
    posted balance less the open debit holds plus the open credit holds. *)
Definition funds_allowed (t : Transfer) (d : Account) : Prop :=
  if isPending t
  then vPD d + vHD d <= vPC d /\ vPC d - vPD d - vHD d + vHC d < 2 ^ 128
       /\ amt t <= vPC d - vPD d - vHD d + vHC d
  else vPD d + amt t <= vPC d.

Definition transfer_allowed (t : Transfer) (L : Ledger) : Prop :=
  0 < amt t /\ t_DebitAccountID t <> t_CreditAccountID t
  /\ exists d c, l_accounts L !! t_DebitAccountID t = Some d
       /\ l_accounts L !! t_CreditAccountID t = Some c
       /\ a_Currency d = a_Currency c /\ a_Ledger d = t_Ledger t /\ a_Ledger c = t_Ledger t
       /\ open_for_transfers d /\ open_for_transfers c /\ funds_allowed t d.

Definition allowed (v : Z) (t : Transfer) (L : Ledger) : Prop :=
  flags_invalid t = false
  /\ if isPost t || isVoid t then settlement_allowed v t L else v = 0 /\ transfer_allowed t L.

(** The ID of a new hold must not name an open one. *)
Definition fresh_hold (t : Transfer) (L : Ledger) : Prop :=
  isPending t = true -> l_holds L !! t_ID t = None.

(** ** The invariant *)

Record hold_ok (A : gmap ID Account) (h : Transfer) : Prop := {
  ho_wf : wf_transfer h;
  ho_amount : 0 < amt h;
  ho_distinct : t_DebitAccountID h <> t_CreditAccountID h;
  ho_accounts : exists d c, A !! t_DebitAccountID h = Some d /\ A !! t_CreditAccountID h = Some c
    /\ a_Ledger d = t_Ledger h /\ a_Ledger c = t_Ledger h /\ a_Currency d = a_Currency c }.

(** Keys are the IDs, the accounts of a hold exist and are on its ledger, and
    an account's pending amounts cover the holds on it. *)
Record inv (L : Ledger) : Prop := {
  inv_account : forall id a, l_accounts L !! id = Some a -> a_ID a = id /\ amounts_wf a;
  inv_hold : forall id h, l_holds L !! id = Some h -> t_ID h = id /\ hold_ok (l_accounts L) h;
  inv_debits : forall id a, l_accounts L !! id = Some a -> held_debits id (l_holds L) <= vHD a;
  inv_credits : forall id a, l_accounts L !! id = Some a -> held_credits id (l_holds L) <= vHC a }.

(** Money on a ledger: posted credits less posted debits of its accounts. *)
Definition net (lg : Z) (a : Account) : Z := if a_Ledger a =? lg then vPC a - vPD a else 0.
Definition net_posted (lg : Z) (L : Ledger) : Z := msum (net lg) (l_accounts L).

(** ** Amount lemmas *)

Lemma of_Z_wf z : in128 z -> wf128 (of_Z z).
Proof.
  unfold in128, wf128, is_u64, of_Z. cbn [Lo Hi]. intros H. split.
  - apply Z.mod_pos_bound. lia.
  - split; [apply Z.div_pos; lia|]. apply Z.div_lt_upper_bound; lia.
Qed.
Lemma val_of_Z z : val (of_Z z) = z.
Proof. unfold val, of_Z. cbn [Lo Hi]. pose proof (Z.div_mod z (2 ^ 64)). lia. Qed.
Lemma of_Z_val a : wf128 a -> of_Z (val a) = a.
Proof.
  intros H. pose proof (val_range a H). apply val_inj; [by apply of_Z_wf|done|]. apply val_of_Z.
Qed.
Lemma of_Z_eq a z : wf128 a -> val a = z -> of_Z z = a.
Proof. intros ? <-. by apply of_Z_val. Qed.
Lemma amt_nonneg h : wf_transfer h -> 0 <= amt h.
Proof. intros H. pose proof (val_range _ (wft_amount _ H)). unfold amt. lia. Qed.

(** What a shift leaves alone. *)
Definition same_static (a b : Account) : Prop :=
  a_ID a = a_ID b /\ a_Currency a = a_Currency b /\ a_Ledger a = a_Ledger b
  /\ a_Code a = a_Code b /\ a_Flags a = a_Flags b /\ a_UserData128 a = a_UserData128 b.

Lemma shift_debit_static p q a : same_static (shift_debit p q a) a.
Proof. done. Qed.
Lemma shift_credit_static p q a : same_static (shift_credit p q a) a.
Proof. done. Qed.

Lemma shift_debit_vals p q a :
  vPD (shift_debit p q a) = vPD a + p /\ vHD (shift_debit p q a) = vHD a + q
  /\ vPC (shift_debit p q a) = vPC a /\ vHC (shift_debit p q a) = vHC a.
Proof. unfold vPD, vHD, vPC, vHC, shift_debit. simpl. by rewrite !val_of_Z. Qed.
Lemma shift_credit_vals p q a :
  vPC (shift_credit p q a) = vPC a + p /\ vHC (shift_credit p q a) = vHC a + q
  /\ vPD (shift_credit p q a) = vPD a /\ vHD (shift_credit p q a) = vHD a.
Proof. unfold vPD, vHD, vPC, vHC, shift_credit. simpl. by rewrite !val_of_Z. Qed.

Lemma shift_debit_wf p q a : amounts_wf a -> in128 (vPD a + p) -> in128 (vHD a + q) ->
  amounts_wf (shift_debit p q a).
Proof. intros (? & ? & ? & ?) ? ?. unfold amounts_wf; simpl. auto using of_Z_wf. Qed.
Lemma shift_credit_wf p q a : amounts_wf a -> in128 (vPC a + p) -> in128 (vHC a + q) ->
  amounts_wf (shift_credit p q a).
Proof. intros (? & ? & ? & ?) ? ?. unfold amounts_wf; simpl. auto using of_Z_wf. Qed.

(** ** Moves *)

Lemma lookup_move dr cr p q A id : dr <> cr ->
  move dr cr p q A !! id =
  if decide (id = dr) then shift_debit p q <$> A !! id
  else if decide (id = cr) then shift_credit p q <$> A !! id else A !! id.
Proof.
  intros Hne. unfold move. rewrite !lookup_alter.
  repeat case_decide; subst; try done; by rewrite ?lookup_alter_eq.
Qed.

Lemma move_back dr cr p q A id b : dr <> cr -> move dr cr p q A !! id = Some b ->
  exists a, A !! id = Some a /\ same_static b a /\
    vPD b = vPD a + (if decide (id = dr) then p else 0) /\
    vHD b = vHD a + (if decide (id = dr) then q else 0) /\
    vPC b = vPC a + (if decide (id = cr) then p else 0) /\
    vHC b = vHC a + (if decide (id = cr) then q else 0).
Proof.
  intros Hne. rewrite lookup_move by done. intros H.
  destruct (A !! id) as [a|] eqn:E; [|by repeat case_decide]. exists a. split; [done|].
  pose proof (shift_debit_vals p q a). pose proof (shift_credit_vals p q a).
  repeat case_decide; subst; try done; simplify_eq/=; split; try done; lia.
Qed.

Lemma move_fwd dr cr p q A id a : dr <> cr -> A !! id = Some a ->
  exists b, move dr cr p q A !! id = Some b /\ same_static b a.
Proof.
  intros Hne E. rewrite lookup_move, E by done. repeat case_decide; eexists; split; done.
Qed.

Lemma hold_ok_static A A' h :
  (forall id a, A !! id = Some a -> exists b, A' !! id = Some b /\ same_static b a) ->
  hold_ok A h -> hold_ok A' h.
Proof.
  intros Hf [? ? ? (d & c & Ed & Ec & ? & ? & ?)].
  destruct (Hf _ _ Ed) as (d' & ? & _ & Sd & Ld & _), (Hf _ _ Ec) as (c' & ? & _ & Sc & Lc & _).
  constructor; try done. exists d', c'. rewrite Sd, Sc, Ld, Lc. done.
Qed.

Lemma move_wf dr cr p q A id b : dr <> cr -> fits dr cr p q A ->
  (forall a, A !! id = Some a -> a_ID a = id /\ amounts_wf a) ->
  move dr cr p q A !! id = Some b -> a_ID b = id /\ amounts_wf b.
Proof.
  intros Hne [Hd Hc] Ha. rewrite lookup_move by done. intros H.
  destruct (A !! id) as [a|] eqn:E; [|by repeat case_decide].
  destruct (Ha a eq_refl) as [Hid Hw].
  repeat case_decide; subst; simplify_eq/=; split; try done.
  - apply shift_debit_wf; [done|apply (Hd _ E)..].
  - apply shift_credit_wf; [done|apply (Hc _ E)..].
Qed.

(** The invariant survives a move whose holds account for the pending part. *)
Lemma inv_move L dr cr p q H : inv L -> dr <> cr -> fits dr cr p q (l_accounts L) ->
  (forall id h, H !! id = Some h -> t_ID h = id /\ hold_ok (l_accounts L) h) ->
  (forall id, held_debits id H <= held_debits id (l_holds L) + (if decide (id = dr) then q else 0)) ->
  (forall id, held_credits id H <= held_credits id (l_holds L) + (if decide (id = cr) then q else 0)) ->
  inv (spec_move dr cr p q H L).
Proof.
  intros [IA IH ID IC] Hne Hf HH Hd Hc. constructor; simpl.
  - intros id b. apply move_wf; auto.
  - intros id h E. destruct (HH _ _ E) as [? Hok]. split; [done|].
    eapply hold_ok_static; [|done]. intros. by apply move_fwd.
  - intros id b E. apply move_back in E as (a & E & _ & _ & -> & _); [|done].
    specialize (ID id a E). specialize (Hd id). lia.
  - intros id b E. apply move_back in E as (a & E & _ & _ & _ & _ & ->); [|done].
    specialize (IC id a E). specialize (Hc id). lia.
Qed.

Lemma inv_record t L : inv L -> inv (spec_record t L).
Proof. by intros [? ? ? ?]. Qed.
Lemma inv_set_clock now L : inv L -> inv (spec_set_clock now L).
Proof. by intros [? ? ? ?]. Qed.

(** ** Hold sums *)

Lemma debit_of_amount id h v : debit_of id (set_Amount (of_Z v) h) =
  if decide (t_DebitAccountID h = id) then v else 0.
Proof. unfold debit_of, amt. simpl. by rewrite val_of_Z. Qed.
Lemma credit_of_amount id h v : credit_of id (set_Amount (of_Z v) h) =
  if decide (t_CreditAccountID h = id) then v else 0.
Proof. unfold credit_of, amt. simpl. by rewrite val_of_Z. Qed.

Lemma held_debits_settle id k v H h : H !! k = Some h ->
  held_debits id (settle k v H) = held_debits id H - (if decide (id = t_DebitAccountID h) then v else 0).
Proof.
  intros E. unfold held_debits, settle. rewrite E. destruct (Z.eqb_spec (amt h) v) as [Hv|Hv].
  - rewrite (msum_delete _ _ _ h) by done. unfold debit_of. repeat case_decide; congruence || lia.
  - rewrite (msum_insert _ _ _ _ h) by done. rewrite debit_of_amount. unfold debit_of.
    repeat case_decide; congruence || lia.
Qed.
Lemma held_credits_settle id k v H h : H !! k = Some h ->
  held_credits id (settle k v H) = held_credits id H - (if decide (id = t_CreditAccountID h) then v else 0).
Proof.
  intros E. unfold held_credits, settle. rewrite E. destruct (Z.eqb_spec (amt h) v) as [Hv|Hv].
  - rewrite (msum_delete _ _ _ h) by done. unfold credit_of. repeat case_decide; congruence || lia.
  - rewrite (msum_insert _ _ _ _ h) by done. rewrite credit_of_amount. unfold credit_of.
    repeat case_decide; congruence || lia.
Qed.

(** A void is the settlement of the whole amount. *)
Lemma settle_all k H h : H !! k = Some h -> settle k (amt h) H = delete k H.
Proof. intros E. unfold settle. by rewrite E, Z.eqb_refl. Qed.

Lemma wf_set_Amount v h : wf_transfer h -> in128 v -> wf_transfer (set_Amount (of_Z v) h).
Proof. intros [] ?. constructor; simpl; try done. by apply of_Z_wf. Qed.

Lemma settle_ok A H k v : (forall id h, H !! id = Some h -> t_ID h = id /\ hold_ok A h) ->
  (forall h, H !! k = Some h -> 0 <= v <= amt h) ->
  forall id h, settle k v H !! id = Some h -> t_ID h = id /\ hold_ok A h.
Proof.
  intros HH Hv id h. unfold settle. destruct (H !! k) as [g|] eqn:E; [|auto].
  destruct (Z.eqb_spec (amt g) v).
  { intros [_ ?]%lookup_delete_Some. auto. }
  intros [[<- <-]|[_ ?]]%lookup_insert_Some; [|auto].
  destruct (HH _ _ E) as [? [Hw Hpos ? ?]]. split; [done|].
  pose proof (val_range _ (wft_amount _ Hw)) as Hr. specialize (Hv g eq_refl).
  unfold amt in *. constructor; try done.
  - apply wf_set_Amount; [done|]. unfold in128. lia.
  - unfold amt. simpl. rewrite val_of_Z. lia.
Qed.

(** ** Closing expired holds *)

Lemma held_debits_filter id clock H :
  held_debits id H = held_debits id (filter (fun kv => overdue clock kv.2) H)
    + held_debits id (filter (fun kv => ~ overdue clock kv.2) H).
Proof. apply msum_filter. Qed.
Lemma held_credits_filter id clock H :
  held_credits id H = held_credits id (filter (fun kv => overdue clock kv.2) H)
    + held_credits id (filter (fun kv => ~ overdue clock kv.2) H).
Proof. apply msum_filter. Qed.

(** Holds whose amounts are not negative reserve a non-negative amount. *)
Lemma held_nonneg (id : ID) (H : gmap ID Transfer) :
  (forall k h, H !! k = Some h -> wf_transfer h) -> 0 <= held_debits id H /\ 0 <= held_credits id H.
Proof.
  intros HH. unfold held_debits, held_credits.
  rewrite (msum_ext (debit_of id) (fun h => Z.max 0 (debit_of id h)) H).
  2:{ intros k h E. pose proof (amt_nonneg h (HH _ _ E)). unfold debit_of. case_decide; lia. }
  rewrite (msum_ext (credit_of id) (fun h => Z.max 0 (credit_of id h)) H).
  2:{ intros k h E. pose proof (amt_nonneg h (HH _ _ E)). unfold credit_of. case_decide; lia. }
  split; apply msum_nonneg; intros; lia.
Qed.

Lemma inv_hold_wf L k h : inv L -> l_holds L !! k = Some h -> wf_transfer h.
Proof. intros HI E. by destruct (inv_hold _ HI _ _ E) as [_ [? _ _ _]]. Qed.

(** An open hold is covered by the pending amounts of its two accounts. *)
Lemma hold_covered L h : inv L -> l_holds L !! t_ID h = Some h ->
  exists d c, l_accounts L !! t_DebitAccountID h = Some d /\ l_accounts L !! t_CreditAccountID h = Some c
    /\ amt h <= vHD d /\ amt h <= vHC c.
Proof.
  intros HI E. destruct (inv_hold _ HI _ _ E) as [_ [Hw _ _ (d & c & Ed & Ec & _)]].
  exists d, c. split; [done|]. split; [done|].
  pose proof (inv_debits _ HI _ _ Ed) as Hd. pose proof (inv_credits _ HI _ _ Ec) as Hc.
  unfold held_debits, held_credits in *.
  assert (H2 : forall k g, delete (t_ID h) (l_holds L) !! k = Some g -> wf_transfer g).
  { intros k g [_ Eg]%lookup_delete_Some. by eapply inv_hold_wf. }
  pose proof (proj1 (held_nonneg (t_DebitAccountID h) _ H2)) as N1.
  pose proof (proj2 (held_nonneg (t_CreditAccountID h) _ H2)) as N2.
  unfold held_debits, held_credits in *.
  rewrite (msum_delete _ _ _ h) in N1 by done. rewrite (msum_delete _ _ _ h) in N2 by done.
  unfold debit_of at 2 in N1. unfold credit_of at 2 in N2. rewrite decide_True in N1 by done. rewrite decide_True in N2 by done. lia.
Qed.

Lemma inv_close_expired L : inv L -> inv (spec_close_expired L).
Proof.
  intros HI. pose proof HI as [IA IH ID IC]. unfold spec_close_expired.
  set (X := filter (fun kv => overdue (l_clock L) kv.2) (l_holds L)).
  assert (HX : forall k h, X !! k = Some h -> wf_transfer h).
  { intros k h [E _]%map_lookup_filter_Some. by eapply inv_hold_wf. }
  assert (HY : forall k h, filter (fun kv => ~ overdue (l_clock L) kv.2) (l_holds L) !! k = Some h ->
    wf_transfer h).
  { intros k h [E _]%map_lookup_filter_Some. by eapply inv_hold_wf. }
  assert (Hacc : forall id b, map_imap (fun id a => Some (release_all X id a)) (l_accounts L) !! id = Some b ->
    exists a, l_accounts L !! id = Some a /\ b = release_all X id a).
  { intros id b. rewrite map_lookup_imap. destruct (l_accounts L !! id); naive_solver. }
  assert (Hv : forall id a, vHD (release_all X id a) = vHD a - held_debits id X
    /\ vHC (release_all X id a) = vHC a - held_credits id X).
  { intros id a. unfold release_all.
    pose proof (shift_debit_vals 0 (- held_debits id X) (shift_credit 0 (- held_credits id X) a)).
    pose proof (shift_credit_vals 0 (- held_credits id X) a). lia. }
  constructor; simpl.
  - intros id b (a & E & ->)%Hacc. destruct (IA _ _ E) as [? Hw]. split; [done|].
    pose proof (held_nonneg id X HX) as [N1 N2]. pose proof (held_nonneg id _ HY) as [N3 N4].
    specialize (ID _ _ E). specialize (IC _ _ E).
    rewrite (held_debits_filter id (l_clock L)) in ID. rewrite (held_credits_filter id (l_clock L)) in IC.
    fold X in ID, IC. pose proof Hw as (R1 & R2 & R3 & R4).
    apply val_range in R1, R2, R3, R4. fold (vPD a) in R1. fold (vPC a) in R2.
    fold (vHD a) in R3. fold (vHC a) in R4.
    apply shift_debit_wf; [apply shift_credit_wf; [done|..]|..]; unfold in128.
    all: try (pose proof (shift_credit_vals 0 (- held_credits id X) a)); lia.
  - intros id h [E _]%map_lookup_filter_Some. destruct (IH _ _ E) as [? Hok]. split; [done|].
    eapply hold_ok_static; [|done]. intros k a Ea. exists (release_all X k a).
    by rewrite map_lookup_imap, Ea.
  - intros id b (a & E & ->)%Hacc. destruct (Hv id a) as [-> _]. specialize (ID _ _ E).
    rewrite (held_debits_filter id (l_clock L)) in ID. fold X in ID. lia.
  - intros id b (a & E & ->)%Hacc. destruct (Hv id a) as [_ ->]. specialize (IC _ _ E).
    rewrite (held_credits_filter id (l_clock L)) in IC. fold X in IC. lia.
Qed.

(** ** Effects *)

Lemma flags_ok t : flags_invalid t = false ->
  (isPost t = true -> isPending t = false /\ isVoid t = false)
  /\ (isVoid t = true -> isPending t = false).
Proof.
  unfold flags_invalid. destruct (negb (Z.ldiff _ _ =? 0)), (isPost t), (isVoid t), (isPending t); done.
Qed.

(** The two accounts of an allowed operation, and what it does to the sums of
    the holds. *)
Record effect_ok (t : Transfer) (v : Z) (L : Ledger) (dr cr : ID) (p q : Z) : Prop := {
  eo_distinct : dr <> cr;
  eo_accounts : exists d c, l_accounts L !! dr = Some d /\ l_accounts L !! cr = Some c
    /\ a_Ledger d = a_Ledger c /\ a_Currency d = a_Currency c;
  eo_holds : forall id h, holds_after v t (l_holds L) !! id = Some h ->
    t_ID h = id /\ hold_ok (l_accounts L) h;
  eo_debits : forall id, held_debits id (holds_after v t (l_holds L))
    = held_debits id (l_holds L) + (if decide (id = dr) then q else 0);
  eo_credits : forall id, held_credits id (holds_after v t (l_holds L))
    = held_credits id (l_holds L) + (if decide (id = cr) then q else 0) }.

Lemma settlement_effect t v L h : inv L -> wf_transfer t -> settlement_allowed v t L ->
  l_holds L !! t_ID t = Some h -> 0 <= v <= amt h.
Proof.
  intros HI Hw (h' & E & _ & Hv) Eh. rewrite Eh in E. injection E as <-.
  pose proof (amt_nonneg t Hw). pose proof (amt_nonneg h (inv_hold_wf _ _ _ HI Eh)).
  destruct (isPost t && negb (amt t =? 0)); lia.
Qed.

Lemma settle_effect_ok t v L h p : inv L -> l_holds L !! t_ID t = Some h -> 0 <= v <= amt h ->
  holds_after v t (l_holds L) = settle (t_ID t) v (l_holds L) ->
  effect_ok t v L (t_DebitAccountID h) (t_CreditAccountID h) p (- v).
Proof.
  intros HI E Hv Hh. destruct (inv_hold _ HI _ _ E) as [_ [Hw _ Hne (d & c & Ed & Ec & Ld & Lc & Cu)]].
  constructor.
  - done.
  - exists d, c. rewrite Ld, Lc. done.
  - rewrite Hh. apply settle_ok; [apply (inv_hold _ HI)|]. intros h' E'. by simplify_eq.
  - intros id. rewrite Hh, (held_debits_settle _ _ _ _ h) by done. case_decide; lia.
  - intros id. rewrite Hh, (held_credits_settle _ _ _ _ h) by done. case_decide; lia.
Qed.

Lemma transfer_effect_ok t L : inv L -> wf_transfer t -> fresh_hold t L -> flags_invalid t = false ->
  isPost t || isVoid t = false -> transfer_allowed t L ->
  effect_ok t 0 L (t_DebitAccountID t) (t_CreditAccountID t)
    (if isPending t then 0 else amt t) (if isPending t then amt t else 0).
Proof.
  intros HI Hw Hfr Hfl Hpv (Hpos & Hne & d & c & Ed & Ec & Cu & Ld & Lc & _).
  apply orb_false_iff in Hpv as [HP HV].
  assert (Hh : holds_after 0 t (l_holds L) = if isPending t then <[t_ID t := t]> (l_holds L) else l_holds L).
  { unfold holds_after. by rewrite HP, HV. }
  constructor; [done| |rewrite Hh..].
  - exists d, c. split; [done|]. split; [done|]. split; congruence.
  - destruct (isPending t) eqn:HPe; [|apply (inv_hold _ HI)].
    intros id h [[<- <-]|[_ E]]%lookup_insert_Some; [|by apply (inv_hold _ HI)].
    split; [done|]. constructor; try done. exists d, c. done.
  - intros id. destruct (isPending t) eqn:HPe; [|case_decide; lia].
    unfold held_debits. rewrite msum_insert_new by auto. unfold debit_of at 1.
    repeat case_decide; congruence || lia.
  - intros id. destruct (isPending t) eqn:HPe; [|case_decide; lia].
    unfold held_credits. rewrite msum_insert_new by auto. unfold credit_of at 1.
    repeat case_decide; congruence || lia.
Qed.

Lemma effect_spec v t L : inv L -> wf_transfer t -> fresh_hold t L -> allowed v t L ->
  let '(dr, cr, p, q) := effect v t L in effect_ok t v L dr cr p q.
Proof.
  intros HI Hw Hfr [Hfl Ha]. destruct (flags_ok t Hfl) as [F1 F2].
  unfold effect, hold_of. destruct (isPost t) eqn:HP.
  { simpl in Ha. pose proof Ha as (h & E & _). rewrite E. simpl.
    apply settle_effect_ok; try done; [|by unfold holds_after; rewrite HP].
    by eapply settlement_effect. }
  destruct (isVoid t) eqn:HV.
  { pose proof Ha as (h & E & _ & Hv). rewrite HP in Hv. simpl in Hv. subst v. rewrite E. simpl.
    apply settle_effect_ok; try done.
    - pose proof (amt_nonneg h (inv_hold_wf _ _ _ HI E)). lia.
    - unfold holds_after. rewrite HP, HV. by rewrite settle_all. }
  destruct Ha as [-> Ha].
  pose proof (transfer_effect_ok t L HI Hw Hfr Hfl) as T. rewrite HP, HV in T. specialize (T eq_refl Ha).
  by destruct (isPending t).
Qed.

Lemma spec_apply_eq v t L dr cr p q : effect v t L = (dr, cr, p, q) ->
  spec_apply v t L = spec_record (recorded t L) (spec_move dr cr p q (holds_after v t (l_holds L)) L).
Proof. intros E. unfold spec_apply. by rewrite E. Qed.

(** An allowed operation that fits keeps the invariant. *)
Lemma inv_apply v t L : inv L -> wf_transfer t -> fresh_hold t L -> allowed v t L ->
  effect_fits v t L -> inv (spec_apply v t L).
Proof.
  intros HI Hw Hfr Ha Hf. pose proof (effect_spec v t L HI Hw Hfr Ha) as He.
  unfold effect_fits in Hf. destruct (effect v t L) as [[[dr cr] p] q] eqn:E.
  destruct He as [? ? ? Hd Hc]. rewrite (spec_apply_eq _ _ _ _ _ _ _ E).
  apply inv_record, inv_move; auto.
  - intros id. rewrite Hd. lia.
  - intros id. rewrite Hc. lia.
Qed.

(** ** Conservation *)

Lemma net_move L dr cr p q H lg d c : dr <> cr ->
  l_accounts L !! dr = Some d -> l_accounts L !! cr = Some c -> a_Ledger d = a_Ledger c ->
  net_posted lg (spec_move dr cr p q H L) = net_posted lg L.
Proof.
  intros Hne Ed Ec El. unfold net_posted. simpl. unfold move.
  rewrite (msum_alter _ _ _ _ c) by (by rewrite lookup_alter_ne).
  rewrite (msum_alter _ _ _ _ d) by done. unfold net.
  destruct (shift_debit_vals p q d) as (-> & _ & -> & _).
  destruct (shift_credit_vals p q c) as (-> & _ & -> & _). simpl. rewrite El.
  case_match; lia.
Qed.

(** An allowed operation moves money within a ledger; it creates none. *)
Lemma net_apply v t L lg : inv L -> wf_transfer t -> fresh_hold t L -> allowed v t L ->
  net_posted lg (spec_apply v t L) = net_posted lg L.
Proof.
  intros HI Hw Hfr Ha. pose proof (effect_spec v t L HI Hw Hfr Ha) as He.
  destruct (effect v t L) as [[[dr cr] p] q] eqn:E.
  destruct He as [Hne (d & c & Ed & Ec & El & _) _ _ _]. rewrite (spec_apply_eq _ _ _ _ _ _ _ E).
  by apply (net_move _ _ _ _ _ _ _ d c).
Qed.

(** ** Expiry one hold at a time *)

Lemma account_eq a b : same_static a b -> amounts_wf a -> amounts_wf b ->
  vPD a = vPD b -> vPC a = vPC b -> vHD a = vHD b -> vHC a = vHC b -> a = b.
Proof.
  destruct a, b. unfold same_static, amounts_wf, vPD, vPC, vHD, vHC. simpl.
  intros (-> & -> & -> & -> & -> & ->) (? & ? & ? & ?) (? & ? & ? & ?) ? ? ? ?.
  f_equal; by apply val_inj.
Qed.

Lemma release_all_vals X id a :
  same_static (release_all X id a) a /\ vPD (release_all X id a) = vPD a
  /\ vPC (release_all X id a) = vPC a /\ vHD (release_all X id a) = vHD a - held_debits id X
  /\ vHC (release_all X id a) = vHC a - held_credits id X.
Proof.
  unfold release_all.
  pose proof (shift_debit_vals 0 (- held_debits id X) (shift_credit 0 (- held_credits id X) a)).
  pose proof (shift_credit_vals 0 (- held_credits id X) a). split; [done|]. lia.
Qed.

Lemma ledger_eq L1 L2 : l_accounts L1 = l_accounts L2 -> l_holds L1 = l_holds L2 ->
  l_clock L1 = l_clock L2 -> l_transfers L1 = l_transfers L2 -> l_history L1 = l_history L2 -> L1 = L2.
Proof. destruct L1, L2. simpl. by intros -> -> -> -> ->. Qed.

(** Releasing one overdue hold does not change what the expiry leaves. *)
Lemma close_expired_step L h (Hi : inv L) : l_holds L !! t_ID h = Some h -> overdue (l_clock L) h ->
  inv (spec_move (t_DebitAccountID h) (t_CreditAccountID h) 0 (- amt h) (delete (t_ID h) (l_holds L)) L) ->
  spec_close_expired
    (spec_move (t_DebitAccountID h) (t_CreditAccountID h) 0 (- amt h) (delete (t_ID h) (l_holds L)) L)
  = spec_close_expired L.
Proof.
  intros E Hov Hi'. pose proof (inv_close_expired _ Hi) as HC. pose proof (inv_close_expired _ Hi') as HC'.
  destruct (inv_hold _ Hi _ _ E) as [_ [_ _ Hne _]].
  set (X := filter (fun kv => overdue (l_clock L) kv.2) (l_holds L)).
  assert (EX : X !! t_ID h = Some h) by (by apply map_lookup_filter_Some).
  assert (EX' : filter (fun kv => overdue (l_clock L) kv.2) (delete (t_ID h) (l_holds L)) = delete (t_ID h) X).
  { apply map_filter_delete. }
  apply ledger_eq; try done.
  2:{ simpl. rewrite map_filter_delete. apply delete_id, map_lookup_filter_None. right.
      intros h'. rewrite E. intros [= <-] Hn. by apply Hn. }
  apply map_eq. intros id. apply option_eq. intros b. simpl. fold X. rewrite EX'.
  rewrite !map_lookup_imap, lookup_move by done.
  destruct (l_accounts L !! id) as [a|] eqn:Ea; [|by repeat case_decide].
  simpl. set (s := if decide (id = t_DebitAccountID h) then _ else _).
  assert (Hs : exists a', s = Some a' /\ same_static a' a /\ vPD a' = vPD a /\ vPC a' = vPC a
    /\ vHD a' = vHD a - debit_of id h /\ vHC a' = vHC a - credit_of id h).
  { pose proof (shift_debit_vals 0 (- amt h) a). pose proof (shift_credit_vals 0 (- amt h) a).
    unfold s, debit_of, credit_of. repeat case_decide; try congruence; simpl;
      (eexists; split; [done|]; split; [done|]; lia). }
  assert (Hl : move (t_DebitAccountID h) (t_CreditAccountID h) 0 (- amt h) (l_accounts L) !! id = s).
  { rewrite lookup_move by done. by rewrite Ea. }
  destruct Hs as (a' & Es & St & V1 & V2 & V3 & V4). rewrite Es. simpl.
  cut (release_all (delete (t_ID h) X) id a' = release_all X id a); [by intros ->|].
  destruct (release_all_vals (delete (t_ID h) X) id a') as (S1 & P1 & C1 & D1 & K1).
  destruct (release_all_vals X id a) as (S2 & P2 & C2 & D2 & K2).
  unfold held_debits, held_credits in *. rewrite (msum_delete _ _ _ h) in D1 by done. rewrite (msum_delete _ _ _ h) in K1 by done.
  apply account_eq; try lia.
  - destruct S1 as (? & ? & ? & ? & ? & ?), S2 as (? & ? & ? & ? & ? & ?), St as (? & ? & ? & ? & ? & ?).
    repeat split; congruence.
  - apply (inv_account _ HC' id). simpl. rewrite EX', map_lookup_imap, Hl, Es. done.
  - apply (inv_account _ HC id). simpl. rewrite map_lookup_imap, Ea. done.
Qed.

(** Nothing overdue: the expiry changes nothing. *)
Lemma close_expired_none L : inv L ->
  (forall id h, l_holds L !! id = Some h -> ~ overdue (l_clock L) h) -> spec_close_expired L = L.
Proof.
  intros Hi Hno. pose proof (inv_close_expired _ Hi) as HC.
  assert (HX : filter (fun kv => overdue (l_clock L) kv.2) (l_holds L) = ∅).
  { apply map_empty. intros id. apply map_lookup_filter_None. right. intros h E. by eapply Hno. }
  apply ledger_eq; try done.
  - apply map_eq. intros id. simpl. rewrite HX, map_lookup_imap.
    destruct (l_accounts L !! id) as [a|] eqn:Ea; [|done]. simpl. f_equal.
    destruct (release_all_vals ∅ id a) as (S & P & C & D & K).
    unfold held_debits, held_credits in *. rewrite msum_empty in D, K.
    apply account_eq; try done; try lia; [|by apply (inv_account _ Hi id)].
    apply (inv_account _ HC id). simpl. by rewrite map_lookup_imap, Ea, HX.
  - simpl. apply map_filter_id. intros id h E. by eapply Hno.
Qed.

(** Expiry only lowers pending amounts. *)
Lemma close_expired_account L id b : inv L -> l_accounts (spec_close_expired L) !! id = Some b ->
  exists a, l_accounts L !! id = Some a /\ vPD b = vPD a /\ vPC b = vPC a
    /\ vHD b <= vHD a /\ vHC b <= vHC a.
Proof.
  intros HI. unfold spec_close_expired. set (X := filter (fun kv => overdue (l_clock L) kv.2) (l_holds L)).
  cbn [l_accounts]. rewrite map_lookup_imap. destruct (l_accounts L !! id) as [a|]; [|done].
  intros [= <-]. exists a. split; [done|].
  destruct (release_all_vals X id a) as (_ & -> & -> & -> & ->).
  assert (HX : forall k h, X !! k = Some h -> wf_transfer h).
  { intros k h [E _]%map_lookup_filter_Some. by eapply inv_hold_wf. }
  pose proof (held_nonneg id X HX). lia.
Qed.
