(* ===== verification/AccountsRefine.v ===== *)
(** * The manager implements the abstract ledger

    [good] is the representation invariant of [AccountManager]: the index
    matches the slice, the pointers of the pending map and of the deadline heap
    agree, the heap is ordered.  [abs] is the ledger a manager stands for. *)

From S2P Require Import Prelude Core Uint128 Balance Heap Expiry Accounts LedgerSpec.

(** The entries without their heap positions. *)
Definition rest (m : AccountManager) : gmap nat (Transfer * Z) := entries_rest (m_entries m).

Record struct (m : AccountManager) : Prop := {
  s_index : forall id i, m_index m !! id = Some i ->
    exists a, m_accounts m !! i = Some a /\ a_ID a = id;
  s_accounts : forall i a, m_accounts m !! i = Some a -> m_index m !! a_ID a = Some i;
  s_pending : forall id p, m_pending m !! id = Some p ->
    exists t x, rest m !! p = Some (t, x) /\ t_ID t = id /\ forall d, deadline t = Some d -> x = d;
  s_heap : heap_ok (expiry_of m);
  s_expiry : forall p, p ∈ m_expiry m <->
    exists id t x, m_pending m !! id = Some p /\ rest m !! p = Some (t, x) /\ deadline t <> None;
  s_next : forall p tx, rest m !! p = Some tx -> (p < m_next m)%nat }.

Definition abs (m : AccountManager) : Ledger :=
  mkLedger (acc_at m <$> m_index m) ((fun p => pe_transfer (entry_at m p)) <$> m_pending m)
    (m_clock m) (m_transfers m) (m_history m).

Definition good (m : AccountManager) : Prop := struct m /\ inv (abs m).

(** [m'] is [m] with its accounts slice rewritten, to the effect [g]. *)
Definition writes (m m' : AccountManager) (g : gmap ID Account -> gmap ID Account) : Prop :=
  (exists l, m' = set_accounts l m) /\ struct m' /\ l_accounts (abs m') = g (l_accounts (abs m)).

(** ** Entries *)

Lemma rest_lookup m p t x :
  rest m !! p = Some (t, x) <-> exists e, m_entries m !! p = Some e /\ pe_transfer e = t /\ pe_expires e = x.
Proof.
  unfold rest, entries_rest. rewrite lookup_fmap. destruct (m_entries m !! p) as [e|]; simpl.
  - split; [intros [= <- <-]; eauto|]. by intros (e' & [= <-] & <- & <-).
  - split; [done|]. by intros (? & ? & _).
Qed.

Lemma entry_rest m p t x : rest m !! p = Some (t, x) ->
  pe_transfer (entry_at m p) = t /\ pe_expires (entry_at m p) = x.
Proof. intros (e & E & <- & <-)%rest_lookup. unfold entry_at. by rewrite E. Qed.

Lemma holds_lookup m id p t x : m_pending m !! id = Some p -> rest m !! p = Some (t, x) ->
  l_holds (abs m) !! id = Some t.
Proof.
  intros E Er. simpl. rewrite lookup_fmap, E. simpl. f_equal. by eapply entry_rest.
Qed.

Lemma holds_pending m id t : struct m -> l_holds (abs m) !! id = Some t ->
  exists p x, m_pending m !! id = Some p /\ rest m !! p = Some (t, x)
    /\ t_ID t = id /\ forall d, deadline t = Some d -> x = d.
Proof.
  intros Hs E. simpl in E. rewrite lookup_fmap in E.
  destruct (m_pending m !! id) as [p|] eqn:Ep; [|done]. simpl in E.
  destruct (s_pending _ Hs _ _ Ep) as (t' & x & Er & Hid & Hx).
  destruct (entry_rest _ _ _ _ Er) as [Et _]. exists p, x. simplify_eq. done.
Qed.

Lemma pending_None m id : m_pending m !! id = None <-> l_holds (abs m) !! id = None.
Proof. simpl. rewrite lookup_fmap. by destruct (m_pending m !! id). Qed.

(** Two managers with the same entries, up to heap positions, and the same
    pending map have the same holds. *)
Lemma holds_ext m m' : rest m = rest m' -> m_pending m = m_pending m' -> struct m ->
  l_holds (abs m) = l_holds (abs m').
Proof.
  intros Er Ep Hs. simpl. rewrite <- Ep. apply map_eq. intros id. rewrite !lookup_fmap.
  destruct (m_pending m !! id) as [p|] eqn:E; [|done]. simpl.
  destruct (s_pending _ Hs _ _ E) as (t & x & R & _). pose proof R as R'. rewrite Er in R'.
  by rewrite (proj1 (entry_rest _ _ _ _ R)), (proj1 (entry_rest _ _ _ _ R')).
Qed.

(** ** Accounts *)

Lemma accounts_lookup m id a : struct m -> l_accounts (abs m) !! id = Some a <->
  exists i, m_index m !! id = Some i /\ m_accounts m !! i = Some a.
Proof.
  intros Hs. simpl. rewrite lookup_fmap. split.
  - destruct (m_index m !! id) as [i|] eqn:E; [|done]. intros [= <-].
    destruct (s_index _ Hs _ _ E) as (a & Ea & _). exists i. unfold acc_at. by rewrite Ea.
  - intros (i & -> & E). simpl. unfold acc_at. by rewrite E.
Qed.

Lemma get_None m id : Get m id = Err (ErrAccountNotFound id) <-> l_accounts (abs m) !! id = None.
Proof. unfold Get. simpl. rewrite lookup_fmap. by destruct (m_index m !! id). Qed.

Lemma set_accounts_struct m i f a : struct m -> m_accounts m !! i = Some a -> a_ID (f a) = a_ID a ->
  struct (set_accounts (alter f i (m_accounts m)) m).
Proof.
  intros [Hi Ha Hp Hh He Hn] E Hf. constructor; try done; simpl.
  - intros id j (b & Eb & <-)%Hi. destruct (decide (i = j)) as [<-|Hne].
    + exists (f a). rewrite list_lookup_alter_eq, E. simpl. split; [done|]. congruence.
    + exists b. by rewrite list_lookup_alter_ne.
  - intros j b. destruct (decide (i = j)) as [<-|Hne].
    + rewrite list_lookup_alter_eq, E. intros [= <-]. rewrite Hf. auto.
    + rewrite list_lookup_alter_ne by done. auto.
Qed.

(** A pointer from [Get]: reading through it, and writing through it. *)
Lemma cell m id a : struct m -> l_accounts (abs m) !! id = Some a ->
  exists i, Get m id = Ok i /\ acc_at m i = a /\ a_ID a = id /\
    forall f, a_ID (f a) = a_ID a ->
      writes m (set_accounts (alter f i (m_accounts m)) m) (alter f id).
Proof.
  intros Hs E. pose proof (proj1 (accounts_lookup _ _ _ Hs) E) as (i & Ei & Ea).
  exists i. unfold Get, acc_at. rewrite Ei, Ea. split; [done|]. split; [done|].
  destruct (s_index _ Hs _ _ Ei) as (a' & ? & <-). simplify_eq. split; [done|].
  intros f Hf. split; [by eexists|]. split; [by eapply set_accounts_struct|].
  apply map_eq. intros id. simpl. rewrite lookup_alter, !lookup_fmap. case_decide as Hid.
  - subst id. rewrite Ei. simpl. unfold acc_at. simpl. by rewrite list_lookup_alter_eq, Ea.
  - destruct (m_index m !! id) as [j|] eqn:Ej; [|done]. simpl. f_equal. unfold acc_at. simpl.
    rewrite list_lookup_alter_ne; [done|]. intros ->.
    destruct (s_index _ Hs _ _ Ej) as (? & ? & ?). congruence.
Qed.

Lemma writes_trans m m1 m2 g1 g2 : writes m m1 g1 -> writes m1 m2 g2 ->
  writes m m2 (fun A => g2 (g1 A)).
Proof.
  intros ((l1 & ->) & H1 & E1) ((l2 & ->) & H2 & E2). split; [by exists l2|]. split; [done|].
  by rewrite E2, E1.
Qed.

Lemma writes_struct m m' g : writes m m' g -> struct m'.
Proof. by intros (_ & ? & _). Qed.
Lemma writes_accounts m m' g : writes m m' g -> l_accounts (abs m') = g (l_accounts (abs m)).
Proof. by intros (_ & _ & ?). Qed.

Lemma writes_ext m m' g g' : writes m m' g -> g (l_accounts (abs m)) = g' (l_accounts (abs m)) ->
  writes m m' g'.
Proof. intros (? & ? & E) Hg. split; [done|]. split; [done|]. by rewrite E. Qed.

Lemma alter_same {V} (f g : V -> V) (id : ID) (A : gmap ID V) a :
  A !! id = Some a -> f a = g a -> alter f id A = alter g id A.
Proof.
  intros E Hfg. apply map_eq. intros k. rewrite !lookup_alter. case_decide; [|done].
  subst. rewrite E. simpl. by rewrite Hfg.
Qed.

(** ** The routines that move amounts *)

(** [c] performs the move when the four amounts fit, and fails on an overflow
    otherwise. *)
Definition moves (c : AM unit) (m : AccountManager) (dr cr : ID) (p q : Z) : Prop :=
  (fits dr cr p q (l_accounts (abs m)) ->
   exists m', c m = (m', Ok tt) /\ writes m m' (move dr cr p q))
  /\ (~ fits dr cr p q (l_accounts (abs m)) ->
   exists m' id, c m = (m', Err (ErrBalanceOverflow id))).

Lemma fits_iff dr cr p q A d c : A !! dr = Some d -> A !! cr = Some c ->
  fits dr cr p q A <->
  (in128 (vPD d + p) /\ in128 (vHD d + q)) /\ (in128 (vPC c + p) /\ in128 (vHC c + q)).
Proof.
  intros Ed Ec. unfold fits. rewrite Ed, Ec. split.
  - intros [H1 H2]. auto.
  - intros [H1 H2]. split; intros ? [= <-]; done.
Qed.

(** The account a shift writes, from the amounts computed one at a time. *)
Lemma shift_debit_eq p q a x y : amounts_wf a -> wf128 x -> wf128 y ->
  val x = vPD a + p -> val y = vHD a + q ->
  shift_debit p q a = set_PostedDebits x (set_PendingDebits y a).
Proof. intros _ Hx Hy Ex Ey. unfold shift_debit. by rewrite (of_Z_eq x), (of_Z_eq y). Qed.
Lemma shift_credit_eq p q a x y : amounts_wf a -> wf128 x -> wf128 y ->
  val x = vPC a + p -> val y = vHC a + q ->
  shift_credit p q a = set_PostedCredits x (set_PendingCredits y a).
Proof. intros _ Hx Hy Ex Ey. unfold shift_credit. by rewrite (of_Z_eq x), (of_Z_eq y). Qed.

Lemma set_same_PD a : set_PostedDebits (a_PostedDebits a) a = a. Proof. by destruct a. Qed.
Lemma set_same_PC a : set_PostedCredits (a_PostedCredits a) a = a. Proof. by destruct a. Qed.
Lemma set_same_HD a : set_PendingDebits (a_PendingDebits a) a = a. Proof. by destruct a. Qed.
Lemma set_same_HC a : set_PendingCredits (a_PendingCredits a) a = a. Proof. by destruct a. Qed.

(** The shift a pair of computed amounts stands for. *)
Ltac shift_eq_debit x y :=
  symmetry; rewrite (shift_debit_eq _ _ _ x y); unfold vPD, vHD, amt; simpl; try done; lia.
Ltac shift_eq_credit x y :=
  symmetry; rewrite (shift_credit_eq _ _ _ x y); unfold vPC, vHC, amt; simpl; try done; lia.

Section TwoAccounts.
Context (m : AccountManager) (dr cr : ID) (d c : Account).
Context (Hs : struct m) (Hne : dr <> cr).
Context (Ed : l_accounts (abs m) !! dr = Some d) (Ec : l_accounts (abs m) !! cr = Some c).
Context (Hd : amounts_wf d) (Hc : amounts_wf c).

(** A write to the debit account, then one to the credit account. *)
Lemma two_cells : exists i j,
  Get m dr = Ok i /\ acc_at m i = d /\ a_ID d = dr /\
  (forall f, Get (set_accounts (alter f i (m_accounts m)) m) cr = Ok j) /\
  (forall f, a_ID (f d) = a_ID d ->
    acc_at (set_accounts (alter f i (m_accounts m)) m) j = c
    /\ forall g, a_ID (g c) = a_ID c ->
       writes m (set_accounts (alter g j (alter f i (m_accounts m))) m)
         (fun A => alter g cr (alter f dr A))) /\
  (forall f, a_ID (f d) = a_ID d ->
    acc_at (set_accounts (alter f i (m_accounts m)) m) i = f d).
Proof using All.
  destruct (cell m dr d Hs Ed) as (i & Gi & Ai & Id & Wi).
  destruct (cell m cr c Hs Ec) as (j & Gj & Aj & Ic & Wj).
  exists i, j. do 3 (split; [done|]). split; [by intros|]. split.
  - intros f Hf. pose proof (Wi f Hf) as W1.
    assert (Ec' : l_accounts (abs (set_accounts (alter f i (m_accounts m)) m)) !! cr = Some c).
    { rewrite (writes_accounts _ _ _ W1). by rewrite lookup_alter_ne. }
    destruct (cell _ cr c (writes_struct _ _ _ W1) Ec') as (j' & Gj' & Aj' & _ & W2).
    assert (j' = j) as -> by (unfold Get in *; simpl in Gj'; destruct (m_index m !! cr); congruence).
    split; [done|]. intros g Hg. apply (writes_trans _ _ _ _ _ W1 (W2 g Hg)).
  - intros f Hf. pose proof (Wi f Hf) as W1.
    assert (Ed' : l_accounts (abs (set_accounts (alter f i (m_accounts m)) m)) !! dr = Some (f d)).
    { rewrite (writes_accounts _ _ _ W1). by rewrite lookup_alter_eq, Ed. }
    destruct (cell _ dr _ (writes_struct _ _ _ W1) Ed') as (i' & Gi' & Ai' & _).
    assert (i' = i) as -> by (unfold Get in *; simpl in Gi'; destruct (m_index m !! dr); congruence).
    done.
Qed.

(** Two writes that amount to a shift on each side are a move. *)
Lemma move_of_alters m' f g p q : writes m m' (fun A => alter g cr (alter f dr A)) ->
  f d = shift_debit p q d -> g c = shift_credit p q c -> writes m m' (move dr cr p q).
Proof using All.
  intros W Ef Eg. apply (writes_ext _ _ _ _ W). unfold move.
  rewrite (alter_same f (shift_debit p q) dr _ d Ed Ef).
  apply (alter_same _ _ _ _ c); [|done]. by rewrite lookup_alter_ne.
Qed.

(** Symbolic execution: unfold the monad, then rewrite the pointer facts. *)
Ltac run_with tac :=
  unfold sbind, sget, slift, upd_account, smodify, map_err; cbn beta iota zeta;
  repeat (first [ progress tac
                | rewrite list_alter_alter_eq
                | progress change (set_accounts ?l (set_accounts ?l' ?m)) with (set_accounts l m)
                | progress change (m_accounts (set_accounts ?l ?m)) with l ]; cbn beta iota zeta).

Lemma releasePending_moves t : t_DebitAccountID t = dr -> t_CreditAccountID t = cr ->
  wf128 (t_Amount t) -> amt t <= vHD d -> amt t <= vHC c ->
  exists m', releasePending t m = (m', Ok tt) /\ writes m m' (move dr cr 0 (- amt t)).
Proof using All.
  intros Et1 Et2 Hw L1 L2. destruct two_cells as (i & j & Gi & Ai & Id & Gj & Wj & _).
  pose proof Hd as (D1 & _ & D3 & _). pose proof Hc as (_ & C2 & _ & C4).
  destruct (Sub_total (a_PendingDebits d) (t_Amount t)) as (x & Sx & Wx & Vx); [done..|].
  destruct (Sub_total (a_PendingCredits c) (t_Amount t)) as (y & Sy & Wy & Vy); [done..|].
  destruct (Wj (set_PendingDebits x) eq_refl) as [Aj W]. specialize (W (set_PendingCredits y) eq_refl).
  eexists. split.
  - unfold releasePending. rewrite Et1, Et2.
    run_with ltac:(rewrite ?Gi, ?Ai, ?Sx, ?Gj, ?Aj, ?Sy). reflexivity.
  - eapply move_of_alters; [exact W|..]; symmetry.
    + rewrite (shift_debit_eq _ _ _ (a_PostedDebits d) x); unfold vPD, vHD, amt; simpl; try done; lia.
    + rewrite (shift_credit_eq _ _ _ (a_PostedCredits c) y); unfold vPC, vHC, amt; simpl; try done; lia.
Qed.

(** Both branches of an addition on one side of a move. *)
Lemma Add_branches x v : wf128 x -> wf128 v ->
  (in128 (val x + val v) /\ exists y, Add x v = Ok y /\ wf128 y /\ val y = val x + val v)
  \/ (~ in128 (val x + val v) /\ Add x v = Err ErrUint128Overflow).
Proof using.
  intros Hx Hv. pose proof (Add_spec x v Hx Hv) as A.
  pose proof (val_range x Hx). pose proof (val_range v Hv). unfold in128.
  destruct (Z.ltb_spec (val x + val v) (2 ^ 128)) as [Hlt|Hge].
  - left. split; [lia|]. done.
  - right. split; [|done]. intros [_ Hlt]. lia.
Qed.

Lemma movePending_moves t v : t_DebitAccountID t = dr -> t_CreditAccountID t = cr ->
  wf128 v -> val v <= vHD d -> val v <= vHC c ->
  moves (movePending t v) m dr cr (val v) (- val v).
Proof using All.
  intros Et1 Et2 Hw L1 L2. destruct two_cells as (i & j & Gi & Ai & Id & Gj & Wj & Ri).
  pose proof Hd as (D1 & _ & D3 & _). pose proof Hc as (_ & C2 & _ & C4).
  destruct (Sub_total (a_PendingDebits d) v) as (x & Sx & Wx & Vx); [done..|].
  destruct (Sub_total (a_PendingCredits c) v) as (y & Sy & Wy & Vy); [done..|].
  pose proof (val_range x Wx) as Rx. pose proof (val_range y Wy) as Ry.
  unfold moves. rewrite (fits_iff _ _ _ _ _ d c) by done.
  destruct (Add_branches (a_PostedDebits d) v) as [(Fd & x' & Sx' & Wx' & Vx')|(Fd & Sx')]; [done..| |].
  2:{ split; [intros ((? & _) & _); done|intros _]. do 2 eexists. unfold movePending. rewrite Et1, Et2.
      run_with ltac:(rewrite ?Gi, ?Ai, ?Sx, ?Sx'). reflexivity. }
  destruct (Wj (set_PostedDebits x' ∘ set_PendingDebits x) eq_refl) as [Aj W].
  destruct (Add_branches (a_PostedCredits c) v) as [(Fc & y' & Sy' & Wy' & Vy')|(Fc & Sy')]; [done..| |].
  2:{ split; [intros (_ & ? & _); done|intros _]. do 2 eexists. unfold movePending. rewrite Et1, Et2.
      run_with ltac:(rewrite ?Gi, ?Ai, ?Sx, ?Sx', ?Gj, ?Aj, ?Sy, ?Sy'). reflexivity. }
  split; [intros _|]. 2:{ intros []. unfold in128, vPD, vPC, vHD, vHC, amt in *. lia. }
  specialize (W (set_PostedCredits y' ∘ set_PendingCredits y) eq_refl).
  eexists. split.
  - unfold movePending. rewrite Et1, Et2.
    run_with ltac:(rewrite ?Gi, ?Ai, ?Sx, ?Sx', ?Gj, ?Aj, ?Sy, ?Sy'). reflexivity.
  - eapply move_of_alters; [exact W|..].
    + shift_eq_debit x' x.
    + shift_eq_credit y' y.
Qed.

Lemma applyPending_moves v : wf128 v ->
  moves (applyPendingDebit dr v >> applyPendingCredit cr v) m dr cr 0 (val v).
Proof using All.
  intros Hw. destruct two_cells as (i & j & Gi & Ai & Id & Gj & Wj & Ri).
  pose proof Hd as (D1 & _ & D3 & _). pose proof Hc as (_ & C2 & _ & C4).
  pose proof (val_range _ D1) as R1. pose proof (val_range _ C2) as R2.
  unfold moves. rewrite (fits_iff _ _ _ _ _ d c) by done. unfold applyPendingDebit, applyPendingCredit.
  destruct (Add_branches (a_PendingDebits d) v) as [(Fd & x & Sx & Wx & Vx)|(Fd & Sx)]; [done..| |].
  2:{ split; [intros ((_ & ?) & _); done|intros _]. do 2 eexists.
      run_with ltac:(rewrite ?Gi, ?Ai, ?Sx). reflexivity. }
  destruct (Wj (set_PendingDebits x) eq_refl) as [Aj W].
  destruct (Add_branches (a_PendingCredits c) v) as [(Fc & y & Sy & Wy & Vy)|(Fc & Sy)]; [done..| |].
  2:{ split; [intros (_ & _ & ?); done|intros _]. do 2 eexists.
      run_with ltac:(rewrite ?Gi, ?Ai, ?Sx, ?Gj, ?Aj, ?Sy). reflexivity. }
  split; [intros _|]. 2:{ intros []. unfold in128, vPD, vPC, vHD, vHC, amt in *. lia. }
  specialize (W (set_PendingCredits y) eq_refl). eexists. split.
  - run_with ltac:(rewrite ?Gi, ?Ai, ?Sx, ?Gj, ?Aj, ?Sy). reflexivity.
  - eapply move_of_alters; [exact W|..].
    + shift_eq_debit (a_PostedDebits d) x.
    + shift_eq_credit (a_PostedCredits c) y.
Qed.

Lemma postImmediate_moves t : t_DebitAccountID t = dr -> t_CreditAccountID t = cr ->
  wf128 (t_Amount t) -> vPD d + amt t <= vPC d ->
  moves (postImmediate t) m dr cr (amt t) 0.
Proof using All.
  intros Et1 Et2 Hw Hbal. destruct two_cells as (i & j & Gi & Ai & Id & Gj & Wj & Ri).
  pose proof Hd as (D1 & D2 & D3 & D4). pose proof Hc as (_ & C2 & _ & C4).
  pose proof (val_range _ D2) as R2. pose proof (val_range _ D3) as R3. pose proof (val_range _ C4) as R4.
  unfold moves. rewrite (fits_iff _ _ _ _ _ d c) by done.
  unfold postImmediate, ApplyDebit, ApplyCredit. rewrite Et1, Et2.
  destruct (Add_branches (a_PostedDebits d) (t_Amount t)) as [(Fd & x & Sx & Wx & Vx)|(Fd & _)]; [done..| |].
  2:{ destruct Fd. pose proof (val_range _ D1). pose proof (val_range _ Hw).
      unfold in128, vPD, vPC, amt in *. lia. }
  destruct (Wj (set_PostedDebits x) eq_refl) as [Aj W]. pose proof (Ri (set_PostedDebits x) eq_refl) as Ai'.
  destruct (Balance_total (set_PostedDebits x d)) as (b & Sb & _).
  { done. } { unfold vPD, vPC, amt in *. simpl. lia. }
  destruct (Add_branches (a_PostedCredits c) (t_Amount t)) as [(Fc & y & Sy & Wy & Vy)|(Fc & Sy)]; [done..| |].
  2:{ split; [intros (_ & ? & _); done|intros _]. do 2 eexists.
      run_with ltac:(rewrite ?Gi, ?Ai, ?Sx, ?Ai', ?Sb, ?Gj, ?Aj, ?Sy). reflexivity. }
  split; [intros _|]. 2:{ intros []. unfold in128, vPD, vPC, vHD, vHC, amt in *. lia. }
  specialize (W (set_PostedCredits y) eq_refl). eexists. split.
  - run_with ltac:(rewrite ?Gi, ?Ai, ?Sx, ?Ai', ?Sb, ?Gj, ?Aj, ?Sy). reflexivity.
  - eapply move_of_alters; [exact W|..].
    + shift_eq_debit x (a_PendingDebits d).
    + shift_eq_credit y (a_PendingCredits c).
Qed.
End TwoAccounts.

(** ** checkTransfer decides [allowed] *)

Lemma allowed_unique v w t L : allowed v t L -> allowed w t L -> v = w.
Proof.
  intros [_ Hv] [_ Hw]. destruct (isPost t || isVoid t).
  - destruct Hv as (h & E & _ & Hv), Hw as (g & E' & _ & Hw). rewrite E in E'. injection E' as <-.
    destruct (isPost t && negb (amt t =? 0)); lia.
  - destruct Hv as [-> _], Hw as [-> _]. done.
Qed.

Definition decides (r : result Uint128 error) (P : Z -> Prop) : Prop :=
  (exists x, r = Ok x /\ wf128 x /\ P (val x)) \/ (exists e, r = Err e /\ forall v, ~ P v).

Section Check.
Context (m : AccountManager) (t : Transfer) (Hg : good m) (Hw : wf_transfer t).

Lemma check_settlement (P : Z -> Prop) : isPost t || isVoid t = true ->
  (forall v, P v <-> settlement_allowed v t (abs m)) ->
  decides (match m_pending m !! t_ID t with
    | None => Err (ErrPendingNotFound (t_ID t))
    | Some p =>
        let pending := pe_transfer (entry_at m p) in
        if negb (t_Ledger t =? 0) && negb (t_Ledger t =? t_Ledger pending)
        then Err (ErrLedgerMismatch (t_Ledger t) (t_Ledger pending) (t_Ledger pending))
        else if isPost t && negb (IsZero (t_Amount t)) then
          if 0 <? Cmp (t_Amount t) (t_Amount pending)
          then Err (ErrOverTransfer (t_ID t) (t_Amount pending) (t_Amount t))
          else Ok (t_Amount t)
        else Ok (t_Amount pending)
    end) P.
Proof using All.
  intros Hpv HP. destruct Hg as [Hs HI]. unfold settlement_allowed in HP.
  destruct (m_pending m !! t_ID t) as [p|] eqn:Ep.
  2:{ right. eexists. split; [done|]. intros v Hv%HP. destruct Hv as (h & E & _).
      apply pending_None in Ep. congruence. }
  destruct (s_pending _ Hs _ _ Ep) as (h & x & Er & _).
  pose proof (holds_lookup _ _ _ _ _ Ep Er) as Eh. destruct (entry_rest _ _ _ _ Er) as [-> _]. simpl.
  pose proof (inv_hold_wf _ _ _ HI Eh) as Wh. pose proof (wft_amount _ Wh). pose proof (wft_amount _ Hw).
  assert (Hinv : forall v, P v <-> (t_Ledger t = 0 \/ t_Ledger t = t_Ledger h)
    /\ if isPost t && negb (amt t =? 0) then amt t <= amt h /\ v = amt t else v = amt h).
  { intros v. rewrite HP. split; [|intros ?; by exists h].
    intros (h' & E & Hv). rewrite Eh in E. by injection E as <-. }
  destruct (negb (t_Ledger t =? 0) && negb (t_Ledger t =? t_Ledger h)) eqn:EL.
  { right. eexists. split; [done|]. intros v [Hv _]%Hinv. lia. }
  rewrite IsZero_spec, Cmp_gtb by done. fold (amt t) (amt h).
  destruct (isPost t && negb (amt t =? 0)) eqn:EP.
  - destruct (Z.ltb_spec (amt h) (amt t)).
    + right. eexists. split; [done|]. intros v [_ Hv]%Hinv. lia.
    + left. eexists. split; [done|]. split; [done|]. apply Hinv. fold (amt t). lia.
  - left. eexists. split; [done|]. split; [done|]. apply Hinv. fold (amt h). lia.
Qed.

(** The funds check on the debit account. *)
Lemma check_funds (d : Account) (P : Prop) : amounts_wf d ->
  (P <-> funds_allowed t d) ->
  decides (if isPending t then
      avail <-? AvailableBalance d ;;
      if Cmp avail (t_Amount t) <? 0
      then Err (ErrInsufficientFunds (a_ID d) avail (t_Amount t)) else Ok zero128
    else
      bal <-? Balance d ;;
      if Cmp bal (t_Amount t) <? 0
      then Err (ErrInsufficientFunds (a_ID d) bal (t_Amount t)) else Ok zero128)
    (fun v => v = 0 /\ P).
Proof using Hw.
  intros Hd HP. pose proof (wft_amount _ Hw) as Ha. unfold funds_allowed in HP.
  pose proof (val_range _ Ha) as Ra. fold (amt t) in Ra.
  destruct (isPending t).
  - pose proof (AvailableBalance_total d Hd) as HA. destruct (AvailableBalance d) as [b|e] eqn:EB; simpl.
    + apply AvailableBalance_Ok in EB as (Wb & Vb & Hle); [|done]. rewrite Cmp_ltb by done. fold (amt t).
      pose proof (val_range _ Wb). destruct (Z.ltb_spec (val b) (amt t)).
      * right. eexists. split; [done|]. intros v [_ (? & ? & ?)%HP]. lia.
      * left. eexists. split; [done|]. split; [apply wf128_zero|]. split; [done|]. apply HP. lia.
    + right. eexists. split; [done|]. intros v [_ (? & ? & ?)%HP].
      destruct HA as (? & ?); [lia..|done].
  - destruct (Balance d) as [b|e] eqn:EB; simpl.
    + apply Balance_Ok in EB as (Wb & Vb & Hle); [|done]. rewrite Cmp_ltb by done. fold (amt t).
      destruct (Z.ltb_spec (val b) (amt t)).
      * right. eexists. split; [done|]. intros v [_ ?%HP]. lia.
      * left. eexists. split; [done|]. split; [apply wf128_zero|]. split; [done|]. apply HP. lia.
    + right. eexists. split; [done|]. intros v [_ ?%HP].
      destruct (Balance_total d Hd) as (? & ? & _); [lia|congruence].
Qed.

Ltac refuse := right; eexists; split; [reflexivity|]; intros ?v Hv.

(** The structural checks of plain and pending transfers. *)
Lemma check_transfer_part : isPost t || isVoid t = false ->
  decides (checkTransfer m t) (fun v => flags_invalid t = false /\ v = 0 /\ transfer_allowed t (abs m)).
Proof using All.
  intros Hpv. destruct Hg as [Hs HI]. pose proof (wft_amount _ Hw) as Ha.
  unfold checkTransfer, flags_invalid. rewrite Hpv.
  destruct (negb (Z.ldiff _ _ =? 0)); [refuse; naive_solver|]. simpl orb. cbv iota.
  destruct (isPost t && _ || _) eqn:EF; [refuse; naive_solver|].
  rewrite IsZero_spec by done. fold (amt t). unfold transfer_allowed.
  destruct (Z.eqb_spec (amt t) 0) as [|Hnz]; [refuse; lia|].
  pose proof (amt_nonneg t Hw) as Hpos.
  destruct (decide _) as [|Hne]; [refuse; naive_solver|].
  destruct (l_accounts (abs m) !! t_DebitAccountID t) as [d|] eqn:Ed.
  2:{ rewrite (proj2 (get_None _ _) Ed). refuse. naive_solver. }
  destruct (cell m _ d Hs Ed) as (i & -> & Ai & Id & _). simpl rbind.
  destruct (l_accounts (abs m) !! t_CreditAccountID t) as [c|] eqn:Ec.
  2:{ rewrite (proj2 (get_None _ _) Ec). refuse. naive_solver. }
  destruct (cell m _ c Hs Ec) as (j & -> & Aj & Ic & _). simpl rbind. rewrite Ai, Aj.
  set (P := fun v => false = false /\ v = 0 /\ 0 < amt t /\ t_DebitAccountID t <> t_CreditAccountID t /\ _).
  assert (HP : forall v, P v <-> v = 0 /\ a_Currency d = a_Currency c /\ a_Ledger d = t_Ledger t
    /\ a_Ledger c = t_Ledger t /\ open_for_transfers d /\ open_for_transfers c /\ funds_allowed t d).
  { intros v. unfold P. split.
    - intros (_ & ? & _ & _ & d' & c' & [= <-] & [= <-] & ?). done.
    - intros (? & ?). do 2 (split; [done|]). split; [lia|]. split; [done|]. by exists d, c. }
  clearbody P. unfold open_for_transfers in HP.
  destruct (bool_decide_reflect (a_Currency d = a_Currency c)); simpl negb; cbv iota;
    [|refuse; apply HP in Hv; naive_solver].
  destruct (negb (a_Ledger d =? t_Ledger t) || negb (a_Ledger c =? t_Ledger t)) eqn:EL;
    [refuse; apply HP in Hv; lia|].
  destruct (IsFrozen d); [refuse; apply HP in Hv; naive_solver|].
  destruct (IsClosed d); [refuse; apply HP in Hv; naive_solver|].
  destruct (IsFrozen c); [refuse; apply HP in Hv; naive_solver|].
  destruct (IsClosed c); [refuse; apply HP in Hv; naive_solver|].
  destruct (inv_account _ HI _ _ Ed) as [_ Wd].
  destruct (check_funds d (funds_allowed t d) Wd ltac:(done)) as [(x & -> & Wx & Vx & Fx)|(e0 & -> & Hno)].
  - left. exists x. split; [done|]. split; [done|]. apply HP. split; [done|].
    assert (a_Ledger d = t_Ledger t /\ a_Ledger c = t_Ledger t) as [? ?] by lia. done.
  - right. exists e0. split; [done|]. intros v Hv%HP. apply (Hno 0). naive_solver.
Qed.

Lemma checkTransfer_decides : decides (checkTransfer m t) (fun v => allowed v t (abs m)).
Proof using All.
  destruct (isPost t || isVoid t) eqn:Hpv.
  2:{ pose proof (check_transfer_part Hpv) as D. unfold decides, allowed in *. by rewrite Hpv. }
  unfold allowed. rewrite Hpv. unfold checkTransfer, flags_invalid. rewrite Hpv.
  destruct (negb (Z.ldiff _ _ =? 0)); [refuse; naive_solver|]. simpl orb. cbv iota.
  destruct (isPost t && _ || _) eqn:EF; [refuse; naive_solver|].
  apply check_settlement; [done|]. intros v. naive_solver.
Qed.

Lemma checkTransfer_Ok x : checkTransfer m t = Ok x -> wf128 x /\ allowed (val x) t (abs m).
Proof using All.
  intros E. destruct checkTransfer_decides as [(y & Ey & ?)|(e & Ee & _)]; congruence || naive_solver.
Qed.

Lemma checkTransfer_total v : allowed v t (abs m) ->
  exists x, checkTransfer m t = Ok x /\ wf128 x /\ val x = v.
Proof using All.
  intros Ha. destruct checkTransfer_decides as [(x & Ex & Wx & Ax)|(e & _ & Hno)].
  - exists x. split; [done|]. split; [done|]. by eapply allowed_unique.
  - by destruct (Hno v).
Qed.
End Check.

(** ** Registering and removing holds *)

Definition same_accounts (m m' : AccountManager) : Prop :=
  m_accounts m' = m_accounts m /\ m_index m' = m_index m.

Lemma abs_accounts_same m m' : same_accounts m m' -> l_accounts (abs m') = l_accounts (abs m).
Proof. intros [E1 E2]. simpl. unfold acc_at. by rewrite E1, E2. Qed.

(** The heap order reads the deadlines and positions of its own entries. *)
Lemma heap_ok_store s s' arr : heap_ok (mkExpiry s arr) ->
  (forall a e, a ∈ arr -> s !! a = Some e ->
    exists e', s' !! a = Some e' /\ pe_expires e' = pe_expires e /\ pe_heapIdx e' = pe_heapIdx e) ->
  heap_ok (mkExpiry s' arr).
Proof.
  intros [[Hnd Hidx] Ho] Hs. simpl in *.
  assert (Hv : expiry_view (mkExpiry s' arr) = expiry_view (mkExpiry s arr)).
  { unfold expiry_view. simpl. apply list_fmap_ext. intros i a Ea.
    destruct (Hidx _ _ Ea) as (e & E & _).
    destruct (Hs a e) as (e' & E' & Hx & _); [by eapply list_elem_of_lookup_2|done|].
    unfold expires_at. simpl. by rewrite E, E', Hx. }
  split; [split; [done|]|]; simpl.
  - intros i a Ea. destruct (Hidx _ _ Ea) as (e & E & Hi).
    destruct (Hs a e) as (e' & E' & _ & Hx); [by eapply list_elem_of_lookup_2|done|].
    exists e'. split; [done|]. congruence.
  - by rewrite Hv.
Qed.

Section Holds.
Context (m m' : AccountManager) (Hs : struct m) (Hacc : same_accounts m m').

Lemma struct_register t x : m_pending m !! t_ID t = None ->
  m_pending m' = <[t_ID t := m_next m]> (m_pending m) ->
  rest m' = <[m_next m := (t, x)]> (rest m) -> m_next m' = S (m_next m) ->
  (forall d, deadline t = Some d -> x = d) -> heap_ok (expiry_of m') ->
  (forall q, q ∈ m_expiry m' <-> (deadline t <> None /\ q = m_next m) \/ q ∈ m_expiry m) ->
  struct m' /\ l_holds (abs m') = <[t_ID t := t]> (l_holds (abs m)).
Proof using All.
  intros Hfr Ep Er En Hx Hheap Hexp. destruct Hacc as [Ea Ei]. pose proof Hs as [Si Sa Sp _ Se Sn].
  assert (Hold : forall p tx, rest m !! p = Some tx -> rest m' !! p = Some tx).
  { intros p tx E. rewrite Er, lookup_insert_ne; [done|]. pose proof (Sn _ _ E). lia. }
  assert (Hback : forall p t' x', rest m' !! p = Some (t', x') -> p <> m_next m -> rest m !! p = Some (t', x')).
  { intros p t' x'. rewrite Er. intros E ?. by rewrite lookup_insert_ne in E. }
  split.
  - constructor; rewrite ?Ea, ?Ei, ?Ep, ?En; try done.
    + intros id p [[<- <-]|[_ E]]%lookup_insert_Some.
      * exists t, x. by rewrite Er, lookup_insert_eq.
      * destruct (Sp _ _ E) as (t' & x' & E' & ?). exists t', x'. auto.
    + intros q. rewrite Hexp, (Se q). split.
      * intros [[? ->]|(id & t' & x' & E & E' & ?)].
        -- exists (t_ID t), t, x. by rewrite lookup_insert_eq, Er, lookup_insert_eq.
        -- exists id, t', x'. rewrite lookup_insert_ne by congruence. auto.
      * intros (id & t' & x' & [[<- <-]|[? E]]%lookup_insert_Some & E' & ?).
        -- rewrite Er, lookup_insert_eq in E'. injection E' as <- <-. by left.
        -- right. exists id, t', x'. split; [done|]. split; [|done]. apply Hback; [done|].
           destruct (Sp _ _ E) as (? & ? & ?%Sn & _). lia.
    + intros p tx. rewrite Er. intros [[<- _]|[_ E]]%lookup_insert_Some; [lia|].
      pose proof (Sn _ _ E). lia.
  - simpl. rewrite Ep, fmap_insert. f_equal.
    + eapply (proj1 (entry_rest m' _ t x _)). Unshelve. by rewrite Er, lookup_insert_eq.
    + apply map_eq. intros id. rewrite !lookup_fmap. destruct (m_pending m !! id) as [p|] eqn:E; [|done].
      simpl. destruct (Sp _ _ E) as (t' & x' & E' & _).
      by rewrite (proj1 (entry_rest _ _ _ _ E')), (proj1 (entry_rest _ _ _ _ (Hold _ _ E'))).
Qed.

Lemma struct_unregister id p : m_pending m !! id = Some p ->
  m_pending m' = delete id (m_pending m) -> rest m' = rest m -> m_next m' = m_next m ->
  heap_ok (expiry_of m') -> (forall q, q ∈ m_expiry m' <-> q ∈ m_expiry m /\ q <> p) ->
  struct m' /\ l_holds (abs m') = delete id (l_holds (abs m)).
Proof using All.
  intros E Ep Er En Hheap Hexp. destruct Hacc as [Ea Ei]. pose proof Hs as [Si Sa Sp _ Se Sn].
  split.
  - constructor; rewrite ?Ea, ?Ei, ?Ep, ?En, ?Er; try done.
    + intros k q [_ ?]%lookup_delete_Some. auto.
    + intros q. rewrite Hexp, (Se q). split.
      * intros [(k & t & x & Ek & ? & ?) Hq]. exists k, t, x.
        rewrite lookup_delete_ne; [done|]. congruence.
      * intros (k & t & x & [Hk Ek]%lookup_delete_Some & Et & ?). split; [by exists k, t, x|].
        intros ->. destruct (Sp _ _ E) as (t1 & x1 & E1 & ID1 & _).
        destruct (Sp _ _ Ek) as (t2 & x2 & E2 & ID2 & _). congruence.
  - simpl. rewrite Ep, fmap_delete. f_equal. apply map_eq. intros k. rewrite !lookup_fmap.
    destruct (m_pending m !! k) as [q|] eqn:Ek; [|done]. simpl.
    destruct (Sp _ _ Ek) as (t' & x' & E' & _). pose proof E' as E2. rewrite <- Er in E2.
    by rewrite (proj1 (entry_rest _ _ _ _ E')), (proj1 (entry_rest _ _ _ _ E2)).
Qed.
End Holds.

Lemma rest_fresh m : struct m -> rest m !! m_next m = None.
Proof.
  intros Hs. destruct (rest m !! m_next m) as [tx|] eqn:E; [|done].
  pose proof (s_next _ Hs _ _ E). lia.
Qed.
Lemma entries_fresh m : struct m -> m_entries m !! m_next m = None.
Proof.
  intros Hs. pose proof (rest_fresh m Hs) as E. unfold rest, entries_rest in E.
  rewrite lookup_fmap in E. by destruct (m_entries m !! m_next m).
Qed.
Lemma expiry_fresh m : struct m -> m_next m ∉ m_expiry m.
Proof.
  intros Hs (id & t & x & _ & E & _)%(s_expiry _ Hs). pose proof (rest_fresh m Hs). congruence.
Qed.

Lemma entries_rest_insert p e s :
  entries_rest (<[p := e]> s) = <[p := (pe_transfer e, pe_expires e)]> (entries_rest s).
Proof. unfold entries_rest. by rewrite fmap_insert. Qed.

Lemma register_hold_ok m t : struct m -> m_pending m !! t_ID t = None ->
  struct (register_hold t m) /\ same_accounts m (register_hold t m)
  /\ l_holds (abs (register_hold t m)) = <[t_ID t := t]> (l_holds (abs m)).
Proof.
  intros Hs Hfr. pose proof (entries_fresh m Hs) as Hf. pose proof (expiry_fresh m Hs) as He.
  assert (Hheap : forall e, heap_ok (mkExpiry (<[m_next m := e]> (m_entries m)) (m_expiry m))).
  { intros e. apply (heap_ok_store (m_entries m)); [apply (s_heap _ Hs)|].
    intros a e' Ha E. exists e'. rewrite lookup_insert_ne; [done|]. congruence. }
  assert (Hacc : same_accounts m (register_hold t m)) by (unfold register_hold; by case_match).
  cut (struct (register_hold t m) /\ l_holds (abs (register_hold t m)) = <[t_ID t := t]> (l_holds (abs m)));
    [tauto|].
  unfold register_hold in *. destruct (0 <? t_Timeout t) eqn:ET.
  - set (x := i64 (t_Timestamp t + i64 (t_Timeout t))) in *.
    set (h := expiry_of _) in *.
    assert (Eh : h = mkExpiry (<[m_next m := mkPending t x 0]> (m_entries m)) (m_expiry m)).
    { unfold h, expiry_of. simpl. by rewrite insert_insert_eq. }
    rewrite Eh in *. clear h Eh.
    destruct (expiry_push_spec _ (m_next m) (mkPending t x 0) (Hheap (mkPending t x 0))) as [Hok Hperm];
      [apply lookup_insert_eq|done|].
    apply (struct_register m _ Hs Hacc t x); try done.
    + unfold rest. simpl m_entries. rewrite push_rest. simpl. apply entries_rest_insert.
    + intros d. unfold deadline. rewrite ET. by intros [= <-].
    + intros q. simpl m_expiry. rewrite Hperm. rewrite elem_of_cons. simpl.
      unfold deadline. rewrite ET. naive_solver.
  - apply (struct_register m _ Hs Hacc t 0); try done.
    + unfold rest. simpl. apply entries_rest_insert.
    + intros d. unfold deadline. by rewrite ET.
    + apply (Hheap (mkPending t 0 0)).
    + intros q. simpl m_expiry. unfold deadline. rewrite ET. naive_solver.
Qed.

Lemma removePending_ok m id p : struct m -> m_pending m !! id = Some p ->
  struct (removePending id m) /\ same_accounts m (removePending id m)
  /\ l_holds (abs (removePending id m)) = delete id (l_holds (abs m)).
Proof.
  intros Hs Ep.
  assert (Hacc : same_accounts m (removePending id m)).
  { unfold removePending. rewrite Ep. by case_match. }
  cut (struct (removePending id m) /\ l_holds (abs (removePending id m)) = delete id (l_holds (abs m)));
    [tauto|].
  pose proof (s_heap _ Hs) as Hheap. pose proof Hheap as [[Hnd Hidx] _].
  unfold removePending in *. rewrite Ep in *.
  set (i := pe_heapIdx (entry_at m p)) in *.
  destruct ((i <? length (m_expiry m))%nat && bool_decide (m_expiry m !! i = Some p)) eqn:Ei.
  - apply andb_true_iff in Ei as [_ Ei%bool_decide_eq_true_1].
    destruct (expiry_remove_spec (expiry_of m) i p Hheap Ei) as [Hok Hperm].
    apply (struct_unregister m _ Hs Hacc id p); try done.
    + change (entries_rest (es_store (heap_Remove i (expiry_of m)).1) = rest m). by rewrite remove_rest.
    + intros q. change (m_expiry m) with (es_arr (expiry_of m)). rewrite <- Hperm, elem_of_cons. simpl.
      change (m_expiry m) with (es_arr (expiry_of m)) in Hnd. simpl in Hnd.
      assert (NoDup (p :: es_arr (heap_Remove i (expiry_of m)).1)) as Hn by by rewrite Hperm.
      apply NoDup_cons in Hn as [? _]. naive_solver.
  - apply (struct_unregister m _ Hs Hacc id p); try done.
    intros q. simpl m_expiry. split; [|tauto]. intros Hq. split; [done|]. intros ->.
    apply list_elem_of_lookup in Hq as (j & Ej). destruct (Hidx _ _ Ej) as (e & Ee & Hj).
    simpl in Ee. assert (i = j) as -> by (unfold i, entry_at; by rewrite Ee).
    pose proof (lookup_lt_Some _ _ _ Ej). rewrite bool_decide_eq_true_2 in Ei by done.
    apply andb_false_iff in Ei as [Ei%Nat.ltb_ge|]; [simpl in *; lia|done].
Qed.

(** A partial settlement writes the entry's transfer in place. *)
Lemma amend_ok m id p t x t' : struct m -> m_pending m !! id = Some p -> rest m !! p = Some (t, x) ->
  deadline t' = deadline t -> t_ID t' = t_ID t ->
  let m' := set_entries (alter (set_transfer t') p (m_entries m)) m in
  struct m' /\ l_holds (abs m') = <[id := t']> (l_holds (abs m)).
Proof.
  intros Hs Ep Er Hd Hid. pose proof Hs as [Si Sa Sp Sh Se Sn].
  assert (Hr : forall q, rest (set_entries (alter (set_transfer t') p (m_entries m)) m) !! q
    = if decide (q = p) then Some (t', x) else rest m !! q).
  { intros q. unfold rest, entries_rest in *. simpl. rewrite !lookup_fmap in *.
    destruct (decide (q = p)) as [->|Hq]; [|by rewrite lookup_alter_ne].
    rewrite lookup_alter_eq. destruct (m_entries m !! p) as [e|]; [|done].
    simpl in *. by injection Er as _ <-. }
  assert (Hinj : forall k, m_pending m !! k = Some p -> k = id).
  { intros k Ek. destruct (Sp _ _ Ep) as (? & ? & ? & ? & _), (Sp _ _ Ek) as (? & ? & ? & ? & _). congruence. }
  split.
  - constructor; try done.
    + intros k q Ek. simpl in Ek. destruct (Sp _ _ Ek) as (t2 & x2 & E2 & ID2 & D2).
      rewrite Hr. case_decide; [subst q|by exists t2, x2].
      exists t', x. simplify_eq. rewrite Hd, Hid. done.
    + apply (heap_ok_store (m_entries m)); [done|]. simpl. intros a e _ E. rewrite lookup_alter.
      case_decide as Ha; [subst|by eexists]. rewrite E. by eexists.
    + intros q. rewrite (Se q). simpl m_pending.
      split; intros (k & t2 & x2 & Ek & E2 & D2); exists k.
      * destruct (decide (q = p)) as [->|].
        -- exists t', x. rewrite Hr, decide_True by done. simplify_eq. by rewrite Hd.
        -- exists t2, x2. by rewrite Hr, decide_False.
      * rewrite Hr in E2. case_decide; [subst|by exists t2, x2].
        exists t, x. injection E2 as <- <-. by rewrite <- Hd.
    + intros q tx. rewrite Hr. case_decide; [intros _; subst; by eapply Sn|apply Sn].
  - simpl. apply map_eq. intros k. rewrite lookup_fmap, lookup_insert, lookup_fmap.
    case_decide as Hk.
    + subst k. rewrite Ep. simpl. f_equal. eapply (proj1 (entry_rest _ _ t' x _)). Unshelve.
      by rewrite Hr, decide_True.
    + destruct (m_pending m !! k) as [q|] eqn:Ek; [|done]. simpl. f_equal.
      destruct (Sp _ _ Ek) as (t2 & x2 & E2 & _). rewrite (proj1 (entry_rest _ _ _ _ E2)).
      eapply (proj1 (entry_rest _ _ t2 x2 _)). Unshelve. rewrite Hr, decide_False; [done|].
      intros ->. by apply Hk, eq_sym, Hinj.
Qed.

(** ** ApplyTransferState *)

Definition same_logs (m m' : AccountManager) : Prop :=
  m_clock m' = m_clock m /\ m_transfers m' = m_transfers m /\ m_history m' = m_history m.

Lemma register_hold_logs t m : same_logs m (register_hold t m).
Proof. unfold register_hold. by case_match. Qed.
Lemma removePending_logs id m : same_logs m (removePending id m).
Proof. unfold removePending. by repeat case_match. Qed.

Lemma recordTransfer_ok t m : struct m ->
  struct (recordTransfer t m) /\ abs (recordTransfer t m) = spec_record t (abs m).
Proof. intros []. unfold recordTransfer, spec_record. case_decide; (split; [by constructor|done]). Qed.

Lemma writes_holds m m' g : struct m -> writes m m' g ->
  m_pending m' = m_pending m /\ rest m' = rest m /\ entry_at m' = entry_at m
  /\ l_holds (abs m') = l_holds (abs m) /\ same_logs m m'.
Proof. intros Hs ((l & ->) & _ & _). by repeat split. Qed.

Lemma abs_spec_move m m1 m2 dr cr p q H : struct m -> writes m m1 (move dr cr p q) ->
  same_accounts m1 m2 -> same_logs m1 m2 -> l_holds (abs m2) = H ->
  abs m2 = spec_move dr cr p q H (abs m).
Proof.
  intros Hs W Hacc Hlog Hh. destruct (writes_holds _ _ _ Hs W) as (_ & _ & _ & _ & Hlog1).
  pose proof (abs_accounts_same _ _ Hacc) as Ea. rewrite (writes_accounts _ _ _ W) in Ea.
  destruct Hlog as (C & T & Y), Hlog1 as (C1 & T1 & Y1).
  unfold spec_move. rewrite <- Ea, <- Hh. unfold abs at 1. simpl. congruence.
Qed.

(** What a successful application does; overflow is the only failure left
    after the check. *)
Definition applies (t : Transfer) (x : Uint128) (m : AccountManager) : Prop :=
  (effect_fits (val x) t (abs m) -> exists m', ApplyTransferState t m = (m', Ok tt) /\ struct m'
     /\ abs m' = spec_apply (val x) t (abs m))
  /\ (~ effect_fits (val x) t (abs m) ->
      exists m' id, ApplyTransferState t m = (m', Err (ErrBalanceOverflow id))).

Section Apply.
Context (m : AccountManager) (t : Transfer) (x : Uint128).
Context (Hg : good m) (Hw : wf_transfer t) (Hfr : fresh_hold t (abs m)).
Context (Hchk : checkTransfer m t = Ok x).

Lemma deadline_amount h v : deadline (set_Amount v h) = deadline h.
Proof using. done. Qed.

Lemma subtract_settle h : wf_transfer h -> wf128 x -> val x <= amt h ->
  subtractPendingAmount h x = set_Amount (of_Z (amt h - val x)) h.
Proof using.
  intros Wh Wx Hle. unfold subtractPendingAmount. pose proof (wft_amount _ Wh) as Wa.
  destruct (Sub_total (t_Amount h) x Wa Wx Hle) as (c & -> & Wc & Vc).
  by rewrite (of_Z_eq c).
Qed.

(** The hold a settlement names, in the manager. *)
Lemma settled_hold : isPost t || isVoid t = true -> exists p h y,
  m_pending m !! t_ID t = Some p /\ rest m !! p = Some (h, y) /\ l_holds (abs m) !! t_ID t = Some h
  /\ t_ID h = t_ID t /\ hold_ok (l_accounts (abs m)) h /\ wf128 x /\ 0 <= val x <= amt h
  /\ (isPost t = false -> val x = amt h).
Proof using All.
  intros Hpv. destruct Hg as [Hs HI].
  destruct (checkTransfer_Ok m t Hg Hw x Hchk) as [Wx [_ Ha]]. rewrite Hpv in Ha.
  pose proof Ha as (h & E & _ & Hv). destruct (holds_pending _ _ _ Hs E) as (p & y & Ep & Er & Hid & _).
  exists p, h, y. split; [done|]. split; [done|]. split; [done|]. split; [done|].
  split; [by apply (inv_hold _ HI _ _ E)|]. split; [done|].
  split; [by eapply settlement_effect|]. intros HP. by rewrite HP in Hv.
Qed.

Lemma apply_post : isPost t = true -> applies t x m.
Proof using All.
  intros HP. destruct Hg as [Hs HI].
  destruct settled_hold as (p & h & y & Ep & Er & Eh & Hid & Hok & Wx & Hx & _); [by rewrite HP|].
  pose proof Hok as [Wh _ Hne (d & c & Ed & Ec & _)].
  destruct (hold_covered (abs m) h HI) as (d' & c' & Ed' & Ec' & Cd & Cc); [by rewrite Hid|].
  rewrite Ed in Ed'. rewrite Ec in Ec'. injection Ed' as <-. injection Ec' as <-.
  destruct (inv_account _ HI _ _ Ed) as [_ Wd], (inv_account _ HI _ _ Ec) as [_ Wc].
  destruct (movePending_moves m _ _ d c Hs Hne Ed Ec Wd Wc h x) as [Hyes Hno]; [done..|lia|lia|].
  pose proof (entry_rest _ _ _ _ Er) as [Et _].
  assert (Heff : effect (val x) t (abs m) = (t_DebitAccountID h, t_CreditAccountID h, val x, - val x)).
  { unfold effect, hold_of. by rewrite HP, Eh. }
  assert (Hrec : recorded t (abs m) = fill_from h t).
  { unfold recorded, hold_of. by rewrite HP, Eh. }
  unfold applies, effect_fits. rewrite Heff. split; intros Hf.
  - destruct (Hyes Hf) as (m1 & E1 & W1). pose proof (writes_struct _ _ _ W1) as Hs1.
    destruct (writes_holds _ _ _ Hs W1) as (P1 & R1 & N1 & H1 & _).
    unfold ApplyTransferState, sbind, sget, slift, smodify. rewrite Hchk, HP. cbv iota zeta.
    rewrite Ep. change (default 0%nat (Some p)) with p. rewrite Et, E1, Cmp_eqb by (done || apply (wft_amount _ Wh)).
    fold (amt h). cbv iota.
    set (m2 := if amt h =? val x then removePending (t_ID t) m1 else
      set_entries (alter (set_transfer (subtractPendingAmount h x)) p (m_entries m1)) m1).
    assert (H2 : struct m2 /\ same_accounts m1 m2 /\ same_logs m1 m2
      /\ l_holds (abs m2) = settle (t_ID t) (val x) (l_holds (abs m))).
    { unfold settle. rewrite Eh. subst m2. destruct (amt h =? val x).
      - destruct (removePending_ok m1 (t_ID t) p Hs1) as (? & ? & E); [by rewrite P1|].
        rewrite E, H1. split; [done|]. split; [done|]. split; [apply removePending_logs|done].
      - rewrite subtract_settle by (done || lia).
        destruct (amend_ok m1 (t_ID t) p h y (set_Amount (of_Z (amt h - val x)) h) Hs1)
          as [? E]; [by rewrite P1|by rewrite R1|done|done|].
        rewrite E, H1. done. }
    destruct H2 as (Hs2 & A2 & L2 & Hh2).
    destruct (recordTransfer_ok (fill_from h t) m2 Hs2) as [Hs3 E3].
    exists (recordTransfer (fill_from h t) m2). split.
    + assert (Hfid : t_ID (fill_from h t) = t_ID t) by (unfold fill_from; by repeat case_match).
      rewrite Hfid. subst m2. by destruct (amt h =? val x).
    + split; [done|]. rewrite E3, (spec_apply_eq _ _ _ _ _ _ _ Heff), Hrec. f_equal.
      apply (abs_spec_move m m1); try done. unfold holds_after. by rewrite HP, Hh2.
  - destruct (Hno Hf) as (m1 & id & E1).
    unfold ApplyTransferState, sbind, sget, slift. rewrite Hchk, HP. cbv iota zeta.
    rewrite Ep. change (default 0%nat (Some p)) with p. rewrite Et, E1. eauto.
Qed.

Lemma apply_void : isPost t = false -> isVoid t = true -> applies t x m.
Proof using All.
  intros HP HV. destruct Hg as [Hs HI].
  destruct settled_hold as (p & h & y & Ep & Er & Eh & Hid & Hok & Wx & Hx & Hxa);
    [by rewrite HP, HV|].
  pose proof Hok as [Wh _ Hne (d & c & Ed & Ec & _)].
  destruct (hold_covered (abs m) h HI) as (d' & c' & Ed' & Ec' & Cd & Cc); [by rewrite Hid|].
  rewrite Ed in Ed'. rewrite Ec in Ec'. injection Ed' as <-. injection Ec' as <-.
  destruct (inv_account _ HI _ _ Ed) as [_ Wd], (inv_account _ HI _ _ Ec) as [_ Wc].
  destruct (releasePending_moves m _ _ d c Hs Hne Ed Ec Wd Wc h) as (m1 & E1 & W1);
    [done|done|apply (wft_amount _ Wh)|done|done|].
  pose proof (entry_rest _ _ _ _ Er) as [Et _].
  assert (Heff : effect (val x) t (abs m) = (t_DebitAccountID h, t_CreditAccountID h, 0, - amt h)).
  { unfold effect, hold_of. by rewrite HP, HV, Eh. }
  assert (Hrec : recorded t (abs m) = fill_from h t).
  { unfold recorded, hold_of. by rewrite HP, HV, Eh. }
  unfold applies, effect_fits. rewrite Heff. split; intros Hf.
  - pose proof (writes_struct _ _ _ W1) as Hs1.
    destruct (writes_holds _ _ _ Hs W1) as (P1 & _ & _ & H1 & _).
    destruct (removePending_ok m1 (t_ID t) p Hs1) as (Hs2 & A2 & Hh2); [by rewrite P1|].
    destruct (recordTransfer_ok (fill_from h t) _ Hs2) as [Hs3 E3].
    assert (Hfid : t_ID (fill_from h t) = t_ID t) by (unfold fill_from; by repeat case_match).
    eexists. split.
    + unfold ApplyTransferState, sbind, sget, slift, smodify. rewrite Hchk, HP, HV. cbv iota zeta.
      rewrite Ep. change (default 0%nat (Some p)) with p. rewrite Et, E1, Hfid. reflexivity.
    + split; [done|]. rewrite E3, (spec_apply_eq _ _ _ _ _ _ _ Heff), Hrec. f_equal.
      apply (abs_spec_move m m1); try done; [apply removePending_logs|].
      unfold holds_after. by rewrite HP, HV, Hh2, H1.
  - destruct Hf. apply (fits_iff _ _ _ _ _ d c); [done..|].
    destruct Wd as (?%val_range & ?%val_range & ?%val_range & ?%val_range).
    destruct Wc as (?%val_range & ?%val_range & ?%val_range & ?%val_range).
    pose proof (amt_nonneg h Wh).
    unfold in128, vPD, vHD, vPC, vHC in *. lia.
Qed.

Lemma checked_transfer : isPost t || isVoid t = false -> val x = 0 /\ exists d c,
  l_accounts (abs m) !! t_DebitAccountID t = Some d /\ l_accounts (abs m) !! t_CreditAccountID t = Some c
  /\ t_DebitAccountID t <> t_CreditAccountID t /\ amounts_wf d /\ amounts_wf c /\ funds_allowed t d.
Proof using All.
  intros Hpv. destruct Hg as [Hs HI].
  destruct (checkTransfer_Ok m t Hg Hw x Hchk) as [Wx [_ Ha]]. rewrite Hpv in Ha.
  destruct Ha as (? & _ & Hne & d & c & Ed & Ec & _ & _ & _ & _ & _ & Hf). split; [done|].
  destruct (inv_account _ HI _ _ Ed) as [_ Wd], (inv_account _ HI _ _ Ec) as [_ Wc].
  by exists d, c.
Qed.

Lemma apply_pending : isPost t = false -> isVoid t = false -> isPending t = true -> applies t x m.
Proof using All.
  intros HP HV HH. destruct Hg as [Hs HI].
  destruct checked_transfer as (Hx & d & c & Ed & Ec & Hne & Wd & Wc & _); [by rewrite HP, HV|].
  destruct (applyPending_moves m _ _ d c Hs Hne Ed Ec Wd Wc (t_Amount t) (wft_amount _ Hw)) as [Hyes Hno].
  assert (Heff : effect (val x) t (abs m) = (t_DebitAccountID t, t_CreditAccountID t, 0, amt t)).
  { unfold effect. by rewrite HP, HV, HH. }
  unfold applies, effect_fits. rewrite Heff. split; intros Hf.
  - destruct (Hyes Hf) as (m1 & E1 & W1). pose proof (writes_struct _ _ _ W1) as Hs1.
    destruct (writes_holds _ _ _ Hs W1) as (P1 & _ & _ & H1 & _).
    destruct (register_hold_ok m1 t Hs1) as (Hs2 & A2 & Hh2).
    { rewrite P1. by apply pending_None, Hfr. }
    destruct (recordTransfer_ok t _ Hs2) as [Hs3 E3].
    exists (recordTransfer t (register_hold t m1)). split.
    + unfold ApplyTransferState, reservePending. unfold sbind, sget, slift, smodify in *.
      rewrite Hchk, HP, HV, HH. cbv iota zeta. destruct (applyPendingDebit _ _ m) as [m0 [?|?]]; [|done].
      by rewrite E1.
    + split; [done|]. rewrite E3, (spec_apply_eq _ _ _ _ _ _ _ Heff).
      unfold recorded. rewrite HP, HV. f_equal.
      apply (abs_spec_move m m1); try done; [apply register_hold_logs|].
      unfold holds_after. by rewrite HP, HV, HH, Hh2, H1.
  - destruct (Hno Hf) as (m1 & id & E1). exists m1, id.
    unfold ApplyTransferState, reservePending. unfold sbind, sget, slift in *.
    rewrite Hchk, HP, HV, HH. cbv iota zeta. destruct (applyPendingDebit _ _ m) as [m0 [?|?]].
    + by rewrite E1.
    + by simplify_eq.
Qed.

Lemma apply_plain : isPost t = false -> isVoid t = false -> isPending t = false -> applies t x m.
Proof using All.
  intros HP HV HH. destruct Hg as [Hs HI].
  destruct checked_transfer as (Hx & d & c & Ed & Ec & Hne & Wd & Wc & Hfun); [by rewrite HP, HV|].
  unfold funds_allowed in Hfun. rewrite HH in Hfun.
  destruct (postImmediate_moves m _ _ d c Hs Hne Ed Ec Wd Wc t eq_refl eq_refl (wft_amount _ Hw) Hfun)
    as [Hyes Hno].
  assert (Heff : effect (val x) t (abs m) = (t_DebitAccountID t, t_CreditAccountID t, amt t, 0)).
  { unfold effect. by rewrite HP, HV, HH. }
  unfold applies, effect_fits. rewrite Heff. unfold ApplyTransferState, sbind, sget, slift, smodify.
  rewrite Hchk, HP, HV, HH. cbv iota zeta. split; intros Hf.
  - destruct (Hyes Hf) as (m1 & E1 & W1). pose proof (writes_struct _ _ _ W1) as Hs1.
    destruct (writes_holds _ _ _ Hs W1) as (_ & _ & _ & H1 & _).
    destruct (recordTransfer_ok t _ Hs1) as [Hs3 E3]. eexists. split; [by rewrite E1|].
    split; [done|]. rewrite E3, (spec_apply_eq _ _ _ _ _ _ _ Heff).
    unfold recorded. rewrite HP, HV. f_equal. apply (abs_spec_move m m1); try done.
    unfold holds_after. by rewrite HP, HV, HH.
  - destruct (Hno Hf) as (m1 & id & E1). exists m1, id. by rewrite E1.
Qed.

Lemma apply_checked : applies t x m.
Proof using All.
  destruct (isPost t) eqn:HP; [by apply apply_post|].
  destruct (isVoid t) eqn:HV; [by apply apply_void|].
  destruct (isPending t) eqn:HH; [by apply apply_pending|by apply apply_plain].
Qed.
End Apply.

(** ** CloseExpired *)

(** The hold at the top of the deadline heap. *)
Lemma expiry_hold m p : good m -> p ∈ m_expiry m -> exists h d,
  m_pending m !! t_ID h = Some p /\ rest m !! p = Some (h, d) /\ l_holds (abs m) !! t_ID h = Some h
  /\ deadline h = Some d.
Proof.
  intros [Hs HI] (id & h & x & Ep & Er & Hd)%(s_expiry _ Hs).
  destruct (s_pending _ Hs _ _ Ep) as (h' & x' & Er' & Hid & Hx).
  rewrite Er in Er'. injection Er' as <- <-. subst id.
  exists h. destruct (deadline h) as [d|] eqn:ED; [|done]. specialize (Hx d eq_refl) as ->.
  exists d. split; [done|]. split; [done|]. split; [|done]. by eapply holds_lookup.
Qed.

Definition close_one (top : nat) (m : AccountManager) : AccountManager :=
  let m1 := with_expiry (heap_Pop (expiry_of m)).1 m in
  let t := pe_transfer (entry_at m1 top) in
  (releasePending t (set_pending (delete (t_ID t) (m_pending m1)) m1)).1.

Lemma close_one_ok m top h d : good m -> m_expiry m !! 0%nat = Some top ->
  m_pending m !! t_ID h = Some top -> rest m !! top = Some (h, d) ->
  l_holds (abs m) !! t_ID h = Some h ->
  good (close_one top m) /\ S (length (m_expiry (close_one top m))) = length (m_expiry m) /\
  abs (close_one top m) = spec_move (t_DebitAccountID h) (t_CreditAccountID h) 0 (- amt h)
    (delete (t_ID h) (l_holds (abs m))) (abs m).
Proof.
  intros [Hs HI] Etop Ep Er Eh.
  destruct (expiry_pop_spec (expiry_of m) top (s_heap _ Hs) Etop) as [Hok Hperm].
  unfold close_one. set (m1 := with_expiry _ m).
  assert (Hr1 : rest m1 = rest m) by apply heap_pop_rest.
  pose proof Er as Er1. rewrite <- Hr1 in Er1. destruct (entry_rest _ _ _ _ Er1) as [-> _].
  set (m2 := set_pending _ m1).
  pose proof (s_heap _ Hs) as [[Hnd _] _]. simpl in Hnd.
  assert (Hnd' : NoDup (top :: es_arr (heap_Pop (expiry_of m)).1)) by by rewrite Hperm.
  apply NoDup_cons in Hnd' as [Htop _].
  destruct (struct_unregister m m2 Hs ltac:(done) (t_ID h) top) as [Hs2 Hh2]; try done.
  { intros q. change (m_expiry m) with (es_arr (expiry_of m)). rewrite <- Hperm, elem_of_cons.
    change (m_expiry m2) with (es_arr (heap_Pop (expiry_of m)).1). naive_solver. }
  destruct (inv_hold _ HI _ _ Eh) as [_ Hok'].
  pose proof Hok' as [Wh _ Hne (a & c & Ea & Ec & _)].
  destruct (hold_covered (abs m) h HI Eh) as (a' & c' & Ea' & Ec' & Cd & Cc).
  rewrite Ea in Ea'. rewrite Ec in Ec'. injection Ea' as <-. injection Ec' as <-.
  destruct (inv_account _ HI _ _ Ea) as [_ Wa], (inv_account _ HI _ _ Ec) as [_ Wc].
  destruct (releasePending_moves m2 _ _ a c Hs2 Hne Ea Ec Wa Wc h) as (m3 & E3 & W3);
    [done|done|apply (wft_amount _ Wh)|done|done|].
  rewrite E3. simpl fst. pose proof (writes_struct _ _ _ W3) as Hs3.
  destruct (writes_holds _ _ _ Hs2 W3) as (_ & _ & _ & H3 & _).
  assert (Eabs : abs m3 = spec_move (t_DebitAccountID h) (t_CreditAccountID h) 0 (- amt h)
    (delete (t_ID h) (l_holds (abs m))) (abs m)).
  { rewrite (abs_spec_move m2 m3 m3 _ _ _ _ (delete (t_ID h) (l_holds (abs m))) Hs2 W3); try done.
    by rewrite H3. }
  split; [split; [done|]|split; [|done]].
  - rewrite Eabs. apply inv_move; try done.
    + apply (fits_iff _ _ _ _ _ a c); [done..|].
      destruct Wa as (?%val_range & ?%val_range & ?%val_range & ?%val_range).
      destruct Wc as (?%val_range & ?%val_range & ?%val_range & ?%val_range).
      pose proof (amt_nonneg h Wh). unfold in128, vPD, vHD, vPC, vHC in *. lia.
    + intros id h' [_ E']%lookup_delete_Some. by apply (inv_hold _ HI).
    + intros id. rewrite <- (settle_all _ _ h) by done. rewrite (held_debits_settle _ _ _ _ h) by done.
      case_decide; lia.
    + intros id. rewrite <- (settle_all _ _ h) by done. rewrite (held_credits_settle _ _ _ _ h) by done.
      case_decide; lia.
  - assert (m_expiry m3 = m_expiry m2) as -> by (destruct W3 as ((l & ->) & _); done).
    change (m_expiry m2) with (es_arr (heap_Pop (expiry_of m)).1).
    apply Permutation_length in Hperm. simpl in Hperm. lia.
Qed.

Lemma CloseExpired_loop_unfold fuel m : CloseExpired_loop (S fuel) m =
  match m_expiry m !! 0%nat with
  | None => m
  | Some top => if m_clock m <? pe_expires (entry_at m top) then m
                else CloseExpired_loop fuel (close_one top m)
  end.
Proof. done. Qed.

Lemma CloseExpired_loop_ok fuel m : good m -> (length (m_expiry m) <= fuel)%nat ->
  good (CloseExpired_loop fuel m) /\ abs (CloseExpired_loop fuel m) = spec_close_expired (abs m).
Proof.
  revert m. induction fuel as [|fuel IH]; intros m Hg Hlen; pose proof Hg as [Hs HI].
  - split; [done|]. symmetry. apply close_expired_none; [done|]. intros id h E Hov.
    destruct (holds_pending _ _ _ Hs E) as (p & x & Ep & Er & _).
    assert (Hin : p ∈ m_expiry m).
    { apply (s_expiry _ Hs). exists id, h, x. split; [done|]. split; [done|].
      unfold overdue in Hov. by destruct (deadline h). }
    destruct (m_expiry m); [by apply not_elem_of_nil in Hin|simpl in Hlen; lia].
  - rewrite CloseExpired_loop_unfold. destruct (m_expiry m !! 0%nat) as [top|] eqn:Etop.
    + destruct (expiry_hold m top Hg) as (h & d & Ep & Er & Eh & Hd);
        [by eapply list_elem_of_lookup_2|].
      destruct (entry_rest _ _ _ _ Er) as [_ ->].
      destruct (Z.ltb_spec (m_clock m) d) as [Hlt|Hge].
      * split; [done|]. symmetry. apply close_expired_none; [done|]. intros id g E Hov.
        destruct (holds_pending _ _ _ Hs E) as (p & x & Ep' & Er' & _ & Hx).
        unfold overdue in Hov. destruct (deadline g) as [dg|] eqn:Edg; [|done].
        specialize (Hx dg eq_refl) as ->.
        assert (Hin : p ∈ m_expiry m) by (apply (s_expiry _ Hs); exists id, g, dg; by rewrite Edg).
        pose proof (expiry_top (expiry_of m) top p (s_heap _ Hs) Etop Hin) as Hle.
        apply rest_lookup in Er as (e1 & E1 & _ & X1), Er' as (e2 & E2 & _ & X2).
        unfold expires_at in Hle. simpl in Hle, Hov. rewrite E1, E2, X1, X2 in Hle. lia.
      * destruct (close_one_ok m top h d Hg Etop Ep Er Eh) as (Hg' & Hl & Eabs).
        destruct (IH (close_one top m) Hg') as [? ->]; [lia|]. split; [done|].
        rewrite Eabs. apply close_expired_step; try done.
        -- unfold overdue. by rewrite Hd.
        -- rewrite <- Eabs. apply Hg'.
    + split; [done|]. symmetry. apply close_expired_none; [done|]. intros id h E Hov.
      destruct (holds_pending _ _ _ Hs E) as (p & x & Ep & Er & _).
      assert (Hin : p ∈ m_expiry m).
      { apply (s_expiry _ Hs). exists id, h, x. split; [done|]. split; [done|].
        unfold overdue in Hov. by destruct (deadline h). }
      destruct (m_expiry m); [by apply not_elem_of_nil in Hin|done].
Qed.

(** ** Construction, clock, restored holds *)

Lemma NewAccountManager_good : good NewAccountManager.
Proof.
  split.
  - constructor; simpl; try done.
    + split; [|intros c Hc; simpl in Hc; lia]. split; [apply NoDup_nil_2|done].
    + intros p. split; [by intros ?%not_elem_of_nil|]. by intros (? & ? & ? & ? & _).
  - constructor; simpl; by intros ? ?; rewrite lookup_fmap.
Qed.

Lemma SetClock_ok now m : good m -> good (SetClock now m) /\ abs (SetClock now m) = spec_set_clock now (abs m).
Proof.
  intros [Hs HI]. split; [|done]. split; [by destruct Hs|].
  change (inv (spec_set_clock now (abs m))). by apply inv_set_clock.
Qed.

(** No hold touches an account that does not exist. *)
Lemma held_absent L id : inv L -> l_accounts L !! id = None ->
  held_debits id (l_holds L) = 0 /\ held_credits id (l_holds L) = 0.
Proof.
  intros HI E. unfold held_debits, held_credits.
  assert (H0 : forall (H : gmap ID Transfer), msum (fun _ => 0) H = 0).
  { intros H. induction H as [|k v H ? IH] using map_ind; [apply msum_empty|].
    by rewrite msum_insert_new, IH. }
  split; rewrite <- (H0 (l_holds L)); apply msum_ext; intros k h Eh;
    destruct (inv_hold _ HI _ _ Eh) as [_ [_ _ _ (d & c & Ed & Ec & _)]].
  - unfold debit_of. case_decide; congruence.
  - unfold credit_of. case_decide; congruence.
Qed.

Lemma inv_create a L : inv L -> amounts_wf a -> l_accounts L !! a_ID a = None -> inv (spec_create a L).
Proof.
  intros HI Ha E. destruct (held_absent _ _ HI E) as [H1 H2].
  pose proof Ha as (?%val_range & ?%val_range & ?%val_range & ?%val_range).
  constructor; simpl.
  - intros id b [[<- <-]|[_ ?]]%lookup_insert_Some; [done|]. by apply (inv_account _ HI).
  - intros id h Eh. destruct (inv_hold _ HI _ _ Eh) as [? Hok]. split; [done|].
    eapply hold_ok_static; [|done]. intros k b Eb. exists b.
    rewrite lookup_insert_ne by congruence. by repeat split.
  - intros id b [[<- <-]|[_ ?]]%lookup_insert_Some; [unfold vHD; lia|]. by apply (inv_debits _ HI).
  - intros id b [[<- <-]|[_ ?]]%lookup_insert_Some; [unfold vHC; lia|]. by apply (inv_credits _ HI).
Qed.

Lemma Create_ok a m : good m -> amounts_wf a ->
  match l_accounts (abs m) !! a_ID a with
  | Some _ => Create a m = (m, Err (ErrDuplicateAccountID (a_ID a)))
  | None => exists m', Create a m = (m', Ok tt) /\ good m' /\ abs m' = spec_create a (abs m)
  end.
Proof.
  intros [Hs HI] Ha. unfold Create, sbind, sget, smodify, sfail.
  destruct (l_accounts (abs m) !! a_ID a) as [b|] eqn:E; simpl in E; rewrite lookup_fmap in E.
  { by destruct (m_index m !! a_ID a). }
  destruct (m_index m !! a_ID a) as [i|] eqn:Ei; [done|]. eexists. split; [done|].
  set (m' := set_index _ _).
  assert (Hn : (length (m_accounts m ++ [a]) - 1 = length (m_accounts m))%nat)
    by (rewrite length_app; simpl; lia).
  assert (Hix : m_index m' = <[a_ID a := length (m_accounts m)]> (m_index m)) by (simpl; by rewrite Hn).
  assert (Eabs : abs m' = spec_create a (abs m)).
  { apply ledger_eq; try done. simpl. rewrite Hn, fmap_insert. unfold acc_at. simpl.
    rewrite lookup_app_r, Nat.sub_diag by done. simpl. f_equal.
    apply map_eq. intros id. rewrite !lookup_fmap. destruct (m_index m !! id) as [j|] eqn:Ej; [|done].
    simpl. destruct (s_index _ Hs _ _ Ej) as (b & Eb & _). by rewrite (lookup_app_l_Some _ _ _ _ Eb), Eb. }
  split; [split|done].
  - destruct Hs as [Si Sa Sp Sh Se Sn]. constructor; try done; rewrite Hix.
    + intros id j. simpl. intros [[<- <-]|[_ Ej]]%lookup_insert_Some.
      * exists a. by rewrite lookup_app_r, Nat.sub_diag.
      * destruct (Si _ _ Ej) as (b & Eb & ?). exists b. split; [|done]. by apply lookup_app_l_Some.
    + intros j b. simpl. intros [Eb|[Hj Eb]]%lookup_app_Some.
      * pose proof (Sa _ _ Eb) as Ej. rewrite lookup_insert_ne; [done|]. intros Hid. congruence.
      * apply list_lookup_singleton_Some in Eb as [Hj0 <-]. rewrite lookup_insert_eq. f_equal. lia.
  - rewrite Eabs. apply inv_create; [done|done|]. simpl. by rewrite lookup_fmap, Ei.
Qed.

(** Registering a hold read from a snapshot leaves the amounts alone. *)
Definition spec_restore (t : Transfer) (L : Ledger) : Ledger :=
  mkLedger (l_accounts L) (<[t_ID t := t]> (l_holds L)) (l_clock L) (l_transfers L) (l_history L).

Lemma RestorePending_ok t m : struct m ->
  match l_holds (abs m) !! t_ID t with
  | Some _ => RestorePending t m = (m, Err (ErrRestoredTwice (t_ID t)))
  | None => exists m', RestorePending t m = (m', Ok tt) /\ struct m' /\ abs m' = spec_restore t (abs m)
  end.
Proof.
  intros Hs. unfold RestorePending, sbind, sget, sfail, smodify.
  destruct (l_holds (abs m) !! t_ID t) as [h|] eqn:E.
  - simpl in E. rewrite lookup_fmap in E. by destruct (m_pending m !! t_ID t).
  - apply pending_None in E. rewrite E. destruct (register_hold_ok m t Hs E) as (Hs' & Hacc & Hh).
    destruct (register_hold_logs t m) as (C & T & Y). eexists. split; [done|]. split; [done|].
    apply ledger_eq; try done. by rewrite (abs_accounts_same _ _ Hacc).
Qed.
