(* ===== verification/AccountsProps.v ===== *)
(** * Properties of the account state machine

    Refinement of the abstract ledger, the invariant of every reachable
    manager, conservation of money, settlement and solvency, and the history
    cursor.  [good], [abs] and the abstract operations are those of
    [AccountsRefine] and [LedgerSpec]. *)

From S2P Require Import Prelude Core Uint128 Balance Heap Expiry Accounts LedgerSpec AccountsRefine.

(** ** Operations as steps *)

(** The manager's public mutations as the loop performs them: an accepted
    transfer, a refused one, and the clock followed by an expiry.  The ID of a
    new hold is not open, which the batch validation enforces. *)
Inductive step (m : AccountManager) : AccountManager -> Prop :=
| step_create a : amounts_wf a -> (Create a m).2 = Ok tt -> step m (Create a m).1
| step_apply t : wf_transfer t -> m_pending m !! t_ID t = None \/ isPending t = false ->
    (ApplyTransferState t m).2 = Ok tt -> step m (ApplyTransferState t m).1
| step_refuse t e : checkTransfer m t = Err e -> step m (ApplyTransferState t m).1
| step_clock now : step m (SetClock now m)
| step_expire : step m (CloseExpired m).

(** Every account's posted debits are covered by its posted credits. *)
Definition solvent (m : AccountManager) : Prop :=
  forall id a, l_accounts (abs m) !! id = Some a -> vPD a <= vPC a.
(** Even when every open debit hold is settled. *)
Definition covered (m : AccountManager) : Prop :=
  forall id a, l_accounts (abs m) !! id = Some a -> vPD a + vHD a <= vPC a.

(** The pages a client reads with [AccountTransfers], each starting after the
    last transfer of the one before. *)
Fixpoint read_pages (fuel : nat) (m : AccountManager) (acc cursor : ID) (limit : Z) : list Transfer :=
  match fuel with
  | O => []
  | S fuel' =>
      let page := AccountTransfers m acc cursor limit in
      match last page with
      | None => []
      | Some t => page ++ read_pages fuel' m acc (t_ID t) limit
      end
  end.

(** ** Helper lemmas *)

Lemma apply_run m t : good m -> wf_transfer t -> fresh_hold t (abs m) ->
  match checkTransfer m t with
  | Err e => ApplyTransferState t m = (m, Err e)
  | Ok x => applies t x m
  end.
Proof.
  intros Hg Hw Hfr. destruct (checkTransfer m t) as [x|e] eqn:E.
  - by apply apply_checked.
  - unfold ApplyTransferState, sbind, sget, slift. by rewrite E.
Qed.

Lemma limit_in128_dec z : Decision (in128 z).
Proof. unfold in128. apply _. Qed.

Lemma fits_dec dr cr p q A : fits dr cr p q A \/ ~ fits dr cr p q A.
Proof.
  unfold fits. destruct (A !! dr) as [d|]; destruct (A !! cr) as [c|].
  all: try destruct (limit_in128_dec (vPD d + p)), (limit_in128_dec (vHD d + q)).
  all: try destruct (limit_in128_dec (vPC c + p)), (limit_in128_dec (vHC c + q)).
  all: try (left; split; intros ? [= <-]; done).
  all: right; intros [H1 H2]; try specialize (H1 d eq_refl); try specialize (H2 c eq_refl); tauto.
Qed.

Lemma apply_Ok_inv m t m' : good m -> wf_transfer t -> fresh_hold t (abs m) ->
  ApplyTransferState t m = (m', Ok tt) ->
  exists v, allowed v t (abs m) /\ effect_fits v t (abs m) /\ good m' /\ abs m' = spec_apply v t (abs m).
Proof.
  intros Hg Hw Hfr E. pose proof (apply_run m t Hg Hw Hfr) as R.
  destruct (checkTransfer m t) as [x|e] eqn:EC; [|congruence].
  destruct (checkTransfer_Ok m t Hg Hw x EC) as [Wx Ha]. destruct R as [Hyes Hno].
  exists (val x). split; [done|].
  assert (Hf : effect_fits (val x) t (abs m)).
  { unfold effect_fits in *. destruct (effect (val x) t (abs m)) as [[[dr cr] p] q].
    destruct (fits_dec dr cr p q (l_accounts (abs m))) as [|Hn]; [done|].
    destruct (Hno Hn) as (? & ? & ?). congruence. }
  split; [done|]. destruct (Hyes Hf) as (m1 & E1 & Hs1 & A1).
  rewrite E in E1. injection E1 as <-. split; [|done]. split; [done|].
  rewrite A1. destruct Hg as [_ HI]. by apply inv_apply.
Qed.

Lemma run_Ok {S E} (c : S * result unit E) : c.2 = Ok tt -> c = (c.1, Ok tt).
Proof. destruct c as [? []]; simpl; [intros [= ->]; done|done]. Qed.

Lemma fresh_pending t m : m_pending m !! t_ID t = None \/ isPending t = false -> fresh_hold t (abs m).
Proof. intros [E|E] HP; [by apply pending_None|congruence]. Qed.

Lemma step_good m m' : good m -> step m m' -> good m'.
Proof.
  intros Hg [a Ha E%run_Ok|t Hw Hfr%fresh_pending E%run_Ok|t e E|now|].
  - pose proof (Create_ok a m Hg Ha) as C. destruct (l_accounts (abs m) !! a_ID a); [congruence|].
    destruct C as (m2 & E2 & ? & _). rewrite E in E2. by injection E2 as ->.
  - by destruct (apply_Ok_inv m t _ Hg Hw Hfr E) as (v & _ & _ & ? & _).
  - unfold ApplyTransferState, sbind, sget, slift. by rewrite E.
  - apply (SetClock_ok now m Hg).
  - by apply (CloseExpired_loop_ok (length (m_expiry m)) m Hg).
Qed.

(** ** A small ledger for the witnesses *)

Definition idn (n : Z) : ID := be_bytes 16 n.
Definition acct (n pc : Z) : Account :=
  mkAccount (idn n) (zeros 4) 1 0 0 (zeros 16) zero128 (FromUint64 pc) zero128 zero128.
Definition xfer (n d c amount timeout flags : Z) : Transfer :=
  mkTransfer (idn n) (idn d) (idn c) (FromUint64 amount) (zeros 32) (zeros 16) 100 timeout 1 0 flags.
Definition demo0 : AccountManager := (Create (acct 2 0) (Create (acct 1 100) NewAccountManager).1).1.
(** A hold of 60 from account 1 to account 2, with a deadline at 150. *)
Definition demo1 : AccountManager := (ApplyTransferState (xfer 7 1 2 60 50 TransferFlagPending) demo0).1.

Lemma idn_length n : length (idn n) = 16%nat.
Proof. apply length_be_bytes. Qed.

Lemma xfer_wf n d c v timeout flags : is_u64 v -> is_u64 timeout -> is_u32 flags ->
  wf_transfer (xfer n d c v timeout flags).
Proof.
  intros. constructor; simpl; try done; try apply idn_length; auto with ledger.
Qed.
Lemma acct_amounts n pc : is_u64 pc -> amounts_wf (acct n pc).
Proof. intros. repeat split; simpl; done || lia || apply H. Qed.

Lemma demo0_good : good demo0.
Proof.
  unfold demo0. eapply step_good; [eapply step_good; [apply NewAccountManager_good|]|].
  - apply (step_create _ (acct 1 100)); [by apply acct_amounts|]. vm_compute. reflexivity.
  - apply (step_create _ (acct 2 0)); [by apply acct_amounts|]. vm_compute. reflexivity.
Qed.
Lemma demo1_good : good demo1.
Proof.
  eapply step_good; [apply demo0_good|].
  apply (step_apply _ (xfer 7 1 2 60 50 TransferFlagPending)); [by apply xfer_wf|left|];
    vm_compute; reflexivity.
Qed.

(** ** Properties *)

(** C2. [checkTransfer] accepts exactly the operations the abstract ledger
    allows, and returns the amount a settlement moves. *)
Theorem check_iff_allowed m t x : good m -> wf_transfer t ->
  checkTransfer m t = Ok x <-> wf128 x /\ allowed (val x) t (abs m).
Proof.
  intros Hg Hw. split; [by apply checkTransfer_Ok|]. intros [Wx Ha].
  destruct (checkTransfer_total m t Hg Hw _ Ha) as (y & Ey & Wy & Vy).
  by rewrite Ey, (val_inj y x).
Qed.

Lemma check_iff_allowed_witness :
  checkTransfer demo1 (xfer 7 0 0 25 0 TransferFlagPostPending) = Ok (FromUint64 25)
  /\ allowed (val (FromUint64 25)) (xfer 7 0 0 25 0 TransferFlagPostPending) (abs demo1).
Proof.
  assert (Hw : wf_transfer (xfer 7 0 0 25 0 TransferFlagPostPending)) by (by apply xfer_wf).
  assert (E : checkTransfer demo1 (xfer 7 0 0 25 0 TransferFlagPostPending) = Ok (FromUint64 25))
    by (vm_compute; reflexivity).
  split; [exact E|].
  exact (proj2 (proj1 (check_iff_allowed demo1 _ (FromUint64 25) demo1_good Hw) E)).
Defined.

(** C1. [ApplyTransferState] implements the abstract operation: a refused
    transfer changes nothing, an accepted one whose four amounts fit in 128
    bits succeeds and reaches the state the specification computes, and the
    only failure after the check is a balance overflow. *)
Theorem apply_refines m t : good m -> wf_transfer t -> fresh_hold t (abs m) ->
  match checkTransfer m t with
  | Err e => ApplyTransferState t m = (m, Err e)
  | Ok x =>
      (effect_fits (val x) t (abs m) ->
       exists m', ApplyTransferState t m = (m', Ok tt) /\ good m'
         /\ abs m' = spec_apply (val x) t (abs m))
      /\ (~ effect_fits (val x) t (abs m) ->
          exists m' id, ApplyTransferState t m = (m', Err (ErrBalanceOverflow id)))
  end.
Proof.
  intros Hg Hw Hfr. pose proof (apply_run m t Hg Hw Hfr) as R.
  destruct (checkTransfer m t) as [x|e] eqn:EC; [|done]. destruct R as [Hyes Hno]. split; [|done].
  intros Hf. destruct (Hyes Hf) as (m' & E & _).
  destruct (apply_Ok_inv m t m' Hg Hw Hfr E) as (v & Ha & _ & Hg' & A).
  destruct (checkTransfer_Ok m t Hg Hw x EC) as [_ Ha'].
  rewrite (allowed_unique _ _ _ _ Ha Ha') in A. eauto.
Qed.

Lemma apply_refines_witness :
  ApplyTransferState (xfer 8 2 1 5 0 0) demo1
    = (demo1, Err (ErrInsufficientFunds (idn 2) zero128 (FromUint64 5))).
Proof.
  assert (Hw : wf_transfer (xfer 8 2 1 5 0 0)) by (by apply xfer_wf).
  pose proof (apply_refines demo1 (xfer 8 2 1 5 0 0) demo1_good Hw ltac:(done)) as H.
  assert (E : checkTransfer demo1 (xfer 8 2 1 5 0 0)
    = Err (ErrInsufficientFunds (idn 2) zero128 (FromUint64 5))) by (vm_compute; reflexivity).
  rewrite E in H. exact H.
Defined.

(** [CloseExpired] closes exactly the holds whose deadline has passed on
    the logical clock, returns what they reserved on both accounts, changes
    nothing else, and its loop ends with the work done. *)
Theorem close_expired_refines m : good m ->
  good (CloseExpired m) /\ abs (CloseExpired m) = spec_close_expired (abs m).
Proof. intros Hg. by apply (CloseExpired_loop_ok (length (m_expiry m)) m Hg). Qed.

Lemma close_expired_refines_witness :
  abs (CloseExpired (SetClock 150 demo1)) = spec_close_expired (abs (SetClock 150 demo1))
  /\ m_pending (CloseExpired (SetClock 150 demo1)) !! idn 7 = None
  /\ m_pending (CloseExpired (SetClock 149 demo1)) !! idn 7 = Some 0%nat.
Proof.
  split; [|split; vm_compute; reflexivity].
  apply (close_expired_refines (SetClock 150 demo1)). apply SetClock_ok, demo1_good.
Defined.

(** The pending amounts of every account are those it was created with plus
    the open holds on it. *)
Definition holds_exact (O : gmap ID Account) (L : Ledger) : Prop :=
  forall id a, l_accounts L !! id = Some a -> exists a0, O !! id = Some a0
    /\ vHD a = vHD a0 + held_debits id (l_holds L) /\ vHC a = vHC a0 + held_credits id (l_holds L).

Lemma exact_apply O v t L : inv L -> wf_transfer t -> fresh_hold t L -> allowed v t L -> effect_fits v t L ->
  holds_exact O L -> holds_exact O (spec_apply v t L).
Proof.
  intros HI Hw Hfr Ha Hf HE id a. pose proof (effect_spec v t L HI Hw Hfr Ha) as Hef.
  destruct (effect v t L) as [[[dr cr] p] q] eqn:Eq. rewrite (spec_apply_eq _ _ _ _ _ _ _ Eq).
  cbn [spec_record spec_move l_accounts l_holds]. destruct Hef as [Hne _ _ Hd Hc].
  rewrite lookup_move, (Hd id), (Hc id) by done. destruct (l_accounts L !! id) as [b|] eqn:Eb.
  2:{ intros E. exfalso. revert E. by repeat case_decide. }
  destruct (HE id b Eb) as (a0 & E0 & H1 & H2). intros E. exists a0. split; [done|].
  pose proof (shift_debit_vals p q b). pose proof (shift_credit_vals p q b). revert E.
  repeat case_decide; subst; try done; intros [= <-]; lia.
Qed.

Lemma exact_create O a L : inv L -> l_accounts L !! a_ID a = None -> holds_exact O L ->
  holds_exact (<[a_ID a := a]> O) (spec_create a L).
Proof.
  intros HI E HE id b. cbn [spec_create l_accounts l_holds]. destruct (held_absent _ _ HI E) as [H1 H2].
  intros [[<- <-]|[Hne Eb]]%lookup_insert_Some.
  - exists a. rewrite lookup_insert_eq. split; [done|]. lia.
  - rewrite lookup_insert_ne by done. by apply HE.
Qed.

Lemma exact_expired O L : holds_exact O L -> holds_exact O (spec_close_expired L).
Proof.
  intros HE id a. cbn [spec_close_expired l_accounts l_holds]. rewrite map_lookup_imap.
  destruct (l_accounts L !! id) as [b|] eqn:Eb; [|done]. intros [= <-].
  destruct (HE id b Eb) as (a0 & E0 & H1 & H2). exists a0. split; [done|].
  set (X := filter (fun kv => overdue (l_clock L) kv.2) (l_holds L)).
  pose proof (release_all_vals X id b). rewrite (held_debits_filter id (l_clock L)) in H1.
  rewrite (held_credits_filter id (l_clock L)) in H2. fold X in H1, H2. lia.
Qed.

(** A manager reached from the empty one, and its accounts as they were
    created. *)
Inductive reached : AccountManager -> gmap ID Account -> Prop :=
| reached_empty : reached NewAccountManager ∅
| reached_create m O a : reached m O -> amounts_wf a -> (Create a m).2 = Ok tt ->
    reached (Create a m).1 (<[a_ID a := a]> O)
| reached_apply m O t : reached m O -> wf_transfer t -> m_pending m !! t_ID t = None \/ isPending t = false ->
    (ApplyTransferState t m).2 = Ok tt -> reached (ApplyTransferState t m).1 O
| reached_refuse m O t e : reached m O -> checkTransfer m t = Err e -> reached (ApplyTransferState t m).1 O
| reached_clock m O now : reached m O -> reached (SetClock now m) O
| reached_expire m O : reached m O -> reached (CloseExpired m) O.

Lemma rtc_reached m : rtc step NewAccountManager m -> exists O, reached m O.
Proof.
  intros H. pattern m. eapply rtc_ind_r; [|..|exact H]; [exists ∅; constructor|].
  intros m1 m2 _ [a Ha Ec|t Hw Hfr Ec|t e Ec|now|] [O IH]; eexists; by econstructor.
Qed.

(** C3. Every manager reachable from an empty one by creating accounts,
    applying transfers, refusing them, moving the clock and closing expired
    holds is well formed: index and slice agree, pointers and deadline heap
    agree, and every open hold is between two existing accounts of its ledger.
    And the pending totals are exact: the pending debits and credits of each
    account are those it was created with plus the amounts left of the open
    holds on it - nothing stays reserved after a post, a void or an expiry. *)
Theorem reachable_good m O : reached m O -> good m /\ forall id a, l_accounts (abs m) !! id = Some a ->
  exists a0, O !! id = Some a0 /\ vHD a = vHD a0 + held_debits id (l_holds (abs m))
    /\ vHC a = vHC a0 + held_credits id (l_holds (abs m)).
Proof.
  intros H. change (good m /\ holds_exact O (abs m)).
  induction H as [|m O a _ [Hg HE] Ha E%run_Ok|m O t _ [Hg HE] Hw Hfr E|m O t e _ [Hg HE] E|m O now _ [Hg HE]|m O _ [Hg HE]].
  - split; [apply NewAccountManager_good|]. intros id a. cbn. by rewrite lookup_fmap, lookup_empty.
  - split; [eapply step_good; [done|]; apply step_create; [done|by rewrite E]|].
    pose proof (Create_ok a m Hg Ha) as C. destruct (l_accounts (abs m) !! a_ID a) eqn:Ea; [congruence|].
    destruct C as (m2 & E2 & _ & A2). rewrite E2. cbn [fst]. rewrite A2. apply exact_create; [apply Hg|done|done].
  - split; [eapply step_good; [done|]; by apply step_apply|]. apply run_Ok in E.
    apply fresh_pending in Hfr. destruct (apply_Ok_inv m t _ Hg Hw Hfr E) as (v & Ha & Hf & _ & ->).
    apply exact_apply; try done. apply Hg.
  - unfold ApplyTransferState, sbind, sget, slift. by rewrite E.
  - split; [by apply SetClock_ok|done].
  - split; [by apply (step_good m); [|apply step_expire]|].
    destruct (CloseExpired_loop_ok (length (m_expiry m)) m Hg (le_n _)) as [_ E].
    unfold CloseExpired. rewrite E. by apply exact_expired.
Qed.

Lemma demo0_reached : reached demo0 (<[idn 2 := acct 2 0]> (<[idn 1 := acct 1 100]> ∅)).
Proof.
  unfold demo0. apply (reached_create _ _ (acct 2 0)); [apply (reached_create _ _ (acct 1 100)); [constructor|..]|..].
  all: first [by apply acct_amounts|vm_compute; reflexivity].
Qed.
Lemma demo1_reached : reached demo1 (<[idn 2 := acct 2 0]> (<[idn 1 := acct 1 100]> ∅)).
Proof.
  apply (reached_apply _ _ (xfer 7 1 2 60 50 TransferFlagPending)); [apply demo0_reached|by apply xfer_wf|..].
  all: first [left; vm_compute; reflexivity|vm_compute; reflexivity].
Qed.

(** The payer of the open hold of 60, and after its expiry. *)
Lemma reachable_good_witness :
  (exists a, l_accounts (abs demo1) !! idn 1 = Some a /\ vHD a = 0 + held_debits (idn 1) (l_holds (abs demo1)) /\ vHD a = 60)
  /\ exists a, l_accounts (abs (CloseExpired (SetClock 150 demo1))) !! idn 1 = Some a
       /\ vHD a = 0 + held_debits (idn 1) (l_holds (abs (CloseExpired (SetClock 150 demo1)))) /\ vHD a = 0.
Proof.
  pose proof demo1_reached as R. split.
  - destruct (reachable_good _ _ R) as [_ H].
    exists (set_PendingDebits (FromUint64 60) (acct 1 100)).
    assert (E : l_accounts (abs demo1) !! idn 1 = Some (set_PendingDebits (FromUint64 60) (acct 1 100)))
      by (vm_compute; reflexivity).
    split; [exact E|]. destruct (H _ _ E) as (a0 & E0 & Hd & _). split; [|reflexivity].
    assert (E0' : Some a0 = Some (acct 1 100)) by (rewrite <- E0; vm_compute; reflexivity).
    injection E0' as ->. exact Hd.
  - assert (R2 : reached (CloseExpired (SetClock 150 demo1)) (<[idn 2 := acct 2 0]> (<[idn 1 := acct 1 100]> ∅))).
    { apply reached_expire, reached_clock, R. }
    destruct (reachable_good _ _ R2) as [_ H]. exists (acct 1 100).
    assert (E : l_accounts (abs (CloseExpired (SetClock 150 demo1))) !! idn 1 = Some (acct 1 100))
      by (vm_compute; reflexivity).
    split; [exact E|]. destruct (H _ _ E) as (a0 & E0 & Hd & _). split; [|reflexivity].
    assert (E0' : Some a0 = Some (acct 1 100)) by (rewrite <- E0; vm_compute; reflexivity).
    injection E0' as ->. exact Hd.
Defined.

Lemma net_close_expired lg L : net_posted lg (spec_close_expired L) = net_posted lg L.
Proof.
  unfold net_posted, spec_close_expired. simpl.
  set (X := filter _ (l_holds L)). generalize (l_accounts L). intros A.
  induction A as [|id a A E IH] using map_ind; [by rewrite map_imap_empty|].
  rewrite map_imap_insert_Some with (y := release_all X id a) by done.
  rewrite !msum_insert_new; [|done|by rewrite map_lookup_imap, E]. rewrite IH.
  destruct (release_all_vals X id a) as ((_ & _ & Hl & _) & H1 & H2 & _). unfold net.
  by rewrite Hl, H1, H2.
Qed.

(** C23. Money is conserved on every ledger: posted credits less posted debits,
    summed over its accounts, are unchanged by an applied transfer, by a
    refused one, by the clock and by the closing of expired holds. *)
Theorem money_conserved m m' lg : good m -> step m m' ->
  length (m_accounts m') = length (m_accounts m) ->
  net_posted lg (abs m') = net_posted lg (abs m).
Proof.
  intros Hg [a Ha E%run_Ok|t Hw Hfr%fresh_pending E%run_Ok|t e E|now|] Hnc.
  - exfalso. revert E Hnc. unfold Create, sbind, sget, smodify, sfail. case_match; [done|].
    simpl. rewrite length_app. simpl. lia.
  - destruct (apply_Ok_inv m t _ Hg Hw Hfr E) as (v & Ha & _ & _ & ->). destruct Hg as [_ HI].
    by apply net_apply.
  - unfold ApplyTransferState, sbind, sget, slift. by rewrite E.
  - done.
  - destruct (CloseExpired_loop_ok (length (m_expiry m)) m Hg (le_n _)) as [_ E].
    unfold CloseExpired. rewrite E. apply net_close_expired.
Qed.

Lemma money_conserved_witness : net_posted 1 (abs demo1) = net_posted 1 (abs demo0).
Proof.
  apply money_conserved; [apply demo0_good| |vm_compute; reflexivity].
  apply (step_apply _ (xfer 7 1 2 60 50 TransferFlagPending)); [by apply xfer_wf|left|];
    vm_compute; reflexivity.
Defined.

(** ** Settlement and solvency *)

Definition settled (v : Z) (h : Transfer) (m m' : AccountManager) : Prop :=
  (forall d, l_accounts (abs m) !! t_DebitAccountID h = Some d ->
     l_accounts (abs m') !! t_DebitAccountID h = Some (shift_debit v (- v) d))
  /\ (forall c, l_accounts (abs m) !! t_CreditAccountID h = Some c ->
     l_accounts (abs m') !! t_CreditAccountID h = Some (shift_credit v (- v) c))
  /\ l_holds (abs m') !! t_ID h =
     (if amt h =? v then None else Some (set_Amount (of_Z (amt h - v)) h)).

(** An open hold can always be posted: a post of at most the remaining
    amount succeeds when the two posted totals stay within 128 bits, moves
    exactly that amount from pending to posted on both accounts, and leaves
    the remainder open under the same ID. *)
Theorem open_hold_posts m t h d c : good m -> wf_transfer t ->
  l_holds (abs m) !! t_ID t = Some h -> flags_invalid t = false -> isPost t = true ->
  t_Ledger t = 0 \/ t_Ledger t = t_Ledger h -> amt t <= amt h ->
  l_accounts (abs m) !! t_DebitAccountID h = Some d ->
  l_accounts (abs m) !! t_CreditAccountID h = Some c ->
  vPD d + amt h < 2 ^ 128 -> vPC c + amt h < 2 ^ 128 ->
  exists m', ApplyTransferState t m = (m', Ok tt) /\ good m'
    /\ settled (if amt t =? 0 then amt h else amt t) h m m'.
Proof.
  intros Hg Hw Eh Hfl HP HL Hle Ed Ec Rd Rc. set (v := if amt t =? 0 then amt h else amt t).
  pose proof Hg as [Hs HI]. destruct (flags_ok t Hfl) as [F1 _]. destruct (F1 HP) as [HH _].
  assert (Hfr : fresh_hold t (abs m)) by (intros ?; congruence).
  assert (Ha : allowed v t (abs m)).
  { split; [done|]. rewrite HP. exists h. split; [done|]. split; [done|]. rewrite HP. unfold v. simpl.
    destruct (amt t =? 0); simpl; [done|]. done. }
  pose proof (amt_nonneg t Hw) as Pt. pose proof (inv_hold_wf _ _ _ HI Eh) as Wh.
  pose proof (amt_nonneg h Wh) as Ph. assert (Hv : 0 <= v <= amt h) by (unfold v; case_match; lia).
  destruct (inv_hold _ HI _ _ Eh) as [Hid [_ _ Hne _]]. rewrite <- Hid in Eh.
  destruct (hold_covered _ _ HI Eh) as (d' & c' & Ed' & Ec' & Cd & Cc). rewrite Hid in Eh.
  rewrite Ed in Ed'. rewrite Ec in Ec'. injection Ed' as <-. injection Ec' as <-.
  destruct (inv_account _ HI _ _ Ed) as [_ (?%val_range & _ & ?%val_range & _)].
  destruct (inv_account _ HI _ _ Ec) as [_ (_ & ?%val_range & _ & ?%val_range)].
  assert (Heff : effect v t (abs m) = (t_DebitAccountID h, t_CreditAccountID h, v, - v)).
  { unfold effect, hold_of. by rewrite HP, Eh. }
  assert (Hf : effect_fits v t (abs m)).
  { unfold effect_fits. rewrite Heff. apply (fits_iff _ _ _ _ _ d c); [done..|].
    unfold in128, vPD, vHD, vPC, vHC in *. lia. }
  pose proof (apply_run m t Hg Hw Hfr) as R.
  destruct (checkTransfer_total m t Hg Hw _ Ha) as (x & Ex & Wx & Vx). rewrite Ex in R.
  destruct R as [Hyes _]. rewrite Vx in Hyes. destruct (Hyes Hf) as (m' & E & Hs' & A).
  exists m'. split; [done|]. split; [split; [done|rewrite A; by apply inv_apply]|].
  unfold settled. rewrite A, (spec_apply_eq _ _ _ _ _ _ _ Heff).
  cbn [spec_record spec_move l_accounts l_holds]. split; [|split].
  - intros d0 E0. rewrite lookup_move, decide_True, E0 by done. done.
  - intros c0 E0. rewrite lookup_move, decide_False, decide_True, E0 by done. done.
  - unfold holds_after, settle. rewrite HP, Hid, Eh. destruct (amt h =? v).
    + by rewrite lookup_delete_eq.
    + by rewrite lookup_insert_eq.
Qed.

Lemma open_hold_posts_witness :
  exists m', ApplyTransferState (xfer 7 0 0 25 0 TransferFlagPostPending) demo1 = (m', Ok tt)
  /\ l_holds (abs m') !! idn 7
     = Some (set_Amount (of_Z 35) (xfer 7 1 2 60 50 TransferFlagPending)).
Proof.
  assert (Hw : wf_transfer (xfer 7 0 0 25 0 TransferFlagPostPending)) by (by apply xfer_wf).
  destruct (open_hold_posts demo1 (xfer 7 0 0 25 0 TransferFlagPostPending)
    (xfer 7 1 2 60 50 TransferFlagPending)
    (set_PendingDebits (FromUint64 60) (acct 1 100)) (set_PendingCredits (FromUint64 60) (acct 2 0)))
    as (m' & E & _ & _ & _ & H).
  - exact demo1_good.
  - exact Hw.
  - vm_compute. reflexivity.
  - reflexivity.
  - reflexivity.
  - right. reflexivity.
  - vm_compute. discriminate.
  - vm_compute. reflexivity.
  - vm_compute. reflexivity.
  - vm_compute. reflexivity.
  - vm_compute. reflexivity.
  - exists m'. split; [exact E|exact H].
Defined.

Lemma solvent_shift p q a : vPD a + p <= vPC a -> vPD (shift_debit p q a) <= vPC (shift_debit p q a).
Proof. pose proof (shift_debit_vals p q a). lia. Qed.

Lemma covered_move L dr cr p q H : dr <> cr -> 0 <= p ->
  (forall id a, l_accounts L !! id = Some a -> vPD a + vHD a <= vPC a) ->
  (forall d, l_accounts L !! dr = Some d -> vPD d + vHD d + p + q <= vPC d) ->
  forall id b, l_accounts (spec_move dr cr p q H L) !! id = Some b -> vPD b + vHD b <= vPC b.
Proof.
  intros Hne Hp HA Hd id b E. apply move_back in E as (a & E & _ & V1 & V2 & V3 & _); [|done].
  specialize (HA id a E). rewrite V1, V2, V3.
  destruct (decide (id = dr)) as [->|].
  - specialize (Hd a E). case_decide; lia.
  - case_decide; lia.
Qed.

(** While every account's posted credits cover its posted debits together
    with its open debit holds, no post, void or expiry can break that; a plain
    transfer or a new hold keeps it when the debit account's posted credits
    also cover the new amount. *)
Theorem covered_preserved m t m' : good m -> wf_transfer t -> fresh_hold t (abs m) -> covered m ->
  (isPost t || isVoid t = false -> forall d, l_accounts (abs m) !! t_DebitAccountID t = Some d ->
     vPD d + vHD d + amt t <= vPC d) ->
  ApplyTransferState t m = (m', Ok tt) -> covered m' /\ covered (CloseExpired m').
Proof.
  intros Hg Hw Hfr Hcov Hroom E.
  destruct (apply_Ok_inv m t m' Hg Hw Hfr E) as (v & Ha & Hf & Hg' & A). pose proof Hg as [_ HI].
  assert (Hc' : covered m').
  { intros id b. rewrite A. pose proof (effect_spec v t (abs m) HI Hw Hfr Ha) as He.
    destruct (effect v t (abs m)) as [[[dr cr] p] q] eqn:Ee. rewrite (spec_apply_eq _ _ _ _ _ _ _ Ee).
    cbn [spec_record l_accounts]. destruct He as [Hne _ _ _ _].
    pose proof (amt_nonneg t Hw) as Pt.
    assert (Hpq : 0 <= p /\ (p + q <= 0 \/ (isPost t || isVoid t = false /\ dr = t_DebitAccountID t /\ p + q = amt t))).
    { unfold effect in Ee. destruct (isPost t) eqn:HP.
      - injection Ee as <- <- <- <-. destruct Ha as [_ Ha]. rewrite HP in Ha. pose proof Ha as (h & Eh & _).
        pose proof (settlement_effect t v (abs m) h HI Hw Ha Eh). lia.
      - destruct (isVoid t) eqn:HV.
        + injection Ee as <- <- <- <-. destruct Ha as [_ Ha]. rewrite HP, HV in Ha.
          destruct Ha as (h & Eh & _). pose proof (amt_nonneg h (inv_hold_wf _ _ _ HI Eh)).
          unfold hold_of. rewrite Eh. simpl. lia.
        + destruct (isPending t); injection Ee as <- <- <- <-; split; try lia; right; (split; [done|]);
            (split; [done|lia]). }
    destruct Hpq as [Hp Hpq]. apply covered_move; [done|done|apply Hcov|].
    intros d Ed. destruct Hpq as [?|(Hpv & -> & ?)].
    - specialize (Hcov _ _ Ed). lia.
    - specialize (Hroom Hpv d Ed). lia. }
  split; [done|]. intros id b.
  destruct (CloseExpired_loop_ok (length (m_expiry m')) m' Hg' (le_n _)) as [_ EC].
  unfold CloseExpired. rewrite EC. intros Eb. destruct Hg' as [_ HI'].
  apply (close_expired_account _ _ _ HI') in Eb as (a & Ea & -> & -> & ? & _).
  specialize (Hc' id a Ea). lia.
Qed.

Lemma covered_preserved_witness :
  covered (ApplyTransferState (xfer 7 0 0 25 0 TransferFlagPostPending) demo1).1.
Proof.
  set (t := xfer 7 0 0 25 0 TransferFlagPostPending).
  assert (Hw : wf_transfer t) by (by apply xfer_wf).
  assert (Hc : covered demo1).
  { intros id a Ea. apply (accounts_lookup _ _ _ (proj1 demo1_good)) in Ea as (i & _ & Ea).
    destruct i as [|[|i]]; vm_compute in Ea; [..|discriminate Ea];
      injection Ea as <-; vm_compute; discriminate. }
  assert (E : ApplyTransferState t demo1 = ((ApplyTransferState t demo1).1, Ok tt)).
  { apply run_Ok. vm_compute. reflexivity. }
  assert (Hfr : fresh_hold t (abs demo1)) by (intros HP; discriminate HP).
  refine (proj1 (covered_preserved demo1 t _ demo1_good Hw Hfr Hc _ E)).
  intros HP. discriminate HP.
Defined.

(** Posting is not checked against the posted balance: whenever the
    posted credits of the debit account no longer cover its posted debits and
    an open hold, posting that hold succeeds and leaves the account with more
    debits than credits.  [overdrawn_reachable] reaches such a state. *)
Theorem post_can_overdraw m t h d c : good m -> wf_transfer t ->
  l_holds (abs m) !! t_ID t = Some h -> flags_invalid t = false -> isPost t = true ->
  t_Ledger t = 0 \/ t_Ledger t = t_Ledger h -> amt t = 0 ->
  l_accounts (abs m) !! t_DebitAccountID h = Some d ->
  l_accounts (abs m) !! t_CreditAccountID h = Some c ->
  vPD d + amt h < 2 ^ 128 -> vPC c + amt h < 2 ^ 128 ->
  vPC d < vPD d + amt h ->
  exists m', ApplyTransferState t m = (m', Ok tt) /\ good m' /\ ~ solvent m'.
Proof.
  intros Hg Hw Eh Hfl HP HL Ht Ed Ec Rd Rc Hlt. pose proof Hg as [Hs HI].
  destruct (flags_ok t Hfl) as [F1 _]. destruct (F1 HP) as [HH _].
  assert (Hfr : fresh_hold t (abs m)) by (intros ?; congruence).
  assert (Ha : allowed (amt h) t (abs m)).
  { split; [done|]. rewrite HP. exists h. split; [done|]. split; [done|]. by rewrite HP, Ht. }
  destruct (inv_hold _ HI _ _ Eh) as [Hid [Wh _ Hne _]]. rewrite <- Hid in Eh.
  destruct (hold_covered _ _ HI Eh) as (d' & c' & Ed' & Ec' & Cd & Cc). rewrite Hid in Eh.
  rewrite Ed in Ed'. rewrite Ec in Ec'. injection Ed' as <-. injection Ec' as <-.
  destruct (inv_account _ HI _ _ Ed) as [_ (?%val_range & _ & ?%val_range & _)].
  destruct (inv_account _ HI _ _ Ec) as [_ (_ & ?%val_range & _ & ?%val_range)].
  pose proof (amt_nonneg h Wh) as Ph.
  assert (Heff : effect (amt h) t (abs m) = (t_DebitAccountID h, t_CreditAccountID h, amt h, - amt h)).
  { unfold effect, hold_of. by rewrite HP, Eh. }
  assert (Hf : effect_fits (amt h) t (abs m)).
  { unfold effect_fits. rewrite Heff. apply (fits_iff _ _ _ _ _ d c); [done..|].
    unfold in128, vPD, vHD, vPC, vHC in *. lia. }
  pose proof (apply_run m t Hg Hw Hfr) as R.
  destruct (checkTransfer_total m t Hg Hw _ Ha) as (x & Ex & Wx & Vx). rewrite Ex in R.
  destruct R as [Hyes _]. rewrite Vx in Hyes. destruct (Hyes Hf) as (m' & E & Hs' & A).
  exists m'. split; [done|]. split; [split; [done|rewrite A; by apply inv_apply]|].
  intros Hsol. specialize (Hsol (t_DebitAccountID h) (shift_debit (amt h) (- amt h) d)).
  rewrite A, (spec_apply_eq _ _ _ _ _ _ _ Heff) in Hsol. cbn [spec_record spec_move l_accounts] in Hsol.
  rewrite lookup_move, decide_True, Ed in Hsol by done. specialize (Hsol eq_refl).
  pose proof (shift_debit_vals (amt h) (- amt h) d). lia.
Qed.

(** The hold of 60 stays open while a plain transfer takes the whole 100. *)
Definition demo2 : AccountManager := (ApplyTransferState (xfer 8 1 2 100 0 0) demo1).1.

Lemma overdrawn_reachable : good demo2.
Proof.
  eapply step_good; [apply demo1_good|].
  apply (step_apply _ (xfer 8 1 2 100 0 0)); [by apply xfer_wf|right; reflexivity|].
  vm_compute. reflexivity.
Qed.

Lemma post_can_overdraw_witness :
  exists m', ApplyTransferState (xfer 7 0 0 0 0 TransferFlagPostPending) demo2 = (m', Ok tt)
    /\ ~ solvent m'.
Proof.
  assert (Hw : wf_transfer (xfer 7 0 0 0 0 TransferFlagPostPending)) by (by apply xfer_wf).
  destruct (post_can_overdraw demo2 (xfer 7 0 0 0 0 TransferFlagPostPending)
    (xfer 7 1 2 60 50 TransferFlagPending)
    (set_PostedDebits (FromUint64 100) (set_PendingDebits (FromUint64 60) (acct 1 100)))
    (set_PendingCredits (FromUint64 60) (acct 2 100))) as (m' & E & _ & H).
  - exact overdrawn_reachable.
  - exact Hw.
  - vm_compute. reflexivity.
  - reflexivity.
  - reflexivity.
  - right. reflexivity.
  - reflexivity.
  - vm_compute. reflexivity.
  - vm_compute. reflexivity.
  - vm_compute. reflexivity.
  - vm_compute. reflexivity.
  - vm_compute. reflexivity.
  - exists m'. split; [exact E|exact H].
Defined.

(** ** History pages *)

Definition history_ids (m : AccountManager) (acc : ID) : list ID := default [] (m_history m !! acc).
(** Every indexed ID has its transfer. *)
Definition history_indexed (m : AccountManager) (acc : ID) : Prop :=
  Forall (fun id => exists t, m_transfers m !! id = Some t /\ t_ID t = id) (history_ids m acc).
Definition transfers_of (m : AccountManager) (ids : list ID) : list Transfer :=
  omap (fun id => m_transfers m !! id) ids.

Lemma AccountTransfers_page m acc cursor limit : 0 < limit ->
  AccountTransfers m acc cursor limit =
  transfers_of m (take (Z.to_nat limit) (drop (cursor_start cursor (history_ids m acc)) (history_ids m acc))).
Proof.
  intros Hl. unfold AccountTransfers, transfers_of, history_ids. set (ids := default _ _).
  set (s := cursor_start cursor ids). unfold slice. f_equal.
  rewrite (proj2 (Z.leb_gt _ _)) by done. simpl.
  destruct (Z.ltb_spec (Z.of_nat (length ids) - Z.of_nat s) limit) as [Hr|Hr].
  - rewrite !take_ge; rewrite ?length_drop; [done|lia|lia].
  - f_equal. lia.
Qed.

Lemma cursor_start_found ids k x : NoDup ids -> ids !! k = Some x -> x <> zeros 16 ->
  cursor_start x ids = S k.
Proof.
  intros Hnd E Hx. unfold cursor_start. rewrite decide_False by done.
  destruct (list_find (fun id => id = x) ids) as [[i y]|] eqn:F.
  - apply list_find_Some in F as (Ey & -> & _). f_equal. by eapply NoDup_lookup.
  - apply list_find_None in F. rewrite Forall_forall in F. exfalso.
    by apply (F x (list_elem_of_lookup_2 _ _ _ E)).
Qed.

Lemma transfers_of_ids m acc l : history_indexed m acc -> l ⊆ history_ids m acc ->
  t_ID <$> transfers_of m l = l.
Proof.
  unfold history_indexed. rewrite Forall_forall. intros Hi. induction l as [|id l IH]; intros Hl; [done|].
  destruct (Hi id) as (t & E & Ht); [apply Hl; by left|].
  assert (transfers_of m (id :: l) = t :: transfers_of m l) as ->
    by (unfold transfers_of; simpl; by rewrite E).
  rewrite fmap_cons, Ht, IH; [done|]. intros x Hx. apply Hl. by right.
Qed.

Lemma read_pages_drop m acc limit fuel k cursor : 0 < limit -> history_indexed m acc ->
  NoDup (history_ids m acc) -> zeros 16 ∉ history_ids m acc ->
  cursor_start cursor (history_ids m acc) = k -> (length (history_ids m acc) - k < fuel)%nat ->
  read_pages fuel m acc cursor limit = transfers_of m (drop k (history_ids m acc)).
Proof.
  intros Hl Hi Hnd Hz. set (ids := history_ids m acc) in *.
  revert k cursor. induction fuel as [|fuel IH]; intros k cursor Hc Hf; [lia|]. simpl.
  rewrite AccountTransfers_page by done. fold ids. rewrite Hc. set (n := Z.to_nat limit).
  assert (Hsub : take n (drop k ids) ⊆ ids).
  { intros x Hx%elem_of_take. destruct Hx as (i & Hx & _). rewrite lookup_drop in Hx.
    by eapply list_elem_of_lookup_2. }
  pose proof (transfers_of_ids m acc _ Hi Hsub) as Hids.
  destruct (last (transfers_of m (take n (drop k ids)))) as [t|] eqn:El.
  - assert (Elast : last (take n (drop k ids)) = Some (t_ID t)) by (by rewrite <- Hids, fmap_last, El).
    set (j := (length (take n (drop k ids)) - 1)%nat).
    assert (Ej : ids !! (k + j)%nat = Some (t_ID t)).
    { rewrite last_lookup in Elast. rewrite lookup_take_Some in Elast. destruct Elast as [Elast _].
      rewrite lookup_drop in Elast. rewrite <- Elast. f_equal. unfold j. lia. }
    assert (Hlen : length (take n (drop k ids)) <> 0%nat).
    { intros H0. apply length_zero_iff_nil in H0. by rewrite H0 in Elast. }
    assert (Hj : length (take n (drop k ids)) = S j) by (unfold j; lia).
    rewrite (IH (S (k + j)) (t_ID t)).
    + unfold transfers_of. rewrite <- omap_app. f_equal.
      rewrite <- (take_drop n (drop k ids)) at 2. f_equal. rewrite drop_drop.
      rewrite length_take, length_drop in Hj.
      destruct (decide (n <= length ids - k)%nat).
      * f_equal. lia.
      * rewrite !drop_ge by lia. done.
    + apply cursor_start_found; [done|done|]. intros Ez. apply Hz. rewrite <- Ez.
      by eapply list_elem_of_lookup_2.
    + apply lookup_lt_Some in Ej. lia.
  - apply last_None in El. rewrite El in Hids. simpl in Hids. symmetry in Hids.
    assert (drop k ids = []) as ->; [|done].
    destruct (drop k ids) as [|x l]; [done|]. destruct n as [|n'] eqn:En; [lia|done].
Qed.

(** Paging through an account's history from the start, each page asked
    for after the last transfer of the one before, returns every recorded
    transfer once and in order and then stops, when the account's history has
    no repeated ID. *)
Theorem history_pages_complete m acc limit : 0 < limit -> history_indexed m acc ->
  NoDup (history_ids m acc) -> zeros 16 ∉ history_ids m acc ->
  read_pages (S (length (history_ids m acc))) m acc (zeros 16) limit
  = transfers_of m (history_ids m acc)
  /\ t_ID <$> transfers_of m (history_ids m acc) = history_ids m acc.
Proof.
  intros Hl Hi Hnd Hz. split.
  - rewrite (read_pages_drop _ _ _ _ 0) by (try done; lia). by rewrite drop_0.
  - by apply (transfers_of_ids m acc).
Qed.

Lemma history_pages_complete_witness :
  read_pages 3 demo2 (idn 1) (zeros 16) 1 = transfers_of demo2 [idn 7; idn 8]
  /\ history_ids demo2 (idn 1) = [idn 7; idn 8].
Proof.
  assert (E : history_ids demo2 (idn 1) = [idn 7; idn 8]) by (vm_compute; reflexivity).
  split; [|exact E].
  pose proof (history_pages_complete demo2 (idn 1) 1) as H. rewrite E in H.
  apply H; [reflexivity| | |].
  - unfold history_indexed. rewrite E. repeat constructor; eexists; (split; [vm_compute; reflexivity|reflexivity]).
  - apply (bool_decide_unpack _). vm_compute. exact I.
  - apply (bool_decide_unpack _). vm_compute. exact I.
Defined.

(** A settlement is recorded under the ID of its hold, so the history of
    an account can repeat an ID; a page asked for after a repeated ID starts
    again after its first occurrence, and reading pages does not end. *)
Theorem repeated_cursor_rewinds m acc l1 x l2 limit : 0 < limit ->
  history_ids m acc = l1 ++ x :: l2 ++ [x] -> x ∉ l1 -> x <> zeros 16 ->
  history_indexed m acc -> AccountTransfers m acc x limit = transfers_of m (take (Z.to_nat limit) (l2 ++ [x]))
  /\ AccountTransfers m acc x limit <> [].
Proof.
  intros Hl E Hx Hz Hi.
  assert (Hs : cursor_start x (history_ids m acc) = S (length l1)).
  { unfold cursor_start. rewrite decide_False by done. rewrite E.
    rewrite list_find_app_r.
    - simpl. rewrite decide_True by done. simpl. lia.
    - apply list_find_None. apply Forall_forall. intros y Hy ->. done. }
  assert (Ep : AccountTransfers m acc x limit = transfers_of m (take (Z.to_nat limit) (l2 ++ [x]))).
  { rewrite AccountTransfers_page, Hs, E by done. do 2 f_equal.
    change (l1 ++ x :: l2 ++ [x]) with (l1 ++ [x] ++ l2 ++ [x]). rewrite app_assoc.
    by rewrite drop_app_length' by (rewrite length_app; simpl; lia). }
  split; [done|]. rewrite Ep. intros Hn.
  pose proof (transfers_of_ids m acc (take (Z.to_nat limit) (l2 ++ [x])) Hi) as Hids.
  rewrite Hn in Hids. simpl in Hids.
  assert (Hsub : take (Z.to_nat limit) (l2 ++ [x]) ⊆ history_ids m acc).
  { rewrite E. intros y (i & Hy & _)%elem_of_take. apply list_elem_of_lookup_2 in Hy. set_solver. }
  specialize (Hids Hsub). destruct (Z.to_nat limit) eqn:En; [lia|]. by destruct l2.
Qed.

Lemma repeated_cursor_rewinds_witness :
  history_ids (ApplyTransferState (xfer 7 0 0 0 0 TransferFlagPostPending) demo2).1 (idn 1)
    = [idn 7; idn 8; idn 7]
  /\ AccountTransfers (ApplyTransferState (xfer 7 0 0 0 0 TransferFlagPostPending) demo2).1
       (idn 1) (idn 7) 1 <> [].
Proof.
  set (m := (ApplyTransferState (xfer 7 0 0 0 0 TransferFlagPostPending) demo2).1).
  assert (E : history_ids m (idn 1) = [idn 7; idn 8; idn 7]) by (vm_compute; reflexivity).
  split; [exact E|].
  apply (repeated_cursor_rewinds m (idn 1) [] (idn 7) [idn 8] 1); [reflexivity|exact E| | |].
  - apply not_elem_of_nil.
  - intros Hz. vm_compute in Hz. discriminate Hz.
  - unfold history_indexed. rewrite E. repeat constructor; eexists; (split; [vm_compute; reflexivity|reflexivity]).
Defined.

(** A partial post keeps the rest of its hold: of a hold of 60, a post of 25
    leaves 35 reserved, which a second post of the same hold can take. *)
Theorem partial_post_keeps_rest :
  let post n := ApplyTransferState (xfer 7 0 0 n 0 TransferFlagPostPending) in
  let m := (post 25 demo1).1 in
  (post 25 demo1).2 = Ok tt
  /\ (fun a => (val (a_PostedDebits a), val (a_PendingDebits a))) <$> m_accounts m !! 0%nat = Some (25, 35)
  /\ (post 35 m).2 = Ok tt.
Proof. vm_compute. repeat split. Qed.
