(* ===== verification/Transfers.v ===== *)
(** * Batch validation and application (internal/engine/transfers.go)

    [ValidateBatch] runs the events of a batch on an overlay of the manager:
    [staged] holds clones of the accounts it touched and [pending] the changed
    holds.  A failed event rolls its linked chain back.  A pointer into
    [staged] is the key it is stored under, so writes go through the map. *)

From S2P Require Import Prelude Core Uint128 Balance Expiry Accounts.

Record pendingState := mkPendingState { ps_transfer : Transfer; ps_deleted : bool }.

(** What a snapshot found: [None] is [loaded: false]. *)
Record accountSnapshot := mkAccountSnapshot { as_id : ID; as_account : option Account }.
Record pendingSnapshot := mkPendingSnapshot { psn_id : ID; psn_state : option pendingState }.

Record batchValidator := mkValidator {
  v_staged : gmap ID Account;
  v_pending : gmap ID pendingState;
  v_seenIDs : gmap ID nat;
  v_accSnaps : list accountSnapshot;
  v_pendSnaps : list pendingSnapshot;
  v_accSeen : gset ID;
  v_pendSeen : gset ID }.

Definition newBatchValidator : batchValidator := mkValidator ∅ ∅ ∅ [] [] ∅ ∅.

Definition set_staged (x : gmap ID Account) (v : batchValidator) : batchValidator :=
  mkValidator x (v_pending v) (v_seenIDs v) (v_accSnaps v) (v_pendSnaps v) (v_accSeen v) (v_pendSeen v).
Definition set_vpending (x : gmap ID pendingState) (v : batchValidator) : batchValidator :=
  mkValidator (v_staged v) x (v_seenIDs v) (v_accSnaps v) (v_pendSnaps v) (v_accSeen v) (v_pendSeen v).
Definition set_seenIDs (x : gmap ID nat) (v : batchValidator) : batchValidator :=
  mkValidator (v_staged v) (v_pending v) x (v_accSnaps v) (v_pendSnaps v) (v_accSeen v) (v_pendSeen v).

Abbreviation BM := (M batchValidator error).

Definition beginChain (v : batchValidator) : batchValidator :=
  mkValidator (v_staged v) (v_pending v) (v_seenIDs v) [] [] ∅ ∅.

(** One step of each loop of rollbackChain; the loops run backwards. *)
Definition restore_account (s : accountSnapshot) (staged : gmap ID Account) : gmap ID Account :=
  match as_account s with
  | None => delete (as_id s) staged
  | Some a => alter (fun _ => a) (as_id s) staged
  end.
Definition restore_pending (s : pendingSnapshot) (pending : gmap ID pendingState) : gmap ID pendingState :=
  match psn_state s with
  | None => delete (psn_id s) pending
  | Some st => <[psn_id s := st]> pending
  end.

Definition rollbackChain (v : batchValidator) : batchValidator :=
  set_vpending (foldr restore_pending (v_pending v) (v_pendSnaps v))
    (set_staged (foldr restore_account (v_staged v) (v_accSnaps v)) v).

Definition snapshotAccount (id : ID) (v : batchValidator) : batchValidator :=
  if decide (id ∈ v_accSeen v) then v
  else mkValidator (v_staged v) (v_pending v) (v_seenIDs v)
         (v_accSnaps v ++ [mkAccountSnapshot id (v_staged v !! id)]) (v_pendSnaps v)
         ({[id]} ∪ v_accSeen v) (v_pendSeen v).

Definition snapshotPending (id : ID) (v : batchValidator) : batchValidator :=
  if decide (id ∈ v_pendSeen v) then v
  else mkValidator (v_staged v) (v_pending v) (v_seenIDs v) (v_accSnaps v)
         (v_pendSnaps v ++ [mkPendingSnapshot id (v_pending v !! id)])
         (v_accSeen v) ({[id]} ∪ v_pendSeen v).

Section Validator.
(** [v.accounts], which validation never writes. *)
Context (accounts : AccountManager).

(** Returns the key of the staged clone. *)
Definition getAccount (id : ID) : BM ID :=
  v <-- sget ;;
  match v_staged v !! id with
  | Some _ => sret id
  | None =>
      acc <-- slift (Get accounts id) ;;
      smodify (fun v => set_staged (<[id := acc_at accounts acc]> (v_staged v)) v) >>
      sret id
  end.

(** Reading and writing through a staged pointer. *)
Definition staged_at (p : ID) : BM Account :=
  v <-- sget ;; sret (default zeroAccount (v_staged v !! p)).
Definition upd_staged (p : ID) (f : Account -> Account) : BM unit :=
  smodify (fun v => set_staged (alter f p (v_staged v)) v).
(** [v.staged[acc.ID] = acc], for a pointer into [staged]. *)
Definition restage (p : ID) : BM unit :=
  smodify (fun v => match v_staged v !! p with
                    | Some a => set_staged (<[a_ID a := a]> (v_staged v)) v
                    | None => v
                    end).

(** The open hold a settlement names: the overlay first, then the manager. *)
Definition lookup_hold (id : ID) (v : batchValidator) : result Transfer error :=
  match v_pending v !! id with
  | Some st => if ps_deleted st then Err (ErrPendingNotFound id) else Ok (ps_transfer st)
  | None =>
      match m_pending accounts !! id with
      | Some p => Ok (pe_transfer (entry_at accounts p))
      | None => Err (ErrPendingNotFound id)
      end
  end.

(** The settlement part of validateAndApply. *)
Definition settle_staged (t : Transfer) : BM unit :=
  v <-- sget ;;
  pending <-- slift (lookup_hold (t_ID t) v) ;;
  if negb (t_Ledger t =? 0) && negb (t_Ledger t =? t_Ledger pending)
  then sfail (ErrLedgerMismatch (t_Ledger t) (t_Ledger pending) (t_Ledger pending))
  else if isPost t && negb (IsZero (t_Amount t)) && (0 <? Cmp (t_Amount t) (t_Amount pending))
  then sfail (ErrOverTransfer (t_ID t) (t_Amount pending) (t_Amount t))
  else
    let amount := if isPost t && negb (IsZero (t_Amount t)) then t_Amount t else t_Amount pending in
    smodify (snapshotPending (t_ID t)) >>
    smodify (snapshotAccount (t_DebitAccountID pending)) >>
    smodify (snapshotAccount (t_CreditAccountID pending)) >>
    deb <-- getAccount (t_DebitAccountID pending) ;;
    cred <-- getAccount (t_CreditAccountID pending) ;;
    if isPost t then
      d <-- staged_at deb ;;
      nextPendDeb <-- slift (map_err (fun _ => ErrInvariantViolation (a_ID d) zero128 zero128)
                               (Sub (a_PendingDebits d) amount)) ;;
      nextPostDeb <-- slift (map_err (fun _ => ErrBalanceOverflow (a_ID d))
                               (Add (a_PostedDebits d) amount)) ;;
      upd_staged deb (set_PendingDebits nextPendDeb) >>
      upd_staged deb (set_PostedDebits nextPostDeb) >>
      c <-- staged_at cred ;;
      nextPendCred <-- slift (map_err (fun _ => ErrInvariantViolation (a_ID c) zero128 zero128)
                                (Sub (a_PendingCredits c) amount)) ;;
      nextPostCred <-- slift (map_err (fun _ => ErrBalanceOverflow (a_ID c))
                                (Add (a_PostedCredits c) amount)) ;;
      upd_staged cred (set_PendingCredits nextPendCred) >>
      upd_staged cred (set_PostedCredits nextPostCred) >>
      restage deb >> restage cred >>
      (if Cmp (t_Amount pending) amount =? 0
       then smodify (fun v => set_vpending (<[t_ID t := mkPendingState zeroTransfer true]> (v_pending v)) v)
       else
         let newPend := match Sub (t_Amount pending) amount with
                        | Ok rest => set_Amount rest pending
                        | Err _ => set_Amount zero128 pending
                        end in
         smodify (fun v => set_vpending (<[t_ID t := mkPendingState newPend false]> (v_pending v)) v))
    else
      d <-- staged_at deb ;;
      nextPendDeb <-- slift (map_err (fun _ => ErrInvariantViolation (a_ID d) zero128 zero128)
                               (Sub (a_PendingDebits d) (t_Amount pending))) ;;
      upd_staged deb (set_PendingDebits nextPendDeb) >>
      c <-- staged_at cred ;;
      nextPendCred <-- slift (map_err (fun _ => ErrInvariantViolation (a_ID c) zero128 zero128)
                                (Sub (a_PendingCredits c) (t_Amount pending))) ;;
      upd_staged cred (set_PendingCredits nextPendCred) >>
      restage deb >> restage cred >>
      smodify (fun v => set_vpending (<[t_ID t := mkPendingState zeroTransfer true]> (v_pending v)) v).

(** The part for plain transfers and new holds. *)
Definition post_staged (t : Transfer) : BM unit :=
  if IsZero (t_Amount t) then sfail ErrZeroAmount
  else if decide (t_DebitAccountID t = t_CreditAccountID t)
  then sfail (ErrSelfTransfer (t_DebitAccountID t))
  else
    smodify (snapshotAccount (t_DebitAccountID t)) >>
    smodify (snapshotAccount (t_CreditAccountID t)) >>
    deb <-- getAccount (t_DebitAccountID t) ;;
    cred <-- getAccount (t_CreditAccountID t) ;;
    d <-- staged_at deb ;;
    c <-- staged_at cred ;;
    if negb (bool_decide (a_Currency d = a_Currency c))
    then sfail (ErrCurrencyMismatch (a_Currency d) (a_Currency c))
    else if negb (a_Ledger d =? t_Ledger t) || negb (a_Ledger c =? t_Ledger t)
    then sfail (ErrLedgerMismatch (t_Ledger t) (a_Ledger d) (a_Ledger c))
    else if IsFrozen d then sfail (ErrAccountFrozen (a_ID d))
    else if IsClosed d then sfail (ErrAccountClosed (a_ID d))
    else if IsFrozen c then sfail (ErrAccountFrozen (a_ID c))
    else if IsClosed c then sfail (ErrAccountClosed (a_ID c))
    else if isPending t then
      avail <-- slift (AvailableBalance d) ;;
      if Cmp avail (t_Amount t) <? 0
      then sfail (ErrInsufficientFunds (a_ID d) avail (t_Amount t))
      else
        nextPendDeb <-- slift (map_err (fun _ => ErrBalanceOverflow (a_ID d))
                                 (Add (a_PendingDebits d) (t_Amount t))) ;;
        nextPendCred <-- slift (map_err (fun _ => ErrBalanceOverflow (a_ID c))
                                  (Add (a_PendingCredits c) (t_Amount t))) ;;
        upd_staged deb (set_PendingDebits nextPendDeb) >>
        upd_staged cred (set_PendingCredits nextPendCred) >>
        restage deb >> restage cred >>
        smodify (snapshotPending (t_ID t)) >>
        smodify (fun v => set_vpending (<[t_ID t := mkPendingState t false]> (v_pending v)) v)
    else
      bal <-- slift (Balance d) ;;
      if Cmp bal (t_Amount t) <? 0
      then sfail (ErrInsufficientFunds (a_ID d) bal (t_Amount t))
      else
        nextPostDeb <-- slift (map_err (fun _ => ErrBalanceOverflow (a_ID d))
                                 (Add (a_PostedDebits d) (t_Amount t))) ;;
        nextPostCred <-- slift (map_err (fun _ => ErrBalanceOverflow (a_ID c))
                                  (Add (a_PostedCredits c) (t_Amount t))) ;;
        upd_staged deb (set_PostedDebits nextPostDeb) >>
        upd_staged cred (set_PostedCredits nextPostCred) >>
        restage deb >> restage cred.

(** The unique-ID rule of plain transfers and new holds. *)
Definition claim_id (t : Transfer) (index : nat) : BM unit :=
  v <-- sget ;;
  match v_seenIDs v !! t_ID t with
  | Some _ => sfail (ErrDuplicateTransferID (t_ID t))
  | None =>
      match GetTransfer accounts (t_ID t) with
      | Some _ => sfail (ErrDuplicateTransferID (t_ID t))
      | None => smodify (fun v => set_seenIDs (<[t_ID t := index]> (v_seenIDs v)) v)
      end
  end.

Definition validateAndApply (t : Transfer) (index : nat) : BM unit :=
  if negb (Z.ldiff (t_Flags t) knownFlags =? 0) then sfail (ErrInvalidTransferFlags (t_Flags t))
  else if isPost t && (isPending t || isVoid t) || isVoid t && isPending t
  then sfail (ErrInvalidTransferFlags (t_Flags t))
  else if isPost t || isVoid t then settle_staged t
  else claim_id t index >> post_staged t.

(** ** The batch loop *)

(** [for chainEnd < len(events) && linked(events[chainEnd]) { chainEnd++ }] *)
Fixpoint scan_linked (fuel : nat) (events : list Transfer) (chainEnd : nat) : nat :=
  match fuel with
  | O => chainEnd
  | S fuel' =>
      match events !! chainEnd with
      | Some t => if isLinked t then scan_linked fuel' events (S chainEnd) else chainEnd
      | None => chainEnd
      end
  end.
Definition chain_end (events : list Transfer) (i : nat) : nat :=
  let e := scan_linked (length events) events i in
  if (length events <=? e)%nat then (length events - 1)%nat else e.

(** [for k := lo; k <= hi; k++ { if k != i { outcomes[k] = x } }] *)
Definition fail_others (lo hi i : nat) (x : error) (outcomes : list (option error)) : list (option error) :=
  imap (fun k o => if (lo <=? k)%nat && (k <=? hi)%nat && negb (k =? i)%nat then Some x else o) outcomes.
(** [for k := lo; k <= hi; k++ { outcomes[k] = nil }] *)
Definition clear_range (lo hi : nat) (outcomes : list (option error)) : list (option error) :=
  imap (fun k o => if (lo <=? k)%nat && (k <=? hi)%nat then None else o) outcomes.

Fixpoint ValidateBatch_loop (fuel : nat) (events : list Transfer) (v : batchValidator)
    (outcomes : list (option error)) (chainStart i : nat) : list (option error) :=
  match fuel with
  | O => outcomes
  | S fuel' =>
      match events !! i with
      | None => outcomes
      | Some t =>
          let v := if (i =? chainStart)%nat then beginChain v else v in
          match validateAndApply t i v with
          | (v, Err err) =>
              let outcomes := <[i := Some err]> outcomes in
              let chainEnd := chain_end events i in
              let v := rollbackChain v in
              let outcomes := fail_others chainStart chainEnd i
                                (ErrLinkedChainFailed (t_ID t) i err) outcomes in
              ValidateBatch_loop fuel' events v outcomes (S chainEnd) (S chainEnd)
          | (v, Ok _) =>
              if negb (isLinked t) then
                ValidateBatch_loop fuel' events v (clear_range chainStart i outcomes) (S i) (S i)
              else if (i =? length events - 1)%nat then
                let open := ErrLinkedChainOpen (t_ID t) i in
                let outcomes := <[i := Some open]> outcomes in
                fail_others chainStart (i - 1) i (ErrLinkedChainFailed (t_ID t) i open) outcomes
              else ValidateBatch_loop fuel' events v outcomes chainStart (S i)
          end
      end
  end.

(** The loop visits each index at most once. *)
Definition ValidateBatch (events : list Transfer) : list (option error) :=
  ValidateBatch_loop (length events) events newBatchValidator
    (replicate (length events) None) 0 0.
End Validator.

(** Applies the accepted events in order; a failure only changes the outcome. *)
Fixpoint ApplyBatch (events : list Transfer) (outcomes : list (option error)) (accounts : AccountManager)
    : list (option error) * AccountManager :=
  match events, outcomes with
  | t :: events, o :: outcomes =>
      match o with
      | Some _ =>
          let '(os, m) := ApplyBatch events outcomes accounts in (o :: os, m)
      | None =>
          let '(m, r) := ApplyTransferState t accounts in
          let o := match r with Ok _ => None | Err err => Some err end in
          let '(os, m) := ApplyBatch events outcomes m in (o :: os, m)
      end
  | _, _ => (outcomes, accounts)
  end.
