(* ===== verification/TransfersRefine.v ===== *)
(** * The batch validator runs the abstract ledger

    [sim] relates a validator's overlay to the ledger reached by the events it
    has accepted, [chain_inv] its snapshots to the overlay at the start of the
    linked chain.  [validate_spec] decides one event; rolling back restores the
    overlay of the chain's start. *)

From S2P Require Import Prelude Core Uint128 Balance Expiry Accounts LedgerSpec AccountsRefine Transfers.

(** ** Rolling a chain back *)

Record chain_inv (s0 : gmap ID Account) (p0 : gmap ID pendingState) (v : batchValidator) : Prop := {
  ci_staged : forall id, id ∉ v_accSeen v -> v_staged v !! id = s0 !! id;
  ci_kept : forall id, is_Some (s0 !! id) -> is_Some (v_staged v !! id);
  ci_accSnaps : forall s, s ∈ v_accSnaps v -> as_account s = s0 !! as_id s;
  ci_accSeen : forall id, id ∈ v_accSeen v <-> id ∈ as_id <$> v_accSnaps v;
  ci_pending : forall id, id ∉ v_pendSeen v -> v_pending v !! id = p0 !! id;
  ci_pendSnaps : forall s, s ∈ v_pendSnaps v -> psn_state s = p0 !! psn_id s;
  ci_pendSeen : forall id, id ∈ v_pendSeen v <-> id ∈ psn_id <$> v_pendSnaps v }.

Lemma restore_accounts (s0 : gmap ID Account) (snaps : list accountSnapshot) (base : gmap ID Account) :
  (forall s, s ∈ snaps -> as_account s = s0 !! as_id s) ->
  (forall id, is_Some (s0 !! id) -> is_Some (base !! id)) ->
  forall id, foldr restore_account base snaps !! id
    = if decide (id ∈ as_id <$> snaps) then s0 !! id else base !! id.
Proof.
  intros Hs Hk. induction snaps as [|s snaps IH]; intros id.
  { case_decide as Hd; [by apply elem_of_nil in Hd|done]. }
  simpl foldr. rewrite fmap_cons.
  assert (IH' := IH (fun s' Hs' => Hs s' ltac:(by right))). clear IH.
  pose proof (Hs s ltac:(by left)) as Ha. unfold restore_account at 1. rewrite Ha.
  destruct (decide (id = as_id s)) as [->|Hne].
  - rewrite decide_True by (by left). destruct (s0 !! as_id s) as [a|] eqn:E.
    + rewrite lookup_alter_eq, IH'. case_decide; [by rewrite E|].
      destruct (Hk (as_id s)) as [b ->]; [by rewrite E|done].
    + apply lookup_delete_eq.
  - assert (Hl : forall X : gmap ID Account, (match s0 !! as_id s with
        | Some a => alter (fun _ => a) (as_id s) X | None => delete (as_id s) X end) !! id = X !! id).
    { intros X. destruct (s0 !! as_id s); [by rewrite lookup_alter_ne|by rewrite lookup_delete_ne]. }
    rewrite Hl, IH'. apply decide_ext. rewrite elem_of_cons. naive_solver.
Qed.

Lemma restore_pendings (p0 : gmap ID pendingState) (snaps : list pendingSnapshot)
    (base : gmap ID pendingState) :
  (forall s, s ∈ snaps -> psn_state s = p0 !! psn_id s) ->
  forall id, foldr restore_pending base snaps !! id
    = if decide (id ∈ psn_id <$> snaps) then p0 !! id else base !! id.
Proof.
  intros Hs. induction snaps as [|s snaps IH]; intros id.
  { case_decide as Hd; [by apply elem_of_nil in Hd|done]. }
  simpl foldr. rewrite fmap_cons.
  assert (IH' := IH (fun s' Hs' => Hs s' ltac:(by right))). clear IH.
  pose proof (Hs s ltac:(by left)) as Ha. unfold restore_pending at 1. rewrite Ha.
  destruct (decide (id = psn_id s)) as [->|Hne].
  - rewrite decide_True by (by left). destruct (p0 !! psn_id s) as [a|].
    + apply lookup_insert_eq.
    + apply lookup_delete_eq.
  - assert (Hl : forall X : gmap ID pendingState, (match p0 !! psn_id s with
        | Some a => <[psn_id s := a]> X | None => delete (psn_id s) X end) !! id = X !! id).
    { intros X. destruct (p0 !! psn_id s); [by rewrite lookup_insert_ne|by rewrite lookup_delete_ne]. }
    rewrite Hl, IH'. apply decide_ext. rewrite elem_of_cons. naive_solver.
Qed.

Lemma chain_inv_begin v : chain_inv (v_staged v) (v_pending v) (beginChain v).
Proof.
  constructor; simpl; try done.
  - by intros s ?%elem_of_nil.
  - intros id. split; [by intros ?%elem_of_empty|by intros ?%elem_of_nil].
  - by intros s ?%elem_of_nil.
  - intros id. split; [by intros ?%elem_of_empty|by intros ?%elem_of_nil].
Qed.

Lemma rollback_restores s0 p0 v : chain_inv s0 p0 v ->
  v_staged (rollbackChain v) = s0 /\ v_pending (rollbackChain v) = p0
  /\ v_seenIDs (rollbackChain v) = v_seenIDs v.
Proof.
  intros [Hs Hk Ha Hi Hp Hb Hj]. split; [|split; [|done]]; apply map_eq; intros id; simpl.
  - rewrite (restore_accounts s0) by done. case_decide as Hd; [done|]. apply Hs. by rewrite Hi.
  - rewrite (restore_pendings p0) by done. case_decide as Hd; [done|]. apply Hp. by rewrite Hj.
Qed.

(** ** Every step keeps the chain's snapshots *)

Section Safe.
Context (s0 : gmap ID Account) (p0 : gmap ID pendingState).

(** Clones are stored under their own ID. *)
Definition keyed (v : batchValidator) : Prop := forall id a, v_staged v !! id = Some a -> a_ID a = id.

(** The accounts [A] and holds [P] a step may write have been noted. *)
Record noted (A P : list ID) (v : batchValidator) : Prop := {
  n_chain : chain_inv s0 p0 v;
  n_keyed : keyed v;
  n_accounts : forall id, id ∈ A -> id ∈ v_accSeen v;
  n_pendings : forall id, id ∈ P -> id ∈ v_pendSeen v }.

(** Whatever its outcome, [c] leaves the snapshots consistent. *)
Definition safe {X} (A P : list ID) (c : BM X) : Prop :=
  forall v, noted A P v -> chain_inv s0 p0 (c v).1 /\ keyed (c v).1.

Lemma safe_fail {X} A P e : safe A P (sfail e : BM X).
Proof using. by intros v []. Qed.
Lemma safe_lift {X Y} A P (r : result X error) (k : X -> BM Y) :
  (forall x, safe A P (k x)) -> safe A P (sbind (slift r) k).
Proof using. intros Hk v Hv. unfold sbind, slift. destruct r; [by apply Hk|by destruct Hv]. Qed.
Lemma safe_get {Y} A P (k : batchValidator -> BM Y) :
  (forall x, safe A P (k x)) -> safe A P (sbind sget k).
Proof using. intros Hk v Hv. by apply Hk. Qed.
Lemma safe_staged_at {Y} A P p (k : Account -> BM Y) :
  (forall x, safe A P (k x)) -> safe A P (sbind (staged_at p) k).
Proof using. intros Hk v Hv. by apply Hk. Qed.

Lemma noted_snapshotAccount A P id v : noted A P v -> noted (id :: A) P (snapshotAccount id v).
Proof using.
  intros [[Hs Hk Ha Hi Hp Hb Hj] HK HA HP]. unfold snapshotAccount. case_decide as Hd.
  { constructor; [done|done| |done]. intros k [->|?]%elem_of_cons; auto. }
  constructor; [constructor; simpl; try done|done| |done].
  - intros k Hn. apply Hs. set_solver.
  - intros s [?|E%list_elem_of_singleton]%elem_of_app; [auto|]. subst s. simpl. by apply Hs.
  - intros k. rewrite fmap_app, elem_of_app, elem_of_union, elem_of_singleton, Hi. simpl.
    rewrite list_elem_of_singleton. tauto.
  - intros k [->|?]%elem_of_cons; simpl; set_solver.
Qed.

Lemma noted_snapshotPending A P id v : noted A P v -> noted A (id :: P) (snapshotPending id v).
Proof using.
  intros [[Hs Hk Ha Hi Hp Hb Hj] HK HA HP]. unfold snapshotPending. case_decide as Hd.
  { constructor; [done|done|done|]. intros k [->|?]%elem_of_cons; auto. }
  constructor; [constructor; simpl; try done|done|done|].
  - intros k Hn. apply Hp. set_solver.
  - intros s [?|E%list_elem_of_singleton]%elem_of_app; [auto|]. subst s. simpl. by apply Hp.
  - intros k. rewrite fmap_app, elem_of_app, elem_of_union, elem_of_singleton, Hj. simpl.
    rewrite list_elem_of_singleton. tauto.
  - intros k [->|?]%elem_of_cons; simpl; set_solver.
Qed.

Lemma safe_snapshotAccount {Y} A P id (k : unit -> BM Y) :
  safe (id :: A) P (k tt) -> safe A P (sbind (smodify (snapshotAccount id)) k).
Proof using. intros Hk v Hv. by apply Hk, noted_snapshotAccount. Qed.
Lemma safe_snapshotPending {Y} A P id (k : unit -> BM Y) :
  safe A (id :: P) (k tt) -> safe A P (sbind (smodify (snapshotPending id)) k).
Proof using. intros Hk v Hv. by apply Hk, noted_snapshotPending. Qed.

(** Rewriting the clone of a noted account. *)
Lemma noted_insert A P v id a : noted A P v -> id ∈ A -> a_ID a = id ->
  noted A P (set_staged (<[id := a]> (v_staged v)) v).
Proof using.
  intros [[Hs Hk Ha Hi Hp Hb Hj] HK HA HP] Hin Hid. constructor; [constructor; simpl; try done| |done|done].
  - intros k Hn. rewrite lookup_insert_ne; [auto|]. intros <-. by apply Hn, HA.
  - intros k Hsome. destruct (decide (id = k)) as [<-|]; [rewrite lookup_insert_eq; by eexists|].
    rewrite lookup_insert_ne by done. auto.
  - intros k b E. simpl in E. apply lookup_insert_Some in E as [[<- <-]|[_ E]]; [done|]. by apply HK.
Qed.

Lemma alter_insert_lookup (f : Account -> Account) (p : ID) (X : gmap ID Account) :
  alter f p X = match X !! p with Some a => <[p := f a]> X | None => X end.
Proof using.
  apply map_eq. intros k. rewrite lookup_alter. case_decide as Hk.
  - subst. destruct (X !! k) eqn:E; simpl; [by rewrite lookup_insert_eq|done].
  - destruct (X !! p); [by rewrite lookup_insert_ne|done].
Qed.

Lemma noted_alter A P v p f : noted A P v -> p ∈ A -> (forall a, a_ID (f a) = a_ID a) ->
  noted A P (set_staged (alter f p (v_staged v)) v).
Proof using.
  intros Hv Hin Hf. rewrite alter_insert_lookup. destruct (v_staged v !! p) as [a|] eqn:E.
  - apply noted_insert; [done|done|]. rewrite Hf. by apply (n_keyed _ _ _ Hv).
  - by destruct v.
Qed.

Context (m : AccountManager) (Hm : struct m).

Lemma safe_getAccount {Y} A P id (k : ID -> BM Y) : id ∈ A ->
  safe A P (k id) -> safe A P (sbind (getAccount m id) k).
Proof using Hm.
  intros Hin Hk v Hv. unfold getAccount, sbind, sget, slift, smodify, sret.
  destruct (v_staged v !! id) eqn:E; [by apply Hk|].
  destruct (Get m id) as [i|e] eqn:EG; [|by destruct Hv]. apply Hk, noted_insert; [done|done|].
  unfold Get in EG. destruct (m_index m !! id) as [j|] eqn:Ej; [|done]. injection EG as <-.
  destruct (s_index _ Hm _ _ Ej) as (a & Ea & Hid). unfold acc_at. by rewrite Ea.
Qed.
Lemma safe_upd {Y} A P p f (k : unit -> BM Y) : p ∈ A -> (forall a, a_ID (f a) = a_ID a) ->
  safe A P (k tt) -> safe A P (sbind (upd_staged p f) k).
Proof using. intros Hin Hf Hk v Hv. by apply Hk, noted_alter. Qed.

Lemma noted_restage A P v p : noted A P v -> p ∈ A -> noted A P (restage p v).1.
Proof using.
  intros Hv Hin. unfold restage, smodify. simpl. destruct (v_staged v !! p) as [a|] eqn:E; [|done].
  pose proof (n_keyed _ _ _ Hv _ _ E) as Hid. by apply noted_insert; rewrite ?Hid.
Qed.
Lemma safe_restage {Y} A P p (k : unit -> BM Y) : p ∈ A -> safe A P (k tt) ->
  safe A P (sbind (restage p) k).
Proof using. intros Hin Hk v Hv. unfold sbind. simpl. by apply Hk, noted_restage. Qed.
Lemma safe_restage_last A P p : p ∈ A -> safe A P (restage p).
Proof using. intros Hin v Hv. by destruct (noted_restage A P v p Hv Hin). Qed.
Lemma safe_pending A P id st : id ∈ P ->
  safe A P (smodify (fun v => set_vpending (<[id := st]> (v_pending v)) v)).
Proof using.
  intros Hin v [[Hs Hk Ha Hi Hp Hb Hj] HK HA HP]. split; [|done]. constructor; simpl; try done.
  intros k Hn. rewrite lookup_insert_ne; [auto|]. intros <-. by apply Hn, HP.
Qed.

Ltac in_list := repeat first [apply list_elem_of_here | apply list_elem_of_further].
Ltac safe_step :=
  lazymatch goal with
  | |- safe _ _ (sfail _) => apply safe_fail
  | |- safe _ _ (sbind (smodify (snapshotAccount _)) _) => apply safe_snapshotAccount
  | |- safe _ _ (sbind (smodify (snapshotPending _)) _) => apply safe_snapshotPending
  | |- safe _ _ (sbind (getAccount _ _) _) => apply safe_getAccount; [in_list|]
  | |- safe _ _ (sbind (staged_at _) _) => apply safe_staged_at; intros ?
  | |- safe _ _ (sbind (slift _) _) => apply safe_lift; intros ?
  | |- safe _ _ (sbind (upd_staged _ _) _) => apply safe_upd; [in_list|reflexivity|]
  | |- safe _ _ (sbind (restage _) _) => apply safe_restage; [in_list|]
  | |- safe _ _ (restage _) => apply safe_restage_last; in_list
  | |- safe _ _ (smodify _) => apply safe_pending; in_list
  | |- safe _ _ (sbind sget _) => apply safe_get; intros ?
  | |- safe _ _ (let _ := _ in _) => cbv zeta
  | |- safe _ _ (if ?b then _ else _) => destruct b
  end.

Lemma safe_settle A P t : safe A P (settle_staged m t).
Proof using Hm. unfold settle_staged. repeat safe_step. Qed.
Lemma safe_post A P t : safe A P (post_staged m t).
Proof using Hm. unfold post_staged. repeat safe_step. Qed.

Lemma validate_safe t i v : chain_inv s0 p0 v -> keyed v ->
  chain_inv s0 p0 (validateAndApply m t i v).1 /\ keyed (validateAndApply m t i v).1.
Proof using Hm.
  intros Hc Hk. assert (Hn : noted [] [] v) by (constructor; [done|done|set_solver|set_solver]).
  unfold validateAndApply. destruct (negb _); [done|]. destruct (_ || _); [done|].
  destruct (_ || _); [by apply (safe_settle [] [] t)|].
  unfold claim_id, sbind, sget, sfail, smodify.
  destruct (v_seenIDs v !! t_ID t); [done|]. destruct (GetTransfer m (t_ID t)); [done|].
  apply (safe_post [] [] t). destruct Hn as [[] ? ? ?]. constructor; [by constructor|done..].
Qed.
End Safe.

(** ** The overlay as a ledger *)

Section Sim.
Context (m : AccountManager) (Hg : good m).

(** The account and the hold the validator sees under an ID. *)
Definition ov_account (v : batchValidator) (id : ID) : option Account :=
  match v_staged v !! id with Some a => Some a | None => l_accounts (abs m) !! id end.
Definition ov_hold (P : gmap ID pendingState) (id : ID) : option Transfer :=
  match P !! id with
  | Some st => if ps_deleted st then None else Some (ps_transfer st)
  | None => l_holds (abs m) !! id
  end.

Record sim (v : batchValidator) (L : Ledger) : Prop := {
  sim_account : forall id, ov_account v id = l_accounts L !! id;
  sim_hold : forall id, ov_hold (v_pending v) id = l_holds L !! id;
  sim_seen : forall id, is_Some (l_transfers L !! id) ->
    is_Some (m_transfers m !! id) \/ is_Some (v_seenIDs v !! id) }.

Definition holds_recorded (L : Ledger) : Prop :=
  forall id h, l_holds L !! id = Some h -> is_Some (l_transfers L !! id).

Lemma sim_staged v L id a : sim v L -> v_staged v !! id = Some a -> l_accounts L !! id = Some a.
Proof using. intros Hs E. rewrite <- (sim_account _ _ Hs). unfold ov_account. by rewrite E. Qed.

Lemma sim_keyed v L : sim v L -> inv L -> keyed v.
Proof using. intros Hs HI id a E. by apply (inv_account _ HI id a), (sim_staged v). Qed.

(** Only the overlay of accounts differs. *)
Definition restaged (v v' : batchValidator) : Prop :=
  v_pending v' = v_pending v /\ v_seenIDs v' = v_seenIDs v.

Lemma snapshotAccount_overlay id v :
  v_staged (snapshotAccount id v) = v_staged v /\ restaged v (snapshotAccount id v).
Proof using. unfold snapshotAccount. by case_decide. Qed.
Lemma snapshotPending_overlay id v :
  v_staged (snapshotPending id v) = v_staged v /\ restaged v (snapshotPending id v).
Proof using. unfold snapshotPending. by case_decide. Qed.

Lemma sim_overlay v v' L : sim v L -> v_staged v' = v_staged v -> restaged v v' -> sim v' L.
Proof using.
  intros [Ha Hh Hs] E1 [E2 E3]. constructor; unfold ov_account; rewrite ?E1, ?E2, ?E3; done.
Qed.

Lemma getAccount_run v L id : sim v L ->
  match l_accounts L !! id with
  | Some a => exists v', getAccount m id v = (v', Ok id) /\ v_staged v' !! id = Some a
      /\ sim v' L /\ restaged v v' /\ (forall k b, v_staged v !! k = Some b -> v_staged v' !! k = Some b)
  | None => exists e, getAccount m id v = (v, Err e)
  end.
Proof using Hg.
  intros Hs. pose proof (sim_account _ _ Hs id) as Ea. unfold ov_account in Ea.
  unfold getAccount, sbind, sget, slift, smodify, sret.
  destruct (v_staged v !! id) as [a|] eqn:E.
  - rewrite <- Ea. by exists v.
  - destruct (l_accounts L !! id) as [a|] eqn:EL.
    + destruct (cell m id a (proj1 Hg) Ea) as (i & -> & -> & _). eexists. split; [done|]. simpl.
      split; [apply lookup_insert_eq|]. split; [|split; [done|]].
      * destruct Hs as [Ha Hh Hi]. constructor; try done. intros k. rewrite <- Ha. unfold ov_account.
        cbn [v_staged set_staged]. destruct (decide (id = k)) as [<-|]; [|by rewrite lookup_insert_ne].
        by rewrite lookup_insert_eq, E, Ea.
      * intros k b Ek. rewrite lookup_insert_ne; [done|congruence].
    + rewrite (proj2 (get_None _ _) Ea). eauto.
Qed.

(** The snapshots and the two clones every event starts with. *)
Lemma two_clones {X} v L dr cr (k : ID -> ID -> BM X) : sim v L ->
  let run := (smodify (snapshotAccount dr) >> smodify (snapshotAccount cr) >>
              deb <-- getAccount m dr ;; cred <-- getAccount m cr ;; k deb cred) v in
  match l_accounts L !! dr, l_accounts L !! cr with
  | Some d, Some c => exists v', run = k dr cr v' /\ sim v' L /\ restaged v v'
      /\ v_staged v' !! dr = Some d /\ v_staged v' !! cr = Some c
  | _, _ => exists v' e, run = (v', Err e) /\ restaged v v'
  end.
Proof using Hg.
  intros Hs. unfold sbind, smodify. set (v1 := snapshotAccount dr v). set (v2 := snapshotAccount cr v1).
  destruct (snapshotAccount_overlay dr v) as [A1 R1]. destruct (snapshotAccount_overlay cr v1) as [A2 R2].
  fold v1 in A1, R1. fold v2 in A2, R2.
  assert (H2 : sim v2 L) by (apply (sim_overlay v1); [apply (sim_overlay v)|..]; done).
  assert (R : restaged v v2) by (destruct R1, R2; split; congruence).
  pose proof (getAccount_run v2 L dr H2) as G1. simpl.
  destruct (l_accounts L !! dr) as [d|].
  2:{ destruct G1 as (e & E1). exists v2, e. by rewrite E1. }
  destruct G1 as (v3 & E1 & S1 & H3 & R3 & K3). rewrite E1.
  assert (R' : restaged v v3) by (destruct R, R3; split; congruence).
  pose proof (getAccount_run v3 L cr H3) as G2. destruct (l_accounts L !! cr) as [c|].
  2:{ destruct G2 as (e & E2). exists v3, e. by rewrite E2. }
  destruct G2 as (v4 & E2 & S2 & H4 & R4 & K4). exists v4. rewrite E2.
  destruct R', R4. split; [done|]. split; [done|]. split; [split; congruence|]. auto.
Qed.

Lemma restage_keyed v p : keyed v -> restage p v = (v, Ok tt).
Proof using.
  intros Hk. unfold restage, smodify. destruct (v_staged v !! p) as [a|] eqn:E; [|done].
  rewrite (Hk _ _ E), insert_id by done. by destruct v.
Qed.

Definition written (dr cr : ID) (f g : Account -> Account) (v : batchValidator) : batchValidator :=
  set_staged (alter g cr (alter f dr (v_staged v))) v.

Lemma keyed_alter (f : Account -> Account) (p : ID) (X : gmap ID Account) :
  (forall id a, X !! id = Some a -> a_ID a = id) -> (forall a, a_ID (f a) = a_ID a) ->
  forall id a, alter f p X !! id = Some a -> a_ID a = id.
Proof using.
  intros HX Hf id a. rewrite lookup_alter. case_decide; [subst|apply HX].
  destruct (X !! id) eqn:E; simpl; [|done]. intros [= <-]. rewrite Hf. by apply HX.
Qed.

Lemma keyed_written dr cr f g v : keyed v -> (forall a, a_ID (f a) = a_ID a) ->
  (forall a, a_ID (g a) = a_ID a) -> keyed (written dr cr f g v).
Proof using. intros Hk Hf Hgg id a. apply keyed_alter; [by apply keyed_alter|done]. Qed.

(** Two shifts on the overlay are a move of the ledger. *)
Lemma sim_written v v' L dr cr d c f g p q H r : sim v L -> dr <> cr ->
  v_staged v !! dr = Some d -> v_staged v !! cr = Some c ->
  f d = shift_debit p q d -> g c = shift_credit p q c ->
  v_staged v' = v_staged (written dr cr f g v) ->
  (forall id, ov_hold (v_pending v') id = H !! id) ->
  (forall id, is_Some (v_seenIDs v !! id) -> is_Some (v_seenIDs v' !! id)) ->
  is_Some (m_transfers m !! t_ID r) \/ is_Some (v_seenIDs v' !! t_ID r) ->
  sim v' (spec_record r (spec_move dr cr p q H L)).
Proof using.
  intros Hs Hne Ed Ec Ef Eg Ev HH Hsn Hr.
  pose proof (sim_staged _ _ _ _ Hs Ed) as Ld. pose proof (sim_staged _ _ _ _ Hs Ec) as Lc.
  constructor.
  - intros id. cbn [spec_record spec_move l_accounts]. rewrite lookup_move by done.
    unfold ov_account. rewrite Ev. unfold written. simpl.
    destruct (decide (id = cr)) as [->|Hc].
    + rewrite lookup_alter_eq, lookup_alter_ne, Ec by done. simpl.
      by rewrite (decide_False (P := cr = dr)), Lc, Eg by done.
    + rewrite lookup_alter_ne by done. destruct (decide (id = dr)) as [->|Hd].
      * rewrite lookup_alter_eq, Ed, Ld. simpl. by rewrite Ef.
      * rewrite lookup_alter_ne by done. apply (sim_account _ _ Hs).
  - intros id. cbn [spec_record spec_move l_holds]. apply HH.
  - intros id. cbn [spec_record spec_move l_transfers].
    destruct (decide (t_ID r = id)) as [<-|Hne']; [done|]. rewrite lookup_insert_ne by done.
    intros [?|?]%(sim_seen _ _ Hs); auto.
Qed.

(** ** One event *)

Definition is_settlement (t : Transfer) : bool := isPost t || isVoid t.

Definition new_id (t : Transfer) (v : batchValidator) : Prop :=
  is_settlement t = false -> v_seenIDs v !! t_ID t = None /\ m_transfers m !! t_ID t = None.

(** The ledger accepts the event; [x] is the amount a settlement moves. *)
Definition accepts (t : Transfer) (v : batchValidator) (L : Ledger) (x : Z) : Prop :=
  allowed x t L /\ effect_fits x t L /\ new_id t v.

(** The IDs taken after the event is examined, whether or not it is accepted. *)
Definition seen_after (t : Transfer) (i : nat) (seen : gmap ID nat) : gmap ID nat :=
  if flags_invalid t || is_settlement t then seen
  else match seen !! t_ID t, m_transfers m !! t_ID t with
       | None, None => <[t_ID t := i]> seen
       | _, _ => seen
       end.

Definition event_spec (t : Transfer) (i : nat) (v : batchValidator) (L : Ledger) : Prop :=
  (exists x v', validateAndApply m t i v = (v', Ok tt) /\ accepts t v L x
     /\ sim v' (spec_apply x t L) /\ v_seenIDs v' = seen_after t i (v_seenIDs v))
  \/ (exists e v', validateAndApply m t i v = (v', Err e) /\ (forall x, ~ accepts t v L x)
     /\ v_seenIDs v' = seen_after t i (v_seenIDs v)).

(** Head steps of the monad, for rewriting. *)
Lemma bind_Ok {X Y} (r : result X error) x (k : X -> BM Y) v : r = Ok x -> sbind (slift r) k v = k x v.
Proof using. by intros ->. Qed.
Lemma bind_Err {X Y} (r : result X error) e (k : X -> BM Y) v : r = Err e -> sbind (slift r) k v = (v, Err e).
Proof using. by intros ->. Qed.
Lemma bind_staged {Y} p a (k : Account -> BM Y) v : v_staged v !! p = Some a ->
  sbind (staged_at p) k v = k a v.
Proof using. intros E. unfold staged_at, sbind, sget, sret. by rewrite E. Qed.
Lemma bind_upd {Y} p f (k : unit -> BM Y) v :
  sbind (upd_staged p f) k v = k tt (set_staged (alter f p (v_staged v)) v).
Proof using. done. Qed.
Lemma bind_modify {Y} f (k : unit -> BM Y) v : sbind (smodify f) k v = k tt (f v).
Proof using. done. Qed.
Lemma bind_restage {Y} p (k : unit -> BM Y) v : keyed v -> sbind (restage p) k v = k tt v.
Proof using. intros Hk. unfold sbind. by rewrite restage_keyed. Qed.

Lemma written_eq dr cr f g v : dr <> cr ->
  set_staged (alter g cr (v_staged (set_staged (alter f dr (v_staged v)) v)))
    (set_staged (alter f dr (v_staged v)) v) = written dr cr f g v.
Proof using. done. Qed.

Section Post.
Context (t : Transfer) (v : batchValidator) (L : Ledger).
Context (Hs : sim v L) (HI : inv L) (Hw : wf_transfer t) (Hfl : flags_invalid t = false).
Context (HP : isPost t = false) (HV : isVoid t = false) (Hseen : is_Some (v_seenIDs v !! t_ID t)).

Definition post_outcome (r : batchValidator * result unit error) : Prop :=
  (allowed 0 t L /\ effect_fits 0 t L /\ exists v', r = (v', Ok tt)
     /\ sim v' (spec_apply 0 t L) /\ v_seenIDs v' = v_seenIDs v)
  \/ (exists v' e, r = (v', Err e) /\ (forall x, allowed x t L -> effect_fits x t L -> False)
     /\ v_seenIDs v' = v_seenIDs v).

Lemma allowed_post x : allowed x t L <-> x = 0 /\ transfer_allowed t L.
Proof using Hfl HP HV. unfold allowed. rewrite HP, HV. simpl. tauto. Qed.

(** The tail after the structural checks, on two clones [d] and [c]. *)
Lemma post_write v1 d c f g p q : sim v1 L -> restaged v v1 ->
  t_DebitAccountID t <> t_CreditAccountID t ->
  v_staged v1 !! t_DebitAccountID t = Some d -> v_staged v1 !! t_CreditAccountID t = Some c ->
  f d = shift_debit p q d -> g c = shift_credit p q c ->
  effect 0 t L = (t_DebitAccountID t, t_CreditAccountID t, p, q) ->
  let v2 := written (t_DebitAccountID t) (t_CreditAccountID t) f g v1 in
  let v3 := if isPending t
            then set_vpending (<[t_ID t := mkPendingState t false]> (v_pending v2))
                   (snapshotPending (t_ID t) v2)
            else v2 in
  sim v3 (spec_apply 0 t L) /\ v_seenIDs v3 = v_seenIDs v.
Proof using All.
  intros H1 [Rp Rs] Hne Ed Ec Ef Eg Heff v2 v3.
  assert (E3 : v_seenIDs v3 = v_seenIDs v).
  { unfold v3. destruct (isPending t); [|by rewrite <- Rs].
    destruct (snapshotPending_overlay (t_ID t) v2) as [_ [_ E]]. simpl. rewrite E. by rewrite <- Rs. }
  split; [|done]. rewrite (spec_apply_eq _ _ _ _ _ _ _ Heff).
  unfold recorded. rewrite HP, HV. simpl orb. cbv iota.
  eapply (sim_written v1 v3 L _ _ d c f g); try done.
  - unfold v3. destruct (isPending t); [|done].
    destruct (snapshotPending_overlay (t_ID t) v2) as [E _]. simpl. by rewrite E.
  - intros id. unfold holds_after. rewrite HP, HV. unfold v3. destruct (isPending t).
    + unfold ov_hold. cbn [v_pending set_vpending]. destruct (decide (t_ID t = id)) as [<-|Hd].
      * by rewrite !lookup_insert_eq.
      * rewrite !lookup_insert_ne by done. apply (sim_hold _ _ H1).
    + apply (sim_hold _ _ H1).
  - intros id. by rewrite E3, Rs.
  - right. by rewrite E3.
Qed.

Lemma post_run : post_outcome (post_staged m t v).
Proof using All.
  pose proof (wft_amount _ Hw) as Wa. pose proof (amt_nonneg t Hw) as Hpos.
  assert (Refuse : forall v' e, v_seenIDs v' = v_seenIDs v -> (transfer_allowed t L -> effect_fits 0 t L -> False) ->
    post_outcome (v', Err e)).
  { intros v' e E Hno. right. exists v', e. split; [done|]. split; [|done].
    intros x [-> Ha]%allowed_post Hf. auto. }
  unfold post_staged. rewrite IsZero_spec by done. fold (amt t).
  destruct (Z.eqb_spec (amt t) 0) as [Hz|Hnz]; [apply Refuse; [done|]; intros [? _]; lia|].
  destruct (decide _) as [Hself|Hne]; [apply Refuse; [done|]; by intros (_ & ? & _)|].
  epose proof (two_clones v L (t_DebitAccountID t) (t_CreditAccountID t) _ Hs) as T. cbv zeta in T.
  destruct (l_accounts L !! t_DebitAccountID t) as [d|] eqn:Ld.
  2:{ destruct T as (v1 & e & -> & [_ R]). apply Refuse; [done|].
      intros (_ & _ & d & c & Ed & _). congruence. }
  destruct (l_accounts L !! t_CreditAccountID t) as [c|] eqn:Lc.
  2:{ destruct T as (v1 & e & -> & [_ R]). apply Refuse; [done|].
      intros (_ & _ & d' & c & _ & Ec & _). congruence. }
  destruct T as (v1 & -> & H1 & R & Ed & Ec). pose proof R as [_ Rs].
  destruct (inv_account _ HI _ _ Ld) as [_ Wd], (inv_account _ HI _ _ Lc) as [_ Wc].
  pose proof Wd as (D1 & D2 & D3 & D4). pose proof Wc as (C1 & C2 & C3 & C4).
  assert (HT : transfer_allowed t L -> a_Currency d = a_Currency c /\ a_Ledger d = t_Ledger t
    /\ a_Ledger c = t_Ledger t /\ open_for_transfers d /\ open_for_transfers c /\ funds_allowed t d).
  { intros (_ & _ & d' & c' & Ed' & Ec' & ?). rewrite Ld in Ed'. rewrite Lc in Ec'.
    injection Ed' as <-. injection Ec' as <-. done. }
  assert (Hk : forall f g, (forall a, a_ID (f a) = a_ID a) -> (forall a, a_ID (g a) = a_ID a) ->
    keyed (written (t_DebitAccountID t) (t_CreditAccountID t) f g v1)).
  { intros f g. apply keyed_written. by apply (sim_keyed v1 L). }
  rewrite (bind_staged _ d) by done. cbv beta. rewrite (bind_staged _ c) by done. cbv beta.
  unfold open_for_transfers in HT.
  destruct (bool_decide_reflect (a_Currency d = a_Currency c)) as [Hcur|Hcur]; 
    try change (negb true) with false; try change (negb false) with true; cbv beta iota;
    [|apply Refuse; [done|]; intros Ha _; apply Hcur, HT, Ha].
  destruct (negb (a_Ledger d =? t_Ledger t) || negb (a_Ledger c =? t_Ledger t)) eqn:EL; cbv iota beta;
    [apply Refuse; [done|]; intros (_ & ? & ? & _)%HT _; lia|].
  destruct (IsFrozen d) eqn:F1; cbv iota beta; [apply Refuse; [done|]; by intros (_ & _ & _ & [? _] & _)%HT|].
  destruct (IsClosed d) eqn:F2; cbv iota beta; [apply Refuse; [done|]; by intros (_ & _ & _ & [_ ?] & _)%HT|].
  destruct (IsFrozen c) eqn:F3; cbv iota beta; [apply Refuse; [done|]; by intros (_ & _ & _ & _ & [? _] & _)%HT|].
  destruct (IsClosed c) eqn:F4; cbv iota beta; [apply Refuse; [done|]; by intros (_ & _ & _ & _ & [_ ?] & _)%HT|].
  assert (Hfun : transfer_allowed t L <-> funds_allowed t d).
  { split; [intros Ha; apply HT, Ha|]. intros Hf. split; [lia|]. split; [done|]. exists d, c.
    unfold open_for_transfers. rewrite F1, F2, F3, F4.
    assert (a_Ledger d = t_Ledger t /\ a_Ledger c = t_Ledger t) as [? ?] by lia. done. }
  pose proof (val_range _ D1) as V1. pose proof (val_range _ D2) as V2.
  pose proof (val_range _ D3) as V3. pose proof (val_range _ C2) as V4.
  pose proof (val_range _ C4) as V5. pose proof (val_range _ Wa) as V6.
  destruct (isPending t) eqn:HH; cbv iota beta.
  - assert (Heff : effect 0 t L = (t_DebitAccountID t, t_CreditAccountID t, 0, amt t))
      by (unfold effect; by rewrite HP, HV, HH).
    assert (Hfits : effect_fits 0 t L <-> in128 (vHD d + amt t) /\ in128 (vHC c + amt t)).
    { unfold effect_fits. rewrite Heff, (fits_iff _ _ _ _ _ d c) by done.
      unfold in128, vPD, vPC. split; [tauto|]. intros [? ?]. repeat split; try tauto; lia. }
    destruct (AvailableBalance d) as [av|e] eqn:EA.
    2:{ rewrite (bind_Err _ e) by done. apply Refuse; [done|]. rewrite Hfun. unfold funds_allowed. rewrite HH.
        intros (B1 & B2 & _) _. destruct (AvailableBalance_total d Wd B1 B2). congruence. }
    rewrite (bind_Ok _ av) by done. cbv beta.
    apply AvailableBalance_Ok in EA as (Wav & Vav & Hle); [|done]. pose proof (val_range _ Wav). rewrite Cmp_ltb by done. fold (amt t).
    destruct (Z.ltb_spec (val av) (amt t)); cbv iota.
    { apply Refuse; [done|]. rewrite Hfun. unfold funds_allowed. rewrite HH. lia. }
    destruct (Add_branches (a_PendingDebits d) (t_Amount t)) as [(Fd & x & Sx & Wx & Vx)|(Fd & Sx)]; [done..| |].
    2:{ rewrite (bind_Err _ (ErrBalanceOverflow (a_ID d))) by (by rewrite Sx).
        apply Refuse; [done|]. intros _ [? _]%Hfits. done. }
    rewrite (bind_Ok _ x) by (by rewrite Sx). cbv beta.
    destruct (Add_branches (a_PendingCredits c) (t_Amount t)) as [(Fc & y & Sy & Wy & Vy)|(Fc & Sy)]; [done..| |].
    2:{ rewrite (bind_Err _ (ErrBalanceOverflow (a_ID c))) by (by rewrite Sy).
        apply Refuse; [done|]. intros _ [_ ?]%Hfits. done. }
    rewrite (bind_Ok _ y) by (by rewrite Sy). cbv beta.
    rewrite !bind_upd, written_eq by done. cbv beta. rewrite !bind_restage by (by apply Hk).
    left. split; [apply allowed_post; split; [done|]; apply Hfun; unfold funds_allowed; rewrite HH; lia|].
    split; [by apply Hfits|]. eexists. split; [reflexivity|].
    pose proof (post_write v1 d c (set_PendingDebits x) (set_PendingCredits y) 0 (amt t) H1 R Hne Ed Ec) as PW.
    cbv zeta in PW. rewrite HH in PW.
    destruct (snapshotPending_overlay (t_ID t) (written (t_DebitAccountID t) (t_CreditAccountID t)
      (set_PendingDebits x) (set_PendingCredits y) v1)) as [_ [-> _]].
    apply PW; [..|exact Heff].
    + shift_eq_debit (a_PostedDebits d) x.
    + shift_eq_credit (a_PostedCredits c) y.
  - assert (Heff : effect 0 t L = (t_DebitAccountID t, t_CreditAccountID t, amt t, 0))
      by (unfold effect; by rewrite HP, HV, HH).
    assert (Hfits : vPD d + amt t <= vPC d -> effect_fits 0 t L <-> in128 (vPC c + amt t)).
    { intros Hb. unfold effect_fits. rewrite Heff, (fits_iff _ _ _ _ _ d c) by done.
      unfold in128, vHD, vHC, vPD, vPC in *. split; [tauto|]. intros ?. repeat split; try tauto; lia. }
    destruct (Balance d) as [bal|e] eqn:EB.
    2:{ rewrite (bind_Err _ e) by done. apply Refuse; [done|]. rewrite Hfun. unfold funds_allowed. rewrite HH.
        intros Hb _. destruct (Balance_total d Wd ltac:(lia)) as (? & ? & _). congruence. }
    rewrite (bind_Ok _ bal) by done. cbv beta.
    apply Balance_Ok in EB as (Wb & Vb & Hle); [|done]. rewrite Cmp_ltb by done. fold (amt t).
    destruct (Z.ltb_spec (val bal) (amt t)); cbv iota.
    { apply Refuse; [done|]. rewrite Hfun. unfold funds_allowed. rewrite HH. lia. }
    assert (Hbal : vPD d + amt t <= vPC d) by lia. specialize (Hfits Hbal).
    destruct (Add_branches (a_PostedDebits d) (t_Amount t)) as [(Fd & x & Sx & Wx & Vx)|(Fd & Sx)]; [done..| |].
    2:{ destruct Fd. unfold in128, vPD, vPC, amt in *. lia. }
    rewrite (bind_Ok _ x) by (by rewrite Sx). cbv beta.
    destruct (Add_branches (a_PostedCredits c) (t_Amount t)) as [(Fc & y & Sy & Wy & Vy)|(Fc & Sy)]; [done..| |].
    2:{ rewrite (bind_Err _ (ErrBalanceOverflow (a_ID c))) by (by rewrite Sy).
        apply Refuse; [done|]. by intros _ ?%Hfits. }
    rewrite (bind_Ok _ y) by (by rewrite Sy). cbv beta.
    rewrite !bind_upd, written_eq by done. cbv beta. rewrite bind_restage by (by apply Hk).
    rewrite restage_keyed by (by apply Hk).
    left. split; [apply allowed_post; split; [done|]; apply Hfun; unfold funds_allowed; rewrite HH; lia|].
    split; [by apply Hfits|]. eexists. split; [reflexivity|].
    pose proof (post_write v1 d c (set_PostedDebits x) (set_PostedCredits y) (amt t) 0 H1 R Hne Ed Ec) as PW.
    cbv zeta in PW. rewrite HH in PW. apply PW; [..|exact Heff].
    + shift_eq_debit x (a_PendingDebits d).
    + shift_eq_credit y (a_PendingCredits c).
Qed.
End Post.

Lemma lookup_hold_run v L id : sim v L ->
  match l_holds L !! id with
  | Some h => lookup_hold m id v = Ok h
  | None => exists e, lookup_hold m id v = Err e
  end.
Proof using Hg.
  intros Hs. rewrite <- (sim_hold _ _ Hs). unfold ov_hold, lookup_hold.
  destruct (v_pending v !! id) as [st|]; [destruct (ps_deleted st); eauto|].
  simpl. rewrite lookup_fmap. destruct (m_pending m !! id); simpl; eauto.
Qed.

Section Settle.
Context (t : Transfer) (v : batchValidator) (L : Ledger).
Context (Hs : sim v L) (HI : inv L) (Hrec : holds_recorded L) (Hw : wf_transfer t).
Context (Hfl : flags_invalid t = false) (HS : isPost t || isVoid t = true).

Definition settle_outcome (r : batchValidator * result unit error) : Prop :=
  (exists x, allowed x t L /\ effect_fits x t L /\ exists v', r = (v', Ok tt)
     /\ sim v' (spec_apply x t L) /\ v_seenIDs v' = v_seenIDs v)
  \/ (exists v' e, r = (v', Err e) /\ (forall x, allowed x t L -> effect_fits x t L -> False)
     /\ v_seenIDs v' = v_seenIDs v).

Lemma allowed_settle x : allowed x t L <-> settlement_allowed x t L.
Proof using Hfl HS. unfold allowed. rewrite HS. tauto. Qed.

(** The overlay after the writes of a settlement of [x] on hold [h]. *)
Lemma settle_write v1 h d c f g x p st : sim v1 L -> restaged (snapshotPending (t_ID t) v) v1 ->
  l_holds L !! t_ID t = Some h -> t_DebitAccountID h <> t_CreditAccountID h ->
  v_staged v1 !! t_DebitAccountID h = Some d -> v_staged v1 !! t_CreditAccountID h = Some c ->
  f d = shift_debit p (- x) d -> g c = shift_credit p (- x) c ->
  effect x t L = (t_DebitAccountID h, t_CreditAccountID h, p, - x) ->
  (if amt h =? x then ps_deleted st = true
   else st = mkPendingState (set_Amount (of_Z (amt h - x)) h) false) ->
  holds_after x t (l_holds L) = settle (t_ID t) x (l_holds L) ->
  let v2 := written (t_DebitAccountID h) (t_CreditAccountID h) f g v1 in
  let v3 := set_vpending (<[t_ID t := st]> (v_pending v2)) v2 in
  sim v3 (spec_apply x t L) /\ v_seenIDs v3 = v_seenIDs v.
Proof using All.
  intros H1 [Rp Rs] Eh Hne Ed Ec Ef Eg Heff Hst Hho v2 v3.
  destruct (snapshotPending_overlay (t_ID t) v) as [_ [Sp Ss]].
  assert (E3 : v_seenIDs v3 = v_seenIDs v) by (change (v_seenIDs v1 = v_seenIDs v); congruence).
  split; [|done]. rewrite (spec_apply_eq _ _ _ _ _ _ _ Heff).
  unfold recorded, hold_of. rewrite HS, Eh.
  assert (Hid : t_ID (fill_from (default zeroTransfer (Some h)) t) = t_ID t)
    by (unfold fill_from; by repeat case_match).
  eapply (sim_written v1 v3 L _ _ d c f g); try done.
  - intros id. rewrite Hho. unfold ov_hold, settle, v3. rewrite Eh. cbn [v_pending set_vpending].
    destruct (decide (t_ID t = id)) as [<-|Hd].
    + rewrite lookup_insert_eq. destruct (amt h =? x).
      * by rewrite Hst, lookup_delete_eq.
      * subst st. by rewrite lookup_insert_eq.
    + rewrite lookup_insert_ne by done.
      assert (ov_hold (v_pending v1) id = l_holds L !! id) as E0 by apply (sim_hold _ _ H1).
      unfold ov_hold in E0. change (v_pending v2) with (v_pending v1). rewrite E0.
      destruct (amt h =? x); [by rewrite lookup_delete_ne|by rewrite lookup_insert_ne].
  - rewrite Hid, E3. apply (sim_seen _ _ Hs). by apply (Hrec _ h).
Qed.

Lemma settle_run : settle_outcome (settle_staged m t v).
Proof using All.
  pose proof (wft_amount _ Hw) as Wt. pose proof (amt_nonneg t Hw) as Hpos.
  assert (Refuse : forall v' e, v_seenIDs v' = v_seenIDs v ->
    (forall x, settlement_allowed x t L -> effect_fits x t L -> False) -> settle_outcome (v', Err e)).
  { intros v' e E Hno. right. exists v', e. split; [done|]. split; [|done].
    intros x Ha%allowed_settle. eauto. }
  unfold settle_staged. unfold sbind at 1, sget. pose proof (lookup_hold_run v L (t_ID t) Hs) as LH.
  destruct (l_holds L !! t_ID t) as [h|] eqn:Eh.
  2:{ destruct LH as (e & E). rewrite (bind_Err _ e) by done. apply Refuse; [done|].
      intros x (h & E' & _). congruence. }
  rewrite (bind_Ok _ h) by done. cbv beta.
  destruct (inv_hold _ HI _ _ Eh) as [Hid [Wh Hph Hne _]]. pose proof (wft_amount _ Wh) as Wah.
  assert (Hall : forall x, settlement_allowed x t L <-> (t_Ledger t = 0 \/ t_Ledger t = t_Ledger h)
    /\ if isPost t && negb (amt t =? 0) then amt t <= amt h /\ x = amt t else x = amt h).
  { intros x. unfold settlement_allowed. rewrite Eh. split; [|intros ?; by exists h].
    intros (h' & E & Hv). by injection E as <-. }
  destruct (negb (t_Ledger t =? 0) && negb (t_Ledger t =? t_Ledger h)) eqn:EL.
  { apply Refuse; [done|]. intros x [? _]%Hall _. lia. }
  rewrite IsZero_spec, Cmp_gtb by done. fold (amt t) (amt h).
  destruct (isPost t && negb (amt t =? 0) && (amt h <? amt t)) eqn:EO.
  { apply Refuse; [done|]. intros x [_ Hx]%Hall _. destruct (isPost t && negb (amt t =? 0)); [lia|done]. }
  set (amount := if isPost t && negb (amt t =? 0) then t_Amount t else t_Amount h).
  assert (Wam : wf128 amount) by (unfold amount; case_match; done).
  assert (Hx : forall x, settlement_allowed x t L <-> x = val amount).
  { intros x. rewrite Hall. unfold amount. destruct (isPost t && negb (amt t =? 0)); unfold amt in *.
    - split; [tauto|]. intros ->. repeat split; lia.
    - split; [tauto|]. intros ->. split; [lia|done]. }
  assert (Hle : 0 <= val amount <= amt h).
  { apply (settlement_effect t _ L h HI Hw); [by apply Hx|done]. }
  cbv zeta. rewrite bind_modify. cbv beta.
  destruct (snapshotPending_overlay (t_ID t) v) as [Sv0 R0]. pose proof R0 as [_ Rs0].
  set (v0 := snapshotPending (t_ID t) v) in *.
  assert (Hs0 : sim v0 L) by by apply (sim_overlay v).
  epose proof (two_clones v0 L (t_DebitAccountID h) (t_CreditAccountID h) _ Hs0) as T. cbv zeta in T.
  rewrite <- Hid in Eh. destruct (hold_covered _ _ HI Eh) as (d & c & Ld & Lc & Cd & Cc). rewrite Hid in Eh.
  rewrite Ld, Lc in T. destruct T as (v1 & -> & H1 & R & Ed & Ec). pose proof R as [_ Rs].
  destruct (inv_account _ HI _ _ Ld) as [Id Wd], (inv_account _ HI _ _ Lc) as [Ic Wc].
  pose proof Wd as (D1 & D2 & D3 & D4). pose proof Wc as (C1 & C2 & C3 & C4).
  assert (Hk : forall f g, (forall a, a_ID (f a) = a_ID a) -> (forall a, a_ID (g a) = a_ID a) ->
    keyed (written (t_DebitAccountID h) (t_CreditAccountID h) f g v1)).
  { intros f g. apply keyed_written. by apply (sim_keyed v1 L). }
  assert (Eseen : v_seenIDs v1 = v_seenIDs v) by congruence.
  destruct (Sub_total (a_PendingDebits d) amount) as (x & Sx & Wx & Vx); [done|done|unfold vHD in *; lia|].
  destruct (Sub_total (a_PendingCredits c) amount) as (y & Sy & Wy & Vy); [done|done|unfold vHC in *; lia|].
  pose proof (val_range _ Wx) as Rx. pose proof (val_range _ Wy) as Ry.
  pose proof (val_range _ D1) as V1. pose proof (val_range _ C2) as V4.
  assert (HPc : isPost t = true \/ isPost t = false) by (destruct (isPost t); auto).
  destruct HPc as [HP|HP]; rewrite HP; cbv iota.
  - assert (Heff : effect (val amount) t L
      = (t_DebitAccountID h, t_CreditAccountID h, val amount, - val amount)).
    { unfold effect, hold_of. by rewrite HP, Eh. }
    assert (Hfits : effect_fits (val amount) t L <-> in128 (vPD d + val amount) /\ in128 (vPC c + val amount)).
    { unfold effect_fits. rewrite Heff, (fits_iff _ _ _ _ _ d c) by done.
      unfold in128, vPD, vPC, vHD, vHC in *. split; [tauto|]. intros [? ?]. repeat split; try tauto; lia. }
    rewrite (bind_staged _ d) by done. cbv beta. rewrite (bind_Ok _ x) by (by rewrite Sx). cbv beta.
    destruct (Add_branches (a_PostedDebits d) amount) as [(Fd & x' & Sx' & Wx' & Vx')|(Fd & Sx')]; [done..| |].
    2:{ rewrite (bind_Err _ (ErrBalanceOverflow (a_ID d))) by (by rewrite Sx').
        apply Refuse; [done|]. intros z ->%Hx [? _]%Hfits. done. }
    rewrite (bind_Ok _ x') by (by rewrite Sx'). cbv beta. rewrite !bind_upd. cbv beta.
    match goal with |- context [sbind (staged_at _) _ ?w] => set (v2 := w) end.
    assert (E2 : v_staged v2 = alter (set_PostedDebits x' ∘ set_PendingDebits x) (t_DebitAccountID h) (v_staged v1)).
    { unfold v2. simpl. by rewrite alter_alter_eq. }
    rewrite (bind_staged _ c) by (by rewrite E2, lookup_alter_ne). cbv beta.
    rewrite (bind_Ok _ y) by (by rewrite Sy). cbv beta.
    destruct (Add_branches (a_PostedCredits c) amount) as [(Fc & y' & Sy' & Wy' & Vy')|(Fc & Sy')]; [done..| |].
    2:{ rewrite (bind_Err _ (ErrBalanceOverflow (a_ID c))) by (by rewrite Sy').
        apply Refuse; [done|]. intros z ->%Hx [_ ?]%Hfits. done. }
    rewrite (bind_Ok _ y') by (by rewrite Sy'). cbv beta. rewrite !bind_upd. cbv beta.
    match goal with |- context [sbind (restage _) _ ?w] => set (v3 := w) end.
    assert (E3 : v3 = written (t_DebitAccountID h) (t_CreditAccountID h)
      (set_PostedDebits x' ∘ set_PendingDebits x) (set_PostedCredits y' ∘ set_PendingCredits y) v1).
    { unfold v3, v2, written. simpl. by rewrite !alter_alter_eq. }
    rewrite E3. rewrite !bind_restage by (by apply Hk). cbv beta.
    left. exists (val amount). split; [by apply allowed_settle, Hx|]. split; [by apply Hfits|].
    rewrite Cmp_eqb by done. fold (amt h).
    destruct (Sub_total (t_Amount h) amount) as (z & Sz & Wz & Vz); [done|done|unfold amt in *; lia|].
    rewrite Sz. cbv zeta.
    set (st := if amt h =? val amount then mkPendingState zeroTransfer true
               else mkPendingState (set_Amount z h) false).
    destruct (settle_write v1 h d c (set_PostedDebits x' ∘ set_PendingDebits x)
      (set_PostedCredits y' ∘ set_PendingCredits y) (val amount) (val amount) st H1 R Eh Hne Ed Ec)
      as [S1 S2]; [..|eexists; split; [|split; [exact S1|exact S2]]].
    + shift_eq_debit x' x.
    + shift_eq_credit y' y.
    + exact Heff.
    + unfold st. destruct (amt h =? val amount); [done|]. by rewrite (of_Z_eq z).
    + unfold holds_after. by rewrite HP.
    + unfold st. destruct (amt h =? val amount); reflexivity.
  - assert (HV : isVoid t = true) by (by rewrite HP in HS).
    assert (Eam : amount = t_Amount h) by (unfold amount; by rewrite HP).
    assert (Heff : effect (val amount) t L
      = (t_DebitAccountID h, t_CreditAccountID h, 0, - val amount)).
    { unfold effect, hold_of. rewrite HP, HV, Eh, Eam. done. }
    rewrite (bind_staged _ d) by done. cbv beta. rewrite (bind_Ok _ x) by (by rewrite <- Eam, Sx). cbv beta.
    rewrite bind_upd. cbv beta.
    match goal with |- context [sbind (staged_at _) _ ?w] => set (v2 := w) end.
    rewrite (bind_staged _ c) by (unfold v2; simpl; by rewrite lookup_alter_ne). cbv beta.
    rewrite (bind_Ok _ y) by (by rewrite <- Eam, Sy). cbv beta. rewrite bind_upd. cbv beta.
    match goal with |- context [sbind (restage _) _ ?w] => set (v3 := w) end.
    assert (E3 : v3 = written (t_DebitAccountID h) (t_CreditAccountID h)
      (set_PendingDebits x) (set_PendingCredits y) v1) by done.
    rewrite E3. rewrite !bind_restage by (by apply Hk). cbv beta.
    left. exists (val amount). split; [by apply allowed_settle, Hx|]. split.
    { unfold effect_fits. rewrite Heff, (fits_iff _ _ _ _ _ d c) by done.
      unfold in128, vPD, vPC, vHD, vHC in *. repeat split; lia. }
    destruct (settle_write v1 h d c (set_PendingDebits x) (set_PendingCredits y) (val amount) 0
      (mkPendingState zeroTransfer true) H1 R Eh Hne Ed Ec)
      as [S1 S2]; [..|eexists; split; [reflexivity|split; [exact S1|exact S2]]].
    + shift_eq_debit (a_PostedDebits d) x.
    + shift_eq_credit (a_PostedCredits c) y.
    + exact Heff.
    + rewrite Eam. fold (amt h). by rewrite Z.eqb_refl.
    + unfold holds_after. rewrite HP, HV, Eam. by rewrite (settle_all _ _ h).
Qed.
End Settle.

Lemma claim_sim v L id i : sim v L -> sim (set_seenIDs (<[id := i]> (v_seenIDs v)) v) L.
Proof using.
  intros [Ha Hh Hi]. constructor; try done. intros k Hk. destruct (Hi k Hk) as [?|Hsome]; [by left|right].
  simpl. destruct (decide (id = k)) as [<-|]; [rewrite lookup_insert_eq; by eexists|].
  by rewrite lookup_insert_ne.
Qed.

Lemma validate_spec t i v L : sim v L -> inv L -> holds_recorded L -> wf_transfer t ->
  event_spec t i v L.
Proof using Hg.
  intros Hs HI Hrec Hw. unfold event_spec, accepts, new_id, seen_after, is_settlement, validateAndApply.
  assert (Hfl : flags_invalid t = negb (Z.ldiff (t_Flags t) knownFlags =? 0)
    || (isPost t && (isPending t || isVoid t) || isVoid t && isPending t)) by done.
  destruct (negb (Z.ldiff (t_Flags t) knownFlags =? 0)).
  { rewrite Hfl. right. do 2 eexists. split; [reflexivity|]. split; [|done]. intros x ((Hf & _) & _). by rewrite Hfl in Hf. }
  destruct (isPost t && (isPending t || isVoid t) || isVoid t && isPending t).
  { rewrite Hfl. right. do 2 eexists. split; [reflexivity|]. split; [|done]. intros x ((Hf & _) & _). by rewrite Hfl in Hf. }
  simpl in Hfl. rewrite Hfl. assert (HS : isPost t || isVoid t = true \/ isPost t || isVoid t = false)
    by (destruct (isPost t || isVoid t); auto).
  destruct HS as [HS|HS]; rewrite HS.
  - destruct (settle_run t v L Hs HI Hrec Hw Hfl HS) as [(x & Ha & Hf & v' & -> & H' & E)|(v' & e & -> & Hno & E)].
    + left. by exists x, v'.
    + right. exists e, v'. split; [done|]. split; [|done]. intros x (? & ? & _). eauto.
  - apply orb_false_iff in HS as [HP HV].
    unfold claim_id, sbind, sget, sfail, smodify, GetTransfer.
    destruct (v_seenIDs v !! t_ID t) as [j|] eqn:Es.
    { right. do 2 eexists. split; [reflexivity|]. split; [|done]. intros x (_ & _ & Hn). by destruct (Hn eq_refl). }
    destruct (m_transfers m !! t_ID t) as [j|] eqn:Et.
    { right. do 2 eexists. split; [reflexivity|]. split; [|done]. intros x (_ & _ & Hn). by destruct (Hn eq_refl). }
    set (v1 := set_seenIDs _ v).
    assert (Hsn : is_Some (v_seenIDs v1 !! t_ID t)) by (simpl; rewrite lookup_insert_eq; by eexists).
    destruct (post_run t v1 L (claim_sim _ _ _ _ Hs) HI Hw Hfl HP HV Hsn)
      as [(Ha & Hf & v' & -> & H' & E)|(v' & e & -> & Hno & E)].
    + left. by exists 0, v'.
    + right. exists e, v'. split; [done|]. split; [intros x (? & ? & _); eauto|]. done.
Qed.
End Sim.
