(* ===== verification/TransfersProps.v ===== *)
(** * Properties of batch validation

    [decided] states what a batch is to do, chain by chain: a maximal linked
    chain commits as a whole or is refused as a whole, and it is refused
    exactly when the ledger refuses one of its events, the event's ID was used
    by an earlier event of the batch (accepted or not), or its end is missing.
    [ValidateBatch] decides batches this way, and applying what it accepted
    cannot fail. *)

From S2P Require Import Prelude Core Uint128 Balance Expiry Accounts LedgerSpec AccountsRefine AccountsProps.
From S2P Require Import Transfers TransfersRefine.

(** A sequence of events the ledger accepts one after the other. *)
Inductive spec_runs : Ledger -> list Transfer -> Ledger -> Prop :=
| runs_nil L : spec_runs L [] L
| runs_cons x t ts L L' : wf_transfer t -> allowed x t L -> effect_fits x t L ->
    (is_settlement t = false -> l_transfers L !! t_ID t = None) ->
    spec_runs (spec_apply x t L) ts L' -> spec_runs L (t :: ts) L'.

(** The accepted events of a batch. *)
Fixpoint accepted (events : list Transfer) (outcomes : list (option error)) : list Transfer :=
  match events, outcomes with
  | t :: events, None :: outcomes => t :: accepted events outcomes
  | _ :: events, Some _ :: outcomes => accepted events outcomes
  | _, _ => []
  end.

Section Decided.
Context (m : AccountManager) (events : list Transfer).

Definition linked_at (k : nat) : bool :=
  match events !! k with Some t => isLinked t | None => false end.

(** [a..b] is a maximal chain starting at [a]. *)
Definition chain_at (a b : nat) : Prop :=
  (a <= b < length events)%nat /\ (forall k, (a <= k < b)%nat -> linked_at k = true)
  /\ (linked_at b = false \/ b = (length events - 1)%nat).

(** The ledger [L] takes the event, [x] being the amount a settlement moves,
    and its ID is new: neither of the history nor in [S], the IDs used by the
    batch so far. *)
Definition takes (x : Z) (t : Transfer) (L : Ledger) (S : gset ID) : Prop :=
  allowed x t L /\ effect_fits x t L
  /\ (is_settlement t = false -> m_transfers m !! t_ID t = None /\ t_ID t ∉ S).

(** An examined event uses its ID, whether it is accepted or not; settlements
    and events with invalid flags use none. *)
Definition examined (t : Transfer) (S : gset ID) : gset ID :=
  if flags_invalid t || is_settlement t then S else {[t_ID t]} ∪ S.

Inductive goes : Ledger -> gset ID -> list Transfer -> Ledger -> gset ID -> Prop :=
| goes_nil L S : goes L S [] L S
| goes_cons x t ts L S L' S' : takes x t L S ->
    goes (spec_apply x t L) (examined t S) ts L' S' -> goes L S (t :: ts) L' S'.

(** The outcomes of the chain [a..b] that fails at [i] with [e]. *)
Definition chain_failed (a b i : nat) (t : Transfer) (e : error) : list (option error) :=
  (fun k => Some (if (k =? i)%nat then e else ErrLinkedChainFailed (t_ID t) i e)) <$> seq a (S b - a).

(** What becomes of the chain [a..b] in the state [L], [S]: it commits; it is
    refused at the first event the ledger does not take; or the ledger takes
    all its events, and its end is missing. *)
Inductive chain_decided (a b : nat) (L : Ledger) (S : gset ID) :
    list (option error) -> Ledger -> gset ID -> Prop :=
| chain_commits L' S' : linked_at b = false -> goes L S (slice a (Datatypes.S b) events) L' S' ->
    chain_decided a b L S (replicate (Datatypes.S b - a) None) L' S'
| chain_refused i t e L' S' : (a <= i <= b)%nat -> events !! i = Some t ->
    goes L S (slice a i events) L' S' -> (forall x, ~ takes x t L' S') ->
    chain_decided a b L S (chain_failed a b i t e) L (examined t S')
| chain_left_open t L' S' : linked_at b = true -> events !! b = Some t ->
    goes L S (slice a (Datatypes.S b) events) L' S' ->
    chain_decided a b L S (chain_failed a b b t (ErrLinkedChainOpen (t_ID t) b)) L S'.

Inductive decided : nat -> list (option error) -> Ledger -> gset ID -> Prop :=
| dec_nil : decided 0 [] (abs m) ∅
| dec_chain a b outs L S outs' L' S' : decided a outs L S -> chain_at a b ->
    chain_decided a b L S outs' L' S' -> decided (Datatypes.S b) (outs ++ outs') L' S'.
End Decided.

(** ** Runs *)

Lemma runs_app L1 ts1 L2 ts2 L3 : spec_runs L1 ts1 L2 -> spec_runs L2 ts2 L3 ->
  spec_runs L1 (ts1 ++ ts2) L3.
Proof. induction 1; intros; simpl; [done|]. econstructor; eauto. Qed.

Lemma runs_one x t L : wf_transfer t -> allowed x t L -> effect_fits x t L ->
  (is_settlement t = false -> l_transfers L !! t_ID t = None) -> spec_runs L [t] (spec_apply x t L).
Proof. intros. econstructor; eauto. constructor. Qed.

Lemma fresh_of_new t L : flags_invalid t = false -> holds_recorded L ->
  (is_settlement t = false -> l_transfers L !! t_ID t = None) -> fresh_hold t L.
Proof.
  intros Hfl Hrec Hn HH. unfold is_settlement in Hn. destruct (flags_ok t Hfl) as [F1 F2].
  assert (isPost t || isVoid t = false) as HS.
  { destruct (isPost t); [by destruct (F1 eq_refl) as [? _]; congruence|].
    destruct (isVoid t); [|done]. specialize (F2 eq_refl). congruence. }
  specialize (Hn HS). destruct (l_holds L !! t_ID t) as [h|] eqn:E; [|done].
  destruct (Hrec _ _ E) as [? ?]. congruence.
Qed.

Lemma recorded_id t L : t_ID (recorded t L) = t_ID t.
Proof. unfold recorded, fill_from. by repeat case_match. Qed.

Lemma apply_recorded x t L : holds_recorded L -> holds_recorded (spec_apply x t L).
Proof.
  intros Hrec id h. unfold spec_apply. destruct (effect x t L) as [[[dr cr] p] q].
  cbn [spec_record spec_move l_holds l_transfers]. rewrite recorded_id. intros E.
  destruct (decide (t_ID t = id)) as [<-|Hne]; [rewrite lookup_insert_eq; by eexists|].
  rewrite lookup_insert_ne by done. apply (Hrec id h). revert E. unfold holds_after, settle.
  repeat case_match; rewrite ?lookup_delete_ne, ?lookup_insert_ne by done; done.
Qed.

Lemma runs_inv L ts L' : spec_runs L ts L' -> inv L -> holds_recorded L -> inv L' /\ holds_recorded L'.
Proof.
  induction 1 as [|x t ts L L' Hw Ha Hf Hn _ IH]; [done|]. intros HI Hrec. apply IH.
  - apply inv_apply; try done. eapply fresh_of_new; [by destruct Ha|done|done].
  - by apply apply_recorded.
Qed.

(** ** Chain bounds *)

Lemma scan_linked_spec events fuel i : (i <= length events)%nat -> (length events - i <= fuel)%nat ->
  let e := scan_linked fuel events i in
  (i <= e <= length events)%nat /\ (forall k, (i <= k < e)%nat -> linked_at events k = true)
  /\ linked_at events e = false.
Proof.
  revert i. induction fuel as [|fuel IH]; intros i Hi Hf; simpl.
  - split; [lia|]. split; [lia|]. unfold linked_at. rewrite lookup_ge_None_2 by lia. done.
  - destruct (events !! i) as [t|] eqn:E.
    + destruct (isLinked t) eqn:EL.
      * pose proof (lookup_lt_Some _ _ _ E). destruct (IH (S i)) as (H1 & H2 & H3); [lia|lia|].
        split; [lia|]. split; [|done]. intros k Hk. destruct (decide (k = i)) as [->|].
        -- unfold linked_at. by rewrite E.
        -- apply H2. lia.
      * split; [lia|]. split; [lia|]. unfold linked_at. by rewrite E.
    + split; [lia|]. split; [lia|]. unfold linked_at. by rewrite E.
Qed.

Lemma chain_end_spec events a i : (a <= i < length events)%nat ->
  (forall k, (a <= k < i)%nat -> linked_at events k = true) ->
  (i <= chain_end events i)%nat /\ chain_at events a (chain_end events i).
Proof.
  intros Hi Hl. unfold chain_end.
  destruct (scan_linked_spec events (length events) i) as (H1 & H2 & H3); [lia|lia|].
  set (e := scan_linked _ _ _) in *. destruct (Nat.leb_spec (length events) e).
  - split; [lia|]. split; [lia|]. split; [|by right]. intros k Hk.
    destruct (decide (k < i)%nat); [apply Hl; lia|apply H2; lia].
  - split; [lia|]. split; [lia|]. split; [|by left]. intros k Hk.
    destruct (decide (k < i)%nat); [apply Hl; lia|apply H2; lia].
Qed.

Lemma lookup_fail_others lo hi i x outs k : fail_others lo hi i x outs !! k =
  (fun o => if (lo <=? k)%nat && (k <=? hi)%nat && negb (k =? i)%nat then Some x else o) <$> outs !! k.
Proof. unfold fail_others. by rewrite list_lookup_imap. Qed.

Lemma clear_range_id lo hi (outs : list (option error)) :
  (forall k, (lo <= k <= hi)%nat -> (k < length outs)%nat -> outs !! k = Some None) ->
  clear_range lo hi outs = outs.
Proof.
  intros H. apply list_eq. intros k. unfold clear_range. rewrite list_lookup_imap.
  destruct (outs !! k) as [o|] eqn:E; [|done]. simpl. f_equal.
  destruct (Nat.leb_spec lo k), (Nat.leb_spec k hi); simpl; try done.
  specialize (H k ltac:(lia) (lookup_lt_Some _ _ _ E)). congruence.
Qed.

(** ** Going through a chain *)

Lemma chain_failed_refused a b i t e : Forall is_Some (chain_failed a b i t e)
  /\ length (chain_failed a b i t e) = (S b - a)%nat.
Proof.
  unfold chain_failed. rewrite length_fmap, length_seq. split; [|done].
  apply Forall_fmap, Forall_forall. intros k _. by eexists.
Qed.

Lemma examined_grows t S : S ⊆ examined t S.
Proof. unfold examined. case_match; set_solver. Qed.

Section Goes.
Context (m : AccountManager).

Lemma goes_app L1 S1 ts1 L2 S2 ts2 L3 S3 : goes m L1 S1 ts1 L2 S2 -> goes m L2 S2 ts2 L3 S3 ->
  goes m L1 S1 (ts1 ++ ts2) L3 S3.
Proof using. induction 1; intros; simpl; [done|]. econstructor; eauto. Qed.

Lemma goes_one x t L S : takes m x t L S -> goes m L S [t] (spec_apply x t L) (examined t S).
Proof using. intros. econstructor; eauto. constructor. Qed.

(** What the ledger has recorded is the history and IDs the batch used. *)
Definition recorded_in (L : Ledger) (S : gset ID) : Prop :=
  forall id, is_Some (l_transfers L !! id) -> is_Some (m_transfers m !! id) \/ id ∈ S.

Lemma takes_new x t L S : takes m x t L S -> recorded_in L S ->
  is_settlement t = false -> l_transfers L !! t_ID t = None.
Proof using.
  intros (_ & _ & Hn) HR HS. destruct (Hn HS) as [N1 N2].
  destruct (l_transfers L !! t_ID t) eqn:E; [|done].
  destruct (HR (t_ID t)) as [[? ?]|?]; [by eexists|congruence|done].
Qed.

Lemma takes_recorded x t L S : takes m x t L S -> holds_recorded L -> recorded_in L S ->
  recorded_in (spec_apply x t L) (examined t S).
Proof using.
  intros ((Hfl & Ha) & _ & _) Hrec HR id. unfold spec_apply. destruct (effect x t L) as [[[dr cr] p] q].
  cbn [spec_record spec_move l_transfers]. rewrite recorded_id.
  pose proof (examined_grows t S) as HSub.
  destruct (decide (t_ID t = id)) as [<-|Hne].
  - intros _. unfold examined. rewrite Hfl. simpl. destruct (is_settlement t) eqn:HS; [|set_solver].
    unfold is_settlement in HS. rewrite HS in Ha. destruct Ha as (h & Eh & _).
    apply HR. by eapply Hrec.
  - rewrite lookup_insert_ne by done. intros [?|?]%HR; [by left|right; set_solver].
Qed.

Lemma goes_inv L S ts L' S' : goes m L S ts L' S' -> Forall wf_transfer ts ->
  inv L -> holds_recorded L -> recorded_in L S ->
  inv L' /\ holds_recorded L' /\ recorded_in L' S' /\ spec_runs L ts L'.
Proof using.
  induction 1 as [|x t ts L S L' S' Ht _ IH]; intros Hw HI Hrec HR; [split_and!; (done || constructor)|].
  apply Forall_cons in Hw as [Hw Hws]. pose proof (takes_new _ _ _ _ Ht HR) as Hn.
  pose proof Ht as (Ha & Hf & _).
  destruct IH as (? & ? & ? & ?); [done| | |by apply takes_recorded|].
  - apply inv_apply; try done. eapply fresh_of_new; [by destruct Ha|done|done].
  - by apply apply_recorded.
  - split_and!; try done. econstructor; eauto.
Qed.

Lemma goes_grows L S ts L' S' : goes m L S ts L' S' -> S ⊆ S'.
Proof using.
  induction 1 as [|x t ts L S L' S' _ _ IH]; [done|]. pose proof (examined_grows t S). set_solver.
Qed.

(** The amount a settlement moves is determined. *)
Lemma allowed_amount x y t L : allowed x t L -> allowed y t L -> x = y.
Proof using.
  unfold allowed. intros [_ Hx] [_ Hy]. destruct (isPost t || isVoid t); [|by destruct Hx, Hy; subst].
  destruct Hx as (h & E & _ & Hx), Hy as (h' & E' & _ & Hy). rewrite E in E'. injection E' as <-.
  destruct (isPost t && negb (amt t =? 0)); [destruct Hx, Hy|]; congruence.
Qed.

Lemma goes_fun L S ts L1 S1 L2 S2 : goes m L S ts L1 S1 -> goes m L S ts L2 S2 -> L1 = L2 /\ S1 = S2.
Proof using.
  intros H. revert L2 S2. induction H as [|x t ts L S L1 S1 Ht _ IH]; intros L2 S2 H2.
  - by inversion H2.
  - inversion H2 as [|y t' ts' L' S' L'' S'' Hy Hgo]; subst.
    assert (x = y) as <- by (eapply allowed_amount; [apply Ht|apply Hy]). by apply IH.
Qed.

Lemma goes_split L S ts1 ts2 L' S' : goes m L S (ts1 ++ ts2) L' S' ->
  exists L1 S1, goes m L S ts1 L1 S1 /\ goes m L1 S1 ts2 L' S'.
Proof using.
  revert L S. induction ts1 as [|t ts1 IH]; intros L S H; simpl in H; [exists L, S; by repeat constructor|].
  inversion H as [|x t' ts' L1 S1 L'' S'' Hx Hgo]; subst. destruct (IH _ _ Hgo) as (L1 & S1 & H1 & H2).
  exists L1, S1. split; [by econstructor|done].
Qed.
End Goes.

(** ** The loop *)

Section Loop.
Context (m : AccountManager) (events : list Transfer).
Context (Hg : good m) (Hr : holds_recorded (abs m)) (Hw : Forall wf_transfer events).

Lemma wf_slice a b : Forall wf_transfer (slice a b events).
Proof using Hw. unfold slice. by apply Forall_take, Forall_drop. Qed.

(** The ledger of a chain's end, its IDs, and its accepted events. *)
Lemma chain_inv_ok a b outs L S L' S' : chain_decided m events a b L S outs L' S' ->
  inv L -> holds_recorded L -> recorded_in m L S ->
  inv L' /\ holds_recorded L' /\ recorded_in m L' S' /\ length outs = (Datatypes.S b - a)%nat
  /\ (outs = replicate (Datatypes.S b - a) None /\ spec_runs L (slice a (Datatypes.S b) events) L'
      \/ Forall is_Some outs /\ L' = L).
Proof using Hw.
  clear Hg Hr. intros [L1 S1 _ Hgo|i t e L1 S1 Hi Ht Hgo _|t L1 S1 _ Ht Hgo] HI HR HS.
  1: { destruct (goes_inv _ _ _ _ _ _ Hgo (wf_slice _ _) HI HR HS) as (? & ? & ? & ?).
       rewrite length_replicate. split_and!; try done. by left. }
  all: match goal with |- context [chain_failed ?a ?b ?i ?t ?e] =>
    destruct (chain_failed_refused a b i t e) as [? ?] end; pose proof (goes_grows _ _ _ _ _ _ Hgo).
  all: split_and!; try done; [|by right]; intros id [?|?]%HS; [by left|right].
  - pose proof (examined_grows t S1). set_solver.
  - set_solver.
Qed.

Lemma decided_inv a outs L S : decided m events a outs L S ->
  inv L /\ holds_recorded L /\ length outs = a /\ (a <= length events)%nat /\ recorded_in m L S.
Proof using Hg Hr Hw.
  induction 1 as [|a b outs L S outs' L' S' _ (HI & HR & Hl & Ha & HS) [Hb _] Hch].
  - split_and!; [apply Hg|done|done|simpl; lia|by left].
  - destruct (chain_inv_ok _ _ _ _ _ _ _ Hch HI HR HS) as (? & ? & ? & ? & _).
    rewrite length_app. split_and!; (done || lia).
Qed.

(** The chain in progress started from an overlay of [L0]. *)
Definition chain_base (v : batchValidator) (L0 : Ledger) : Prop :=
  exists v0, sim m v0 L0 /\ keyed v0 /\ chain_inv (v_staged v0) (v_pending v0) v
    /\ forall id, is_Some (v_seenIDs v0 !! id) -> is_Some (v_seenIDs v !! id).

(** [v.seenIDs] holds the IDs the batch used, those of the history apart. *)
Definition used (v : batchValidator) (S : gset ID) : Prop :=
  forall id, m_transfers m !! id = None -> (id ∈ S <-> is_Some (v_seenIDs v !! id)).

Record loop_inv (v : batchValidator) (outs : list (option error)) (cs i : nat) : Prop := {
  li_bounds : (cs <= i <= length events)%nat /\ length outs = length events;
  li_end : (i < length events)%nat \/ cs = i;
  li_open : forall k, (cs <= k < length events)%nat -> outs !! k = Some None;
  li_linked : forall k, (cs <= k < i)%nat -> linked_at events k = true;
  li_keyed : keyed v;
  li_ledger : exists L0 S0 L S, decided m events cs (take cs outs) L0 S0 /\ goes m L0 S0 (slice cs i events) L S
    /\ sim m v L /\ used v S /\ (i = cs \/ chain_base v L0) }.

Lemma slice_snoc (a i : nat) t : (a <= i)%nat -> events !! i = Some t ->
  slice a (S i) events = slice a i events ++ [t].
Proof using.
  intros Ha E. unfold slice. pose proof (lookup_lt_Some _ _ _ E).
  replace (S i - a)%nat with (S (i - a)) by lia.
  rewrite (take_S_r _ _ t); [done|]. rewrite lookup_drop. by replace (a + (i - a))%nat with i by lia.
Qed.

Lemma rollback_base v L0 : chain_base v L0 -> sim m (rollbackChain v) L0 /\ keyed (rollbackChain v)
  /\ v_seenIDs (rollbackChain v) = v_seenIDs v.
Proof using.
  intros (v0 & [Ha Hh Hs] & Hk & Hc & Hsn).
  destruct (rollback_restores _ _ _ Hc) as (E1 & E2 & E3). split; [|split; [|done]].
  - constructor; unfold ov_account; rewrite ?E1, ?E2, ?E3; try done.
    intros id Hid. destruct (Hs id Hid); auto.
  - intros id a. rewrite E1. apply Hk.
Qed.

Lemma beginChain_base v L : sim m v L -> keyed v -> sim m (beginChain v) L /\ chain_base (beginChain v) L.
Proof using.
  intros Hs Hk. split; [by destruct Hs|]. exists v. split; [done|]. split; [done|].
  split; [apply chain_inv_begin|done].
Qed.

Lemma outs_split (outs : list (option error)) (a b : nat) : (a <= b < length outs)%nat ->
  outs = take a outs ++ slice a (S b) outs ++ drop (S b) outs.
Proof using.
  intros Hab. unfold slice. rewrite <- (take_drop a outs) at 1. f_equal.
  rewrite <- (take_drop (S b - a) (drop a outs)) at 1. f_equal. rewrite drop_drop. f_equal. lia.
Qed.

(** Recording a failure fills the chain [cs..e] and nothing else. *)
Lemma fail_chain (outs : list (option error)) cs e i x t : (cs <= i <= e)%nat -> (e < length outs)%nat ->
  let y := ErrLinkedChainFailed (t_ID t) i x in
  let outs' := fail_others cs e i y (<[i := Some x]> outs) in
  take cs outs' = take cs outs /\ drop (S e) outs' = drop (S e) outs
  /\ slice cs (S e) outs' = chain_failed cs e i t x /\ length outs' = length outs.
Proof using.
  intros Hi He y outs'.
  assert (Hl : length outs' = length outs) by (unfold outs', fail_others; by rewrite length_imap, length_insert).
  assert (Hk : forall k, outs' !! k = if (cs <=? k)%nat && (k <=? e)%nat && negb (k =? i)%nat
    then (fun _ => Some y) <$> outs !! k else <[i := Some x]> outs !! k).
  { intros k. unfold outs'. rewrite lookup_fail_others. destruct (Nat.eqb_spec k i) as [->|Hne].
    - rewrite andb_false_r. by destruct (<[i := Some x]> outs !! i).
    - rewrite list_lookup_insert_ne by done.
      destruct ((cs <=? k)%nat && (k <=? e)%nat && negb false); [done|by destruct (outs !! k)]. }
  split; [|split; [|split; [|done]]].
  - apply list_eq. intros k. destruct (decide (k < cs)%nat) as [Hc|Hc].
    + rewrite !lookup_take_lt, Hk by done. rewrite (proj2 (Nat.leb_gt _ _)) by done. simpl.
      apply list_lookup_insert_ne. lia.
    + rewrite !lookup_take_ge by lia. done.
  - apply list_eq. intros k. rewrite !lookup_drop, Hk.
    rewrite (proj2 (Nat.leb_gt _ e)), andb_false_r by lia. simpl. apply list_lookup_insert_ne. lia.
  - apply list_eq. intros k. unfold slice, chain_failed. rewrite list_lookup_fmap.
    destruct (decide (k < S e - cs)%nat) as [Hlt|Hge].
    + rewrite lookup_take_lt, lookup_drop, Hk, lookup_seq_lt by done. simpl.
      destruct (Nat.leb_spec cs (cs + k)), (Nat.leb_spec (cs + k) e); try lia. simpl.
      destruct (Nat.eqb_spec (cs + k) i) as [Heq|Hne]; simpl.
      * by rewrite Heq, list_lookup_insert_eq by lia.
      * destruct (lookup_lt_is_Some_2 outs (cs + k)) as [o Eo]; [lia|]. by rewrite Eo.
    + rewrite lookup_take_ge by lia. by rewrite lookup_seq_ge by lia.
Qed.

(** The chain is refused: the state for the next one. *)
Lemma refuse_chain v v' outs cs i e x t L0 S0 S' : loop_inv v outs cs i -> (i < length events)%nat ->
  decided m events cs (take cs outs) L0 S0 -> chain_base v' L0 -> chain_at events cs e -> (i <= e)%nat ->
  used v' S' ->
  let outs' := fail_others cs e i (ErrLinkedChainFailed (t_ID t) i x) (<[i := Some x]> outs) in
  (decided m events (S e) (take cs outs ++ chain_failed cs e i t x) L0 S') ->
  loop_inv (rollbackChain v') outs' (S e) (S e) /\ decided m events (S e) (take (S e) outs') L0 S'.
Proof using.
  intros [[Hb Hl] _ Ho _ _ _] Hin Hdec Hbase Hch Hie Hu outs' Hwhy.
  destruct Hch as (Hce & _ & _).
  destruct (fail_chain outs cs e i x t) as (F1 & F2 & F3 & F4); [lia|lia|]. fold outs' in F1, F2, F3, F4.
  assert (Et : take (S e) outs' = take cs outs ++ chain_failed cs e i t x).
  { rewrite (outs_split outs' cs e) at 1 by lia. rewrite F1, F3, app_assoc. apply take_app_length'.
    rewrite length_app, length_take, (proj2 (chain_failed_refused _ _ _ _ _)). lia. }
  rewrite Et. split; [|done]. destruct (rollback_base v' L0 Hbase) as (Hs & Hk & Hsn). constructor; try done.
  - split; [lia|]. by rewrite F4.
  - by right.
  - intros k Hk'. assert (E : drop (S e) outs' !! (k - S e)%nat = drop (S e) outs !! (k - S e)%nat)
      by (by rewrite F2).
    rewrite !lookup_drop in E. replace (S e + (k - S e))%nat with k in E by lia. rewrite E. apply Ho. lia.
  - intros k Hk'. lia.
  - exists L0, S', L0, S'. rewrite Et. split; [done|]. split; [|split; [done|split; [|by left]]].
    + unfold slice. rewrite Nat.sub_diag. constructor.
    + intros id Hid. rewrite Hsn. by apply Hu.
Qed.

(** The batch uses the IDs of the events it examines. *)
Lemma used_after t i v v' S : used v S -> v_seenIDs v' = seen_after m t i (v_seenIDs v) ->
  used v' (examined t S).
Proof using.
  intros Hu E id Hid. rewrite E. unfold examined, seen_after.
  destruct (flags_invalid t || is_settlement t); [by apply Hu|]. rewrite elem_of_union, elem_of_singleton.
  specialize (Hu id Hid). destruct (decide (t_ID t = id)) as [Heq|Hne].
  - rewrite Heq, Hid. split; [intros _|by left].
    destruct (v_seenIDs v !! id) eqn:Ev; [by eexists|rewrite lookup_insert_eq; by eexists].
  - transitivity (id ∈ S); [naive_solver|]. rewrite Hu.
    by destruct (v_seenIDs v !! t_ID t), (m_transfers m !! t_ID t); rewrite ?lookup_insert_ne by done.
Qed.

Lemma takes_accepts x t v L S : used v S -> takes m x t L S <-> accepts m t v L x.
Proof using.
  intros Hu. unfold takes, accepts, new_id. split; intros (? & ? & Hn); (split; [done|]; split; [done|]);
    intros HS; destruct (Hn HS) as [N1 N2]; specialize (Hu (t_ID t)).
  - split; [|done]. destruct (v_seenIDs v !! t_ID t) eqn:E; [|done]. destruct N2. apply Hu; [done|by eexists].
  - split; [done|]. intros [? ?]%Hu; [congruence|done].
Qed.

Lemma seen_grows (S : gmap ID nat) k i id : is_Some (S !! id) -> is_Some (<[k := i]> S !! id).
Proof using.
  intros ?. destruct (decide (k = id)) as [<-|]; [rewrite lookup_insert_eq; by eexists|].
  by rewrite lookup_insert_ne.
Qed.

Lemma seen_after_grows t i seen id : is_Some (seen !! id) -> is_Some (seen_after m t i seen !! id).
Proof using. intros ?. unfold seen_after. repeat case_match; by try apply seen_grows. Qed.

Definition loop_step (fuel : nat) : Prop := forall v outs cs i,
  loop_inv v outs cs i -> (length events - i <= fuel)%nat ->
  exists L S, decided m events (length events) (ValidateBatch_loop m fuel events v outs cs i) L S.

Lemma refuse_step fuel v v2 outs cs i t e L0 S0 L S : loop_step fuel -> loop_inv v outs cs i ->
  (length events - i <= Datatypes.S fuel)%nat -> events !! i = Some t ->
  decided m events cs (take cs outs) L0 S0 -> goes m L0 S0 (slice cs i events) L S ->
  chain_base v2 L0 -> (forall x, ~ takes m x t L S) -> used v2 (examined t S) ->
  exists L' S', decided m events (length events)
    (ValidateBatch_loop m fuel events (rollbackChain v2)
       (fail_others cs (chain_end events i) i (ErrLinkedChainFailed (t_ID t) i e) (<[i := Some e]> outs))
       (Datatypes.S (chain_end events i)) (Datatypes.S (chain_end events i))) L' S'.
Proof using.
  intros IH HL Hf Et Hd Hgo Hbase Hno Hu. pose proof HL as [[Hb Hl] _ Ho Hlk _ _].
  pose proof (lookup_lt_Some _ _ _ Et) as Hin.
  destruct (chain_end_spec events cs i) as [Hie Hch]; [lia|done|].
  destruct (refuse_chain v v2 outs cs i (chain_end events i) e t L0 S0 (examined t S))
    as [HL' _]; try done.
  - eapply dec_chain; try done. eapply chain_refused; try done. lia.
  - apply (IH _ _ _ _ HL'). lia.
Qed.

Lemma commit_step fuel v v2 outs cs i t x L0 S0 L S : loop_step fuel -> loop_inv v outs cs i ->
  (length events - i <= Datatypes.S fuel)%nat -> events !! i = Some t ->
  decided m events cs (take cs outs) L0 S0 -> goes m L0 S0 (slice cs i events) L S ->
  chain_base v2 L0 -> keyed v2 -> takes m x t L S -> sim m v2 (spec_apply x t L) -> used v2 (examined t S) ->
  exists L' S', decided m events (length events)
    (if negb (isLinked t) then
       ValidateBatch_loop m fuel events v2 (clear_range cs i outs) (Datatypes.S i) (Datatypes.S i)
     else if (i =? length events - 1)%nat then
       fail_others cs (i - 1) i (ErrLinkedChainFailed (t_ID t) i (ErrLinkedChainOpen (t_ID t) i))
         (<[i := Some (ErrLinkedChainOpen (t_ID t) i)]> outs)
     else ValidateBatch_loop m fuel events v2 outs cs (Datatypes.S i)) L' S'.
Proof using.
  intros IH HL Hf Et Hd Hgo Hbase Hk2 Hx Hs2 Hu2.
  pose proof HL as [[Hb Hl] _ Ho Hlk _ _]. pose proof (lookup_lt_Some _ _ _ Et) as Hin.
  assert (Hgo' : goes m L0 S0 (slice cs (Datatypes.S i) events) (spec_apply x t L) (examined t S)).
  { rewrite (slice_snoc cs i t) by (done || lia). apply (goes_app _ _ _ _ L S); [done|]. by apply goes_one. }
  destruct (isLinked t) eqn:EL; simpl negb; cbv iota.
  - destruct (Nat.eqb_spec i (length events - 1)) as [Hlast|Hnl].
    + assert (Efo : forall y o, fail_others cs (i - 1) i y o = fail_others cs i i y o).
      { intros y o. apply list_eq. intros k. rewrite !lookup_fail_others.
        destruct (o !! k); [|done]. simpl. f_equal.
        destruct (Nat.leb_spec cs k), (Nat.leb_spec k (i - 1)), (Nat.leb_spec k i), (Nat.eqb_spec k i);
          simpl; done || lia. }
      rewrite Efo. exists L0, (examined t S).
      assert (Hch : chain_at events cs i) by (split; [lia|]; split; [done|by right]).
      destruct (refuse_chain v v2 outs cs i i (ErrLinkedChainOpen (t_ID t) i) t L0 S0 (examined t S))
        as [_ Hdec]; try done.
      * eapply dec_chain; try done. eapply chain_left_open; try done. unfold linked_at. by rewrite Et.
      * replace (Datatypes.S i) with (length events) in Hdec by lia. rewrite take_ge in Hdec; [done|].
        unfold fail_others. rewrite length_imap, length_insert. lia.
    + apply IH; [|lia]. constructor; try done.
      * split; [lia|done].
      * left. lia.
      * intros k Hk. destruct (decide (k = i)) as [->|]; [unfold linked_at; by rewrite Et|apply Hlk; lia].
      * exists L0, S0, (spec_apply x t L), (examined t S).
        split; [done|]. split; [done|]. split; [done|]. split; [done|by right].
  - rewrite clear_range_id by (intros; apply Ho; lia). apply IH; [|lia].
    assert (Hch : chain_at events cs i).
    { split; [lia|]. split; [done|]. left. unfold linked_at. by rewrite Et. }
    constructor; [split; [lia|done]|by right|intros k Hk; apply Ho; lia|intros k Hk; lia|done|].
    {
      exists (spec_apply x t L), (examined t S), (spec_apply x t L), (examined t S).
      split; [|split; [|split; [done|split; [done|by left]]]].
      * assert (take (Datatypes.S i) outs = take cs outs ++ replicate (Datatypes.S i - cs) None) as ->.
        { rewrite (outs_split outs cs i) at 1 by lia. rewrite app_assoc, take_app_length'.
          - f_equal. apply list_eq. intros k. unfold slice. destruct (decide (k < Datatypes.S i - cs)%nat) as [Hk|Hk].
            + rewrite lookup_take_lt, lookup_drop by done. rewrite lookup_replicate_2 by done. apply Ho. lia.
            + rewrite lookup_take_ge by lia. symmetry. apply lookup_ge_None. rewrite length_replicate. lia.
          - rewrite length_app, length_take. unfold slice. rewrite length_take, length_drop. lia. }
        eapply dec_chain; try done. apply chain_commits; try done. unfold linked_at. by rewrite Et.
      * unfold slice. rewrite Nat.sub_diag. constructor. }
Qed.

(** One iteration of the loop keeps the invariant or finishes the batch. *)
Lemma loop_ok fuel v outs cs i : loop_inv v outs cs i -> (length events - i <= fuel)%nat ->
  exists L S, decided m events (length events) (ValidateBatch_loop m fuel events v outs cs i) L S.
Proof using Hg Hr Hw.
  revert v outs cs i. induction fuel as [|fuel IH]; intros v outs cs i HL Hf.
  - simpl. pose proof HL as [[Hb Hl] [?|He] _ _ _ (L0 & S0 & L & S & Hd & _)]; [lia|]. exists L0, S0.
    assert (cs = length events) as -> by lia. by rewrite take_ge in Hd by lia.
  - simpl. pose proof HL as [[Hb Hl] Hend Ho Hlk Hky (L0 & S0 & L & S & Hd & Hgo & Hs & Hu & Hbase)].
    destruct (events !! i) as [t|] eqn:Et.
    2:{ apply lookup_ge_None in Et. destruct Hend as [?|He]; [lia|]. exists L0, S0.
        assert (cs = length events) as -> by lia. by rewrite take_ge in Hd by lia. }
    pose proof (lookup_lt_Some _ _ _ Et) as Hin.
    set (v1 := if (i =? cs)%nat then beginChain v else v).
    assert (H1 : sim m v1 L /\ keyed v1 /\ chain_base v1 L0 /\ v_seenIDs v1 = v_seenIDs v).
    { unfold v1. destruct (Nat.eqb_spec i cs) as [->|Hne].
      - assert (L0 = L) as <-.
        { unfold slice in Hgo. rewrite Nat.sub_diag in Hgo. simpl in Hgo. by inversion Hgo. }
        destruct (beginChain_base v L0 Hs Hky). done.
      - destruct Hbase as [?|Hbase]; [done|]. done. }
    clearbody v1. destruct H1 as (Hs1 & Hk1 & Hb1 & Es1).
    assert (Hu1 : used v1 S) by (intros id Hid; rewrite Es1; by apply Hu).
    destruct (decided_inv _ _ _ _ Hd) as (HI0 & HR0 & _ & _ & HS0).
    destruct (goes_inv _ _ _ _ _ _ Hgo (wf_slice _ _) HI0 HR0 HS0) as (HI & HR & _).
    assert (Hwt : wf_transfer t) by (by eapply Forall_lookup_1).
    pose proof (validate_spec m Hg t i v1 L Hs1 HI HR Hwt) as V.
    pose proof Hb1 as (v0 & Sv & K0 & C0 & N0).
    destruct (validate_safe (v_staged v0) (v_pending v0) m (proj1 Hg) t i v1 C0 Hk1) as [C2 Hk2].
    destruct V as [(x & v2 & E & Hx & Hs2 & Es2)|(e & v2 & E & Hno & Es2)]; rewrite E in *; simpl in C2, Hk2.
    all: assert (Hb2 : chain_base v2 L0) by
      (exists v0; do 3 (split; [done|]); intros id Hid%N0; rewrite Es2; by apply seen_after_grows).
    all: pose proof (used_after _ _ _ _ _ Hu1 Es2) as Hu2.
    + apply (commit_step fuel v v2 outs cs i t x L0 S0 L S); try done. by eapply takes_accepts.
    + apply (refuse_step fuel v v2 outs cs i t e L0 S0 L S); try done.
      intros x Hx. apply (Hno x). by eapply takes_accepts.
Qed.
End Loop.

Lemma loop_inv_init m events : good m ->
  loop_inv m events newBatchValidator (replicate (length events) None) 0 0.
Proof.
  intros Hg. constructor.
  - rewrite length_replicate. split; [lia|done].
  - by right.
  - intros k Hk. apply lookup_replicate_2. lia.
  - intros k Hk. lia.
  - intros id a Ha. simpl in Ha. by rewrite lookup_empty in Ha.
  - exists (abs m), ∅, (abs m), ∅. split; [constructor|]. split; [constructor|].
    split; [|split; [intros id _; cbn [v_seenIDs newBatchValidator]; rewrite lookup_empty, is_Some_alt; set_solver|by left]].
    constructor; intros id.
    + unfold ov_account. cbn [v_staged newBatchValidator]. by rewrite lookup_empty.
    + unfold ov_hold. cbn [v_pending newBatchValidator]. by rewrite lookup_empty.
    + by left.
Qed.

Lemma validate_decided m events : good m -> holds_recorded (abs m) -> Forall wf_transfer events ->
  exists L S, decided m events (length events) (ValidateBatch m events) L S.
Proof.
  intros Hg Hr Hw. apply (loop_ok m events Hg Hr Hw); [by apply loop_inv_init|lia].
Qed.

(** ** From the decision to the accepted run *)

Lemma accepted_app e1 e2 o1 o2 : length e1 = length o1 ->
  accepted (e1 ++ e2) (o1 ++ o2) = accepted e1 o1 ++ accepted e2 o2.
Proof.
  revert o1. induction e1 as [|t e1 IH]; intros [|[e|] o1] Hl; try done; injection Hl as Hl; simpl.
  - by apply IH.
  - by rewrite IH.
Qed.
Lemma accepted_none es : accepted es (replicate (length es) None) = es.
Proof. induction es; simpl; congruence. Qed.
Lemma accepted_some es os : Forall is_Some os -> accepted es os = [].
Proof.
  revert os. induction es as [|t es IH]; intros [|[e|] os]; simpl; try done.
  - intros [_ ?]%Forall_cons. auto.
  - by intros [[? ?] _]%Forall_cons.
Qed.

Section DecidedFacts.
Context (m : AccountManager) (events : list Transfer).
Context (Hg : good m) (Hr : holds_recorded (abs m)) (Hw : Forall wf_transfer events).

Lemma take_slice (a b : nat) : (a <= b)%nat -> take b events = take a events ++ slice a b events.
Proof using.
  intros Hab. unfold slice. rewrite <- (take_drop a (take b events)). f_equal.
  - rewrite take_take. f_equal. lia.
  - by rewrite take_drop_commute, Nat.add_sub_assoc, (Nat.add_comm a), Nat.add_sub by lia.
Qed.

Lemma decided_runs a outs L S : decided m events a outs L S ->
  spec_runs (abs m) (accepted (take a events) outs) L.
Proof using Hg Hr Hw.
  induction 1 as [|a b outs L S outs' L' S' Hd IH Hc Hch]; [constructor|].
  destruct (decided_inv m events Hg Hr Hw _ _ _ _ Hd) as (HI & HR & Hl & _ & HS). destruct Hc as [Hb _].
  rewrite (take_slice a (Datatypes.S b)), accepted_app by (rewrite ?length_take; lia).
  destruct (chain_inv_ok m events Hw _ _ _ _ _ _ _ Hch HI HR HS) as (_ & _ & _ & _ & [[-> Hrun]|[Hs ->]]).
  - replace (Datatypes.S b - a)%nat with (length (slice a (Datatypes.S b) events))
      by (unfold slice; rewrite length_take, length_drop; lia).
    rewrite accepted_none. by eapply runs_app.
  - by rewrite (accepted_some _ outs'), app_nil_r.
Qed.

Lemma decided_boundary a outs L S : decided m events a outs L S ->
  a = 0%nat \/ a = length events \/ linked_at events (a - 1) = false.
Proof using.
  intros [|a' b outs' L' S' outs'' L'' S'' _ (Hb & _ & [Hl|Hl]) _]; [by left|right; right|right; left; lia].
  by replace (Datatypes.S b - 1)%nat with b by lia.
Qed.

(** Positions of one linked chain share their fate. *)
Lemma decided_atomic a outs L S : decided m events a outs L S -> forall i j, (i <= j < a)%nat ->
  (forall k, (i <= k < j)%nat -> linked_at events k = true) ->
  (outs !! i = Some None <-> outs !! j = Some None).
Proof using Hg Hr Hw.
  induction 1 as [|a b outs L S outs' L' S' Hd IH Hc Hch]; intros i j Hij Hlk; [lia|].
  destruct (decided_inv m events Hg Hr Hw _ _ _ _ Hd) as (HI & HR & Hl & _ & HS). destruct Hc as [Hb _].
  destruct (chain_inv_ok m events Hw _ _ _ _ _ _ _ Hch HI HR HS) as (_ & _ & _ & Hlen & Ho).
  destruct (decide (j < a)%nat) as [Hja|Hja]; [rewrite !lookup_app_l by lia; apply IH; [lia|done]|].
  assert (Hia : (a <= i)%nat).
  { destruct (decide (a <= i)%nat); [done|]. exfalso.
    destruct (decided_boundary _ _ _ _ Hd) as [->|[->|Hbd]]; [lia|lia|]. rewrite Hlk in Hbd by lia. done. }
  rewrite !lookup_app_r, Hl by lia. destruct Ho as [[-> _]|[Hs _]]; [by rewrite !lookup_replicate_2 by lia|].
  destruct (lookup_lt_is_Some_2 outs' (i - a)) as [o Eo]; [lia|].
  destruct (lookup_lt_is_Some_2 outs' (j - a)) as [o' Eo']; [lia|].
  pose proof (Forall_lookup_1 _ _ _ _ Hs Eo) as [? ->]. pose proof (Forall_lookup_1 _ _ _ _ Hs Eo') as [? ->].
  rewrite Eo, Eo'. split; congruence.
Qed.

(** ** The decision is determined *)

Lemma chain_start_unique a a' outs outs' L L' S S' b : decided m events a outs L S ->
  decided m events a' outs' L' S' -> chain_at events a b -> chain_at events a' b -> a = a'.
Proof using.
  assert (H : forall a a' outs L S, decided m events a outs L S -> chain_at events a b ->
    chain_at events a' b -> (a <= a')%nat).
  { clear. intros a a' outs L S Hd (Hb & _ & _) (Hb' & Hk & _). destruct (decide (a <= a')%nat); [done|].
    destruct (decided_boundary _ _ _ _ Hd) as [->|[->|Hbd]]; [lia|lia|].
    rewrite Hk in Hbd by lia. done. }
  intros Hd Hd' Hc Hc'. pose proof (H _ _ _ _ _ Hd Hc Hc'). pose proof (H _ _ _ _ _ Hd' Hc' Hc). lia.
Qed.

(** No run goes past an event that is not taken. *)
Lemma stops_here a i i' L0 S0 L S L' S' t : (a <= i)%nat -> events !! i = Some t ->
  goes m L0 S0 (slice a i events) L S -> (forall x, ~ takes m x t L S) ->
  goes m L0 S0 (slice a i' events) L' S' -> (i' <= i)%nat.
Proof using.
  intros Hi Et Hgo Hno Hgo'. destruct (decide (i' <= i)%nat) as [|Hlt]; [done|]. exfalso.
  assert (Esl : slice a i' events = slice a i events ++ slice i i' events).
  { apply (app_inv_head (take a events)). rewrite <- take_slice by lia.
    by rewrite app_assoc, <- !take_slice by lia. }
  rewrite Esl in Hgo'. destruct (goes_split _ _ _ _ _ _ _ Hgo') as (L1 & S1 & H1 & H2).
  destruct (goes_fun _ _ _ _ _ _ _ _ Hgo H1) as [<- <-].
  unfold slice in H2. rewrite (drop_S _ t i Et) in H2.
  replace (i' - i)%nat with (Datatypes.S (i' - i - 1)) in H2 by lia.
  simpl in H2. inversion H2; subst. by eapply Hno.
Qed.

(** The positions accepted. *)
Definition oks (outs : list (option error)) : list bool :=
  (fun o => match o with None => true | Some _ => false end) <$> outs.
Lemma oks_failed a b i t e : oks (chain_failed a b i t e) = replicate (Datatypes.S b - a) false.
Proof using.
  unfold oks, chain_failed. rewrite <- list_fmap_compose. apply list_eq. intros k. rewrite list_lookup_fmap.
  destruct (decide (k < Datatypes.S b - a)%nat); [by rewrite lookup_seq_lt, lookup_replicate_2|].
  rewrite lookup_seq_ge by lia. symmetry. apply lookup_ge_None. rewrite length_replicate. lia.
Qed.

Lemma chain_decided_fun a b L S o1 L1 S1 o2 L2 S2 :
  (a <= b)%nat -> chain_decided m events a b L S o1 L1 S1 -> chain_decided m events a b L S o2 L2 S2 ->
  oks o1 = oks o2 /\ L1 = L2 /\ S1 = S2.
Proof using.
  intros Hab [L1' S1' Hl1 Hgo1|i1 t1 e1 L1' S1' Hi1 Ht1 Hgo1 Hno1|t1 L1' S1' Hl1 Ht1 Hgo1]
    [L2' S2' Hl2 Hgo2|i2 t2 e2 L2' S2' Hi2 Ht2 Hgo2 Hno2|t2 L2' S2' Hl2 Ht2 Hgo2]; rewrite ?oks_failed.
  all: try (pose proof (stops_here a i1 _ _ _ _ _ _ _ t1 ltac:(lia) Ht1 Hgo1 Hno1 Hgo2)).
  all: try (pose proof (stops_here a i2 _ _ _ _ _ _ _ t2 ltac:(lia) Ht2 Hgo2 Hno2 Hgo1)).
  all: try lia; try congruence.
  - by destruct (goes_fun _ _ _ _ _ _ _ _ Hgo1 Hgo2) as [-> ->].
  - assert (i1 = i2) as <- by lia. destruct (goes_fun _ _ _ _ _ _ _ _ Hgo1 Hgo2) as [-> ->].
    rewrite Ht1 in Ht2. by injection Ht2 as ->.
  - by destruct (goes_fun _ _ _ _ _ _ _ _ Hgo1 Hgo2) as [-> ->].
Qed.

Lemma decided_fun a o1 L1 S1 o2 L2 S2 : decided m events a o1 L1 S1 -> decided m events a o2 L2 S2 ->
  oks o1 = oks o2 /\ L1 = L2 /\ S1 = S2.
Proof using.
  intros H. revert o2 L2 S2. induction H as [|a b outs L S outs' L' S' Hd IH Hc Hch]; intros o2 L2 S2 H2.
  { inversion H2; subst; done. }
  inversion H2 as [|a2 b2 outs2 L2' S2' outs2' L2'' S2'' Hd2 Hc2 Hch2]; subst.
  assert (a2 = a) as -> by (eapply (chain_start_unique a2 a); eassumption).
  destruct (IH _ _ _ Hd2) as (E1 & <- & <-).
  destruct (chain_decided_fun _ _ _ _ _ _ _ _ _ _ (proj1 (proj1 Hc)) Hch Hch2) as (E2 & <- & <-).
  unfold oks in *. rewrite !fmap_app. by rewrite E1, E2.
Qed.
End DecidedFacts.

(** ** Applying *)

Lemma apply_accepted events outs m L : good m -> holds_recorded (abs m) ->
  spec_runs (abs m) (accepted events outs) L ->
  exists m', ApplyBatch events outs m = (outs, m') /\ good m' /\ abs m' = L.
Proof.
  revert outs m. induction events as [|t events IH]; intros outs m Hg Hr Hrun.
  { simpl in *. inversion Hrun; subst. by exists m. }
  destruct outs as [|[e|] outs]; simpl in *.
  - inversion Hrun; subst. by exists m.
  - destruct (IH outs m Hg Hr Hrun) as (m' & -> & ? & ?). by exists m'.
  - inversion Hrun as [|x t' ts L1 L2 Hw Ha Hf Hn Hrun']; subst.
    assert (Hfr : fresh_hold t (abs m)) by (apply fresh_of_new; [by destruct Ha|done|done]).
    destruct (checkTransfer_total m t Hg Hw x Ha) as (y & Ey & Wy & <-).
    pose proof (apply_run m t Hg Hw Hfr) as R. rewrite Ey in R. destruct R as [Hyes _].
    destruct (Hyes Hf) as (m1 & E1 & Hs1 & A1). rewrite E1.
    assert (Hg1 : good m1).
    { split; [done|]. rewrite A1. apply inv_apply; try done. apply Hg. }
    destruct (IH outs m1 Hg1) as (m' & -> & ? & ?).
    + rewrite A1. by apply apply_recorded.
    + by rewrite A1.
    + by exists m'.
Qed.

Lemma runs_new_ids L ts L' : spec_runs L ts L' ->
  NoDup (t_ID <$> filter (fun t => is_settlement t = false) ts)
  /\ forall t, t ∈ ts -> is_settlement t = false -> l_transfers L !! t_ID t = None.
Proof.
  induction 1 as [L|x t ts L L' Hw Ha Hf Hn Hrun [IH1 IH2]].
  { split; [apply NoDup_nil_2|]. by intros ? ?%elem_of_nil. }
  assert (Hl : forall id, l_transfers (spec_apply x t L) !! id
    = if decide (t_ID t = id) then Some (recorded t L) else l_transfers L !! id).
  { intros id. unfold spec_apply. destruct (effect x t L) as [[[dr cr] p] q].
    cbn [spec_record spec_move l_transfers]. rewrite lookup_insert, recorded_id. done. }
  split.
  - rewrite filter_cons. case_decide as HS; [|done]. rewrite fmap_cons. apply NoDup_cons. split; [|done].
    intros (t' & Eid & [HS' Ht']%list_elem_of_filter)%list_elem_of_fmap.
    specialize (IH2 t' Ht' HS'). rewrite Hl in IH2. by rewrite decide_True in IH2.
  - intros t' [->|Ht']%elem_of_cons HS'; [by apply Hn|].
    specialize (IH2 t' Ht' HS'). rewrite Hl in IH2. by case_decide.
Qed.

(** ** Properties *)

(** C24. [ValidateBatch] decides a batch chain by chain, in order: a maximal
    linked chain commits as a whole exactly when its last event closes it and
    the ledger takes its events one after the other, the ID of each plain
    transfer or new hold being neither in the history nor used by an event of
    the batch examined before - accepted or not.  Otherwise it is refused as a
    whole: the first event not taken keeps its own error, the others of the
    chain name it, and a chain without an end fails with its last event.
    These rules determine the accepted positions and the ledger. *)
Theorem validate_batch_decides m events : good m -> holds_recorded (abs m) ->
  Forall wf_transfer events ->
  exists L S, decided m events (length events) (ValidateBatch m events) L S
    /\ forall outs L' S', decided m events (length events) outs L' S' ->
         oks outs = oks (ValidateBatch m events) /\ L' = L /\ S' = S.
Proof.
  intros Hg Hr Hw. destruct (validate_decided m events Hg Hr Hw) as (L & S & Hd).
  exists L, S. split; [done|]. intros outs L' S' Hd'. by apply (decided_fun m events _ _ _ _ _ _ _ Hd').
Qed.

(** C25. What validation accepts, application performs: [ApplyBatch] after
    [ValidateBatch] changes no outcome (no accepted event fails), keeps the
    manager well formed, and reaches the ledger of the accepted events applied
    one after the other. *)
Theorem validated_batch_applies m events : good m -> holds_recorded (abs m) ->
  Forall wf_transfer events ->
  let outs := ValidateBatch m events in
  exists m', ApplyBatch events outs m = (outs, m') /\ good m'
    /\ spec_runs (abs m) (accepted events outs) (abs m').
Proof.
  intros Hg Hr Hw outs. destruct (validate_decided m events Hg Hr Hw) as (L & S & Hd).
  pose proof (decided_runs m events Hg Hr Hw _ _ _ _ Hd) as Hrun. rewrite take_ge in Hrun by lia.
  destruct (apply_accepted events outs m L Hg Hr Hrun) as (m' & E & Hg' & <-). by exists m'.
Qed.

(** Linked chains are atomic: two positions joined by linked events are
    both accepted or both refused, and an event that leaves a chain open at
    the end of the batch is refused. *)
Theorem linked_chains_atomic m events : good m -> holds_recorded (abs m) ->
  Forall wf_transfer events ->
  let outs := ValidateBatch m events in
  length outs = length events
  /\ (forall i j, (i <= j < length events)%nat ->
        (forall k, (i <= k < j)%nat -> linked_at events k = true) ->
        (outs !! i = Some None <-> outs !! j = Some None))
  /\ (linked_at events (length events - 1) = true -> outs !! (length events - 1)%nat <> Some None).
Proof.
  intros Hg Hr Hw outs. destruct (validate_decided m events Hg Hr Hw) as (L & S & Hd).
  destruct (decided_inv m events Hg Hr Hw _ _ _ _ Hd) as (_ & _ & Hl & _). split; [done|]. split.
  - intros i j. by apply (decided_atomic m events Hg Hr Hw _ _ _ _ Hd).
  - fold outs in Hd. clearbody outs. remember (length events) as n eqn:En.
    destruct Hd as [|a b outs L S outs' L' S' Hd [Hb _] Hch]; [done|]. intros Hlk.
    replace (Datatypes.S b - 1)%nat with b in * by lia.
    destruct (decided_inv m events Hg Hr Hw _ _ _ _ Hd) as (HI & HR & Hla & _ & HS).
    assert (Hs : Forall is_Some outs').
    { destruct Hch as [? ? Hnl _|i t e ? ? _ _ _ _|t ? ? _ _ _]; [congruence|apply chain_failed_refused..]. }
    rewrite lookup_app_r by lia. intros E. by destruct (Forall_lookup_1 _ _ _ _ Hs E).
Qed.

(** Transfer IDs stay unique: the accepted plain transfers and new holds
    of a batch have pairwise distinct IDs, none of them recorded before. *)
Theorem accepted_ids_unique m events : good m -> holds_recorded (abs m) ->
  Forall wf_transfer events ->
  let new := filter (fun t => is_settlement t = false) (accepted events (ValidateBatch m events)) in
  NoDup (t_ID <$> new) /\ Forall (fun t => m_transfers m !! t_ID t = None) new.
Proof.
  intros Hg Hr Hw new. destruct (validate_decided m events Hg Hr Hw) as (L & S & Hd).
  pose proof (decided_runs m events Hg Hr Hw _ _ _ _ Hd) as Hrun. rewrite take_ge in Hrun by lia.
  destruct (runs_new_ids _ _ _ Hrun) as [H1 H2]. split; [done|].
  apply Forall_forall. intros t [HS Ht]%list_elem_of_filter. by apply (H2 t).
Qed.

(** Validation of a sequence of events, whatever their outcomes. *)
Fixpoint validate_all (m : AccountManager) (i : nat) (ts : list Transfer) (v : batchValidator) : batchValidator :=
  match ts with
  | [] => v
  | t :: ts => validate_all m (S i) ts (validateAndApply m t i v).1
  end.

(** A rollback is exact: after any events validated since the start of the
    chain - accepted, refused half way, touching the same accounts and holds
    repeatedly - [rollbackChain] restores the staged accounts and holds of the
    chain's start. *)
Theorem rollback_exact m i ts v : good m -> keyed v ->
  v_staged (rollbackChain (validate_all m i ts (beginChain v))) = v_staged v
  /\ v_pending (rollbackChain (validate_all m i ts (beginChain v))) = v_pending v.
Proof.
  intros [Hm _] Hk.
  assert (H : forall ts i v', chain_inv (v_staged v) (v_pending v) v' -> keyed v' ->
    chain_inv (v_staged v) (v_pending v) (validate_all m i ts v')).
  { clear ts i. induction ts as [|t ts IH]; intros i v' Hc Hk'; [done|]. simpl.
    destruct (validate_safe (v_staged v) (v_pending v) m Hm t i v' Hc Hk') as [? ?]. by apply IH. }
  destruct (rollback_restores _ _ _ (H ts i (beginChain v) (chain_inv_begin v) Hk)) as (? & ? & _). done.
Qed.

(** ** Witnesses: one batch on the demo ledger *)

(** A linked pair that fits, a linked pair whose second event overdraws, a
    single transfer, and a chain left open. *)
Definition demo_batch : list Transfer :=
  [ xfer 10 1 2 5 0 TransferFlagLinked; xfer 7 0 0 25 0 TransferFlagPostPending;
    xfer 11 1 2 5 0 TransferFlagLinked; xfer 12 1 2 1000 0 0;
    xfer 13 1 2 3 0 0; xfer 14 1 2 1 0 TransferFlagLinked ].

Lemma demo_batch_wf : Forall wf_transfer demo_batch.
Proof. repeat constructor; by apply xfer_wf. Qed.

Lemma demo1_recorded : holds_recorded (abs demo1).
Proof.
  assert (H : map_Forall (fun id _ => is_Some (l_transfers (abs demo1) !! id)) (l_holds (abs demo1))).
  { apply (bool_decide_unpack _). vm_compute. exact I. }
  intros id h E. exact (H id h E).
Qed.

Lemma validate_batch_decides_witness :
  (exists L S, decided demo1 demo_batch 6 (ValidateBatch demo1 demo_batch) L S)
  /\ (fun o => match o with None => true | Some _ => false end) <$> ValidateBatch demo1 demo_batch
     = [true; true; false; false; true; false].
Proof.
  split.
  { destruct (validate_batch_decides demo1 demo_batch demo1_good demo1_recorded demo_batch_wf) as (L & S & H & _).
    exists L, S. exact H. }
  vm_compute. reflexivity.
Defined.

(** The ID of a refused event stays used for the rest of the batch: of an
    overdraft and a covered transfer with one ID, alone in a batch each, the
    second is accepted; in one batch it is refused as a duplicate. *)
Theorem refused_id_stays_used :
  let overdraft := xfer 20 1 2 1000 0 0 in
  let covered := xfer 20 1 2 3 0 0 in
  oks (ValidateBatch demo1 [overdraft]) = [false] /\ oks (ValidateBatch demo1 [covered]) = [true]
  /\ ValidateBatch demo1 [overdraft; covered] !! 1%nat
     = Some (Some (ErrDuplicateTransferID (t_ID covered))).
Proof. vm_compute. repeat split. Qed.

Lemma validated_batch_applies_witness :
  exists m', ApplyBatch demo_batch (ValidateBatch demo1 demo_batch) demo1
    = (ValidateBatch demo1 demo_batch, m').
Proof.
  destruct (validated_batch_applies demo1 demo_batch demo1_good demo1_recorded demo_batch_wf) as (m' & E & _).
  exists m'. exact E.
Defined.

Lemma linked_chains_atomic_witness :
  ValidateBatch demo1 demo_batch !! 2%nat = Some None <-> ValidateBatch demo1 demo_batch !! 3%nat = Some None.
Proof.
  apply (proj1 (proj2 (linked_chains_atomic demo1 demo_batch demo1_good demo1_recorded demo_batch_wf)));
    [simpl; lia|].
  intros k Hk. assert (k = 2%nat) as -> by lia. reflexivity.
Defined.

Lemma accepted_ids_unique_witness :
  Forall (fun t => m_transfers demo1 !! t_ID t = None)
    (filter (fun t => is_settlement t = false) (accepted demo_batch (ValidateBatch demo1 demo_batch))).
Proof.
  exact (proj2 (accepted_ids_unique demo1 demo_batch demo1_good demo1_recorded demo_batch_wf)).
Defined.

Lemma rollback_exact_witness :
  v_staged (rollbackChain (validate_all demo1 0 demo_batch (beginChain newBatchValidator))) = ∅.
Proof.
  apply (rollback_exact demo1 0 demo_batch newBatchValidator demo1_good).
  intros id a E. exfalso. revert E. simpl. rewrite lookup_empty. discriminate.
Defined.
