(* ===== verification/Crc.v ===== *)
(** * CRC-32 (hash/crc32, ChecksumIEEE)

    The reflected polynomial 0xEDB88320, one bit at a time, with the initial
    and final complement.  A step is injective on 32-bit states, so messages
    that differ in one byte have different checksums. *)

From S2P Require Import Prelude.

Definition crc_poly : Z := 0xEDB88320.

Definition crc_bit (c : Z) : Z :=
  if Z.odd c then Z.lxor (Z.shiftr c 1) crc_poly else Z.shiftr c 1.

Definition crc_byte (c : Z) (b : byte) : Z :=
  let c := Z.lxor c (byte_val b) in
  crc_bit (crc_bit (crc_bit (crc_bit (crc_bit (crc_bit (crc_bit (crc_bit c))))))).

Definition ChecksumIEEE (data : list byte) : Z :=
  Z.lxor (foldl crc_byte 0xFFFFFFFF data) 0xFFFFFFFF.

(** ** 32-bit states *)

Lemma is_u32_log2 z : is_u32 z <-> 0 <= z /\ Z.log2 z < 32.
Proof.
  unfold is_u32. split.
  - intros [H1 H2]. split; [done|]. destruct (decide (z = 0)) as [->|]; [simpl; lia|].
    apply Z.log2_lt_pow2; lia.
  - intros [H1 H2]. split; [done|]. destruct (decide (z = 0)) as [->|]; [lia|].
    apply Z.log2_lt_pow2; lia.
Qed.

Lemma lxor_u32 a b : is_u32 a -> is_u32 b -> is_u32 (Z.lxor a b).
Proof.
  rewrite !is_u32_log2. intros [Ha La] [Hb Lb]. split; [by apply Z.lxor_nonneg|].
  pose proof (Z.log2_lxor a b Ha Hb). lia.
Qed.

Lemma shiftr_half c : 0 <= c -> Z.shiftr c 1 = c / 2.
Proof. intros. rewrite Z.shiftr_div_pow2 by lia. done. Qed.

Lemma crc_poly_u32 : is_u32 crc_poly.
Proof. unfold is_u32, crc_poly. lia. Qed.

Lemma crc_bit_u32 c : is_u32 c -> is_u32 (crc_bit c).
Proof.
  intros Hc. unfold crc_bit. rewrite shiftr_half by apply Hc.
  assert (is_u32 (c / 2)).
  { unfold is_u32 in *. split; [apply Z.div_pos; lia|apply Z.div_lt_upper_bound; lia]. }
  destruct (Z.odd c); [apply lxor_u32; [done|apply crc_poly_u32]|done].
Qed.

(** Bit 31 of a step tells whether the polynomial was added. *)
Lemma crc_bit_top c : is_u32 c -> Z.testbit (crc_bit c) 31 = Z.odd c.
Proof.
  intros Hc. unfold crc_bit. rewrite shiftr_half by apply Hc.
  assert (H0 : Z.testbit (c / 2) 31 = false).
  { unfold is_u32 in Hc. apply Z.bits_above_log2; [apply Z.div_pos; lia|].
    destruct (decide (c / 2 = 0)) as [->|]; [simpl; lia|].
    apply Z.log2_lt_pow2; [apply Z.le_neq; split; [apply Z.div_pos; lia|done]|].
    apply Z.div_lt_upper_bound; lia. }
  destruct (Z.odd c); [|done]. rewrite Z.lxor_spec, H0. done.
Qed.

Lemma crc_bit_inj c d : is_u32 c -> is_u32 d -> crc_bit c = crc_bit d -> c = d.
Proof.
  intros Hc Hd E. pose proof (crc_bit_top c Hc) as Tc. rewrite E, crc_bit_top in Tc by done.
  unfold crc_bit in E. rewrite Tc in E. rewrite !shiftr_half in E by (apply Hc || apply Hd).
  assert (c / 2 = d / 2) as Eh.
  { destruct (Z.odd c); [|done]. apply (f_equal (fun x => Z.lxor x crc_poly)) in E.
    by rewrite !Z.lxor_assoc, !Z.lxor_nilpotent, !Z.lxor_0_r in E. }
  rewrite (Z.div_mod c 2), (Z.div_mod d 2) by lia. rewrite !Zmod_odd, Tc, Eh. done.
Qed.

Lemma byte_val_u32 b : is_u32 (byte_val b).
Proof. pose proof (byte_val_range b). unfold is_u32. lia. Qed.

Lemma crc_byte_u32 c b : is_u32 c -> is_u32 (crc_byte c b).
Proof. intros. unfold crc_byte. do 8 apply crc_bit_u32. apply lxor_u32; [done|apply byte_val_u32]. Qed.

Lemma crc_bits_inj c d : is_u32 c -> is_u32 d ->
  crc_bit (crc_bit (crc_bit (crc_bit (crc_bit (crc_bit (crc_bit (crc_bit c)))))))
  = crc_bit (crc_bit (crc_bit (crc_bit (crc_bit (crc_bit (crc_bit (crc_bit d))))))) -> c = d.
Proof.
  intros Hc Hd E. do 8 (apply crc_bit_inj in E; [|auto 10 using crc_bit_u32..]). done.
Qed.

Lemma lxor_cancel_l a b c : Z.lxor a b = Z.lxor a c -> b = c.
Proof.
  intros E. apply (f_equal (Z.lxor a)) in E.
  by rewrite <- !Z.lxor_assoc, !Z.lxor_nilpotent, !Z.lxor_0_l in E.
Qed.

(** The next state determines the state, and the byte read in it. *)
Lemma crc_byte_state_inj c d b : is_u32 c -> is_u32 d -> crc_byte c b = crc_byte d b -> c = d.
Proof.
  intros Hc Hd E. unfold crc_byte in E. apply crc_bits_inj in E; [|by apply lxor_u32, byte_val_u32..].
  rewrite !(Z.lxor_comm _ (byte_val b)) in E. by apply lxor_cancel_l in E.
Qed.
Lemma crc_byte_inj c a b : is_u32 c -> crc_byte c a = crc_byte c b -> a = b.
Proof.
  intros Hc E. unfold crc_byte in E. apply crc_bits_inj in E; [|by apply lxor_u32, byte_val_u32..].
  apply lxor_cancel_l in E. by apply byte_val_inj.
Qed.

Lemma crc_fold_u32 l c : is_u32 c -> is_u32 (foldl crc_byte c l).
Proof. revert c. induction l; intros c Hc; [done|]. simpl. auto using crc_byte_u32. Qed.

Lemma crc_fold_inj l c d : is_u32 c -> is_u32 d -> foldl crc_byte c l = foldl crc_byte d l -> c = d.
Proof.
  revert c d. induction l as [|b l IH]; intros c d Hc Hd E; [done|]. simpl in E.
  apply IH in E; [|by apply crc_byte_u32..]. by apply crc_byte_state_inj in E.
Qed.

Lemma ChecksumIEEE_u32 l : is_u32 (ChecksumIEEE l).
Proof. unfold ChecksumIEEE. apply lxor_u32; [apply crc_fold_u32|]; unfold is_u32; lia. Qed.

(** One changed byte changes the checksum. *)
Lemma ChecksumIEEE_insert l i a b : l !! i = Some a -> a <> b ->
  ChecksumIEEE (<[i := b]> l) <> ChecksumIEEE l.
Proof.
  intros E Hne Heq. unfold ChecksumIEEE in Heq.
  rewrite !(Z.lxor_comm _ 0xFFFFFFFF) in Heq. apply lxor_cancel_l in Heq.
  rewrite <- (take_drop_middle l i a E) in Heq.
  pose proof (lookup_lt_Some _ _ _ E) as Hi.
  rewrite insert_app_r_alt in Heq by (rewrite length_take; lia).
  rewrite length_take, Nat.min_l, Nat.sub_diag in Heq by lia. simpl in Heq.
  rewrite !foldl_app in Heq. simpl in Heq.
  assert (Hs : is_u32 (foldl crc_byte 0xFFFFFFFF (take i l))) by (apply crc_fold_u32; unfold is_u32; lia).
  apply crc_fold_inj in Heq; [|by apply crc_byte_u32..]. apply crc_byte_inj in Heq; [|done]. congruence.
Qed.
