(* ===== verification/Record.v ===== *)
(** * WAL record frames (internal/wal/record.go)

    The wire frame [LSN:8|type:1|len:4|payload|crc32:4], its encoder, decoder
    and the BatchCommit marker. *)

From S2P Require Import Prelude Core Crc.

Definition RecordHeaderSize : nat := 13.
Definition RecordCRCSize : nat := 4.

Definition RecordTypeTransfer : Z := 1.
Definition RecordTypeAccount : Z := 2.
Definition RecordTypeCheckpoint : Z := 3.
Definition RecordTypeBatchCommit : Z := 4.
Definition RecordTypeHead : Z := 5.

Record Record := mkRecord {
  r_LSN : Z;      (* uint64 *)
  r_Type : Z;     (* uint8 *)
  r_Payload : list byte }.

#[export] Instance Record_eq_dec : EqDecision Record.
Proof. solve_decision. Defined.

Definition record_header (lsn type : Z) (payload_len : nat) : list byte :=
  be_bytes 8 lsn ++ [byte_of_Z type] ++ be_bytes 4 (u32 (Z.of_nat payload_len)).

(** The error leaves [dst] as it was. *)
Definition appendFrame (dst : list byte) (r : Record) : result (list byte) error :=
  if r_Type r =? 0 then Err ErrInvalidRecordType
  else if 2 ^ 32 - 1 <? Z.of_nat (length (r_Payload r)) then Err ErrPayloadTooLarge
  else
    let start := length dst in
    let dst := dst ++ record_header (r_LSN r) (r_Type r) (length (r_Payload r)) in
    let dst := dst ++ r_Payload r in
    let checksum := ChecksumIEEE (drop start dst) in
    Ok (dst ++ be_bytes 4 checksum).

Definition EncodeRecord (r : Record) : result (list byte) error := appendFrame [] r.

Definition appendCommitFrame (dst : list byte) (commitLSN : Z) (count : nat) : list byte :=
  let payload := be_bytes 8 (u64 commitLSN) ++ be_bytes 4 (u32 (Z.of_nat count)) in
  let start := length dst in
  let dst := dst ++ record_header (u64 commitLSN) RecordTypeBatchCommit (length payload) in
  let dst := dst ++ payload in
  let checksum := ChecksumIEEE (drop start dst) in
  dst ++ be_bytes 4 checksum.

Definition DecodeRecord (frame : list byte) : result Record error :=
  if (length frame <? RecordHeaderSize + RecordCRCSize)%nat then Err ErrCorrupted
  else
    let lsn := be_val (slice 0 8 frame) in
    let rt := be_val (slice 8 9 frame) in
    if rt =? 0 then Err ErrCorrupted
    else
      let payloadLen := Z.to_nat (be_val (slice 9 13 frame)) in
      let expectedLen := (RecordHeaderSize + payloadLen + RecordCRCSize)%nat in
      if negb (length frame =? expectedLen)%nat then Err ErrCorrupted
      else
        let calc := ChecksumIEEE (take (RecordHeaderSize + payloadLen) frame) in
        let got := be_val (slice (RecordHeaderSize + payloadLen)
                             (RecordHeaderSize + payloadLen + 4) frame) in
        if negb (calc =? got) then Err ErrCorrupted
        else Ok (mkRecord lsn rt (slice RecordHeaderSize (RecordHeaderSize + payloadLen) frame)).

(** The Go types, with a type and a length [appendFrame] accepts. *)
Record wf_record (r : Record) : Prop := {
  wfr_lsn : is_u64 (r_LSN r);
  wfr_type : 0 < r_Type r < 256;
  wfr_payload : Z.of_nat (length (r_Payload r)) < 2 ^ 32 }.

(** ** The frame of a record *)

Definition frame_body (r : Record) : list byte :=
  record_header (r_LSN r) (r_Type r) (length (r_Payload r)) ++ r_Payload r.
Definition frame (r : Record) : list byte := frame_body r ++ be_bytes 4 (ChecksumIEEE (frame_body r)).

Definition commit_record (commitLSN : Z) (count : nat) : Record :=
  mkRecord (u64 commitLSN) RecordTypeBatchCommit
    (be_bytes 8 (u64 commitLSN) ++ be_bytes 4 (u32 (Z.of_nat count))).

Lemma appendFrame_frame dst r : wf_record r -> appendFrame dst r = Ok (dst ++ frame r).
Proof.
  intros [_ Ht Hp]. unfold appendFrame.
  rewrite (proj2 (Z.eqb_neq _ _)) by lia. rewrite (proj2 (Z.ltb_ge _ _)) by lia.
  unfold frame, frame_body. by rewrite <- !app_assoc, drop_app_length.
Qed.

(** [appendFrame] succeeds exactly on the records it can frame. *)
Lemma appendFrame_Ok dst r out : is_u64 (r_LSN r) -> 0 <= r_Type r < 256 ->
  appendFrame dst r = Ok out -> wf_record r /\ out = dst ++ frame r.
Proof.
  intros HL HT. unfold appendFrame. destruct (Z.eqb_spec (r_Type r) 0); [done|].
  destruct (Z.ltb_spec (2 ^ 32 - 1) (Z.of_nat (length (r_Payload r)))); [done|]. intros [= <-].
  assert (Hw : wf_record r) by (constructor; [done|lia|lia]). split; [done|].
  unfold frame, frame_body. by rewrite <- !app_assoc, drop_app_length.
Qed.

Lemma appendCommitFrame_frame dst lsn n :
  appendCommitFrame dst lsn n = dst ++ frame (commit_record lsn n).
Proof. unfold appendCommitFrame, frame, frame_body. by rewrite <- !app_assoc, drop_app_length. Qed.

Lemma commit_record_wf lsn n : wf_record (commit_record lsn n).
Proof.
  constructor; cbn [r_LSN r_Type r_Payload commit_record].
  - unfold is_u64, u64. apply Z.mod_pos_bound. lia.
  - unfold RecordTypeBatchCommit. lia.
  - rewrite length_app, !length_be_bytes. lia.
Qed.

Lemma length_header lsn t n : length (record_header lsn t n) = 13%nat.
Proof. unfold record_header. by rewrite !length_app, !length_be_bytes. Qed.
Lemma length_frame_body r : length (frame_body r) = (13 + length (r_Payload r))%nat.
Proof. unfold frame_body. by rewrite length_app, length_header. Qed.
Lemma length_frame r : length (frame r) = (17 + length (r_Payload r))%nat.
Proof. unfold frame. rewrite length_app, length_frame_body, length_be_bytes. lia. Qed.

(** ** Reading the header fields *)

Lemma header_lsn lsn t n rest : is_u64 lsn -> be_val (slice 0 8 (record_header lsn t n ++ rest)) = lsn.
Proof.
  intros H. unfold record_header. rewrite <- !app_assoc.
  unfold slice. rewrite drop_0, take_app_length' by (by rewrite length_be_bytes). by apply be_val_u64.
Qed.
Lemma header_type lsn t n rest : 0 <= t < 256 -> be_val (slice 8 9 (record_header lsn t n ++ rest)) = t.
Proof.
  intros H. unfold record_header. rewrite <- !app_assoc.
  rewrite (slice_mid 8 9 (be_bytes 8 lsn) [byte_of_Z t]) by (by rewrite ?length_be_bytes).
  unfold be_val. simpl. rewrite byte_val_of_Z. by apply Z.mod_small.
Qed.
Lemma header_len lsn t n rest : Z.of_nat n < 2 ^ 32 ->
  be_val (slice 9 13 (record_header lsn t n ++ rest)) = Z.of_nat n.
Proof.
  intros H. unfold record_header. rewrite <- !app_assoc. rewrite (app_assoc (be_bytes 8 lsn)).
  rewrite (slice_mid 9 13 (be_bytes 8 lsn ++ [byte_of_Z t]) (be_bytes 4 _))
    by (by rewrite ?length_app, ?length_be_bytes).
  assert (is_u32 (Z.of_nat n)) by (unfold is_u32; lia).
  unfold u32. rewrite Z.mod_small by done. by apply be_val_u32.
Qed.

Lemma frame_split r rest : frame r ++ rest
  = record_header (r_LSN r) (r_Type r) (length (r_Payload r))
    ++ (r_Payload r ++ be_bytes 4 (ChecksumIEEE (frame_body r)) ++ rest).
Proof. unfold frame. unfold frame_body at 1. by rewrite <- !app_assoc. Qed.

Lemma DecodeRecord_frame r : wf_record r -> DecodeRecord (frame r) = Ok r.
Proof.
  intros [HL HT HP]. unfold DecodeRecord, RecordHeaderSize, RecordCRCSize.
  rewrite length_frame. rewrite (proj2 (Nat.ltb_ge _ _)) by lia.
  rewrite <- (app_nil_r (frame r)). rewrite frame_split, header_lsn, header_type, header_len by (done || lia).
  rewrite (proj2 (Z.eqb_neq _ _)) by lia. rewrite Nat2Z.id, <- frame_split, app_nil_r.
  rewrite (proj2 (Nat.eqb_eq _ _)) by lia. cbn [negb].
  unfold frame at 1 2. rewrite take_app_length' by (by rewrite length_frame_body).
  rewrite <- (app_nil_r (be_bytes 4 _)).
  rewrite slice_mid; [|by rewrite length_frame_body|by rewrite length_be_bytes].
  rewrite be_val_u32 by apply ChecksumIEEE_u32. rewrite Z.eqb_refl. cbn [negb].
  f_equal. destruct r as [lsn t p]. simpl. f_equal.
  unfold frame, frame_body. cbn [r_LSN r_Type r_Payload]. rewrite <- app_assoc.
  apply slice_mid; [by rewrite length_header|done].
Qed.

(** A decoded frame is the frame of its record. *)
Lemma DecodeRecord_Ok f r : DecodeRecord f = Ok r -> wf_record r /\ f = frame r.
Proof.
  unfold DecodeRecord, RecordHeaderSize, RecordCRCSize.
  destruct (Nat.ltb_spec (length f) (13 + 4)) as [|Hlen]; [done|].
  destruct (Z.eqb_spec (be_val (slice 8 9 f)) 0) as [|Ht]; [done|].
  set (n := Z.to_nat (be_val (slice 9 13 f))).
  destruct (Nat.eqb_spec (length f) (13 + n + 4)) as [Hn|]; cbn [negb]; [|done].
  destruct (Z.eqb_spec (ChecksumIEEE (take (13 + n) f)) (be_val (slice (13 + n) (13 + n + 4) f))) as [Hcrc|];
    cbn [negb]; [|done]. intros Hr.
  assert (Er : r = mkRecord (be_val (slice 0 8 f)) (be_val (slice 8 9 f)) (slice 13 (13 + n) f)) by congruence.
  clear Hr. subst r.
  assert (L : forall lo hi, (lo <= hi <= length f)%nat -> length (slice lo hi f) = (hi - lo)%nat).
  { intros lo hi H. unfold slice. rewrite length_take, length_drop. lia. }
  assert (J : forall a b c, (a <= b <= c)%nat -> slice a b f ++ slice b c f = slice a c f).
  { intros a b c H. unfold slice.
    rewrite <- (take_drop (b - a) (take (c - a) (drop a f))). rewrite take_take. f_equal.
    - f_equal. lia.
    - rewrite skipn_firstn_comm, drop_drop. f_equal; [lia|]. f_equal. lia. }
  pose proof (be_val_range (slice 0 8 f)) as R0. pose proof (be_val_range (slice 8 9 f)) as R1.
  pose proof (be_val_range (slice 9 13 f)) as R2. rewrite L in R0, R1, R2 by lia.
  split.
  - constructor; cbn [r_LSN r_Type r_Payload]; [exact R0|simpl in R1; lia|]. rewrite L by lia. simpl in R2. lia.
  - unfold frame, frame_body, record_header. cbn [r_LSN r_Type r_Payload].
    assert (Hp : length (slice 13 (13 + n) f) = n) by (rewrite L; lia). rewrite Hp.
    assert (E1 : be_bytes 8 (be_val (slice 0 8 f)) = slice 0 8 f) by (apply be_bytes_val; by rewrite L by lia).
    assert (E2 : [byte_of_Z (be_val (slice 8 9 f))] = slice 8 9 f).
    { assert (length (slice 8 9 f) = 1%nat) as Hl by (rewrite L; lia).
      destruct (slice 8 9 f) as [|b [|]]; try done. unfold be_val. simpl.
      by rewrite Z.add_0_l, byte_of_val. }
    assert (E3 : be_bytes 4 (u32 (Z.of_nat n)) = slice 9 13 f).
    { unfold n. rewrite Z2Nat.id by lia.
      unfold u32. rewrite Z.mod_small by (simpl in R2; lia). apply be_bytes_val. rewrite L; lia. }
    rewrite E1, E2, E3.
    assert (EB : (slice 0 8 f ++ slice 8 9 f ++ slice 9 13 f) ++ slice 13 (13 + n) f = take (13 + n) f).
    { rewrite <- !app_assoc. rewrite (J 9%nat 13%nat (13 + n)%nat), (J 8%nat), (J 0%nat) by lia.
      unfold slice. by rewrite drop_0, Nat.sub_0_r. }
    rewrite EB, Hcrc. rewrite be_bytes_val by (rewrite L; lia).
    unfold slice. rewrite <- (take_drop (13 + n) f) at 1. f_equal.
    rewrite take_ge; [done|]. rewrite length_drop. lia.
Qed.

(** ** Properties *)

(** C37. Frames are canonical: encoding a record the encoder accepts and
    decoding it returns the record, and every byte string the decoder accepts
    is the encoding of the record it returns. *)
Theorem record_roundtrip r f : is_u64 (r_LSN r) -> 0 <= r_Type r < 256 ->
  EncodeRecord r = Ok f <-> DecodeRecord f = Ok r.
Proof.
  intros HL HT. unfold EncodeRecord. split.
  - intros [Hw ->]%appendFrame_Ok; [|done..]. by apply DecodeRecord_frame.
  - intros [Hw ->]%DecodeRecord_Ok. by apply appendFrame_frame.
Qed.

Lemma record_roundtrip_witness :
  DecodeRecord (default [] (match EncodeRecord (mkRecord 7 1 [x41; x42]) with Ok f => Some f | Err _ => None end))
  = Ok (mkRecord 7 1 [x41; x42]).
Proof.
  apply (record_roundtrip (mkRecord 7 1 [x41; x42])); [done|done|]. vm_compute. reflexivity.
Defined.

(** A frame with one byte changed is no frame. *)
Lemma frame_damaged r i a b : wf_record r -> frame r !! i = Some a -> a <> b ->
  DecodeRecord (<[i := b]> (frame r)) = Err ErrCorrupted.
Proof.
  intros Hw Hi Hne. destruct (DecodeRecord (<[i := b]> (frame r))) as [r'|e] eqn:E'.
  2:{ revert E'. unfold DecodeRecord. repeat case_match; congruence. }
  exfalso. apply DecodeRecord_Ok in E' as [Hw' Ef'].
  pose proof (lookup_lt_Some _ _ _ Hi) as Hlt.
  assert (Hlen : length (frame_body r) = length (frame_body r')).
  { pose proof (f_equal length Ef') as L. rewrite length_insert, !length_frame in L.
    rewrite !length_frame_body. lia. }
  unfold frame in *.
  destruct (decide (i < length (frame_body r))%nat) as [Hb|Hb].
  - rewrite insert_app_l in Ef' by done. rewrite lookup_app_l in Hi by done.
    apply app_inj_1 in Ef' as [E1 E2]; [|by rewrite length_insert].
    rewrite <- E1 in E2. apply (f_equal be_val) in E2. rewrite !be_val_u32 in E2 by apply ChecksumIEEE_u32.
    by apply (ChecksumIEEE_insert _ _ _ _ Hi Hne).
  - rewrite insert_app_r_alt in Ef' by lia. apply app_inj_1 in Ef' as [E1 E2]; [|done].
    rewrite <- E1 in E2. rewrite lookup_app_r in Hi by lia.
    apply (f_equal (fun l => l !! (i - length (frame_body r))%nat)) in E2.
    rewrite list_lookup_insert_eq, Hi in E2; [congruence|]. by apply lookup_lt_Some in Hi.
Qed.

(** C38. A damaged frame is never accepted: changing any one byte of a valid
    frame - header, length, payload or checksum - makes the decoder report
    corruption. *)
Theorem corruption_detected r f i a b : DecodeRecord f = Ok r -> f !! i = Some a -> a <> b ->
  DecodeRecord (<[i := b]> f) = Err ErrCorrupted.
Proof. intros [Hw ->]%DecodeRecord_Ok. by apply frame_damaged. Qed.

Lemma corruption_detected_witness :
  DecodeRecord (<[10%nat := x01]> (frame (mkRecord 7 1 [x41; x42]))) = Err ErrCorrupted.
Proof.
  apply (corruption_detected (mkRecord 7 1 [x41; x42]) _ 10 x00 x01); [|vm_compute; reflexivity|discriminate].
  vm_compute. reflexivity.
Defined.
