(* ===== verification/Wal.v ===== *)
(** * The write-ahead log (internal/wal/wal.go, segment.go)

    The directory is the list of its segment files, ordered by id, with their
    contents.  File operations succeed: a crash is modelled where it matters,
    as a loss of unsynced bytes ([Recovery]).  [Direct] has the
    log with direct I/O; preallocation, which does not change contents, is left
    out.  Offsets and sizes are integers; a file stays below 2^63 bytes. *)

From S2P Require Import Prelude Core Crc Record.

(** ** The directory *)

Abbreviation Disk := (list (Z * list byte)).

Definition listSegmentIDs (d : Disk) : list Z := d.*1.

Fixpoint disk_get (d : Disk) (id : Z) : option (list byte) :=
  match d with
  | [] => None
  | (i, c) :: d => if i =? id then Some c else disk_get d id
  end.
(** Replaces a file, or creates it in its place in the order. *)
Fixpoint disk_put (id : Z) (c : list byte) (d : Disk) : Disk :=
  match d with
  | [] => [(id, c)]
  | (i, c') :: d' =>
      if i =? id then (id, c) :: d'
      else if id <? i then (id, c) :: d
      else (i, c') :: disk_put id c d'
  end.
Definition disk_remove (id : Z) (d : Disk) : Disk := filter (fun f => f.1 <> id) d.

(** [WriteAt(p, off)]; a gap reads as zeros. *)
Definition write_at (off : nat) (p c : list byte) : list byte :=
  take off c ++ replicate (off - length c) x00 ++ p ++ drop (off + length p) c.

(** ** Segments *)

Record Segment := mkSegment {
  s_id : Z;
  s_maxSize : Z;
  s_writeOffset : Z;
  s_syncedOffset : Z }.

Definition DefaultSegmentSize : Z := 64 * 2 ^ 20.

Definition openSegment (d : Disk) (id maxSize : Z) : Disk * Segment :=
  let maxSize := if maxSize <=? 0 then DefaultSegmentSize else maxSize in
  let c := default [] (disk_get d id) in
  let size := Z.of_nat (length c) in
  (disk_put id c d, mkSegment id maxSize size size).

Definition IsFull (s : Segment) (nextWriteBytes : Z) : bool :=
  if nextWriteBytes <? 0 then true
  else s_maxSize s <? s_writeOffset s + nextWriteBytes.

Definition Segment_Write (d : Disk) (s : Segment) (p : list byte) : Disk * Segment * result Z error :=
  if IsFull s (Z.of_nat (length p)) then (d, s, Err ErrSegmentFull)
  else
    let start := s_writeOffset s in
    let c := write_at (Z.to_nat start) p (default [] (disk_get d (s_id s))) in
    (disk_put (s_id s) c d,
     mkSegment (s_id s) (s_maxSize s) (start + Z.of_nat (length p)) (s_syncedOffset s),
     Ok start).

Definition Segment_Sync (s : Segment) : Segment :=
  mkSegment (s_id s) (s_maxSize s) (s_writeOffset s) (s_writeOffset s).

Definition Segment_Truncate (d : Disk) (s : Segment) (size : Z) : Disk * Segment :=
  let size := if size <? 0 then 0 else size in
  let c := default [] (disk_get d (s_id s)) in
  (disk_put (s_id s) (take (Z.to_nat size) c ++ replicate (Z.to_nat size - length c) x00) d,
   mkSegment (s_id s) (s_maxSize s) size (s_syncedOffset s)).

(** ** The log *)

Record WAL := mkWAL {
  w_disk : Disk;
  w_segmentSize : Z;
  w_current : Segment;
  w_currentID : Z;
  w_currentLSN : Z }.

Abbreviation WM := (M WAL error).

Definition set_disk_seg (d : Disk) (s : Segment) (w : WAL) : WAL :=
  mkWAL d (w_segmentSize w) s (w_currentID w) (w_currentLSN w).
Definition set_currentID (id : Z) (w : WAL) : WAL :=
  mkWAL (w_disk w) (w_segmentSize w) (w_current w) id (w_currentLSN w).
Definition set_currentLSN (lsn : Z) (w : WAL) : WAL :=
  mkWAL (w_disk w) (w_segmentSize w) (w_current w) (w_currentID w) lsn.

Definition Open (d : Disk) (segmentSize : Z) : WAL :=
  let segmentSize := if segmentSize <=? 0 then DefaultSegmentSize else segmentSize in
  let currentID := default 1 (last (listSegmentIDs d)) in
  let '(d, seg) := openSegment d currentID segmentSize in
  mkWAL d segmentSize seg currentID 0.

(** The old segment is synced, closed and not written again. *)
Definition rotateLocked (w : WAL) : WAL :=
  let currentID := w_currentID w + 1 in
  let '(d, seg) := openSegment (w_disk w) currentID (w_segmentSize w) in
  mkWAL d (w_segmentSize w) seg currentID (w_currentLSN w).
Definition Rotate (w : WAL) : WAL := rotateLocked w.

(** The first loop of AppendBatch: numbers and encodes the records into the
    buffer, and notes where each frame ends. *)
Fixpoint encode_records (records : list Record) (encBuf : list byte) (frameEnds : list Z)
    : WM (list byte * list Z) :=
  match records with
  | [] => sret (encBuf, frameEnds)
  | r :: records =>
      smodify (fun w => set_currentLSN (w_currentLSN w + 1) w) >>
      w <-- sget ;;
      let r := mkRecord (u64 (w_currentLSN w)) (r_Type r) (r_Payload r) in
      let start := length encBuf in
      encBuf <-- slift (appendFrame encBuf r) ;;
      if w_segmentSize w <? Z.of_nat (length encBuf) - Z.of_nat start
      then sfail (ErrRecordTooLarge (Z.of_nat (length encBuf) - Z.of_nat start) (w_segmentSize w))
      else encode_records records encBuf (frameEnds ++ [i32 (Z.of_nat (length encBuf))])
  end.

(** The inner loop of writeBuffered: the last frame end that fits. *)
Fixpoint fit_frames (fuel : nat) (frameEnds : list Z) (written space : Z) (fi : nat) (end_ : Z) : nat * Z :=
  match fuel with
  | O => (fi, end_)
  | S fuel' =>
      match frameEnds !! fi with
      | Some e =>
          if i32 (e - i32 written) <=? space
          then fit_frames fuel' frameEnds written space (S fi) e
          else (fi, end_)
      | None => (fi, end_)
      end
  end.

Fixpoint writeBuffered_loop (fuel : nat) (buf : list byte) (frameEnds : list Z) (written : Z) (fi : nat)
    : WM unit :=
  match fuel with
  | O => sfail ErrIO
  | S fuel' =>
      if Z.of_nat (length buf) <=? written then sret tt
      else
        w <-- sget ;;
        (if IsFull (w_current w) 1 then smodify rotateLocked else sret tt) >>
        w <-- sget ;;
        let space := s_maxSize (w_current w) - s_writeOffset (w_current w) in
        let '(fi', end_) := fit_frames (length frameEnds) frameEnds written space fi written in
        if end_ =? written then
          if space <? w_segmentSize w then
            smodify rotateLocked >> writeBuffered_loop fuel' buf frameEnds written fi'
          else sfail (ErrRecordTooLarge (default 0 (frameEnds !! fi') - written) (w_segmentSize w))
        else
          let '(d, s, r) := Segment_Write (w_disk w) (w_current w)
                              (slice (Z.to_nat written) (Z.to_nat end_) buf) in
          smodify (set_disk_seg d s) >>
          _ <-- slift r ;;
          writeBuffered_loop fuel' buf frameEnds end_ fi'
  end.

(** A round writes a frame or rotates, and a fresh segment holds every frame. *)
Definition writeBuffered (buf : list byte) (frameEnds : list Z) : WM unit :=
  writeBuffered_loop (2 * length frameEnds + 2) buf frameEnds 0 0.

Definition AppendBatch (records : list Record) : WM Z :=
  match records with
  | [] => w <-- sget ;; sret (w_currentLSN w)
  | _ =>
      w <-- sget ;;
      let startLSN := w_currentLSN w + 1 in
      enc <-- encode_records records [] [] ;;
      let '(encBuf, frameEnds) := enc in
      smodify (fun w => set_currentLSN (w_currentLSN w + 1) w) >>
      w <-- sget ;;
      let encBuf := appendCommitFrame encBuf (w_currentLSN w) (length records) in
      let frameEnds := frameEnds ++ [i32 (Z.of_nat (length encBuf))] in
      writeBuffered encBuf frameEnds >>
      sret startLSN
  end.

Definition Sync (w : WAL) : WAL := set_disk_seg (w_disk w) (Segment_Sync (w_current w)) w.
Definition CurrentLSN (w : WAL) : Z := w_currentLSN w.
Definition Head (w : WAL) : Z * Z := (w_currentID w, s_syncedOffset (w_current w)).
Definition AdvanceLSNTo (atLeast : Z) (w : WAL) : WAL :=
  if w_currentLSN w <? atLeast then set_currentLSN atLeast w else w.

Definition AppendCheckpoint (lsn : Z) : WM unit :=
  _ <-- AppendBatch [mkRecord 0 RecordTypeCheckpoint (be_bytes 8 (u64 lsn))] ;;
  smodify Sync.

(** ** Truncation *)

Definition peekTailChunk : Z := 64 * 2 ^ 10.
Definition peekResyncBound : Z := 4 * 2 ^ 10.
Definition peekMaxPayload : Z := 2 ^ 20.

Fixpoint walk_loop (fuel : nat) (b : list byte) (off : nat) (lastLSN : Z) : nat * Z :=
  match fuel with
  | O => (off, lastLSN)
  | S fuel' =>
      if (off + RecordHeaderSize + RecordCRCSize <=? length b)%nat then
        let payloadLen := be_val (slice (off + 9) (off + 13) b) in
        if peekMaxPayload <? payloadLen then (off, lastLSN)
        else
          let recLen := (RecordHeaderSize + Z.to_nat payloadLen + RecordCRCSize)%nat in
          if (length b <? off + recLen)%nat then (off, lastLSN)
          else if be_val (slice (off + 8) (off + 9) b) =? 0 then (off, lastLSN)
          else
            let lsn := i64 (be_val (slice off (off + 8) b)) in
            if lsn <=? 0 then (off, lastLSN)
            else walk_loop fuel' b (off + recLen) lsn
      else (off, lastLSN)
  end.
Definition walkFrameChain (b : list byte) : nat * Z := walk_loop (length b) b 0 0.

(** The resync loop over the start offsets. *)
Fixpoint peek_loop (fuel : nat) (buf : list byte) (start : nat) (bestEnd : nat) (bestLSN : Z) : Z :=
  match fuel with
  | O => bestLSN
  | S fuel' =>
      let '(end_, lsn) := walkFrameChain (drop start buf) in
      let '(bestEnd, bestLSN) :=
        if (bestEnd <? start + end_)%nat then ((start + end_)%nat, lsn) else (bestEnd, bestLSN) in
      if (end_ =? length buf - start)%nat then bestLSN
      else peek_loop fuel' buf (S start) bestEnd bestLSN
  end.

Definition peekSegmentMaxLSN (c : list byte) : Z :=
  if (length c <? RecordHeaderSize + RecordCRCSize)%nat then 0
  else
    let chunk := if Z.of_nat (length c) <? peekTailChunk then length c else Z.to_nat peekTailChunk in
    let buf := drop (length c - chunk) c in
    peek_loop (Nat.min (length buf) (Z.to_nat peekResyncBound)) buf 0 0 0.

Definition TruncateBefore (lsn : Z) (w : WAL) : WAL :=
  let step (d : Disk) (id : Z) :=
    if w_currentID w <=? id then d
    else match disk_get d id with
         | None => d
         | Some c => if peekSegmentMaxLSN c <? lsn then disk_remove id d else d
         end in
  mkWAL (foldl step (w_disk w) (listSegmentIDs (w_disk w))) (w_segmentSize w) (w_current w)
    (w_currentID w) (w_currentLSN w).

Definition Reset (w : WAL) : WAL :=
  let d := foldl (fun d id => disk_remove id d) (w_disk w) (listSegmentIDs (w_disk w)) in
  let '(d, seg) := openSegment d 1 (w_segmentSize w) in
  mkWAL d (w_segmentSize w) seg 1 0.
