(* ===== verification/Recovery.v ===== *)
(** * Recovery of the log (internal/wal/recovery.go, wal.go RecoverFromLSN)

    Replays the committed batches of the segments into a handler, a failing
    computation over a state [S], and truncates what was never committed. *)

From S2P Require Import Prelude Core Crc Record Wal.

Record replayState := mkReplay {
  rp_pending : list Record;
  rp_highestLSN : Z }.

Definition maxInt64 : Z := 2 ^ 63 - 1.

Definition minRecordLSN (records : list Record) : Z :=
  foldl (fun minLSN r => if i64 (r_LSN r) <? minLSN then i64 (r_LSN r) else minLSN) maxInt64 records.

(** [binary.BigEndian.Uint32(rec.Payload[8:12])], 0 for a short payload. *)
Definition commit_count (rec : Record) : Z :=
  if (12 <=? length (r_Payload rec))%nat then be_val (slice 8 12 (r_Payload rec)) else 0.

Definition truncate_file (offset : nat) (c : list byte) : list byte :=
  take offset c ++ replicate (offset - length c) x00.

Section Handler.
Context {S : Type} (handler : Record -> M S error unit).

Fixpoint handle_all (records : list Record) : M S error unit :=
  match records with
  | [] => sret tt
  | r :: records => handler r >> handle_all records
  end.

(** The loop of replaySegment at [offset]; the result is [(stop,
    committedOffset)].  An error of the handler ends the recovery. *)
Fixpoint replay_loop (fuel : nat) (data : list byte) (offset committed : nat) (st : replayState)
    : M S error (bool * nat * replayState) :=
  match fuel with
  | O => sret (false, committed, st)
  | Datatypes.S fuel' =>
      if (length data <=? offset)%nat then sret (false, committed, st)
      else if (length data - offset <? RecordHeaderSize + RecordCRCSize)%nat
      then sret (true, committed, st)
      else
        let payloadLen := be_val (slice (offset + 9) (offset + 13) data) in
        let recLen := (RecordHeaderSize + Z.to_nat payloadLen + RecordCRCSize)%nat in
        if (length data <? offset + recLen)%nat then sret (true, committed, st)
        else
          match DecodeRecord (slice offset (offset + recLen) data) with
          | Err ErrCorrupted => sret (true, committed, st)
          | Err e => sfail e
          | Ok rec =>
              if r_Type rec =? RecordTypeBatchCommit then
                if Z.of_nat (length (rp_pending st)) =? commit_count rec then
                  handle_all (rp_pending st) >>
                  replay_loop fuel' data (offset + recLen) (offset + recLen)
                    (mkReplay [] (i64 (r_LSN rec)))
                else replay_loop fuel' data (offset + recLen) committed
                       (mkReplay [] (rp_highestLSN st))
              else replay_loop fuel' data (offset + recLen) committed
                     (mkReplay (rp_pending st ++ [rec]) (rp_highestLSN st))
          end
  end.

(** Every frame has at least 17 bytes, so the length bounds the frames. *)
Definition replaySegment (data : list byte) (st : replayState) : M S error (bool * nat * replayState) :=
  replay_loop (Datatypes.S (length data)) data 0 0 st.

(** The loop of recoverSegments over the segment files: the read segments with
    their committed offsets, and the ids that follow a corrupt one. *)
Fixpoint read_segments (fromLSN : Z) (files : Disk) (st : replayState) (processed : list (Z * nat))
    (lastSegmentID : Z) : M S error (replayState * list (Z * nat) * Z * option (list Z)) :=
  match files with
  | [] => sret (st, processed, lastSegmentID, None)
  | (id, c) :: files =>
      if (0 <? fromLSN) && negb (match files with [] => true | _ => false end)
         && (peekSegmentMaxLSN c <=? fromLSN)
      then read_segments fromLSN files st processed id
      else
        r <-- replaySegment c st ;;
        let '(stop, committedOffset, st) := r in
        let processed := processed ++ [(id, committedOffset)] in
        if (stop : bool) then sret (st, processed, id, Some files.*1)
        else read_segments fromLSN files st processed id
  end.

(** Truncates each read segment to its committed offset. *)
Definition truncate_processed (processed : list (Z * nat)) (d : Disk) : Disk :=
  foldl (fun d p =>
    match disk_get d p.1 with
    | None => d
    | Some c => if (length c =? p.2)%nat then d else disk_put p.1 (truncate_file p.2 c) d
    end) d processed.

Definition recoverSegments (d : Disk) (fromLSN : Z) : M S error (Disk * Z * Z) :=
  match d with
  | [] => sret (d, 0, 0)
  | _ =>
      r <-- read_segments fromLSN d (mkReplay [] 0) [] 0 ;;
      let '(st, processed, lastSegmentID, stale) := r in
      let torn := match stale with Some _ => true | None => negb (length (rp_pending st) =? 0)%nat end in
      let strict := (fromLSN =? 0) || (fromLSN <? minRecordLSN (rp_pending st)) in
      let d :=
        if torn && strict then
          let d := truncate_processed processed d in
          match stale with
          | Some ids => foldl (fun d id => disk_remove id d) d ids
          | None => d
          end
        else d in
      sret (d, rp_highestLSN st, lastSegmentID)
  end.
End Handler.

(** The handler of a recovery from [fromLSN] skips the records it covers. *)
Definition filter_handler {S : Type} (fromLSN : Z) (handler : Record -> M S error unit) (r : Record)
    : M S error unit :=
  if i64 (r_LSN r) <=? fromLSN then sret tt else handler r.

(** A failed recovery leaves the log as it was. *)
Definition RecoverFromLSN {S : Type} (fromLSN : Z) (handler : Record -> M S error unit) (w : WAL) (s : S)
    : WAL * S * result unit error :=
  match recoverSegments (filter_handler fromLSN handler) (w_disk w) fromLSN s with
  | (s, Err e) => (w, s, Err e)
  | (s, Ok (d, recovered, lastSegmentID)) =>
      let recovered := if recovered <? fromLSN then fromLSN else recovered in
      let currentLSN := if w_currentLSN w <? recovered then recovered else w_currentLSN w in
      let lastSegmentID := if lastSegmentID =? 0 then 1 else lastSegmentID in
      let '(d, seg) := openSegment d lastSegmentID (w_segmentSize w) in
      (mkWAL d (w_segmentSize w) seg lastSegmentID currentLSN, s, Ok tt)
  end.
Definition Recover {S : Type} (handler : Record -> M S error unit) (w : WAL) (s : S)
    : WAL * S * result unit error := RecoverFromLSN 0 handler w s.
