(* ===== verification/WalProps.v ===== *)
(** * Properties of the log

    [holds_frames] is the representation invariant of the log: the segment
    files, in order, are whole frames.  Appending keeps it and adds exactly the
    batch; recovery of such files, with a torn tail, delivers exactly the
    committed batches. *)

From S2P Require Import Prelude Core Crc Record Wal Recovery.

(** ** Frames of a record list *)

Definition frames (rs : list Record) : list byte := concat (frame <$> rs).

#[global] Arguments frames : simpl never.

Lemma frames_app a b : frames (a ++ b) = frames a ++ frames b.
Proof. unfold frames. by rewrite fmap_app, concat_app. Qed.
Lemma frames_cons r rs : frames (r :: rs) = frame r ++ frames rs.
Proof. done. Qed.
Lemma frames_one r : frames [r] = frame r.
Proof. unfold frames. simpl. by rewrite app_nil_r. Qed.

(** The records of a batch as written: numbered from [lsn + 1], then its
    commit marker. *)
Fixpoint number (lsn : Z) (rs : list Record) : list Record :=
  match rs with
  | [] => []
  | r :: rs => mkRecord (u64 (lsn + 1)) (r_Type r) (r_Payload r) :: number (lsn + 1) rs
  end.
Definition batch_records (lsn : Z) (rs : list Record) : list Record :=
  number lsn rs ++ [commit_record (lsn + Z.of_nat (length rs) + 1) (length rs)].

Lemma length_number lsn rs : length (number lsn rs) = length rs.
Proof. revert lsn. induction rs; intros; simpl; auto. Qed.

(** What a client may append: frames that exist and fit in a segment. *)
Definition appendable (segmentSize : Z) (r : Record) : Prop :=
  0 < r_Type r < 256 /\ Z.of_nat (length (r_Payload r)) < 2 ^ 32
  /\ 17 + Z.of_nat (length (r_Payload r)) <= segmentSize.

Lemma number_wf segmentSize lsn rs : Forall (appendable segmentSize) rs -> Forall wf_record (number lsn rs).
Proof.
  revert lsn. induction rs as [|r rs IH]; intros lsn; [constructor|].
  intros [(Ht & Hp & _) Hrs]%Forall_cons. simpl. constructor; [|auto].
  constructor; simpl; try done. unfold is_u64, u64. apply Z.mod_pos_bound. lia.
Qed.

(** ** The representation *)

(** A segment file and the records in it. *)
Definition seg_file (g : Z * list Record) : Z * list byte := (g.1, frames g.2).

Lemma seg_ids groups : (seg_file <$> groups).*1 = groups.*1.
Proof. induction groups; [done|]. simpl. by f_equal. Qed.

Fixpoint increasing (lo : Z) (ids : list Z) : Prop :=
  match ids with
  | [] => True
  | id :: ids => lo < id /\ increasing id ids
  end.

Record holds_frames (w : WAL) (groups : list (Z * list Record)) (g : list Record) : Prop := {
  hf_disk : w_disk w = (seg_file <$> groups) ++ [(w_currentID w, frames g)];
  hf_ids : increasing 0 (groups.*1 ++ [w_currentID w]);
  hf_current : s_id (w_current w) = w_currentID w;
  hf_size : 0 < w_segmentSize w;
  hf_max : s_maxSize (w_current w) = w_segmentSize w;
  hf_offset : s_writeOffset (w_current w) = Z.of_nat (length (frames g));
  hf_bound : Z.of_nat (length (frames g)) <= w_segmentSize w;
  hf_files : Forall (fun gr => Z.of_nat (length (frames gr.2)) <= w_segmentSize w) groups;
  hf_synced : 0 <= s_syncedOffset (w_current w) <= s_writeOffset (w_current w) }.

(** All records in the log, in order. *)
Definition all_records (groups : list (Z * list Record)) (g : list Record) : list Record :=
  concat groups.*2 ++ g.

(** The bytes known to be on stable storage: rotation syncs the segment it
    leaves. *)
Definition synced_bytes (w : WAL) (groups : list (Z * list Record)) : Z :=
  Z.of_nat (length (frames (concat groups.*2))) + s_syncedOffset (w_current w).

(** ** The directory *)

Lemma disk_get_last (d : Disk) id c : increasing 0 (d.*1 ++ [id]) -> disk_get (d ++ [(id, c)]) id = Some c.
Proof.
  generalize 0. induction d as [|[i c'] d IH]; intros lo; simpl.
  - intros _. by rewrite Z.eqb_refl.
  - intros [H1 H2]. destruct (Z.eqb_spec i id) as [->|]; [|by eapply IH].
    exfalso. clear -H2. revert H2. generalize (d.*1). intros l.
    assert (H : forall lo l, increasing lo (l ++ [id]) -> lo < id).
    { intros lo' l'. revert lo'. induction l' as [|x l' IH']; intros lo'; simpl; [tauto|].
      intros [? ?%IH']. lia. }
    intros ?%H. lia.
Qed.

Lemma increasing_lt lo l id : increasing lo (l ++ [id]) -> Forall (fun x => x < id) l /\ lo < id.
Proof.
  revert lo. induction l as [|x l IH]; intros lo; simpl; [intros [? _]; by split|].
  intros [H1 H2]. destruct (IH x H2) as [H3 H4]. split; [by constructor|lia].
Qed.

Lemma disk_put_last (d : Disk) id c c' : increasing 0 (d.*1 ++ [id]) ->
  disk_put id c' (d ++ [(id, c)]) = d ++ [(id, c')].
Proof.
  intros [H _]%increasing_lt. induction d as [|[i ci] d IH]; simpl.
  - by rewrite Z.eqb_refl.
  - apply Forall_cons in H as [Hi H]. simpl in Hi. rewrite (proj2 (Z.eqb_neq _ _)) by lia.
    rewrite (proj2 (Z.ltb_ge _ _)) by lia. by rewrite IH.
Qed.

Lemma disk_put_new (d : Disk) id c : Forall (fun x => x < id) d.*1 -> disk_put id c d = d ++ [(id, c)].
Proof.
  induction d as [|[i ci] d IH]; simpl; [done|]. intros [Hi H]%Forall_cons. simpl in Hi.
  rewrite (proj2 (Z.eqb_neq _ _)) by lia. rewrite (proj2 (Z.ltb_ge _ _)) by lia. by rewrite IH.
Qed.
Lemma disk_get_new (d : Disk) id : Forall (fun x => x < id) d.*1 -> disk_get d id = None.
Proof.
  induction d as [|[i ci] d IH]; simpl; [done|]. intros [Hi H]%Forall_cons. simpl in Hi.
  rewrite (proj2 (Z.eqb_neq _ _)) by lia. auto.
Qed.

Lemma increasing_snoc lo l a b : increasing lo (l ++ [a]) -> a < b -> increasing lo (l ++ [a] ++ [b]).
Proof. revert lo. induction l as [|x l IH]; intros lo; simpl; [tauto|]. intros [? ?] ?. auto. Qed.

(** Rotation starts an empty segment. *)
Lemma rotate_holds w groups g : holds_frames w groups g ->
  holds_frames (rotateLocked w) (groups ++ [(w_currentID w, g)]) []
  /\ w_currentLSN (rotateLocked w) = w_currentLSN w /\ w_segmentSize (rotateLocked w) = w_segmentSize w
  /\ synced_bytes w groups <= synced_bytes (rotateLocked w) (groups ++ [(w_currentID w, g)]).
Proof.
  intros [Hd Hi Hc Hs Hm Ho Hb Hf Hsy]. unfold rotateLocked, openSegment.
  destruct (increasing_lt _ _ _ Hi) as [Hlt Hpos].
  assert (Hnew : Forall (fun x => x < w_currentID w + 1) (w_disk w).*1).
  { rewrite Hd, fmap_app. apply Forall_app. split.
    - rewrite seg_ids. apply (Forall_impl _ _ _ Hlt). intros x Hx. cbn in Hx. lia.
    - constructor; [simpl; lia|constructor]. }
  rewrite disk_get_new, disk_put_new by done. cbn [default from_option].
  rewrite (proj2 (Z.leb_gt _ _)) by lia. split; [|split_and!; [done|done|]].
  - constructor; simpl; try done; try lia.
    + rewrite Hd. by rewrite fmap_app.
    + rewrite fmap_app. simpl. rewrite <- app_assoc. apply increasing_snoc; [done|lia].
    + apply Forall_app. by split; [|constructor].
  - unfold synced_bytes. rewrite fmap_app, concat_app, frames_app, length_app. simpl.
    rewrite app_nil_r. lia.
Qed.

(** Writing whole frames that fit. *)
Lemma write_holds w groups g rs : holds_frames w groups g -> rs <> [] ->
  Z.of_nat (length (frames g)) + Z.of_nat (length (frames rs)) <= w_segmentSize w ->
  exists d s, Segment_Write (w_disk w) (w_current w) (frames rs)
    = (d, s, Ok (s_writeOffset (w_current w)))
    /\ holds_frames (set_disk_seg d s w) groups (g ++ rs)
    /\ synced_bytes (set_disk_seg d s w) groups = synced_bytes w groups.
Proof.
  intros [Hd Hi Hc Hs Hm Ho Hb Hf Hsy] Hne Hfit. unfold Segment_Write, IsFull.
  rewrite (proj2 (Z.ltb_ge _ 0)) by lia. rewrite (proj2 (Z.ltb_ge _ _)) by lia.
  rewrite Hc, Hd, disk_get_last by (by rewrite seg_ids). cbn [default from_option].
  rewrite disk_put_last by (by rewrite seg_ids). do 2 eexists. split; [done|].
  assert (Hw : write_at (Z.to_nat (s_writeOffset (w_current w))) (frames rs) (frames g) = frames (g ++ rs)).
  { rewrite Ho, Nat2Z.id, frames_app. unfold write_at. rewrite take_ge, Nat.sub_diag, drop_ge by lia.
    by rewrite app_nil_r. }
  split; [|done].
  constructor; simpl; try done; rewrite ?Hw; try done.
  - rewrite frames_app, length_app, Ho. lia.
  - rewrite frames_app, length_app. lia.
  - lia.
Qed.

(** ** Encoding a batch *)

(** Where each frame ends. *)
Fixpoint ends (off : Z) (rs : list Record) : list Z :=
  match rs with
  | [] => []
  | r :: rs => let e := off + Z.of_nat (length (frame r)) in e :: ends e rs
  end.

Lemma ends_app off a b :
  ends off (a ++ b) = ends off a ++ ends (off + Z.of_nat (length (frames a))) b.
Proof.
  revert off. induction a as [|r a IH]; intros off; cbn [ends app]; [f_equal; unfold frames; cbn; lia|].
  rewrite frames_cons, length_app, IH. do 3 f_equal. lia.
Qed.
Lemma length_ends off rs : length (ends off rs) = length rs.
Proof. revert off. induction rs; intros; simpl; auto. Qed.
Lemma frames_nil_inv rs : length (frames rs) = 0%nat -> rs = [].
Proof. destruct rs; [done|]. rewrite frames_cons, length_app, length_frame. lia. Qed.

Lemma i32_small z : 0 <= z < 2 ^ 31 -> i32 z = z.
Proof. unfold i32. intros. rewrite Z.mod_small; lia. Qed.

(** The log with another LSN counter. *)
Lemma holds_set_LSN w groups g lsn : holds_frames w groups g -> holds_frames (set_currentLSN lsn w) groups g.
Proof. intros []. by constructor. Qed.

Lemma encode_records_ok rs : forall w prev fe,
  Forall (appendable (w_segmentSize w)) rs ->
  Z.of_nat (length (frames (prev ++ number (w_currentLSN w) rs))) < 2 ^ 31 ->
  encode_records rs (frames prev) fe w
  = (set_currentLSN (w_currentLSN w + Z.of_nat (length rs)) w,
     Ok (frames (prev ++ number (w_currentLSN w) rs),
         fe ++ ends (Z.of_nat (length (frames prev))) (number (w_currentLSN w) rs))).
Proof.
  induction rs as [|r rs IH]; intros w prev fe Hrs Hlen.
  { simpl. rewrite !app_nil_r. unfold sret. do 2 f_equal. destruct w; unfold set_currentLSN; simpl; f_equal; lia. }
  pose proof (number_wf _ (w_currentLSN w) _ Hrs) as Hwf. simpl in Hwf. apply Forall_cons in Hwf as [Hwf _].
  apply Forall_cons in Hrs as [(_ & _ & Hsz) Hrs].
  simpl. unfold sbind at 1. cbn [smodify]. unfold sbind at 1. cbn [sget].
  cbn [set_currentLSN w_currentLSN w_segmentSize]. rewrite appendFrame_frame by done.
  unfold sbind at 1. cbn [slift]. rewrite length_app, length_frame. cbn [r_Payload].
  rewrite (proj2 (Z.ltb_ge _ _)) by lia.
  set (r' := mkRecord (u64 (w_currentLSN w + 1)) (r_Type r) (r_Payload r)) in *.
  assert (Hf : frames prev ++ frame r' = frames (prev ++ [r'])) by (by rewrite frames_app, frames_one).
  rewrite Hf. simpl number in Hlen. fold r' in Hlen.
  replace (prev ++ r' :: number (w_currentLSN w + 1) rs)
    with ((prev ++ [r']) ++ number (w_currentLSN w + 1) rs) in * by (by rewrite <- app_assoc).
  assert (Hb : Z.of_nat (length (frames prev)) + Z.of_nat (length (frame r')) < 2 ^ 31).
  { rewrite !frames_app, frames_one, !length_app in Hlen. lia. }
  rewrite (IH (set_currentLSN (w_currentLSN w + 1) w) (prev ++ [r'])); [|done|done].
  cbn [set_currentLSN w_currentLSN ends length]. fold r'.
  assert (Hi : i32 (Z.of_nat (length (frames prev) + (17 + length (r_Payload r))))
               = Z.of_nat (length (frames prev)) + Z.of_nat (length (frame r'))).
  { assert (Hl : length (frame r') = (17 + length (r_Payload r))%nat) by exact (length_frame r').
    rewrite i32_small; lia. }
  rewrite Hi, <- (app_assoc fe). cbn [app]. f_equal.
  - destruct w; unfold set_currentLSN; simpl; f_equal; lia.
  - by rewrite (frames_app prev [r']), frames_one, length_app, Nat2Z.inj_add.
Qed.

(** ** Writing a batch *)

Lemma slice_frames a b c : slice (length (frames a)) (length (frames (a ++ b))) (frames (a ++ b ++ c)) = frames b.
Proof. rewrite !frames_app. apply slice_mid; [done|by rewrite length_app]. Qed.

(** [fit_frames] takes the longest run of frames that fits. *)
Lemma fit_frames_ok fuel : forall prev fit todo written space,
  (length todo <= fuel)%nat -> 0 <= written ->
  Z.of_nat (length (frames (prev ++ fit ++ todo))) < 2 ^ 31 ->
  written = Z.of_nat (length (frames prev)) ->
  Z.of_nat (length (frames fit)) <= space ->
  exists fit' rest, todo = fit' ++ rest
    /\ fit_frames fuel (ends 0 (prev ++ fit ++ todo)) written space
         (length (prev ++ fit)) (Z.of_nat (length (frames (prev ++ fit))))
       = (length (prev ++ fit ++ fit'), Z.of_nat (length (frames (prev ++ fit ++ fit'))))
    /\ Z.of_nat (length (frames (fit ++ fit'))) <= space
    /\ (forall r rest', rest = r :: rest' -> space < Z.of_nat (length (frames (fit ++ fit' ++ [r])))).
Proof.
  induction fuel as [|fuel IH]; intros prev fit todo written space Hfuel Hw Hlen Ew Hfit.
  { destruct todo; [|simpl in Hfuel; lia]. exists [], []. rewrite !app_nil_r. by split_and!. }
  simpl fit_frames.
  destruct todo as [|r todo].
  { exists [], []. rewrite !app_nil_r. rewrite lookup_ge_None_2 by (rewrite length_ends; lia). by split_and!. }
  assert (Hl : ends 0 (prev ++ fit ++ r :: todo) !! length (prev ++ fit)
               = Some (Z.of_nat (length (frames (prev ++ fit ++ [r]))))).
  { rewrite (app_assoc prev), ends_app, lookup_app_r by (rewrite length_ends; lia).
    rewrite length_ends, Nat.sub_diag. cbn [ends lookup list_lookup]. f_equal.
    rewrite (app_assoc prev fit [r]), (frames_app (prev ++ fit) [r]), frames_one, (length_app (frames (prev ++ fit))). lia. }
  rewrite Hl.
  replace (prev ++ fit ++ r :: todo) with (prev ++ (fit ++ [r]) ++ todo) in * by (by rewrite <- !app_assoc).
  assert (Hb : Z.of_nat (length (frames prev)) + Z.of_nat (length (frames (fit ++ [r]))) < 2 ^ 31).
  { rewrite !frames_app, !length_app in *. lia. }
  rewrite (i32_small written) by lia.
  rewrite (i32_small (_ - _)) by (rewrite (frames_app prev), length_app; lia).
  replace (Z.of_nat (length (frames (prev ++ fit ++ [r]))) - written)
    with (Z.of_nat (length (frames (fit ++ [r])))) by (rewrite (frames_app prev), length_app; lia).
  destruct (Z.leb_spec (Z.of_nat (length (frames (fit ++ [r])))) space) as [Hle|Hgt].
  - destruct (IH prev (fit ++ [r]) todo written space) as (fit' & rest & -> & E & Hs & Hmax); try done.
    { simpl in Hfuel. lia. }
    exists (r :: fit'), rest.
    replace (S (length (prev ++ fit))) with (length (prev ++ fit ++ [r]))
      by (rewrite !length_app; simpl; lia).
    rewrite E. rewrite <- !app_assoc in *. split_and!; [done|reflexivity|done|].
    intros r0 rest' Hr. pose proof (Hmax r0 rest' Hr) as H. by rewrite <- app_assoc in H.
  - exists [], (r :: todo). rewrite !app_nil_r. split_and!; [done|done|done|]. by intros ? ? [= <- <-].
Qed.

(** A rotation helps only once a segment is used. *)
Definition used (w : WAL) : nat := if s_writeOffset (w_current w) =? 0 then 0 else 1.

(** The loop writes what is left to write; [todo] is the part of the batch not
    yet in the log. *)
Lemma writeBuffered_loop_ok fuel : forall w groups g prev todo,
  holds_frames w groups g ->
  Forall (fun r => Z.of_nat (length (frame r)) <= w_segmentSize w) todo ->
  Z.of_nat (length (frames (prev ++ todo))) < 2 ^ 31 ->
  (2 * length todo + used w < fuel)%nat ->
  exists w' groups' g',
    writeBuffered_loop fuel (frames (prev ++ todo)) (ends 0 (prev ++ todo))
      (Z.of_nat (length (frames prev))) (length prev) w = (w', Ok tt)
    /\ holds_frames w' groups' g'
    /\ all_records groups' g' = all_records groups g ++ todo
    /\ w_currentLSN w' = w_currentLSN w /\ w_segmentSize w' = w_segmentSize w
    /\ synced_bytes w groups <= synced_bytes w' groups'
    /\ (Z.of_nat (length (frames (g ++ todo))) <= w_segmentSize w ->
        groups' = groups /\ w_currentID w' = w_currentID w).
Proof.
  induction fuel as [|fuel IH]; intros w groups g prev todo H Hsz Hlen Hfuel; [lia|].
  simpl writeBuffered_loop.
  destruct (Z.leb_spec (Z.of_nat (length (frames (prev ++ todo)))) (Z.of_nat (length (frames prev)))) as [Hle|Hgt].
  { rewrite frames_app, length_app in Hle. assert (todo = []) as -> by (apply frames_nil_inv; lia).
    exists w, groups, g. rewrite app_nil_r. by split_and!. }
  destruct todo as [|r todo]; [rewrite app_nil_r in Hgt; lia|].
  (* a full segment is rotated first *)
  unfold sbind at 1. cbn [sget]. unfold sbind at 1.
  assert (Hrot : exists w1 groups1 g1, (if IsFull (w_current w) 1 then smodify rotateLocked else sret tt) w
             = (w1, Ok tt : result unit error)
           /\ holds_frames w1 groups1 g1 /\ all_records groups1 g1 = all_records groups g
           /\ w_currentLSN w1 = w_currentLSN w /\ w_segmentSize w1 = w_segmentSize w
           /\ (used w1 <= used w)%nat /\ synced_bytes w groups <= synced_bytes w1 groups1
           /\ (Z.of_nat (length (frames (g ++ r :: todo))) <= w_segmentSize w ->
               groups1 = groups /\ g1 = g /\ w_currentID w1 = w_currentID w)).
  { destruct (IsFull (w_current w) 1) eqn:Ef.
    - destruct (rotate_holds _ _ _ H) as (H1 & E1 & E2 & E3). do 3 eexists. split; [done|]. split_and!; try done.
      + unfold all_records. rewrite fmap_app, concat_app. simpl. by rewrite !app_nil_r.
      + unfold used at 1. rewrite (hf_offset _ _ _ H1). simpl. lia.
      + intros Hfit. exfalso. rewrite frames_app, frames_cons, !length_app, length_frame in Hfit.
        revert Ef. unfold IsFull. rewrite (hf_max _ _ _ H), (hf_offset _ _ _ H). cbn [Z.ltb Z.compare].
        intros ?%Z.ltb_lt. lia.
    - exists w, groups, g. by split_and!. }
  destruct Hrot as (w1 & groups1 & g1 & E1 & H1 & Ea & El & Es & Ew & Ey & Hone). rewrite E1. clear E1.
  unfold sbind at 1. cbn [sget].
  rewrite (hf_max _ _ _ H1), (hf_offset _ _ _ H1), Es.
  set (space := w_segmentSize w - Z.of_nat (length (frames g1))).
  pose proof (hf_bound _ _ _ H1) as Hb. rewrite Es in Hb.
  destruct (fit_frames_ok (length (ends 0 (prev ++ r :: todo))) prev [] (r :: todo)
              (Z.of_nat (length (frames prev))) space) as (fit & rest & Et & Ef & Hfit & Hmax);
    [rewrite length_ends, length_app; lia|lia|done|done|change (length (frames [])) with 0%nat; unfold space; lia|].
  cbn [app] in Ef. rewrite app_nil_r in Ef. rewrite Ef. clear Ef. rewrite !app_nil_l in *.
  destruct fit as [|r0 fit].
  - (* nothing fits: the segment is not fresh *)
    cbn [app] in Et. subst rest. specialize (Hmax r todo eq_refl). cbn [app] in Hmax.
    rewrite frames_one in Hmax. rewrite app_nil_r, Z.eqb_refl.
    apply Forall_cons in Hsz as [Hr Hsz].
    rewrite (proj2 (Z.ltb_lt space _)) by lia. unfold sbind at 1. cbn [smodify].
    destruct (rotate_holds _ _ _ H1) as (H2 & E1' & E2' & E3').
    destruct (IH (rotateLocked w1) _ _ prev (r :: todo) H2) as (w' & groups' & g' & Er & H' & Ea' & El' & Es' & Ey' & Hone').
    + rewrite E2', Es. by constructor.
    + done.
    + unfold used in *. rewrite (hf_offset _ _ _ H2). cbn [frames].
      assert (s_writeOffset (w_current w1) <> 0) by (rewrite (hf_offset _ _ _ H1); lia).
      rewrite (proj2 (Z.eqb_neq (s_writeOffset (w_current w1)) 0)) in Ew by done.
      change (length (frames [])) with 0%nat. simpl in *. destruct (_ =? 0); lia.
    + exists w', groups', g'. rewrite Er. split; [done|]. split; [done|].
      rewrite Ea', El', Es', E1', E2'. split_and!; try done; [|lia|].
      * rewrite <- Ea. unfold all_records. rewrite fmap_app, concat_app. simpl. by rewrite !app_nil_r.
      * intros Hall. destruct (Hone Hall) as (_ & -> & _). exfalso.
        rewrite frames_app, frames_cons, !length_app in Hall. unfold space in *. lia.
  - rewrite Et in *.
    assert (Hne : Z.of_nat (length (frames (prev ++ r0 :: fit))) <> Z.of_nat (length (frames prev))).
    { rewrite frames_app, frames_cons, !length_app, length_frame. lia. }
    rewrite (proj2 (Z.eqb_neq _ _)) by done. rewrite !Nat2Z.id.
    replace (prev ++ (r0 :: fit) ++ rest) with ((prev ++ r0 :: fit) ++ rest) by (by rewrite <- app_assoc).
    rewrite <- (app_assoc prev), slice_frames.
    destruct (write_holds w1 groups1 g1 (r0 :: fit) H1) as (d & s & Ed & H2 & E3'); [done|rewrite Es; unfold space in *; lia|].
    rewrite Ed. unfold sbind at 1. cbn [smodify]. unfold sbind at 1. cbn [slift].
    rewrite (app_assoc prev).
    destruct (IH (set_disk_seg d s w1) _ _ (prev ++ r0 :: fit) rest H2) as (w' & groups' & g' & Er & H' & Ea' & El' & Es' & Ey' & Hone').
    + cbn. rewrite Es. by apply Forall_app in Hsz as [_ ?].
    + by rewrite <- app_assoc.
    + revert Hfuel. unfold used. rewrite !length_app. simpl. destruct (_ =? 0), (_ =? 0); lia.
    + exists w', groups', g'. rewrite Er. split; [done|]. split; [done|].
      rewrite Ea', El', Es'. split_and!; try done; [|lia|].
      * rewrite <- Ea. unfold all_records. by rewrite <- !app_assoc.
      * intros Hall. destruct (Hone Hall) as (-> & -> & Hid). rewrite <- Hid. apply Hone'.
        rewrite <- app_assoc. change (w_segmentSize (set_disk_seg d s w1)) with (w_segmentSize w1).
        by rewrite Es.
Qed.

(** ** Appending a batch *)

(** The bytes of a batch, with its marker, number below 2^31: frame ends are
    kept as int32. *)
Record appendable_batch (w : WAL) (records : list Record) : Prop := {
  ab_nonempty : records <> [];
  ab_fits : Forall (appendable (w_segmentSize w)) records;
  ab_marker : 29 <= w_segmentSize w;
  ab_bytes : Z.of_nat (length (frames (batch_records (w_currentLSN w) records))) < 2 ^ 31 }.

Lemma number_fits segmentSize lsn rs : Forall (appendable segmentSize) rs ->
  Forall (fun r => Z.of_nat (length (frame r)) <= segmentSize) (number lsn rs).
Proof.
  revert lsn. induction rs as [|r rs IH]; intros lsn; [constructor|].
  intros [(_ & _ & Hr) Hrs]%Forall_cons. cbn [number]. constructor; [|auto].
  rewrite length_frame. cbn [r_Payload]. lia.
Qed.

Lemma length_commit_frame lsn n : length (frame (commit_record lsn n)) = 29%nat.
Proof. rewrite length_frame. cbn [commit_record r_Payload]. by rewrite length_app, !length_be_bytes. Qed.

Lemma append_ok w groups g records : holds_frames w groups g -> appendable_batch w records ->
  exists w' groups' g', AppendBatch records w = (w', Ok (w_currentLSN w + 1))
    /\ holds_frames w' groups' g'
    /\ all_records groups' g' = all_records groups g ++ batch_records (w_currentLSN w) records
    /\ w_currentLSN w' = w_currentLSN w + Z.of_nat (length records) + 1
    /\ w_segmentSize w' = w_segmentSize w
    /\ synced_bytes w groups <= synced_bytes w' groups'
    /\ (Z.of_nat (length (frames (g ++ batch_records (w_currentLSN w) records))) <= w_segmentSize w ->
        groups' = groups /\ w_currentID w' = w_currentID w).
Proof.
  intros H [Hne Hfits Hmark Hbytes]. unfold AppendBatch. destruct records as [|r0 records0] eqn:Er; [done|].
  rewrite <- Er in *. clear Hne Er r0 records0.
  unfold sbind at 1. cbn [sget]. unfold sbind at 1.
  assert (Hb0 : Z.of_nat (length (frames ([] ++ number (w_currentLSN w) records))) < 2 ^ 31).
  { unfold batch_records in Hbytes. rewrite frames_app, length_app in Hbytes. cbn [app]. lia. }
  pose proof (encode_records_ok records w [] [] Hfits Hb0) as Ee.
  change (frames []) with (@nil byte) in Ee. rewrite Ee. clear Ee Hb0.
  set (lsn := w_currentLSN w) in *. cbn [app length].
  unfold sbind at 1. cbn [smodify]. unfold sbind at 1. cbn [sget set_currentLSN w_currentLSN].
  rewrite appendCommitFrame_frame, <- (frames_one (commit_record _ _)), <- frames_app.
  fold (batch_records lsn records).
  assert (Eend : ends 0 (number lsn records)
                 ++ [i32 (Z.of_nat (length (frames (batch_records lsn records))))]
                 = ends 0 (batch_records lsn records)).
  { unfold batch_records at 2. rewrite ends_app. cbn [ends]. rewrite i32_small by lia. f_equal. f_equal.
    unfold batch_records. rewrite frames_app, frames_one, length_app. lia. }
  change (Z.of_nat 0) with 0. rewrite Eend. unfold writeBuffered.
  match goal with |- context [writeBuffered_loop ?fuel _ _ 0 0] => set (fu := fuel) end.
  set (w1 := set_currentLSN _ (set_currentLSN _ w)).
  destruct (writeBuffered_loop_ok fu w1 groups g [] (batch_records lsn records))
    as (w' & groups' & g' & E & H' & Ea & El & Es & Ey & Hone).
  - by apply holds_set_LSN, holds_set_LSN.
  - change (w_segmentSize w1) with (w_segmentSize w). apply Forall_app. split; [by apply number_fits|]. constructor; [|constructor].
    rewrite length_commit_frame. lia.
  - done.
  - unfold fu. rewrite length_ends. unfold used. destruct (_ =? 0); lia.
  - cbn [app length] in E. change (Z.of_nat (length (frames []))) with 0 in E.
    exists w', groups', g'. unfold sbind at 1. rewrite E. cbn [sret]. split_and!; try done.
Qed.
