(* ===== verification/RecoveryProps.v ===== *)
(** * Properties of recovery

    After a crash the last segment file is a prefix of what was written.
    Recovery of such files hands over exactly the batches whose bytes, marker
    included, survived. *)

From S2P Require Import Prelude Core Crc Record Wal Recovery WalProps.

(** ** Replay over records

    What replaying whole frames does, at the level of records: the records
    delivered, the committed offset and the state left. *)

Fixpoint scan (rs : list Record) (off com : nat) (st : replayState) : list Record * nat * replayState :=
  match rs with
  | [] => ([], com, st)
  | r :: rs =>
      let off' := (off + length (frame r))%nat in
      if r_Type r =? RecordTypeBatchCommit then
        if Z.of_nat (length (rp_pending st)) =? commit_count r then
          let '(d, com', st') := scan rs off' off' (mkReplay [] (i64 (r_LSN r))) in
          (rp_pending st ++ d, com', st')
        else scan rs off' com (mkReplay [] (rp_highestLSN st))
      else scan rs off' com (mkReplay (rp_pending st ++ [r]) (rp_highestLSN st))
  end.

(** One byte of a frame is changed, outside its length field; anything may
    follow. *)
Definition damaged (r : Record) (i : nat) (b : byte) (tail : list byte) : Prop :=
  wf_record r /\ (exists a, frame r !! i = Some a /\ a <> b) /\ ~ (9 <= i < 13)%nat
  /\ exists rest, tail = <[i := b]> (frame r) ++ rest.

(** A torn frame: a proper prefix of a frame, zeros, which have no record type,
    or a damaged frame. *)
Definition torn (tail : list byte) : Prop :=
  tail = [] \/ (exists r rest, wf_record r /\ rest <> [] /\ frame r = tail ++ rest)
  \/ (exists n, tail = zeros n) \/ exists r i b, damaged r i b tail.

Lemma slice_zeros a b n : (a <= b <= n)%nat -> slice a b (zeros n) = zeros (b - a).
Proof. intros H. unfold slice, zeros. rewrite drop_replicate, take_replicate. f_equal. lia. Qed.
Lemma be_val_zeros n : be_val (zeros n) = 0.
Proof. induction n as [|n IH]; [done|]. cbn [zeros replicate]. fold (zeros n). by rewrite be_val_cons, IH. Qed.

Section Replay.
Context {S : Type} (handler : Record -> M S error unit).

Lemma handle_all_app a b s :
  handle_all handler (a ++ b) s = (handle_all handler a >> handle_all handler b) s.
Proof using.
  revert s. induction a as [|r a IH]; intros s; [done|]. simpl. unfold sbind.
  destruct (handler r s) as [s' [u|e]]; [|done]. rewrite IH. unfold sbind. done.
Qed.

Lemma handle_all_then {B} a b (k : M S error B) s :
  (handle_all handler a >> (handle_all handler b >> k)) s = (handle_all handler (a ++ b) >> k) s.
Proof using.
  unfold sbind at 3. rewrite handle_all_app. unfold sbind.
  destruct (handle_all handler a s) as [s' [u|e]]; [|done].
  destruct (handle_all handler b s') as [s'' [u'|e]]; done.
Qed.

(** One frame at the front of the data. *)
Lemma slice_from (pre data : list byte) a b : slice (length pre + a) (length pre + b) (pre ++ data) = slice a b data.
Proof using.
  unfold slice. rewrite drop_app_ge by lia. f_equal; [lia|]. f_equal. lia.
Qed.

Lemma frame_payload_len r rest : wf_record r ->
  be_val (slice 9 13 (frame r ++ rest)) = Z.of_nat (length (r_Payload r)).
Proof using. intros [_ _ Hp]. rewrite frame_split. by apply header_len. Qed.

Lemma frame_step fuel pre r rest com st s : wf_record r ->
  replay_loop handler (Datatypes.S fuel) (pre ++ frame r ++ rest) (length pre) com st s =
  (if r_Type r =? RecordTypeBatchCommit then
     if Z.of_nat (length (rp_pending st)) =? commit_count r then
       handle_all handler (rp_pending st) >>
       replay_loop handler fuel (pre ++ frame r ++ rest) (length pre + length (frame r))
         (length pre + length (frame r)) (mkReplay [] (i64 (r_LSN r)))
     else replay_loop handler fuel (pre ++ frame r ++ rest) (length pre + length (frame r)) com
            (mkReplay [] (rp_highestLSN st))
   else replay_loop handler fuel (pre ++ frame r ++ rest) (length pre + length (frame r)) com
          (mkReplay (rp_pending st ++ [r]) (rp_highestLSN st))) s.
Proof using.
  intros Hw. cbn [replay_loop]. unfold RecordHeaderSize, RecordCRCSize.
  pose proof (length_frame r) as Hl.
  rewrite (proj2 (Nat.leb_gt _ _)) by (rewrite !length_app; lia).
  rewrite (proj2 (Nat.ltb_ge _ _)) by (rewrite !length_app; lia).
  rewrite slice_from, frame_payload_len by done. rewrite Nat2Z.id.
  rewrite (proj2 (Nat.ltb_ge _ _)) by (rewrite !length_app; lia).
  replace (length pre + (13 + length (r_Payload r) + 4))%nat with (length pre + length (frame r))%nat by lia.
  rewrite (slice_mid _ _ pre (frame r) rest) by done. by rewrite DecodeRecord_frame.
Qed.

Lemma zeros_step fuel pre n com st s : zeros n <> [] ->
  replay_loop handler (Datatypes.S fuel) (pre ++ zeros n) (length pre) com st s = (s, Ok (true, com, st)).
Proof using.
  intros Hne. assert (Hn : (0 < n)%nat) by (destruct n; [done|lia]). cbn [replay_loop].
  unfold RecordHeaderSize, RecordCRCSize.
  assert (Hl : length (zeros n) = n) by apply length_replicate.
  rewrite length_app, Hl. rewrite (proj2 (Nat.leb_gt _ _)) by lia.
  destruct (Nat.ltb_spec (length pre + n - length pre) (13 + 4)) as [|Hge]; [done|].
  rewrite slice_from, slice_zeros, be_val_zeros by lia. change (Z.to_nat 0) with 0%nat.
  rewrite (proj2 (Nat.ltb_ge _ _)) by lia. cbn [Nat.add].
  assert (Hz : slice (length pre) (length pre + 17) (pre ++ zeros n) = zeros 17).
  { pose proof (slice_from pre (zeros n) 0 17) as E. rewrite Nat.add_0_r in E. rewrite E. apply slice_zeros. lia. }
  by rewrite Hz.
Qed.

Lemma damaged_step fuel pre r i b tail com st s : damaged r i b tail ->
  replay_loop handler (Datatypes.S fuel) (pre ++ tail) (length pre) com st s = (s, Ok (true, com, st)).
Proof using.
  intros (Hw & (a & Ha & Hne) & Hi & rest & ->). cbn [replay_loop]. unfold RecordHeaderSize, RecordCRCSize.
  pose proof (length_frame r) as Hl. pose proof (length_insert (frame r) i b) as Hl'.
  rewrite (proj2 (Nat.leb_gt _ _)) by (rewrite !length_app; lia).
  rewrite (proj2 (Nat.ltb_ge _ _)) by (rewrite !length_app; lia).
  assert (Hp : slice 9 13 (<[i := b]> (frame r) ++ rest) = slice 9 13 (frame r ++ [])).
  { unfold slice. rewrite !drop_app_le, !take_app_le by (rewrite ?length_drop; lia).
    destruct (decide (i < 9)%nat); [by rewrite drop_insert_lt by lia|].
    by rewrite drop_insert_ge, take_insert_ge by lia. }
  rewrite slice_from, Hp, frame_payload_len, Nat2Z.id by done.
  rewrite (proj2 (Nat.ltb_ge _ _)) by (rewrite !length_app; lia).
  rewrite (slice_mid _ _ pre (<[i := b]> (frame r)) rest) by (done || lia).
  by rewrite (frame_damaged r i a b).
Qed.

Lemma torn_step fuel pre tail com st s : torn tail -> tail <> [] ->
  replay_loop handler (Datatypes.S fuel) (pre ++ tail) (length pre) com st s = (s, Ok (true, com, st)).
Proof using.
  intros [->|[(r & rest & Hw & Hrest & Hf)|[[n ->]|(r & i & b & Hd)]]] Hne;
    [done| |by apply zeros_step|by apply (damaged_step _ _ r i b)].
  cbn [replay_loop]. unfold RecordHeaderSize, RecordCRCSize.
  assert (Ht : (0 < length tail)%nat) by (destruct tail; [done|simpl; lia]).
  assert (Hr : (0 < length rest)%nat) by (destruct rest; [done|simpl; lia]).
  pose proof (f_equal length Hf) as Hl. rewrite length_frame, length_app in Hl.
  rewrite length_app. rewrite (proj2 (Nat.leb_gt _ _)) by lia.
  destruct (Nat.ltb_spec (length pre + length tail - length pre) (13 + 4)) as [|Hge]; [done|].
  rewrite slice_from.
  assert (Hp : be_val (slice 9 13 tail) = Z.of_nat (length (r_Payload r))).
  { rewrite <- (frame_payload_len r []) by done. rewrite app_nil_r, Hf. f_equal. unfold slice.
    rewrite drop_app_le by lia. by rewrite take_app_le by (rewrite length_drop; lia). }
  rewrite Hp, Nat2Z.id. rewrite (proj2 (Nat.ltb_lt _ _)) by lia. done.
Qed.

Lemma replay_loop_frames rs : forall fuel pre tail com st s,
  Forall wf_record rs -> torn tail -> (length (frames rs ++ tail) < fuel)%nat ->
  replay_loop handler fuel (pre ++ frames rs ++ tail) (length pre) com st s
  = (let '(d, com', st') := scan rs (length pre) com st in
     (handle_all handler d >> sret (negb (length tail =? 0)%nat, com', st')) s).
Proof using.
  induction rs as [|r rs IH]; intros fuel pre tail com st s Hwf Htorn Hfuel.
  { cbn [scan handle_all]. change (frames []) with (@nil byte) in *. cbn [app] in *. destruct fuel; [lia|].
    destruct (decide (tail = [])) as [->|Hne].
    - cbn [replay_loop]. by rewrite app_nil_r, (proj2 (Nat.leb_le _ _)).
    - rewrite torn_step by done. unfold sbind. cbn [sret].
      by rewrite (proj2 (Nat.eqb_neq _ _)) by (destruct tail; done). }
  apply Forall_cons in Hwf as [Hw Hwf]. rewrite frames_cons, <- !app_assoc in *.
  destruct fuel as [|fuel]; [lia|]. rewrite frame_step by done.
  rewrite !length_app in Hfuel. pose proof (length_frame r).
  assert (IH' : forall com st s,
    replay_loop handler fuel (pre ++ frame r ++ frames rs ++ tail) (length pre + length (frame r)) com st s
    = (let '(d, com', st') := scan rs (length pre + length (frame r)) com st in
       (handle_all handler d >> sret (negb (length tail =? 0)%nat, com', st')) s)).
  { intros com' st' s'. rewrite (app_assoc pre), <- length_app. apply IH; [done..|]. rewrite length_app. lia. }
  cbn [scan].
  destruct (r_Type r =? RecordTypeBatchCommit); [|apply IH'].
  destruct (Z.of_nat (length (rp_pending st)) =? commit_count r); [|apply IH'].
  destruct (scan rs _ _ _) as [[d com'] st'] eqn:Es.
  rewrite <- handle_all_then. unfold sbind at 1 2.
  destruct (handle_all handler (rp_pending st) s) as [s' [u|e]]; [|done].
  by rewrite IH', Es.
Qed.

Lemma replaySegment_frames rs tail st s : Forall wf_record rs -> torn tail ->
  replaySegment handler (frames rs ++ tail) st s
  = (let '(d, com', st') := scan rs 0 0 st in
     (handle_all handler d >> sret (negb (length tail =? 0)%nat, com', st')) s).
Proof using.
  intros Hw Ht. unfold replaySegment.
  apply (replay_loop_frames rs _ [] tail 0 st s Hw Ht). lia.
Qed.
End Replay.

(** ** Records of whole batches *)

(** The records delivered and the state left, without the offsets. *)
Fixpoint deliver (rs : list Record) (st : replayState) : list Record * replayState :=
  match rs with
  | [] => ([], st)
  | r :: rs =>
      if r_Type r =? RecordTypeBatchCommit then
        if Z.of_nat (length (rp_pending st)) =? commit_count r then
          let '(d, st') := deliver rs (mkReplay [] (i64 (r_LSN r))) in (rp_pending st ++ d, st')
        else deliver rs (mkReplay [] (rp_highestLSN st))
      else deliver rs (mkReplay (rp_pending st ++ [r]) (rp_highestLSN st))
  end.

Lemma scan_deliver rs : forall off com st, exists com', scan rs off com st = ((deliver rs st).1, com', (deliver rs st).2).
Proof.
  induction rs as [|r rs IH]; intros off com st; cbn [scan deliver]; [by exists com|].
  destruct (_ =? RecordTypeBatchCommit); [|apply IH].
  destruct (_ =? commit_count r); [|apply IH].
  destruct (IH (off + length (frame r))%nat (off + length (frame r))%nat (mkReplay [] (i64 (r_LSN r)))) as [c E].
  rewrite E. destruct (deliver rs _). by exists c.
Qed.

Lemma deliver_app a b st :
  deliver (a ++ b) st
  = ((deliver a st).1 ++ (deliver b (deliver a st).2).1, (deliver b (deliver a st).2).2).
Proof.
  revert st. induction a as [|r a IH]; intros st; cbn [app deliver].
  { cbn [fst snd app]. by destruct (deliver b st). }
  destruct (_ =? RecordTypeBatchCommit); [|apply IH].
  destruct (_ =? commit_count r); [|apply IH].
  rewrite IH. destruct (deliver a _) as [d st1]. simpl. by rewrite app_assoc.
Qed.

Definition not_commit (r : Record) : Prop := r_Type r <> RecordTypeBatchCommit.

Lemma deliver_not_commit rs p h : Forall not_commit rs ->
  deliver rs (mkReplay p h) = ([], mkReplay (p ++ rs) h).
Proof.
  revert p. induction rs as [|r rs IH]; intros p; [by rewrite app_nil_r|].
  intros [Hr Hrs]%Forall_cons. cbn [deliver]. rewrite (proj2 (Z.eqb_neq _ _)) by done.
  cbn [rp_pending rp_highestLSN]. rewrite IH by done. by rewrite <- app_assoc.
Qed.

Lemma commit_count_record lsn n : Z.of_nat n < 2 ^ 32 -> commit_count (commit_record lsn n) = Z.of_nat n.
Proof.
  intros H. unfold commit_count. cbn [commit_record r_Payload]. rewrite length_app, !length_be_bytes.
  cbn [Nat.leb Nat.add]. replace 12%nat with (8 + length (be_bytes 4 (u32 (Z.of_nat n))))%nat by (by rewrite length_be_bytes).
  rewrite slice_app_r by (by rewrite length_be_bytes).
  assert (Hu : u32 (Z.of_nat n) = Z.of_nat n) by (unfold u32; rewrite Z.mod_small; lia).
  rewrite Hu. apply be_val_u32. unfold is_u32. lia.
Qed.

Lemma deliver_commit lsn p h : Z.of_nat (length p) < 2 ^ 32 -> is_i64 lsn ->
  deliver [commit_record lsn (length p)] (mkReplay p h) = (p, mkReplay [] lsn).
Proof.
  intros Hp Hl. cbn [deliver commit_record r_Type rp_pending rp_highestLSN r_LSN]. rewrite Z.eqb_refl.
  pose proof (commit_count_record lsn (length p) Hp) as Hc. cbn [commit_record] in Hc. rewrite Hc, Z.eqb_refl.
  rewrite app_nil_r. by rewrite i64_u64.
Qed.

(** A log: its batches, numbered on from [lsn]. *)
Definition batch_size (b : list Record) : Z := Z.of_nat (length b) + 1.
Definition lsn_after (lsn : Z) (bs : list (list Record)) : Z := lsn + lsum batch_size bs.

Fixpoint log_of (lsn : Z) (bs : list (list Record)) : list Record :=
  match bs with
  | [] => []
  | b :: bs => batch_records lsn b ++ log_of (lsn + batch_size b) bs
  end.
(** Its client records, as recovery hands them over. *)
Fixpoint delivered (lsn : Z) (bs : list (list Record)) : list Record :=
  match bs with
  | [] => []
  | b :: bs => number lsn b ++ delivered (lsn + batch_size b) bs
  end.

(** What a client appends: the records of a batch fit in a segment, are not
    markers, and their bytes number below 2^31. *)
Definition batch_bytes (b : list Record) : Z := lsum (fun r => 17 + Z.of_nat (length (r_Payload r))) b + 29.

Record client_batch (segmentSize : Z) (b : list Record) : Prop := {
  cb_nonempty : b <> [];
  cb_fits : Forall (appendable segmentSize) b;
  cb_commit : Forall not_commit b;
  cb_bytes : batch_bytes b < 2 ^ 31 }.

Lemma batch_bytes_frames lsn b : Z.of_nat (length (frames (batch_records lsn b))) = batch_bytes b.
Proof.
  unfold batch_records, batch_bytes. rewrite frames_app, frames_one, length_app, length_commit_frame, Nat2Z.inj_add.
  enough (Z.of_nat (length (frames (number lsn b))) = lsum (fun r => 17 + Z.of_nat (length (r_Payload r))) b) by lia.
  revert lsn. induction b as [|r b IH]; intros lsn; [done|].
  cbn [number lsum foldr]. rewrite frames_cons, length_app, length_frame, Nat2Z.inj_add, IH. cbn [r_Payload].
  unfold lsum. lia.
Qed.
Lemma client_batch_count segmentSize b : client_batch segmentSize b -> Z.of_nat (length b) < 2 ^ 32.
Proof.
  intros [_ _ _ Hb]. unfold batch_bytes in Hb.
  enough (Z.of_nat (length b) <= lsum (fun r => 17 + Z.of_nat (length (r_Payload r))) b) by lia.
  clear Hb. induction b; simpl; lia.
Qed.
Lemma log_wf segmentSize bs : forall lsn, Forall (client_batch segmentSize) bs -> Forall wf_record (log_of lsn bs).
Proof.
  induction bs as [|b bs IH]; intros lsn; [constructor|]. intros [Hb Hbs]%Forall_cons. cbn [log_of].
  apply Forall_app. split; [|auto]. unfold batch_records. apply Forall_app. split.
  - apply (number_wf segmentSize), Hb.
  - constructor; [apply commit_record_wf|done].
Qed.

Lemma number_not_commit lsn b : Forall not_commit b -> Forall not_commit (number lsn b).
Proof. revert lsn. induction b; intros lsn; cbn [number]; [done|]. intros [? ?]%Forall_cons. constructor; auto. Qed.

Lemma lsum_nonneg_all {A} (f : A -> Z) l : (forall x, 0 <= f x) -> 0 <= lsum f l.
Proof. intros. by apply lsum_nonneg. Qed.
Lemma lsn_after_ge lsn bs : lsn <= lsn_after lsn bs.
Proof. unfold lsn_after. pose proof (lsum_nonneg batch_size bs ltac:(unfold batch_size; lia)). lia. Qed.
Lemma lsn_after_cons lsn b bs : lsn_after lsn (b :: bs) = lsn_after (lsn + batch_size b) bs.
Proof. unfold lsn_after. simpl. lia. Qed.
Lemma lsn_after_app lsn a b : lsn_after lsn (a ++ b) = lsn_after (lsn_after lsn a) b.
Proof. unfold lsn_after. rewrite lsum_app. lia. Qed.
Lemma log_of_app lsn a b : log_of lsn (a ++ b) = log_of lsn a ++ log_of (lsn_after lsn a) b.
Proof.
  revert lsn. induction a as [|x a IH]; intros lsn; cbn [log_of app].
  { unfold lsn_after. simpl. by rewrite Z.add_0_r. }
  by rewrite IH, lsn_after_cons, app_assoc.
Qed.

(** The last commit marker read, or [h] when there is none. *)
Definition last_commit (h lsn : Z) (bs : list (list Record)) : Z :=
  match bs with [] => h | _ => lsn_after lsn bs end.

Lemma deliver_batch size lsn b h : client_batch size b -> is_i64 (lsn + batch_size b) ->
  deliver (batch_records lsn b) (mkReplay [] h) = (number lsn b, mkReplay [] (lsn + batch_size b)).
Proof.
  intros Hcb Hl. pose proof (client_batch_count _ _ Hcb) as Hc. destruct Hcb as [_ _ Hb _]. unfold batch_records. rewrite deliver_app, deliver_not_commit by (by apply number_not_commit).
  cbn [fst snd app]. rewrite <- (length_number lsn b), deliver_commit; rewrite ?length_number; [|done|].
  - cbn [fst snd]. unfold batch_size. by rewrite Z.add_assoc.
  - unfold batch_size in Hl. by rewrite <- Z.add_assoc.
Qed.

Lemma deliver_log size bs : forall lsn h, Forall (client_batch size) bs -> 0 <= lsn -> lsn_after lsn bs < 2 ^ 63 ->
  deliver (log_of lsn bs) (mkReplay [] h) = (delivered lsn bs, mkReplay [] (last_commit h lsn bs)).
Proof.
  induction bs as [|b bs IH]; intros lsn h Hbs Hl Hmax; cbn [log_of delivered]; [done|].
  apply Forall_cons in Hbs as [Hb Hbs]. rewrite lsn_after_cons in Hmax.
  pose proof (lsn_after_ge (lsn + batch_size b) bs).
  assert (Hbs0 : 0 < batch_size b) by (unfold batch_size; lia).
  rewrite deliver_app, (deliver_batch size) by (done || unfold is_i64; lia). cbn [fst snd].
  rewrite IH by (done || lia). cbn [fst snd last_commit]. f_equal. f_equal.
  rewrite lsn_after_cons. destruct bs; [unfold last_commit, lsn_after; simpl; lia|done].
Qed.

(** ** What a crash leaves *)

Record crashed (rs : list Record) (n : nat) (kept lost : list Record) (tail : list byte) : Prop := {
  cr_split : rs = kept ++ lost;
  cr_bytes : take n (frames rs) = frames kept ++ tail;
  cr_torn : torn tail;
  cr_kept : (length (frames kept) <= n)%nat;
  cr_lost : forall r lost', lost = r :: lost' -> (n < length (frames (kept ++ [r])))%nat }.

Lemma crash_frames rs : forall n, Forall wf_record rs -> exists kept lost tail, crashed rs n kept lost tail.
Proof.
  induction rs as [|r rs IH]; intros n Hwf.
  { exists [], [], []. constructor; try done.
    - change (frames []) with (@nil byte). by rewrite take_nil.
    - by left.
    - apply Nat.le_0_l. }
  apply Forall_cons in Hwf as [Hr Hwf].
  destruct (decide (length (frame r) <= n)%nat) as [Hn|Hn].
  - destruct (IH (n - length (frame r))%nat Hwf) as (kept & lost & tail & [Hs Hb Ht Hk Hl]).
    exists (r :: kept), lost, tail. constructor; [by rewrite Hs| |done| |].
    + by rewrite !frames_cons, take_app_ge, Hb, app_assoc by done.
    + rewrite frames_cons, length_app. lia.
    + intros r' lost' E. specialize (Hl r' lost' E). cbn [app]. rewrite frames_cons, length_app. lia.
  - exists [], (r :: rs), (take n (frame r)). constructor; [done| | | |].
    + change (frames []) with (@nil byte). rewrite frames_cons, take_app_le by lia. done.
    + destruct n as [|n]; [by left|]. right; left. exists r, (drop (S n) (frame r)). split; [done|]. split.
      * intros E. apply (f_equal length) in E. rewrite length_drop in E. change (length (@nil byte)) with 0%nat in E. lia.
      * by rewrite take_drop.
    + apply Nat.le_0_l.
    + intros r' lost' [= <- <-]. cbn [app]. rewrite frames_one. lia.
Qed.

Lemma prefix_shorter {A} (p q l : list A) : p `prefix_of` l -> q `prefix_of` l -> (length p <= length q)%nat ->
  p `prefix_of` q.
Proof.
  intros Hp Hq Hl. destruct (prefix_weak_total _ _ _ Hp Hq) as [|H]; [done|].
  by rewrite (prefix_length_eq _ _ H Hl).
Qed.

(** The records kept are those whose bytes are. *)
Lemma crashed_prefix pre rs n kept lost tail p : crashed rs n kept lost tail -> p `prefix_of` pre ++ rs ->
  (length (frames p) <= length (frames pre) + n)%nat <-> p `prefix_of` pre ++ kept.
Proof.
  intros [Hs _ _ Hk Hl] Hp. split.
  - intros Hle. rewrite Hs, app_assoc in Hp.
    destruct (decide (length p <= length (pre ++ kept))%nat) as [Hlen|Hlen].
    { apply (prefix_shorter p _ _ Hp); [by eexists|done]. }
    exfalso. destruct lost as [|r lost].
    { rewrite app_nil_r in Hp. apply prefix_length in Hp. lia. }
    specialize (Hl r lost eq_refl).
    assert (Hq : (pre ++ kept ++ [r]) `prefix_of` p).
    { assert (Ha : (pre ++ kept ++ [r]) `prefix_of` (pre ++ kept) ++ r :: lost).
      { exists lost. by rewrite <- !app_assoc. }
      apply (prefix_shorter _ _ _ Ha Hp).
      rewrite !length_app in *. simpl. lia. }
    destruct Hq as [q ->]. rewrite !frames_app, !length_app in *. lia.
  - intros [q Hq]. apply (f_equal (fun l => length (frames l))) in Hq. rewrite !frames_app, !length_app in Hq. lia.
Qed.

Lemma prefix_split {A} (l a b : list A) : l `prefix_of` a ++ b ->
  (l `prefix_of` a /\ (length l < length a)%nat) \/ exists l', l = a ++ l' /\ l' `prefix_of` b.
Proof.
  intros H. assert (Ha : a `prefix_of` a ++ b) by (by eexists).
  destruct (decide (length l < length a)%nat) as [Hlt|Hge].
  - left. split; [|done]. apply (prefix_shorter _ _ _ H Ha). lia.
  - right. destruct (prefix_shorter _ _ _ Ha H) as [l' ->]; [lia|].
    exists l'. split; [done|]. by apply prefix_app_inv in H.
Qed.

(** A prefix of a log: whole batches, then a part of the next, without its
    marker. *)
Lemma log_prefix size bs : forall lsn l, Forall (client_batch size) bs -> l `prefix_of` log_of lsn bs ->
  exists k part, (k <= length bs)%nat /\ l = log_of lsn (take k bs) ++ part /\ Forall not_commit part
    /\ forall j, (j <= length bs)%nat -> log_of lsn (take j bs) `prefix_of` l <-> (j <= k)%nat.
Proof.
  induction bs as [|b bs IH]; intros lsn l Hbs Hl; cbn [log_of] in Hl.
  { apply prefix_nil_inv in Hl as ->. exists 0%nat, []. split_and!; [done|done|done|].
    intros j Hj. simpl in Hj. split; [done|]. intros _. by destruct j. }
  apply Forall_cons in Hbs as [Hb Hbs]. apply prefix_split in Hl as [[Hl Hlt]|(l' & -> & Hl')].
  - exists 0%nat, l. split_and!; [apply Nat.le_0_l|done| |].
    + unfold batch_records in Hl, Hlt. rewrite length_app in Hlt. simpl in Hlt.
      apply prefix_split in Hl as [[[k E] _]|(l' & -> & [k E])].
      * assert (H : Forall not_commit (number lsn b)) by (apply number_not_commit; apply Hb).
        rewrite E in H. by apply Forall_app in H as [? _].
      * rewrite length_app in Hlt. destruct l'; [|simpl in Hlt; lia].
        rewrite app_nil_r. apply number_not_commit, Hb.
    + intros [|j] Hj; cbn [take log_of]; [split; [done|intros; apply prefix_nil]|].
      split; [|lia]. intros Hp%prefix_length. rewrite length_app in Hp. lia.
  - destruct (IH _ _ Hbs Hl') as (k & part & Hk & -> & Hpart & Hj). exists (S k), part.
    split_and!; [simpl; lia|cbn [take log_of]; by rewrite app_assoc|done|].
    intros [|j] Hjl; cbn [take log_of].
    + split; [lia|]. intros _. apply prefix_nil.
    + simpl in Hjl. rewrite <- Nat.succ_le_mono, <- Hj by lia. split.
      * apply prefix_app_inv.
      * apply prefix_app.
Qed.

(** ** Reading the segment files *)

Lemma Forall_groups {P : Record -> Prop} (groups : list (Z * list Record)) :
  Forall P (concat groups.*2) -> Forall (fun gr => Forall P gr.2) groups.
Proof.
  induction groups as [|[i rs] groups IH]; [constructor|]. cbn. intros [? ?]%Forall_app. constructor; auto.
Qed.

Fixpoint scan_files (groups : list (Z * list Record)) (st : replayState)
    : list Record * list (Z * nat) * replayState :=
  match groups with
  | [] => ([], [], st)
  | (id, rs) :: groups =>
      let '(d, com, st) := scan rs 0 0 st in
      let '(d', p, st') := scan_files groups st in
      (d ++ d', (id, com) :: p, st')
  end.

Lemma scan_files_deliver groups : forall st, exists p,
  scan_files groups st = ((deliver (concat groups.*2) st).1, p, (deliver (concat groups.*2) st).2).
Proof.
  induction groups as [|[id rs] groups IH]; intros st; [by exists []|].
  cbn [scan_files fmap list_fmap concat snd]. destruct (scan_deliver rs 0 0 st) as [com E]. rewrite E.
  destruct (IH (deliver rs st).2) as [p Ep]. rewrite Ep. exists ((id, com) :: p).
  by rewrite deliver_app.
Qed.

(** Past a snapshot's LSN the files whose records it all covers are not read,
    the last one apart. *)
Definition unread (from : Z) (rs : list Record) : Prop := 0 < from /\ peekSegmentMaxLSN (frames rs) <= from.
#[export] Instance unread_dec from rs : Decision (unread from rs).
Proof. unfold unread. apply _. Defined.
Definition read_files (from : Z) (groups : list (Z * list Record)) : list (Z * list Record) :=
  filter (fun gr => ~ unread from gr.2) groups.

Lemma read_files_all groups : read_files 0 groups = groups.
Proof. apply filter_id, Forall_forall. intros gr _ [H _]. lia. Qed.

Section Files.
Context {S : Type} (handler : Record -> M S error unit).

Lemma read_segments_frames from groups : forall st processed lst id g tail s,
  Forall (fun gr => Forall wf_record gr.2) groups -> Forall wf_record g -> torn tail ->
  read_segments handler from ((seg_file <$> groups) ++ [(id, frames g ++ tail)]) st processed lst s
  = (let '(d, p, st') := scan_files (read_files from groups ++ [(id, g)]) st in
     (handle_all handler d >>
      sret (st', processed ++ p, id, if (length tail =? 0)%nat then None else Some [])) s).
Proof using.
  unfold read_files. induction groups as [|[gid rs] groups IH]; intros st processed lst id g tail s Hgs Hg Ht.
  - cbn [fmap list_fmap app read_segments filter list_filter scan_files]. rewrite andb_false_r. cbn [andb].
    unfold sbind at 1. rewrite replaySegment_frames by done.
    destruct (scan g 0 0 st) as [[d com] st']. rewrite app_nil_r. unfold sbind.
    destruct (handle_all handler d s) as [s' [u|e]]; [|done]. cbn [sret].
    destruct (length tail =? 0)%nat; done.
  - apply Forall_cons in Hgs as [Hrs Hgs]. cbn [fmap list_fmap app read_segments].
    assert (Hlast : match (seg_file <$> groups) ++ [(id, frames g ++ tail)] with [] => true | _ => false end = false)
      by (by destruct groups).
    rewrite Hlast. cbn [negb seg_file fst snd]. rewrite andb_true_r. clear Hlast.
    destruct (decide (unread from rs)) as [Hu|Hu].
    { rewrite filter_cons_False by (intros H; by apply H). destruct Hu as [H0 Hp].
      rewrite (proj2 (Z.ltb_lt _ _)), (proj2 (Z.leb_le _ _)) by done. by apply IH. }
    rewrite filter_cons_True by done.
    assert (Hb : (0 <? from) && (peekSegmentMaxLSN (frames rs) <=? from) = false).
    { apply andb_false_iff. unfold unread in Hu. destruct (Z.ltb_spec 0 from); [right|by left]. apply Z.leb_gt. lia. }
    rewrite Hb. clear Hb. cbn [app scan_files]. unfold sbind at 1.
    rewrite <- (app_nil_r (frames rs)), replaySegment_frames by (done || by left).
    destruct (scan rs 0 0 st) as [[d com] st1].
    pose proof (fun s => IH st1 (processed ++ [(gid, com)]) gid id g tail s Hgs Hg Ht) as IH'.
    destruct (scan_files (filter _ groups ++ [(id, g)]) st1) as [[d' p] st'].
    rewrite <- handle_all_then. unfold sbind at 1 2.
    destruct (handle_all handler d s) as [s' [u|e]]; [|done]. cbn [sret length Nat.eqb negb].
    rewrite IH', <- app_assoc. done.
Qed.

(** Whole files, then one with a torn tail: it is the last that is read. *)
Lemma read_segments_stop groups : forall st processed lst id g tail later s,
  Forall (fun gr => Forall wf_record gr.2) groups -> Forall wf_record g -> torn tail -> tail <> [] ->
  read_segments handler 0 ((seg_file <$> groups) ++ (id, frames g ++ tail) :: later) st processed lst s
  = (let '(d, p, st') := scan_files (groups ++ [(id, g)]) st in
     (handle_all handler d >> sret (st', processed ++ p, id, Some later.*1)) s).
Proof using.
  induction groups as [|[gid rs] groups IH]; intros st processed lst id g tail later s Hgs Hg Ht Hne.
  - cbn [fmap list_fmap app read_segments scan_files]. cbn [Z.ltb Z.compare andb].
    unfold sbind at 1. rewrite replaySegment_frames by done.
    destruct (scan g 0 0 st) as [[d com] st']. rewrite app_nil_r. unfold sbind.
    destruct (handle_all handler d s) as [s' [u|e]]; [|done]. cbn [sret].
    by rewrite (proj2 (Nat.eqb_neq _ _)) by (destruct tail; done).
  - apply Forall_cons in Hgs as [Hrs Hgs]. cbn [fmap list_fmap app read_segments seg_file fst snd].
    cbn [Z.ltb Z.compare andb app scan_files]. unfold sbind at 1.
    rewrite <- (app_nil_r (frames rs)), replaySegment_frames by (done || by left).
    destruct (scan rs 0 0 st) as [[d com] st1].
    pose proof (fun s => IH st1 (processed ++ [(gid, com)]) gid id g tail later s Hgs Hg Ht Hne) as IH'.
    destruct (scan_files (groups ++ [(id, g)]) st1) as [[d' p] st'].
    rewrite <- handle_all_then. unfold sbind at 1 2.
    destruct (handle_all handler d s) as [s' [u|e]]; [|done]. cbn [sret length Nat.eqb negb].
    by rewrite IH', <- app_assoc.
Qed.

End Files.

(** The files after a recovery from the start: a torn or unfinished log is cut
    back to the commit markers. *)
Definition cut_files (tail : list byte) (p : list (Z * nat)) (st : replayState) (d : Disk) : Disk :=
  if negb (length tail =? 0)%nat || negb (length (rp_pending st) =? 0)%nat
  then truncate_processed p d else d.

Section Recovering.
Context {S : Type} (handler : Record -> M S error unit).

Lemma recover_run groups id g tail w s :
  w_disk w = (seg_file <$> groups) ++ [(id, frames g ++ tail)] -> 0 < id -> 0 <= w_currentLSN w ->
  Forall (fun gr => Forall wf_record gr.2) groups -> Forall wf_record g -> torn tail ->
  Recover handler w s
  = (let '(d, p, st) := scan_files (groups ++ [(id, g)]) (mkReplay [] 0) in
     match handle_all (filter_handler 0 handler) d s with
     | (s', Err e) => (w, s', Err e)
     | (s', Ok _) =>
         let '(disk, seg) := openSegment (cut_files tail p st (w_disk w)) id (w_segmentSize w) in
         (mkWAL disk (w_segmentSize w) seg id (Z.max (w_currentLSN w) (rp_highestLSN st)), s', Ok tt)
     end).
Proof using.
  intros Hd Hid Hlsn Hgs Hg Ht. unfold Recover, RecoverFromLSN.
  assert (Hne : w_disk w <> []) by (rewrite Hd; intros [_ ?]%app_eq_nil; done).
  unfold recoverSegments. destruct (w_disk w) as [|f fs] eqn:Ew; [done|]. clear Hne.
  unfold sbind at 1. rewrite Hd, read_segments_frames, read_files_all by done.
  destruct (scan_files (groups ++ [(id, g)]) (mkReplay [] 0)) as [[d p] st]. unfold sbind at 1.
  destruct (handle_all (filter_handler 0 handler) d s) as [s' [u|e]]; [|done]. cbn [sret app].
  change (0 =? 0) with true. cbn [orb]. rewrite andb_true_r.
  assert (Hrec : forall h, (if w_currentLSN w <? (if h <? 0 then 0 else h) then (if h <? 0 then 0 else h)
            else w_currentLSN w) = Z.max (w_currentLSN w) h).
  { intros h. destruct (Z.ltb_spec h 0), (Z.ltb_spec (w_currentLSN w) 0), (Z.ltb_spec (w_currentLSN w) h); lia. }
  rewrite Hrec, (proj2 (Z.eqb_neq id 0)) by lia. unfold cut_files.
  destruct (length tail =? 0)%nat; cbn [negb orb foldl]; done.
Qed.

Lemma recover_stops groups id g tail later w s :
  w_disk w = (seg_file <$> groups) ++ (id, frames g ++ tail) :: later -> 0 < id -> 0 <= w_currentLSN w ->
  Forall (fun gr => Forall wf_record gr.2) groups -> Forall wf_record g -> torn tail -> tail <> [] ->
  Recover handler w s
  = (let '(d, p, st) := scan_files (groups ++ [(id, g)]) (mkReplay [] 0) in
     match handle_all (filter_handler 0 handler) d s with
     | (s', Err e) => (w, s', Err e)
     | (s', Ok _) =>
         let '(disk, seg) := openSegment (foldl (fun d id => disk_remove id d) (truncate_processed p (w_disk w)) later.*1)
                               id (w_segmentSize w) in
         (mkWAL disk (w_segmentSize w) seg id (Z.max (w_currentLSN w) (rp_highestLSN st)), s', Ok tt)
     end).
Proof using.
  intros Hd Hid Hlsn Hgs Hg Ht Htail. unfold Recover, RecoverFromLSN.
  assert (Hne : w_disk w <> []) by (rewrite Hd; intros [_ ?]%app_eq_nil; done).
  unfold recoverSegments. destruct (w_disk w) as [|f fs] eqn:Ew; [done|]. clear Hne.
  unfold sbind at 1. rewrite Hd, read_segments_stop by done.
  destruct (scan_files (groups ++ [(id, g)]) (mkReplay [] 0)) as [[d p] st]. unfold sbind at 1.
  destruct (handle_all (filter_handler 0 handler) d s) as [s' [u|e]]; [|done]. cbn [sret app].
  change (0 =? 0) with true. cbn [orb andb].
  rewrite (proj2 (Z.eqb_neq id 0)) by lia. destruct (openSegment _ _ _) as [disk seg]. do 3 f_equal.
  destruct (Z.ltb_spec (rp_highestLSN st) 0), (Z.ltb_spec (w_currentLSN w) (rp_highestLSN st)),
    (Z.ltb_spec (w_currentLSN w) 0); lia.
Qed.

Lemma handle_all_filter rs s : Forall (fun r => 0 < i64 (r_LSN r)) rs ->
  handle_all (filter_handler 0 handler) rs s = handle_all handler rs s.
Proof using.
  revert s. induction rs as [|r rs IH]; intros s; [done|]. intros [Hr Hrs]%Forall_cons.
  cbn [handle_all]. unfold sbind, filter_handler at 1. rewrite (proj2 (Z.leb_gt _ _)) by done.
  destruct (handler r s) as [s' [u|e]]; [by apply IH|done].
Qed.
End Recovering.

Lemma delivered_positive bs : forall lsn, 0 <= lsn -> lsn_after lsn bs < 2 ^ 63 ->
  Forall (fun r => 0 < i64 (r_LSN r)) (delivered lsn bs).
Proof.
  induction bs as [|b bs IH]; intros lsn Hl Hmax; cbn [delivered]; [constructor|].
  rewrite lsn_after_cons in Hmax. pose proof (lsn_after_ge (lsn + batch_size b) bs) as Hge.
  assert (Hb : 0 <= batch_size b) by (unfold batch_size; lia).
  apply Forall_app. split; [|apply IH; lia].
  assert (Hn : lsn + Z.of_nat (length b) < 2 ^ 63) by (unfold batch_size in *; lia).
  clear -Hl Hn. revert lsn Hl Hn. induction b as [|r b IHb]; intros lsn Hl Hn; cbn [number]; [constructor|].
  cbn [length] in Hn. constructor; [|apply IHb; lia]. cbn [r_LSN].
  rewrite i64_u64 by (unfold is_i64; lia). lia.
Qed.

(** ** The crash *)

(** A crash cuts the segment being written; the others are synced. *)
Definition crash (n : nat) (w : WAL) : Disk :=
  disk_put (w_currentID w) (take n (default [] (disk_get (w_disk w) (w_currentID w)))) (w_disk w).

Lemma crash_holds n w groups g : holds_frames w groups g ->
  crash n w = (seg_file <$> groups) ++ [(w_currentID w, take n (frames g))].
Proof.
  intros H. unfold crash. pose proof (hf_ids _ _ _ H) as Hi. rewrite (hf_disk _ _ _ H).
  rewrite disk_get_last by (by rewrite seg_ids). cbn [default from_option].
  by rewrite disk_put_last by (by rewrite seg_ids).
Qed.

(** Opening a directory starts at its last segment; the LSN is not known yet. *)
Lemma open_last d id c size : increasing 0 (d.*1 ++ [id]) -> 0 < size ->
  Open (d ++ [(id, c)]) size
  = mkWAL (d ++ [(id, c)]) size (mkSegment id size (Z.of_nat (length c)) (Z.of_nat (length c))) id 0.
Proof.
  intros Hi Hs. unfold Open, listSegmentIDs. rewrite fmap_app, last_app. cbn [fmap list_fmap fst last default from_option].
  unfold openSegment. rewrite disk_get_last, disk_put_last by done. cbn [default from_option].
  by rewrite !(proj2 (Z.leb_gt size 0)) by done.
Qed.
Lemma open_disk (d : Disk) size : increasing 0 d.*1 -> d <> [] -> 0 < size ->
  w_disk (Open d size) = d /\ w_currentLSN (Open d size) = 0 /\ w_segmentSize (Open d size) = size.
Proof.
  intros Hi Hne Hs. destruct d as [|[id c] D _] using rev_ind; [done|].
  rewrite fmap_app in Hi. by rewrite open_last.
Qed.

(** What a recovery of a crashed log hands over: the batches whose bytes, with
    their marker, are still there. *)
Lemma recover_crashed {S : Type} (handler : Record -> M S error unit) w groups g lsn bs n s :
  holds_frames w groups g -> all_records groups g = log_of lsn bs ->
  Forall (client_batch (w_segmentSize w)) bs -> 0 <= lsn -> lsn_after lsn bs < 2 ^ 63 ->
  exists k, (k <= length bs)%nat
    /\ (forall j, (j <= length bs)%nat ->
          (length (frames (log_of lsn (take j bs))) <= length (frames (concat groups.*2)) + n)%nat <-> (j <= k)%nat)
    /\ (let '(_, s', r) := Recover handler (Open (crash n w) (w_segmentSize w)) s in (s', r))
       = handle_all handler (delivered lsn (take k bs)) s.
Proof.
  intros H Ha Hbs Hl Hmax. pose proof (log_wf _ _ lsn Hbs) as Hwf. rewrite <- Ha in Hwf.
  unfold all_records in *. apply Forall_app in Hwf as [Hwgs Hwg].
  destruct (crash_frames g n Hwg) as (kept & lost & tail & Hc).
  assert (Hpre : concat groups.*2 ++ kept `prefix_of` log_of lsn bs).
  { rewrite <- Ha, (cr_split _ _ _ _ _ Hc). apply prefix_app. by eexists. }
  destruct (log_prefix _ _ _ _ Hbs Hpre) as (k & part & Hk & Hkept & Hpart & Hj).
  exists k. split; [done|]. split.
  { intros j Hjl. rewrite <- Hj by done. apply (crashed_prefix _ _ _ _ _ _ _ Hc).
    rewrite Ha. exists (log_of (lsn_after lsn (take j bs)) (drop j bs)).
    by rewrite <- log_of_app, take_drop. }
  rewrite (crash_holds _ _ _ _ H), (cr_bytes _ _ _ _ _ Hc).
  pose proof (hf_ids _ _ _ H) as Hi. rewrite <- seg_ids in Hi.
  rewrite open_last by (done || apply (hf_size _ _ _ H)).
  apply Forall_groups in Hwgs as Hgs.
  rewrite (recover_run handler groups (w_currentID w) kept tail _ s); cbn [w_disk w_currentLSN]; try done.
  2:{ apply increasing_lt in Hi. apply Hi. }
  2:{ pose proof (log_wf _ _ lsn Hbs) as Hw. rewrite <- Ha, (cr_split _ _ _ _ _ Hc), app_assoc in Hw.
      apply Forall_app in Hw as [Hw _]. by apply Forall_app in Hw as [_ ?]. }
  2:{ apply Hc. }
  destruct (scan_files_deliver (groups ++ [(w_currentID w, kept)]) (mkReplay [] 0)) as [p Ep]. rewrite Ep.
  rewrite fmap_app, concat_app. cbn [fmap list_fmap concat snd]. rewrite app_nil_r, Hkept.
  assert (Hbk : Forall (client_batch (w_segmentSize w)) (take k bs)) by (by apply Forall_take).
  assert (Hmk : lsn_after lsn (take k bs) < 2 ^ 63).
  { pose proof (lsn_after_ge (lsn_after lsn (take k bs)) (drop k bs)) as Hg.
    rewrite <- lsn_after_app, take_drop in Hg. lia. }
  rewrite deliver_app, (deliver_log _ _ _ _ Hbk Hl Hmk). cbn [fst snd].
  rewrite deliver_not_commit by done. cbn [fst snd]. rewrite app_nil_r.
  rewrite handle_all_filter by (by apply delivered_positive).
  destruct (handle_all handler (delivered lsn (take k bs)) s) as [s' [[]|e]]; [|done].
  by destruct (openSegment _ _ _).
Qed.

(** An undamaged log is recovered whole and left as it is. *)
Lemma recover_live {S : Type} (handler : Record -> M S error unit) w groups g lsn bs s s' :
  holds_frames w groups g -> all_records groups g = log_of lsn bs ->
  Forall (client_batch (w_segmentSize w)) bs -> 0 <= lsn -> lsn_after lsn bs < 2 ^ 63 ->
  handle_all handler (delivered lsn bs) s = (s', Ok tt) -> 0 <= w_currentLSN w ->
  exists w', Recover handler w s = (w', s', Ok tt)
    /\ holds_frames w' groups g /\ w_currentLSN w' = Z.max (w_currentLSN w) (last_commit 0 lsn bs)
    /\ w_segmentSize w' = w_segmentSize w /\ s_syncedOffset (w_current w') = s_writeOffset (w_current w').
Proof.
  intros H Ha Hbs Hl Hmax Hs H0. pose proof (log_wf _ _ lsn Hbs) as Hwf. rewrite <- Ha in Hwf.
  unfold all_records in *. apply Forall_app in Hwf as [Hwgs Hwg].
  pose proof (hf_ids _ _ _ H) as Hi. rewrite <- seg_ids in Hi. pose proof (hf_size _ _ _ H) as Hsz.
  apply Forall_groups in Hwgs as Hgs.
  rewrite (recover_run handler groups (w_currentID w) g [] _ s); try done;
    [|by rewrite (hf_disk _ _ _ H), app_nil_r|by apply increasing_lt in Hi as [_ ?]|by left].
  destruct (scan_files_deliver (groups ++ [(w_currentID w, g)]) (mkReplay [] 0)) as [p Ep]. rewrite Ep.
  rewrite fmap_app, concat_app. cbn [fmap list_fmap concat snd]. rewrite app_nil_r, Ha.
  rewrite (deliver_log _ _ _ _ Hbs Hl Hmax). cbn [fst snd].
  rewrite handle_all_filter by (by apply delivered_positive). rewrite Hs.
  unfold cut_files. cbn [rp_pending rp_highestLSN length Nat.eqb negb orb]. rewrite (hf_disk _ _ _ H).
  unfold openSegment. rewrite disk_get_last, disk_put_last by done. cbn [default from_option id].
  rewrite (proj2 (Z.leb_gt _ _)) by done. eexists. split; [done|].
  split; [|cbn [w_currentLSN w_segmentSize w_current s_syncedOffset s_writeOffset]; split; [|done]].
  - destruct H as [Hd Hi' Hc _ Hm Ho Hb Hf Hy].
    constructor; cbn [w_disk w_currentID w_current w_segmentSize s_id s_maxSize s_writeOffset s_syncedOffset]; try done; lia.
  - assert (Hlc : 0 <= last_commit 0 lsn bs).
    { unfold last_commit. destruct bs; [done|]. pose proof (lsn_after_ge lsn (l :: bs)). lia. }
    lia.
Qed.

Lemma open_holds w groups g : holds_frames w groups g ->
  holds_frames (Open (w_disk w) (w_segmentSize w)) groups g
  /\ w_currentLSN (Open (w_disk w) (w_segmentSize w)) = 0 /\ w_segmentSize (Open (w_disk w) (w_segmentSize w)) = w_segmentSize w.
Proof.
  intros H. pose proof (hf_ids _ _ _ H) as Hi. rewrite <- seg_ids in Hi. pose proof (hf_size _ _ _ H) as Hsz.
  rewrite (hf_disk _ _ _ H), open_last by done. split; [|done]. destruct H as [Hd Hi' Hc _ Hm Ho Hb Hf Hy].
  constructor; cbn [w_disk w_currentID w_current w_segmentSize s_id s_maxSize s_writeOffset s_syncedOffset]; try done; lia.
Qed.

Lemma recover_whole {S : Type} (handler : Record -> M S error unit) w groups g lsn bs s s' :
  holds_frames w groups g -> all_records groups g = log_of lsn bs ->
  Forall (client_batch (w_segmentSize w)) bs -> 0 <= lsn -> lsn_after lsn bs < 2 ^ 63 ->
  handle_all handler (delivered lsn bs) s = (s', Ok tt) ->
  exists w', Recover handler (Open (w_disk w) (w_segmentSize w)) s = (w', s', Ok tt)
    /\ holds_frames w' groups g /\ w_currentLSN w' = last_commit 0 lsn bs /\ w_segmentSize w' = w_segmentSize w.
Proof.
  intros H Ha Hbs Hl Hmax Hs. destruct (open_holds w groups g H) as (H' & E0 & Es). rewrite <- Es in Hbs.
  destruct (recover_live handler _ groups g lsn bs s s' H' Ha Hbs Hl Hmax Hs) as (w' & E & Hh & El & Ez & _); [lia|].
  exists w'. split; [done|]. split; [done|]. split; [|congruence]. rewrite El, E0.
  unfold last_commit. destruct bs; [done|]. pose proof (lsn_after_ge lsn (l :: bs)). lia.
Qed.

(** ** Logs built by appending *)

Definition append_all (bs : list (list Record)) (w : WAL) : WAL :=
  foldl (fun w b => (AppendBatch b w).1) w bs.

Lemma append_all_app a b w : append_all (a ++ b) w = append_all b (append_all a w).
Proof. apply foldl_app. Qed.

Lemma client_appendable w b : 29 <= w_segmentSize w -> client_batch (w_segmentSize w) b -> appendable_batch w b.
Proof. intros Hs [? ? ? ?]. constructor; try done. by rewrite batch_bytes_frames. Qed.

Lemma append_all_ok bs : forall w groups g,
  holds_frames w groups g -> 29 <= w_segmentSize w -> Forall (client_batch (w_segmentSize w)) bs ->
  exists groups' g', holds_frames (append_all bs w) groups' g'
    /\ all_records groups' g' = all_records groups g ++ log_of (w_currentLSN w) bs
    /\ w_currentLSN (append_all bs w) = lsn_after (w_currentLSN w) bs
    /\ w_segmentSize (append_all bs w) = w_segmentSize w
    /\ synced_bytes w groups <= synced_bytes (append_all bs w) groups'
    /\ (Z.of_nat (length (frames (g ++ log_of (w_currentLSN w) bs))) <= w_segmentSize w ->
        groups' = groups /\ w_currentID (append_all bs w) = w_currentID w).
Proof.
  induction bs as [|b bs IH]; intros w groups g H Hs Hbs.
  { exists groups, g. cbn [append_all foldl log_of]. rewrite app_nil_r.
    split_and!; try done; unfold lsn_after; simpl; lia. }
  apply Forall_cons in Hbs as [Hb Hbs]. pose proof (client_appendable _ _ Hs Hb) as Hab.
  destruct (append_ok _ _ _ _ H Hab) as (w1 & groups1 & g1 & E & H1 & Ea & El & Es & Ey & Hone).
  destruct (IH w1 groups1 g1 H1) as (groups' & g' & H' & Ea' & El' & Es' & Ey' & Hone'); [lia|by rewrite Es|].
  cbn [append_all foldl]. rewrite E. cbn [fst]. fold (append_all bs w1).
  assert (Hlsn : w_currentLSN w1 = w_currentLSN w + batch_size b) by (unfold batch_size; lia).
  exists groups', g'. rewrite Hlsn in Ea', El', Hone'. cbn [log_of]. split_and!; [done| | |congruence|lia|].
  - by rewrite Ea', Ea, app_assoc.
  - by rewrite El', lsn_after_cons.
  - intros Hall. rewrite app_assoc, frames_app, length_app in Hall.
    destruct (Hone ltac:(lia)) as [-> Hid].
    assert (Hg : g1 = g ++ batch_records (w_currentLSN w) b).
    { unfold all_records in Ea. rewrite <- app_assoc in Ea. by apply app_inv_head in Ea. }
    subst g1. rewrite <- Hid. apply Hone'. rewrite Es, frames_app, length_app. lia.
Qed.

Lemma fresh_holds size : 0 < size -> holds_frames (Open [] size) [] [] /\ w_segmentSize (Open [] size) = size.
Proof.
  intros H.
  assert (E : Open [] size = mkWAL [(1, [])] size (mkSegment 1 size 0 0) 1 0).
  { unfold Open. cbn. by rewrite !(proj2 (Z.leb_gt size 0)) by done. }
  rewrite E. split; [|done]. constructor; cbn; change (length (frames [])) with 0%nat; try done; lia.
Qed.

Lemma sync_holds w groups g : holds_frames w groups g -> holds_frames (Sync w) groups g
  /\ synced_bytes (Sync w) groups = Z.of_nat (length (frames (all_records groups g))).
Proof.
  intros H. split.
  - destruct H. constructor; cbn; try done. lia.
  - unfold synced_bytes, all_records. rewrite frames_app, length_app. cbn. rewrite (hf_offset _ _ _ H). lia.
Qed.

(** ** Committed offsets *)

Definition scan_com (rs : list Record) (off com : nat) (st : replayState) : nat := (scan rs off com st).1.2.

Lemma scan_com_app a b : forall off com st,
  scan_com (a ++ b) off com st
  = scan_com b (off + length (frames a)) (scan_com a off com st) (deliver a st).2.
Proof.
  unfold scan_com. induction a as [|r a IH]; intros off com st; cbn [app scan deliver].
  { change (length (frames [])) with 0%nat. by rewrite Nat.add_0_r. }
  rewrite frames_cons, length_app, Nat.add_assoc.
  destruct (_ =? RecordTypeBatchCommit); [|apply IH].
  destruct (_ =? commit_count r); [|apply IH].
  specialize (IH (off + length (frame r))%nat (off + length (frame r))%nat (mkReplay [] (i64 (r_LSN r)))).
  destruct (scan (a ++ b) _ _ _) as [[d c] st']. destruct (scan a _ _ _) as [[d1 c1] st1].
  destruct (deliver a _) as [d2 st2]. exact IH.
Qed.

Lemma scan_com_part rs off com st : Forall not_commit rs -> scan_com rs off com st = com.
Proof.
  unfold scan_com. revert off st. induction rs as [|r rs IH]; intros off st; [done|].
  intros [Hr Hrs]%Forall_cons. cbn [scan]. rewrite (proj2 (Z.eqb_neq _ _)) by done. by apply IH.
Qed.

Lemma scan_com_batch size lsn b off com h : client_batch size b ->
  scan_com (batch_records lsn b) off com (mkReplay [] h) = (off + length (frames (batch_records lsn b)))%nat.
Proof.
  intros Hb. pose proof (client_batch_count _ _ Hb) as Hc. destruct Hb as [_ _ Hnc _].
  unfold batch_records. rewrite scan_com_app, (scan_com_part (number lsn b)) by (by apply number_not_commit).
  rewrite deliver_not_commit by (by apply number_not_commit). cbn [snd].
  unfold scan_com. cbn [scan commit_record r_Type]. rewrite Z.eqb_refl. cbn [rp_pending app].
  pose proof (commit_count_record (lsn + Z.of_nat (length b) + 1) (length b) Hc) as Hcc.
  cbn [commit_record] in Hcc. rewrite Hcc, length_number, Z.eqb_refl. cbn [fst snd].
  rewrite frames_app, length_app, <- Nat.add_assoc. do 2 f_equal.
Qed.

Lemma scan_com_log size bs : forall lsn off h, Forall (client_batch size) bs -> 0 <= lsn -> lsn_after lsn bs < 2 ^ 63 ->
  scan_com (log_of lsn bs) off off (mkReplay [] h) = (off + length (frames (log_of lsn bs)))%nat.
Proof.
  induction bs as [|b bs IH]; intros lsn off h Hbs Hl Hmax; cbn [log_of].
  { change (length (frames [])) with 0%nat. by rewrite Nat.add_0_r. }
  apply Forall_cons in Hbs as [Hb Hbs]. rewrite lsn_after_cons in Hmax.
  pose proof (lsn_after_ge (lsn + batch_size b) bs).
  assert (Hbs0 : 0 < batch_size b) by (unfold batch_size; lia).
  rewrite scan_com_app, (scan_com_batch size), (deliver_batch size) by (done || unfold is_i64; lia).
  cbn [snd]. rewrite IH by (done || lia). rewrite frames_app, length_app. lia.
Qed.

(** ** Properties *)

(** What appending leaves on disk.  After any batches on a fresh log, the
    segment files hold exactly their frames, numbered from 1 and each batch
    closed by its commit marker; no file exceeds the segment size or splits a
    frame; and the LSN counts records and markers. *)
Theorem appended_log_is_its_batches size bs : 29 <= size -> Forall (client_batch size) bs ->
  exists files : list (Z * list Record),
    w_disk (append_all bs (Open [] size)) = seg_file <$> files
    /\ concat files.*2 = log_of 0 bs
    /\ Forall (fun f => Z.of_nat (length f.2) <= size) (w_disk (append_all bs (Open [] size)))
    /\ w_currentLSN (append_all bs (Open [] size)) = lsn_after 0 bs.
Proof.
  intros Hs Hbs. destruct (fresh_holds size) as [H0 Hs0]; [lia|].
  destruct (append_all_ok bs _ [] [] H0) as (gs & g & H & Ea & El & Es & _ & _); [lia|by rewrite Hs0|].
  rewrite Hs0 in Es. exists (gs ++ [(w_currentID (append_all bs (Open [] size)), g)]).
  rewrite (hf_disk _ _ _ H). split_and!.
  - by rewrite fmap_app.
  - rewrite fmap_app, concat_app. cbn [fmap list_fmap concat snd]. rewrite app_nil_r. exact Ea.
  - apply Forall_app. split.
    + apply Forall_fmap. eapply Forall_impl; [exact (hf_files _ _ _ H)|]. intros gr. by rewrite Es.
    + constructor; [|constructor]. rewrite <- Es. apply (hf_bound _ _ _ H).
  - exact El.
Qed.

Lemma append_one_segment size bs : 29 <= size -> Forall (client_batch size) bs ->
  Z.of_nat (length (frames (log_of 0 bs))) <= size ->
  append_all bs (Open [] size)
  = mkWAL [(1, frames (log_of 0 bs))] size
      (mkSegment 1 size (Z.of_nat (length (frames (log_of 0 bs))))
        (s_syncedOffset (w_current (append_all bs (Open [] size))))) 1 (lsn_after 0 bs).
Proof.
  intros Hs Hbs Hfit. destruct (fresh_holds size) as [H0 Hs0]; [lia|].
  destruct (append_all_ok bs _ [] [] H0) as (gs & g & H & Ea & El & Es & _ & Hone); [lia|by rewrite Hs0|].
  destruct Hone as [-> Hid]; [by rewrite Hs0|]. change (w_currentLSN (Open [] size)) with 0 in *.
  unfold all_records in Ea. cbn in Ea. subst g.
  destruct H as [Hd _ Hc _ Hm Ho _ _ _]. change (w_currentID (Open [] size)) with 1 in Hid.
  rewrite Hs0 in Es. clear H0 Hs0. set (w := append_all bs (Open [] size)) in *. clearbody w.
  destruct w as [d sz [sid smax swo sso] id l].
  cbn [w_disk w_segmentSize w_current w_currentID w_currentLSN s_id s_maxSize s_writeOffset s_syncedOffset] in *.
  cbn [fmap list_fmap app] in Hd. by subst.
Qed.

(** C28. Recovery restores the log, as long as it fits in one segment.  After a
    crash that leaves any prefix of the file, recovery hands over the batches
    that survived whole; unless the handler fails it succeeds, and the recovered
    log - its file, offsets, and LSN - is the log of just these batches,
    appended and synced: the torn rest is gone and appending goes on as if it
    had never been written.  Of a log of several segments this is false:
    [recovery_can_lose_synced_batch]. *)
Theorem recovery_restores_log size bs n : 29 <= size -> Forall (client_batch size) bs ->
  lsn_after 0 bs < 2 ^ 63 -> Z.of_nat (length (frames (log_of 0 bs))) <= size ->
  exists k, (k <= length bs)%nat
    /\ (forall j, (j <= length bs)%nat -> (length (frames (log_of 0 (take j bs))) <= n)%nat <-> (j <= k)%nat)
    /\ (forall S (handler : Record -> M S error unit) s,
          let '(w', s', r) := Recover handler (Open (crash n (append_all bs (Open [] size))) size) s in
          (s', r) = handle_all handler (delivered 0 (take k bs)) s
          /\ (r = Ok tt -> w' = Sync (append_all (take k bs) (Open [] size)))).
Proof.
  intros Hs Hbs Hmax Hfit. rewrite (append_one_segment size bs) by done.
  destruct (crash_frames (log_of 0 bs) n (log_wf _ _ _ Hbs)) as (kept & lost & tail & Hc).
  assert (Hpre : kept `prefix_of` log_of 0 bs) by (rewrite (cr_split _ _ _ _ _ Hc); by eexists).
  destruct (log_prefix _ _ _ _ Hbs Hpre) as (k & part & Hk & Hkept & Hpart & Hj).
  exists k. split; [done|]. split.
  { intros j Hjl. rewrite <- Hj by done. apply (crashed_prefix [] _ _ _ _ _ _ Hc).
    exists (log_of (lsn_after 0 (take j bs)) (drop j bs)). by rewrite app_nil_l, <- log_of_app, take_drop. }
  intros S handler s. destruct (Recover _ _ s) as [[w' s'] r] eqn:Hr. unfold crash in Hr. cbn [w_currentID w_disk disk_get disk_put] in Hr.
  change (1 =? 1) with true in Hr. cbn [from_option id] in Hr. rewrite (cr_bytes _ _ _ _ _ Hc) in Hr.
  change [(1, frames kept ++ tail)] with ([] ++ [(1, frames kept ++ tail)]) in Hr.
  rewrite open_last in Hr by (cbn; lia).
  rewrite (recover_run handler [] 1 kept tail) in Hr; cbn [w_disk w_currentLSN]; try done; try lia.
  2:{ pose proof (log_wf _ _ 0 Hbs) as Hw. rewrite (cr_split _ _ _ _ _ Hc) in Hw.
      by apply Forall_app in Hw as [? _]. }
  2:{ apply Hc. }
  assert (Hbk : Forall (client_batch size) (take k bs)) by (by apply Forall_take).
  pose proof (lsn_after_ge (lsn_after 0 (take k bs)) (drop k bs)) as Hge.
  rewrite <- lsn_after_app, take_drop in Hge.
  assert (Hmk : lsn_after 0 (take k bs) < 2 ^ 63) by lia.
  assert (Hcom : scan_com kept 0 0 (mkReplay [] 0) = length (frames (log_of 0 (take k bs)))).
  { rewrite Hkept, scan_com_app, (deliver_log size) by (done || lia). cbn [snd].
    rewrite scan_com_part by done. by rewrite (scan_com_log size) by (done || lia). }
  cbn [app scan_files] in Hr. unfold scan_com in Hcom.
  destruct (scan_deliver kept 0 0 (mkReplay [] 0)) as [com Escan]. rewrite Escan in Hr, Hcom. cbn in Hcom. subst com.
  assert (Hst : (deliver kept (mkReplay [] 0)).2 = mkReplay part (last_commit 0 0 (take k bs))).
  { rewrite Hkept, deliver_app, (deliver_log size) by (done || lia). cbn [snd fst].
    by rewrite deliver_not_commit. }
  assert (Hdl : (deliver kept (mkReplay [] 0)).1 = delivered 0 (take k bs)).
  { rewrite Hkept, deliver_app, (deliver_log size) by (done || lia). cbn [snd fst].
    rewrite deliver_not_commit by done. cbn [fst]. apply app_nil_r. }
  rewrite Hst, Hdl, app_nil_r in Hr. clear Hst Hdl Escan.
  rewrite handle_all_filter in Hr by (by apply delivered_positive).
  destruct (handle_all _ _ s) as [s1 [u|e]]; [|by injection Hr as <- <- <-]. revert Hr.
  rewrite (append_one_segment size (take k bs)); [|done|done|].
  2:{ rewrite <- (take_drop k bs), log_of_app, frames_app, length_app in Hfit. lia. }
  set (good := log_of 0 (take k bs)) in *.
  assert (Hcut : cut_files tail [(1, length (frames good))] (mkReplay part (last_commit 0 0 (take k bs)))
                   [(1, frames kept ++ tail)] = [(1, frames good)]).
  { rewrite Hkept, frames_app, <- app_assoc. unfold cut_files. cbn [rp_pending].
    destruct (decide (tail = [] /\ part = [])) as [[-> ->]|Hne].
    - cbn. change (frames []) with (@nil byte). by rewrite !app_nil_r.
    - assert (Hb : negb (length tail =? 0)%nat || negb (length part =? 0)%nat = true).
      { destruct tail, part; cbn; try done. by destruct Hne. }
      rewrite Hb. unfold truncate_processed. cbn [foldl disk_get fst snd]. rewrite Z.eqb_refl.
      destruct (Nat.eqb_spec (length (frames good ++ frames part ++ tail)) (length (frames good))) as [E|E].
      + rewrite length_app in E. destruct (frames part ++ tail) eqn:Ep; [by rewrite app_nil_r|cbn in E; lia].
      + cbn [disk_put]. rewrite Z.eqb_refl. unfold truncate_file. rewrite take_app_length, length_app.
        replace (_ - _)%nat with 0%nat by lia. by rewrite app_nil_r. }
  cbn [app w_disk]. rewrite Hcut. unfold openSegment. cbn [disk_get disk_put w_segmentSize]. rewrite Z.eqb_refl.
  rewrite (proj2 (Z.leb_gt size 0)) by lia. cbn [default from_option rp_highestLSN].
  destruct u. intros [= <- <- <-]. split; [done|]. intros _. unfold Sync, set_disk_seg, Segment_Sync.
  cbn [w_disk w_segmentSize w_currentID w_currentLSN w_current s_id s_maxSize s_writeOffset].
  f_equal. unfold last_commit. destruct (take k bs); [done|].
  pose proof (lsn_after_ge 0 (l :: l0)). lia.
Qed.

(** C27. Durability and atomicity of the log.  Append some batches, sync, append
    more and crash, losing any of the unsynced bytes: recovery hands over every
    batch of before the sync, then a prefix of the later ones, each whole, in
    order and numbered as when written, and nothing else. *)
Theorem synced_batches_survive {S : Type} (handler : Record -> M S error unit) size synced more n s :
  29 <= size -> Forall (client_batch size) (synced ++ more) -> lsn_after 0 (synced ++ more) < 2 ^ 63 ->
  let w := append_all more (Sync (append_all synced (Open [] size))) in
  s_syncedOffset (w_current w) <= Z.of_nat n ->
  exists k, (length synced <= k <= length (synced ++ more))%nat
    /\ (let '(_, s', r) := Recover handler (Open (crash n w) size) s in (s', r))
       = handle_all handler (delivered 0 (take k (synced ++ more))) s.
Proof.
  intros Hs Hbs Hmax w Hn. apply Forall_app in Hbs as [Hb1 Hb2].
  destruct (fresh_holds size) as [H0 Hs0]; [lia|].
  set (w0 := Open [] size) in *.
  destruct (append_all_ok synced w0 [] [] H0) as (gs1 & g1 & H1 & Ea1 & El1 & Es1 & _ & _); [lia|by rewrite Hs0|].
  destruct (sync_holds _ _ _ H1) as [H2 Ey2].
  set (w2 := Sync (append_all synced w0)) in *.
  assert (Es2 : w_segmentSize w2 = size) by (change (w_segmentSize w2) with (w_segmentSize (append_all synced w0)); congruence).
  assert (El2 : w_currentLSN w2 = lsn_after 0 synced) by (change (w_currentLSN w2) with (w_currentLSN (append_all synced w0)); exact El1).
  destruct (append_all_ok more w2 gs1 g1 H2) as (gs & g & H & Ea & El & Es & Ey & _); [lia|by rewrite Es2|].
  fold w in H, El, Es, Ey.
  assert (Eall : all_records gs g = log_of 0 (synced ++ more)).
  { rewrite Ea, Ea1, El2, log_of_app. done. }
  assert (Esz : w_segmentSize w = size) by congruence.
  destruct (recover_crashed handler w gs g 0 (synced ++ more) n s H Eall) as (k & Hk & Hj & Hr);
    [rewrite Esz; by apply Forall_app|lia|done|].
  exists k. rewrite Esz in Hr. split; [|done]. split; [|done].
  apply Hj; [rewrite length_app; lia|]. rewrite take_app_length.
  unfold synced_bytes in Ey, Ey2. rewrite Ea1 in Ey2. cbn [all_records app] in Ey2.
  change (all_records [] []) with (@nil Record) in Ey2. cbn [app] in Ey2.
  change (w_currentLSN w0) with 0 in Ey2. lia.
Qed.

Definition demo_record (b : byte) : Record := mkRecord 0 RecordTypeTransfer [b].

Lemma demo_batch_ok size b : 29 <= size -> client_batch size [demo_record b].
Proof.
  intros H. constructor; [done| | |unfold batch_bytes; simpl; lia].
  - constructor; [|done]. unfold appendable, demo_record, RecordTypeTransfer. simpl. lia.
  - by constructor.
Qed.

(** A handler that collects what it is given. *)
Definition collect (r : Record) : M (list Record) error unit := smodify (fun l => l ++ [r]).

(** The second batch is torn by the crash. *)
Lemma synced_batches_survive_witness :
  exists k, (1 <= k <= 2)%nat
    /\ (let '(_, s', r) := Recover collect
           (Open (crash 80 (append_all [[demo_record x42]] (Sync (append_all [[demo_record x41]] (Open [] 100))))) 100) []
         in (s', r))
       = handle_all collect (delivered 0 (take k [[demo_record x41]; [demo_record x42]])) [].
Proof.
  apply (synced_batches_survive collect 100 [[demo_record x41]] [[demo_record x42]] 80 []).
  - lia.
  - constructor; [|constructor; [|constructor]]; apply demo_batch_ok; lia.
  - vm_compute. reflexivity.
  - vm_compute. discriminate.
Defined.

Lemma appended_log_is_its_batches_witness :
  exists files : list (Z * list Record),
    w_disk (append_all [[demo_record x41]; [demo_record x42]] (Open [] 64)) = seg_file <$> files
    /\ concat files.*2 = log_of 0 [[demo_record x41]; [demo_record x42]]
    /\ Forall (fun f => Z.of_nat (length f.2) <= 64)
         (w_disk (append_all [[demo_record x41]; [demo_record x42]] (Open [] 64)))
    /\ w_currentLSN (append_all [[demo_record x41]; [demo_record x42]] (Open [] 64)) = 4.
Proof.
  apply (appended_log_is_its_batches 64 [[demo_record x41]; [demo_record x42]]); [lia|].
  constructor; [|constructor; [|constructor]]; apply demo_batch_ok; lia.
Defined.

(** The crash tears the second batch; what is recovered is the log of the first. *)
Lemma recovery_restores_log_witness :
  exists w' s', Recover collect (Open (crash 60 (append_all [[demo_record x41]; [demo_record x42]] (Open [] 100))) 100) []
      = (w', s', Ok tt)
    /\ s' = delivered 0 [[demo_record x41]] /\ w' = Sync (append_all [[demo_record x41]] (Open [] 100)).
Proof.
  destruct (recovery_restores_log 100 [[demo_record x41]; [demo_record x42]] 60) as (k & Hk & Hj & H).
  - lia.
  - constructor; [|constructor; [|constructor]]; apply demo_batch_ok; lia.
  - vm_compute. reflexivity.
  - vm_compute. discriminate.
  - assert (L : length (frames (log_of 0 (take 1 [[demo_record x41]; [demo_record x42]]))) = 47%nat
      /\ length (frames (log_of 0 (take 2 [[demo_record x41]; [demo_record x42]]))) = 94%nat) by (split; vm_compute; reflexivity).
    destruct L as [L1 L2]. change (length [[demo_record x41]; [demo_record x42]]) with 2%nat in Hk, Hj. assert (k = 1%nat) as ->.
    { pose proof (proj1 (Hj 1%nat ltac:(lia))) as E1. rewrite L1 in E1. specialize (E1 ltac:(lia)).
      destruct (decide (2 <= k)%nat) as [E2|E2]; [|lia]. apply (proj2 (Hj 2%nat ltac:(lia))) in E2.
      rewrite L2 in E2. lia. }
    specialize (H _ collect []).
    destruct (Recover collect _ []) as [[w' s'] r]. destruct H as [E Hw].
    assert (E' : handle_all collect (delivered 0 (take 1 [[demo_record x41]; [demo_record x42]])) []
      = (delivered 0 [[demo_record x41]], Ok tt)) by (vm_compute; reflexivity).
    rewrite E' in E. assert (Es : s' = delivered 0 [[demo_record x41]]) by exact (f_equal fst E).
    assert (Er : r = Ok tt) by exact (f_equal snd E). subst r s'.
    exists w', (delivered 0 [[demo_record x41]]). split; [reflexivity|]. split; [reflexivity|]. exact (Hw eq_refl).
Defined.

(** A durability bug of recovery over several segments.  When the records
    of a committed batch end one segment and its marker starts the next, a
    recovery that finds a torn tail delivers the batch but truncates the first
    segment to its last marker, dropping the batch's records: the next recovery
    no longer finds the batch, although it was synced. *)
Theorem recovery_can_lose_synced_batch :
  exists size synced more n,
    29 <= size /\ Forall (client_batch size) (synced ++ more) /\ synced <> []
    /\ (let w := append_all more (Sync (append_all synced (Open [] size))) in
        s_syncedOffset (w_current w) <= Z.of_nat n
        /\ exists w1, Recover collect (Open (crash n w) size) [] = (w1, delivered 0 synced, Ok tt)
             /\ exists w2, Recover collect (Open (w_disk w1) size) [] = (w2, [], Ok tt)).
Proof.
  exists 64, [[demo_record x41; demo_record x42]], [[demo_record x43]], 10%nat.
  split; [lia|]. split.
  { constructor; [|constructor; [apply demo_batch_ok; lia|constructor]].
    constructor; [done| | |vm_compute; reflexivity].
    - repeat constructor; unfold demo_record, RecordTypeTransfer; simpl; lia.
    - by repeat constructor. }
  split; [done|]. split; [vm_compute; discriminate|].
  eexists. split; [vm_compute; reflexivity|]. eexists. vm_compute. reflexivity.
Qed.
