(* ===== verification/TruncateProps.v ===== *)
(** * Truncation of the log, and recovery from a snapshot's LSN

    Both decide which segment files they need by the LSN of the last record of
    a file, read from its tail.  The reading is right on files within one tail
    chunk, and on longer ones as long as nothing in the payloads passes for a
    chain of frames up to the end of the file ([readable]); then truncation
    removes only covered files, and recovery delivers what a snapshot does not
    cover. *)

From S2P Require Import Prelude Core Crc Record Wal Recovery WalProps RecoveryProps.

Definition lsn_of (r : Record) : Z := i64 (r_LSN r).

(** What the frame walk takes for a record.  In segments longer than one tail
    chunk the search for a frame to start from must meet one. *)
Definition meets (size : Z) (payload : list byte) : Prop :=
  size <= peekTailChunk \/ Z.of_nat (RecordHeaderSize + length payload + RecordCRCSize) <= peekResyncBound.
Record walkable (size : Z) (r : Record) : Prop := {
  wk_wf : wf_record r;
  wk_lsn : 0 < lsn_of r;
  wk_small : Z.of_nat (length (r_Payload r)) <= peekMaxPayload;
  wk_meets : meets size (r_Payload r) }.

Definition last_lsn (lst : Z) (rs : list Record) : Z := foldl (fun _ r => lsn_of r) lst rs.

(** LSNs never decrease along the log. *)
Definition ordered (rs : list Record) : Prop := StronglySorted (fun a b => lsn_of a <= lsn_of b) rs.

(** ** The walk over frames *)

Lemma frame_type r rest : wf_record r -> be_val (slice 8 9 (frame r ++ rest)) = r_Type r.
Proof. intros [_ ? _]. rewrite frame_split. apply header_type. lia. Qed.
Lemma frame_lsn r rest : wf_record r -> be_val (slice 0 8 (frame r ++ rest)) = r_LSN r.
Proof. intros [? _ _]. rewrite frame_split. by apply header_lsn. Qed.

Lemma walk_step size fuel pre r rest lst : walkable size r ->
  walk_loop (S fuel) (pre ++ frame r ++ rest) (length pre) lst
  = walk_loop fuel (pre ++ frame r ++ rest) (length pre + length (frame r)) (lsn_of r).
Proof.
  intros [Hw Hl Hs _]. pose proof (length_frame r) as Hlen. pose proof Hw as [_ Ht _].
  cbn [walk_loop]. unfold RecordHeaderSize, RecordCRCSize.
  rewrite (proj2 (Nat.leb_le _ _)) by (rewrite !length_app; lia).
  rewrite !slice_from, (frame_payload_len r) by done. rewrite (proj2 (Z.ltb_ge _ _)) by done. rewrite Nat2Z.id.
  rewrite (proj2 (Nat.ltb_ge _ _)) by (rewrite !length_app; lia).
  rewrite frame_type by done. rewrite (proj2 (Z.eqb_neq _ _)) by lia.
  assert (E : slice (length pre) (length pre + 8) (pre ++ frame r ++ rest) = slice 0 8 (frame r ++ rest)).
  { rewrite <- (Nat.add_0_r (length pre)) at 1. apply slice_from. }
  rewrite E, frame_lsn by done. fold (lsn_of r). rewrite (proj2 (Z.leb_gt _ _)) by done.
  f_equal. lia.
Qed.

Lemma walk_frames size rs : forall fuel pre lst, Forall (walkable size) rs -> (length (frames rs) <= fuel)%nat ->
  walk_loop fuel (pre ++ frames rs) (length pre) lst = ((length pre + length (frames rs))%nat, last_lsn lst rs).
Proof.
  induction rs as [|r rs IH]; intros fuel pre lst Hrs Hf.
  - change (frames []) with (@nil byte) in *. rewrite app_nil_r, Nat.add_0_r. destruct fuel; [done|].
    cbn [walk_loop]. by rewrite (proj2 (Nat.leb_gt _ _)) by (unfold RecordHeaderSize, RecordCRCSize; lia).
  - apply Forall_cons in Hrs as [Hr Hrs]. rewrite frames_cons in *. rewrite length_app in Hf.
    pose proof (length_frame r). destruct fuel as [|fuel]; [lia|]. rewrite (walk_step size) by done.
    rewrite app_assoc, <- length_app, IH by (done || lia). rewrite !length_app. f_equal. lia.
Qed.

(** ** Reading the last LSN *)

(** The bytes that are read, and the chains of frames that reach the end of the
    file from a start the search tries. *)
Definition tail_chunk (c : list byte) : list byte :=
  drop (length c - (if Z.of_nat (length c) <? peekTailChunk then length c else Z.to_nat peekTailChunk)) c.
Definition reaches_end (buf : list byte) (start : nat) (lsn : Z) : Prop :=
  (start < Nat.min (length buf) (Z.to_nat peekResyncBound))%nat
  /\ walkFrameChain (drop start buf) = ((length buf - start)%nat, lsn).

(** A file can be read when it is no longer than one tail chunk, or the chains
    that reach its end agree on the LSN: no payload passes for frames. *)
Definition readable_file (c : list byte) : Prop :=
  Z.of_nat (length c) <= peekTailChunk
  \/ forall start start' lsn lsn', reaches_end (tail_chunk c) start lsn -> reaches_end (tail_chunk c) start' lsn' -> lsn = lsn'.
Definition readable (w : WAL) : Prop := Forall (fun f => readable_file f.2) (w_disk w).

Lemma walk_bound fuel : forall b off lst, (off <= length b)%nat -> ((walk_loop fuel b off lst).1 <= length b)%nat.
Proof.
  induction fuel as [|fuel IH]; intros b off lst Ho; cbn [walk_loop]; [done|].
  destruct (Nat.leb_spec (off + RecordHeaderSize + RecordCRCSize) (length b)); [|done].
  destruct (_ <? _); [done|]. case_match eqn:El; [done|]. apply Nat.ltb_ge in El.
  destruct (_ =? 0); [done|]. destruct (_ <=? 0); [done|]. by apply IH.
Qed.

(** The search ends at the first chain that reaches the end. *)
Lemma peek_loop_finds buf fuel : forall start bestEnd bestLSN lsn,
  (start + fuel = Nat.min (length buf) (Z.to_nat peekResyncBound))%nat -> (bestEnd < length buf)%nat ->
  (exists s, (start <= s)%nat /\ reaches_end buf s lsn) ->
  (forall s l, (start <= s)%nat -> reaches_end buf s l -> l = lsn) ->
  peek_loop fuel buf start bestEnd bestLSN = lsn.
Proof.
  induction fuel as [|fuel IH]; intros start bestEnd bestLSN lsn Hf Hb (s & Hs & Hr) Hall; [destruct Hr; lia|].
  cbn [peek_loop]. destruct (walkFrameChain (drop start buf)) as [e l] eqn:E.
  assert (He : (e <= length buf - start)%nat).
  { pose proof (walk_bound (length (drop start buf)) (drop start buf) 0 0 ltac:(lia)) as H.
    unfold walkFrameChain in E. rewrite E, length_drop in H. exact H. }
  destruct (Nat.eqb_spec e (length buf - start)) as [Heq|Hne].
  - subst e. rewrite (proj2 (Nat.ltb_lt _ _)) by lia. apply (Hall start); [done|]. split; [lia|done].
  - assert (Hs' : (S start <= s)%nat).
    { destruct (decide (s = start)) as [->|]; [|lia]. destruct Hr as [_ Hr]. congruence. }
    destruct (bestEnd <? start + e)%nat eqn:Eb; apply IH; try lia; try (by exists s);
      intros s' l' Hs1 Hr1; apply (Hall s'); done || lia.
Qed.

Lemma firstn_boundary size rs n : Forall (walkable size) rs -> peekTailChunk < size ->
  (n + Z.to_nat peekResyncBound <= length (frames rs))%nat ->
  exists a b, rs = a ++ b /\ (n <= length (frames a) < n + Z.to_nat peekResyncBound)%nat /\ b <> [].
Proof.
  intros Hrs Hs. revert n. induction Hrs as [|r rs [_ _ _ Hr] Hrs IH]; intros n Hn.
  { change (length (frames [])) with 0%nat in Hn. unfold peekResyncBound in Hn. lia. }
  destruct (decide (n = 0%nat)) as [->|Hn0].
  { exists [], (r :: rs). split; [done|]. split; [|done]. change (length (frames [])) with 0%nat. unfold peekResyncBound. lia. }
  assert (Hlen : (0 < length (frame r) <= Z.to_nat peekResyncBound)%nat).
  { rewrite length_frame. unfold RecordHeaderSize, RecordCRCSize in *. destruct Hr as [?|Hr]; [lia|].
    unfold RecordHeaderSize, RecordCRCSize in Hr. lia. }
  rewrite frames_cons, length_app in Hn.
  destruct (decide (n <= length (frame r))%nat) as [Hle|Hgt].
  - destruct rs as [|r2 rs].
    + change (length (frames [])) with 0%nat in Hn. lia.
    + exists [r], (r2 :: rs). split; [done|]. split; [|done]. rewrite frames_cons, length_app.
      change (length (frames [])) with 0%nat. lia.
  - destruct (IH (n - length (frame r))%nat ltac:(lia)) as (a & b & -> & H1 & H2). exists (r :: a), b.
    split; [done|]. split; [|done]. rewrite frames_cons, length_app. lia.
Qed.

(** A file of whole frames that can be read gives its last LSN. *)
Lemma peek_frames size rs : Forall (walkable size) rs -> Z.of_nat (length (frames rs)) <= size ->
  readable_file (frames rs) -> peekSegmentMaxLSN (frames rs) = last_lsn 0 rs.
Proof.
  intros Hrs Hsz Hread. unfold peekSegmentMaxLSN. change (drop _ (frames rs)) with (tail_chunk (frames rs)).
  set (buf := tail_chunk (frames rs)).
  destruct (Nat.ltb_spec (length (frames rs)) (RecordHeaderSize + RecordCRCSize)) as [Hn|Hn].
  { destruct rs as [|r rs]; [done|]. rewrite frames_cons, length_app, length_frame in Hn.
    unfold RecordHeaderSize, RecordCRCSize in Hn. lia. }
  unfold RecordHeaderSize, RecordCRCSize in Hn.
  (* a chain of frames from a boundary *)
  assert (Hgo : forall a b, rs = a ++ b -> b <> [] -> forall start, drop start buf = frames b ->
      (start < Nat.min (length buf) (Z.to_nat peekResyncBound))%nat -> reaches_end buf start (last_lsn 0 rs)).
  { intros a b Eab Hne start Ed Hst. split; [done|]. rewrite Ed. unfold walkFrameChain.
    rewrite Eab in Hrs. apply Forall_app in Hrs as [_ Hrs].
    pose proof (walk_frames size b (length (frames b)) [] 0 Hrs ltac:(lia)) as E.
    cbn [app length Nat.add] in E. rewrite E. assert (El : length (frames b) = (length buf - start)%nat) by (by rewrite <- Ed, length_drop).
    rewrite <- El. f_equal. rewrite Eab. unfold last_lsn. rewrite foldl_app. destruct b as [|x b]; [done|]. done. }
  assert (Hne : rs <> []) by (intros ->; change (length (frames [])) with 0%nat in Hn; lia).
  destruct (decide (Z.of_nat (length (frames rs)) <= peekTailChunk)) as [Hsmall|Hbig].
  - assert (Eb : buf = frames rs).
    { unfold buf, tail_chunk. destruct (Z.ltb_spec (Z.of_nat (length (frames rs))) peekTailChunk); [by rewrite Nat.sub_diag, drop_0|].
      replace (Z.to_nat peekTailChunk) with (length (frames rs)) by lia. by rewrite Nat.sub_diag, drop_0. }
    assert (H0 : reaches_end buf 0 (last_lsn 0 rs)).
    { apply (Hgo [] rs); [done|done|by rewrite drop_0|]. rewrite Eb. unfold peekResyncBound. lia. }
    destruct H0 as [Hst E]. rewrite Nat.sub_0_r in E. destruct (Nat.min _ _) as [|k]; [lia|]. cbn [peek_loop].
    rewrite E, Nat.add_0_l, Nat.sub_0_r, Nat.eqb_refl. rewrite (proj2 (Nat.ltb_lt _ _)) by (rewrite Eb; lia). done.
  - destruct Hread as [|Hagree]; [done|]. set (n := (length (frames rs) - Z.to_nat peekTailChunk)%nat).
    assert (Eb : buf = drop n (frames rs)).
    { unfold buf, tail_chunk. by rewrite (proj2 (Z.ltb_ge _ _)) by lia. }
    assert (Hlen : length buf = Z.to_nat peekTailChunk) by (rewrite Eb, length_drop; unfold n; lia).
    destruct (firstn_boundary size rs n Hrs) as (a & b & Erb & Ha & Hb); [lia|unfold n, peekTailChunk, peekResyncBound in *; lia|].
    assert (Hst : reaches_end buf (length (frames a) - n) (last_lsn 0 rs)).
    { apply (Hgo a b Erb Hb).
      - rewrite Eb, drop_drop, Erb, frames_app. replace (n + (length (frames a) - n))%nat with (length (frames a)) by lia.
        by rewrite drop_app_length.
      - rewrite Hlen. unfold peekTailChunk, peekResyncBound in *. lia. }
    apply peek_loop_finds.
    + done.
    + destruct Hst as [? _]. lia.
    + exists (length (frames a) - n)%nat. split; [lia|done].
    + intros s l _ Hs. by eapply Hagree.
Qed.

(** ** Order *)

Lemma last_lsn_app lst a b : last_lsn lst (a ++ b) = last_lsn (last_lsn lst a) b.
Proof. apply foldl_app. Qed.

Lemma last_lsn_ge lst rs : ordered rs -> (forall r, r ∈ rs -> lst <= lsn_of r) ->
  lst <= last_lsn lst rs /\ forall r, r ∈ rs -> lsn_of r <= last_lsn lst rs.
Proof.
  revert lst. induction rs as [|x rs IH]; intros lst Ho Hl; [split; [done|by intros r ?%not_elem_of_nil]|].
  apply StronglySorted_cons in Ho as [Hx Ho]. rewrite Forall_forall in Hx.
  destruct (IH (lsn_of x) Ho Hx) as [H1 H2]. change (last_lsn lst (x :: rs)) with (last_lsn (lsn_of x) rs).
  assert (lst <= lsn_of x) by (apply Hl; by left). split; [lia|].
  intros r [->|Hr]%elem_of_cons; [done|by apply H2].
Qed.

Lemma last_lsn_max size rs r : ordered rs -> Forall (walkable size) rs -> r ∈ rs -> lsn_of r <= last_lsn 0 rs.
Proof.
  intros Ho Hw. apply last_lsn_ge; [done|]. rewrite Forall_forall in Hw. intros r' Hr'. apply Hw in Hr' as [_ H _ _]. lia.
Qed.
Lemma last_lsn_in lst rs : rs <> [] -> exists r, r ∈ rs /\ lsn_of r = last_lsn lst rs.
Proof.
  destruct rs as [|r rs _] using rev_ind; [done|]. intros _. exists r. rewrite last_lsn_app. split; [|done].
  apply elem_of_app. right. by left.
Qed.

Lemma number_lsns lsn b : 0 <= lsn -> lsn + Z.of_nat (length b) < 2 ^ 63 ->
  ordered (number lsn b) /\ Forall (fun r => lsn < lsn_of r <= lsn + Z.of_nat (length b)) (number lsn b).
Proof.
  revert lsn. induction b as [|r b IH]; intros lsn H0 Hm; cbn [number length] in *; [by split; constructor|].
  destruct (IH (lsn + 1)) as [H1 H2]; [lia..|].
  assert (E : lsn_of (mkRecord (u64 (lsn + 1)) (r_Type r) (r_Payload r)) = lsn + 1).
  { unfold lsn_of. cbn. apply i64_u64. unfold is_i64. lia. }
  split.
  - apply StronglySorted_cons. split; [|done]. eapply Forall_impl; [exact H2|]. intros r' Hr'. cbn in Hr'. lia.
  - constructor; [lia|]. eapply Forall_impl; [exact H2|]. intros r' Hr'. cbn in Hr'. lia.
Qed.

Lemma ordered_app a b c : ordered a -> ordered b -> Forall (fun r => lsn_of r <= c) a ->
  Forall (fun r => c < lsn_of r) b -> ordered (a ++ b).
Proof.
  intros Ha Hb H1 H2. unfold ordered. apply StronglySorted_app. split_and!; [|done..].
  rewrite Forall_forall in H1, H2. intros x y Hx%H1 Hy%H2. lia.
Qed.

Lemma commit_lsn lsn n : is_i64 lsn -> lsn_of (commit_record lsn n) = lsn.
Proof. intros H. unfold lsn_of. cbn. by apply i64_u64. Qed.

Lemma batch_lsns lsn b : 0 <= lsn -> lsn + batch_size b < 2 ^ 63 ->
  ordered (batch_records lsn b) /\ Forall (fun r => lsn < lsn_of r <= lsn + batch_size b) (batch_records lsn b).
Proof.
  unfold batch_size. intros H0 Hm. destruct (number_lsns lsn b) as [H1 H2]; [lia..|].
  assert (Hc : lsn_of (commit_record (lsn + Z.of_nat (length b) + 1) (length b)) = lsn + Z.of_nat (length b) + 1).
  { apply commit_lsn. unfold is_i64. lia. }
  unfold batch_records. split.
  - apply (ordered_app _ _ (lsn + Z.of_nat (length b))); [done|by repeat constructor| |].
    + eapply Forall_impl; [exact H2|]. intros r Hr. cbn in Hr. lia.
    + constructor; [lia|constructor].
  - apply Forall_app. split.
    + eapply Forall_impl; [exact H2|]. intros r Hr. cbn in Hr. lia.
    + constructor; [lia|constructor].
Qed.

Lemma log_lsns bs : forall lsn, 0 <= lsn -> lsn_after lsn bs < 2 ^ 63 ->
  ordered (log_of lsn bs) /\ Forall (fun r => lsn < lsn_of r <= lsn_after lsn bs) (log_of lsn bs).
Proof.
  induction bs as [|b bs IH]; intros lsn H0 Hm; cbn [log_of]; [by split; constructor|].
  rewrite lsn_after_cons in *. pose proof (lsn_after_ge (lsn + batch_size b) bs).
  assert (0 < batch_size b) by (unfold batch_size; lia).
  destruct (batch_lsns lsn b) as [B1 B2]; [lia..|]. destruct (IH (lsn + batch_size b)) as [L1 L2]; [lia..|].
  split.
  - apply (ordered_app _ _ (lsn + batch_size b)); try done;
      (eapply Forall_impl; [eassumption|]; intros r Hr; cbn in Hr; lia).
  - apply Forall_app; split; (eapply Forall_impl; [eassumption|]; intros r Hr; cbn in Hr; lia).
Qed.

(** The records of the batches are met by the search. *)
Definition fits_peek (size : Z) (bs : list (list Record)) : Prop := Forall (Forall (fun r => meets size (r_Payload r))) bs.

Lemma small_fits size bs : size <= peekTailChunk -> fits_peek size bs.
Proof. intros H. apply Forall_true. intros b. apply Forall_true. intros r. by left. Qed.

Lemma log_walkable size bs lsn : fits_peek size bs -> Forall (client_batch size) bs -> 0 <= lsn ->
  lsn_after lsn bs < 2 ^ 63 -> Forall (walkable size) (log_of lsn bs).
Proof.
  intros Hs Hbs H0 Hm. destruct (log_lsns bs lsn H0 Hm) as [_ Hl]. pose proof (log_wf size bs lsn Hbs) as Hw.
  assert (Hp : Forall (fun r => Z.of_nat (length (r_Payload r)) <= peekMaxPayload /\ meets size (r_Payload r)) (log_of lsn bs)).
  { clear Hl Hw Hm. revert lsn H0. induction Hbs as [|b bs [_ Hb _ _] _ IH]; intros lsn H0; cbn [log_of]; [done|].
    apply Forall_cons in Hs as [Hsb Hs].
    apply Forall_app. split; [|apply IH; [done|unfold batch_size; lia]]. unfold batch_records. apply Forall_app. split.
    - clear H0 IH. revert lsn. induction Hb as [|r b (_ & _ & Hr) _ IHb]; intros lsn; cbn [number]; constructor.
      + cbn [r_Payload]. apply Forall_cons in Hsb as [Hm _]. split; [|done]. destruct Hm as [Hm|Hm];
          unfold peekTailChunk, peekResyncBound, peekMaxPayload in *; lia.
      + apply Forall_cons in Hsb as [_ Hsb]. by apply IHb.
    - constructor; [|constructor]. cbn [commit_record r_Payload]. unfold meets. rewrite length_app, !length_be_bytes.
      unfold peekMaxPayload, RecordHeaderSize, RecordCRCSize, peekResyncBound. split; [lia|right; lia]. }
  rewrite !Forall_forall in *. intros r Hr. constructor; [by apply Hw| |by apply Hp|by apply Hp]. apply Hl in Hr. lia.
Qed.

(** ** Truncation *)

Lemma increasing_sublist l l' lo : sublist l' l -> increasing lo l -> increasing lo l'.
Proof.
  assert (Hw : forall l lo lo', lo' <= lo -> increasing lo l -> increasing lo' l).
  { intros [|x q] a b Hab; cbn; [done|]. intros [? ?]. split; [lia|done]. }
  intros H. revert lo. induction H as [|x a b _ IH|x a b _ IH]; intros lo; cbn [increasing]; [done| |].
  - intros [? ?]. split; [done|auto].
  - intros [Hx Hb]. apply IH. eapply Hw; [|exact Hb]. lia.
Qed.
Lemma increasing_NoDup l : forall lo, increasing lo l -> NoDup l /\ Forall (fun x => lo < x) l.
Proof.
  induction l as [|x l IH]; intros lo; [split; constructor|]. intros [Hx Hl]. destruct (IH x Hl) as [H1 H2].
  rewrite Forall_forall in H2. split.
  - constructor; [|done]. intros H%H2. lia.
  - constructor; [done|]. apply Forall_forall. intros y Hy%H2. lia.
Qed.

Lemma disk_get_in (d : Disk) id c post : id ∉ d.*1 -> disk_get (d ++ (id, c) :: post) id = Some c.
Proof.
  induction d as [|[i ci] d IH]; cbn; [by rewrite Z.eqb_refl|]. intros [Hi Hd]%not_elem_of_cons.
  rewrite (proj2 (Z.eqb_neq _ _)) by done. auto.
Qed.
Lemma disk_remove_in (d : Disk) id c post : NoDup (d ++ (id, c) :: post).*1 ->
  disk_remove id (d ++ (id, c) :: post) = d ++ post.
Proof.
  intros Hn. unfold disk_remove. rewrite filter_app. rewrite fmap_app in Hn.
  apply NoDup_app in Hn as (_ & Hd & [Hp _]%NoDup_cons). rewrite filter_cons_False by (intros H; by apply H). f_equal.
  - apply filter_id, Forall_forall. intros [i ci] Hin. cbn. intros ->.
    apply (Hd id); [by apply (list_elem_of_fmap_2 fst _ _ Hin)|cbn; by left].
  - apply filter_id, Forall_forall. intros [i ci] Hin. cbn. intros ->.
    apply Hp. by apply (list_elem_of_fmap_2 fst _ _ Hin).
Qed.

(** Truncation is a filter of the files. *)
Definition covered_file (current lsn : Z) (f : Z * list byte) : Prop := f.1 < current /\ peekSegmentMaxLSN f.2 < lsn.
#[export] Instance covered_file_dec current lsn f : Decision (covered_file current lsn f).
Proof. unfold covered_file. apply _. Defined.

Lemma truncate_filter lsn w : NoDup (w_disk w).*1 ->
  w_disk (TruncateBefore lsn w) = filter (fun f => ~ covered_file (w_currentID w) lsn f) (w_disk w).
Proof.
  unfold TruncateBefore, listSegmentIDs. cbn [w_disk]. generalize (w_disk w). intros d.
  set (step := fun (d : Disk) (id : Z) => _).
  assert (H : forall todo kept, NoDup (kept ++ todo).*1 ->
    foldl step (kept ++ todo) todo.*1 = kept ++ filter (fun f => ~ covered_file (w_currentID w) lsn f) todo).
  { induction todo as [|[id c] todo IH]; intros kept Hn; [done|]. cbn [fmap list_fmap foldl fst].
    assert (Hk : id ∉ kept.*1).
    { rewrite fmap_app in Hn. apply NoDup_app in Hn as (_ & Hd & _). intros Hi. apply (Hd id Hi). cbn. by left. }
    assert (Hskip : foldl step (kept ++ (id, c) :: todo) todo.*1
              = kept ++ (id, c) :: filter (fun f => ~ covered_file (w_currentID w) lsn f) todo).
    { specialize (IH (kept ++ [(id, c)])). rewrite <- !app_assoc in IH. by apply IH. }
    unfold step at 2. rewrite disk_get_in by done.
    destruct (Z.leb_spec (w_currentID w) id) as [H1|H1].
    - rewrite filter_cons_True by (unfold covered_file; cbn; lia). done.
    - destruct (Z.ltb_spec (peekSegmentMaxLSN c) lsn) as [H2|H2].
      + rewrite filter_cons_False by (unfold covered_file; cbn; intros H; apply H; lia).
        rewrite disk_remove_in by done. apply IH. rewrite fmap_app in Hn |- *. apply NoDup_app in Hn as (? & Hd & [_ ?]%NoDup_cons).
        apply NoDup_app. split_and!; [done| |done]. intros x Hx Hx'. apply (Hd x Hx). cbn. by right.
      + rewrite filter_cons_True by (unfold covered_file; cbn; lia). done. }
  intros Hn. apply (H d [] Hn).
Qed.

Definition kept_groups (lsn : Z) (groups : list (Z * list Record)) : list (Z * list Record) :=
  filter (fun gr => lsn <= last_lsn 0 gr.2) groups.

Lemma truncate_holds lsn w groups g : holds_frames w groups g -> readable w ->
  Forall (walkable (w_segmentSize w)) (all_records groups g) -> holds_frames (TruncateBefore lsn w) (kept_groups lsn groups) g.
Proof.
  intros H Hs Hw. pose proof H as [Hd Hi Hc Hsz Hm Ho Hb Hf Hy]. unfold readable in Hs. rewrite Hd in Hs.
  apply Forall_app in Hs as [Hs _].
  assert (Hd' : w_disk (TruncateBefore lsn w) = (seg_file <$> kept_groups lsn groups) ++ [(w_currentID w, frames g)]).
  { rewrite truncate_filter, Hd, filter_app.
    2:{ rewrite Hd, fmap_app, seg_ids. by apply (increasing_NoDup _ 0). }
    rewrite (filter_id _ [_]) by (constructor; [unfold covered_file; cbn; lia|done]). f_equal.
    destruct (increasing_lt _ _ _ Hi) as [Hlt _]. unfold all_records in Hw. apply Forall_app in Hw as [Hw _].
    clear H Hi Hd. induction groups as [|[i rs] groups IH]; [done|]. cbn [fmap list_fmap fst snd concat] in *.
    apply Forall_cons in Hlt as [Hlt Hlts]. apply Forall_app in Hw as [Hrs Hw]. apply Forall_cons in Hf as [Hf Hfs].
    apply Forall_cons in Hs as [Hs Hss]. cbn [snd seg_file] in Hf, Hs. specialize (IH Hss Hw Hfs Hlts). assert (Hp : peekSegmentMaxLSN (frames rs) = last_lsn 0 rs).
    { by apply (peek_frames (w_segmentSize w)). }
    unfold kept_groups. cbn [fmap list_fmap]. destruct (decide (lsn <= last_lsn 0 rs)) as [Hl|Hl].
    - rewrite (filter_cons_True _ (i, rs)) by done. rewrite filter_cons_True; [cbn [fmap list_fmap]; by f_equal|].
      unfold covered_file, seg_file. cbn [fst snd]. rewrite Hp. lia.
    - rewrite (filter_cons_False _ (i, rs)) by done. rewrite filter_cons_False; [done|].
      unfold covered_file, seg_file. cbn [fst snd]. rewrite Hp. lia. }
  constructor; try done.
  - cbn [TruncateBefore w_currentID]. eapply increasing_sublist; [|exact Hi]. apply sublist_app; [|done].
    unfold kept_groups. clear. induction groups as [|gr groups IH]; [done|].
    destruct (decide (lsn <= last_lsn 0 gr.2)).
    + rewrite filter_cons_True by done. by apply sublist_skip.
    + rewrite filter_cons_False by done. by apply sublist_cons.
  - rewrite Forall_forall in Hf |- *. intros gr [_ Hgr]%list_elem_of_filter. by apply Hf.
Qed.

(** ** Recovery past a snapshot's LSN *)

Definition below (from : Z) (r : Record) : Prop := lsn_of r <= from.

(** The log ends where a batch does. *)
Definition closed_log (rs : list Record) : Prop :=
  rs = [] \/ exists rs' r, rs = rs' ++ [r] /\ r_Type r = RecordTypeBatchCommit.

Lemma deliver_closed rs h : closed_log rs -> rp_pending (deliver rs (mkReplay [] h)).2 = [].
Proof.
  intros [->|(rs' & r & -> & Hr)]; [done|]. rewrite deliver_app. cbn [snd]. set (st := (deliver rs' _).2).
  cbn [deliver]. rewrite Hr, Z.eqb_refl. by destruct (_ =? commit_count r).
Qed.

Lemma deliver_below from rs : forall st, Forall (below from) rs -> Forall (below from) (rp_pending st) ->
  rp_highestLSN st <= from ->
  Forall (below from) (deliver rs st).1 /\ rp_highestLSN (deliver rs st).2 <= from.
Proof.
  induction rs as [|r rs IH]; intros st Hrs Hp Hh; [done|]. apply Forall_cons in Hrs as [Hr Hrs]. cbn [deliver].
  destruct (_ =? RecordTypeBatchCommit).
  - destruct (_ =? commit_count r).
    + destruct (IH (mkReplay [] (i64 (r_LSN r))) Hrs) as [H1 H2]; [constructor|done|].
      destruct (deliver rs _) as [d st']. cbn in *. split; [by apply Forall_app|done].
    + by apply IH.
  - apply IH; [done| |done]. apply Forall_app. by split; [|constructor].
Qed.

Lemma filtered_below {S} from (handler : Record -> M S error unit) rs s : Forall (below from) rs ->
  handle_all (filter_handler from handler) rs s = (s, Ok tt).
Proof.
  induction 1 as [|r rs Hr _ IH]; [done|]. cbn [handle_all]. unfold sbind, filter_handler at 1.
  unfold below, lsn_of in Hr. by rewrite (proj2 (Z.leb_le _ _)).
Qed.
Lemma filtered_above {S} from (handler : Record -> M S error unit) rs s : Forall (fun r => from < lsn_of r) rs ->
  handle_all (filter_handler from handler) rs s = handle_all handler rs s.
Proof.
  revert s. induction rs as [|r rs IH]; intros s; [done|]. intros [Hr Hrs]%Forall_cons. cbn [handle_all].
  unfold sbind, filter_handler at 1. unfold lsn_of in Hr. rewrite (proj2 (Z.leb_gt _ _)) by done.
  destruct (handler r s) as [s' [u|e]]; [by apply IH|done].
Qed.

(** Files whose last LSN is read right. *)
Definition peekable (groups : list (Z * list Record)) : Prop :=
  Forall (fun gr => peekSegmentMaxLSN (frames gr.2) = last_lsn 0 gr.2) groups.

Lemma readable_groups size (groups : list (Z * list Record)) : Forall (walkable size) (concat groups.*2) ->
  Forall (fun gr => Z.of_nat (length (frames gr.2)) <= size) groups ->
  Forall (fun f => readable_file f.2) (seg_file <$> groups) -> peekable groups.
Proof.
  intros Hw Hsz Hr. induction groups as [|[i rs] groups IH]; [constructor|].
  cbn [fmap list_fmap snd concat] in *. apply Forall_app in Hw as [Hrs Hw].
  apply Forall_cons in Hsz as [Hsz Hszs]. apply Forall_cons in Hr as [Hr Hrs']. cbn [seg_file snd] in *.
  constructor; [by apply (peek_frames size)|by apply IH].
Qed.

(** Files with only records past the snapshot are read, unless empty. *)
Lemma read_files_needed size from groups : peekable groups ->
  Forall (walkable size) (concat groups.*2) -> ordered (concat groups.*2) ->
  Forall (fun r => from < lsn_of r) (concat groups.*2) ->
  concat (read_files from groups).*2 = concat groups.*2.
Proof.
  unfold read_files. induction groups as [|[i rs] groups IH]; intros Hf Hw Ho Hl; [done|].
  cbn [fmap list_fmap snd concat] in *. apply Forall_cons in Hf as [Hf Hfs]. cbn [snd] in Hf. apply Forall_app in Hw as [Hrs Hw].
  unfold ordered in Ho. apply StronglySorted_app in Ho as (_ & Hors & Ho). apply Forall_app in Hl as [Hlrs Hl].
  specialize (IH Hfs Hw Ho Hl). destruct (decide (unread from rs)) as [Hu|Hu].
  - rewrite filter_cons_False by (intros H; by apply H). rewrite IH. destruct Hu as [_ Hu].
    rewrite Hf in Hu. destruct rs as [|x rs]; [done|]. exfalso.
    pose proof (last_lsn_max size _ x Hors Hrs ltac:(by left)). apply Forall_cons in Hlrs as [? _]. lia.
  - rewrite filter_cons_True by done. cbn [fmap list_fmap snd concat]. by rewrite IH.
Qed.

(** The files not read hold a first part of the covered records. *)
Lemma read_suffix size from groups g pre suf : peekable groups ->
  Forall (walkable size) (concat groups.*2 ++ g) -> ordered (concat groups.*2 ++ g) ->
  concat groups.*2 ++ g = pre ++ suf -> Forall (below from) pre -> Forall (fun r => from < lsn_of r) suf ->
  exists pre', concat (read_files from groups).*2 ++ g = pre' ++ suf /\ pre' `suffix_of` pre.
Proof.
  unfold read_files. revert pre. induction groups as [|[i rs] groups IH]; intros pre Hf Hw Ho E Hp Hs.
  { by exists pre. }
  cbn [fmap list_fmap snd concat] in *. rewrite <- app_assoc in *. apply Forall_cons in Hf as [Hf Hfs].
  apply Forall_app in Hw as [Hrs Hw]. unfold ordered in Ho. apply StronglySorted_app in Ho as (Hle & Hors & Ho).
  pose proof Hf as Hpk. cbn [snd] in Hpk.
  destruct (decide (unread from rs)) as [[H0 Hu]|Hu].
  - rewrite filter_cons_False by (intros H; by apply H). rewrite Hpk in Hu.
    assert (Hb : Forall (below from) rs).
    { apply Forall_forall. intros r Hr. pose proof (last_lsn_max size rs r Hors Hrs Hr). unfold below. lia. }
    assert (Hpre : exists pre2, pre = rs ++ pre2 /\ concat groups.*2 ++ g = pre2 ++ suf).
    { assert (Hx : rs `prefix_of` pre ++ suf) by (by eexists). apply prefix_split in Hx as [[[pre2 ->] _]|(l & -> & Hl)].
      - exists pre2. split; [done|]. rewrite <- app_assoc in E. by apply app_inv_head in E.
      - exists []. destruct l as [|x l].
        + rewrite !app_nil_r in *. split; [done|]. by apply app_inv_head in E.
        + exfalso. destruct Hl as [q ->]. apply Forall_app in Hb as [_ [Hx _]%Forall_cons].
          cbn [app] in Hs. apply Forall_cons in Hs as [Hs _]. unfold below in Hx. lia. }
    destruct Hpre as (pre2 & -> & E2). apply Forall_app in Hp as [_ Hp].
    destruct (IH pre2 Hfs Hw Ho E2 Hp Hs) as (pre' & H1 & H2). exists pre'. split; [done|]. by apply suffix_app_r.
  - rewrite filter_cons_True by done. cbn [fmap list_fmap snd concat]. exists pre. split; [|done].
    rewrite <- E, <- app_assoc. f_equal. destruct (decide (0 < from)) as [H0|H0].
    2:{ do 3 f_equal. apply filter_id, Forall_forall. intros gr _ [H _]. lia. }
    assert (Hlast : from < last_lsn 0 rs) by (rewrite <- Hpk; unfold unread in Hu; lia).
    assert (Hne : rs <> []) by (intros ->; cbn in Hlast; lia).
    destruct (last_lsn_in 0 rs Hne) as (r & Hr & Er). f_equal. apply Forall_app in Hw as [Hw _].
    apply StronglySorted_app in Ho as (_ & Ho & _). apply (read_files_needed size); try done. apply Forall_forall.
    intros x Hx. pose proof (Hle r x Hr (proj2 (elem_of_app _ _ _) (or_introl Hx))). lia.
Qed.

Lemma closed_log_suffix pre' pre : pre' `suffix_of` pre -> closed_log pre -> closed_log pre'.
Proof.
  intros [k ->] [H|(rs' & r & E & Hr)].
  - apply app_eq_nil in H as [_ ->]. by left.
  - destruct pre' as [|x p _] using rev_ind; [by left|]. right. exists p, x. split; [done|].
    rewrite app_assoc in E. apply app_inj_tail in E as [_ ->]. done.
Qed.

Lemma delivered_above bs : forall lsn, 0 <= lsn -> lsn_after lsn bs < 2 ^ 63 ->
  Forall (fun r => lsn < lsn_of r) (delivered lsn bs).
Proof.
  induction bs as [|b bs IH]; intros lsn H0 Hm; cbn [delivered]; [constructor|]. rewrite lsn_after_cons in Hm.
  pose proof (lsn_after_ge (lsn + batch_size b) bs). unfold batch_size in *.
  destruct (number_lsns lsn b) as [_ H1]; [lia..|].
  apply Forall_app. split; (eapply Forall_impl; [first [exact H1|apply IH; lia]|]); intros r Hr; cbn in Hr; lia.
Qed.

(** Replay of the records read: the covered ones are skipped, whether a batch of
    them is whole or not. *)
Lemma replay_past {S} (handler : Record -> M S error unit) size from pre bs s s' :
  Forall (below from) pre -> closed_log pre -> Forall (client_batch size) bs -> 0 <= from ->
  lsn_after from bs < 2 ^ 63 -> handle_all handler (delivered from bs) s = (s', Ok tt) ->
  exists d h, deliver (pre ++ log_of from bs) (mkReplay [] 0) = (d, mkReplay [] h)
    /\ handle_all (filter_handler from handler) d s = (s', Ok tt) /\ Z.max from h = lsn_after from bs.
Proof.
  intros Hb Hc Hbs H0 Hm Hs. rewrite deliver_app.
  destruct (deliver_below from pre (mkReplay [] 0) Hb) as [Hd Hh]; [constructor|done|].
  pose proof (deliver_closed pre 0 Hc) as Hp. destruct (deliver pre (mkReplay [] 0)) as [d [p h]]. cbn in *. subst p.
  rewrite (deliver_log size) by done. cbn [fst snd]. do 2 eexists. split; [done|]. split.
  - rewrite handle_all_app. unfold sbind. rewrite filtered_below, filtered_above by (done || by apply delivered_above). done.
  - pose proof (lsn_after_ge from bs). unfold last_commit. destruct bs; [|lia]. unfold lsn_after in *. cbn in *. lia.
Qed.


(** ** Truncation and the covered records *)

(** The covered records end with the commit marker at [from]. *)
Definition ends_at (from : Z) (rs : list Record) : Prop :=
  match last rs with None => True | Some r => r_Type r = RecordTypeBatchCommit /\ lsn_of r = from end.

Lemma ends_closed from rs : ends_at from rs -> closed_log rs.
Proof.
  unfold ends_at. destruct rs as [|r rs _] using rev_ind; [by left|]. rewrite last_snoc. intros [H _]. right. by exists rs, r.
Qed.

Lemma last_lsn_last lst rs r : last rs = Some r -> last_lsn lst rs = lsn_of r.
Proof. destruct rs as [|x rs _] using rev_ind; [done|]. rewrite last_snoc, last_lsn_app. by intros [= ->]. Qed.

(** Truncating before an LSN that the snapshot covers leaves the records past
    it, and the end of the covered ones. *)
Lemma kept_split lsn from groups g : lsn <= from -> forall pre suf,
  concat groups.*2 ++ g = pre ++ suf -> Forall (fun r => from < lsn_of r) suf -> ends_at from pre ->
  exists pre', concat (kept_groups lsn groups).*2 ++ g = pre' ++ suf /\ sublist pre' pre /\ last pre' = last pre.
Proof.
  intros Hl. unfold kept_groups. induction groups as [|[i rs] groups IH]; intros pre suf E Hs He; [by exists pre|].
  cbn [fmap list_fmap snd concat] in E. rewrite <- app_assoc in E.
  assert (Hx : rs `prefix_of` pre ++ suf) by (by eexists). apply prefix_split in Hx as [[[pre2 ->] Hlt]|(l & -> & [suf2 ->])].
  - rewrite <- app_assoc in E. apply app_inv_head in E. rewrite length_app in Hlt.
    destruct pre2 as [|x pre2]; [cbn in Hlt; lia|]. set (p2 := x :: pre2) in *.
    assert (Hlast : forall p, last (p ++ p2) = last p2).
    { intros p. rewrite last_app. destruct (last p2) eqn:Ep; [done|]. by apply last_None in Ep. }
    unfold ends_at in He. rewrite Hlast in He. destruct (IH p2 suf E Hs He) as (pre' & E' & Hsub & Hla).
    destruct (decide (lsn <= last_lsn 0 rs)) as [Hk|Hk].
    + rewrite filter_cons_True by done. cbn [fmap list_fmap snd concat]. exists (rs ++ pre').
      rewrite <- !app_assoc, E'. split; [done|]. split; [by apply sublist_app|]. rewrite Hlast, <- Hla, last_app, Hla.
      destruct (last p2) eqn:Ep; [done|]. by apply last_None in Ep.
    + rewrite filter_cons_False by done. exists pre'. rewrite E', Hlast. split; [done|]. split; [by apply sublist_inserts_l|done].
  - rewrite <- !app_assoc in E. do 2 apply app_inv_head in E. apply Forall_app in Hs as [Hsl Hs].
    destruct (IH [] suf2 E Hs I) as (pre' & E' & Hsub & _). apply sublist_nil_r in Hsub as ->. cbn [app] in E'.
    destruct (decide (lsn <= last_lsn 0 (pre ++ l))) as [Hk|Hk].
    + rewrite filter_cons_True by done. cbn [fmap list_fmap snd concat]. exists pre.
      rewrite <- !app_assoc, E'. done.
    + rewrite filter_cons_False by done. exists []. rewrite E'. enough (pre = [] /\ l = []) as [-> ->] by done.
      destruct l as [|y l _] using rev_ind.
      * split; [|done]. rewrite app_nil_r in Hk. unfold ends_at in He. destruct (last pre) as [r|] eqn:Ep; [|by apply last_None in Ep].
        rewrite (last_lsn_last 0 pre r Ep) in Hk. lia.
      * exfalso. rewrite app_assoc in Hk. rewrite (last_lsn_last 0 _ y) in Hk by apply last_snoc.
        apply Forall_app in Hsl as [_ [Hy _]%Forall_cons]. lia.
Qed.

Lemma ordered_sublist rs rs' : sublist rs' rs -> ordered rs -> ordered rs'.
Proof.
  unfold ordered. induction 1 as [|x a b Hab IH|x a b Hab IH]; [done| |]; intros [Hx Hb]%StronglySorted_cons; [|auto].
  apply StronglySorted_cons. split; [|auto]. rewrite Forall_forall in Hx |- *. intros y Hy. apply Hx.
  by eapply elem_of_sublist.
Qed.
Lemma Forall_sublist {A} (P : A -> Prop) l l' : sublist l' l -> Forall P l -> Forall P l'.
Proof. rewrite !Forall_forall. intros Hs H x Hx. apply H. by eapply elem_of_sublist. Qed.

(** A log and the part of it that a snapshot at [from] covers. *)
Record covers (size from : Z) (pre : list Record) (bs : list (list Record)) : Prop := {
  cv_size : 29 <= size;
  cv_from : 0 <= from;
  cv_walkable : Forall (walkable size) pre;
  cv_ordered : ordered pre;
  cv_below : Forall (below from) pre;
  cv_ends : ends_at from pre;
  cv_batches : Forall (client_batch size) bs;
  cv_fits : fits_peek size bs;
  cv_max : lsn_after from bs < 2 ^ 63 }.

Lemma covers_walkable size from pre bs : covers size from pre bs -> Forall (walkable size) (pre ++ log_of from bs).
Proof. intros []. apply Forall_app. split; [done|]. by apply log_walkable. Qed.

(** Truncating the log of a snapshot at an LSN it covers. *)
Lemma truncate_covered lsn w groups g size from pre bs : holds_frames w groups g -> w_segmentSize w = size ->
  all_records groups g = pre ++ log_of from bs -> covers size from pre bs -> readable w -> lsn <= from ->
  exists pre', holds_frames (TruncateBefore lsn w) (kept_groups lsn groups) g
    /\ all_records (kept_groups lsn groups) g = pre' ++ log_of from bs /\ covers size from pre' bs.
Proof.
  intros H Hsz Ha Hc Hrd Hl. pose proof (covers_walkable _ _ _ _ Hc) as Hw. destruct Hc as [Hs H0 Hwp Hop Hb He Hbs Hft Hm].
  assert (Habove : Forall (fun r => from < lsn_of r) (log_of from bs)).
  { eapply Forall_impl; [exact (proj2 (log_lsns bs from H0 Hm))|]. intros r Hr. apply Hr. }
  destruct (kept_split lsn from groups g Hl pre _ Ha Habove He) as (pre' & E & Hsub & Hlast). exists pre'.
  split; [apply truncate_holds; [done|done|by rewrite Hsz, Ha]|]. split; [done|].
  constructor; try done; [by eapply Forall_sublist|by eapply ordered_sublist|by eapply Forall_sublist|].
  unfold ends_at. by rewrite Hlast.
Qed.

(** A new snapshot covers the whole log. *)
Lemma covers_all size from pre bs : covers size from pre bs ->
  covers size (lsn_after from bs) (pre ++ log_of from bs) [] /\ from <= lsn_after from bs.
Proof.
  intros Hc. pose proof (covers_walkable _ _ _ _ Hc) as Hw. destruct Hc as [Hs H0 Hwp Hop Hb He Hbs Hft Hm].
  pose proof (lsn_after_ge from bs) as Hge. destruct (log_lsns bs from H0 Hm) as [Ho Hl].
  split; [|done]. constructor; try done; try lia.
  - apply (ordered_app _ _ from); try done. eapply Forall_impl; [exact Hl|]. intros r Hr. apply Hr.
  - apply Forall_app. split; (eapply Forall_impl; [eassumption|]; intros r Hr; unfold below in *; lia).
  - destruct bs as [|b bs _] using rev_ind.
    { cbn [log_of]. rewrite app_nil_r. unfold lsn_after. cbn. by rewrite Z.add_0_r. }
    rewrite log_of_app. cbn [log_of]. unfold batch_records, ends_at. rewrite app_nil_r, !app_assoc, last_snoc.
    split; [done|]. rewrite lsn_after_app in *. rewrite lsn_after_cons in *.
    pose proof (lsn_after_ge from bs).
    assert (E : lsn_after (lsn_after from bs + batch_size b) [] = lsn_after from bs + Z.of_nat (length b) + 1).
    { unfold lsn_after, batch_size. cbn. lia. }
    rewrite E in *. apply commit_lsn. unfold is_i64. lia.
  - constructor.
  - unfold lsn_after at 1. cbn. lia.
Qed.

(** Recovery from a snapshot's LSN hands over the batches past it. *)
Lemma recover_past {S} (handler : Record -> M S error unit) w groups g size from pre bs s s' :
  holds_frames w groups g -> w_segmentSize w = size -> all_records groups g = pre ++ log_of from bs ->
  covers size from pre bs -> readable w ->
  handle_all handler (delivered from bs) s = (s', Ok tt) ->
  exists w', RecoverFromLSN from handler (Open (w_disk w) size) s = (w', s', Ok tt)
    /\ holds_frames w' groups g /\ w_currentLSN w' = lsn_after from bs /\ w_segmentSize w' = size.
Proof.
  intros H <- Ha Hcv Hrd Hs. pose proof (covers_walkable _ _ _ _ Hcv) as Hw. rewrite <- Ha in Hw.
  destruct Hcv as [Hch H0 Hwp Hop Hb Hc%ends_closed Hbs Hft Hm]. destruct (log_lsns bs from H0 Hm) as [Hol Hll].
  assert (Habove : Forall (fun r => from < lsn_of r) (log_of from bs)).
  { eapply Forall_impl; [exact Hll|]. intros r Hr. apply Hr. }
  assert (Ho : ordered (all_records groups g)) by (rewrite Ha; by apply (ordered_app _ _ from)).
  pose proof (hf_ids _ _ _ H) as Hi. rewrite <- seg_ids in Hi. pose proof (hf_size _ _ _ H) as Hsz.
  assert (Hfs : peekable groups).
  { unfold readable in Hrd. rewrite (hf_disk _ _ _ H) in Hrd. apply Forall_app in Hrd as [Hrd _].
    apply Forall_app in Hw as [Hw _].
    by apply (readable_groups (w_segmentSize w)); [|apply (hf_files _ _ _ H)|]. }
  destruct (read_suffix _ from groups g pre (log_of from bs) Hfs Hw Ho Ha Hb Habove) as (pre' & Er & Hsuf).
  assert (Hb' : Forall (below from) pre').
  { destruct Hsuf as [k ->]. by apply Forall_app in Hb as [_ ?]. }
  destruct (replay_past handler _ from pre' bs s s' Hb' (closed_log_suffix _ _ Hsuf Hc) Hbs H0 Hm Hs)
    as (d & h & Ed & Eh & Emax).
  rewrite (hf_disk _ _ _ H), open_last by done. unfold RecoverFromLSN, recoverSegments. cbn [w_disk].
  assert (Hwf : Forall wf_record (all_records groups g)) by (eapply Forall_impl; [exact Hw|]; by intros r []).
  unfold all_records in Hwf. apply Forall_app in Hwf as [Hwgs Hwg].
  apply Forall_groups in Hwgs as Hgs.
  pose proof (read_segments_frames (filter_handler from handler) from groups (mkReplay [] 0) [] 0 (w_currentID w) g [] s
    Hgs Hwg ltac:(by left)) as Hread. rewrite app_nil_r in Hread.
  destruct (scan_files_deliver (read_files from groups ++ [(w_currentID w, g)]) (mkReplay [] 0)) as [p Ep].
  rewrite Ep in Hread. rewrite fmap_app, concat_app in Hread. cbn [fmap list_fmap concat snd] in Hread.
  rewrite app_nil_r, Er, Ed in Hread. cbn [fst snd] in Hread. unfold sbind in Hread at 1. rewrite Eh in Hread.
  destruct ((seg_file <$> groups) ++ [(w_currentID w, frames g)]) as [|f fs] eqn:Edisk; [by destruct groups|].
  rewrite <- Edisk in *. unfold sbind. rewrite Hread.
  cbn [sret length Nat.eqb negb andb rp_pending rp_highestLSN w_currentLSN w_segmentSize].
  destruct (increasing_lt _ _ _ Hi) as [_ Hid]. rewrite (proj2 (Z.eqb_neq (w_currentID w) 0)) by lia.
  unfold openSegment. rewrite disk_get_last, disk_put_last by done. cbn [default from_option id].
  rewrite (proj2 (Z.leb_gt _ _)) by done. eexists. split; [done|]. pose proof (lsn_after_ge from bs).
  split; [|cbn [w_currentLSN w_segmentSize]; split; [|done]].
  - destruct H as [Hd Hi' Hcu _ Hmx Hof Hbd Hf Hy].
    constructor; cbn [w_disk w_currentID w_current w_segmentSize s_id s_maxSize s_writeOffset s_syncedOffset]; try done; lia.
  - destruct (Z.ltb_spec h from); (destruct (Z.ltb_spec 0 h) || destruct (Z.ltb_spec 0 from)); try lia;
      destruct (Z.ltb_spec 0 from); lia.
Qed.

(** A file name appears once. *)
Lemma same_file w groups g f f' : holds_frames w groups g -> f ∈ groups -> f' ∈ groups -> seg_file f = seg_file f' ->
  f.2 = f'.2.
Proof.
  intros H Hf Hf' E. injection E as E _. pose proof (increasing_NoDup _ _ (hf_ids _ _ _ H)) as [Hn _].
  apply NoDup_app in Hn as (Hn & _ & _). apply list_elem_of_lookup in Hf as [i Hi], Hf' as [j Hj].
  assert (Hij : i = j).
  { apply (NoDup_lookup groups.*1 i j f.1 Hn); rewrite list_lookup_fmap.
    - by rewrite Hi.
    - by rewrite Hj, E. }
  subst j. congruence.
Qed.

(** In segments of at most one tail chunk every file can be read. *)
Lemma small_readable w groups g : holds_frames w groups g -> w_segmentSize w <= peekTailChunk -> readable w.
Proof.
  intros H Hs. unfold readable. rewrite (hf_disk _ _ _ H). apply Forall_app. split.
  - apply Forall_fmap. eapply Forall_impl; [exact (hf_files _ _ _ H)|]. intros gr Hgr. left. cbn in *. lia.
  - constructor; [|constructor]. left. pose proof (hf_bound _ _ _ H). cbn [snd]. lia.
Qed.
Lemma readable_check w : forallb (fun f => Z.of_nat (length f.2) <=? peekTailChunk) (w_disk w) = true -> readable w.
Proof.
  intros H. apply Forall_forall. intros f Hf. rewrite forallb_forall in H. left.
  by apply Z.leb_le, (H f), list_elem_of_In.
Qed.

(** Whether the chains that reach the end of a file all give [lsn]. *)
Definition chains_agree (c : list byte) (lsn : Z) : bool :=
  let buf := tail_chunk c in let n := length buf in
  forallb (fun start => let '(e, l) := walkFrameChain (drop start buf) in negb (e =? n - start)%nat || (l =? lsn))
    (seq 0 (Z.to_nat peekResyncBound)).

Lemma chains_readable c lsn : chains_agree c lsn = true -> readable_file c.
Proof.
  intros H. right. assert (Hall : forall start l, reaches_end (tail_chunk c) start l -> l = lsn).
  { intros start l [Hs E]. unfold chains_agree in H. rewrite forallb_forall in H.
    specialize (H start). rewrite E, Nat.eqb_refl in H. apply Z.eqb_eq, H, in_seq. lia. }
  intros s s' l l' H1%Hall H2%Hall. congruence.
Qed.

(** ** Properties *)

(** C13. Truncation removes only what a snapshot covers.  On the log of any
    batches, truncating before [lsn] removes exactly the segment files, the
    current one apart, all of whose records have smaller LSNs; the other files
    are as they were.  Provided the last LSN of each file can be read: every
    file is at most one tail chunk long, or else no record is longer than the
    search bound and no payload passes for a chain of frames up to the end of
    the file - the finding [truncate_can_remove_needed] is such a file. *)
Theorem truncate_removes_covered size bs lsn : 29 <= size -> Forall (client_batch size) bs ->
  fits_peek size bs -> lsn_after 0 bs < 2 ^ 63 -> 0 < lsn -> let w := append_all bs (Open [] size) in
  readable w ->
  exists files, w_disk w = seg_file <$> files /\ concat files.*2 = log_of 0 bs
    /\ w_disk (TruncateBefore lsn w) ⊆ w_disk w
    /\ forall f, f ∈ files -> seg_file f ∈ w_disk (TruncateBefore lsn w)
         <-> f.1 = w_currentID w \/ exists r, r ∈ f.2 /\ lsn <= lsn_of r.
Proof.
  intros Hs Hbs Hfp Hm Hl w Hrd. destruct (fresh_holds size) as [H0 Hs0]; [lia|].
  destruct (append_all_ok bs _ [] [] H0) as (gs & g & H & Ea & El & Es & _ & _); [lia|by rewrite Hs0|]. fold w in H, El, Es.
  change (all_records gs g = log_of 0 bs) in Ea. rewrite Hs0 in Es.
  pose proof (log_walkable size bs 0 Hfp Hbs ltac:(lia) Hm) as Hw.
  destruct (log_lsns bs 0 ltac:(lia) Hm) as [Ho _]. rewrite <- Ea in Hw, Ho.
  pose proof (truncate_holds lsn w gs g H Hrd ltac:(by rewrite Es)) as Ht. exists (gs ++ [(w_currentID w, g)]).
  unfold all_records in *. apply Forall_app in Hw as [Hw _].
  split; [rewrite (hf_disk _ _ _ H); by rewrite fmap_app|].
  split; [rewrite fmap_app, concat_app; cbn; by rewrite app_nil_r|].
  pose proof (increasing_NoDup _ _ (hf_ids _ _ _ H)) as [Hn _]. apply NoDup_app in Hn as (_ & Hcur & _).
  rewrite (hf_disk _ _ _ Ht), (hf_disk _ _ _ H). cbn [TruncateBefore w_currentID]. split.
  { intros f. rewrite !elem_of_app. intros [(gr & -> & [_ Hgr]%list_elem_of_filter)%list_elem_of_fmap|Hf]; [left|by right].
    by apply list_elem_of_fmap_2. }
  intros f [Hf|Hf]%elem_of_app.
  2:{ apply list_elem_of_singleton in Hf as ->. rewrite elem_of_app. split; [by left|]. intros _. right. by left. }
  assert (Hne : f.1 <> w_currentID w).
  { intros E. apply (Hcur f.1); [by apply list_elem_of_fmap_2|]. rewrite E. by left. }
  assert (Hkept : seg_file f ∈ (seg_file <$> kept_groups lsn gs) ++ [(w_currentID w, frames g)] <-> lsn <= last_lsn 0 f.2).
  { rewrite elem_of_app. split.
    - intros [(f' & E & [Hf' Hin]%list_elem_of_filter)%list_elem_of_fmap|E%list_elem_of_singleton].
      + enough (f.2 = f'.2) as -> by done. clear -Hf Hin E H. eapply same_file; eauto.
      + by injection E as ? _.
    - intros Hle. left. apply list_elem_of_fmap_2, list_elem_of_filter. done. }
  rewrite Hkept. clear Hkept. apply Forall_groups in Hw. rewrite Forall_forall in Hw. specialize (Hw f Hf).
  assert (Hof : ordered f.2).
  { unfold ordered in *. apply StronglySorted_app in Ho as (_ & Ho & _).
    apply list_elem_of_split in Hf as (a & b & ->). rewrite fmap_app, concat_app in Ho. cbn in Ho.
    apply StronglySorted_app in Ho as (_ & _ & Ho). by apply StronglySorted_app in Ho as (_ & ? & _). }
  split.
  - intros Hle. right. destruct (decide (f.2 = [])) as [E|E]; [rewrite E in Hle; cbn in Hle; lia|].
    destruct (last_lsn_in 0 f.2 E) as (r & Hr & Er). exists r. split; [done|lia].
  - intros [?|(r & Hr & Hle)]; [done|]. pose proof (last_lsn_max size _ r Hof Hw Hr). lia.
Qed.

(** The first of the files is covered by a snapshot at 4, the second not. *)
Lemma truncate_removes_covered_witness :
  let w := append_all [[demo_record x41]; [demo_record x42]; [demo_record x43]] (Open [] 64) in
  exists files, w_disk w = seg_file <$> files /\ concat files.*2 = log_of 0 [[demo_record x41]; [demo_record x42]; [demo_record x43]]
    /\ w_disk (TruncateBefore 4 w) ⊆ w_disk w
    /\ forall f, f ∈ files -> seg_file f ∈ w_disk (TruncateBefore 4 w)
         <-> f.1 = w_currentID w \/ exists r, r ∈ f.2 /\ 4 <= lsn_of r.
Proof.
  apply (truncate_removes_covered 64 [[demo_record x41]; [demo_record x42]; [demo_record x43]] 4).
  - lia.
  - constructor; [|constructor; [|constructor; [|constructor]]]; apply demo_batch_ok; lia.
  - apply small_fits. vm_compute. discriminate.
  - vm_compute. reflexivity.
  - lia.
  - apply readable_check. vm_compute. reflexivity.
Defined.
