(* ===== verification/Direct.v ===== *)
(** * Direct I/O (internal/wal/direct.go, direct_linux.go; segment.go, wal.go)

    With WAL_DIRECT_IO a segment is written through a block buffer in memory:
    the kernel takes from an O_DIRECT file descriptor only whole aligned
    blocks.  The state of a log is that of [Wal] with the buffer of its current
    segment; its directory holds what has reached the device.  Whether the
    file system supports O_DIRECT, and the addresses the allocator returns, are
    parameters. *)

From S2P Require Import Prelude Core Crc Record Wal Recovery.

Definition DirectIOBlockSize : Z := 4096.

(** ** Aligned buffers *)

(** [make] returned memory at address [ptr]; the buffer and its address. *)
Definition NewAlignedBuffer (ptr size alignment : Z) : list byte * Z :=
  if alignment <=? 0 then (zeros (Z.to_nat size), ptr)
  else
    let buf := zeros (Z.to_nat (size + alignment)) in
    let offset := (alignment - ptr mod alignment) mod alignment in
    (slice (Z.to_nat offset) (Z.to_nat (offset + size)) buf, ptr + offset).

(** A slice with the address of its first byte. *)
Definition IsAligned (p : list byte) (ptr alignment : Z) : bool :=
  if (length p =? 0)%nat || (alignment <=? 0) then true
  else ptr mod alignment =? 0.

Record directIOBuffer := mkDirectBuffer {
  db_block : list byte;
  db_addr : Z;                 (* of the block in memory *)
  db_blockOffset : Z;
  db_buffered : Z }.

Definition newDirectIOBuffer (ptr initialFileOffset : Z) : directIOBuffer :=
  let alignedOffset := initialFileOffset / DirectIOBlockSize * DirectIOBlockSize in
  let '(block, addr) := NewAlignedBuffer ptr DirectIOBlockSize DirectIOBlockSize in
  mkDirectBuffer block addr alignedOffset (initialFileOffset - alignedOffset).

(** The kernel refuses what is not a whole number of aligned blocks. *)
Definition direct_WriteAt (id : Z) (p : list byte) (addr off : Z) (d : Disk) : Disk * result unit error :=
  if IsAligned p addr DirectIOBlockSize && (off mod DirectIOBlockSize =? 0)
     && (Z.of_nat (length p) mod DirectIOBlockSize =? 0)
  then (disk_put id (write_at (Z.to_nat off) p (default [] (disk_get d id))) d, Ok tt)
  else (d, Err ErrIO).

(** Pads the block and writes it; the buffer keeps the bytes it has. *)
Definition directBuf_flush (id targetOffset : Z) (b : directIOBuffer) (d : Disk)
    : directIOBuffer * Disk * result unit error :=
  if (db_blockOffset b + db_buffered b <=? db_blockOffset b) && (targetOffset =? db_blockOffset b)
  then (b, d, Ok tt)
  else
    let block := take (Z.to_nat (db_buffered b)) (db_block b)
                 ++ zeros (length (db_block b) - Z.to_nat (db_buffered b)) in
    let '(d, r) := direct_WriteAt id block (db_addr b) (db_blockOffset b) d in
    (mkDirectBuffer block (db_addr b) (db_blockOffset b) (db_buffered b), d, r).

(** ** Segments *)

(** The segment with its directBuf, which it has when it was opened with
    O_DIRECT. *)
Record DSegment := mkDSegment {
  ds_seg : Segment;
  ds_directBuf : option directIOBuffer }.

Definition seg_advance (n : Z) (s : Segment) : Segment :=
  mkSegment (s_id s) (s_maxSize s) (s_writeOffset s + n) (s_syncedOffset s).

(** A full block is written and the next one started. *)
Definition next_block (id : Z) (b : directIOBuffer) (d : Disk) : directIOBuffer * Disk * result unit error :=
  let space := DirectIOBlockSize - db_buffered b in
  if space =? 0 then
    let '(b, d, r) := directBuf_flush id (db_blockOffset b + DirectIOBlockSize) b d in
    match r with
    | Ok _ => (mkDirectBuffer (db_block b) (db_addr b) (db_blockOffset b + DirectIOBlockSize) 0, d, Ok tt)
    | Err e => (b, d, Err e)
    end
  else (b, d, Ok tt).

(** The loop of Write over what is left of the slice; a round copies at least
    one byte. *)
Fixpoint write_blocks (fuel : nat) (src : list byte) (s : Segment) (b : directIOBuffer) (d : Disk)
    : Disk * DSegment * result unit error :=
  match fuel with
  | O => (d, mkDSegment s (Some b), Ok tt)
  | S fuel =>
      if (length src =? 0)%nat then (d, mkDSegment s (Some b), Ok tt)
      else
        match next_block (s_id s) b d with
        | (b, d, Err e) => (d, mkDSegment s (Some b), Err e)
        | (b, d, Ok _) =>
            let space := DirectIOBlockSize - db_buffered b in
            let chunk := if space <? Z.of_nat (length src) then space else Z.of_nat (length src) in
            let block := copy_at (Z.to_nat (db_buffered b)) (take (Z.to_nat chunk) src) (db_block b) in
            write_blocks fuel (drop (Z.to_nat chunk) src) (seg_advance chunk s)
              (mkDirectBuffer block (db_addr b) (db_blockOffset b) (db_buffered b + chunk)) d
        end
  end.

Definition DSegment_Write (d : Disk) (s : DSegment) (p : list byte) : Disk * DSegment * result Z error :=
  match ds_directBuf s with
  | None =>
      let '(d, seg, r) := Segment_Write d (ds_seg s) p in (d, mkDSegment seg None, r)
  | Some b =>
      if IsFull (ds_seg s) (Z.of_nat (length p)) then (d, s, Err ErrSegmentFull)
      else
        let start := s_writeOffset (ds_seg s) in
        let '(d, s, r) := write_blocks (length p) p (ds_seg s) b d in
        (d, s, match r with Ok _ => Ok start | Err e => Err e end)
  end.

Definition DSegment_Sync (d : Disk) (s : DSegment) : Disk * DSegment * result unit error :=
  match ds_directBuf s with
  | None => (d, mkDSegment (Segment_Sync (ds_seg s)) None, Ok tt)
  | Some b =>
      let '(b, d, r) := directBuf_flush (s_id (ds_seg s)) (s_writeOffset (ds_seg s)) b d in
      match r with
      | Err e => (d, mkDSegment (ds_seg s) (Some b), Err e)
      | Ok _ => (d, mkDSegment (Segment_Sync (ds_seg s)) (Some b), Ok tt)
      end
  end.

Section DirectLog.
(** [supported]: the file system takes O_DIRECT; [alloc id] is the address of
    the memory for the buffer of segment [id]. *)
Context (supported : bool) (alloc : Z -> Z).

Definition DSegment_Truncate (d : Disk) (s : DSegment) (size : Z) : Disk * DSegment :=
  let '(d, seg) := Segment_Truncate d (ds_seg s) size in
  (d, mkDSegment seg
        match ds_directBuf s with
        | None => None
        | Some _ => Some (newDirectIOBuffer (alloc (s_id seg)) (s_writeOffset seg))
        end).

(** openDirectFile falls back to buffered I/O when the file system refuses. *)
Definition openDirectFile (wantDirect : bool) : bool := wantDirect && supported.

Definition openSegmentWithOptions (d : Disk) (id maxSize : Z) (wantDirect : bool) : Disk * DSegment :=
  let isDirect := openDirectFile wantDirect in
  let '(d, seg) := openSegment d id maxSize in
  (d, mkDSegment seg
        (if isDirect then Some (newDirectIOBuffer (alloc id) (s_writeOffset seg)) else None)).

(** ** The log *)

(** [d_log] has the fields of [WAL]; its directory is what has been written to
    the files. *)
Record DWAL := mkDWAL {
  d_log : WAL;
  d_directIO : bool;
  d_buf : option directIOBuffer }.

Definition d_current (w : DWAL) : DSegment := mkDSegment (w_current (d_log w)) (d_buf w).
Definition d_disk (w : DWAL) : Disk := w_disk (d_log w).
Definition d_set_log (l : WAL) (w : DWAL) : DWAL := mkDWAL l (d_directIO w) (d_buf w).
Definition d_set_seg (d : Disk) (s : DSegment) (w : DWAL) : DWAL :=
  mkDWAL (set_disk_seg d (ds_seg s) (d_log w)) (d_directIO w) (ds_directBuf s).

Definition OpenWithOptions (d : Disk) (segmentSize : Z) (directIO : bool) : DWAL :=
  let segmentSize := if segmentSize <=? 0 then DefaultSegmentSize else segmentSize in
  let currentID := default 1 (last (listSegmentIDs d)) in
  let '(d, seg) := openSegmentWithOptions d currentID segmentSize directIO in
  mkDWAL (mkWAL d segmentSize (ds_seg seg) currentID 0) directIO (ds_directBuf seg).

Definition d_lift {A} (c : WM A) : M DWAL error A := fun w =>
  let '(l, r) := c (d_log w) in (d_set_log l w, r).

Definition d_Sync : M DWAL error unit := fun w =>
  let '(d, s, r) := DSegment_Sync (d_disk w) (d_current w) in (d_set_seg d s w, r).

Definition d_rotateLocked : M DWAL error unit :=
  d_Sync >>
  smodify (fun w =>
    let l := d_log w in
    let currentID := w_currentID l + 1 in
    let '(d, s) := openSegmentWithOptions (w_disk l) currentID (w_segmentSize l) (d_directIO w) in
    mkDWAL (mkWAL d (w_segmentSize l) (ds_seg s) currentID (w_currentLSN l)) (d_directIO w) (ds_directBuf s)).
Definition d_Rotate : M DWAL error unit := d_rotateLocked.

Fixpoint d_writeBuffered_loop (fuel : nat) (buf : list byte) (frameEnds : list Z) (written : Z) (fi : nat)
    : M DWAL error unit :=
  match fuel with
  | O => sfail ErrIO
  | S fuel' =>
      if Z.of_nat (length buf) <=? written then sret tt
      else
        w <-- sget ;;
        (if IsFull (ds_seg (d_current w)) 1 then d_rotateLocked else sret tt) >>
        w <-- sget ;;
        let space := s_maxSize (ds_seg (d_current w)) - s_writeOffset (ds_seg (d_current w)) in
        let '(fi', end_) := fit_frames (length frameEnds) frameEnds written space fi written in
        if end_ =? written then
          if space <? w_segmentSize (d_log w) then
            d_rotateLocked >> d_writeBuffered_loop fuel' buf frameEnds written fi'
          else sfail (ErrRecordTooLarge (default 0 (frameEnds !! fi') - written) (w_segmentSize (d_log w)))
        else
          let '(d, s, r) := DSegment_Write (d_disk w) (d_current w)
                              (slice (Z.to_nat written) (Z.to_nat end_) buf) in
          smodify (d_set_seg d s) >>
          _ <-- slift r ;;
          d_writeBuffered_loop fuel' buf frameEnds end_ fi'
  end.

Definition d_writeBuffered (buf : list byte) (frameEnds : list Z) : M DWAL error unit :=
  d_writeBuffered_loop (2 * length frameEnds + 2) buf frameEnds 0 0.

Definition d_AppendBatch (records : list Record) : M DWAL error Z :=
  match records with
  | [] => w <-- sget ;; sret (w_currentLSN (d_log w))
  | _ =>
      w <-- sget ;;
      let startLSN := w_currentLSN (d_log w) + 1 in
      enc <-- d_lift (encode_records records [] []) ;;
      let '(encBuf, frameEnds) := enc in
      d_lift (smodify (fun w => set_currentLSN (w_currentLSN w + 1) w)) >>
      w <-- sget ;;
      let encBuf := appendCommitFrame encBuf (w_currentLSN (d_log w)) (length records) in
      let frameEnds := frameEnds ++ [i32 (Z.of_nat (length encBuf))] in
      d_writeBuffered encBuf frameEnds >>
      sret startLSN
  end.

Definition d_AppendCheckpoint (lsn : Z) : M DWAL error unit :=
  _ <-- d_AppendBatch [mkRecord 0 RecordTypeCheckpoint (be_bytes 8 (u64 lsn))] ;;
  d_Sync.

(** RecoverFromLSN closes the segment, with its buffer, and opens the last one
    with openSegment: without direct I/O, until the next rotation. *)
Definition d_RecoverFromLSN {S : Type} (fromLSN : Z) (handler : Record -> M S error unit) (w : DWAL) (s : S)
    : DWAL * S * result unit error :=
  let '(l, s, r) := RecoverFromLSN fromLSN handler (d_log w) s in
  (mkDWAL l (d_directIO w) match r with Ok _ => None | Err _ => d_buf w end, s, r).
Definition d_Recover {S : Type} (handler : Record -> M S error unit) (w : DWAL) (s : S)
    : DWAL * S * result unit error := d_RecoverFromLSN 0 handler w s.

Definition d_Reset (w : DWAL) : DWAL :=
  let l := d_log w in
  let d := foldl (fun d id => disk_remove id d) (w_disk l) (listSegmentIDs (w_disk l)) in
  let '(d, s) := openSegmentWithOptions d 1 (w_segmentSize l) (d_directIO w) in
  mkDWAL (mkWAL d (w_segmentSize l) (ds_seg s) 1 0) (d_directIO w) (ds_directBuf s).
End DirectLog.
