(* ===== verification/DirectProps.v ===== *)
(** * Properties of direct I/O

    A direct log does what the buffered log does, and its files are the
    buffered log's files with zeros up to the next block boundary.  Recovery
    takes the zeros for a torn tail: it is complete when they are in the last
    segment, and drops every segment that follows them. *)

From S2P Require Import Prelude Core Codec Crc Record Wal Recovery WalProps RecoveryProps Direct.

(** ** Padding *)

Definition pad_len (n : nat) : nat := Z.to_nat ((- Z.of_nat n) mod DirectIOBlockSize).
Definition pad (c : list byte) : list byte := c ++ zeros (pad_len (length c)).

Lemma block_pos : 0 < DirectIOBlockSize.
Proof. done. Qed.
#[global] Opaque DirectIOBlockSize.

(** The zeros after [k] bytes of a block. *)
Lemma pad_block off k n : Z.of_nat n = off + k -> off mod DirectIOBlockSize = 0 -> 0 < k <= DirectIOBlockSize ->
  Z.of_nat (pad_len n) = DirectIOBlockSize - k.
Proof.
  intros En Ho Hk. unfold pad_len. pose proof block_pos as Hb. rewrite En.
  pose proof (Z.mod_pos_bound (- (off + k)) DirectIOBlockSize Hb) as Hm. rewrite Z2Nat.id by lia.
  apply Z.mod_divide in Ho as [q ->]; [|lia].
  replace (- (q * DirectIOBlockSize + k)) with (DirectIOBlockSize - k + (- q - 1) * DirectIOBlockSize) by ring.
  rewrite Z.mod_add by lia. apply Z.mod_small. lia.
Qed.

Lemma pad_aligned c : Z.of_nat (length c) mod DirectIOBlockSize = 0 -> pad c = c.
Proof.
  intros H. unfold pad, pad_len. rewrite Z.mod_opp_l_z by (done || (pose proof block_pos; lia)).
  apply app_nil_r.
Qed.

Lemma pad_len_aligned n : Z.of_nat (n + pad_len n) mod DirectIOBlockSize = 0.
Proof.
  pose proof block_pos as Hb. unfold pad_len.
  pose proof (Z.mod_pos_bound (- Z.of_nat n) DirectIOBlockSize Hb) as Hm.
  rewrite Nat2Z.inj_add, Z2Nat.id by lia. rewrite Z.add_mod_idemp_r by lia.
  rewrite Z.add_opp_diag_r. apply Z.mod_0_l. lia.
Qed.

(** ** Aligned buffers *)

(** The buffer has the requested size and starts at an aligned address. *)
Lemma NewAlignedBuffer_aligned ptr size alignment : 0 <= size -> 0 < alignment ->
  let '(p, addr) := NewAlignedBuffer ptr size alignment in
  p = zeros (Z.to_nat size) /\ IsAligned p addr alignment = true /\ addr mod alignment = 0
  /\ ptr <= addr /\ addr + size <= ptr + size + alignment.
Proof.
  intros Hs Ha. unfold NewAlignedBuffer. rewrite (proj2 (Z.leb_gt _ _)) by lia.
  pose proof (Z.mod_pos_bound ptr alignment Ha) as Hm.
  set (o := (alignment - ptr mod alignment) mod alignment).
  assert (Ho : 0 <= o < alignment) by (apply Z.mod_pos_bound; lia).
  assert (Hadd : (ptr + o) mod alignment = 0).
  { unfold o. rewrite Z.add_mod_idemp_r by lia.
    rewrite (Z.div_mod ptr alignment) at 1 by lia.
    replace (alignment * (ptr / alignment) + ptr mod alignment + (alignment - ptr mod alignment))
      with ((ptr / alignment + 1) * alignment) by ring. apply Z.mod_mul. lia. }
  split_and!; [| |done|lia|lia].
  - unfold slice, zeros. rewrite drop_replicate, take_replicate. f_equal. lia.
  - unfold IsAligned. destruct (_ || _); [done|]. by rewrite Hadd.
Qed.

(** ** The buffer of a segment

    [f] is the file, [c] the bytes written to the segment, of which the first
    [synced] are synced. *)
Record direct_ok (b : directIOBuffer) (f c : list byte) (synced : Z) : Prop := {
  do_addr : db_addr b mod DirectIOBlockSize = 0;
  do_block : Z.of_nat (length (db_block b)) = DirectIOBlockSize;
  do_aligned : db_blockOffset b mod DirectIOBlockSize = 0;
  do_offset : 0 <= db_blockOffset b;
  do_buffered : 0 <= db_buffered b <= DirectIOBlockSize;
  do_length : db_blockOffset b + db_buffered b = Z.of_nat (length c);
  do_bytes : take (Z.to_nat (db_buffered b)) (db_block b) = drop (Z.to_nat (db_blockOffset b)) c;
  do_file : take (Z.to_nat (db_blockOffset b)) f = take (Z.to_nat (db_blockOffset b)) c;
  do_size : Z.of_nat (length f) = db_blockOffset b
            \/ Z.of_nat (length f) = db_blockOffset b + DirectIOBlockSize /\ 0 < db_buffered b;
  do_synced : 0 <= synced <= Z.of_nat (length c) /\ take (Z.to_nat synced) f = take (Z.to_nat synced) c }.

(** A buffer for a file whose size is a whole number of blocks. *)
Lemma new_buffer_ok ptr c : Z.of_nat (length c) mod DirectIOBlockSize = 0 ->
  direct_ok (newDirectIOBuffer ptr (Z.of_nat (length c))) c c (Z.of_nat (length c)).
Proof.
  intros Hc. pose proof block_pos as Hb. unfold newDirectIOBuffer.
  pose proof (NewAlignedBuffer_aligned ptr DirectIOBlockSize DirectIOBlockSize ltac:(lia) Hb) as Hn.
  destruct (NewAlignedBuffer _ _ _) as [p addr]. destruct Hn as (-> & _ & Ha & _).
  rewrite (Z.mul_comm (_ / _)). rewrite <- (Z_div_exact_full_2 (Z.of_nat (length c)) DirectIOBlockSize) by (done || lia).
  rewrite Z.sub_diag.
  constructor; cbn [db_addr db_block db_blockOffset db_buffered]; rewrite ?length_zeros, ?Nat2Z.id.
  all: try done; try lia.
  - change (Z.to_nat 0) with 0%nat. by rewrite take_0, drop_all.
  - split; [lia|done].
Qed.

Lemma write_at_block off (p f c : list byte) : take off f = take off c -> (length f = off \/ length f = off + length p)%nat ->
  write_at off p f = take off c ++ p.
Proof.
  intros E Hl. unfold write_at. rewrite E, drop_ge by lia. replace (off - length f)%nat with 0%nat by lia.
  by rewrite app_nil_r.
Qed.

(** The files of a log: those of closed segments, then the current one. *)
Definition current_is (d : Disk) (D : Disk) (id : Z) (f : list byte) : Prop :=
  d = D ++ [(id, f)] /\ increasing 0 (D.*1 ++ [id]).

Lemma current_get d D id f : current_is d D id f -> disk_get d id = Some f.
Proof. intros [-> H]. by apply disk_get_last. Qed.
Lemma current_put d D id f f' : current_is d D id f -> current_is (disk_put id f' d) D id f'.
Proof. intros [-> H]. rewrite disk_put_last by done. by split. Qed.

Lemma directBuf_flush_ok b d D id f c synced : direct_ok b f c synced -> current_is d D id f ->
  exists b' d', directBuf_flush id (Z.of_nat (length c)) b d = (b', d', Ok tt)
    /\ current_is d' D id (pad c) /\ direct_ok b' (pad c) c (Z.of_nat (length c))
    /\ db_blockOffset b' = db_blockOffset b /\ db_buffered b' = db_buffered b /\ db_addr b' = db_addr b.
Proof.
  intros [Ha Hb Hal Ho Hbf Hl Hby Hf Hs [Hsy1 Hsy2]] Hd. unfold directBuf_flush. cbv zeta.
  destruct (Z.leb_spec (db_blockOffset b + db_buffered b) (db_blockOffset b)) as [Hz|Hz]; cbn [andb].
  - assert (db_buffered b = 0) as E0 by lia. rewrite (proj2 (Z.eqb_eq _ _)) by lia.
    assert (Efc : f = c).
    { destruct Hs as [Hs|[_ ?]]; [|lia]. rewrite <- (firstn_all f), <- (firstn_all c).
      replace (length f) with (Z.to_nat (db_blockOffset b)) by lia.
      by replace (length c) with (Z.to_nat (db_blockOffset b)) by lia. }
    subst f. assert (Hpc : pad c = c) by (apply pad_aligned; by replace (Z.of_nat (length c)) with (db_blockOffset b) by lia).
    exists b, d. rewrite Hpc. split_and!; try done. constructor; try done. split; [lia|done].
  - pose proof block_pos.
    set (block := take (Z.to_nat (db_buffered b)) (db_block b) ++ zeros (length (db_block b) - Z.to_nat (db_buffered b))).
    assert (Hbl : length block = Z.to_nat DirectIOBlockSize).
    { unfold block. rewrite length_app, length_take, length_zeros. lia. }
    unfold direct_WriteAt, IsAligned. rewrite Ha, Hal, Hbl, Z2Nat.id by lia.
    rewrite Z.mod_same by lia. rewrite orb_comm. rewrite (proj2 (Z.leb_gt _ _)) by lia. cbn [orb].
    rewrite (proj2 (Nat.eqb_neq _ _)) by lia. cbn [Z.eqb andb].
    rewrite (current_get _ _ _ _ Hd). cbn [default from_option].
    assert (Hw : write_at (Z.to_nat (db_blockOffset b)) block f = pad c).
    { rewrite (write_at_block _ _ _ c) by (done || lia). unfold block. rewrite Hby. unfold pad.
      rewrite app_assoc, take_drop. do 2 f_equal.
      pose proof (pad_block (db_blockOffset b) (db_buffered b) (length c)) as Hp. lia. }
    change (Datatypes.id f) with f. rewrite Hw. do 2 eexists. split; [done|]. split; [by apply (current_put _ _ _ f)|].
    split; [|done]. pose proof (pad_block (db_blockOffset b) (db_buffered b) (length c)) as Hp.
    constructor; cbn [db_addr db_block db_blockOffset db_buffered]; try done; try lia.
    + unfold block. rewrite take_app_le, take_take, Nat.min_id; [done|]. rewrite length_take. lia.
    + unfold pad. by rewrite take_app_le by lia.
    + right. unfold pad. rewrite length_app, length_zeros. lia.
    + split; [lia|]. unfold pad. by rewrite take_app_le by lia.
Qed.

(** The next block, once this one is full and written. *)
Lemma full_block_ok b f c synced : direct_ok b f c synced -> f = pad c ->
  db_buffered b = DirectIOBlockSize ->
  direct_ok (mkDirectBuffer (db_block b) (db_addr b) (db_blockOffset b + DirectIOBlockSize) 0) c c synced
  /\ pad c = c.
Proof.
  intros [Ha Hb Hal Ho Hbf Hl Hby Hf Hs [Hsy1 Hsy2]] -> Eb. pose proof block_pos.
  assert (Ha' : (db_blockOffset b + DirectIOBlockSize) mod DirectIOBlockSize = 0).
  { rewrite <- (Z.mul_1_l DirectIOBlockSize) at 1. by rewrite Z.mod_add by lia. }
  assert (Hp : pad c = c) by (apply pad_aligned; rewrite <- Hl; by rewrite Eb).
  split; [|done]. constructor; cbn [db_addr db_block db_blockOffset db_buffered]; try done; try lia.
  - change (Z.to_nat 0) with 0%nat. rewrite take_0. symmetry. apply drop_ge. lia.
Qed.

Lemma next_block_ok id b d D f c synced : direct_ok b f c synced -> current_is d D id f ->
  exists b1 d1 f1, next_block id b d = (b1, d1, Ok tt)
    /\ direct_ok b1 f1 c synced /\ current_is d1 D id f1 /\ db_buffered b1 < DirectIOBlockSize.
Proof.
  intros Hok Hd. unfold next_block.
  pose proof block_pos as Hbp. destruct (Z.eqb_spec (DirectIOBlockSize - db_buffered b) 0) as [Es|Hs].
  - destruct (directBuf_flush_ok b d D id f c synced Hok Hd) as (b' & d' & E & Hd' & Hok' & Eo & Ef & Ea).
    pose proof (do_length _ _ _ _ Hok) as Hlen.
    replace (Z.of_nat (length c)) with (db_blockOffset b + DirectIOBlockSize) in E by lia.
    rewrite E. destruct (full_block_ok b' (pad c) c _ Hok') as [Hn Hp]; [done|lia|].
    do 3 eexists. split; [done|]. split; [|rewrite Hp in Hd'; split; [done|cbn [db_buffered]; lia]].
    destruct Hn as [? ? ? ? ? ? ? ? ? _]. constructor; try done.
    by destruct (do_synced _ _ _ _ Hok).
  - exists b, d, f. pose proof (do_buffered _ _ _ _ Hok). split_and!; try done. lia.
Qed.

(** Bytes that fit in the block. *)
Lemma fill_block_ok b f c synced p : direct_ok b f c synced ->
  db_buffered b < DirectIOBlockSize -> db_buffered b + Z.of_nat (length p) <= DirectIOBlockSize -> p <> [] ->
  direct_ok (mkDirectBuffer (copy_at (Z.to_nat (db_buffered b)) p (db_block b)) (db_addr b) (db_blockOffset b)
               (db_buffered b + Z.of_nat (length p))) f (c ++ p) synced.
Proof.
  intros [Ha Hb Hal Ho Hbf Hl Hby Hf Hs [Hsy1 Hsy2]] Hlt Hfit Hne.
  assert (Hp : (0 < length p)%nat) by (destruct p; [done|simpl; lia]).
  constructor; cbn [db_addr db_block db_blockOffset db_buffered]; try done; try lia.
  - rewrite length_copy_at; lia.
  - rewrite length_app. lia.
  - unfold copy_at. rewrite app_assoc, take_app_le by (rewrite length_app, length_take; lia).
    rewrite take_ge by (rewrite length_app, length_take; lia).
    rewrite drop_app_le by lia. by f_equal.
  - rewrite take_app_le by lia. done.
  - rewrite length_app. split; [lia|]. by rewrite take_app_le by lia.
Qed.

Lemma write_blocks_ok fuel : forall src s b d D f c synced,
  direct_ok b f c synced -> current_is d D (s_id s) f -> (length src <= fuel)%nat ->
  exists b' d' f', write_blocks fuel src s b d = (d', mkDSegment (seg_advance (Z.of_nat (length src)) s) (Some b'), Ok tt)
    /\ direct_ok b' f' (c ++ src) synced /\ current_is d' D (s_id s) f'.
Proof.
  induction fuel as [|fuel IH]; intros src s b d D f c synced Hok Hd Hl.
  { destruct src; [|simpl in Hl; lia]. exists b, d, f. rewrite app_nil_r.
    split_and!; try done. unfold seg_advance. rewrite Z.add_0_r. by destruct s. }
  cbn [write_blocks]. destruct (Nat.eqb_spec (length src) 0) as [E0|Hne].
  { destruct src; [|done]. exists b, d, f. rewrite app_nil_r.
    split_and!; try done. unfold seg_advance. rewrite Z.add_0_r. by destruct s. }
  pose proof block_pos as Hbp.
  destruct (next_block_ok (s_id s) b d D f c synced Hok Hd) as (b1 & d1 & f1 & -> & Hok1 & Hd1 & Hlt).
  set (space := DirectIOBlockSize - db_buffered b1).
  set (chunk := if space <? Z.of_nat (length src) then space else Z.of_nat (length src)).
  assert (Hc : 0 < chunk <= Z.of_nat (length src) /\ db_buffered b1 + chunk <= DirectIOBlockSize).
  { unfold chunk. destruct (Z.ltb_spec space (Z.of_nat (length src))); unfold space in *; lia. }
  assert (Hlc : Z.of_nat (length (take (Z.to_nat chunk) src)) = chunk) by (rewrite length_take; lia).
  pose proof (fill_block_ok b1 f1 c synced (take (Z.to_nat chunk) src) Hok1 Hlt) as Hfill.
  rewrite Hlc in Hfill. specialize (Hfill ltac:(lia)).
  assert (Hnt : take (Z.to_nat chunk) src <> []) by (intros E; rewrite E in Hlc; simpl in Hlc; lia).
  specialize (Hfill Hnt).
  destruct (IH (drop (Z.to_nat chunk) src) (seg_advance chunk s) _ d1 D f1 _ synced Hfill Hd1) as (b' & d' & f' & E & Hok' & Hd').
  { rewrite length_drop. lia. }
  exists b', d', f'. rewrite E. rewrite <- app_assoc, take_drop in Hok'. split; [|done].
  unfold seg_advance. cbn [s_id s_maxSize s_writeOffset s_syncedOffset]. rewrite length_drop. do 4 f_equal. lia.
Qed.

(** ** The directory *)

(** A file of the direct log: what the buffered log's file holds, and possibly
    zeros up to a block boundary. *)
Definition padded (p l : Z * list byte) : Prop := p.1 = l.1 /\ (p.2 = l.2 \/ p.2 = pad l.2).

Lemma padded_refl D : Forall2 padded D D.
Proof. induction D; constructor; [split; auto|done]. Qed.

Lemma padded_ids P D : Forall2 padded P D -> P.*1 = D.*1.
Proof. induction 1 as [|p l P D [E _] _ IH]; [done|]. cbn [fmap list_fmap]. by rewrite E, IH. Qed.

(** Opening the segment after the current one creates an empty file. *)
Lemma open_next_segment d D id f maxSize : current_is d D id f ->
  openSegment d (id + 1) maxSize
  = ((D ++ [(id, f)]) ++ [(id + 1, [])],
     mkSegment (id + 1) (if maxSize <=? 0 then DefaultSegmentSize else maxSize) 0 0)
  /\ current_is ((D ++ [(id, f)]) ++ [(id + 1, [])]) (D ++ [(id, f)]) (id + 1) [].
Proof.
  intros [-> Hi]. destruct (increasing_lt _ _ _ Hi) as [Hlt _].
  assert (Hnew : Forall (fun x => x < id + 1) (D ++ [(id, f)]).*1).
  { rewrite fmap_app. apply Forall_app. split; [|by repeat constructor; simpl; lia].
    apply (Forall_impl _ _ _ Hlt). intros x Hx. cbn in Hx. lia. }
  unfold openSegment. rewrite disk_get_new, disk_put_new by done. split; [done|]. split; [done|].
  rewrite fmap_app, <- app_assoc. cbn [fmap list_fmap fst]. apply increasing_snoc; [done|lia].
Qed.

(** ** The log *)

(** The file [f] of the current segment, for its bytes [c]. *)
Definition buffer_ok (b : option directIOBuffer) (f c : list byte) (synced : Z) : Prop :=
  match b with None => f = c | Some b => direct_ok b f c synced end.

(** The direct log [x] stands for the buffered log [w]; [P] and [D] are the
    closed files of the two, [f] and [c] the current one. *)
Record direct_sim_at (x : DWAL) (w : WAL) (P D : Disk) (f c : list byte) : Prop := {
  sim_size : w_segmentSize (d_log x) = w_segmentSize w;
  sim_id : w_currentID (d_log x) = w_currentID w;
  sim_lsn : w_currentLSN (d_log x) = w_currentLSN w;
  sim_seg : w_current (d_log x) = w_current w;
  sim_segid : s_id (w_current w) = w_currentID w;
  sim_offset : s_writeOffset (w_current w) = Z.of_nat (length c);
  sim_disk : current_is (d_disk x) P (w_currentID w) f;
  sim_disk' : current_is (w_disk w) D (w_currentID w) c;
  sim_files : Forall2 padded P D;
  sim_buf : buffer_ok (d_buf x) f c (s_syncedOffset (w_current w)) }.

Definition direct_sim (x : DWAL) (w : WAL) : Prop := exists P D f c, direct_sim_at x w P D f c.

(** Every file holds what the buffered log's file holds, up to zeros. *)
Definition files_padded (x : DWAL) (w : WAL) : Prop := Forall2 padded (d_disk x) (w_disk w).

Section Simulation.
Context (supported : bool) (alloc : Z -> Z).

(** [m] on the direct log does what [n] does on the buffered one. *)
Definition sim_run {A} (m : M DWAL error A) (n : WM A) (x : DWAL) (w : WAL) : Prop :=
  exists x', m x = (x', (n w).2) /\ direct_sim x' (n w).1.

Lemma sim_ret {A} (a : A) x w : direct_sim x w -> sim_run (sret a) (sret a) x w.
Proof using. intros H. by exists x. Qed.
Lemma sim_fail {A} e x w : direct_sim x w -> sim_run (A := A) (sfail e) (sfail e) x w.
Proof using. intros H. by exists x. Qed.
Lemma sim_bind {A B} (m : M DWAL error A) (n : WM A) (k : A -> M DWAL error B) (k' : A -> WM B) x w :
  sim_run m n x w -> (forall a x' w', direct_sim x' w' -> sim_run (k a) (k' a) x' w') ->
  sim_run (sbind m k) (sbind n k') x w.
Proof using.
  intros (x' & E & H) Hk. unfold sim_run, sbind. rewrite E. destruct (n w) as [w' [a|e]]; cbn [snd fst] in *.
  - apply Hk, H.
  - by exists x'.
Qed.
Lemma sim_get {B} (k : DWAL -> M DWAL error B) (k' : WAL -> WM B) x w :
  sim_run (k x) (k' w) x w -> sim_run (sbind sget k) (sbind sget k') x w.
Proof using. done. Qed.
(** A step that succeeds on both sides. *)
Lemma sim_step {B} (m : M DWAL error unit) (f : WAL -> WAL) (k : M DWAL error B) (k' : WM B) x w x1 :
  m x = (x1, Ok tt) -> sim_run k k' x1 (f w) -> sim_run (m >> k) (smodify f >> k') x w.
Proof using. intros E (x' & Ek & H). exists x'. unfold sbind. by rewrite E. Qed.

(** The LSN counter. *)
Lemma sim_set_LSN x w P D f c lsn : direct_sim_at x w P D f c ->
  direct_sim_at (d_set_log (set_currentLSN lsn (d_log x)) x) (set_currentLSN lsn w) P D f c.
Proof using. intros []. by constructor. Qed.

Lemma sim_sync_at x w P D f c : direct_sim_at x w P D f c ->
  exists x' f', d_Sync x = (x', Ok tt) /\ direct_sim_at x' (Sync w) P D f' c /\ (f' = c \/ f' = pad c)
    /\ d_directIO x' = d_directIO x.
Proof using.
  intros [Hz Hi Hl Hs Hsi Ho Hd Hd' Hf Hb]. unfold d_Sync, DSegment_Sync, d_current. cbn [ds_directBuf ds_seg].
  destruct (d_buf x) as [b|] eqn:Eb; cbn [buffer_ok] in Hb.
  - rewrite Hs, Ho. rewrite <- Hsi in Hd.
    destruct (directBuf_flush_ok b _ _ _ _ _ _ Hb Hd) as (b' & d' & E & Hd2 & Hok & _). rewrite E. rewrite Hsi in Hd2.
    do 2 eexists. split; [done|]. split; [|split; [by right|done]].
    constructor; cbn; try done; congruence.
  - do 2 eexists. split; [done|]. split; [|split; [by left|done]]. subst f.
    constructor; cbn; try done; congruence.
Qed.

Lemma sim_rotate_at x w P D f c : direct_sim_at x w P D f c ->
  exists x' f', d_rotateLocked supported alloc x = (x', Ok tt)
    /\ direct_sim_at x' (rotateLocked w) (P ++ [(w_currentID w, f')]) (D ++ [(w_currentID w, c)]) [] []
    /\ (f' = c \/ f' = pad c).
Proof using.
  intros H. destruct (sim_sync_at _ _ _ _ _ _ H) as (x1 & f1 & E & H1 & Hf1 & Ed).
  destruct H1 as [Hz Hi Hl Hs Hsi Ho Hd Hd' Hf Hb]. cbn [Sync set_disk_seg w_segmentSize w_currentID w_currentLSN w_disk w_current] in *.
  unfold d_rotateLocked, sbind. rewrite E. unfold smodify, openSegmentWithOptions, rotateLocked. cbv beta zeta.
  rewrite Hi, Hz, Hl. unfold d_disk in Hd.
  destruct (open_next_segment _ _ _ _ (w_segmentSize w) Hd) as [-> Hn1].
  destruct (open_next_segment _ _ _ _ (w_segmentSize w) Hd') as [-> Hn2].
  do 2 eexists. split; [done|]. split; [|done].
  constructor; cbn; try done.
  - apply Forall2_app; [done|]. constructor; [by split|done].
  - destruct (openDirectFile supported (d_directIO x1)); cbn; [|done].
    apply (new_buffer_ok _ []). done.
Qed.

Lemma sim_rotate x w : direct_sim x w -> exists x', d_rotateLocked supported alloc x = (x', Ok tt)
  /\ direct_sim x' (rotateLocked w).
Proof using.
  intros (P & D & f & c & H). destruct (sim_rotate_at _ _ _ _ _ _ H) as (x' & f' & E & H' & _).
  exists x'. split; [done|]. by do 4 eexists.
Qed.

Lemma write_at_end c p : write_at (length c) p c = c ++ p.
Proof using. unfold write_at. rewrite firstn_all, Nat.sub_diag, drop_ge by lia. by rewrite app_nil_r. Qed.

Lemma sim_write x w p : direct_sim x w ->
  exists d' s', DSegment_Write (d_disk x) (d_current x) p
      = (d', s', (Segment_Write (w_disk w) (w_current w) p).2)
    /\ direct_sim (d_set_seg d' s' x)
         (set_disk_seg (Segment_Write (w_disk w) (w_current w) p).1.1 (Segment_Write (w_disk w) (w_current w) p).1.2 w).
Proof using.
  intros (P & D & f & c & [Hz Hi Hl Hs Hsi Ho Hd Hd' Hf Hb]).
  assert (Hrefl : direct_sim_at x w P D f c) by (by constructor).
  unfold DSegment_Write, Segment_Write, d_current. cbn [ds_directBuf ds_seg]. rewrite Hs.
  destruct (d_buf x) as [b|] eqn:Eb; cbn [buffer_ok] in Hb.
  - destruct (IsFull (w_current w) (Z.of_nat (length p))).
    { do 2 eexists. split; [done|]. exists P, D, f, c. destruct Hrefl. constructor; cbn; try done; congruence. }
    rewrite <- Hsi in Hd.
    destruct (write_blocks_ok (length p) p (w_current w) b (d_disk x) P f c _ Hb Hd) as (b' & d' & f' & E & Hok & Hd2); [done|].
    rewrite E. rewrite Hsi in Hd2 |- *. rewrite (current_get _ _ _ _ Hd'). cbn [default from_option].
    change (Datatypes.id c) with c. rewrite Ho, Nat2Z.id, write_at_end.
    do 2 eexists. split; [done|]. exists P, D, f', (c ++ p).
    constructor; cbn; try done; try congruence.
    + unfold seg_advance. by rewrite Hsi, Ho.
    + rewrite length_app. lia.
    + by apply (current_put _ _ _ c).
  - subst f. unfold Segment_Write. destruct (IsFull (w_current w) (Z.of_nat (length p))).
    { do 2 eexists. split; [done|]. exists P, D, c, c. destruct Hrefl. constructor; cbn; try done; congruence. }
    rewrite Hsi, (current_get _ _ _ _ Hd), (current_get _ _ _ _ Hd'). cbn [default from_option].
    change (Datatypes.id c) with c. rewrite Ho, Nat2Z.id, write_at_end.
    do 2 eexists. split; [done|]. exists P, D, (c ++ p), (c ++ p).
    constructor; cbn; try done; try congruence.
    + rewrite length_app. lia.
    + by apply (current_put _ _ _ c).
    + by apply (current_put _ _ _ c).
Qed.

Lemma sim_encode rs : forall buf fe x w, direct_sim x w ->
  sim_run (d_lift (encode_records rs buf fe)) (encode_records rs buf fe) x w.
Proof using.
  induction rs as [|r rs IH]; intros buf fe x w (P & D & f & c & H).
  { exists x. split; [by destruct x|by do 4 eexists]. }
  pose proof (sim_set_LSN _ _ _ _ _ _ (w_currentLSN w + 1) H) as H1. rewrite <- (sim_lsn _ _ _ _ _ _ H) in H1 at 1.
  set (x1 := d_set_log _ x) in H1. set (w1 := set_currentLSN _ w) in H1.
  unfold sim_run, d_lift. cbn [encode_records]. unfold sbind, smodify, sget, slift.
  change (set_currentLSN (w_currentLSN (d_log x) + 1) (d_log x)) with (d_log x1). change (set_currentLSN (w_currentLSN w + 1) w) with w1.
  cbv beta iota. rewrite (sim_lsn _ _ _ _ _ _ H1), (sim_size _ _ _ _ _ _ H1).
  assert (Hs : direct_sim x1 w1) by (by do 4 eexists).
  destruct (appendFrame buf _) as [buf'|e]; [|by exists x1].
  destruct (_ <? _); [by exists x1|].
  destruct (IH buf' (fe ++ [i32 (Z.of_nat (length buf'))]) x1 w1 Hs) as (x' & E & H').
  unfold d_lift in E. destruct (encode_records rs buf' _ (d_log x1)) as [l q]. exists x'. split; [|done].
  rewrite <- E. by destruct x.
Qed.

Lemma sim_loop fuel : forall buf fe written fi x w, direct_sim x w ->
  sim_run (d_writeBuffered_loop supported alloc fuel buf fe written fi) (writeBuffered_loop fuel buf fe written fi) x w.
Proof using.
  induction fuel as [|fuel IH]; intros buf fe written fi x w H; [by apply sim_fail|].
  cbn [d_writeBuffered_loop writeBuffered_loop]. destruct (_ <=? written); [by apply sim_ret|].
  apply sim_get, sim_bind.
  { destruct H as (P & D & f & c & H). unfold d_current. cbn [ds_seg]. rewrite (sim_seg _ _ _ _ _ _ H).
    assert (direct_sim x w) by (by do 4 eexists).
    destruct (IsFull (w_current w) 1); [|by apply sim_ret]. by apply sim_rotate. }
  intros _ x1 w1 H1. apply sim_get.
  assert (E : w_current (d_log x1) = w_current w1 /\ w_segmentSize (d_log x1) = w_segmentSize w1).
  { destruct H1 as (P & D & f & c & []). by split. }
  destruct E as [Es Ez]. unfold d_current. cbn [ds_seg]. rewrite Es, Ez.
  destruct (fit_frames _ _ _ _ _ _) as [fi' end_]. destruct (end_ =? written).
  - destruct (_ <? w_segmentSize w1); [|by apply sim_fail].
    destruct (sim_rotate _ _ H1) as (x2 & E2 & H2). apply (sim_step _ _ _ _ _ _ x2 E2). by apply IH.
  - destruct (sim_write _ _ (slice (Z.to_nat written) (Z.to_nat end_) buf) H1) as (d' & s' & E2 & H2).
    unfold d_current in E2. rewrite Es in E2. rewrite E2. destruct (Segment_Write _ _ _) as [[d s] r]. cbn [fst snd] in *.
    apply (sim_step _ _ _ _ _ _ (d_set_seg d' s' x1)); [done|].
    apply sim_bind; [by exists (d_set_seg d' s' x1)|]. intros a x' w' H'. by apply IH.
Qed.
End Simulation.
