(* ===== verification/Stream.v ===== *)
(** * Streaming the log (internal/wal/stream.go)

    A reader of the committed records, polled while the log goes on: each call
    of Next sees the log as it is at that time.  An open handle keeps its file
    after the name is removed: [sr_f] holds the contents it had when last seen. *)

From S2P Require Import Prelude Core Crc Record Wal Recovery.

Record StreamReader := mkReader {
  sr_fromLSN : Z;
  sr_ids : list Z;      (* empty: nil *)
  sr_idx : nat;
  sr_maxID : Z;
  sr_f : option (list byte);
  sr_id : Z;
  sr_size : Z;
  sr_offset : Z;
  sr_pending : list Record;
  sr_emit : list Record }.

Abbreviation SM := (M StreamReader error).

Definition NewStreamReader (fromLSN : Z) : StreamReader := mkReader fromLSN [] 0 0 None 0 0 0 [] [].

Definition set_ids (ids : list Z) (maxID : Z) (sr : StreamReader) : StreamReader :=
  mkReader (sr_fromLSN sr) ids (sr_idx sr) maxID (sr_f sr) (sr_id sr) (sr_size sr) (sr_offset sr) (sr_pending sr) (sr_emit sr).
Definition set_idx (idx : nat) (sr : StreamReader) : StreamReader :=
  mkReader (sr_fromLSN sr) (sr_ids sr) idx (sr_maxID sr) (sr_f sr) (sr_id sr) (sr_size sr) (sr_offset sr) (sr_pending sr) (sr_emit sr).
Definition set_f (f : option (list byte)) (sr : StreamReader) : StreamReader :=
  mkReader (sr_fromLSN sr) (sr_ids sr) (sr_idx sr) (sr_maxID sr) f (sr_id sr) (sr_size sr) (sr_offset sr) (sr_pending sr) (sr_emit sr).
Definition set_file (f : list byte) (id : Z) (sr : StreamReader) : StreamReader :=
  mkReader (sr_fromLSN sr) (sr_ids sr) (sr_idx sr) (sr_maxID sr) (Some f) id (Z.of_nat (length f)) 0 (sr_pending sr) (sr_emit sr).
Definition set_offset (offset : Z) (sr : StreamReader) : StreamReader :=
  mkReader (sr_fromLSN sr) (sr_ids sr) (sr_idx sr) (sr_maxID sr) (sr_f sr) (sr_id sr) (sr_size sr) offset (sr_pending sr) (sr_emit sr).
Definition set_buffers (pending emit : list Record) (sr : StreamReader) : StreamReader :=
  mkReader (sr_fromLSN sr) (sr_ids sr) (sr_idx sr) (sr_maxID sr) (sr_f sr) (sr_id sr) (sr_size sr) (sr_offset sr) pending emit.

(** The segments with records above [fromLSN]. *)
Definition eligible (fromLSN : Z) (d : Disk) : list Z :=
  (filter (fun f => fromLSN < peekSegmentMaxLSN f.2) d).*1.

(** The loop that opens the next listed segment that still exists. *)
Fixpoint open_next (fuel : nat) (d : Disk) (sr : StreamReader) : StreamReader * bool :=
  match fuel with
  | O => (sr, false)
  | S fuel' =>
      match sr_ids sr !! sr_idx sr with
      | None => (sr, false)
      | Some id =>
          match disk_get d id with
          | None => open_next fuel' d (set_idx (S (sr_idx sr)) sr)
          | Some c => (set_file c id sr, true)
          end
      end
  end.

Definition relist (d : Disk) (sr : StreamReader) : StreamReader * bool :=
  let new := filter (fun id => sr_maxID sr < id) (listSegmentIDs d) in
  match new with
  | [] => (sr, false)
  | _ => (set_ids (sr_ids sr ++ new) (default (sr_maxID sr) (last new)) sr, true)
  end.

Definition ensureOpen (d : Disk) (sr : StreamReader) : StreamReader * bool :=
  match sr_f sr with
  | Some _ => (sr, true)
  | None =>
      let '(sr, listed) :=
        match sr_ids sr with
        | [] =>
            match eligible (sr_fromLSN sr) d with
            | [] => (sr, false)
            | ids => (set_idx 0 (set_ids ids (default 0 (last (listSegmentIDs d))) sr), true)
            end
        | _ => (sr, true)
        end in
      if (listed : bool) then
        let '(sr, opened) := open_next (length (sr_ids sr)) d sr in
        if opened then (sr, true)
        else
          let '(sr, appended) := relist d sr in
          if appended then open_next (length (sr_ids sr)) d sr else (sr, false)
      else (sr, false)
  end.

Definition advance (d : Disk) (sr : StreamReader) : StreamReader :=
  (ensureOpen d (set_idx (S (sr_idx sr)) (set_f None sr))).1.

(** The readable bound, and whether the segment is the live one. *)
Definition durableLimit (w : WAL) (sr : StreamReader) : Z * bool :=
  let '(curID, syncedOffset) := Head w in
  if sr_id sr =? curID then (syncedOffset, true) else (sr_size sr, false).

(** The file behind the handle. *)
Definition handle (d : Disk) (sr : StreamReader) : list byte :=
  match disk_get d (sr_id sr) with Some c => c | None => default [] (sr_f sr) end.

(** A read past the end of the file fails. *)
Definition read_at (file : list byte) (off n : Z) : result (list byte) error :=
  if Z.of_nat (length file) <? off + n then Err ErrIO
  else Ok (slice (Z.to_nat off) (Z.to_nat (off + n)) file).

(** [Ok None] is [caughtUp]. *)
Definition readFrame (file : list byte) (offset limit : Z) (isCurrent : bool) : result (option (Record * Z)) error :=
  hdr <-? read_at file offset 13 ;;
  let payloadLen := be_val (slice 9 13 hdr) in
  if 2 ^ 20 <? payloadLen then Err ErrCorrupted
  else
    let frameLen := 13 + payloadLen + 4 in
    if limit <? offset + frameLen then (if isCurrent then Ok None else Err ErrCorrupted)
    else
      frame <-? read_at file offset frameLen ;;
      rec <-? DecodeRecord frame ;;
      Ok (Some (rec, frameLen)).

Fixpoint Next_loop (fuel : nat) (w : WAL) (sr : StreamReader) : StreamReader * result (option Record) error :=
  match fuel with
  | O => (sr, Ok None)
  | S fuel' =>
      match sr_emit sr with
      | rec :: emit => (set_buffers (sr_pending sr) emit sr, Ok (Some rec))
      | [] =>
          let '(sr, opened) := ensureOpen (w_disk w) sr in
          if negb opened then (sr, Ok None)
          else
            let sr := set_f (Some (handle (w_disk w) sr)) sr in
            let '(limit, isCurrent) := durableLimit w sr in
            if limit <=? sr_offset sr then
              if negb isCurrent then Next_loop fuel' w (advance (w_disk w) sr) else (sr, Ok None)
            else if limit <? sr_offset sr + 13 + 4 then
              (sr, if negb isCurrent then Err ErrCorrupted else Ok None)
            else
              match readFrame (handle (w_disk w) sr) (sr_offset sr) limit isCurrent with
              | Err e => (sr, Err e)
              | Ok None => (sr, Ok None)
              | Ok (Some (rec, frameLen)) =>
                  let sr := set_offset (sr_offset sr + frameLen) sr in
                  if r_Type rec =? RecordTypeBatchCommit then
                    if Z.of_nat (length (sr_pending sr)) =? commit_count rec then
                      match sr_pending sr ++ [rec] with
                      | first :: emit => (set_buffers [] emit sr, Ok (Some first))
                      | [] => (sr, Ok None)
                      end
                    else Next_loop fuel' w (set_buffers [] (sr_emit sr) sr)
                  else Next_loop fuel' w (set_buffers (sr_pending sr ++ [rec]) (sr_emit sr) sr)
              end
      end
  end.

(** A round reads a frame of at least 17 bytes or leaves a segment. *)
Definition Next_fuel (w : WAL) : nat := S (length (concat (w_disk w).*2) + length (w_disk w)).
Definition Next (w : WAL) (sr : StreamReader) : StreamReader * result (option Record) error :=
  Next_loop (Next_fuel w) w sr.
