(* ===== verification/StreamProps.v ===== *)
(** * Properties of the log stream *)

From S2P Require Import Prelude Core Crc Record Wal Recovery WalProps RecoveryProps TruncateProps Stream.

(** The records a stream emits for the records it reads: whole batches with
    their markers; and the records of the batch it is in. *)
Fixpoint emits (rs p : list Record) : list Record * list Record :=
  match rs with
  | [] => ([], p)
  | r :: rs =>
      if r_Type r =? RecordTypeBatchCommit then
        if Z.of_nat (length p) =? commit_count r then
          let '(out, p') := emits rs [] in (p ++ r :: out, p')
        else emits rs []
      else emits rs (p ++ [r])
  end.

(** Polling until the stream has nothing more. *)
Fixpoint drain (n : nat) (w : WAL) (sr : StreamReader) : list Record * StreamReader * option error :=
  match n with
  | O => ([], sr, None)
  | S n =>
      match Next w sr with
      | (sr, Ok (Some r)) => let '(rs, sr, e) := drain n w sr in (r :: rs, sr, e)
      | (sr, Ok None) => ([], sr, None)
      | (sr, Err e) => ([], sr, Some e)
      end
  end.

(** What the stream reads without fault. *)
Definition streamable (r : Record) : Prop := wf_record r /\ Z.of_nat (length (r_Payload r)) <= 2 ^ 20.

(** The reader stands before [todo] in its file; the files [later] follow. *)
Record reading (w : WAL) (sr : StreamReader) (todo : list Record) (later : list (Z * list Record)) : Prop := {
  rd_file : exists done c, sr_f sr = Some c /\ disk_get (w_disk w) (sr_id sr) = Some (frames (done ++ todo))
    /\ sr_offset sr = Z.of_nat (length (frames done))
    /\ durableLimit w sr = (Z.of_nat (length (frames (done ++ todo))), sr_id sr =? w_currentID w);
  rd_later : Forall (fun f => disk_get (w_disk w) f.1 = Some (frames f.2)) later;
  rd_todo : Forall streamable todo;
  rd_records : Forall streamable (concat later.*2);
  rd_listed : drop (S (sr_idx sr)) (sr_ids sr) ++ filter (fun id => sr_maxID sr < id) (listSegmentIDs (w_disk w)) = later.*1;
  rd_idx : (sr_idx sr < length (sr_ids sr))%nat;
  rd_order : increasing (sr_id sr) later.*1;
  rd_current : Forall (fun id => id <= w_currentID w) (sr_id sr :: later.*1);
  rd_ids : increasing 0 (listSegmentIDs (w_disk w));
  rd_synced : forall c, disk_get (w_disk w) (w_currentID w) = Some c -> s_syncedOffset (w_current w) = Z.of_nat (length c) }.

(** ** One frame *)

Lemma read_frame_at done r todo limit cur : streamable r ->
  limit = Z.of_nat (length (frames (done ++ r :: todo))) ->
  readFrame (frames (done ++ r :: todo)) (Z.of_nat (length (frames done))) limit cur
  = Ok (Some (r, Z.of_nat (length (frame r)))).
Proof.
  intros [Hw Hp] ->. pose proof (length_frame r) as Hl. unfold readFrame, read_at.
  rewrite frames_app, frames_cons. set (pre := frames done). set (post := frames todo).
  rewrite !length_app. rewrite (proj2 (Z.ltb_ge _ _)) by lia. cbn [rbind].
  rewrite Z2Nat.inj_add, !Nat2Z.id by lia. change (Z.to_nat 13) with 13%nat.
  assert (Eh : slice (length pre) (length pre + 13) (pre ++ frame r ++ post) = slice 0 13 (frame r ++ post)).
  { rewrite <- (Nat.add_0_r (length pre)) at 1. by rewrite slice_from. }
  assert (Ep : be_val (slice 9 13 (slice 0 13 (frame r ++ post))) = Z.of_nat (length (r_Payload r))).
  { rewrite <- (frame_payload_len r post Hw). by f_equal. }
  rewrite Eh, Ep. rewrite !(proj2 (Z.ltb_ge _ _)) by lia. cbn [rbind].
  replace (Z.to_nat (Z.of_nat (length pre) + (13 + Z.of_nat (length (r_Payload r)) + 4)))
    with (length pre + length (frame r))%nat by lia.
  rewrite (slice_mid _ _ pre (frame r) post) by done. rewrite DecodeRecord_frame by done. cbn [rbind].
  do 3 f_equal. lia.
Qed.

(** ** Steps of Next *)

Lemma reading_set_buffers w sr todo later p e : reading w sr todo later -> reading w (set_buffers p e sr) todo later.
Proof. by intros []. Qed.

Lemma next_frame fuel w sr r todo later : reading w sr (r :: todo) later -> sr_emit sr = [] ->
  exists sr1, reading w sr1 todo later /\ sr_pending sr1 = sr_pending sr /\ sr_emit sr1 = []
  /\ Next_loop (S fuel) w sr
    = if r_Type r =? RecordTypeBatchCommit then
        if Z.of_nat (length (sr_pending sr)) =? commit_count r then
          match sr_pending sr ++ [r] with
          | first :: emit => (set_buffers [] emit sr1, Ok (Some first))
          | [] => (sr1, Ok None)
          end
        else Next_loop fuel w (set_buffers [] [] sr1)
      else Next_loop fuel w (set_buffers (sr_pending sr ++ [r]) [] sr1).
Proof.
  intros [(dn & c & Ef & Eg & Eo & El) Hla [Hr Ht]%Forall_cons Hrec Hls Hi Ho Hc Hids Hs] Ee.
  pose proof (length_frame r) as Hlen. set (file := frames (dn ++ r :: todo)) in *.
  exists (set_offset (sr_offset sr + Z.of_nat (length (frame r))) (set_f (Some file) sr)).
  split; [|split; [done|split; [done|]]].
  - constructor; try done. exists (dn ++ [r]), file. split; [done|]. rewrite <- app_assoc. cbn [app].
    split; [done|]. split; [|done]. cbn [set_offset sr_offset]. rewrite Eo, frames_app, frames_one, length_app. lia.
  - cbn [Next_loop]. rewrite Ee. unfold ensureOpen. rewrite Ef. cbn [negb].
    assert (Hh : handle (w_disk w) sr = file) by (unfold handle; by rewrite Eg).
    rewrite Hh. change (durableLimit w (set_f (Some file) sr)) with (durableLimit w sr). rewrite El.
    assert (Hlt : (length (frames dn) + length (frame r) <= length file)%nat).
    { unfold file. rewrite frames_app, frames_cons, !length_app. lia. }
    cbn [set_f sr_offset]. rewrite Eo. rewrite (proj2 (Z.leb_gt _ _)), (proj2 (Z.ltb_ge _ _)) by lia.
    assert (Hh' : handle (w_disk w) (set_f (Some file) sr) = file) by (unfold handle; cbn [set_f sr_id]; by rewrite Eg).
    rewrite Hh'.
    unfold file. rewrite (read_frame_at dn r todo) by done. cbn [set_offset set_f sr_emit sr_pending]. rewrite Ee. done.
Qed.

Lemma open_listed d sr id c fuel : (0 < fuel)%nat -> sr_ids sr !! sr_idx sr = Some id -> disk_get d id = Some c ->
  open_next fuel d sr = (set_file c id sr, true).
Proof. intros Hf E1 E2. destruct fuel as [|fuel]; [lia|]. cbn [open_next]. by rewrite E1, E2. Qed.

Lemma last_filter_increasing lo bound ids x : increasing lo ids -> filter (fun id => bound < id) ids <> [] ->
  last (filter (fun id => bound < id) ids) = Some x -> filter (fun id => x < id) ids = [].
Proof.
  intros Hi _ Hl. assert (Hx : x ∈ filter (fun id => bound < id) ids).
  { destruct (filter _ ids) as [|y q _] using rev_ind; [done|]. rewrite last_snoc in Hl. injection Hl as ->.
    apply elem_of_app. right. by left. }
  apply filter_nil, Forall_forall. intros y Hy Hlt. apply list_elem_of_filter in Hx as [Hb Hx].
  revert lo Hi Hl. induction ids as [|z ids IH]; intros lo Hi Hl; [by apply not_elem_of_nil in Hx|].
  destruct Hi as [Hz Hi]. destruct (decide (bound < z)) as [Hbz|Hbz].
  - rewrite filter_cons_True in Hl by done. destruct (filter (fun id => bound < id) ids) as [|q l] eqn:Eq.
    + cbn in Hl. injection Hl as ->. apply elem_of_cons in Hy as [->|Hy]; [lia|].
      assert (Hin : y ∈ filter (fun id => bound < id) ids).
      { apply list_elem_of_filter. split; [lia|done]. }
      rewrite Eq in Hin. by apply not_elem_of_nil in Hin.
    + assert (Hl' : last (q :: l) = Some x) by done.
      assert (Hxi : x ∈ ids).
      { assert (Hin : x ∈ q :: l).
        { destruct (q :: l) as [|y' q' _] using rev_ind; [done|]. rewrite last_snoc in Hl'. injection Hl' as ->.
          apply elem_of_app. right. by left. }
        rewrite <- Eq in Hin. by apply list_elem_of_filter in Hin as [_ ?]. }
      pose proof (increasing_NoDup _ _ Hi) as [_ Hgt]. rewrite Forall_forall in Hgt.
      apply elem_of_cons in Hy as [->|Hy]; [specialize (Hgt _ Hxi); lia|]. by eapply (IH Hxi Hy z).
  - rewrite filter_cons_False in Hl by done. apply elem_of_cons in Hx as [->|Hx]; [lia|].
    apply elem_of_cons in Hy as [->|Hy]; [lia|]. by eapply (IH Hx Hy z).
Qed.

Lemma durable_closed w sr id c : id <> w_currentID w ->
  durableLimit w (set_file c id sr) = (Z.of_nat (length c), id =? w_currentID w).
Proof. intros H. unfold durableLimit, Head. cbn [set_file sr_id]. by rewrite !(proj2 (Z.eqb_neq _ _)). Qed.

(** Opening the next file. *)
Lemma reading_file w sr id rs later : (sr_idx sr < length (sr_ids sr))%nat ->
  disk_get (w_disk w) id = Some (frames rs) -> Forall (fun f => disk_get (w_disk w) f.1 = Some (frames f.2)) later ->
  Forall streamable rs -> Forall streamable (concat later.*2) ->
  drop (S (sr_idx sr)) (sr_ids sr) ++ filter (fun id => sr_maxID sr < id) (listSegmentIDs (w_disk w)) = later.*1 ->
  increasing id later.*1 -> Forall (fun id => id <= w_currentID w) (id :: later.*1) ->
  increasing 0 (listSegmentIDs (w_disk w)) ->
  (forall c, disk_get (w_disk w) (w_currentID w) = Some c -> s_syncedOffset (w_current w) = Z.of_nat (length c)) ->
  reading w (set_file (frames rs) id sr) rs later.
Proof.
  intros Hi Eg Hla Hrs Hrec Hls Ho Hc Hids Hs. constructor; try done. exists [], (frames rs). split; [done|].
  split; [done|]. split; [done|]. destruct (decide (id = w_currentID w)) as [->|Hne]; [|by apply durable_closed].
  unfold durableLimit, Head. cbn [set_file sr_id app]. rewrite Z.eqb_refl. f_equal. by apply Hs.
Qed.

Lemma next_advance fuel w sr id rs later : reading w sr [] ((id, rs) :: later) -> sr_emit sr = [] ->
  exists sr1, reading w sr1 rs later /\ sr_pending sr1 = sr_pending sr /\ sr_emit sr1 = []
  /\ Next_loop (S fuel) w sr = Next_loop fuel w sr1.
Proof.
  intros [(dn & c & Ef & Eg & Eo & El) Hla _ Hrec Hls Hi Ho Hc Hids Hs] Ee.
  rewrite app_nil_r in *. apply Forall_cons in Hla as [Hid Hla]. cbn [fst snd fmap list_fmap concat] in *.
  apply Forall_app in Hrec as [Hrs Hrec]. destruct Ho as [Hlt Ho]. apply Forall_cons in Hc as [_ Hc].
  assert (Hcur : (sr_id sr =? w_currentID w) = false).
  { apply Forall_cons in Hc as [? _]. apply Z.eqb_neq. lia. }
  set (sr0 := set_idx (S (sr_idx sr)) (set_f None (set_f (Some (handle (w_disk w) sr)) sr))).
  assert (Hstep : Next_loop (S fuel) w sr = Next_loop fuel w (ensureOpen (w_disk w) sr0).1).
  { cbn [Next_loop]. rewrite Ee. unfold ensureOpen at 1. rewrite Ef. cbn [negb].
    change (durableLimit w (set_f _ sr)) with (durableLimit w sr). rewrite El. cbn [set_f sr_offset].
    rewrite Eo, Hcur. by rewrite (proj2 (Z.leb_le _ _)) by lia. }
  rewrite Hstep. clear Hstep. unfold ensureOpen. cbn [sr0 set_idx set_f sr_f sr_ids].
  destruct (sr_ids sr) as [|i0 is0] eqn:Eids; [cbn in Hi; lia|]. rewrite <- Eids in *. clear i0 is0 Eids.
  destruct (drop (S (sr_idx sr)) (sr_ids sr)) as [|x l] eqn:Ed.
  - (* the listed segments are read: list again *)
    assert (Hend : S (sr_idx sr) = length (sr_ids sr)).
    { apply (f_equal length) in Ed. rewrite length_drop in Ed. cbn in Ed. lia. }
    assert (Hop : forall n, open_next n (w_disk w) sr0 = (sr0, false)).
    { intros [|n]; [done|]. cbn [open_next sr0 set_idx set_f sr_ids sr_idx]. by rewrite lookup_ge_None_2 by lia. }
    rewrite Hop. unfold relist. cbn [sr0 set_idx set_f sr_maxID]. cbn [app] in Hls. rewrite Hls.
    set (maxID := default _ _). set (sr1 := set_ids _ maxID sr0).
    assert (Hid1 : sr_ids sr1 !! sr_idx sr1 = Some id).
    { cbn [sr1 set_ids sr0 set_idx set_f sr_ids sr_idx]. rewrite Hend. by apply list_lookup_middle. }
    rewrite (open_listed _ sr1 id (frames rs)); [|cbn [sr1 set_ids sr_ids]; rewrite length_app; cbn [length]; lia|done|done].
    cbn [fst].
    exists (set_file (frames rs) id sr1). split; [|done]. apply reading_file; try done.
    + cbn. rewrite length_app. cbn. lia.
    + cbn [sr1 set_ids sr0 set_idx set_f sr_ids sr_idx sr_maxID]. rewrite drop_app_ge by lia.
      replace (S (S (sr_idx sr)) - length (sr_ids sr))%nat with 1%nat by lia. cbn [drop].
      rewrite (last_filter_increasing 0 (sr_maxID sr) _ maxID); [by rewrite drop_0, app_nil_r|done|by rewrite Hls|].
      rewrite Hls. unfold maxID. cbn [last]. by destruct (last (id :: later.*1)) eqn:E; [|apply last_None in E].
  - cbn [app] in Hls. injection Hls as -> Hls.
    assert (Hid1 : sr_ids sr0 !! sr_idx sr0 = Some id).
    { cbn [sr0 set_idx set_f sr_ids sr_idx]. rewrite <- (Nat.add_0_r (S _)), <- lookup_drop, Ed. done. }
    assert (Hlen : (S (sr_idx sr) < length (sr_ids sr))%nat) by (by apply lookup_lt_Some in Hid1).
    rewrite (open_listed _ sr0 id (frames rs)); [|cbn [sr0 set_idx set_f sr_ids]; lia|done|done]. cbn [fst].
    exists (set_file (frames rs) id sr0). split; [|done]. apply reading_file; try done.
    cbn [sr0 set_idx set_f sr_ids sr_idx sr_maxID]. rewrite <- Hls. f_equal.
    replace (S (S (sr_idx sr))) with (S (sr_idx sr) + 1)%nat by lia. by rewrite <- drop_drop, Ed.
Qed.

(** The reader has nothing to read until the log moves on. *)
Definition resting (w : WAL) (sr : StreamReader) : Prop :=
  sr_emit sr = [] /\ (reading w sr [] [] \/ ensureOpen (w_disk w) sr = (sr, false)).

Lemma next_end fuel w sr : reading w sr [] [] -> sr_emit sr = [] ->
  exists sr1, Next_loop (S (S fuel)) w sr = (sr1, Ok None) /\ resting w sr1.
Proof.
  intros Hr Ee. pose proof Hr as [(dn & c & Ef & Eg & Eo & El) Hla _ Hrec Hls Hi Ho Hc Hids Hs]. rewrite app_nil_r in *.
  apply app_eq_nil in Hls as [Hd Hf]. change (S (S fuel)) with (S (1 + fuel)).
  set (f1 := (1 + fuel)%nat). assert (Hf1 : f1 = S fuel) by done. clearbody f1.
  cbn [Next_loop]. rewrite Ee. unfold ensureOpen at 1. rewrite Ef. cbn [negb].
  change (durableLimit w (set_f _ sr)) with (durableLimit w sr). rewrite El. cbn [set_f sr_offset]. rewrite Eo.
  rewrite (proj2 (Z.leb_le _ _)) by lia. destruct (sr_id sr =? w_currentID w) eqn:Ecur; cbn [negb].
  { eexists. split; [done|]. split; [done|]. left. unfold handle. rewrite Eg.
    constructor; try done; [|cbn; by rewrite Hd, Hf]. exists dn, (frames dn). rewrite app_nil_r. split; [done|].
    split; [done|]. split; [done|]. cbn [set_f sr_id]. rewrite Ecur. exact El. }
  assert (Hend : S (sr_idx sr) = length (sr_ids sr)).
  { apply (f_equal length) in Hd. rewrite length_drop in Hd. cbn in Hd. lia. }
  set (sr0 := set_idx (S (sr_idx sr)) (set_f None (set_f (Some (handle (w_disk w) sr)) sr))).
  assert (Hno : ensureOpen (w_disk w) sr0 = (sr0, false)).
  { unfold ensureOpen. cbn [sr0 set_idx set_f sr_f sr_ids]. destruct (sr_ids sr) as [|i0 is0] eqn:Eids; [done|].
    rewrite <- Eids in *. clear i0 is0 Eids.
    assert (Hop : forall n, open_next n (w_disk w) sr0 = (sr0, false)).
    { intros [|n]; [done|]. cbn [open_next sr0 set_idx set_f sr_ids sr_idx]. by rewrite lookup_ge_None_2 by lia. }
    rewrite Hop. unfold relist. cbn [sr0 set_idx set_f sr_maxID]. by rewrite Hf. }
  unfold advance. change (set_idx (S _) _) with sr0. rewrite Hno. cbn [fst]. subst f1.
  assert (Ee0 : sr_emit sr0 = []) by done. clearbody sr0. cbn [Next_loop]. rewrite Ee0, Hno. cbn [negb].
  exists sr0. split; [done|]. split; [done|]. by right.
Qed.

Lemma resting_next w sr : resting w sr -> exists sr1, Next w sr = (sr1, Ok None) /\ resting w sr1.
Proof.
  intros [Ee [Hr|Hno]].
  - destruct Hr as [Hf Hla Ht Hrec Hls Hi Ho Hc Hids Hs]. pose proof Hf as (dn & c & Ef & Eg & _).
    unfold Next, Next_fuel. destruct (w_disk w) as [|f d] eqn:Ed; [done|].
    cbn [length]. rewrite Nat.add_succ_r. rewrite <- Ed in *. by apply next_end.
  - exists sr. split; [|by split; [|right]]. unfold Next, Next_fuel. cbn [Next_loop]. by rewrite Ee, Hno.
Qed.

(** ** Next emits what the records say *)

Definition measure (todo : list Record) (later : list (Z * list Record)) : nat :=
  (length todo + length (concat later.*2) + length later)%nat.

Lemma next_ok w fuel : forall sr todo later, reading w sr todo later -> sr_emit sr = [] ->
  (measure todo later + 2 <= fuel)%nat ->
  match (emits (todo ++ concat later.*2) (sr_pending sr)).1 with
  | [] => exists sr', Next_loop fuel w sr = (sr', Ok None) /\ resting w sr'
  | r :: out => exists sr' todo' later', Next_loop fuel w sr = (sr', Ok (Some r))
      /\ reading w sr' todo' later'
      /\ sr_emit sr' ++ (emits (todo' ++ concat later'.*2) (sr_pending sr')).1 = out
  end.
Proof.
  unfold measure. induction fuel as [|fuel IH]; intros sr todo later Hr Ee Hf; [lia|].
  destruct todo as [|r todo].
  - destruct later as [|[id rs] later].
    + destruct fuel as [|fuel]; [lia|]. cbn [app fmap list_fmap concat emits fst]. by apply next_end.
    + destruct (next_advance fuel _ _ _ _ _ Hr Ee) as (sr1 & Hr1 & Ep & Ee1 & ->). rewrite <- Ep.
      cbn [app fmap list_fmap snd concat]. apply IH; try done. cbn [length fmap list_fmap snd concat] in Hf.
      rewrite length_app in Hf. lia.
  - destruct (next_frame fuel _ _ _ _ _ Hr Ee) as (sr1 & Hr1 & Ep & Ee1 & ->). cbn [app emits].
    cbn [length] in Hf. destruct (r_Type r =? RecordTypeBatchCommit).
    + destruct (_ =? commit_count r).
      * destruct (emits (todo ++ concat later.*2) []) as [out p'] eqn:Eout. cbn [fst].
        destruct (sr_pending sr) as [|x p]; cbn [app]; do 3 eexists; (split; [done|]);
          (split; [by apply reading_set_buffers|]); cbn [set_buffers sr_emit sr_pending]; rewrite Eout; cbn [fst]; [done|].
        by rewrite <- app_assoc.
      * apply (IH (set_buffers [] [] sr1)); [by apply reading_set_buffers|done|lia].
    + apply (IH (set_buffers _ [] sr1)); [by apply reading_set_buffers|done|lia].
Qed.

(** ** Draining the stream *)

Lemma disk_get_elem (d : Disk) id c : disk_get d id = Some c -> (id, c) ∈ d.
Proof.
  induction d as [|[i c'] d IH]; cbn; [done|]. destruct (Z.eqb_spec i id) as [->|]; [intros [= ->]; by left|]. right. auto.
Qed.
Lemma length_concat_files (d : Disk) : Z.of_nat (length (concat d.*2)) = lsum (fun f => Z.of_nat (length f.2)) d.
Proof. induction d as [|[i c] d IH]; [done|]. cbn [fmap list_fmap concat snd lsum foldr]. rewrite length_app. unfold lsum in IH. lia. Qed.
Lemma records_le_bytes rs : (length rs <= length (frames rs))%nat.
Proof. induction rs as [|r rs IH]; [done|]. rewrite frames_cons, length_app, length_frame. cbn [length]. lia. Qed.

Lemma measure_fuel w sr todo later : reading w sr todo later -> (measure todo later + 2 <= Next_fuel w)%nat.
Proof.
  intros [(dn & c & _ & Eg & _) Hla _ _ _ _ Ho _ _ _]. set (L := (sr_id sr, frames (dn ++ todo)) :: (seg_file <$> later)).
  assert (HL : NoDup L).
  { apply (NoDup_fmap_1 fst). cbn [L fmap list_fmap fst]. rewrite seg_ids.
    destruct (increasing_NoDup _ _ Ho) as [Hn Hgt]. constructor; [|done]. intros Hin. rewrite Forall_forall in Hgt.
    specialize (Hgt _ Hin). lia. }
  assert (Hin : forall f, f ∈ L -> f ∈ w_disk w).
  { intros f [->|Hf]%elem_of_cons; [by apply disk_get_elem|]. apply list_elem_of_fmap in Hf as (gr & -> & Hgr).
    rewrite Forall_forall in Hla. by apply disk_get_elem, Hla. }
  destruct (submseteq_Permutation _ _ (NoDup_submseteq _ _ HL Hin)) as [k Hk].
  unfold Next_fuel, measure. rewrite (Permutation_length Hk), length_app. cbn [L length]. rewrite length_fmap.
  enough (length todo + length (concat later.*2) <= length (concat (w_disk w).*2))%nat by lia.
  pose proof (length_concat_files (w_disk w)) as Hb. rewrite Hk, lsum_app in Hb. cbn [L lsum foldr snd] in Hb.
  assert (Hnn : 0 <= lsum (fun f : Z * list byte => Z.of_nat (length f.2)) k) by (apply lsum_nonneg; lia).
  assert (Hl : Z.of_nat (length (concat later.*2)) <= lsum (fun f : Z * list byte => Z.of_nat (length f.2)) (seg_file <$> later)).
  { clear. induction later as [|[i rs] later IH]; [done|]. cbn [fmap list_fmap concat snd lsum foldr seg_file].
    rewrite length_app. pose proof (records_le_bytes rs). unfold lsum in IH. lia. }
  rewrite Hk. rewrite frames_app, length_app in Hb. pose proof (records_le_bytes todo). unfold lsum in *. lia.
Qed.

Lemma drain_ok w n : forall sr todo later, reading w sr todo later ->
  let out := sr_emit sr ++ (emits (todo ++ concat later.*2) (sr_pending sr)).1 in
  (length out < n)%nat -> exists sr', drain n w sr = (out, sr', None) /\ resting w sr'.
Proof.
  induction n as [|n IH]; intros sr todo later Hr out Hn; [lia|]. cbn [drain]. unfold out in *. clear out.
  pose proof (measure_fuel _ _ _ _ Hr) as Hf. unfold Next.
  destruct (sr_emit sr) as [|x e] eqn:Ee.
  - pose proof (next_ok w (Next_fuel w) sr todo later Hr Ee Hf) as H. cbn [app] in *.
    destruct (emits (todo ++ concat later.*2) (sr_pending sr)).1 as [|r out].
    + destruct H as (sr' & -> & Hrest). by eexists.
    + destruct H as (sr' & todo' & later' & -> & Hr' & <-). cbn [length] in Hn.
      destruct (IH sr' todo' later' Hr' ltac:(lia)) as (sr'' & -> & Hrest). by eexists.
  - unfold Next_fuel. cbn [Next_loop]. rewrite Ee. cbn [app length] in Hn.
    pose proof (reading_set_buffers _ _ _ _ (sr_pending sr) e Hr) as Hr'.
    pose proof (IH _ _ _ Hr') as E. cbn [set_buffers sr_emit sr_pending] in E.
    destruct E as (sr'' & -> & Hrest); [lia|]. by eexists.
Qed.

(** ** Where the stream starts *)

Definition listed_files (from : Z) (files : list (Z * list Record)) : list (Z * list Record) :=
  filter (fun f => from < peekSegmentMaxLSN (frames f.2)) files.

Lemma eligible_listed from files : eligible from (seg_file <$> files) = (listed_files from files).*1.
Proof.
  unfold eligible, listed_files. induction files as [|[i rs] files IH]; [done|]. cbn [fmap list_fmap].
  destruct (decide (from < peekSegmentMaxLSN (frames rs))).
  - rewrite !filter_cons_True by done. cbn [fmap list_fmap]. by f_equal.
  - rewrite !filter_cons_False by done. done.
Qed.

Lemma listed_records size from files : 0 <= from -> peekable files -> Forall (walkable size) (concat files.*2) ->
  concat (listed_files from files).*2 = concat (read_files from files).*2.
Proof.
  intros H0. unfold listed_files, read_files. induction files as [|[i rs] files IH]; intros Hf Hw; [done|].
  cbn [fmap list_fmap snd concat] in *. apply Forall_cons in Hf as [Hf Hfs]. apply Forall_app in Hw as [Hrs Hw].
  specialize (IH Hfs Hw). cbn [snd] in Hf.
  destruct (decide (from < peekSegmentMaxLSN (frames rs))) as [Hlt|Hge].
  - rewrite filter_cons_True by done. rewrite filter_cons_True by (unfold unread; cbn [snd]; lia).
    cbn [fmap list_fmap snd concat]. by rewrite IH.
  - rewrite filter_cons_False by done. rewrite IH. destruct (decide (0 < from)) as [Hpos|Hz].
    + by rewrite filter_cons_False by (unfold unread; cbn [snd]; lia).
    + rewrite filter_cons_True by (unfold unread; cbn [snd]; lia). cbn [fmap list_fmap snd concat].
      enough (rs = []) as -> by done. destruct (decide (rs = [])) as [|Hne]; [done|]. exfalso.
      destruct (last_lsn_in 0 rs Hne) as (r & Hr & Er). rewrite Forall_forall in Hrs. destruct (Hrs r Hr) as [_ ? _ _]. lia.
Qed.

(** ** What the records emit *)

Lemma emits_app a b p : emits (a ++ b) p
  = ((emits a p).1 ++ (emits b (emits a p).2).1, (emits b (emits a p).2).2).
Proof.
  revert p. induction a as [|r a IH]; intros p; cbn [app emits]; [cbn; by destruct (emits b p)|].
  destruct (_ =? RecordTypeBatchCommit); [|apply IH]. destruct (_ =? commit_count r); [|apply IH].
  rewrite IH. destruct (emits a []) as [out p']. cbn [fst snd]. by rewrite <- app_assoc.
Qed.

Lemma emits_closed rs : closed_log rs -> (emits rs []).2 = [].
Proof.
  intros [->|(rs' & r & -> & Hr)]; [done|]. rewrite emits_app. cbn [snd]. set (p := (emits rs' []).2).
  cbn [emits]. rewrite Hr, Z.eqb_refl. by destruct (_ =? commit_count r).
Qed.

Lemma emits_Forall (P : Record -> Prop) rs : forall p, Forall P rs -> Forall P p -> Forall P (emits rs p).1.
Proof.
  induction rs as [|r rs IH]; intros p Hrs Hp; [done|]. apply Forall_cons in Hrs as [Hr Hrs]. cbn [emits].
  destruct (_ =? RecordTypeBatchCommit); [|apply IH; [done|by apply Forall_app; split; [|constructor]]].
  destruct (_ =? commit_count r); [|by apply IH].
  specialize (IH [] Hrs (Forall_nil_2 _)). destruct (emits rs []) as [out p']. cbn [fst] in *.
  apply Forall_app. split; [done|]. by constructor.
Qed.

Lemma emits_length rs : forall p, (length (emits rs p).1 <= length p + length rs)%nat.
Proof.
  induction rs as [|r rs IH]; intros p; cbn [emits length fst]; [lia|].
  destruct (_ =? RecordTypeBatchCommit); [|specialize (IH (p ++ [r])); rewrite length_app in IH; cbn in IH; lia].
  specialize (IH []). destruct (_ =? commit_count r); [|cbn in IH; lia].
  destruct (emits rs []) as [out p']. cbn in *. rewrite length_app. cbn. lia.
Qed.

Lemma emits_data rs p : Forall not_commit rs -> emits rs p = ([], p ++ rs).
Proof.
  revert p. induction rs as [|r rs IH]; intros p; [by rewrite app_nil_r|]. intros [Hr Hrs]%Forall_cons. cbn [emits].
  rewrite (proj2 (Z.eqb_neq _ _)) by done. rewrite IH by done. by rewrite <- app_assoc.
Qed.

Lemma emits_log size bs : forall lsn, Forall (client_batch size) bs -> emits (log_of lsn bs) [] = (log_of lsn bs, []).
Proof.
  induction bs as [|b bs IH]; intros lsn Hbs; [done|]. apply Forall_cons in Hbs as [Hb Hbs].
  pose proof (client_batch_count _ _ Hb) as Hc. cbn [log_of]. unfold batch_records. rewrite <- app_assoc, emits_app.
  rewrite emits_data by (apply number_not_commit, Hb). cbn [fst snd app].
  cbn [emits]. change (r_Type (commit_record _ _)) with RecordTypeBatchCommit. rewrite Z.eqb_refl.
  rewrite commit_count_record, length_number, Z.eqb_refl, IH by done. done.
Qed.

Lemma walkable_streamable size rs : Forall (walkable size) rs -> Forall streamable rs.
Proof. intros H. eapply Forall_impl; [exact H|]. intros r [Hw _ Hp _]. by split. Qed.

(** ** The first call *)

Section Start.
Context (w : WAL) (groups : list (Z * list Record)) (g : list Record) (from : Z).
Context (H : holds_frames w groups g) (Hsync : s_syncedOffset (w_current w) = s_writeOffset (w_current w)).
Context (Hst : Forall streamable (all_records groups g)).

Definition all_files : list (Z * list Record) := groups ++ [(w_currentID w, g)].

Lemma all_files_disk : w_disk w = seg_file <$> all_files.
Proof using H. rewrite (hf_disk _ _ _ H). unfold all_files. by rewrite fmap_app. Qed.
Lemma all_files_ids : increasing 0 all_files.*1.
Proof using H. unfold all_files. rewrite fmap_app. apply (hf_ids _ _ _ H). Qed.
Lemma all_files_records : concat all_files.*2 = all_records groups g.
Proof using. unfold all_files. rewrite fmap_app, concat_app. cbn. by rewrite app_nil_r. Qed.

Lemma all_files_get f : f ∈ all_files -> disk_get (w_disk w) f.1 = Some (frames f.2).
Proof using H.
  pose proof all_files_ids as Hids. rewrite all_files_disk. intros Hin. destruct f as [i q].
  apply list_elem_of_split in Hin as (a & b & E). rewrite E in *. rewrite !fmap_app in *. cbn [fmap list_fmap seg_file fst snd] in *.
  apply disk_get_in. apply increasing_NoDup in Hids as [Hids _]. apply NoDup_app in Hids as (_ & Hids & _).
  rewrite seg_ids. intros Hi. apply (Hids i Hi). by left.
Qed.

Lemma listed_sublist : sublist (listed_files from all_files) all_files.
Proof using.
  unfold listed_files. induction all_files as [|f files IH]; [done|]. destruct (decide (from < peekSegmentMaxLSN (frames f.2))).
  - rewrite filter_cons_True by done. by apply sublist_skip.
  - rewrite filter_cons_False by done. by apply sublist_cons.
Qed.

Lemma sublist_keys (a b : list (Z * list Record)) : sublist a b -> sublist a.*1 b.*1 /\ sublist (concat a.*2) (concat b.*2).
Proof using.
  induction 1 as [|[i q] a b _ [IH1 IH2]|[i q] a b _ [IH1 IH2]]; [done| |]; cbn [fmap list_fmap fst snd concat].
  - split; [by apply sublist_skip|by apply sublist_app].
  - split; [by apply sublist_cons|by apply sublist_inserts_l].
Qed.

Lemma start_none : listed_files from all_files = [] ->
  Next w (NewStreamReader from) = (NewStreamReader from, Ok None)
  /\ ensureOpen (w_disk w) (NewStreamReader from) = (NewStreamReader from, false).
Proof using H.
  intros E. assert (Eo : ensureOpen (w_disk w) (NewStreamReader from) = (NewStreamReader from, false)).
  { unfold ensureOpen. cbn [NewStreamReader sr_f sr_ids sr_fromLSN]. by rewrite all_files_disk, eligible_listed, E. }
  split; [|done]. unfold Next, Next_fuel. cbn [Next_loop NewStreamReader sr_emit]. by rewrite Eo.
Qed.

Lemma start_reading id rs L : listed_files from all_files = (id, rs) :: L ->
  exists sr, reading w sr rs L /\ sr_pending sr = [] /\ sr_emit sr = [] /\ Next w (NewStreamReader from) = Next w sr.
Proof using H Hsync Hst.
  intros EL. pose proof listed_sublist as Hsub. rewrite EL in Hsub. destruct (sublist_keys _ _ Hsub) as [Hk Hc].
  pose proof all_files_ids as Hids. rewrite <- all_files_records in Hst. apply (Forall_sublist _ _ _ Hc) in Hst as Hr.
  cbn [fmap list_fmap fst snd concat] in *. apply Forall_app in Hr as [Hrs HrL].
  assert (Hin : Forall (fun f => disk_get (w_disk w) f.1 = Some (frames f.2)) ((id, rs) :: L)).
  { apply (Forall_sublist _ _ _ Hsub), Forall_forall. intros f. apply all_files_get. }
  apply Forall_cons in Hin as [Hid HL]. cbn [fst snd] in Hid.
  assert (Hle : Forall (fun i => i <= w_currentID w) all_files.*1).
  { unfold all_files. rewrite fmap_app. destruct (increasing_lt _ _ _ (hf_ids _ _ _ H)) as [Hlt _].
    apply Forall_app. split; [|constructor; [cbn; lia|constructor]]. eapply Forall_impl; [exact Hlt|]. intros i Hi. cbn in Hi. lia. }
  assert (Hls : listSegmentIDs (w_disk w) = all_files.*1) by (unfold listSegmentIDs; by rewrite all_files_disk, seg_ids).
  assert (Hlast : default 0 (last all_files.*1) = w_currentID w).
  { unfold all_files. rewrite fmap_app. cbn [fmap list_fmap fst]. by rewrite last_snoc. }
  set (sr0 := set_idx 0 (set_ids (id :: L.*1) (w_currentID w) (NewStreamReader from))).
  assert (Hen : ensureOpen (w_disk w) (NewStreamReader from) = (set_file (frames rs) id sr0, true)).
  { unfold ensureOpen. cbn [NewStreamReader sr_f sr_ids sr_fromLSN]. rewrite all_files_disk at 1. rewrite eligible_listed, EL.
    cbn [fmap list_fmap fst]. rewrite Hls, Hlast.
    change (set_idx 0 _) with sr0. by rewrite (open_listed _ sr0 id (frames rs)) by (done || cbn; lia). }
  exists (set_file (frames rs) id sr0). split; [|split; [done|split; [done|]]].
  - apply increasing_sublist with (l' := id :: L.*1) in Hids as Hinc; [|done]. destruct Hinc as [_ Hinc].
    apply reading_file; try done.
    + cbn. lia.
    + cbn [sr0 set_idx set_ids NewStreamReader sr_ids sr_idx sr_maxID drop]. rewrite Hls, filter_nil, app_nil_r, drop_0; [done|].
      eapply Forall_impl; [exact Hle|]. intros i Hi. cbn in Hi. lia.
    + by apply (Forall_sublist _ _ _ Hk).
    + by rewrite Hls.
    + intros c Ec. pose proof (all_files_get (w_currentID w, g) ltac:(apply elem_of_app; right; by left)) as Eg.
      cbn [fst snd] in Eg. rewrite Eg in Ec. injection Ec as <-. rewrite Hsync. apply (hf_offset _ _ _ H).
  - unfold Next, Next_fuel. cbn [Next_loop NewStreamReader sr_emit]. by rewrite Hen.
Qed.
End Start.

Lemma all_peekable w groups g size : holds_frames w groups g -> w_segmentSize w = size -> readable w ->
  Forall (walkable size) (all_records groups g) -> peekable (all_files w groups g).
Proof.
  intros H <- Hrd Hw. rewrite <- (all_files_records w) in Hw. apply (readable_groups (w_segmentSize w)); [done| |].
  - apply Forall_app. split; [apply (hf_files _ _ _ H)|]. constructor; [apply (hf_bound _ _ _ H)|constructor].
  - rewrite <- (all_files_disk _ _ _ H). exact Hrd.
Qed.

(** The stream of a log that is synced, from an LSN in it: [req] is asked for,
    and no segment ends between the two.  [cut] is what the files that hold a
    later record hold before it. *)
Lemma drain_log w groups g size from req pre bs : holds_frames w groups g -> w_segmentSize w = size ->
  s_syncedOffset (w_current w) = s_writeOffset (w_current w) -> all_records groups g = pre ++ log_of from bs ->
  covers size from pre bs -> readable w ->
  listed_files req (all_files w groups g) = listed_files from (all_files w groups g) ->
  exists cut, cut `suffix_of` pre
  /\ concat (listed_files from (all_files w groups g)).*2 = cut ++ log_of from bs
  /\ forall n, (length (pre ++ log_of from bs) < n)%nat ->
       exists sr, drain n w (NewStreamReader req) = ((emits cut []).1 ++ log_of from bs, sr, None) /\ resting w sr.
Proof.
  intros H Hsz Hsync Ha Hcv Hrd Hreq. pose proof (covers_walkable _ _ _ _ Hcv) as Hw. rewrite <- Ha in Hw.
  pose proof (all_peekable _ _ _ _ H Hsz Hrd Hw) as Hfs.
  destruct Hcv as [Hch H0 Hwp Hop Hb Hc%ends_closed Hbs Hft Hm]. destruct (log_lsns bs from H0 Hm) as [Hol Hll].
  assert (Habove : Forall (fun r => from < lsn_of r) (log_of from bs)).
  { eapply Forall_impl; [exact Hll|]. intros r Hr. apply Hr. }
  assert (Ho : ordered (all_records groups g)) by (rewrite Ha; by apply (ordered_app _ _ from)).
  pose proof (walkable_streamable _ _ Hw) as Hst. rewrite <- (all_files_records w) in Hw, Ho, Ha.
  destruct (read_suffix size from (all_files w groups g) [] pre (log_of from bs) Hfs) as (pre' & Epre & Hsuf); rewrite ?app_nil_r; try done.
  rewrite app_nil_r, <- (listed_records size from _ H0 Hfs Hw) in Epre.
  assert (Hlen : (length (emits pre' []).1 <= length pre)%nat).
  { etrans; [apply emits_length|]. cbn. destruct Hsuf as [k ->]. rewrite length_app. lia. }
  assert (Hemit : (emits (concat (listed_files from (all_files w groups g)).*2) []).1 = (emits pre' []).1 ++ log_of from bs).
  { rewrite Epre, emits_app, (emits_closed pre') by (by eapply closed_log_suffix). by rewrite (emits_log size) by done. }
  exists pre'. split; [done|]. split; [done|].
  intros n Hn. rewrite length_app in Hn. destruct n as [|n]; [lia|]. rewrite <- Hemit.
  destruct (listed_files from (all_files w groups g)) as [|[id rs] L] eqn:EL.
  - cbn [drain]. pose proof (start_none w groups g req H Hreq) as [En Eo].
    rewrite En. eexists. split; [done|]. by split; [|right].
  - destruct (start_reading w groups g req H Hsync Hst id rs L Hreq) as (sr & Hr & Ep & Ee & E).
    destruct (drain_ok w (S n) sr rs L Hr) as (sr' & Ed & Hrest).
    { rewrite Ee, Ep. cbn [app fmap list_fmap snd concat] in *. rewrite Hemit, length_app. lia. }
    exists sr'. cbn [drain] in *. rewrite E, Ed, Ee, Ep. done.
Qed.

(** ** Properties *)

Lemma covers_log size bs k : 29 <= size -> Forall (client_batch size) bs -> fits_peek size bs -> lsn_after 0 bs < 2 ^ 63 ->
  covers size (lsn_after 0 (take k bs)) (log_of 0 (take k bs)) (drop k bs)
  /\ log_of 0 (take k bs) ++ log_of (lsn_after 0 (take k bs)) (drop k bs) = log_of 0 bs.
Proof.
  intros Hs Hbs Hft Hm. split; [|by rewrite <- log_of_app, take_drop].
  assert (Hk : lsn_after (lsn_after 0 (take k bs)) (drop k bs) < 2 ^ 63) by (by rewrite <- lsn_after_app, take_drop).
  pose proof (lsn_after_ge (lsn_after 0 (take k bs)) (drop k bs)).
  destruct (covers_all size 0 [] (take k bs)) as [[] _].
  { constructor; first [done|lia|constructor|by apply Forall_take]. }
  cbn [app] in *. constructor; try done; by apply Forall_drop.
Qed.

(** The files that hold a record past [from]. *)
Definition later_files (from : Z) (files : list (Z * list Record)) : list (Z * list Record) :=
  filter (fun f => from < last_lsn 0 f.2) files.

Lemma later_listed from files : peekable files -> later_files from files = listed_files from files.
Proof.
  unfold later_files, listed_files. induction 1 as [|f files Hf _ IH]; [done|].
  destruct (decide (from < last_lsn 0 f.2)).
  - rewrite !filter_cons_True by (rewrite ?Hf; done). by rewrite IH.
  - rewrite !filter_cons_False by (rewrite ?Hf; done). done.
Qed.

(** C16. What the stream delivers.  Reading a synced log from the LSN of any of its
    commit markers starts with the first segment file that holds a later record:
    polling until nothing is left yields first the whole batches that this file
    holds of those the LSN already covers ([cut]), again, and then the records
    and markers of exactly the later batches, in order and each batch whole.
    From the start it yields exactly the log.  Provided the last LSN of each
    file can be read, as in segments of at most one tail chunk. *)
Theorem stream_delivers_log size bs k : 29 <= size -> Forall (client_batch size) bs -> fits_peek size bs ->
  lsn_after 0 bs < 2 ^ 63 -> let w := Sync (append_all bs (Open [] size)) in readable w ->
  let from := lsn_after 0 (take k bs) in
  exists files cut, w_disk w = seg_file <$> files /\ concat files.*2 = log_of 0 bs
  /\ concat (later_files from files).*2 = cut ++ log_of from (drop k bs)
  /\ Forall (below from) cut /\ (k = 0%nat -> cut = [])
  /\ forall n, (length (log_of 0 bs) < n)%nat ->
       exists sr, drain n w (NewStreamReader from) = ((emits cut []).1 ++ log_of from (drop k bs), sr, None).
Proof.
  intros Hs Hbs Hft Hm w Hrd from. destruct (fresh_holds size) as [H0 Hs0]; [lia|].
  destruct (append_all_ok bs _ [] [] H0) as (gs & g & H%sync_holds & Ea & El & Es & _ & _); [lia|by rewrite Hs0|].
  destruct H as [H Hsy]. fold w in H, Hsy. assert (Hsz : w_segmentSize w = size).
  { change (w_segmentSize w) with (w_segmentSize (append_all bs (Open [] size))). congruence. }
  destruct (covers_log size bs k Hs Hbs Hft Hm) as [Hc Hl]. change (all_records gs g = log_of 0 bs) in Ea.
  pose proof (covers_walkable _ _ _ _ Hc) as Hw. rewrite Hl, <- Ea in Hw.
  pose proof (all_peekable _ _ _ _ H Hsz Hrd Hw) as Hpk. pose proof Ea as Ea'. rewrite <- Hl in Ea' |- *.
  destruct (drain_log w gs g size from from (log_of 0 (take k bs)) (drop k bs) H) as (cut & H1 & H2 & H3); try done.
  exists (all_files w gs g), cut. rewrite all_files_records, (later_listed _ _ Hpk), <- (all_files_disk _ _ _ H).
  split_and!; try done.
  - apply (Forall_sublist _ (log_of 0 (take k bs))); [|apply Hc]. destruct H1 as [? ->]. by apply sublist_inserts_l.
  - intros ->. destruct H1 as [? H1]. symmetry in H1. by apply app_eq_nil in H1 as [_ ->].
  - intros n Hn. destruct (H3 n Hn) as (sr & E & _). by exists sr.
Qed.

Lemma stream_delivers_log_witness :
  let bs := [[demo_record x41]; [demo_record x42]; [demo_record x43]] in
  let w := Sync (append_all bs (Open [] 64)) in
  exists files cut, w_disk w = seg_file <$> files /\ concat files.*2 = log_of 0 bs
  /\ concat (later_files 2 files).*2 = cut ++ log_of 2 [[demo_record x42]; [demo_record x43]]
  /\ Forall (below 2) cut /\ (1%nat = 0%nat -> cut = [])
  /\ forall n, (6 < n)%nat ->
       exists sr, drain n w (NewStreamReader 2)
                  = ((emits cut []).1 ++ log_of 2 [[demo_record x42]; [demo_record x43]], sr, None).
Proof.
  apply (stream_delivers_log 64 [[demo_record x41]; [demo_record x42]; [demo_record x43]] 1).
  - lia.
  - constructor; [|constructor; [|constructor; [|constructor]]]; apply demo_batch_ok; lia.
  - apply small_fits. vm_compute. discriminate.
  - vm_compute. reflexivity.
  - apply readable_check. vm_compute. reflexivity.
Defined.

(** Covered batches are delivered again.  Two batches in one segment, read from the
    marker of the first: both come, although the reader promises only records
    past the LSN. *)
Lemma stream_repeats_covered :
  let bs := [[demo_record x41]; [demo_record x42]] in
  let w := Sync (append_all bs (Open [] 100)) in
  let '(out, _, e) := drain 10 w (NewStreamReader 2) in
  e = None /\ out = log_of 0 bs /\ map lsn_of out = [1; 2; 3; 4].
Proof. vm_compute. split_and!; reflexivity. Qed.

(** A stream that follows a growing log can lose records.  A reader keeps
    the size its segment had when it was opened, and once the log has moved to
    the next segment it takes that size for the whole: the records appended in
    between are never delivered. *)
Theorem stream_loses_records : exists size bs lost more,
  Forall (client_batch size) (bs ++ [lost; more])
  /\ let w := Sync (append_all bs (Open [] size)) in
     let w' := Sync (append_all [lost; more] w) in
     let '(out, sr, _) := drain 10 w (NewStreamReader 0) in
     let '(out', _, e) := drain 10 w' sr in
     out = log_of 0 bs /\ e = None /\ out' = log_of (lsn_after 0 (bs ++ [lost])) [more].
Proof.
  exists 100, [[demo_record x41]], [demo_record x42], [demo_record x43]. split.
  - constructor; [|constructor; [|constructor; [|constructor]]]; apply demo_batch_ok; lia.
  - vm_compute. split_and!; reflexivity.
Qed.

(** A segment that is empty when the stream starts, as a recovery can leave it,
    is not listed, yet counts as seen: it is never read. *)
Lemma stream_skips_empty_segment :
  let w0 := Sync (append_all [[demo_record x41]] (Open [] 64)) in
  let w := rotateLocked w0 in
  let w' := Sync (append_all [[demo_record x42]] w) in
  let '(out, sr, _) := drain 10 w (NewStreamReader 0) in
  let '(out', _, e) := drain 10 w' sr in
  out = log_of 0 [[demo_record x41]] /\ e = None /\ out' = [].
Proof. vm_compute. split_and!; reflexivity. Qed.
