(* ===== verification/Idempotency.v ===== *)
(** * The idempotency store (internal/engine/idempotency.go)

    A map from keys to entries threaded on a doubly linked list, most recent
    first.  Entries are heap objects: the store holds a heap of nodes by
    address.  Times are nanoseconds on one clock, read by the caller; the
    operations run under the store's mutex, so they are atomic here. *)

From S2P Require Import Prelude Core.

Record idEntry := mkIdEntry {
  ie_key : Key;
  ie_transfer : Transfer;
  ie_pending : bool;
  ie_expiresAt : Z;
  ie_prev : option nat;
  ie_next : option nat }.

Record IdempotencyStore := mkStore {
  st_maxSize : Z;
  st_ttl : Z;
  st_nodes : gmap nat idEntry;      (* the heap of entries *)
  st_fresh : nat;                   (* the next address *)
  st_entries : gmap Key nat;
  st_head : option nat;
  st_tail : option nat;
  st_size : Z }.

Definition zeroEntry : idEntry := mkIdEntry (zeros 32) zeroTransfer false 0 None None.
Definition node (s : IdempotencyStore) (e : nat) : idEntry := default zeroEntry (st_nodes s !! e).

(** Assignments to one field of an entry or of the store. *)
Definition e_set_prev (p : option nat) (e : idEntry) : idEntry :=
  mkIdEntry (ie_key e) (ie_transfer e) (ie_pending e) (ie_expiresAt e) p (ie_next e).
Definition e_set_next (p : option nat) (e : idEntry) : idEntry :=
  mkIdEntry (ie_key e) (ie_transfer e) (ie_pending e) (ie_expiresAt e) (ie_prev e) p.
Definition e_set_result (t : Transfer) (expiresAt : Z) (e : idEntry) : idEntry :=
  mkIdEntry (ie_key e) t false expiresAt (ie_prev e) (ie_next e).

Definition upd_node (e : nat) (f : idEntry -> idEntry) (s : IdempotencyStore) : IdempotencyStore :=
  mkStore (st_maxSize s) (st_ttl s) (alter f e (st_nodes s)) (st_fresh s) (st_entries s)
    (st_head s) (st_tail s) (st_size s).
Definition upd_opt (o : option nat) (f : idEntry -> idEntry) (s : IdempotencyStore) : IdempotencyStore :=
  match o with Some e => upd_node e f s | None => s end.
Definition set_head (h : option nat) (s : IdempotencyStore) : IdempotencyStore :=
  mkStore (st_maxSize s) (st_ttl s) (st_nodes s) (st_fresh s) (st_entries s) h (st_tail s) (st_size s).
Definition set_tail (t : option nat) (s : IdempotencyStore) : IdempotencyStore :=
  mkStore (st_maxSize s) (st_ttl s) (st_nodes s) (st_fresh s) (st_entries s) (st_head s) t (st_size s).
Definition set_ids (m : gmap Key nat) (s : IdempotencyStore) : IdempotencyStore :=
  mkStore (st_maxSize s) (st_ttl s) (st_nodes s) (st_fresh s) m (st_head s) (st_tail s) (st_size s).
Definition set_size (n : Z) (s : IdempotencyStore) : IdempotencyStore :=
  mkStore (st_maxSize s) (st_ttl s) (st_nodes s) (st_fresh s) (st_entries s) (st_head s) (st_tail s) n.
(** [&idEntry{...}] *)
Definition new_node (e : idEntry) (s : IdempotencyStore) : IdempotencyStore :=
  mkStore (st_maxSize s) (st_ttl s) (<[st_fresh s := e]> (st_nodes s)) (S (st_fresh s)) (st_entries s)
    (st_head s) (st_tail s) (st_size s).

Definition NewIdempotencyStore (maxSize ttl : Z) : IdempotencyStore :=
  let maxSize := if maxSize <=? 0 then 100000 else maxSize in
  let ttl := if ttl <=? 0 then 15 * 60 * 1000000000 else ttl in
  mkStore maxSize ttl ∅ 0 ∅ None None 0.

(** ** The linked list *)

Definition insertHeadLocked (e : nat) (s : IdempotencyStore) : IdempotencyStore :=
  let s := upd_node e (e_set_prev None) s in
  let s := upd_node e (e_set_next (st_head s)) s in
  let s := upd_opt (st_head s) (e_set_prev (Some e)) s in
  let s := set_head (Some e) s in
  match st_tail s with
  | None => set_tail (Some e) s
  | Some _ => s
  end.

Definition unlinkLocked (e : nat) (s : IdempotencyStore) : IdempotencyStore :=
  let s := match ie_prev (node s e) with
           | Some p => upd_node p (e_set_next (ie_next (node s e))) s
           | None => set_head (ie_next (node s e)) s
           end in
  let s := match ie_next (node s e) with
           | Some n => upd_node n (e_set_prev (ie_prev (node s e))) s
           | None => set_tail (ie_prev (node s e)) s
           end in
  upd_node e (fun x => e_set_next None (e_set_prev None x)) s.

Definition removeLocked (e : nat) (s : IdempotencyStore) : IdempotencyStore :=
  let s := unlinkLocked e s in
  let s := set_ids (delete (ie_key (node s e)) (st_entries s)) s in
  set_size (st_size s - 1) s.

Definition touchLocked (e : nat) (s : IdempotencyStore) : IdempotencyStore :=
  if decide (st_head s = Some e) then s
  else insertHeadLocked e (unlinkLocked e s).

(** The loop from the tail; every round removes an entry or stops. *)
Fixpoint evictExpired_loop (fuel : nat) (now : Z) (e : option nat) (s : IdempotencyStore) : IdempotencyStore :=
  match fuel, e with
  | S fuel', Some e =>
      let prev := ie_prev (node s e) in
      if now <? ie_expiresAt (node s e) then s
      else evictExpired_loop fuel' now prev (removeLocked e s)
  | _, _ => s
  end.
Definition evictExpiredLocked (now : Z) (s : IdempotencyStore) : IdempotencyStore :=
  evictExpired_loop (Z.to_nat (st_size s)) now (st_tail s) s.

(** Walks from the tail past the pending entries. *)
Fixpoint evictLRU_loop (fuel : nat) (e : option nat) (s : IdempotencyStore) : IdempotencyStore :=
  match fuel, e with
  | S fuel', Some e =>
      if ie_pending (node s e) then evictLRU_loop fuel' (ie_prev (node s e)) s
      else removeLocked e s
  | _, _ => s
  end.
Definition evictLRULocked (s : IdempotencyStore) : IdempotencyStore :=
  evictLRU_loop (Z.to_nat (st_size s)) (st_tail s) s.

(** [for s.size > s.maxSize]: [None] when the fuel runs out. *)
Fixpoint shrink_loop (fuel : nat) (s : IdempotencyStore) : option IdempotencyStore :=
  if st_size s <=? st_maxSize s then Some s
  else match fuel with
       | O => None
       | S fuel' => shrink_loop fuel' (evictLRULocked s)
       end.

(** ** Operations *)

(** The first read, under the read lock, does not touch the entry; nothing
    changes between the two locks here. *)
Definition CheckAndReserve (now : Z) (key : Key) (s : IdempotencyStore)
    : IdempotencyStore * result (Transfer * bool) error :=
  let fast := match st_entries s !! key with
              | Some e =>
                  if ie_pending (node s e) then Some (Err (ErrIdempotencyConflict key))
                  else if now <? ie_expiresAt (node s e) then Some (Ok (ie_transfer (node s e), true))
                  else None
              | None => None
              end in
  match fast with
  | Some r => (s, r)
  | None =>
      let s := evictExpiredLocked now s in
      let reserve (s : IdempotencyStore) :=
        let e := st_fresh s in
        let s := new_node (mkIdEntry key zeroTransfer true (now + st_ttl s) None None) s in
        let s := set_ids (<[key := e]> (st_entries s)) s in
        let s := insertHeadLocked e s in
        (set_size (st_size s + 1) s, Ok (zeroTransfer, false)) in
      match st_entries s !! key with
      | Some e =>
          if ie_pending (node s e) then (s, Err (ErrIdempotencyConflict key))
          else if now <? ie_expiresAt (node s e)
          then let s := touchLocked e s in (s, Ok (ie_transfer (node s e), true))
          else reserve (removeLocked e s)
      | None => reserve s
      end
  end.

(** The store before the eviction loop of Commit. *)
Definition commit_entry (now : Z) (key : Key) (res : Transfer) (s : IdempotencyStore) : IdempotencyStore :=
  let s := evictExpiredLocked now s in
  let '(e, s) :=
    match st_entries s !! key with
    | Some e => (e, s)
    | None =>
        let e := st_fresh s in
        let s := new_node (mkIdEntry key zeroTransfer false 0 None None) s in
        let s := set_ids (<[key := e]> (st_entries s)) s in
        let s := insertHeadLocked e s in
        (e, set_size (st_size s + 1) s)
    end in
  touchLocked e (upd_node e (e_set_result res (now + st_ttl s)) s).

(** An eviction removes an entry or leaves the store as it was, so more rounds
    than entries means that Commit never returns: [None]. *)
Definition Commit (now : Z) (key : Key) (res : Transfer) (s : IdempotencyStore) : option IdempotencyStore :=
  let s := commit_entry now key res s in
  shrink_loop (Z.to_nat (st_size s)) s.

Definition Rollback (key : Key) (s : IdempotencyStore) : IdempotencyStore :=
  match st_entries s !! key with
  | Some e => if ie_pending (node s e) then removeLocked e s else s
  | None => s
  end.
