(* ===== verification/IdempotencyProps.v ===== *)
(** * Properties of the idempotency store

    [rep s l]: the store's linked list is the list of addresses [l].  Through
    it every operation is a list operation on the entries, most recent first. *)

From S2P Require Import Prelude Core Idempotency.

(** ** Linked chains *)

(** The [next] pointer that enters the chain [l] followed by [q], and the
    [prev] pointer that leaves it. *)
Definition first_or (l : list nat) (q : option nat) : option nat :=
  match l with [] => q | a :: _ => Some a end.
Definition last_or (p : option nat) (l : list nat) : option nat :=
  match last l with Some a => Some a | None => p end.

(** [l] is linked in both directions, after [p] and before [q]. *)
Fixpoint chain (n : gmap nat idEntry) (p : option nat) (l : list nat) (q : option nat) : Prop :=
  match l with
  | [] => True
  | a :: l => (exists e, n !! a = Some e /\ ie_prev e = p /\ ie_next e = first_or l q) /\ chain n (Some a) l q
  end.

Lemma first_or_app l1 l2 q : first_or (l1 ++ l2) q = first_or l1 (first_or l2 q).
Proof. by destruct l1. Qed.
Lemma last_or_cons p a l : last_or p (a :: l) = last_or (Some a) l.
Proof. unfold last_or. destruct l; [done|]. rewrite last_cons_cons. by destruct (last (n :: l)) eqn:E; [|apply last_None in E]. Qed.
Lemma last_or_snoc p l a : last_or p (l ++ [a]) = Some a.
Proof. unfold last_or. by rewrite last_snoc. Qed.

Lemma chain_app n p l1 l2 q :
  chain n p (l1 ++ l2) q <-> chain n p l1 (first_or l2 q) /\ chain n (last_or p l1) l2 q.
Proof.
  revert p. induction l1 as [|a l1 IH]; intros p; cbn [app chain]; [tauto|].
  rewrite IH, first_or_app, last_or_cons. tauto.
Qed.

Lemma chain_frame n n' p l q : (forall a, a ∈ l -> n' !! a = n !! a) -> chain n p l q -> chain n' p l q.
Proof.
  revert p. induction l as [|a l IH]; intros p Hn; [done|]. cbn [chain]. intros [(e & He & ?) Hc]. split.
  - exists e. by rewrite Hn by left.
  - apply IH; [|done]. intros b Hb. apply Hn. by right.
Qed.

(** The entry before the chain's end, or after its start, changes. *)
Lemma chain_set_next n p l b q q' : b ∉ l -> chain n p (l ++ [b]) q ->
  chain (alter (e_set_next q') b n) p (l ++ [b]) q'.
Proof.
  intros Hb. rewrite !chain_app. cbn [chain first_or]. intros [H1 [(e & He & Hp & Hq) _]]. split.
  - eapply chain_frame; [|exact H1]. intros a Ha. apply lookup_alter_ne. set_solver.
  - split; [|done]. exists (e_set_next q' e). by rewrite lookup_alter_eq, He.
Qed.
Lemma chain_set_prev n p p' l b q : b ∉ l -> chain n p (b :: l) q ->
  chain (alter (e_set_prev p') b n) p' (b :: l) q.
Proof.
  intros Hb. cbn [chain]. intros [(e & He & Hp & Hq) H2]. split.
  - exists (e_set_prev p' e). by rewrite lookup_alter_eq, He.
  - eapply chain_frame; [|exact H2]. intros a Ha. apply lookup_alter_ne. set_solver.
Qed.

Lemma chain_alter f a n p l q : (forall e, ie_prev (f e) = ie_prev e /\ ie_next (f e) = ie_next e) ->
  chain n p l q -> chain (alter f a n) p l q.
Proof.
  intros Hf. revert p. induction l as [|b l IH]; intros p; [done|]. cbn [chain].
  intros [(e & He & Hp & Hq) Hc]. split; [|by apply IH].
  destruct (decide (b = a)) as [->|].
  - exists (f e). rewrite lookup_alter_eq, He. destruct (Hf e) as [-> ->]. done.
  - exists e. by rewrite lookup_alter_ne.
Qed.

Lemma chain_lookup n p l q a : chain n p l q -> a ∈ l -> is_Some (n !! a).
Proof.
  revert p. induction l as [|b l IH]; intros p; cbn [chain]; [by intros _ ?%not_elem_of_nil|].
  intros [(e & He & _) Hc] [->|Hin]%elem_of_cons; [by exists e|]. eauto.
Qed.

(** ** Representation *)

Record rep (s : IdempotencyStore) (l : list nat) : Prop := {
  rp_nodup : NoDup l;
  rp_chain : chain (st_nodes s) None l None;
  rp_head : st_head s = head l;
  rp_tail : st_tail s = last l;
  rp_fresh : forall a, is_Some (st_nodes s !! a) -> (a < st_fresh s)%nat;
  rp_entries : forall k a, st_entries s !! k = Some a <-> a ∈ l /\ ie_key (node s a) = k;
  rp_size : st_size s = Z.of_nat (length l) }.

(** The data of an entry. *)
Record slot := mkSlot { sl_key : Key; sl_transfer : Transfer; sl_pending : bool; sl_expires : Z }.
Definition slot_of (e : idEntry) : slot := mkSlot (ie_key e) (ie_transfer e) (ie_pending e) (ie_expiresAt e).
Definition view (s : IdempotencyStore) (l : list nat) : list slot := (fun a => slot_of (node s a)) <$> l.

(** Two stores with the same data in the nodes of [l]. *)
Definition same_data (s s' : IdempotencyStore) : Prop := forall a, slot_of (node s' a) = slot_of (node s a).

Lemma same_view s s' l : same_data s s' -> view s' l = view s l.
Proof. intros H. apply list_fmap_ext. intros i a _. apply H. Qed.

Lemma node_upd e f s a : node (upd_node e f s) a
  = if decide (a = e) then (match st_nodes s !! e with Some x => f x | None => zeroEntry end) else node s a.
Proof.
  unfold node, upd_node. cbn [st_nodes]. destruct (decide (a = e)) as [->|Hne].
  - rewrite lookup_alter_eq. by destruct (st_nodes s !! e).
  - by rewrite lookup_alter_ne.
Qed.

Lemma upd_same_data e f s : (forall x, slot_of (f x) = slot_of x) -> same_data s (upd_node e f s).
Proof.
  intros Hf a. rewrite node_upd. destruct (decide (a = e)) as [->|]; [|done].
  unfold node. by destruct (st_nodes s !! e); [apply Hf|].
Qed.

Lemma alter_is_Some f e (n : gmap nat idEntry) b : is_Some ((alter f e n) !! b) <-> is_Some (n !! b).
Proof. rewrite lookup_alter. case_decide; subst; by rewrite ?fmap_is_Some. Qed.

(** The two halves around an entry. *)
Lemma rep_split s l1 a l2 : rep s (l1 ++ a :: l2) ->
  NoDup (l1 ++ l2) /\ (a ∉ (l1 ++ l2))
  /\ chain (st_nodes s) None l1 (Some a) /\ chain (st_nodes s) (Some a) l2 None
  /\ exists e, st_nodes s !! a = Some e /\ ie_prev e = last l1 /\ ie_next e = head l2.
Proof.
  intros [Hn Hc _ _ _ _ _]. apply chain_app in Hc as [H1 [(e & He & Hp & Hq) H2]].
  rewrite <- Permutation_middle in Hn. apply NoDup_cons in Hn as [Ha Hn].
  split_and!; try done. exists e. split; [done|]. rewrite Hp, Hq. unfold last_or.
  split; [by destruct (last l1)|by destruct l2].
Qed.

(** The link fields of one entry taken off the list. *)
Record unlinked (s s' : IdempotencyStore) (l : list nat) : Prop := {
  un_chain : chain (st_nodes s') None l None;
  un_head : st_head s' = head l;
  un_tail : st_tail s' = last l;
  un_fresh : st_fresh s' = st_fresh s;
  un_entries : st_entries s' = st_entries s;
  un_size : st_size s' = st_size s;
  un_limits : st_maxSize s' = st_maxSize s /\ st_ttl s' = st_ttl s;
  un_data : same_data s s';
  un_nodes : forall b, is_Some (st_nodes s' !! b) <-> is_Some (st_nodes s !! b) }.

Lemma unlink_ok s l1 a l2 : rep s (l1 ++ a :: l2) -> unlinked s (unlinkLocked a s) (l1 ++ l2).
Proof.
  intros Hr. destruct (rep_split _ _ _ _ Hr) as (Hn & Ha & H1 & H2 & e & He & Hp & Hq).
  assert (Hnode : node s a = e) by (unfold node; by rewrite He).
  apply NoDup_app in Hn as (Hn1 & Hd & Hn2). apply not_elem_of_app in Ha as [Ha1 Ha2].
  unfold unlinkLocked. rewrite Hnode, Hp, Hq.
  (* the entry before *)
  set (s1 := match last l1 with Some p => upd_node p (e_set_next (head l2)) s | None => set_head (head l2) s end).
  assert (P1 : chain (st_nodes s1) None l1 (head l2) /\ chain (st_nodes s1) (Some a) l2 None
    /\ st_nodes s1 !! a = Some e /\ st_head s1 = head (l1 ++ l2) /\ st_tail s1 = st_tail s
    /\ st_fresh s1 = st_fresh s /\ st_entries s1 = st_entries s /\ st_size s1 = st_size s
    /\ (st_maxSize s1 = st_maxSize s /\ st_ttl s1 = st_ttl s)
    /\ same_data s s1 /\ (forall b, is_Some (st_nodes s1 !! b) <-> is_Some (st_nodes s !! b))).
  { destruct l1 as [|b l1 _] using rev_ind; [by split_and!|]. unfold s1. rewrite last_snoc.
    apply NoDup_app in Hn1 as (_ & Hb & _). cbn [upd_node st_nodes st_head st_tail].
    assert (Hbl : b ∉ l1) by (intros ?; by eapply Hb, list_elem_of_singleton).
    assert (Hb2 : b ∉ l2) by (apply Hd; set_solver).
    split_and!; try done.
    - by eapply chain_set_next.
    - eapply chain_frame; [|done]. intros c Hc. apply lookup_alter_ne. set_solver.
    - rewrite lookup_alter_ne; [done|set_solver].
    - rewrite (rp_head _ _ Hr). by destruct l1.
    - by apply upd_same_data.
    - intros c. apply alter_is_Some. }
  clearbody s1. destruct P1 as (C1 & C2 & He1 & Hh & Ht & Hf & Hent & Hsz & (Hlim & Hlim') & Hdata & Hsome).
  assert (Hnode1 : node s1 a = e) by (unfold node; by rewrite He1). rewrite Hnode1, Hp, Hq.
  (* the entry after *)
  set (s2 := match head l2 with Some p => upd_node p (e_set_prev (last l1)) s1 | None => set_tail (last l1) s1 end).
  assert (P2 : chain (st_nodes s2) None l1 (head l2) /\ chain (st_nodes s2) (last l1) l2 None
    /\ st_head s2 = head (l1 ++ l2) /\ st_tail s2 = last (l1 ++ l2)
    /\ st_fresh s2 = st_fresh s /\ st_entries s2 = st_entries s /\ st_size s2 = st_size s
    /\ (st_maxSize s2 = st_maxSize s /\ st_ttl s2 = st_ttl s)
    /\ same_data s s2 /\ (forall b, is_Some (st_nodes s2 !! b) <-> is_Some (st_nodes s !! b))).
  { destruct l2 as [|c l2]; [unfold s2; rewrite !app_nil_r in *; by split_and!|]. unfold s2. cbn [head].
    apply NoDup_cons in Hn2 as [Hcl Hn2]. cbn [upd_node st_nodes st_head st_tail].
    assert (Hc1 : c ∉ l1) by (intros Hin; apply (Hd _ Hin); by left).
    split_and!; try done.
    - eapply chain_frame; [|done]. intros b Hb. apply lookup_alter_ne. set_solver.
    - by eapply chain_set_prev.
    - rewrite Ht, (rp_tail _ _ Hr), !last_app, !last_cons. by destruct (last l2).
    - intros b. rewrite <- Hdata. by apply upd_same_data.
    - intros b. by rewrite alter_is_Some. }
  clearbody s2. destruct P2 as (D1 & D2 & Hh2 & Ht2 & Hf2 & Hent2 & Hsz2 & Hlim2 & Hdata2 & Hsome2).
  constructor; cbn [upd_node st_nodes st_head st_tail st_fresh st_entries st_size st_maxSize st_ttl]; try done.
  - assert (Ef : first_or l2 None = head l2) by (by destruct l2).
    assert (El : last_or None l1 = last l1) by (unfold last_or; by destruct (last l1)).
    apply chain_app. rewrite Ef, El. split.
    + eapply chain_frame; [|exact D1]. intros b Hb. apply lookup_alter_ne. set_solver.
    + eapply chain_frame; [|exact D2]. intros b Hb. apply lookup_alter_ne. set_solver.
  - intros b. rewrite <- Hdata2. by apply upd_same_data.
  - intros b. by rewrite alter_is_Some.
Qed.

(** An entry off the list put at its head. *)
Lemma insert_head_ok s l a : NoDup l -> chain (st_nodes s) None l None -> st_head s = head l -> st_tail s = last l ->
  a ∉ l -> is_Some (st_nodes s !! a) -> unlinked s (insertHeadLocked a s) (a :: l).
Proof.
  intros Hn Hc Hh Ht Ha [e He]. unfold insertHeadLocked.
  set (s1 := upd_node a (e_set_next (st_head (upd_node a (e_set_prev None) s))) (upd_node a (e_set_prev None) s)).
  assert (P1 : st_nodes s1 !! a = Some (e_set_next (head l) (e_set_prev None e)) /\ chain (st_nodes s1) None l None
    /\ st_head s1 = head l /\ st_tail s1 = last l
    /\ st_fresh s1 = st_fresh s /\ st_entries s1 = st_entries s /\ st_size s1 = st_size s
    /\ st_maxSize s1 = st_maxSize s /\ st_ttl s1 = st_ttl s
    /\ same_data s s1 /\ (forall b, is_Some (st_nodes s1 !! b) <-> is_Some (st_nodes s !! b))).
  { unfold s1. cbn [upd_node st_nodes st_head]. split_and!; try done.
    - by rewrite !lookup_alter_eq, He, Hh.
    - eapply chain_frame; [|done]. intros b Hb. rewrite !lookup_alter_ne by set_solver. done.
    - intros b. transitivity (slot_of (node (upd_node a (e_set_prev None) s) b)); by apply upd_same_data.
    - intros b. by rewrite !alter_is_Some. }
  clearbody s1. destruct P1 as (He1 & C1 & Hh1 & Ht1 & Hf1 & Hent1 & Hsz1 & Hlim1 & Hlim1' & Hd1 & Hs1).
  set (s2 := upd_opt (st_head s1) (e_set_prev (Some a)) s1).
  assert (P2 : chain (st_nodes s2) None (a :: l) None /\ st_tail s2 = last l
    /\ st_fresh s2 = st_fresh s /\ st_entries s2 = st_entries s /\ st_size s2 = st_size s
    /\ st_maxSize s2 = st_maxSize s /\ st_ttl s2 = st_ttl s
    /\ same_data s s2 /\ (forall b, is_Some (st_nodes s2 !! b) <-> is_Some (st_nodes s !! b))).
  { unfold s2. rewrite Hh1. destruct l as [|c l]; cbn [head upd_opt].
    - split_and!; try done. cbn [chain first_or]. split; [|done]. by eexists.
    - apply not_elem_of_cons in Ha as [Hac Hal]. cbn [upd_node st_nodes st_tail].
      apply NoDup_cons in Hn as [Hcl Hn]. split_and!; try done.
      + split.
        * eexists. rewrite lookup_alter_ne by done. split; [exact He1|done].
        * by eapply chain_set_prev.
      + intros b. rewrite <- Hd1. by apply upd_same_data.
      + intros b. by rewrite alter_is_Some. }
  clearbody s2. destruct P2 as (C2 & Ht2 & Hf2 & Hent2 & Hsz2 & Hlim2 & Hlim2' & Hd2 & Hs2).
  cbn [set_head st_tail]. rewrite Ht2. destruct (last l) as [b|] eqn:El.
  - constructor; cbn [set_head st_nodes st_head st_tail st_fresh st_entries st_size st_maxSize st_ttl]; try done.
    by rewrite Ht2, last_cons, El.
  - apply last_None in El as ->.
    by constructor; cbn [set_head set_tail st_nodes st_head st_tail st_fresh st_entries st_size st_maxSize st_ttl].
Qed.

Lemma same_key s s' a : same_data s s' -> ie_key (node s' a) = ie_key (node s a).
Proof. intros H. by pose proof (f_equal sl_key (H a)). Qed.
Lemma same_pending s s' a : same_data s s' -> ie_pending (node s' a) = ie_pending (node s a).
Proof. intros H. by pose proof (f_equal sl_pending (H a)). Qed.

Lemma rep_node s l a : rep s l -> a ∈ l -> is_Some (st_nodes s !! a).
Proof. intros H. eapply chain_lookup, H. Qed.

Lemma remove_ok s l1 a l2 : rep s (l1 ++ a :: l2) ->
  rep (removeLocked a s) (l1 ++ l2) /\ same_data s (removeLocked a s)
  /\ st_maxSize (removeLocked a s) = st_maxSize s /\ st_ttl (removeLocked a s) = st_ttl s.
Proof.
  intros Hr. pose proof (unlink_ok _ _ _ _ Hr) as [Hc Hh Ht Hf Hent Hsz [Hl1 Hl2] Hd Hs].
  destruct (rep_split _ _ _ _ Hr) as (Hn & Ha & _).
  unfold removeLocked. split; [|done].
  constructor; cbn [set_size set_ids st_nodes st_head st_tail st_fresh st_entries st_size]; try done.
  - intros b Hb. rewrite Hf. by apply (rp_fresh _ _ Hr), Hs.
  - intros k b.
    change (node (set_size _ _) b) with (node (unlinkLocked a s) b). rewrite !(same_key _ _ _ Hd), Hent, lookup_delete_Some.
    rewrite (rp_entries _ _ Hr). rewrite !elem_of_app, elem_of_cons. split.
    + intros (Hk & [?|[->|?]] & <-); [tauto|done|tauto].
    + intros (Hin & <-). split; [|tauto]. intros Hk.
      assert (Hb : st_entries s !! ie_key (node s b) = Some b) by (apply (rp_entries _ _ Hr); set_solver).
      assert (Ha' : st_entries s !! ie_key (node s a) = Some a) by (apply (rp_entries _ _ Hr); set_solver).
      rewrite Hk in Ha'. assert (a = b) as -> by congruence. apply Ha. set_solver.
  - rewrite Hsz, (rp_size _ _ Hr), !length_app. simpl. lia.
Qed.

Lemma touch_ok s l1 a l2 : rep s (l1 ++ a :: l2) ->
  rep (touchLocked a s) (a :: l1 ++ l2) /\ same_data s (touchLocked a s)
  /\ st_maxSize (touchLocked a s) = st_maxSize s /\ st_ttl (touchLocked a s) = st_ttl s.
Proof.
  intros Hr. destruct (rep_split _ _ _ _ Hr) as (Hn & Ha & _). unfold touchLocked.
  case_decide as Hd.
  - rewrite (rp_head _ _ Hr) in Hd. destruct l1 as [|b l1]; [done|]. exfalso. simpl in Hd. simplify_eq. set_solver.
  - pose proof (unlink_ok _ _ _ _ Hr) as [Hc Hh Ht Hf Hent Hsz [Hl1 Hl2] Hdt Hs].
    destruct (insert_head_ok (unlinkLocked a s) (l1 ++ l2) a) as [Hc' Hh' Ht' Hf' Hent' Hsz' [Hl1' Hl2'] Hdt' Hs']; try done.
    { apply Hs, (rep_node _ _ _ Hr). set_solver. }
    assert (Hsame : same_data s (insertHeadLocked a (unlinkLocked a s))) by (intros b; by rewrite Hdt', Hdt).
    split; [|split_and!; [done|congruence|congruence]].
    constructor; try done.
    + by constructor.
    + intros b Hb. rewrite Hf', Hf. apply (rp_fresh _ _ Hr), Hs, Hs', Hb.
    + intros k b. rewrite (same_key _ _ _ Hsame), Hent', Hent, (rp_entries _ _ Hr).
      rewrite elem_of_cons, !elem_of_app, elem_of_cons. tauto.
    + rewrite Hsz', Hsz, (rp_size _ _ Hr). simpl. rewrite !length_app. simpl. lia.
Qed.

(** ** Operations as list operations *)

Definition expired (now : Z) (x : slot) : bool := negb (now <? sl_expires x).

(** Expired entries are dropped from the tail up to the first live one. *)
Fixpoint drop_while {A} (p : A -> bool) (l : list A) : list A :=
  match l with [] => [] | x :: l' => if p x then drop_while p l' else l end.
Definition evict (now : Z) (L : list slot) : list slot := reverse (drop_while (expired now) (reverse L)).

(** The least recent entry that is not pending goes. *)
Fixpoint drop_first {A} (p : A -> bool) (l : list A) : list A :=
  match l with [] => [] | x :: l' => if p x then l' else x :: drop_first p l' end.
Definition evict_lru (L : list slot) : list slot := reverse (drop_first (fun x => negb (sl_pending x)) (reverse L)).

Definition find_key (key : Key) (L : list slot) : option slot := snd <$> list_find (fun x => sl_key x = key) L.
Definition drop_key (key : Key) (L : list slot) : list slot := filter (fun x => sl_key x <> key) L.

Definition spec_check (ttl now : Z) (key : Key) (L : list slot) : list slot * result (Transfer * bool) error :=
  match find_key key L with
  | Some x =>
      if sl_pending x then (L, Err (ErrIdempotencyConflict key))
      else if now <? sl_expires x then (L, Ok (sl_transfer x, true))
      else (mkSlot key zeroTransfer true (now + ttl) :: drop_key key (evict now L), Ok (zeroTransfer, false))
  | None => (mkSlot key zeroTransfer true (now + ttl) :: evict now L, Ok (zeroTransfer, false))
  end.

Definition spec_commit_entry (ttl now : Z) (key : Key) (res : Transfer) (L : list slot) : list slot :=
  mkSlot key res false (now + ttl) :: drop_key key (evict now L).

Fixpoint spec_shrink (fuel : nat) (maxSize : Z) (L : list slot) : option (list slot) :=
  if Z.of_nat (length L) <=? maxSize then Some L
  else match fuel with
       | O => None
       | S fuel' => spec_shrink fuel' maxSize (evict_lru L)
       end.

Definition spec_commit (maxSize ttl now : Z) (key : Key) (res : Transfer) (L : list slot) : option (list slot) :=
  let L := spec_commit_entry ttl now key res L in spec_shrink (length L) maxSize L.

Definition spec_rollback (key : Key) (L : list slot) : list slot :=
  match find_key key L with
  | Some x => if sl_pending x then drop_key key L else L
  | None => L
  end.

(** What every operation keeps: a list of the store with the given limits. *)
Definition holds (s : IdempotencyStore) (maxSize ttl : Z) (L : list slot) : Prop :=
  exists l, rep s l /\ view s l = L /\ st_maxSize s = maxSize /\ st_ttl s = ttl.

Lemma view_app s l1 l2 : view s (l1 ++ l2) = view s l1 ++ view s l2.
Proof. apply fmap_app. Qed.
Lemma view_length s l : length (view s l) = length l.
Proof. apply length_fmap. Qed.

Lemma keys_distinct s l : rep s l -> NoDup (sl_key <$> view s l).
Proof.
  intros Hr. unfold view. rewrite <- list_fmap_compose. apply NoDup_fmap_2_strong; [|apply Hr].
  intros a b Ha Hb E. cbn in E.
  assert (H1 : st_entries s !! ie_key (node s a) = Some a) by (by apply (rp_entries _ _ Hr)).
  assert (H2 : st_entries s !! ie_key (node s b) = Some b) by (by apply (rp_entries _ _ Hr)).
  congruence.
Qed.

(** One operation refined: a store for the new list, with the same limits. *)
Definition becomes (s s' : IdempotencyStore) (L : list slot) : Prop := holds s' (st_maxSize s) (st_ttl s) L.

Lemma evict_snoc now L x : evict now (L ++ [x]) = if expired now x then evict now L else L ++ [x].
Proof.
  unfold evict. rewrite reverse_snoc. cbn [drop_while]. destruct (expired now x); [done|].
  by rewrite reverse_cons, reverse_involutive.
Qed.

Lemma evictExpired_ok now fuel : forall l s, rep s l -> (length l <= fuel)%nat ->
  becomes s (evictExpired_loop fuel now (last l) s) (evict now (view s l)).
Proof.
  induction fuel as [|fuel IH]; intros l s Hr Hf.
  { destruct l; [|simpl in Hf; lia]. cbn. by exists []. }
  destruct l as [|a l _] using rev_ind; [by exists []|]. rewrite last_snoc. cbn [evictExpired_loop].
  rewrite view_app. cbn [view fmap list_fmap]. rewrite evict_snoc. unfold expired. cbn [slot_of sl_expires].
  destruct (now <? ie_expiresAt (node s a)); cbn [negb].
  { exists (l ++ [a]). by rewrite view_app. }
  destruct (rep_split _ _ _ _ Hr) as (_ & _ & _ & _ & e & He & Hp & _).
  destruct (remove_ok _ _ _ _ Hr) as (Hr' & Hd & Hl1 & Hl2). rewrite app_nil_r in Hr'.
  assert (Hprev : ie_prev (node s a) = last l) by (unfold node; by rewrite He). rewrite Hprev.
  rewrite length_app in Hf. simpl in Hf.
  destruct (IH l (removeLocked a s) Hr') as (l' & ? & Hv & ? & ?); [lia|].
  exists l'. rewrite Hv, (same_view _ _ _ Hd). split_and!; [done|done|congruence|congruence].
Qed.

Lemma evictExpiredLocked_ok now s l : rep s l -> becomes s (evictExpiredLocked now s) (evict now (view s l)).
Proof.
  intros Hr. unfold evictExpiredLocked. rewrite (rp_tail _ _ Hr), (rp_size _ _ Hr).
  apply evictExpired_ok; [done|lia].
Qed.

Lemma evict_lru_snoc L x : evict_lru (L ++ [x]) = if sl_pending x then evict_lru L ++ [x] else L.
Proof.
  unfold evict_lru. rewrite reverse_snoc. cbn [drop_first]. destruct (sl_pending x); cbn [negb].
  - by rewrite reverse_cons.
  - by rewrite reverse_involutive.
Qed.

Lemma evictLRU_ok fuel : forall l1 l2 s, rep s (l1 ++ l2) -> (length l1 <= fuel)%nat ->
  becomes s (evictLRU_loop fuel (last l1) s) (evict_lru (view s l1) ++ view s l2).
Proof.
  induction fuel as [|fuel IH]; intros l1 l2 s Hr Hf.
  { destruct l1; [|simpl in Hf; lia]. cbn. by exists l2. }
  destruct l1 as [|a l1 _] using rev_ind; [by exists l2|]. rewrite last_snoc. cbn [evictLRU_loop].
  rewrite view_app. cbn [view fmap list_fmap]. rewrite evict_lru_snoc. cbn [slot_of sl_pending].
  rewrite <- app_assoc in Hr. cbn [app] in Hr.
  destruct (ie_pending (node s a)) eqn:Ep.
  - destruct (rep_split _ _ _ _ Hr) as (_ & _ & _ & _ & e & He & Hp & _).
    assert (Hprev : ie_prev (node s a) = last l1) by (unfold node; by rewrite He). rewrite Hprev.
    rewrite length_app in Hf. simpl in Hf. destruct (IH l1 (a :: l2) s Hr) as (l' & ? & Hv & ? & ?); [lia|].
    exists l'. rewrite Hv. cbn [view fmap list_fmap]. by rewrite <- app_assoc.
  - destruct (remove_ok _ _ _ _ Hr) as (Hr' & Hd & Hl1 & Hl2).
    exists (l1 ++ l2). rewrite (same_view _ _ _ Hd), view_app. by split_and!.
Qed.

Lemma evictLRULocked_ok s l : rep s l -> becomes s (evictLRULocked s) (evict_lru (view s l)).
Proof.
  intros Hr. unfold evictLRULocked. rewrite (rp_tail _ _ Hr), (rp_size _ _ Hr), Nat2Z.id.
  pose proof (evictLRU_ok (length l) l [] s) as H. rewrite !app_nil_r in H. by apply H.
Qed.

Lemma shrink_ok fuel : forall s l, rep s l ->
  match spec_shrink fuel (st_maxSize s) (view s l) with
  | Some L => exists s', shrink_loop fuel s = Some s' /\ becomes s s' L
  | None => shrink_loop fuel s = None
  end.
Proof.
  induction fuel as [|fuel IH]; intros s l Hr; cbn [spec_shrink shrink_loop];
    rewrite view_length, (rp_size _ _ Hr);
    destruct (Z.of_nat (length l) <=? st_maxSize s); try done; try (exists s; split; [done|by exists l]).
  destruct (evictLRULocked_ok s l Hr) as (l' & Hr' & Hv & Hm & Ht).
  specialize (IH _ _ Hr'). rewrite Hv, Hm in IH. destruct (spec_shrink _ _ _) as [L|]; [|done].
  destruct IH as (s' & E & H). exists s'. split; [done|]. unfold becomes. by rewrite <- Hm, <- Ht.
Qed.

(** Finding a key. *)
Lemma find_some s l key a : rep s l -> st_entries s !! key = Some a ->
  exists l1 l2, l = l1 ++ a :: l2 /\ find_key key (view s l) = Some (slot_of (node s a))
    /\ drop_key key (view s l) = view s (l1 ++ l2) /\ ie_key (node s a) = key.
Proof.
  intros Hr Ha. apply (rp_entries _ _ Hr) in Ha as [Hin Hk].
  apply list_elem_of_split in Hin as (l1 & l2 & ->). exists l1, l2. split; [done|].
  pose proof (keys_distinct _ _ Hr) as Hn. rewrite view_app in Hn |- *. cbn [view fmap list_fmap] in Hn |- *.
  rewrite fmap_app in Hn. cbn [fmap list_fmap] in Hn. rewrite <- Permutation_middle in Hn.
  apply NoDup_cons in Hn as [Hnk _]. rewrite not_elem_of_app in Hnk. destruct Hnk as [Hk1 Hk2].
  assert (Hks : sl_key (slot_of (node s a)) = key) by done. rewrite Hks in Hk1, Hk2.
  assert (D1 : forall l', key ∉ sl_key <$> view s l' -> drop_key key (view s l') = view s l').
  { intros l' Hl'. unfold drop_key. induction (view s l') as [|x L IH]; [done|].
    cbn [fmap list_fmap] in Hl'. apply not_elem_of_cons in Hl' as [? ?].
    rewrite filter_cons_True by congruence. by rewrite IH. }
  split_and!; [| |done].
  - unfold find_key. rewrite list_find_app_r.
    + cbn [list_find]. by rewrite decide_True by done.
    + apply list_find_None, Forall_forall. intros x Hx Ex. apply Hk1. rewrite <- Ex. by apply list_elem_of_fmap_2.
  - unfold drop_key. rewrite filter_app, filter_cons_False by (intros ?; done).
    fold (drop_key key (view s l1)). fold (view s l2) (drop_key key (view s l2)).
    rewrite (D1 l1), (D1 l2) by done. by rewrite view_app.
Qed.

Lemma find_none s l key : rep s l -> st_entries s !! key = None ->
  find_key key (view s l) = None /\ drop_key key (view s l) = view s l.
Proof.
  intros Hr Hk.
  assert (H : Forall (fun x => sl_key x <> key) (view s l)).
  { apply Forall_fmap, Forall_forall. intros a Ha E. cbn in E.
    assert (H : st_entries s !! key = Some a) by (by apply (rp_entries _ _ Hr)). congruence. }
  split.
  - unfold find_key. by rewrite (proj2 (list_find_None _ _)).
  - unfold drop_key. induction H as [|x L Hx _ IH]; [done|]. by rewrite filter_cons_True, IH.
Qed.

(** A new entry for a key the store does not hold. *)
Definition add_entry (e : idEntry) (s : IdempotencyStore) : IdempotencyStore :=
  let a := st_fresh s in
  let s := new_node e s in
  let s := set_ids (<[ie_key e := a]> (st_entries s)) s in
  let s := insertHeadLocked a s in
  set_size (st_size s + 1) s.

Lemma add_ok s l e : rep s l -> st_entries s !! ie_key e = None ->
  rep (add_entry e s) (st_fresh s :: l) /\ view (add_entry e s) (st_fresh s :: l) = slot_of e :: view s l
  /\ st_maxSize (add_entry e s) = st_maxSize s /\ st_ttl (add_entry e s) = st_ttl s.
Proof.
  intros Hr Hk. set (a := st_fresh s).
  assert (Hal : a ∉ l).
  { intros Hin. pose proof (rp_fresh _ _ Hr a (rep_node _ _ _ Hr Hin)) as H. unfold a in H. lia. }
  set (s1 := set_ids (<[ie_key e := a]> (st_entries s)) (new_node e s)).
  assert (Hold : forall b, b <> a -> node s1 b = node s b).
  { intros b Hb. unfold node, s1. cbn. by rewrite lookup_insert_ne. }
  assert (Hnew : node s1 a = e) by (unfold node, s1; cbn; by rewrite lookup_insert_eq).
  destruct (insert_head_ok s1 l a) as [Hc Hh Ht Hf Hent Hsz [Hl1 Hl2] Hd Hs]; try done.
  { apply Hr. }
  { eapply chain_frame; [|apply Hr]. intros b Hb. unfold s1. cbn. apply lookup_insert_ne. intros <-. by apply Hal. }
  { apply Hr. }
  { apply Hr. }
  { exists e. unfold s1. cbn. apply lookup_insert_eq. }
  assert (Hview : view (add_entry e s) (a :: l) = slot_of e :: view s l).
  { change (view (add_entry e s) (a :: l)) with (view (insertHeadLocked a s1) (a :: l)).
    rewrite (same_view _ _ _ Hd). cbn [view fmap list_fmap]. rewrite Hnew. f_equal.
    apply list_fmap_ext. intros i b Hb. f_equal. apply Hold.
    intros ->. apply Hal, (list_elem_of_lookup_2 _ _ _ Hb). }
  split; [|split; [done|split; [exact Hl1|exact Hl2]]].
  change (add_entry e s) with (set_size (st_size (insertHeadLocked a s1) + 1) (insertHeadLocked a s1)).
  constructor; cbn [set_size st_nodes st_head st_tail st_fresh st_entries st_size]; try done.
  - constructor; [done|apply Hr].
  - rewrite Hf. intros b Hb. apply Hs in Hb. unfold s1 in Hb |- *. cbn in Hb |- *.
    destruct (decide (b = a)) as [->|Hne]; [unfold a; lia|].
    rewrite lookup_insert_ne in Hb by done. pose proof (rp_fresh _ _ Hr _ Hb). unfold a in *. lia.
  - intros k b. change (node (set_size _ _) b) with (node (insertHeadLocked a s1) b).
    rewrite (same_key _ _ _ Hd), Hent. unfold s1 at 1. cbn [set_ids st_entries].
    rewrite lookup_insert_Some, (rp_entries _ _ Hr), elem_of_cons. split.
    + intros [[<- <-]|(Hne & Hb & <-)]; [rewrite Hnew; by split; [left|]|].
      rewrite Hold by congruence. by split; [right|].
    + intros [[->|Hb] <-]; [left; by rewrite Hnew|].
      rewrite Hold by congruence. right. split; [|done]. intros Ek.
      assert (H : st_entries s !! ie_key (node s b) = Some b) by (by apply (rp_entries _ _ Hr)). congruence.
  - rewrite Hsz. unfold s1. cbn. rewrite (rp_size _ _ Hr). lia.
Qed.

(** ** Refinement of the operations *)

(** Evicting keeps the entries that stay, in order. *)
Lemma evict_prefix now L : exists K, L = evict now L ++ K /\ Forall (fun x => expired now x = true) K.
Proof.
  unfold evict. induction L as [|x L IH] using rev_ind; [by exists []|].
  rewrite reverse_snoc. cbn [drop_while]. destruct (expired now x) eqn:E.
  - destruct IH as (K & EK & HK). exists (K ++ [x]). rewrite app_assoc, <- EK. split; [done|].
    apply Forall_app. by split; [|constructor].
  - exists []. rewrite reverse_cons, reverse_involutive, app_nil_r. by split.
Qed.

Lemma find_app_some key A B x : find_key key (A ++ B) = Some x -> NoDup (sl_key <$> A ++ B) ->
  find_key key A = Some x \/ find_key key A = None /\ x ∈ B.
Proof.
  intros H Hn. unfold find_key in *. destruct (list_find (fun y => sl_key y = key) A) as [[i y]|] eqn:E.
  - rewrite (list_find_app_l _ _ _ _ _ E) in H. by left.
  - rewrite list_find_app_r in H by done. right. split; [done|].
    destruct (list_find _ B) as [[j z]|] eqn:E2; [|done]. cbn in H. simplify_eq.
    apply list_find_Some in E2 as (Hz & _). by eapply list_elem_of_lookup_2.
Qed.

Lemma find_in key L x : find_key key L = Some x -> x ∈ L.
Proof.
  unfold find_key. destruct (list_find _ L) as [[i y]|] eqn:E; [|done]. intros [= <-].
  apply list_find_Some in E as (Hy & _). by eapply list_elem_of_lookup_2.
Qed.

Lemma drop_none key L : find_key key L = None -> drop_key key L = L.
Proof.
  unfold find_key. destruct (list_find _ L) eqn:E; [by destruct p|]. intros _. apply list_find_None in E.
  unfold drop_key. induction E as [|y L Hy _ IH]; [done|]. by rewrite filter_cons_True, IH.
Qed.

Lemma check_ok now key s l : rep s l ->
  let '(s', r) := CheckAndReserve now key s in
  let '(L, r') := spec_check (st_ttl s) now key (view s l) in
  becomes s s' L /\ r = r'.
Proof.
  intros Hr. unfold CheckAndReserve, spec_check.
  destruct (evictExpiredLocked_ok now s l Hr) as (l1 & Hr1 & Hv1 & Hm1 & Ht1).
  set (s1 := evictExpiredLocked now s) in *.
  assert (Hadd : forall s2 l2, rep s2 l2 -> st_maxSize s2 = st_maxSize s -> st_ttl s2 = st_ttl s ->
    st_entries s2 !! key = None ->
    becomes s (add_entry (mkIdEntry key zeroTransfer true (now + st_ttl s2) None None) s2)
      (mkSlot key zeroTransfer true (now + st_ttl s) :: view s2 l2)).
  { intros s2 l2 H2 Em Et Hk.
    destruct (add_ok s2 l2 (mkIdEntry key zeroTransfer true (now + st_ttl s2) None None) H2 Hk) as (H3 & H4 & H5 & H6).
    eexists. rewrite H4, H5, H6. split_and!; [done| |done|done]. cbn [slot_of ie_key]. by rewrite Et. }
  destruct (st_entries s !! key) as [a|] eqn:Ea.
  - destruct (find_some s l key a Hr Ea) as (la & lb & -> & Hfind & Hdrop & Hkey).
    rewrite Hfind. cbn [slot_of sl_pending sl_expires sl_transfer].
    destruct (ie_pending (node s a)) eqn:Ep; [split; [by exists (la ++ a :: lb)|done]|].
    destruct (now <? ie_expiresAt (node s a)) eqn:Ee; [split; [by exists (la ++ a :: lb)|done]|].
    destruct (st_entries s1 !! key) as [b|] eqn:Eb.
    + destruct (find_some s1 l1 key b Hr1 Eb) as (lc & ld & -> & Hfind1 & Hdrop1 & Hkey1).
      (* the same entry is still there, still expired *)
      assert (Hsame : slot_of (node s1 b) = slot_of (node s a)).
      { destruct (evict_prefix now (view s (la ++ a :: lb))) as (K & EK & _).
        pose proof (keys_distinct _ _ Hr) as Hn. rewrite EK in Hfind, Hn. rewrite Hv1 in Hfind1.
        destruct (find_app_some _ _ _ _ Hfind Hn) as [H|[H _]]; congruence. }
      pose proof (f_equal sl_pending Hsame) as Hp1. pose proof (f_equal sl_expires Hsame) as He1.
      cbn in Hp1, He1. rewrite Hp1, Ep, He1, Ee.
      destruct (remove_ok _ _ _ _ Hr1) as (Hr2 & Hd2 & Hm2 & Ht2). split; [|done].
      rewrite <- Hv1, Hdrop1, <- (same_view _ _ (lc ++ ld) Hd2).
      apply Hadd; [done|congruence|congruence|].
      destruct (st_entries (removeLocked b s1) !! key) as [c|] eqn:Ec; [|done]. exfalso.
      apply (rp_entries _ _ Hr2) in Ec as [Hin Hkc]. rewrite (same_key _ _ _ Hd2) in Hkc.
      assert (Hc : st_entries s1 !! key = Some c).
      { apply (rp_entries _ _ Hr1). split; [|done]. set_solver. }
      destruct (rep_split _ _ _ _ Hr1) as (_ & Hnb & _). congruence.
    + destruct (find_none s1 l1 key Hr1 Eb) as [_ Hdn]. rewrite <- Hv1, Hdn. split; [|done]. by apply Hadd.
  - destruct (find_none s l key Hr Ea) as [Hfn _]. rewrite Hfn.
    assert (Eb : st_entries s1 !! key = None).
    { destruct (st_entries s1 !! key) as [b|] eqn:Eb; [|done]. exfalso.
      destruct (find_some s1 l1 key b Hr1 Eb) as (lc & ld & -> & Hfind1 & _).
      destruct (evict_prefix now (view s l)) as (K & EK & _). rewrite Hv1 in Hfind1.
      unfold find_key in Hfn, Hfind1. rewrite EK in Hfn.
      destruct (list_find _ (evict now (view s l))) as [[i y]|] eqn:E; [|done].
      by rewrite (list_find_app_l _ _ _ _ _ E) in Hfn. }
    rewrite Eb, <- Hv1. split; [|done]. by apply Hadd.
Qed.

Lemma set_result_ok s l1 a l2 t x : rep s (l1 ++ a :: l2) ->
  let s' := upd_node a (e_set_result t x) s in
  rep s' (l1 ++ a :: l2) /\ slot_of (node s' a) = mkSlot (ie_key (node s a)) t false x
  /\ (forall b, b <> a -> node s' b = node s b).
Proof.
  intros Hr s'. destruct (rep_split _ _ _ _ Hr) as (_ & _ & _ & _ & e & He & _).
  assert (Hna : node s a = e) by (unfold node; by rewrite He).
  assert (Hother : forall b, b <> a -> node s' b = node s b).
  { intros b Hb. unfold s'. rewrite node_upd. by rewrite decide_False. }
  assert (Hself : slot_of (node s' a) = mkSlot (ie_key (node s a)) t false x).
  { unfold s'. rewrite node_upd, decide_True, He, Hna by done. done. }
  assert (Hkeys : forall b, ie_key (node s' b) = ie_key (node s b)).
  { intros b. destruct (decide (b = a)) as [->|]; [by apply (f_equal sl_key) in Hself|by rewrite Hother]. }
  split; [|done]. destruct Hr as [Hn Hc Hh Ht Hf Hent Hsz]. constructor; try done.
  - by apply chain_alter.
  - intros b Hb. apply Hf. unfold s' in Hb. cbn in Hb. by apply alter_is_Some in Hb.
  - intros k b. rewrite Hkeys. apply Hent.
Qed.

Lemma commit_entry_ok now key t s l : rep s l ->
  becomes s (commit_entry now key t s) (spec_commit_entry (st_ttl s) now key t (view s l)).
Proof.
  intros Hr. unfold commit_entry, spec_commit_entry.
  destruct (evictExpiredLocked_ok now s l Hr) as (l1 & Hr1 & Hv1 & Hm1 & Ht1).
  set (s1 := evictExpiredLocked now s) in *. rewrite <- Hv1.
  (* the entry found or added, at [la ++ a :: lb] *)
  assert (H : exists a s2 la lb, (match st_entries s1 !! key with
      | Some e => (e, s1)
      | None => (st_fresh s1, add_entry (mkIdEntry key zeroTransfer false 0 None None) s1)
      end = (a, s2)) /\ rep s2 (la ++ a :: lb) /\ ie_key (node s2 a) = key
      /\ drop_key key (view s1 l1) = view s2 (la ++ lb) /\ st_maxSize s2 = st_maxSize s /\ st_ttl s2 = st_ttl s).
  { destruct (st_entries s1 !! key) as [b|] eqn:Eb.
    - destruct (find_some s1 l1 key b Hr1 Eb) as (lc & ld & -> & _ & Hdrop1 & Hkey1).
      by exists b, s1, lc, ld.
    - destruct (find_none s1 l1 key Hr1 Eb) as [_ Hdn].
      destruct (add_ok s1 l1 (mkIdEntry key zeroTransfer false 0 None None) Hr1 Eb) as (H3 & H4 & H5 & H6).
      eexists _, _, [], l1. split; [done|]. cbn [app]. split; [done|].
      pose proof (f_equal (fun L => default key (sl_key <$> head L)) H4) as Hs.
      pose proof (f_equal tail H4) as Hl. cbn in Hs. cbn [tail view fmap list_fmap] in Hl.
      split_and!; [done|by rewrite Hdn|congruence|congruence]. }
  destruct H as (a & s2 & la & lb & E & Hr2 & Hkey & Hdrop & Hm2 & Ht2).
  unfold add_entry in E. cbn [ie_key] in E. rewrite E. clear E.
  destruct (set_result_ok s2 la a lb t (now + st_ttl s2) Hr2) as (Hr3 & Hs3 & Ho3).
  set (s3 := upd_node a _ s2) in *.
  destruct (touch_ok _ _ _ _ Hr3) as (Hr4 & Hd4 & Hm4 & Ht4).
  exists (a :: la ++ lb). split; [done|]. rewrite (same_view _ _ _ Hd4), Hm4, Ht4. split; [|done].
  rewrite Hdrop. cbn [view fmap list_fmap]. rewrite Hs3, Hkey, Ht2. f_equal.
  apply list_fmap_ext. intros i b Hb. f_equal. apply Ho3. intros ->.
  destruct (rep_split _ _ _ _ Hr3) as (_ & Hna & _). apply Hna, (list_elem_of_lookup_2 _ _ _ Hb).
Qed.

Lemma commit_ok now key t s l : rep s l ->
  match spec_commit (st_maxSize s) (st_ttl s) now key t (view s l) with
  | Some L => exists s', Commit now key t s = Some s' /\ becomes s s' L
  | None => Commit now key t s = None
  end.
Proof.
  intros Hr. unfold spec_commit, Commit.
  destruct (commit_entry_ok now key t s l Hr) as (l1 & Hr1 & Hv1 & Hm1 & Ht1).
  pose proof (shrink_ok (Z.to_nat (st_size (commit_entry now key t s))) _ _ Hr1) as H.
  rewrite (rp_size _ _ Hr1), Nat2Z.id in H |- *. rewrite <- (view_length (commit_entry now key t s)), Hv1 in H |- *.
  rewrite Hm1 in H. destruct (spec_shrink _ _ _) as [L|]; [|done].
  destruct H as (s' & E & Hb). exists s'. split; [done|]. unfold becomes in *. by rewrite <- Hm1, <- Ht1.
Qed.

Lemma rollback_ok key s l : rep s l -> becomes s (Rollback key s) (spec_rollback key (view s l)).
Proof.
  intros Hr. unfold Rollback, spec_rollback. destruct (st_entries s !! key) as [a|] eqn:Ea.
  - destruct (find_some s l key a Hr Ea) as (la & lb & -> & Hfind & Hdrop & Hkey). rewrite Hfind.
    cbn [slot_of sl_pending]. destruct (ie_pending (node s a)); [|by exists (la ++ a :: lb)].
    destruct (remove_ok _ _ _ _ Hr) as (Hr2 & Hd2 & Hm2 & Ht2).
    exists (la ++ lb). by rewrite (same_view _ _ _ Hd2), Hdrop.
  - destruct (find_none s l key Hr Ea) as [-> _]. by exists l.
Qed.

(** ** Shrinking *)

Definition pendings (L : list slot) : list slot := filter (fun x => sl_pending x = true) L.

Lemma evict_lru_cases L :
  (Forall (fun x => sl_pending x = true) L /\ evict_lru L = L)
  \/ exists A x B, L = A ++ x :: B /\ sl_pending x = false /\ Forall (fun x => sl_pending x = true) B
       /\ evict_lru L = A ++ B.
Proof.
  induction L as [|y L IH] using rev_ind; [by left|]. rewrite evict_lru_snoc.
  destruct (sl_pending y) eqn:Ey.
  - destruct IH as [[HL E]|(A & x & B & EL & Hx & HB & E)].
    + left. rewrite E. split; [|done]. apply Forall_app. by split; [|constructor].
    + right. exists A, x, (B ++ [y]). rewrite E, EL, <- !app_assoc. split_and!; try done.
      apply Forall_app. by split; [|constructor].
  - right. exists L, y, []. rewrite app_nil_r. by split_and!.
Qed.

Lemma pendings_app A B : pendings (A ++ B) = pendings A ++ pendings B.
Proof. apply filter_app. Qed.
Lemma pendings_all L : Forall (fun x => sl_pending x = true) L -> pendings L = L.
Proof. unfold pendings. induction 1; [done|]. by rewrite filter_cons_True, IHForall. Qed.
Lemma pendings_cons_false x L : sl_pending x = false -> pendings (x :: L) = pendings L.
Proof. intros H. unfold pendings. rewrite filter_cons_False; [done|congruence]. Qed.
Lemma pendings_le L : (length (pendings L) <= length L)%nat.
Proof. apply length_filter. Qed.

Lemma evict_lru_pendings L : pendings (evict_lru L) = pendings L.
Proof.
  destruct (evict_lru_cases L) as [[_ E]|(A & x & B & EL & Hx & HB & E)]; [by rewrite E|].
  by rewrite E, EL, !pendings_app, pendings_cons_false.
Qed.

Lemma shrink_diverges fuel maxSize L : maxSize < Z.of_nat (length (pendings L)) -> spec_shrink fuel maxSize L = None.
Proof.
  revert L. induction fuel as [|fuel IH]; intros L H; cbn [spec_shrink]; pose proof (pendings_le L);
    rewrite (proj2 (Z.leb_gt _ _)) by lia; [done|]. apply IH. by rewrite evict_lru_pendings.
Qed.

Lemma shrink_returns fuel maxSize L : Z.of_nat (length (pendings L)) <= maxSize -> (length L <= fuel)%nat ->
  exists L', spec_shrink fuel maxSize L = Some L' /\ Z.of_nat (length L') <= maxSize /\ pendings L' = pendings L
    /\ forall x T, L = x :: T -> Z.of_nat (length (pendings T)) < maxSize -> exists T', L' = x :: T'.
Proof.
  revert L. induction fuel as [|fuel IH]; intros L Hp Hf; cbn [spec_shrink].
  { destruct L; [|simpl in Hf; lia]. simpl in Hp. rewrite (proj2 (Z.leb_le _ _)) by (simpl; lia).
    by exists []. }
  destruct (Z.leb_spec (Z.of_nat (length L)) maxSize) as [Hle|Hgt].
  { exists L. split_and!; [done|done|done|]. intros x T -> _. by exists T. }
  destruct (evict_lru_cases L) as [[HL _]|(A & x & B & EL & Hx & HB & E)].
  { rewrite pendings_all in Hp by done. lia. }
  destruct (IH (evict_lru L)) as (L' & ES & Hl & Hpe & Hhead); rewrite ?evict_lru_pendings; try done.
  { rewrite E. subst L. rewrite !length_app in *. simpl in *. lia. }
  exists L'. rewrite evict_lru_pendings in Hpe. split_and!; [done|done|done|].
  intros h T -> HT. rewrite E in Hhead. destruct A as [|a A].
  - simpl in EL. simplify_eq. rewrite pendings_all in HT by done. simpl in Hgt. lia.
  - simpl in EL. simplify_eq. apply (Hhead a (A ++ B)); [done|].
    revert HT. by rewrite !pendings_app, pendings_cons_false.
Qed.

(** ** Properties *)

Inductive request : Type :=
| Check (now : Z) (key : Key)
| Finish (now : Z) (key : Key) (res : Transfer)
| Cancel (key : Key).

(** The answers to a run of requests; it ends early when a Commit does not
    return. *)
Fixpoint serve (reqs : list request) (s : IdempotencyStore) : list (result (Transfer * bool) error) * bool :=
  match reqs with
  | [] => ([], true)
  | Check now key :: reqs =>
      let '(s, r) := CheckAndReserve now key s in
      let '(rs, b) := serve reqs s in (r :: rs, b)
  | Finish now key res :: reqs =>
      match Commit now key res s with Some s => serve reqs s | None => ([], false) end
  | Cancel key :: reqs => serve reqs (Rollback key s)
  end.
Fixpoint spec_serve (maxSize ttl : Z) (reqs : list request) (L : list slot)
    : list (result (Transfer * bool) error) * bool :=
  match reqs with
  | [] => ([], true)
  | Check now key :: reqs =>
      let '(L, r) := spec_check ttl now key L in
      let '(rs, b) := spec_serve maxSize ttl reqs L in (r :: rs, b)
  | Finish now key res :: reqs =>
      match spec_commit maxSize ttl now key res L with
      | Some L => spec_serve maxSize ttl reqs L
      | None => ([], false)
      end
  | Cancel key :: reqs => spec_serve maxSize ttl reqs (spec_rollback key L)
  end.

Lemma serve_ok reqs : forall s l, rep s l ->
  serve reqs s = spec_serve (st_maxSize s) (st_ttl s) reqs (view s l).
Proof.
  induction reqs as [|[now key|now key res|key] reqs IH]; intros s l Hr; [done|..]; cbn [serve spec_serve].
  - pose proof (check_ok now key s l Hr) as H. destruct (CheckAndReserve now key s) as [s' r].
    destruct (spec_check _ _ _ _) as [L r']. destruct H as [(l' & Hr' & <- & <- & <-) <-]. by rewrite (IH s' l' Hr').
  - pose proof (commit_ok now key res s l Hr) as H. destruct (spec_commit _ _ _ _ _ _) as [L|].
    + destruct H as (s' & -> & l' & Hr' & <- & <- & <-). by apply IH.
    + by rewrite H.
  - destruct (rollback_ok key s l Hr) as (l' & Hr' & <- & <- & <-). by apply IH.
Qed.

Lemma new_rep maxSize ttl : rep (NewIdempotencyStore maxSize ttl) [].
Proof.
  constructor; try done; [constructor| |].
  - intros a. cbn. rewrite lookup_empty. by intros [].
  - intros k a. cbn. rewrite lookup_empty. split; [done|]. by intros [?%not_elem_of_nil _].
Qed.

(** C30. The store is a list.  The hash map of doubly linked heap entries answers
    every sequence of reservations, commits and rollbacks as the plain list of
    entries does: same replies, same conflicts, and it fails to return from a
    Commit exactly when the list does. *)
Theorem idempotency_store_refines maxSize ttl reqs : 0 < maxSize -> 0 < ttl ->
  serve reqs (NewIdempotencyStore maxSize ttl) = spec_serve maxSize ttl reqs [].
Proof.
  intros Hm Ht. rewrite (serve_ok reqs _ [] (new_rep maxSize ttl)). cbn.
  by rewrite !(proj2 (Z.leb_gt _ _)) by done.
Qed.

(** The keys reserved and not yet settled, [key] apart. *)
Definition in_flight (now : Z) (key : Key) (s : IdempotencyStore) (l : list nat) : Z :=
  Z.of_nat (length (pendings (drop_key key (evict now (view s l))))).

Lemma commit_found s l now key res : rep s l -> in_flight now key s l < st_maxSize s ->
  exists s' l', Commit now key res s = Some s' /\ rep s' l'
    /\ st_maxSize s' = st_maxSize s /\ st_ttl s' = st_ttl s /\ st_size s' <= st_maxSize s'
    /\ pendings (view s' l') = pendings (drop_key key (evict now (view s l)))
    /\ forall now', now' < now + st_ttl s -> CheckAndReserve now' key s' = (s', Ok (res, true)).
Proof.
  intros Hr Hfl. pose proof (commit_ok now key res s l Hr) as H.
  unfold spec_commit, spec_commit_entry in H.
  set (T := drop_key key (evict now (view s l))) in *.
  set (x := mkSlot key res false (now + st_ttl s)) in *.
  change (in_flight now key s l) with (Z.of_nat (length (pendings T))) in Hfl.
  assert (Hp : pendings (x :: T) = pendings T) by (by apply pendings_cons_false).
  destruct (shrink_returns (length (x :: T)) (st_maxSize s) (x :: T)) as (L' & E & Hl & Hpe & Hh);
    [rewrite Hp; lia|lia|].
  rewrite E in H. destruct H as (s' & -> & l' & Hr' & Hv' & Hm' & Ht').
  exists s', l'. split; [done|]. split; [done|]. split; [done|]. split; [done|].
  rewrite (rp_size _ _ Hr'), Hm', <- (view_length s'), Hv'. split; [done|]. split; [by rewrite Hpe|]. intros now' Hnow.
  destruct (Hh x T eq_refl ltac:(lia)) as [T' ->].
  destruct l' as [|a l']; [done|]. cbn [view fmap list_fmap] in Hv'.
  pose proof (f_equal (fun L => default x (head L)) Hv') as Hs. cbn in Hs.
  assert (Hk : ie_key (node s' a) = key) by exact (f_equal sl_key Hs).
  assert (Hent : st_entries s' !! key = Some a).
  { apply (rp_entries _ _ Hr'). split; [by left|done]. }
  unfold CheckAndReserve. rewrite Hent. pose proof (f_equal sl_pending Hs) as H1.
  pose proof (f_equal sl_expires Hs) as H2. pose proof (f_equal sl_transfer Hs) as H3. cbn in H1, H2, H3.
  rewrite H1, H2, H3. by rewrite (proj2 (Z.ltb_lt _ _)) by done.
Qed.

(** A committed result is found again.  While fewer other reservations are
    in flight than the store may hold, Commit returns, keeps the store within
    its size, and until the deadline a repeated request gets the original
    transfer. *)
Theorem committed_result_is_replayed s l now key res now' : rep s l ->
  in_flight now key s l < st_maxSize s -> now' < now + st_ttl s ->
  exists s', Commit now key res s = Some s'
    /\ st_size s' <= st_maxSize s'
    /\ CheckAndReserve now' key s' = (s', Ok (res, true)).
Proof.
  intros Hr Hfl Hnow. destruct (commit_found s l now key res Hr Hfl) as (s' & l' & E & _ & _ & _ & Hl & _ & Hf).
  exists s'. split_and!; [done|done|by apply Hf].
Qed.

(** C40. Commit can hang.  It returns exactly when at most [maxSize] other
    reservations are in flight: with more, the eviction loop finds only pending
    entries, removes nothing and never ends - under the store's lock. *)
Theorem commit_returns_iff s l now key res : rep s l ->
  is_Some (Commit now key res s) <-> in_flight now key s l <= st_maxSize s.
Proof.
  intros Hr. pose proof (commit_ok now key res s l Hr) as H. unfold spec_commit, spec_commit_entry in H.
  unfold in_flight. set (T := drop_key key (evict now (view s l))) in *.
  set (x := mkSlot key res false (now + st_ttl s)) in *.
  assert (Hp : pendings (x :: T) = pendings T) by (by apply pendings_cons_false).
  destruct (Z.le_gt_cases (Z.of_nat (length (pendings T))) (st_maxSize s)) as [Hle|Hgt].
  - destruct (shrink_returns (length (x :: T)) (st_maxSize s) (x :: T)) as (L' & E & _);
      [by rewrite Hp|lia|]. rewrite E in H. destruct H as (s' & -> & _). split; [done|]. by eexists.
  - rewrite shrink_diverges in H by (rewrite Hp; lia). rewrite H. split; [by intros []|lia].
Qed.

(** Three reservations in a store of size one. *)
Definition key_of (n : Z) : Key := be_bytes 32 n.
Definition crowded : IdempotencyStore :=
  (CheckAndReserve 12 (key_of 3) (CheckAndReserve 11 (key_of 2)
    (CheckAndReserve 10 (key_of 1) (NewIdempotencyStore 1 1000)).1).1).1.

Lemma reserve_holds now key s maxSize ttl L : holds s maxSize ttl L ->
  holds (CheckAndReserve now key s).1 maxSize ttl (spec_check ttl now key L).1.
Proof.
  intros (l & Hr & <- & <- & <-). pose proof (check_ok now key s l Hr) as H.
  destruct (CheckAndReserve now key s) as [s' r]. destruct (spec_check _ _ _ _) as [L r']. apply H.
Qed.

Lemma crowded_holds : holds crowded 1 1000
  [mkSlot (key_of 3) zeroTransfer true 1012; mkSlot (key_of 2) zeroTransfer true 1011;
   mkSlot (key_of 1) zeroTransfer true 1010].
Proof.
  assert (H : holds (NewIdempotencyStore 1 1000) 1 1000 []) by (exists []; split_and!; [apply new_rep|done..]).
  apply (reserve_holds 10 (key_of 1)), (reserve_holds 11 (key_of 2)), (reserve_holds 12 (key_of 3)) in H.
  exact H.
Qed.

Lemma idempotency_store_refines_witness :
  serve [Check 1 (key_of 1); Check 2 (key_of 1); Finish 3 (key_of 1) zeroTransfer; Check 4 (key_of 1)]
    (NewIdempotencyStore 1 1000)
  = ([Ok (zeroTransfer, false); Err (ErrIdempotencyConflict (key_of 1)); Ok (zeroTransfer, true)], true).
Proof. rewrite (idempotency_store_refines 1 1000) by lia. vm_compute. reflexivity. Defined.

Lemma committed_result_is_replayed_witness :
  exists s', Commit 5 (key_of 1) zeroTransfer (NewIdempotencyStore 1 1000) = Some s'
    /\ st_size s' <= st_maxSize s'
    /\ CheckAndReserve 900 (key_of 1) s' = (s', Ok (zeroTransfer, true)).
Proof.
  apply (committed_result_is_replayed _ [] 5 (key_of 1) zeroTransfer 900 (new_rep 1 1000)); vm_compute; reflexivity.
Defined.

Lemma commit_returns_iff_witness : ~ is_Some (Commit 13 (key_of 1) zeroTransfer crowded).
Proof.
  destruct crowded_holds as (l & Hr & Hv & Hm & _).
  rewrite (commit_returns_iff crowded l 13 (key_of 1) zeroTransfer Hr).
  unfold in_flight. rewrite Hv, Hm. vm_compute. intros H. by apply H.
Defined.
