(* ===== verification/Engine.v ===== *)
(** * The engine (internal/engine/loop.go, ledger.go)

    The event loop is one goroutine: each batch of transfers and each batch of
    account creations runs to its end before the next.  The clock reading is an
    argument.  File operations succeed ([Wal]), so of the two failures of the
    log only that of AppendBatch remains.  Channels, the batcher and the pools
    are left out: a handler gets its events as a list and returns the
    acknowledgements it sends. *)

From S2P Require Import Prelude Core Uint128 Codec Accounts Transfers Record Wal Recovery Idempotency.

(** ** The event loop *)

Record Engine := mkEngine {
  g_accounts : AccountManager;
  g_wal : WAL;
  g_currentLSN : Z;
  g_clock : Z }.

Definition NewEventLoop (a : AccountManager) (w : WAL) : Engine := mkEngine a w (CurrentLSN w) 0.

Record TransferAck := mkAck { ack_Transfer : Transfer; ack_Err : option error }.

(** The records of the accepted events. *)
Fixpoint makeWALRecords (events : list Transfer) (outcomes : list (option error)) : list Record :=
  match events, outcomes with
  | t :: events, None :: outcomes =>
      mkRecord 0 RecordTypeTransfer (AppendTransferPayload [] t) :: makeWALRecords events outcomes
  | _ :: events, Some _ :: outcomes => makeWALRecords events outcomes
  | _, _ => []
  end.

Definition processBatch (wall : Z) (events : list Transfer) (l : Engine) : Engine * list TransferAck :=
  let now := if wall <=? g_clock l then g_clock l + 1 else wall in
  let accounts := SetClock now (g_accounts l) in
  let accounts := CloseExpired accounts in
  let events := set_Timestamp now <$> events in
  let outcomes := ValidateBatch accounts events in
  let records := makeWALRecords events outcomes in
  let logged :=
    match records with
    | [] => (g_wal l, g_currentLSN l, None)
    | _ => match AppendBatch records (g_wal l) with
           | (w, Err err) => (w, g_currentLSN l, Some err)
           | (w, Ok _) => let w := Sync w in (w, CurrentLSN w, None)
           end
    end in
  match logged with
  | (w, lsn, Some err) =>
      (mkEngine accounts w lsn now, (fun _ => mkAck zeroTransfer (Some err)) <$> events)
  | (w, lsn, None) =>
      let '(outcomes, accounts) := ApplyBatch events outcomes accounts in
      (mkEngine accounts w lsn now, zip_with mkAck events outcomes)
  end.

(** ** Account creation *)

(** The first loop of processAccountCreate: the refused accounts' results, and
    the records of the others. *)
Definition refusal (m : AccountManager) (a : Account) : option error :=
  match ValidateAccount a with
  | Err err => Some err
  | Ok _ => match Get m (a_ID a) with
            | Ok _ => Some (ErrDuplicateAccountID (a_ID a))
            | Err _ => None
            end
  end.
Definition account_record (a : Account) : Record := mkRecord 0 RecordTypeAccount (AppendAccountPayload [] a).
Fixpoint account_records (m : AccountManager) (accounts : list Account) : list Record :=
  match accounts with
  | [] => []
  | a :: accounts =>
      match refusal m a with
      | Some _ => account_records m accounts
      | None => account_record a :: account_records m accounts
      end
  end.

(** The last loop: creates the accounts that were logged; [m0] is the manager
    the first loop saw. *)
Fixpoint create_logged (m0 : AccountManager) (accounts : list Account) (m : AccountManager)
    : list (option error) * AccountManager :=
  match accounts with
  | [] => ([], m)
  | a :: accounts =>
      match refusal m0 a with
      | Some err => let '(rs, m) := create_logged m0 accounts m in (Some err :: rs, m)
      | None =>
          let '(m, r) := Create a m in
          let '(rs, m) := create_logged m0 accounts m in
          (match r with Ok _ => None | Err err => Some err end :: rs, m)
      end
  end.

Definition processAccountCreate (accounts : list Account) (l : Engine) : Engine * list (option error) :=
  let m := g_accounts l in
  match account_records m accounts with
  | [] => (l, refusal m <$> accounts)
  | recs =>
      match AppendBatch recs (g_wal l) with
      | (w, Err err) =>
          (mkEngine m w (g_currentLSN l) (g_clock l),
           (fun a => match refusal m a with Some e => Some e | None => Some err end) <$> accounts)
      | (w, Ok _) =>
          let w := Sync w in
          let '(rs, m) := create_logged m accounts m in
          (mkEngine m w (CurrentLSN w) (g_clock l), rs)
      end
  end.

(** A snapshot view: the reply to a SnapshotRequest. *)
Definition snapshot_view (l : Engine) : list Account * list Transfer * Z :=
  (Snapshot (g_accounts l), PendingTransfers (g_accounts l), g_currentLSN l).

(** The replies to reads; a missing account reads as the zero account. *)
Definition handleRead (id : ID) (l : Engine) : Account * option error :=
  match Get (g_accounts l) id with
  | Ok i => (acc_at (g_accounts l) i, None)
  | Err err => (zeroAccount, Some err)
  end.
Definition handleReadTransfer (id : ID) (l : Engine) : option Transfer := GetTransfer (g_accounts l) id.
Definition handleReadAccountTransfers (accountID afterID : ID) (limit : Z) (l : Engine) : list Transfer :=
  AccountTransfers (g_accounts l) accountID afterID limit.

(** ** Recovery (ledger.go) *)

Definition no_key (t : Transfer) : bool := bool_decide (t_IdempotencyKey t = zeros 32).

Definition replay_account (a : Account) (m : AccountManager) : AccountManager * result unit error :=
  match Create a m with
  | (m, Err (ErrDuplicateAccountID _)) => (m, Ok tt)
  | r => r
  end.

Definition replay_transfer (t : Transfer) (m : AccountManager) : AccountManager * result unit error :=
  let m := if Clock m <? t_Timestamp t then SetClock (t_Timestamp t) m else m in
  let m := SetClock (Clock m) m in
  let m := CloseExpired m in
  ApplyTransferState t m.

(** The handler of RecoverFromSnapshot over the accounts and the idempotency
    store, read at [now].  A Commit that does not return has no result: it is
    given an error here, and [Commit] in [IdempotencyProps] says when it
    returns. *)
Definition replay_record (now : Z) (r : Record) : M (AccountManager * IdempotencyStore) error unit :=
  fun '(m, ids) =>
    if r_Type r =? RecordTypeAccount then
      match DecodeAccountPayload (r_Payload r) with
      | Err err => ((m, ids), Err err)
      | Ok a => let '(m, res) := replay_account a m in ((m, ids), res)
      end
    else if r_Type r =? RecordTypeTransfer then
      match DecodeTransferPayload (r_Payload r) with
      | Err err => ((m, ids), Err err)
      | Ok t =>
          match replay_transfer t m with
          | (m, Err err) => ((m, ids), Err err)
          | (m, Ok _) =>
              if no_key t then ((m, ids), Ok tt)
              else match Commit now (t_IdempotencyKey t) t ids with
                   | Some ids => ((m, ids), Ok tt)
                   | None => ((m, ids), Err ErrIO)
                   end
          end
      end
    else ((m, ids), Ok tt).

Definition RecoverFromSnapshot (now fromLSN : Z) (w : WAL) (s : AccountManager * IdempotencyStore)
    : WAL * (AccountManager * IdempotencyStore) * result unit error :=
  RecoverFromLSN fromLSN (replay_record now) w s.

(** ** Construction *)

(** What the configuration and the snapshot directory supply: the accounts a
    new log starts with, the store's limits, and the latest valid snapshot. *)
Record Config := mkConfig {
  cfg_InitialAccounts : list Account;
  cfg_IdempotencyMaxSize : Z;
  cfg_IdempotencyTTL : Z;
  cfg_snapshot : option (list Account * list Transfer * Z) }.

Fixpoint validate_accounts (accounts : list Account) : result unit error :=
  match accounts with
  | [] => Ok tt
  | a :: accounts => _ <-? ValidateAccount a ;; validate_accounts accounts
  end.

(** The initial accounts go to the log when its LSN is 0. *)
Definition log_initial (accounts : list Account) (w : WAL) : WAL * result unit error :=
  if (CurrentLSN w =? 0) && negb (length accounts =? 0)%nat then
    match validate_accounts accounts with
    | Err err => (w, Err err)
    | Ok _ =>
        let recs := (fun a => mkRecord 0 RecordTypeAccount (EncodeAccountPayload a)) <$> accounts in
        match AppendBatch recs w with
        | (w, Err err) => (w, Err err)
        | (w, Ok _) => (Sync w, Ok tt)
        end
    end
  else (w, Ok tt).

(** [_ = accounts.Create(a)]. *)
Definition restore_accounts (accounts : list Account) (m : AccountManager) : AccountManager :=
  foldl (fun m a => (Create a m).1) m accounts.

Fixpoint restore_holds (pendings : list Transfer) (m : AccountManager) : AccountManager * result unit error :=
  match pendings with
  | [] => (m, Ok tt)
  | p :: pendings =>
      match RestorePending p m with
      | (m, Err err) => (m, Err err)
      | (m, Ok _) =>
          restore_holds pendings (if Clock m <? t_Timestamp p then SetClock (t_Timestamp p) m else m)
      end
  end.

Definition restore_snapshot (snap : option (list Account * list Transfer * Z)) (m : AccountManager)
    : AccountManager * result Z error :=
  match snap with
  | None => (m, Ok 0)
  | Some (accounts, pendings, lsn) =>
      match restore_holds pendings (restore_accounts accounts m) with
      | (m, Err err) => (m, Err err)
      | (m, Ok _) => (m, Ok lsn)
      end
  end.

Definition NewLedger (now : Z) (cfg : Config) (w : WAL) : result (Engine * IdempotencyStore) error :=
  match log_initial (cfg_InitialAccounts cfg) w with
  | (w, Err err) => Err err
  | (w, Ok _) =>
      match restore_snapshot (cfg_snapshot cfg) NewAccountManager with
      | (_, Err err) => Err err
      | (m, Ok snapshotLSN) =>
          let ids := NewIdempotencyStore (cfg_IdempotencyMaxSize cfg) (cfg_IdempotencyTTL cfg) in
          match RecoverFromSnapshot now snapshotLSN w (m, ids) with
          | (_, _, Err err) => Err err
          | (w, (m, ids), Ok _) =>
              let w := if 0 <? snapshotLSN then AdvanceLSNTo snapshotLSN w else w in
              Ok (NewEventLoop m w, ids)
          end
      end
  end.
