(* ===== verification/EngineRefine.v ===== *)
(** * Replay against the live engine

    A replayed record set the clock and closed the expired holds exactly as the
    live loop did before the batch; the lemmas here relate the ledger of the
    replay to the live one. *)

From S2P Require Import Prelude Core Uint128 Codec Balance Expiry Accounts LedgerSpec AccountsRefine AccountsProps.
From S2P Require Import Transfers TransfersRefine TransfersProps Record Wal Recovery WalProps RecoveryProps.
From S2P Require Import Idempotency IdempotencyProps Engine.

(** ** Expiry at a clock *)

Definition closed (c : Z) (L : Ledger) : Ledger := spec_close_expired (spec_set_clock c L).

Lemma overdue_mono c0 c t : c0 <= c -> overdue c0 t -> overdue c t.
Proof. unfold overdue. destruct (deadline t); [lia|done]. Qed.

Lemma closed_inv c L : inv L -> inv (closed c L).
Proof. intros H. apply inv_close_expired. by apply inv_set_clock. Qed.

Lemma closed_account c L id : l_accounts (closed c L) !! id
  = release_all (filter (fun kv => overdue c kv.2) (l_holds L)) id <$> l_accounts L !! id.
Proof. cbn. rewrite map_lookup_imap. by destruct (l_accounts L !! id). Qed.
Lemma closed_hold c L id : l_holds (closed c L) !! id
  = (l_holds L !! id) ≫= (fun h => if decide (overdue c h) then None else Some h).
Proof.
  cbn. rewrite map_lookup_filter. destruct (l_holds L !! id) as [h|]; [|done]. cbn.
  destruct (decide (overdue c h)); [by rewrite option_guard_False by (intros H; by apply H)|].
  by rewrite option_guard_True.
Qed.

Lemma closed_recorded c L : holds_recorded L -> holds_recorded (closed c L).
Proof.
  intros H id h. rewrite closed_hold. destruct (l_holds L !! id) as [h'|] eqn:E; [|done]. cbn.
  case_decide; [done|]. intros _. by apply (H id h').
Qed.

(** Closing twice is closing at the later clock. *)
Lemma closed_closed c0 c L : inv L -> c0 <= c -> closed c (closed c0 L) = closed c L.
Proof.
  intros HI Hc. pose proof (closed_inv c _ (closed_inv c0 _ HI)) as H2. pose proof (closed_inv c _ HI) as H1.
  apply ledger_eq; try done.
  - apply map_eq. intros id. rewrite !closed_account. destruct (l_accounts L !! id) as [a|] eqn:Ea; [|done].
    cbn [fmap option_fmap option_map]. f_equal.
    set (X0 := filter (fun kv => overdue c0 kv.2) (l_holds L)).
    set (X := filter (fun kv => overdue c kv.2) (l_holds L)).
    set (X2 := filter (fun kv => overdue c kv.2) (l_holds (closed c0 L))).
    assert (Hsum : forall f : Transfer -> Z, msum f X = msum f X0 + msum f X2).
    { intros f. rewrite (msum_filter f (fun kv : ID * Transfer => overdue c0 kv.2) X). f_equal; f_equal.
      - apply map_eq. intros k. unfold X, X0. apply option_eq. intros h.
        rewrite !map_lookup_filter_Some. cbn. naive_solver eauto using overdue_mono.
      - apply map_eq. intros k. unfold X, X2. apply option_eq. intros h.
        cbn [closed spec_close_expired spec_set_clock l_holds l_clock].
        rewrite !map_lookup_filter_Some. cbn. tauto. }
    destruct (release_all_vals X2 id (release_all X0 id a)) as (S1 & P1 & C1 & D1 & K1).
    destruct (release_all_vals X0 id a) as (S0 & P0 & C0 & D0 & K0).
    destruct (release_all_vals X id a) as (S2 & P2 & C2 & D2 & K2).
    pose proof (Hsum (debit_of id)) as Hd. pose proof (Hsum (credit_of id)) as Hk.
    unfold held_debits, held_credits in *.
    apply account_eq; try lia.
    + destruct S0 as (? & ? & ? & ? & ? & ?), S1 as (? & ? & ? & ? & ? & ?), S2 as (? & ? & ? & ? & ? & ?).
      split_and!; congruence.
    + apply (inv_account _ H2 id). by rewrite !closed_account, Ea.
    + apply (inv_account _ H1 id). by rewrite closed_account, Ea.
  - apply map_eq. intros id. rewrite !closed_hold. destruct (l_holds L !! id) as [h|]; [|done]. cbn.
    destruct (decide (overdue c0 h)) as [H0|H0]; cbn; [|done].
    rewrite decide_True; [done|]. by eapply overdue_mono.
Qed.

(** A new account has no holds to release. *)
Lemma closed_create c a L : inv L -> amounts_wf a -> l_accounts L !! a_ID a = None ->
  closed c (spec_create a L) = spec_create a (closed c L).
Proof.
  intros HI Ha Ea. pose proof (closed_inv c _ (inv_create a L HI Ha Ea)) as H1.
  assert (Eb : l_accounts (closed c L) !! a_ID a = None) by (by rewrite closed_account, Ea).
  pose proof (inv_create a _ (closed_inv c _ HI) Ha Eb) as H2.
  apply ledger_eq; try done. apply map_eq. intros id. rewrite closed_account. cbn [spec_create l_accounts l_holds].
  destruct (decide (a_ID a = id)) as [<-|Hne].
  - rewrite !lookup_insert_eq. cbn. f_equal. set (X := filter _ _).
    destruct (release_all_vals X (a_ID a) a) as (S & P & C & D & K).
    destruct (held_absent _ _ HI Ea) as [Z1 Z2].
    assert (HX : forall (f : Transfer -> Z), (forall k h, l_holds L !! k = Some h -> f h = 0) -> msum f X = 0).
    { intros f Hf. transitivity (msum (fun _ => 0) X).
      - apply msum_ext. intros k h [E _]%map_lookup_filter_Some. by eapply Hf.
      - clear. induction X as [|k v X ? IH] using map_ind; [apply msum_empty|]. by rewrite msum_insert_new, IH. }
    unfold held_debits, held_credits in *.
    rewrite HX in D, K.
    2,3: intros k h E; destruct (inv_hold _ HI _ _ E) as [_ [_ _ _ (d & c' & Ed & Ec & _)]].
    2: unfold credit_of; case_decide; congruence. 2: unfold debit_of; case_decide; congruence.
    apply account_eq; try done; try lia.
    apply (inv_account _ H1 (a_ID a)). rewrite closed_account. cbn. by rewrite lookup_insert_eq.
  - rewrite !lookup_insert_ne by done. by rewrite closed_account.
Qed.

(** ** No hold is overdue right after a batch *)

Definition none_overdue (c : Z) (L : Ledger) : Prop := forall id h, l_holds L !! id = Some h -> ~ overdue c h.

Lemma closed_none c L : none_overdue c (closed c L).
Proof.
  intros id h. rewrite closed_hold. destruct (l_holds L !! id) as [h'|]; [|done]. cbn.
  case_decide; [done|]. by intros [= <-].
Qed.
Lemma closed_id c L : inv L -> l_clock L = c -> none_overdue c L -> closed c L = L.
Proof.
  intros HI <- Hn. assert (E : spec_set_clock (l_clock L) L = L) by (by destruct L).
  unfold closed. rewrite E. by apply close_expired_none.
Qed.

(** A deadline after the batch clock: no int64 overflow of [Timestamp + Timeout]. *)
Definition future (c : Z) (t : Transfer) : Prop := t_Timestamp t = c /\ t_Timeout t + c < 2 ^ 63.

Lemma future_not_overdue c t : wf_transfer t -> 0 <= c -> future c t -> ~ overdue c t.
Proof.
  intros Hw Hc [Ht Hf]. unfold overdue, deadline. destruct (Z.ltb_spec 0 (t_Timeout t)); [|tauto].
  rewrite (i64_small (t_Timeout t)) by (unfold is_i64; lia). rewrite i64_small by (unfold is_i64; lia). lia.
Qed.

Lemma apply_none_overdue x t c L : inv L -> wf_transfer t -> 0 <= c -> future c t -> none_overdue c L ->
  none_overdue c (spec_apply x t L).
Proof.
  intros HI Hw Hc Hf Hn id h. pose proof (future_not_overdue c t Hw Hc Hf) as Ht.
  unfold spec_apply. destruct (effect x t L) as [[[dr cr] p] q]. cbn [spec_record spec_move l_holds].
  unfold holds_after, settle. destruct (isPost t).
  - destruct (l_holds L !! t_ID t) as [h'|] eqn:Eh; [|apply Hn].
    destruct (amt h' =? x).
    + intros [_ ?]%lookup_delete_Some. by eapply Hn.
    + intros [[_ <-]|[_ ?]]%lookup_insert_Some; [|by eapply Hn].
      intros Ho. by apply (Hn _ _ Eh).
  - destruct (isVoid t); [intros [_ ?]%lookup_delete_Some; by eapply Hn|].
    destruct (isPending t); [|apply Hn].
    intros [[_ <-]|[_ ?]]%lookup_insert_Some; [done|by eapply Hn].
Qed.

Lemma apply_clock x t L : l_clock (spec_apply x t L) = l_clock L.
Proof. unfold spec_apply. by destruct (effect x t L) as [[[dr cr] p] q]. Qed.

(** ** Replaying transfers *)

Lemma replay_one m t x c : good m -> Clock m <= c -> t_Timestamp t = c ->
  wf_transfer t -> allowed x t (closed c (abs m)) -> effect_fits x t (closed c (abs m)) ->
  fresh_hold t (closed c (abs m)) ->
  exists m', replay_transfer t m = (m', Ok tt) /\ good m' /\ abs m' = spec_apply x t (closed c (abs m)).
Proof.
  intros Hg Hc Ht Hw Ha Hf Hfr. unfold replay_transfer.
  assert (Em : SetClock (Clock (if Clock m <? t_Timestamp t then SetClock (t_Timestamp t) m else m))
      (if Clock m <? t_Timestamp t then SetClock (t_Timestamp t) m else m) = SetClock c m).
  { rewrite Ht. destruct (Z.ltb_spec (Clock m) c); [done|].
    assert (Clock m = c) as -> by lia. done. }
  rewrite Em. destruct (SetClock_ok c m Hg) as [Hg1 A1].
  destruct (CloseExpired_loop_ok (length (m_expiry (SetClock c m))) (SetClock c m) Hg1 ltac:(lia)) as [Hg2 A2].
  change (CloseExpired_loop (length (m_expiry (SetClock c m))) (SetClock c m)) with (CloseExpired (SetClock c m)) in *.
  rewrite A1 in A2. fold (closed c (abs m)) in A2.
  set (m2 := CloseExpired (SetClock c m)) in *. clearbody m2.
  rewrite <- A2 in Ha, Hf, Hfr |- *.
  destruct (checkTransfer_total m2 t Hg2 Hw x Ha) as (y & Ey & Wy & <-).
  pose proof (apply_run m2 t Hg2 Hw Hfr) as R. rewrite Ey in R. destruct R as [Hyes _].
  destruct (Hyes Hf) as (m' & E & Hs & A). exists m'. split; [done|]. split; [|done].
  split; [done|]. rewrite A. apply inv_apply; try done. apply Hg2.
Qed.

Fixpoint replay_all (ts : list Transfer) (m : AccountManager) : AccountManager * result unit error :=
  match ts with
  | [] => (m, Ok tt)
  | t :: ts => match replay_transfer t m with
               | (m, Ok _) => replay_all ts m
               | (m, Err e) => (m, Err e)
               end
  end.

(** ** Ledgers that agree

    Replay rebuilds the live ledger: from an empty one exactly, from a snapshot
    only its accounts, holds and clock, since a snapshot does not hold the
    recorded transfers.  The lemmas on replay need of the relation between the
    live ledger and the replayed one only that it determines those three and
    that the operations keep it. *)

Class Agreement (R : Ledger -> Ledger -> Prop) := {
  agr_state : forall L L', R L L' ->
    l_accounts L = l_accounts L' /\ l_holds L = l_holds L' /\ l_clock L = l_clock L';
  agr_closed : forall c L L', R L L' -> R (closed c L) (closed c L');
  agr_apply : forall x t L L', R L L' -> R (spec_apply x t L) (spec_apply x t L');
  agr_create : forall a L L', R L L' -> R (spec_create a L) (spec_create a L') }.

#[export] Instance eq_agreement : Agreement eq.
Proof. constructor; intros; subst; auto. Qed.

Definition same_state (L L' : Ledger) : Prop :=
  l_accounts L = l_accounts L' /\ l_holds L = l_holds L' /\ l_clock L = l_clock L'.

#[export] Instance same_state_agreement : Agreement same_state.
Proof.
  constructor.
  - done.
  - intros c [A H k T Y] [A' H' k' T' Y'] (E1 & E2 & _). cbn in E1, E2. subst. done.
  - intros x t [A H k T Y] [A' H' k' T' Y'] (E1 & E2 & E3). cbn in E1, E2, E3. subst.
    unfold spec_apply, effect, hold_of. cbn [l_holds]. by repeat case_match.
  - intros a [A H k T Y] [A' H' k' T' Y'] (E1 & E2 & E3). cbn in E1, E2, E3. subst. done.
Qed.

Lemma agr_allowed `{Agreement R} x t L L' : R L L' -> allowed x t L -> allowed x t L'.
Proof.
  intros (E1 & E2 & _)%agr_state. unfold allowed, settlement_allowed, transfer_allowed. by rewrite E1, E2.
Qed.
Lemma agr_fits `{Agreement R} x t L L' : R L L' -> effect_fits x t L -> effect_fits x t L'.
Proof. intros (E1 & E2 & _)%agr_state. unfold effect_fits, effect, hold_of. by rewrite E1, E2. Qed.

(** The transfers of a batch, replayed one by one, do what the batch did. *)
Lemma replay_batch `{Agreement R} ts : forall m c L0 L, good m -> 0 <= c -> Clock m <= c -> ts <> [] ->
  Forall (future c) ts -> R L0 (closed c (abs m)) -> inv L0 -> holds_recorded L0 -> spec_runs L0 ts L ->
  exists m', replay_all ts m = (m', Ok tt) /\ good m' /\ R L (abs m').
Proof.
  induction ts as [|t ts IH]; intros m c L0 L Hg Hc Hcl Hne Hfut HR HI Hr Hrun; [done|]. clear Hne.
  apply Forall_cons in Hfut as [Hft Hfut]. inversion Hrun as [|x t' ts' L1 L2 Hw Ha Hf Hn Hrun']; subst.
  pose proof (closed_inv c _ (proj2 Hg)) as HIc. pose proof (agr_allowed _ _ _ _ HR Ha) as Ha'.
  assert (Hfr : fresh_hold t L0) by (apply fresh_of_new; [by destruct Ha|done|done]).
  assert (Hfr' : fresh_hold t (closed c (abs m))).
  { destruct (agr_state _ _ HR) as (_ & E & _). unfold fresh_hold in *. by rewrite <- E. }
  destruct (replay_one m t x c Hg Hcl (proj1 Hft) Hw Ha' (agr_fits _ _ _ _ HR Hf) Hfr') as (m1 & E1 & Hg1 & A1).
  cbn [replay_all]. rewrite E1. pose proof (agr_apply x t _ _ HR) as HR1. rewrite <- A1 in HR1.
  destruct (decide (ts = [])) as [->|Hne].
  { inversion Hrun'; subst. by exists m1. }
  assert (Hc1 : l_clock (abs m1) = c) by (by rewrite A1, apply_clock).
  assert (Hid : closed c (abs m1) = abs m1).
  { apply closed_id; [apply Hg1|done|]. rewrite A1. apply apply_none_overdue; try done. apply closed_none. }
  apply (IH m1 c (spec_apply x t L0) L Hg1 Hc); try done.
  - change (Clock m1) with (l_clock (abs m1)). lia.
  - by rewrite Hid.
  - by apply inv_apply.
  - by apply apply_recorded.
Qed.

(** ** The live batch *)

Lemma set_timestamp_wf now t : is_i64 now -> wf_transfer t -> wf_transfer (set_Timestamp now t).
Proof. intros H []. by constructor. Qed.

Lemma makeWALRecords_accepted events outs :
  makeWALRecords events outs
  = (fun t => mkRecord 0 RecordTypeTransfer (AppendTransferPayload [] t)) <$> accepted events outs.
Proof.
  revert outs. induction events as [|t events IH]; intros [|[e|] outs];
    cbn [makeWALRecords accepted fmap list_fmap]; [reflexivity..|apply IH|]. f_equal. apply IH.
Qed.

(** The state of the accounts in the middle of a batch, and its outcome. *)
Lemma batch_ok m now events : good m -> holds_recorded (abs m) -> is_i64 now -> Forall wf_transfer events ->
  let m1 := CloseExpired (SetClock now m) in
  let evs := set_Timestamp now <$> events in
  let outs := ValidateBatch m1 evs in
  good m1 /\ abs m1 = closed now (abs m)
  /\ exists m', ApplyBatch evs outs m1 = (outs, m') /\ good m' /\ holds_recorded (abs m')
     /\ spec_runs (closed now (abs m)) (accepted evs outs) (abs m') /\ Clock m' = now.
Proof.
  intros Hg Hr Hnow Hw m1 evs outs.
  destruct (SetClock_ok now m Hg) as [Hg1 A1].
  destruct (CloseExpired_loop_ok (length (m_expiry (SetClock now m))) (SetClock now m) Hg1 ltac:(lia)) as [Hg2 A2].
  change (CloseExpired_loop (length (m_expiry (SetClock now m))) (SetClock now m)) with m1 in *.
  rewrite A1 in A2. fold (closed now (abs m)) in A2. split; [done|]. split; [done|].
  assert (Hw1 : Forall wf_transfer evs).
  { apply Forall_fmap. eapply Forall_impl; [exact Hw|]. intros t Ht. by apply set_timestamp_wf. }
  assert (Hr1 : holds_recorded (abs m1)) by (rewrite A2; by apply closed_recorded).
  destruct (validate_decided m1 evs Hg2 Hr1 Hw1) as (L & S & Hd).
  pose proof (decided_runs m1 evs Hg2 Hr1 Hw1 _ _ _ _ Hd) as Hrun. rewrite take_ge in Hrun by lia.
  destruct (apply_accepted evs outs m1 L Hg2 Hr1 Hrun) as (m' & E & Hg' & A').
  exists m'. split; [done|]. split; [done|].
  destruct (runs_inv _ _ _ Hrun (proj2 Hg2) Hr1) as [_ Hr']. rewrite A'. split; [done|].
  rewrite <- A2. split; [done|]. change (Clock m') with (l_clock (abs m')). rewrite A'.
  assert (Hcl : forall L0 ts L', spec_runs L0 ts L' -> l_clock L' = l_clock L0).
  { induction 1 as [|x t ts L1 L2 _ _ _ _ _ IH]; [done|]. by rewrite IH, apply_clock. }
  by rewrite (Hcl _ _ _ Hrun), A2.
Qed.
