(* ===== verification/EngineProps.v ===== *)
(** * Properties of the engine *)

From S2P Require Import Prelude Core Uint128 Codec Balance Expiry Accounts LedgerSpec AccountsRefine AccountsProps.
From S2P Require Import Transfers TransfersRefine TransfersProps Record Wal Recovery WalProps RecoveryProps TruncateProps.
From S2P Require Import Idempotency IdempotencyProps Engine EngineRefine.

(** ** Runs *)

Inductive command : Type :=
| Transfers (wall : Z) (events : list Transfer)
| Accounts (accounts : list Account).

Definition step (c : command) (g : Engine) : Engine :=
  match c with
  | Transfers wall events => (processBatch wall events g).1
  | Accounts accounts => (processAccountCreate accounts g).1
  end.
Definition run (cs : list command) (g : Engine) : Engine := foldl (fun g c => step c g) g cs.
Definition fresh (size : Z) : Engine := NewEventLoop NewAccountManager (Open [] size).

(** Well-typed inputs, a batch of bounded bytes, and deadlines below 2^63 for
    batch clocks up to [C]. *)
Definition command_ok (C : Z) (c : command) : Prop :=
  match c with
  | Transfers _ events => Forall wf_transfer events /\ Forall (fun t => t_Timeout t + C < 2 ^ 63) events
      /\ 161 * Z.of_nat (length events) + 29 < 2 ^ 31
  | Accounts accounts => Forall wf_account accounts /\ 145 * Z.of_nat (length accounts) + 29 < 2 ^ 31
  end.

Lemma wf_amounts a : wf_account a -> amounts_wf a.
Proof. intros []. by split_and!. Qed.

(** ** Records *)

Lemma transfer_payload_length t : wf_transfer t -> length (AppendTransferPayload [] t) = 144%nat.
Proof. intros H. rewrite AppendTransferPayload_layout by done. by apply length_transfer_payload. Qed.
Lemma account_payload_length a : wf_account a -> length (AppendAccountPayload [] a) = 128%nat.
Proof. intros H. rewrite AppendAccountPayload_layout by done. by apply length_account_payload. Qed.

Definition transfer_record (t : Transfer) : Record := mkRecord 0 RecordTypeTransfer (AppendTransferPayload [] t).

Lemma transfer_record_shape t : wf_transfer t ->
  0 < r_Type (transfer_record t) < 4 /\ length (r_Payload (transfer_record t)) = 144%nat.
Proof. intros H. split; [done|]. by apply transfer_payload_length. Qed.
Lemma account_record_shape a : wf_account a ->
  0 < r_Type (account_record a) < 4 /\ length (r_Payload (account_record a)) = 128%nat.
Proof. intros H. split; [done|]. by apply account_payload_length. Qed.

Lemma records_client_batch {A} (f : A -> Record) (n : nat) size (l : list A) : l <> [] -> 161 <= size ->
  (n <= 144)%nat -> Forall (fun x => 0 < r_Type (f x) < 4 /\ length (r_Payload (f x)) = n) l ->
  (17 + Z.of_nat n) * Z.of_nat (length l) + 29 < 2 ^ 31 -> client_batch size (f <$> l).
Proof.
  intros Hne Hs Hn Hl Hb. constructor.
  - intros ?%fmap_nil_inv. done.
  - apply Forall_fmap. eapply Forall_impl; [exact Hl|]. intros x [Ht Hp]. cbn. unfold appendable. rewrite Hp. lia.
  - apply Forall_fmap. eapply Forall_impl; [exact Hl|]. intros x [Ht _]. unfold not_commit, RecordTypeBatchCommit. cbn. lia.
  - unfold batch_bytes. enough (lsum (fun r => 17 + Z.of_nat (length (r_Payload r))) (f <$> l)
      = (17 + Z.of_nat n) * Z.of_nat (length l)) by lia.
    clear Hne Hb. induction Hl as [|x l [_ Hp] _ IH]; [cbn; lia|]. cbn [fmap list_fmap lsum foldr length].
    unfold lsum in IH. rewrite IH, Hp. lia.
Qed.

(** Replay does not read the sequence number. *)
Lemma replay_number now b : forall lsn s,
  handle_all (replay_record now) (number lsn b) s = handle_all (replay_record now) b s.
Proof.
  induction b as [|r b IH]; intros lsn s; [done|]. cbn [number handle_all]. unfold sbind.
  assert (E : replay_record now (mkRecord (u64 (lsn + 1)) (r_Type r) (r_Payload r)) s = replay_record now r s) by done.
  rewrite E. destruct (replay_record now r s) as [s' [u|e]]; [apply IH|done].
Qed.

Lemma replay_delivered now bs : forall lsn s,
  handle_all (replay_record now) (delivered lsn bs) s = handle_all (replay_record now) (concat bs) s.
Proof.
  induction bs as [|b bs IH]; intros lsn s; [done|]. cbn [delivered concat]. rewrite !handle_all_app.
  unfold sbind. rewrite replay_number. destruct (handle_all _ b s) as [s' [u|e]]; [apply IH|done].
Qed.

(** ** The idempotency store during replay *)

Definition settled (ids : IdempotencyStore) : Prop :=
  exists l, rep ids l /\ pendings (view ids l) = [] /\ 0 < st_maxSize ids.

Lemma pendings_nil L : pendings L = [] <-> Forall (fun x => sl_pending x = false) L.
Proof.
  unfold pendings. induction L as [|x L IH]; [by split|]. rewrite Forall_cons, <- IH.
  destruct (sl_pending x) eqn:E.
  - rewrite filter_cons_True by done. split; [done|]. by intros [? _].
  - rewrite filter_cons_False by congruence. tauto.
Qed.

Lemma settled_commit now key t ids : settled ids -> exists ids', Commit now key t ids = Some ids' /\ settled ids'.
Proof.
  intros (l & Hr & Hp & Hm). pose proof (commit_ok now key t ids l Hr) as H. unfold spec_commit, spec_commit_entry in H.
  set (T := drop_key key (evict now (view ids l))) in *. set (x := mkSlot key t false (now + st_ttl ids)) in *.
  assert (HT : pendings (x :: T) = []).
  { apply pendings_nil. constructor; [done|].
    destruct (evict_prefix now (view ids l)) as (K & EK & _). rewrite EK in Hp.
    apply pendings_nil, Forall_app in Hp as [Hp _]. rewrite Forall_forall in Hp |- *.
    intros y [_ Hy]%list_elem_of_filter. by apply Hp. }
  destruct (shrink_returns (length (x :: T)) (st_maxSize ids) (x :: T)) as (L' & E & Hl & HpL & _);
    [rewrite HT; simpl; lia|lia|].
  rewrite E in H. destruct H as (ids' & E' & l' & Hr' & Hv' & Hm' & _). exists ids'. split; [done|].
  exists l'. rewrite Hv', HpL, Hm'. by split_and!.
Qed.

Lemma settled_new maxSize ttl : settled (NewIdempotencyStore maxSize ttl).
Proof.
  exists []. split; [apply new_rep|]. split; [done|]. cbn. destruct (Z.leb_spec maxSize 0); lia.
Qed.

(** ** Replay of the records of a batch *)

Lemma decode_transfer_record t : wf_transfer t -> DecodeTransferPayload (AppendTransferPayload [] t) = Ok t.
Proof. intros H. rewrite AppendTransferPayload_layout by done. by apply DecodeTransferPayload_fields. Qed.
Lemma decode_account_record a : wf_account a -> DecodeAccountPayload (AppendAccountPayload [] a) = Ok a.
Proof. intros H. rewrite AppendAccountPayload_layout by done. by apply DecodeAccountPayload_fields. Qed.

Lemma replay_transfers now ts : forall m m' ids, Forall wf_transfer ts -> settled ids ->
  replay_all ts m = (m', Ok tt) ->
  exists ids', handle_all (replay_record now) (transfer_record <$> ts) (m, ids) = ((m', ids'), Ok tt) /\ settled ids'.
Proof.
  induction ts as [|t ts IH]; intros m m' ids Hw Hids E.
  { cbn in E. injection E as <-. by exists ids. }
  apply Forall_cons in Hw as [Ht Hw]. cbn [replay_all] in E. cbn [fmap list_fmap handle_all]. unfold sbind.
  assert (Er : replay_record now (transfer_record t) (m, ids)
    = match replay_transfer t m with
      | (m1, Err err) => ((m1, ids), Err err)
      | (m1, Ok _) => if no_key t then ((m1, ids), Ok tt)
                      else match Commit now (t_IdempotencyKey t) t ids with
                           | Some ids1 => ((m1, ids1), Ok tt)
                           | None => ((m1, ids), Err ErrIO)
                           end
      end).
  { unfold replay_record, transfer_record. cbn [r_Type r_Payload]. rewrite decode_transfer_record by done. done. }
  rewrite Er. clear Er. destruct (replay_transfer t m) as [m1 [[]|e]]; [|done].
  destruct (no_key t); [by apply IH|].
  destruct (settled_commit now (t_IdempotencyKey t) t ids Hids) as (ids1 & -> & Hids1). by apply IH.
Qed.

(** ** The invariant of a run *)

Section Tracking.
Context {R : Ledger -> Ledger -> Prop} `{!Agreement R}.

(** The live manager and the replayed one agree at the live clock. *)
Definition related (c : Z) (m r : AccountManager) : Prop :=
  good m /\ good r /\ holds_recorded (abs m) /\ Clock m = c /\ Clock r <= c /\ R (abs m) (closed c (abs r)).

Lemma create_related c a m r : related c m r -> amounts_wf a ->
  exists r', replay_account a r = (r', Ok tt) /\ related c (Create a m).1 r'.
Proof using Agreement0.
  intros Hrel Ha. pose proof Hrel as (Hm & Hr & Hrec & Hcm & Hc & E).
  pose proof (Create_ok a m Hm Ha) as Cm. pose proof (Create_ok a r Hr Ha) as Cr. unfold replay_account.
  destruct (agr_state _ _ E) as (Ea & _ & _). rewrite Ea, closed_account in Cm.
  destruct (l_accounts (abs r) !! a_ID a) as [b|] eqn:Eb; cbn [fmap option_fmap option_map] in Cm.
  - rewrite Cr, Cm. by exists r.
  - destruct Cm as (m' & -> & Hm' & Am). destruct Cr as (r' & -> & Hr' & Ar). exists r'. split; [done|].
    cbn [fst]. split; [done|]. split; [done|]. split; [by rewrite Am|].
    split; [change (l_clock (abs m') = c); by rewrite Am|].
    split; [change (l_clock (abs r') <= c); by rewrite Ar|].
    rewrite Am, Ar, closed_create; try done; [|by apply Hr]. by apply agr_create.
Qed.

Lemma replay_accounts now accs : forall c m r ids, related c m r -> Forall wf_account accs ->
  exists r', handle_all (replay_record now) (account_record <$> accs) (r, ids) = ((r', ids), Ok tt)
    /\ related c (restore_accounts accs m) r'.
Proof using Agreement0.
  induction accs as [|a accs IH]; intros c m r ids Hrel Hw; [by exists r|].
  apply Forall_cons in Hw as [Ha Hw]. cbn [fmap list_fmap handle_all restore_accounts foldl]. unfold sbind.
  destruct (create_related c a m r Hrel (wf_amounts a Ha)) as (r1 & E1 & Hrel1).
  assert (Er : replay_record now (account_record a) (r, ids)
    = (let '(r1, res) := replay_account a r in ((r1, ids), res))).
  { unfold replay_record, account_record. cbn [r_Type r_Payload]. by rewrite decode_account_record. }
  rewrite Er, E1. by apply IH.
Qed.
End Tracking.
#[global] Arguments related : clear implicits.

Definition logged (m : AccountManager) (accs : list Account) : list Account :=
  filter (fun a => refusal m a = None) accs.

Lemma account_records_logged m accs : account_records m accs = account_record <$> logged m accs.
Proof.
  unfold logged. induction accs as [|a accs IH]; [done|]. cbn [account_records].
  destruct (refusal m a) eqn:E.
  - by rewrite filter_cons_False by congruence.
  - rewrite filter_cons_True by done. cbn [fmap list_fmap]. by f_equal.
Qed.
Lemma create_logged_ok m0 accs : forall m, (create_logged m0 accs m).2 = restore_accounts (logged m0 accs) m.
Proof.
  unfold logged. induction accs as [|a accs IH]; intros m; [done|]. cbn [create_logged].
  destruct (refusal m0 a) eqn:E.
  - rewrite filter_cons_False by congruence. rewrite <- IH. by destruct (create_logged m0 accs m).
  - rewrite filter_cons_True by done. cbn [restore_accounts foldl].
    destruct (Create a m) as [m1 r1]. cbn [fst]. unfold restore_accounts in IH. rewrite <- IH.
    by destruct (create_logged m0 accs m1).
Qed.

Lemma runs_none_overdue c L ts L' : spec_runs L ts L' -> 0 <= c -> inv L -> holds_recorded L ->
  Forall (future c) ts -> none_overdue c L -> none_overdue c L'.
Proof.
  intros Hrun Hc. induction Hrun as [|x t ts L L' Hw Ha Hf Hn _ IH]; intros HI Hr Hfut Hno; [done|].
  apply Forall_cons in Hfut as [Ht Hfut]. apply IH; [|by apply apply_recorded|done|by apply apply_none_overdue].
  apply inv_apply; try done. apply fresh_of_new; [by destruct Ha|done|done].
Qed.

Lemma runs_nil_inv L L' : spec_runs L [] L' -> L' = L.
Proof. by inversion 1. Qed.

Lemma accepted_Forall (P : Transfer -> Prop) events outs : Forall P events -> Forall P (accepted events outs).
Proof.
  intros H. revert outs. induction H as [|t events Ht _ IH]; intros [|[e|] outs]; cbn [accepted]; try constructor; auto.
Qed.
Lemma accepted_le events outs : (length (accepted events outs) <= length events)%nat.
Proof.
  revert outs. induction events as [|t events IH]; intros [|[e|] outs]; cbn [accepted length]; try lia;
    specialize (IH outs); lia.
Qed.

(** The shape of a batch a command appends. *)
Definition command_length (c : command) : nat :=
  match c with Transfers _ events => length events | Accounts accounts => length accounts end.
Definition from_command (b : list Record) (c : command) : Prop :=
  Forall (fun r => 0 < r_Type r < 4 /\ (length (r_Payload r) <= 144)%nat) b /\ (length b <= command_length c)%nat.

(** No record of a command is longer than the search bound of the tail reader. *)
Lemma commands_fit size cs bs : Forall (fun b => Exists (from_command b) cs) bs -> fits_peek size bs.
Proof.
  intros H. eapply Forall_impl; [exact H|]. intros b (c & _ & Hb & _)%Exists_exists. eapply Forall_impl; [exact Hb|].
  intros r [_ Hr]. right. unfold RecordHeaderSize, RecordCRCSize, peekResyncBound. lia.
Qed.

Lemma records_from_command {A} (f : A -> Record) (n : nat) (l : list A) c : (n <= 144)%nat ->
  Forall (fun x => 0 < r_Type (f x) < 4 /\ length (r_Payload (f x)) = n) l -> (length l <= command_length c)%nat ->
  from_command (f <$> l) c.
Proof.
  intros H144 Hl Hn. split; [|by rewrite length_fmap]. apply Forall_fmap. eapply Forall_impl; [exact Hl|].
  intros x [? Hx]. cbn. rewrite Hx. done.
Qed.

(** Since a log position [from], the log holds the batches [bs] after the
    records [pre] that recovery from [from] will skip, and replaying them from
    the manager [m0] gives one that agrees with the live one. *)
Record tracked (R : Ledger -> Ledger -> Prop) (m0 : AccountManager) (ids0 : IdempotencyStore) (from : Z)
    (pre : list Record) (size now : Z) (g : Engine) (bs : list (list Record)) : Prop := {
  tk_clock : 0 <= g_clock g;
  tk_batches : Forall (client_batch size) bs;
  tk_lsn : w_currentLSN (g_wal g) = lsn_after from bs;
  tk_size : w_segmentSize (g_wal g) = size;
  tk_view : g_currentLSN g = w_currentLSN (g_wal g);
  tk_synced : s_syncedOffset (w_current (g_wal g)) = s_writeOffset (w_current (g_wal g));
  tk_log : exists groups cur, holds_frames (g_wal g) groups cur /\ all_records groups cur = pre ++ log_of from bs;
  tk_replay : exists r ids, handle_all (replay_record now) (concat bs) (m0, ids0) = ((r, ids), Ok tt)
    /\ settled ids /\ related R (g_clock g) (g_accounts g) r }.

(** From an empty log and ledger, exactly. *)
Definition consistent (size now : Z) (ids0 : IdempotencyStore) (g : Engine) (bs : list (list Record)) : Prop :=
  tracked eq NewAccountManager ids0 0 [] size now g bs.

(** Appending and syncing one more batch. *)
Lemma log_batch R m0 ids0 from pre size now g bs b : tracked R m0 ids0 from pre size now g bs ->
  161 <= size -> client_batch size b ->
  exists w, AppendBatch b (g_wal g) = (w, Ok (w_currentLSN (g_wal g) + 1))
    /\ w_currentLSN (Sync w) = lsn_after from (bs ++ [b]) /\ w_segmentSize (Sync w) = size
    /\ exists groups cur, holds_frames (Sync w) groups cur
         /\ all_records groups cur = pre ++ log_of from (bs ++ [b]).
Proof.
  intros [_ Hbs Hl Hs Hv Hsy (gs & cur & Hh & Ha) _] Hsize Hb. rewrite <- Hs in Hb.
  assert (Hab : appendable_batch (g_wal g) b) by (apply client_appendable; [lia|done]).
  destruct (append_ok _ _ _ _ Hh Hab) as (w & gs' & cur' & E & Hh' & Ha' & El & Es & _).
  exists w. split; [done|]. split.
  { change (w_currentLSN (Sync w)) with (w_currentLSN w). rewrite El, Hl, lsn_after_app.
    unfold lsn_after. cbn. unfold batch_size. lia. }
  split; [change (w_segmentSize (Sync w)) with (w_segmentSize w); congruence|].
  exists gs', cur'. split; [by apply sync_holds|]. rewrite Ha', Ha, Hl, log_of_app. cbn [log_of].
  by rewrite app_nil_r, app_assoc.
Qed.

Definition batch_clock (wall : Z) (g : Engine) : Z := if wall <=? g_clock g then g_clock g + 1 else wall.

Lemma processBatch_clock wall events g : g_clock (processBatch wall events g).1 = batch_clock wall g.
Proof.
  unfold processBatch. fold (batch_clock wall g). set (l := match makeWALRecords _ _ with [] => _ | _ => _ end).
  destruct l as [[w lsn] [err|]]; [done|]. by destruct (ApplyBatch _ _ _).
Qed.
Lemma batch_clock_gt wall g : g_clock g < batch_clock wall g.
Proof. unfold batch_clock. destruct (Z.leb_spec wall (g_clock g)); lia. Qed.

Lemma clock_mono c g : g_clock g <= g_clock (step c g).
Proof.
  destruct c as [wall events|accs]; cbn [step].
  - rewrite processBatch_clock. pose proof (batch_clock_gt wall g). lia.
  - unfold processAccountCreate. destruct (account_records _ _); [done|].
    destruct (AppendBatch _ _) as [w [z|e]]; [|done]. by destruct (create_logged _ _ _).
Qed.
Lemma run_clock_mono cs : forall g, g_clock g <= g_clock (run cs g).
Proof.
  induction cs as [|c cs IH]; intros g; [done|]. cbn [run foldl]. pose proof (clock_mono c g).
  specialize (IH (step c g)). unfold run in IH. lia.
Qed.

(** A command appends nothing or one batch: the events it accepts, one after
    the other, or the accounts it creates. *)
Definition one_batch (b : list Record) : list (list Record) := match b with [] => [] | _ => [b] end.
Definition does (c : command) (g g' : Engine) (bs : list (list Record)) : Prop :=
  good (g_accounts g) /\ holds_recorded (abs (g_accounts g)) /\
  match c with
  | Transfers wall events => exists ts, bs = one_batch (transfer_record <$> ts)
      /\ spec_runs (closed (batch_clock wall g) (abs (g_accounts g))) ts (abs (g_accounts g'))
      /\ Forall (fun t => wf_transfer t /\ exists t0, t0 ∈ events /\ t = set_Timestamp (batch_clock wall g) t0) ts
  | Accounts accounts => bs = one_batch (account_record <$> logged (g_accounts g) accounts)
      /\ g_accounts g' = restore_accounts (logged (g_accounts g) accounts) (g_accounts g)
  end.
Fixpoint traced (cs : list command) (g : Engine) (bs : list (list Record)) : Prop :=
  match cs with
  | [] => bs = []
  | c :: cs => exists b1 b2, bs = b1 ++ b2 /\ does c g (step c g) b1 /\ traced cs (step c g) b2
  end.

Lemma one_batch_ne b : b <> [] -> one_batch b = [b].
Proof. by destruct b. Qed.

Section Runs.
Context {R : Ledger -> Ledger -> Prop} `{!Agreement R}.
Context (m0 : AccountManager) (ids0 : IdempotencyStore) (from : Z) (pre : list Record) (size now C : Z).
Context (Hsize : 161 <= size) (HC : C < 2 ^ 63).

Lemma transfers_step g bs wall events : tracked R m0 ids0 from pre size now g bs ->
  command_ok C (Transfers wall events) -> g_clock (processBatch wall events g).1 <= C ->
  exists bs', tracked R m0 ids0 from pre size now (processBatch wall events g).1 (bs ++ bs')
    /\ Forall (fun b => from_command b (Transfers wall events)) bs'
    /\ does (Transfers wall events) g (processBatch wall events g).1 bs'.
Proof using Agreement0 Hsize HC.
  intros Hco (Hw & Hto & Hlen) Hle. rewrite processBatch_clock in Hle.
  pose proof Hco as [H0 Hbs Hl Hs Hv Hsy Hlog (r & ids & Er & Hids & Hrel)].
  pose proof (batch_clock_gt wall g) as Ht0. unfold does, processBatch. fold (batch_clock wall g).
  set (t0 := batch_clock wall g) in *. clearbody t0. pose proof Hrel as (Hm & Hr & Hmrec & Hmc & Hrc & HR).
  set (outs := ValidateBatch (CloseExpired (SetClock t0 (g_accounts g))) (set_Timestamp t0 <$> events)) in *.
  set (evs := set_Timestamp t0 <$> events) in *.
  rewrite makeWALRecords_accepted in *. fold transfer_record in *.
  change (fun t => mkRecord 0 RecordTypeTransfer (AppendTransferPayload [] t)) with transfer_record in *.
  assert (Hi : is_i64 t0) by (unfold is_i64; lia).
  destruct (batch_ok (g_accounts g) t0 events Hm Hmrec Hi Hw) as (Hg1 & A1 & m' & Eapp & Hg' & Hr' & Hrun & Hc').
  fold evs in Eapp, Hrun. fold outs in Eapp, Hrun. rewrite Eapp.
  pose proof (agr_closed t0 _ _ HR) as HR0. rewrite closed_closed in HR0 by (apply Hr || lia).
  assert (HIc : inv (closed t0 (abs (g_accounts g)))) by (by apply closed_inv, Hm).
  assert (Hrc0 : holds_recorded (closed t0 (abs (g_accounts g)))) by (by apply closed_recorded).
  assert (Hevs : Forall (fun t => future t0 t /\ wf_transfer t) (accepted evs outs)).
  { apply accepted_Forall, Forall_fmap. rewrite Forall_forall in Hw, Hto |- *. intros t Ht. cbn.
    specialize (Hto t Ht). cbn in Hto. split; [split; [done|cbn; lia]|]. apply set_timestamp_wf; auto. }
  assert (Hdo : Forall (fun t => wf_transfer t /\ exists t1, t1 ∈ events /\ t = set_Timestamp t0 t1) (accepted evs outs)).
  { apply accepted_Forall, Forall_fmap. rewrite Forall_forall in Hw |- *. intros t Ht. cbn.
    split; [by apply set_timestamp_wf; auto|by exists t]. }
  apply Forall_and in Hevs as [Hfut Hwf].
  destruct (accepted evs outs) as [|t ts] eqn:Eacc.
  - cbn [fmap list_fmap fst]. exists []. rewrite app_nil_r. split; [|split; [constructor|split; [done|split; [done|by exists []]]]].
    constructor; try done; cbn [g_clock g_accounts g_wal]; [lia|].
    exists r, ids. split; [done|]. split; [done|]. apply runs_nil_inv in Hrun.
    split; [done|]. split; [done|]. split; [done|]. split; [done|]. split; [lia|]. by rewrite Hrun.
  - rewrite <- Eacc in *.
    assert (Hb : client_batch size (transfer_record <$> accepted evs outs)).
    { apply (records_client_batch _ 144); [by rewrite Eacc|done|lia| |].
      - eapply Forall_impl; [exact Hwf|]. apply transfer_record_shape.
      - pose proof (accepted_le evs outs). assert (length evs = length events) by apply length_fmap. lia. }
    destruct (log_batch _ _ _ _ _ _ _ _ _ _ Hco Hsize Hb) as (w & Ew & Elsn & Esz & Hlog').
    destruct (transfer_record <$> accepted evs outs) as [|r0 rs0] eqn:Erec; [by rewrite Eacc in Erec|].
    rewrite Ew. cbn [fst]. rewrite <- Erec in *.
    exists [transfer_record <$> accepted evs outs]. split; cycle 1.
    { split; [|split; [done|split; [done|exists (accepted evs outs); split; [by rewrite one_batch_ne by (by rewrite Erec)|done]]]].
      constructor; [|constructor]. apply (records_from_command _ 144); [lia| |].
      - eapply Forall_impl; [exact Hwf|]. apply transfer_record_shape.
      - pose proof (accepted_le evs outs). assert (length evs = length events) by apply length_fmap. cbn. lia. }
    constructor; cbn [g_clock g_accounts g_wal]; try done.
    + lia.
    + apply Forall_app. by split; [|constructor].
    + destruct (replay_batch (accepted evs outs) r t0 (closed t0 (abs (g_accounts g))) (abs m'))
        as (r' & Erep & Hgr' & HR'); try done; [lia|lia|by rewrite Eacc|].
      destruct (replay_transfers now (accepted evs outs) r r' ids Hwf Hids Erep) as (ids' & Eh & Hids').
      exists r', ids'. split.
      { rewrite concat_app. cbn [concat]. rewrite app_nil_r, handle_all_app. unfold sbind. by rewrite Er. }
      split; [done|]. split; [done|]. split; [done|]. split; [done|]. split; [done|].
      destruct (agr_state _ _ HR') as (_ & Eh' & Ec').
      assert (Hrc' : l_clock (abs r') = t0) by (rewrite <- Ec'; exact Hc').
      split; [change (l_clock (abs r') <= t0); lia|].
      rewrite closed_id; [done|apply Hgr'|done|]. intros id h Hh. rewrite <- Eh' in Hh. revert id h Hh.
      eapply runs_none_overdue; [exact Hrun|lia|done|done|done|apply closed_none].
Qed.

Lemma accounts_step g bs accs : tracked R m0 ids0 from pre size now g bs ->
  command_ok C (Accounts accs) ->
  exists bs', tracked R m0 ids0 from pre size now (processAccountCreate accs g).1 (bs ++ bs')
    /\ Forall (fun b => from_command b (Accounts accs)) bs'
    /\ does (Accounts accs) g (processAccountCreate accs g).1 bs'.
Proof using Agreement0 Hsize.
  intros Hco [Hw Hlen]. pose proof Hco as [H0 Hbs Hl Hs Hv Hsy Hlog (r & ids & Er & Hids & Hrel)].
  pose proof Hrel as (Hm & _ & Hmrec & _). unfold processAccountCreate. rewrite account_records_logged.
  set (accs' := logged (g_accounts g) accs).
  assert (Hw' : Forall wf_account accs').
  { rewrite Forall_forall in Hw |- *. intros a [_ Ha]%list_elem_of_filter. by apply Hw. }
  assert (Hln : (length accs' <= length accs)%nat) by apply length_filter.
  unfold does. fold accs'. destruct accs' as [|a as_] eqn:Ea; [exists []; rewrite app_nil_r; by split_and!|]. rewrite <- Ea in *.
  assert (Hb : client_batch size (account_record <$> accs')).
  { apply (records_client_batch _ 128); [by rewrite Ea|done|lia| |lia].
    eapply Forall_impl; [exact Hw'|]. apply account_record_shape. }
  destruct (log_batch _ _ _ _ _ _ _ _ _ _ Hco Hsize Hb) as (w & Ew & Elsn & Esz & Hlog').
  destruct (account_record <$> accs') as [|r0 rs0] eqn:Erec; [by rewrite Ea in Erec|].
  rewrite Ew. rewrite <- Erec in *. destruct (create_logged (g_accounts g) accs (g_accounts g)) as [rs m'] eqn:Ec.
  assert (Em : m' = restore_accounts accs' (g_accounts g)).
  { pose proof (create_logged_ok (g_accounts g) accs (g_accounts g)) as H. by rewrite Ec in H. }
  destruct (replay_accounts now accs' (g_clock g) (g_accounts g) r ids Hrel Hw') as (r' & Eh & Hrel').
  exists [account_record <$> accs']. split; cycle 1.
  { split; [|split; [done|split; [done|split; [by rewrite one_batch_ne by (by rewrite Erec)|done]]]]. constructor; [|constructor]. apply (records_from_command _ 128); [lia| |cbn; lia].
    eapply Forall_impl; [exact Hw'|]. apply account_record_shape. }
  constructor; cbn [fst g_clock g_accounts g_wal]; try done.
  - apply Forall_app. by split; [|constructor].
  - exists r', ids. split; [|split; [done|by rewrite Em]].
    rewrite concat_app. cbn [concat]. rewrite app_nil_r, handle_all_app. unfold sbind. by rewrite Er.
Qed.

Lemma command_step c g bs : tracked R m0 ids0 from pre size now g bs -> command_ok C c -> g_clock (step c g) <= C ->
  exists bs', tracked R m0 ids0 from pre size now (step c g) (bs ++ bs')
    /\ Forall (fun b => from_command b c) bs' /\ does c g (step c g) bs'.
Proof using Agreement0 Hsize HC.
  intros Hco Hc Hcl. destruct c as [wall events|accs]; cbn [step] in *; [by eapply transfers_step|by eapply accounts_step].
Qed.

(** The batches of a run, command by command: each appends one or none. *)
Lemma run_steps cs : forall g bs, tracked R m0 ids0 from pre size now g bs ->
  Forall (command_ok C) cs -> g_clock (run cs g) <= C ->
  exists bss, length bss = length cs /\ Forall (fun b => (length b <= 1)%nat) bss
    /\ forall n, tracked R m0 ids0 from pre size now (run (take n cs) g) (bs ++ concat (take n bss)).
Proof using Agreement0 Hsize HC.
  induction cs as [|c cs IH]; intros g bs Hco Hcs Hcl.
  { exists []. split_and!; [done|done|]. intros [|n]; by rewrite app_nil_r. }
  apply Forall_cons in Hcs as [Hc Hcs]. cbn [run foldl] in Hcl. fold (run cs (step c g)) in Hcl.
  pose proof (run_clock_mono cs (step c g)). destruct (command_step c g bs Hco Hc ltac:(lia)) as (b & Hco' & _ & Hd).
  destruct (IH _ _ Hco' Hcs Hcl) as (bss & Hl & Hone & Hn). exists (b :: bss). split; [cbn; by rewrite Hl|].
  split.
  { constructor; [|done]. assert (Hob : forall x, (length (one_batch x) <= 1)%nat) by (by intros [|]; cbn; lia).
    destruct Hd as (_ & _ & Hd). destruct c; [destruct Hd as (ts & -> & _)|destruct Hd as [-> _]]; apply Hob. }
  intros [|n]; cbn [take concat]; [by rewrite app_nil_r|]. rewrite app_assoc. apply Hn.
Qed.

Lemma run_traced cs : forall g bs, tracked R m0 ids0 from pre size now g bs ->
  Forall (command_ok C) cs -> g_clock (run cs g) <= C ->
  exists bs', tracked R m0 ids0 from pre size now (run cs g) (bs ++ bs')
    /\ Forall (fun b => Exists (from_command b) cs) bs' /\ traced cs g bs'.
Proof using Agreement0 Hsize HC.
  induction cs as [|c cs IH]; intros g bs Hco Hcs Hcl; [exists []; rewrite app_nil_r; by split_and!|].
  apply Forall_cons in Hcs as [Hc Hcs]. cbn [run foldl] in *. fold (run cs (step c g)) in *.
  pose proof (run_clock_mono cs (step c g)).
  destruct (command_step c g bs Hco Hc ltac:(lia)) as (bs' & Hco' & Hf & Hd). destruct (IH _ _ Hco' Hcs Hcl) as (bs2 & H2 & Hf2 & Ht2). exists (bs' ++ bs2).
  rewrite app_assoc. split; [done|]. split; [apply Forall_app; split|by exists bs', bs2].
  - eapply Forall_impl; [exact Hf|]. intros b Hb. by constructor.
  - eapply Forall_impl; [exact Hf2|]. intros b Hb. by apply Exists_cons_tl.
Qed.

Lemma run_tracked cs g bs : tracked R m0 ids0 from pre size now g bs ->
  Forall (command_ok C) cs -> g_clock (run cs g) <= C ->
  exists bs', tracked R m0 ids0 from pre size now (run cs g) (bs ++ bs') /\ Forall (fun b => Exists (from_command b) cs) bs'.
Proof using Agreement0 Hsize HC.
  intros Hco Hcs Hcl. destruct (run_traced cs g bs Hco Hcs Hcl) as (bs' & ? & ? & _). by exists bs'.
Qed.
End Runs.

Lemma run_consistent size now ids0 C cs g : consistent size now ids0 g [] -> 161 <= size -> C < 2 ^ 63 ->
  Forall (command_ok C) cs -> g_clock (run cs g) <= C ->
  exists bs, consistent size now ids0 (run cs g) bs /\ Forall (fun b => Exists (from_command b) cs) bs.
Proof.
  intros Hco Hsize HC Hcs Hcl.
  apply (run_tracked NewAccountManager ids0 0 [] size now C Hsize HC cs g [] Hco Hcs Hcl).
Qed.

Lemma fresh_consistent size now ids0 : 161 <= size -> settled ids0 -> consistent size now ids0 (fresh size) [].
Proof.
  intros Hs Hids. destruct (fresh_holds size) as [Hh Hsz]; [lia|].
  constructor; cbn [fresh NewEventLoop g_clock g_wal g_accounts]; try done.
  - by exists [], [].
  - exists NewAccountManager, ids0. split; [done|]. split; [done|].
    pose proof NewAccountManager_good as Hg. split; [done|]. split; [done|].
    assert (Hh0 : forall id h, l_holds (abs NewAccountManager) !! id = Some h -> False).
    { intros id h. cbn. by rewrite lookup_fmap, lookup_empty. }
    split; [by intros id h ?%Hh0|]. split; [done|]. split; [done|]. symmetry. apply closed_id; [apply Hg|done|].
    by intros id h ?%Hh0.
Qed.

(** At the live clock the replayed manager is the live one. *)
Lemma related_closed c m r : related eq c m r -> abs (CloseExpired (SetClock c r)) = abs m.
Proof.
  intros (_ & Hr & _ & _ & _ & Eabs). rewrite Eabs. destruct (SetClock_ok c r Hr) as [Hg1 A1].
  destruct (CloseExpired_loop_ok (length (m_expiry (SetClock c r))) (SetClock c r) Hg1 ltac:(lia)) as [_ A2].
  unfold CloseExpired. rewrite A2. by rewrite A1.
Qed.

(** A ledger made from a log, live or just opened, that holds the batches [bs]. *)
Lemma ledger_from_log now maxSize ttl w groups cur bs r ids : holds_frames w groups cur ->
  all_records groups cur = log_of 0 bs -> Forall (client_batch (w_segmentSize w)) bs -> lsn_after 0 bs < 2 ^ 63 ->
  0 <= w_currentLSN w <= lsn_after 0 bs ->
  handle_all (replay_record now) (concat bs) (NewAccountManager, NewIdempotencyStore maxSize ttl) = ((r, ids), Ok tt) ->
  exists w', NewLedger now (mkConfig [] maxSize ttl None) w = Ok (NewEventLoop r w', ids)
    /\ holds_frames w' groups cur /\ CurrentLSN w' = lsn_after 0 bs.
Proof.
  intros Hh Ha Hbs Hlsn H0 Er. rewrite <- (replay_delivered now bs 0) in Er.
  destruct (recover_live (replay_record now) w groups cur 0 bs _ _ Hh Ha Hbs ltac:(lia) Hlsn Er ltac:(lia))
    as (w' & Ew & Hh' & El & _).
  unfold NewLedger, log_initial. cbn [cfg_InitialAccounts length Nat.eqb negb]. rewrite andb_false_r.
  cbn [cfg_snapshot restore_snapshot cfg_IdempotencyMaxSize cfg_IdempotencyTTL].
  unfold RecoverFromSnapshot. unfold Recover in Ew. rewrite Ew. cbn [Z.ltb Z.compare].
  exists w'. split; [done|]. split; [done|]. unfold CurrentLSN. rewrite El.
  assert (last_commit 0 0 bs = lsn_after 0 bs) by (by destruct bs). lia.
Qed.

(** ** Properties *)

(** C4. Recovery restores the ledger.  Run any batches of transfers and account
    creations on a new engine, then restart from its log alone: the new ledger
    is built without an error, continues the log's numbering, and at the old
    engine's clock its accounts, open holds, transfers and histories are those
    the old engine had, whatever was accepted, refused or expired. *)
Theorem recovery_restores_ledger size C cs now maxSize ttl : 161 <= size -> C < 2 ^ 63 ->
  Forall (command_ok C) cs -> let g := run cs (fresh size) in
  g_clock g <= C -> CurrentLSN (g_wal g) < 2 ^ 63 ->
  exists g' ids', NewLedger now (mkConfig [] maxSize ttl None) (Open (w_disk (g_wal g)) size) = Ok (g', ids')
    /\ abs (CloseExpired (SetClock (g_clock g) (g_accounts g'))) = abs (g_accounts g)
    /\ CurrentLSN (g_wal g') = CurrentLSN (g_wal g).
Proof.
  intros Hsize HC Hcs g Hcl Hlsn.
  pose proof (settled_new maxSize ttl) as Hids0. set (ids0 := NewIdempotencyStore maxSize ttl) in *.
  destruct (run_consistent size now ids0 C cs (fresh size) (fresh_consistent _ _ _ Hsize Hids0) Hsize HC Hcs Hcl)
    as (bs & [H0 Hbs Hl Hs Hv Hsy (gs & cur & Hh & Ha) (r & ids & Er & Hids & Hrel)] & _). fold g in H0, Hl, Hs, Hh, Hrel.
  destruct (open_holds _ _ _ Hh) as (Hh' & E0 & Es). rewrite Hs in Hh', E0, Es. unfold CurrentLSN in *.
  pose proof (lsn_after_ge 0 bs). rewrite <- Es in Hbs.
  destruct (ledger_from_log now maxSize ttl _ _ _ bs r ids Hh' Ha Hbs ltac:(lia) ltac:(lia) Er) as (w' & -> & _ & El).
  do 2 eexists. split; [done|]. cbn [NewEventLoop g_accounts g_wal]. split; [by apply related_closed|]. unfold CurrentLSN in El. congruence.
Qed.

(** The last file is synced up to its end. *)
Definition all_synced (w : WAL) : Prop :=
  exists c, last (w_disk w) = Some (w_currentID w, c) /\ s_syncedOffset (w_current w) = Z.of_nat (length c).

Lemma holds_all_synced w groups g : holds_frames w groups g ->
  s_syncedOffset (w_current w) = s_writeOffset (w_current w) -> all_synced w.
Proof.
  intros H E. exists (frames g). rewrite (hf_disk _ _ _ H), last_snoc. split; [done|]. rewrite E. apply (hf_offset _ _ _ H).
Qed.

Lemma number_payload lsn b r : r ∈ b -> exists r', r' ∈ number lsn b /\ r_Type r' = r_Type r /\ r_Payload r' = r_Payload r.
Proof.
  revert lsn. induction b as [|x b IH]; intros lsn Hr; [by apply not_elem_of_nil in Hr|]. cbn [number].
  apply elem_of_cons in Hr as [->|Hr].
  - eexists. split; [by left|]. done.
  - destruct (IH (lsn + 1) Hr) as (r' & Hin & ?). exists r'. split; [by right|done].
Qed.

Lemma acked_accepted events outs a : a ∈ zip_with mkAck events outs -> ack_Err a = None ->
  ack_Transfer a ∈ accepted events outs.
Proof.
  revert outs. induction events as [|t events IH]; intros [|o outs]; cbn [zip_with accepted];
    try (by intros ?%not_elem_of_nil).
  intros [->|Ha]%elem_of_cons He; cbn in *.
  - subst o. by left.
  - specialize (IH _ Ha He). destruct o; [done|by right].
Qed.

(** C22. Acknowledged means durable.  In any run, a transfer acknowledged as
    successful carries the batch's clock, which exceeds every earlier batch's
    whatever the wall clock reads, and its record is in the log, synced to the
    last byte, before the acknowledgement. *)
Theorem acknowledged_is_durable size C cs wall events : 161 <= size -> C < 2 ^ 63 ->
  Forall (command_ok C) cs -> command_ok C (Transfers wall events) ->
  let g := run cs (fresh size) in
  let g' := (processBatch wall events g).1 in
  g_clock g' <= C ->
  g_clock g < g_clock g'
  /\ exists files, w_disk (g_wal g') = seg_file <$> files
     /\ forall a, a ∈ (processBatch wall events g).2 -> ack_Err a = None ->
          t_Timestamp (ack_Transfer a) = g_clock g' /\ all_synced (g_wal g')
          /\ exists r, r ∈ concat files.*2 /\ r_Type r = RecordTypeTransfer
               /\ r_Payload r = AppendTransferPayload [] (ack_Transfer a).
Proof.
  intros Hsize HC Hcs Hc g g' Hcl. unfold g' in *. rewrite processBatch_clock in *. pose proof (batch_clock_gt wall g) as Hgt.
  split; [done|]. clear g'.
  destruct (run_consistent size 0 (NewIdempotencyStore 1 1) C cs (fresh size)
    (fresh_consistent _ _ _ Hsize (settled_new 1 1)) Hsize HC Hcs ltac:(fold g; lia)) as (bs & Hco & _). fold g in Hco.
  pose proof Hco as [H0 Hbs Hl Hs Hv Hsy (gs & cur & Hh & Ha) (r & ids & Er & Hids & Hrel)].
  destruct Hc as (Hw & Hto & Hlen). pose proof Hrel as (Hm & _ & Hmrec & _).
  unfold processBatch. fold (batch_clock wall g). set (t0 := batch_clock wall g) in *. clearbody t0.
  assert (Hi : is_i64 t0) by (unfold is_i64; lia).
  destruct (batch_ok (g_accounts g) t0 events Hm Hmrec Hi Hw) as (_ & _ & m' & Eapp & _).
  set (outs := ValidateBatch (CloseExpired (SetClock t0 (g_accounts g))) (set_Timestamp t0 <$> events)) in *.
  set (evs := set_Timestamp t0 <$> events) in *. rewrite Eapp, makeWALRecords_accepted.
  change (fun t => mkRecord 0 RecordTypeTransfer (AppendTransferPayload [] t)) with transfer_record.
  assert (Hevs : Forall (fun t => t_Timestamp t = t0 /\ wf_transfer t) (accepted evs outs)).
  { apply accepted_Forall, Forall_fmap. eapply Forall_impl; [exact Hw|]. intros t Ht. split; [done|].
    by apply set_timestamp_wf. }
  destruct (accepted evs outs) as [|t ts] eqn:Eacc.
  - cbn [fmap list_fmap fst snd g_wal]. exists (gs ++ [(w_currentID (g_wal g), cur)]).
    split; [rewrite (hf_disk _ _ _ Hh); by rewrite fmap_app|].
    intros a Hin He. pose proof (acked_accepted _ _ _ Hin He) as H. rewrite Eacc in H. by apply not_elem_of_nil in H.
  - rewrite <- Eacc in *.
    assert (Hb : client_batch size (transfer_record <$> accepted evs outs)).
    { apply (records_client_batch _ 144); [by rewrite Eacc|done|lia| |].
      - eapply Forall_impl; [exact Hevs|]. intros y [_ Hy]. by apply transfer_record_shape.
      - pose proof (accepted_le evs outs). assert (length evs = length events) by apply length_fmap. lia. }
    destruct (log_batch _ _ _ _ _ _ _ _ _ _ Hco Hsize Hb) as (w & Ew & _ & _ & gs' & cur' & Hh' & Ha').
    destruct (transfer_record <$> accepted evs outs) as [|r0 rs0] eqn:Erec; [by rewrite Eacc in Erec|].
    rewrite Ew. cbn [fst snd g_wal]. rewrite <- Erec in *.
    exists (gs' ++ [(w_currentID (Sync w), cur')]). split; [rewrite (hf_disk _ _ _ Hh'); by rewrite fmap_app|].
    intros a Hin He. pose proof (acked_accepted _ _ _ Hin He) as Hacc. rewrite Forall_forall in Hevs.
    split; [by apply (Hevs _ Hacc)|]. split; [by eapply holds_all_synced|].
    destruct (number_payload (lsn_after 0 bs) (transfer_record <$> accepted evs outs) (transfer_record (ack_Transfer a)))
      as (r' & Hr' & Ht & Hp); [by apply list_elem_of_fmap_2|].
    exists r'. split; [|by rewrite Ht, Hp]. rewrite fmap_app, concat_app. cbn [fmap list_fmap concat snd].
    rewrite app_nil_r. fold (all_records gs' cur'). rewrite Ha', log_of_app. cbn [log_of app].
    apply elem_of_app. right. apply elem_of_app. left. unfold batch_records. apply elem_of_app. by left.
Qed.

(** Two accounts, and commands that make and settle a hold. *)
Definition demo_accounts : command := Accounts [acct 1 100; acct 2 0].
Definition demo_hold (wall timeout : Z) : command := Transfers wall [xfer 10 1 2 5 timeout TransferFlagPending].
Definition demo_post (wall : Z) : command := Transfers wall [xfer 10 0 0 0 0 TransferFlagPostPending].
Definition demo_run : list command := [demo_accounts; demo_hold 1000 50; Transfers 1020 [xfer 11 1 2 7 0 0]; demo_post 2000].

(** The error a restart from the log ends with. *)
Definition restart (size : Z) (g : Engine) : result (Engine * IdempotencyStore) error :=
  NewLedger 0 (mkConfig [] 100 100 None) (Open (w_disk (g_wal g)) size).
Definition restart_error (size : Z) (g : Engine) : option error :=
  match restart size g with Ok _ => None | Err e => Some e end.
Definition restarted (size : Z) (g : Engine) : Engine :=
  match restart size g with Ok (g', _) => g' | Err _ => g end.

Lemma demo_ok C : C + 50 < 2 ^ 63 -> Forall (command_ok C) demo_run.
Proof.
  intros HC.
  assert (Ha : forall n pc, is_u64 pc -> wf_account (acct n pc)).
  { intros n pc H. constructor; cbn; try done; apply idn_length. }
  assert (H0 : wf_account (acct 1 100) /\ wf_account (acct 2 0)) by (split; by apply Ha).
  assert (H1 : wf_transfer (xfer 10 1 2 5 50 TransferFlagPending)) by (by apply xfer_wf).
  assert (H2 : wf_transfer (xfer 11 1 2 7 0 0)) by (by apply xfer_wf).
  assert (H3 : wf_transfer (xfer 10 0 0 0 0 TransferFlagPostPending)) by (by apply xfer_wf).
  constructor; [split; [|cbn; lia]; constructor; [apply H0|constructor; [apply H0|done]]|].
  constructor; [split_and!; [by constructor|constructor; [cbn; lia|done]|cbn; lia]|].
  constructor; [split_and!; [by constructor|constructor; [cbn; lia|done]|cbn; lia]|].
  constructor; [split_and!; [by constructor|constructor; [cbn; lia|done]|cbn; lia]|done].
Qed.

(** The hold is created, expires, and the late post is refused. *)
Lemma recovery_restores_ledger_witness :
  (exists g' ids', restart 4096 (run demo_run (fresh 4096)) = Ok (g', ids')
    /\ abs (CloseExpired (SetClock 2000 (g_accounts g'))) = abs (g_accounts (run demo_run (fresh 4096)))
    /\ CurrentLSN (g_wal g') = 7).
Proof.
  apply (recovery_restores_ledger 4096 2000 demo_run 0 100 100).
  - lia.
  - lia.
  - apply demo_ok. lia.
  - vm_compute. discriminate.
  - vm_compute. reflexivity.
Defined.

Lemma acknowledged_is_durable_witness :
  let g' := (processBatch 900 [xfer 12 1 2 1 0 0] (run demo_run (fresh 4096))).1 in
  2000 < g_clock g'
  /\ exists files, w_disk (g_wal g') = seg_file <$> files
     /\ forall a, a ∈ (processBatch 900 [xfer 12 1 2 1 0 0] (run demo_run (fresh 4096))).2 -> ack_Err a = None ->
          t_Timestamp (ack_Transfer a) = g_clock g' /\ all_synced (g_wal g')
          /\ exists r, r ∈ concat files.*2 /\ r_Type r = RecordTypeTransfer
               /\ r_Payload r = AppendTransferPayload [] (ack_Transfer a).
Proof.
  apply (acknowledged_is_durable 4096 3000 demo_run 900 [xfer 12 1 2 1 0 0]).
  - lia.
  - lia.
  - apply demo_ok. lia.
  - assert (H : wf_transfer (xfer 12 1 2 1 0 0)) by (by apply xfer_wf).
    split_and!; [by constructor|constructor; [cbn; lia|done]|cbn; lia].
  - vm_compute. discriminate.
Defined.

(** A timeout can make the log unrecoverable.  [int64(t.Timeout)] of a hold
    is not checked: with a timeout of 2^63 the deadline is in the past.  A batch
    that makes such a hold and posts it is acknowledged, but on replay the hold
    expires between the two records, the post fails, and the ledger cannot be
    built from its log any more. *)
Theorem timeout_overflow_breaks_recovery :
  let events := [xfer 10 1 2 5 (2 ^ 63) TransferFlagPending; xfer 10 0 0 0 0 TransferFlagPostPending] in
  let g := run [demo_accounts] (fresh 4096) in
  Forall wf_transfer events
  /\ ack_Err <$> (processBatch 1000 events g).2 = [None; None]
  /\ restart_error 4096 (processBatch 1000 events g).1 = Some (ErrPendingNotFound (idn 10)).
Proof.
  split; [|split; vm_compute; reflexivity].
  constructor; [by apply xfer_wf|]. constructor; [by apply xfer_wf|done].
Qed.

(** So can a clock that runs backwards over a restart.  The loop's clock
    starts again at 0 and is not taken from the log; if the wall clock is then
    behind the log, batches are stamped below the replayed clock.  A hold made
    and posted in time is acknowledged live, but replay judges it at the higher
    clock, finds it expired, and fails. *)
Theorem backward_clock_breaks_recovery :
  let g0 := run [demo_accounts; Transfers 1000 [xfer 11 1 2 7 0 0]] (fresh 4096) in
  let g1 := restarted 4096 g0 in
  restart_error 4096 g0 = None
  /\ g_clock g0 = 1000 /\ Clock (g_accounts g1) = 1000 /\ g_clock g1 = 0
  /\ ack_Err <$> (processBatch 500 [xfer 10 1 2 5 10 TransferFlagPending] g1).2 = [None]
  /\ ack_Err <$> (processBatch 505 [xfer 10 0 0 0 0 TransferFlagPostPending] (run [demo_hold 500 10] g1)).2 = [None]
  /\ restart_error 4096 (run [demo_hold 500 10; demo_post 505] g1) = Some (ErrPendingNotFound (idn 10)).
Proof. split_and!; vm_compute; reflexivity. Qed.

(** Chains are atomic per engine batch, not per client.  Events of
    concurrent clients interleave in the ring buffer, and a chain is whatever
    follows a linked event: another client's failing event between the two legs
    of a chain takes the first leg down, and the second is applied alone. *)
Theorem interleaved_chain_not_atomic :
  let leg1 := xfer 20 1 2 5 0 TransferFlagLinked in
  let leg2 := xfer 21 1 2 6 0 0 in
  let other := xfer 22 2 1 50 0 0 in
  let g := run [demo_accounts] (fresh 4096) in
  let ok acks := (fun a => match ack_Err a with None => true | Some _ => false end) <$> acks in
  ok (processBatch 1000 [leg1; leg2] g).2 = [true; true]
  /\ ok (processBatch 1000 [leg1; other; leg2] g).2 = [false; false; true].
Proof. split; vm_compute; reflexivity. Qed.
