(* ===== verification/Snapshot.v ===== *)
(** * Snapshot files (internal/snapshot/snapshot.go)

    A snapshot is one file, written beside its path and renamed, so it appears
    whole or not at all.  The directory is the list of its files, by name, in
    the order ReadDir returns. *)

From S2P Require Import Prelude Core Uint128 Codec Crc.

Definition MagicHeader : list byte := gostr "LEDGER03".
Definition AccountSize : Z := 128.

(** ** One file *)

Definition snapshot_content (lsn : Z) (accounts : list Account) (pendings : list Transfer) : list byte :=
  MagicHeader ++ be_bytes 8 (u64 lsn)
  ++ be_bytes 8 (Z.of_nat (length accounts)) ++ concat (EncodeAccountPayload <$> accounts)
  ++ be_bytes 8 (Z.of_nat (length pendings)) ++ concat (EncodeTransferPayload <$> pendings).

(** The bytes [Write] renames into place. *)
Definition Write (lsn : Z) (accounts : list Account) (pendings : list Transfer) : list byte :=
  let content := snapshot_content lsn accounts pendings in
  content ++ be_bytes 4 (ChecksumIEEE content).

(** [make([]T, n)] panics beyond the address space. *)
Definition make_panics (n : Z) : bool := 2 ^ 48 <=? n.

Fixpoint read_accounts (n : nat) (offset : nat) (data : list byte) : result (list Account) error :=
  match n with
  | O => Ok []
  | S n' =>
      a <-? DecodeAccountPayload (slice offset (offset + 128) data) ;;
      rest <-? read_accounts n' (offset + 128) data ;;
      Ok (a :: rest)
  end.
Fixpoint read_transfers (n : nat) (offset : nat) (data : list byte) : result (list Transfer) error :=
  match n with
  | O => Ok []
  | S n' =>
      t <-? DecodeTransferPayload (slice offset (offset + 144) data) ;;
      rest <-? read_transfers n' (offset + 144) data ;;
      Ok (t :: rest)
  end.

(** [None] is a panic.  The counts are uint64: the sizes wrap. *)
Definition Read (data : list byte) : option (result (list Account * list Transfer * Z) error) :=
  if (length data <? 8 + 8 + 8 + 8 + 4)%nat then Some (Err ErrInvalidSnapshotSize)
  else
    let content := take (length data - 4) data in
    let expectedCRC := be_val (drop (length data - 4) data) in
    if negb (expectedCRC =? ChecksumIEEE content) then Some (Err ErrSnapshotCorrupted)
    else if negb (bool_decide (take 8 data = MagicHeader)) then Some (Err ErrInvalidSnapshotMagic)
    else
      let lsn := i64 (be_val (slice 8 16 data)) in
      let count := be_val (slice 16 24 data) in
      let pendCountOff := u64 (24 + u64 (count * AccountSize)) in
      if Z.of_nat (length content) <? u64 (pendCountOff + 8) then Some (Err ErrInvalidSnapshotSize)
      else
        let pendingCount := be_val (slice (Z.to_nat pendCountOff) (Z.to_nat pendCountOff + 8) data) in
        let expectedPayloadLen := u64 (u64 (pendCountOff + 8) + u64 (pendingCount * 144)) in
        if negb (Z.of_nat (length content) =? expectedPayloadLen) then Some (Err ErrInvalidSnapshotSize)
        else if make_panics count then None
        else
          match read_accounts (Z.to_nat count) 24 data with
          | Err e => Some (Err e)
          | Ok accounts =>
              if make_panics pendingCount then None
              else Some (pendings <-? read_transfers (Z.to_nat pendingCount) (Z.to_nat pendCountOff + 8) data ;;
                         Ok (accounts, pendings, lsn))
          end.

(** ** The directory *)

Abbreviation SnapDir := (list (gostring * list byte)).

Definition digit_of (c : byte) : option Z :=
  let d := byte_val c - 48 in if (0 <=? d) && (d <=? 9) then Some d else None.

(** [strconv.ParseInt(s, 10, 64)]; [None] is an error. *)
Fixpoint parse_digits (acc : Z) (s : gostring) : option Z :=
  match s with
  | [] => Some acc
  | c :: s => d ← digit_of c; parse_digits (acc * 10 + d) s
  end.
Definition ParseInt (s : gostring) : option Z :=
  let '(neg, digits) := match s with
                        | x2d :: s => (true, s)
                        | x2b :: s => (false, s)
                        | _ => (false, s)
                        end in
  match digits with
  | [] => None
  | _ => n ← parse_digits 0 digits;
         let n := if (neg : bool) then - n else n in
         if (- 2 ^ 63 <=? n) && (n <? 2 ^ 63) then Some n else None
  end.

Definition suffix_snap : gostring := gostr ".snap".

(** [strings.TrimSuffix(name, ".snap")] of a name with that suffix. *)
Definition trim_snap (name : gostring) : option gostring :=
  let k := (length name - length suffix_snap)%nat in
  if (length suffix_snap <=? length name)%nat && bool_decide (drop k name = suffix_snap)
  then Some (take k name) else None.

(** The last part of [strings.Split(name, "-")] when there are two or more. *)
Fixpoint last_part (name : gostring) (cur : gostring) (found : bool) : option gostring :=
  match name with
  | [] => if found then Some cur else None
  | x2d :: name => last_part name [] true
  | c :: name => last_part name (cur ++ [c]) found
  end.

(** The LSN in a file name, for the names the two functions consider. *)
Definition name_lsn (name : gostring) : option Z :=
  base ← trim_snap name; part ← last_part base [] false; ParseInt part.

(** [fmt.Sprintf("snapshot-%d.snap", lsn)]. *)
Definition snapshot_name (lsn : Z) : gostring :=
  gostr "snapshot-" ++ (if lsn <? 0 then gostr "-" else [])
  ++ (if lsn =? 0 then gostr "0" else decimal 20 (Z.abs lsn) []) ++ suffix_snap.

(** The file and LSN of the newest valid snapshot; [None] when a Read panics. *)
Fixpoint latest_loop (dir : SnapDir) (best : option (gostring * Z)) : option (option (gostring * Z)) :=
  match dir with
  | [] => Some best
  | (name, data) :: dir =>
      match name_lsn name with
      | None => latest_loop dir best
      | Some lsn =>
          if default (-1) (snd <$> best) <? lsn then
            match Read data with
            | None => None
            | Some (Ok (_, _, lsnRead)) => latest_loop dir (if lsnRead =? lsn then Some (name, lsn) else best)
            | Some (Err _) => latest_loop dir best
            end
          else latest_loop dir best
      end
  end.
Definition Latest (dir : SnapDir) : option (option (gostring * Z)) := latest_loop dir None.

Definition newer (a b : gostring * Z) : Prop := b.2 <= a.2.
#[export] Instance newer_dec a b : Decision (newer a b).
Proof. unfold newer. apply _. Defined.

Definition snap_files (dir : SnapDir) : list (gostring * Z) :=
  omap (fun f => lsn ← name_lsn f.1; Some (f.1, lsn)) dir.

(** [sort.Slice] orders files of equal LSN arbitrarily; here they keep their
    order. *)
Definition CleanupOldSnapshots (maxKept : Z) (dir : SnapDir) : SnapDir :=
  if maxKept <=? 0 then dir
  else
    let snaps := snap_files dir in
    if Z.of_nat (length snaps) <=? maxKept then dir
    else
      let removed := (drop (Z.to_nat maxKept) (merge_sort newer snaps)).*1 in
      filter (fun f => f.1 ∉ removed) dir.
