(* ===== verification/SnapshotProps.v ===== *)
(** * Properties of snapshots *)

From S2P Require Import Prelude Core Uint128 Codec Crc Snapshot.

(** ** Reading back *)

Lemma decode_account a : wf_account a ->
  DecodeAccountPayload (EncodeAccountPayload a) = Ok a /\ length (EncodeAccountPayload a) = 128%nat.
Proof.
  intros H. unfold EncodeAccountPayload. rewrite AppendAccountPayload_layout by done.
  split; [by apply DecodeAccountPayload_fields|by apply length_account_payload].
Qed.
Lemma decode_transfer t : wf_transfer t ->
  DecodeTransferPayload (EncodeTransferPayload t) = Ok t /\ length (EncodeTransferPayload t) = 144%nat.
Proof.
  intros H. unfold EncodeTransferPayload. rewrite AppendTransferPayload_layout by done.
  split; [by apply DecodeTransferPayload_fields|by apply length_transfer_payload].
Qed.

Lemma length_accounts accs : Forall wf_account accs ->
  length (concat (EncodeAccountPayload <$> accs)) = (128 * length accs)%nat.
Proof.
  induction 1 as [|a accs Ha _ IH]; [done|]. cbn [fmap list_fmap concat length].
  rewrite length_app, IH. destruct (decode_account a Ha) as [_ ->]. lia.
Qed.
Lemma length_transfers ts : Forall wf_transfer ts ->
  length (concat (EncodeTransferPayload <$> ts)) = (144 * length ts)%nat.
Proof.
  induction 1 as [|t ts Ht _ IH]; [done|]. cbn [fmap list_fmap concat length].
  rewrite length_app, IH. destruct (decode_transfer t Ht) as [_ ->]. lia.
Qed.

Lemma read_accounts_ok accs : forall pre post, Forall wf_account accs ->
  read_accounts (length accs) (length pre) (pre ++ concat (EncodeAccountPayload <$> accs) ++ post) = Ok accs.
Proof.
  induction accs as [|a accs IH]; intros pre post Hw; [done|]. apply Forall_cons in Hw as [Ha Hw].
  destruct (decode_account a Ha) as [Hd Hl]. cbn [length read_accounts fmap list_fmap concat].
  rewrite <- app_assoc, slice_mid by (by rewrite ?Hl). rewrite Hd. cbn [rbind].
  rewrite (app_assoc pre). replace (length pre + 128)%nat with (length (pre ++ EncodeAccountPayload a))
    by (rewrite length_app; lia). by rewrite IH.
Qed.
Lemma read_transfers_ok ts : forall pre post, Forall wf_transfer ts ->
  read_transfers (length ts) (length pre) (pre ++ concat (EncodeTransferPayload <$> ts) ++ post) = Ok ts.
Proof.
  induction ts as [|t ts IH]; intros pre post Hw; [done|]. apply Forall_cons in Hw as [Ht Hw].
  destruct (decode_transfer t Ht) as [Hd Hl]. cbn [length read_transfers fmap list_fmap concat].
  rewrite <- app_assoc, slice_mid by (by rewrite ?Hl). rewrite Hd. cbn [rbind].
  rewrite (app_assoc pre). replace (length pre + 144)%nat with (length (pre ++ EncodeTransferPayload t))
    by (rewrite length_app; lia). by rewrite IH.
Qed.

(** What [Write] takes. *)
Record snapshot_ok (lsn : Z) (accs : list Account) (pends : list Transfer) : Prop := {
  so_lsn : is_i64 lsn;
  so_accounts : Forall wf_account accs;
  so_pendings : Forall wf_transfer pends;
  so_small : Z.of_nat (length accs) < 2 ^ 48 /\ Z.of_nat (length pends) < 2 ^ 48 }.

Lemma length_content lsn accs pends : Forall wf_account accs -> Forall wf_transfer pends ->
  length (snapshot_content lsn accs pends) = (32 + 128 * length accs + 144 * length pends)%nat.
Proof.
  intros Ha Hp. unfold snapshot_content.
  rewrite !length_app, !length_be_bytes, length_accounts, length_transfers by done. cbn [MagicHeader]. 
  change (length MagicHeader) with 8%nat. lia.
Qed.

Lemma read_written lsn accs pends : snapshot_ok lsn accs pends ->
  Read (Write lsn accs pends) = Some (Ok (accs, pends, lsn)).
Proof.
  intros [Hl Ha Hp [Hna Hnp]]. pose proof (length_content lsn accs pends Ha Hp) as Hlen.
  set (c := snapshot_content lsn accs pends) in *. set (crc := be_bytes 4 (ChecksumIEEE c)).
  assert (Hw : Write lsn accs pends = c ++ crc) by done.
  assert (Hcrc : length crc = 4%nat) by apply length_be_bytes.
  unfold Read. rewrite Hw, length_app, Hcrc. rewrite (proj2 (Nat.ltb_ge _ _)) by lia.
  replace (length c + 4 - 4)%nat with (length c) by lia. rewrite take_app_length, drop_app_length.
  unfold crc at 1. rewrite be_val_u32 by apply ChecksumIEEE_u32. rewrite Z.eqb_refl. cbn [negb].
  set (P := concat (EncodeAccountPayload <$> accs)) in *. set (T := concat (EncodeTransferPayload <$> pends)) in *.
  set (n := be_bytes 8 (Z.of_nat (length accs))) in *. set (k := be_bytes 8 (Z.of_nat (length pends))) in *.
  assert (Hc : c ++ crc = MagicHeader ++ be_bytes 8 (u64 lsn) ++ n ++ P ++ k ++ T ++ crc).
  { unfold c, snapshot_content. by rewrite <- !app_assoc. }
  assert (LP : length P = (128 * length accs)%nat) by (by apply length_accounts).
  assert (Ln : length n = 8%nat) by apply length_be_bytes. assert (Lk : length k = 8%nat) by apply length_be_bytes.
  assert (LM : length MagicHeader = 8%nat) by done.
  assert (Ll : length (be_bytes 8 (u64 lsn)) = 8%nat) by apply length_be_bytes.
  assert (S0 : take 8 (c ++ crc) = MagicHeader) by (rewrite Hc; by apply take_app_length').
  rewrite S0, bool_decide_true by done. cbn [negb].
  assert (S1 : slice 8 16 (c ++ crc) = be_bytes 8 (u64 lsn)) by (rewrite Hc; by apply slice_mid).
  assert (S2 : slice 16 24 (c ++ crc) = n).
  { rewrite Hc, (app_assoc MagicHeader). apply slice_mid; by rewrite ?length_app, ?Ll, ?Ln. }
  assert (Bn : be_val n = Z.of_nat (length accs)) by (apply be_val_u64; unfold is_u64; lia).
  assert (Bk : be_val k = Z.of_nat (length pends)) by (apply be_val_u64; unfold is_u64; lia).
  rewrite S1, S2, Bn, (be_val_u64 (u64 lsn)) by apply u64_range.
  unfold AccountSize.
  assert (Hoff : u64 (24 + u64 (Z.of_nat (length accs) * 128)) = 24 + 128 * Z.of_nat (length accs)).
  { unfold u64. rewrite (Z.mod_small (_ * 128)) by lia. rewrite Z.mod_small; lia. }
  rewrite Hoff, u64_small by (unfold is_u64; lia). rewrite (proj2 (Z.ltb_ge _ _)) by lia.
  replace (Z.to_nat (24 + 128 * Z.of_nat (length accs))) with (24 + length P)%nat by lia.
  assert (S3 : slice (24 + length P) (24 + length P + 8) (c ++ crc) = k).
  { rewrite Hc. replace (MagicHeader ++ be_bytes 8 (u64 lsn) ++ n ++ P ++ k ++ T ++ crc)
      with ((MagicHeader ++ be_bytes 8 (u64 lsn) ++ n ++ P) ++ k ++ T ++ crc) by (by rewrite <- !app_assoc).
    apply slice_mid; [rewrite !length_app, LM, Ll, Ln; lia|by rewrite Lk]. }
  rewrite S3, Bk.
  assert (Htot : u64 (24 + 128 * Z.of_nat (length accs) + 8 + u64 (Z.of_nat (length pends) * 144))
                 = Z.of_nat (length c)).
  { unfold u64. rewrite (Z.mod_small (_ * 144)) by lia. rewrite Z.mod_small; lia. }
  rewrite Htot, Z.eqb_refl. cbn [negb]. unfold make_panics. rewrite !(proj2 (Z.leb_gt _ _)) by lia.
  rewrite !Nat2Z.id. rewrite Hc.
  assert (E1 : read_accounts (length accs) 24
      (MagicHeader ++ be_bytes 8 (u64 lsn) ++ n ++ P ++ k ++ T ++ crc) = Ok accs).
  { pose proof (read_accounts_ok accs (MagicHeader ++ be_bytes 8 (u64 lsn) ++ n) (k ++ T ++ crc) Ha) as H.
    rewrite !length_app, LM, Ll, Ln in H. rewrite <- !app_assoc in H. exact H. }
  rewrite E1.
  assert (E2 : read_transfers (length pends) (24 + length P + 8)
      (MagicHeader ++ be_bytes 8 (u64 lsn) ++ n ++ P ++ k ++ T ++ crc) = Ok pends).
  { pose proof (read_transfers_ok pends (MagicHeader ++ be_bytes 8 (u64 lsn) ++ n ++ P ++ k) crc Hp) as H.
    rewrite !length_app, LM, Ll, Ln, Lk in H. rewrite <- !app_assoc in H.
    replace (24 + length P + 8)%nat with (8 + (8 + (8 + (length P + 8))))%nat by lia. exact H. }
  rewrite E2. cbn [rbind]. by rewrite i64_u64.
Qed.

Lemma read_checksum data r : Read data = Some (Ok r) ->
  (36 <= length data)%nat
  /\ be_val (drop (length data - 4) data) = ChecksumIEEE (take (length data - 4) data).
Proof.
  unfold Read. destruct (Nat.ltb_spec (length data) (8 + 8 + 8 + 8 + 4)) as [|Hl]; [done|].
  destruct (Z.eqb_spec (be_val (drop (length data - 4) data)) (ChecksumIEEE (take (length data - 4) data)))
    as [E|]; [|done]. intros _. split; [lia|done].
Qed.

(** ** The directory *)

Definition valid (f : gostring * list byte) (lsn : Z) : Prop :=
  name_lsn f.1 = Some lsn /\ 0 <= lsn /\ exists a p, Read f.2 = Some (Ok (a, p, lsn)).

Definition newest (dir : SnapDir) (best : option (gostring * Z)) : Prop :=
  match best with
  | None => forall f lsn, f ∈ dir -> ~ valid f lsn
  | Some (name, lsn) => (exists data, (name, data) ∈ dir /\ valid (name, data) lsn)
      /\ forall f lsn', f ∈ dir -> valid f lsn' -> lsn' <= lsn
  end.

Lemma latest_loop_ok dir : forall seen best best', newest seen best -> latest_loop dir best = Some best' ->
  newest (seen ++ dir) best'.
Proof.
  induction dir as [|[name data] dir IH]; intros seen best best' Hb; cbn [latest_loop].
  { rewrite app_nil_r. by intros [= <-]. }
  assert (Hskip : (forall lsn, valid (name, data) lsn -> lsn <= default (-1) (snd <$> best)) ->
    newest (seen ++ [(name, data)]) best).
  { intros H. destruct best as [[n l]|]; cbn in H |- *.
    - destruct Hb as [(d & Hd & Hv) Hm]. split; [exists d; split; [set_solver|done]|].
      intros f lsn' [Hf| ->%list_elem_of_singleton]%elem_of_app Hval; [by eapply Hm|by apply H].
    - intros f lsn [Hf| ->%list_elem_of_singleton]%elem_of_app Hval; [by eapply Hb|].
      specialize (H _ Hval). destruct Hval as (_ & ? & _). lia. }
  assert (Hstep : forall b, newest (seen ++ [(name, data)]) b -> latest_loop dir b = Some best' ->
    newest (seen ++ (name, data) :: dir) best').
  { intros b Hb' E. replace (seen ++ (name, data) :: dir) with ((seen ++ [(name, data)]) ++ dir)
      by (by rewrite <- app_assoc). by eapply IH. }
  destruct (name_lsn name) as [lsn|] eqn:En.
  2:{ apply Hstep, Hskip. intros l (H & _). cbn in H. congruence. }
  destruct (Z.ltb_spec (default (-1) (snd <$> best)) lsn) as [Hlt|Hge].
  2:{ apply Hstep, Hskip. intros l (H & _). cbn in H. assert (l = lsn) as -> by congruence. lia. }
  destruct (Read data) as [[[[a p] lsnRead]|e]|] eqn:Er; [| |done].
  - destruct (Z.eqb_spec lsnRead lsn) as [->|Hne].
    + apply Hstep. split.
      * exists data. split; [set_solver|]. split; [done|]. split; [|by exists a, p].
        destruct best as [[n l]|]; cbn in Hlt; [|lia]. destruct Hb as [(d & _ & _ & ? & _) _]. lia.
      * intros f lsn' [Hf| ->%list_elem_of_singleton]%elem_of_app Hval.
        -- destruct best as [[n l]|]; cbn in Hlt; [|by destruct (Hb f lsn' Hf)].
           destruct Hb as [_ Hm]. specialize (Hm _ _ Hf Hval). lia.
        -- destruct Hval as (H & _). cbn in H. assert (lsn' = lsn) by congruence. lia.
    + apply Hstep, Hskip. intros l (Hn & _ & a' & p' & H). cbn in Hn, H. congruence.
  - apply Hstep, Hskip. intros l (_ & _ & a' & p' & H). cbn in H. congruence.
Qed.

(** ** Cleaning up *)

Lemma snap_files_filter dir (P : gostring -> Prop) `{forall x, Decision (P x)} :
  snap_files (filter (fun f => P f.1) dir) = filter (fun f => P f.1) (snap_files dir).
Proof.
  unfold snap_files. induction dir as [|[name data] dir IH]; [done|].
  destruct (decide (P name)) as [HP|HP].
  - rewrite filter_cons_True by done. cbn [omap list_omap fst]. destruct (name_lsn name) as [lsn|]; cbn [mbind option_bind]; [|done].
    rewrite filter_cons_True by done. by f_equal.
  - rewrite filter_cons_False by done. cbn [omap list_omap fst]. rewrite IH.
    destruct (name_lsn name) as [lsn|]; cbn [mbind option_bind]; [|done]. by rewrite filter_cons_False.
Qed.

Lemma snap_files_names dir : NoDup dir.*1 -> NoDup (snap_files dir).*1.
Proof.
  unfold snap_files. induction dir as [|[name data] dir IH]; [done|]. cbn [fmap list_fmap fst].
  intros [Hn Hd]%NoDup_cons. cbn [omap list_omap fst]. destruct (name_lsn name) as [lsn|]; cbn; [|auto].
  constructor; [|auto]. intros ([n l] & Hn' & Hin)%list_elem_of_fmap. cbn in Hn'. subst n.
  apply list_elem_of_omap in Hin as ([n' d'] & Hin & E). cbn in E. destruct (name_lsn n'); cbn in E; [|done].
  simplify_eq. apply Hn. by apply (list_elem_of_fmap_2 fst _ (name, d')).
Qed.

Lemma snap_files_in dir name lsn : (name, lsn) ∈ snap_files dir <->
  name_lsn name = Some lsn /\ exists data, (name, data) ∈ dir.
Proof.
  unfold snap_files. rewrite list_elem_of_omap. split.
  - intros ([n d] & Hin & E). cbn in E. destruct (name_lsn n) eqn:En; cbn in E; [|done]. simplify_eq. eauto.
  - intros [E [d Hd]]. exists (name, d). split; [done|]. cbn. by rewrite E.
Qed.

(** The files kept and removed, newest first. *)
Lemma cleanup_split maxKept dir : 0 < maxKept -> NoDup dir.*1 -> exists kept removed,
  snap_files dir ≡ₚ kept ++ removed /\ Z.of_nat (length kept) = Z.min maxKept (Z.of_nat (length (snap_files dir)))
  /\ (forall a b, a ∈ kept -> b ∈ removed -> b.2 <= a.2)
  /\ CleanupOldSnapshots maxKept dir = filter (fun f => f.1 ∉ removed.*1) dir.
Proof.
  intros Hm Hd. unfold CleanupOldSnapshots. rewrite (proj2 (Z.leb_gt _ _)) by done.
  destruct (Z.leb_spec (Z.of_nat (length (snap_files dir))) maxKept) as [Hle|Hgt].
  - exists (snap_files dir), []. rewrite app_nil_r. split_and!; [done|lia|by intros ? ? ? ?%not_elem_of_nil|].
    symmetry. apply filter_id, Forall_forall. intros f _. apply not_elem_of_nil.
  - set (S := merge_sort newer (snap_files dir)). exists (take (Z.to_nat maxKept) S), (drop (Z.to_nat maxKept) S).
    rewrite take_drop. assert (HS : S ≡ₚ snap_files dir) by apply merge_sort_Permutation.
    split_and!; [done| | |done].
    + rewrite length_take, HS. lia.
    + assert (Hs : StronglySorted newer S).
      { apply StronglySorted_merge_sort; [intros x y z; unfold newer; lia|intros x y; unfold newer; lia]. }
      intros a b Ha Hb. rewrite <- (take_drop (Z.to_nat maxKept) S) in Hs.
      exact (StronglySorted_app_1_elem_of newer _ _ a b Hs Ha Hb).
Qed.

(** ** Properties *)

(** A snapshot reads back: Read of what Write writes returns the accounts,
    the open holds in order, and the LSN. *)
Theorem snapshot_roundtrip lsn accs pends : snapshot_ok lsn accs pends ->
  Read (Write lsn accs pends) = Some (Ok (accs, pends, lsn)).
Proof. apply read_written. Qed.

Lemma snapshot_roundtrip_witness :
  Read (Write 7 [zeroAccount] [zeroTransfer]) = Some (Ok ([zeroAccount], [zeroTransfer], 7)).
Proof.
  apply (snapshot_roundtrip 7 [zeroAccount] [zeroTransfer]). constructor; [done| | |by split].
  - constructor; [by constructor|done].
  - constructor; [by constructor|done].
Defined.

(** A damaged snapshot is never loaded: changing any one byte of a file
    that reads makes Read report corruption. *)
Theorem snapshot_corruption_detected data r i a b : Read data = Some (Ok r) -> data !! i = Some a -> a <> b ->
  Read (<[i := b]> data) = Some (Err ErrSnapshotCorrupted).
Proof.
  intros Hr Hi Hne. destruct (read_checksum _ _ Hr) as [Hl Hc]. pose proof (lookup_lt_Some _ _ _ Hi) as Hlt.
  unfold Read. rewrite length_insert. rewrite (proj2 (Nat.ltb_ge _ _)) by lia.
  enough (be_val (drop (length data - 4) (<[i:=b]> data)) <> ChecksumIEEE (take (length data - 4) (<[i:=b]> data))) as H
    by (by rewrite (proj2 (Z.eqb_neq _ _)) by done).
  destruct (decide (i < length data - 4)%nat) as [Hb|Hb].
  - rewrite drop_insert_lt by done. rewrite Hc, take_insert_lt by done. intros E. symmetry in E.
    eapply ChecksumIEEE_insert; [|exact Hne|exact E]. by rewrite lookup_take_lt.
  - rewrite take_insert_ge by lia. rewrite <- Hc, drop_insert_ge by lia. intros E.
    set (n := (length data - 4)%nat) in *. assert (Hl4 : length (drop n data) = 4%nat) by (rewrite length_drop; lia).
    apply (f_equal (be_bytes 4)) in E. rewrite !be_bytes_val in E by (rewrite ?length_insert; done).
    apply (f_equal (fun l => l !! (i - n)%nat)) in E. rewrite list_lookup_insert_eq in E by lia.
    rewrite lookup_drop in E. replace (n + (i - n))%nat with i in E by lia. congruence.
Qed.

Lemma snapshot_corruption_detected_witness :
  Read (<[40%nat := x01]> (Write 7 [zeroAccount] [zeroTransfer])) = Some (Err ErrSnapshotCorrupted).
Proof.
  apply (snapshot_corruption_detected (Write 7 [zeroAccount] [zeroTransfer]) ([zeroAccount], [zeroTransfer], 7) 40 x00 x01).
  - vm_compute. reflexivity.
  - vm_compute. reflexivity.
  - discriminate.
Defined.

(** Latest finds the newest valid snapshot: a file whose contents read
    back, whose name states the LSN in it, and no such file has a higher LSN;
    and it finds none only when there is none. *)
Theorem latest_is_newest dir best : Latest dir = Some best -> newest dir best.
Proof. intros H. by apply (latest_loop_ok dir [] None best); [intros f lsn ?%not_elem_of_nil|]. Qed.

Definition demo_dir : SnapDir :=
  [(gostr "notes.txt", []); (snapshot_name 5, Write 5 [zeroAccount] []); (snapshot_name 7, Write 6 [] []);
   (snapshot_name 6, Write 6 [] [zeroTransfer]); (snapshot_name 9, [x00])].

Lemma latest_is_newest_witness : newest demo_dir (Some (gostr "snapshot-6.snap", 6)).
Proof. apply (latest_is_newest demo_dir (Some (gostr "snapshot-6.snap", 6))). vm_compute. reflexivity. Defined.

(** Cleanup keeps the newest: of the snapshot files exactly the [maxKept]
    with the highest LSNs stay (all, when there are no more), no removed one is
    newer than a kept one, and other files are not touched. *)
Theorem cleanup_keeps_newest maxKept dir : 0 < maxKept -> NoDup dir.*1 ->
  let dir' := CleanupOldSnapshots maxKept dir in
  Z.of_nat (length (snap_files dir')) = Z.min maxKept (Z.of_nat (length (snap_files dir)))
  /\ (forall f, name_lsn f.1 = None -> f ∈ dir' <-> f ∈ dir)
  /\ (forall f g lf lg, f ∈ dir' -> g ∈ dir -> g ∉ dir' -> name_lsn f.1 = Some lf -> name_lsn g.1 = Some lg ->
        lg <= lf).
Proof.
  intros Hm Hd dir'. destruct (cleanup_split maxKept dir Hm Hd) as (kept & removed & HP & Hlen & Hord & E).
  unfold dir'. rewrite E. clear dir'.
  pose proof (snap_files_names dir Hd) as Hn. rewrite HP, fmap_app in Hn. apply NoDup_app in Hn as (_ & Hdis & _).
  split; [|split].
  - rewrite <- Hlen. f_equal.
    transitivity (length (filter (fun f => f.1 ∉ removed.*1) (snap_files dir))).
    { f_equal. exact (snap_files_filter dir (fun n => n ∉ removed.*1)). }
    rewrite HP, filter_app, length_app.
    rewrite (filter_id _ kept), (filter_nil _ removed); [simpl; lia|..]; apply Forall_forall; intros x Hx.
    + intros H. by apply H, list_elem_of_fmap_2.
    + intros H. by apply (Hdis x.1); [apply list_elem_of_fmap_2|].
  - intros f Hf. rewrite list_elem_of_filter. split; [by intros [_ ?]|]. intros Hin. split; [|done].
    intros ([n l] & Hn & Hr)%list_elem_of_fmap.
    assert (Hs : (n, l) ∈ snap_files dir) by (rewrite HP; apply elem_of_app; by right).
    apply snap_files_in in Hs as [Hs _]. cbn in Hn. congruence.
  - intros f g lf lg Hf Hg Hg' Elf Elg. apply list_elem_of_filter in Hf as [Hfr Hf].
    assert (Hfs : (f.1, lf) ∈ kept).
    { assert (H : (f.1, lf) ∈ snap_files dir) by (apply snap_files_in; split; [done|]; exists f.2; by destruct f).
      rewrite HP in H. apply elem_of_app in H as [H|H]; [done|]. exfalso. by apply Hfr, (list_elem_of_fmap_2 fst _ _ H). }
    assert (Hgs : (g.1, lg) ∈ removed).
    { assert (H : (g.1, lg) ∈ snap_files dir) by (apply snap_files_in; split; [done|]; exists g.2; by destruct g).
      rewrite HP in H. apply elem_of_app in H as [H|H]; [|done]. exfalso. apply Hg'.
      apply list_elem_of_filter. split; [|done]. intros Hr. apply (Hdis g.1); [|done].
      by apply (list_elem_of_fmap_2 fst _ _ H). }
    by apply (Hord _ _ Hfs Hgs).
Qed.

Lemma cleanup_keeps_newest_witness :
  Z.of_nat (length (snap_files (CleanupOldSnapshots 2 demo_dir))) = 2
  /\ (forall f, name_lsn f.1 = None -> f ∈ CleanupOldSnapshots 2 demo_dir <-> f ∈ demo_dir)
  /\ (forall f g lf lg, f ∈ CleanupOldSnapshots 2 demo_dir -> g ∈ demo_dir -> g ∉ CleanupOldSnapshots 2 demo_dir ->
        name_lsn f.1 = Some lf -> name_lsn g.1 = Some lg -> lg <= lf).
Proof.
  apply (cleanup_keeps_newest 2 demo_dir); [lia|]. apply (bool_decide_unpack _). vm_compute. exact I.
Defined.
