(* ===== verification/Requests.v ===== *)
(** * Client requests (internal/engine/ledger.go)

    The calls of one client at a time: its events reach the loop in one engine
    batch with no other client's events between them ([EngineProps] has the
    case where they interleave), the ring buffer has room unless [full], and a
    call that would wait for another request to settle does not return: its
    result is [None].  The contexts are live; [now] is the clock reading. *)

From S2P Require Import Prelude Core Uint128 Balance Accounts Transfers Record Wal Idempotency Engine.

Record Node := mkNode {
  n_engine : Engine;
  n_idempKey : IdempotencyStore;
  n_isFollower : bool }.

Definition MaxTransferBatchSize : Z := 8192.
Definition MaxAccountBatchSize : Z := 8192.

(** ** One transfer *)

Definition submit_one (now : Z) (full : bool) (t : Transfer) (g : Engine) : Engine * result Transfer error :=
  if full then (g, Err ErrBufferFull)
  else match processBatch now [t] g with
       | (g, [mkAck t' None]) => (g, Ok t')
       | (g, [mkAck _ (Some err)]) => (g, Err err)
       | (g, _) => (g, Err ErrLedgerClosed)
       end.

Definition CreateTransfer (now : Z) (full : bool) (t : Transfer) (n : Node)
    : option (Node * result Transfer error) :=
  if n_isFollower n then Some (n, Err ErrNotLeader)
  else if no_key t then
    let '(g, r) := submit_one now full t (n_engine n) in
    Some (mkNode g (n_idempKey n) false, r)
  else
    let key := t_IdempotencyKey t in
    match CheckAndReserve now key (n_idempKey n) with
    | (_, Err _) => None
    | (ids, Ok (existing, true)) => Some (mkNode (n_engine n) ids false, Ok existing)
    | (ids, Ok (_, false)) =>
        match submit_one now full t (n_engine n) with
        | (g, Err err) => Some (mkNode g (Rollback key ids) false, Err err)
        | (g, Ok t') => ids ← Commit now key t' ids; Some (mkNode g ids false, Ok t')
        end
    end.

(** ** A batch of transfers *)

(** Phase 1: the outcomes known before submission, [None] for the events to
    submit; nothing when a key waits for another request. *)
Fixpoint reserve_keys (now : Z) (batch : list Transfer) (seenKeys : gset Key) (ids : IdempotencyStore)
    : option (list (option TransferAck) * IdempotencyStore) :=
  match batch with
  | [] => Some ([], ids)
  | t :: batch =>
      let key := t_IdempotencyKey t in
      if no_key t then
        '(rest, ids) ← reserve_keys now batch seenKeys ids; Some (None :: rest, ids)
      else if decide (key ∈ seenKeys) then
        '(rest, ids) ← reserve_keys now batch seenKeys ids;
        Some (Some (mkAck zeroTransfer (Some (ErrIdempotencyConflict key))) :: rest, ids)
      else
        match CheckAndReserve now key ids with
        | (_, Err _) => None
        | (ids, Ok (existing, true)) =>
            '(rest, ids) ← reserve_keys now batch seenKeys ids; Some (Some (mkAck existing None) :: rest, ids)
        | (ids, Ok (_, false)) =>
            '(rest, ids) ← reserve_keys now batch ({[key]} ∪ seenKeys) ids; Some (None :: rest, ids)
        end
  end.

(** The events to submit. *)
Fixpoint queued (batch : list Transfer) (plan : list (option TransferAck)) : list Transfer :=
  match batch, plan with
  | t :: batch, None :: plan => t :: queued batch plan
  | _ :: batch, Some _ :: plan => queued batch plan
  | _, _ => []
  end.

(** [materialize]: settles the keys, by the key of the acknowledged transfer. *)
Fixpoint settle_keys (now : Z) (acks : list TransferAck) (ids : IdempotencyStore) : option IdempotencyStore :=
  match acks with
  | [] => Some ids
  | a :: acks =>
      let t := ack_Transfer a in
      if no_key t then settle_keys now acks ids
      else match ack_Err a with
           | Some _ => settle_keys now acks (Rollback (t_IdempotencyKey t) ids)
           | None => ids ← Commit now (t_IdempotencyKey t) t ids; settle_keys now acks ids
           end
  end.
Fixpoint materialize (plan : list (option TransferAck)) (acks : list TransferAck) : list TransferAck :=
  match plan, acks with
  | Some a :: plan, _ => a :: materialize plan acks
  | None :: plan, a :: acks => a :: materialize plan acks
  | _, _ => []
  end.

Definition CreateTransfers (now : Z) (batch : list Transfer) (n : Node)
    : option (Node * result (list TransferAck) error) :=
  if n_isFollower n then Some (n, Err ErrNotLeader)
  else if (length batch =? 0)%nat then Some (n, Ok [])
  else if MaxTransferBatchSize <? Z.of_nat (length batch)
  then Some (n, Err (ErrBatchTooLarge (Z.of_nat (length batch)) MaxTransferBatchSize))
  else
    '(plan, ids) ← reserve_keys now batch ∅ (n_idempKey n);
    match queued batch plan with
    | [] => Some (mkNode (n_engine n) ids false, Ok (materialize plan []))
    | events =>
        let '(g, acks) := processBatch now events (n_engine n) in
        ids ← settle_keys now acks ids;
        Some (mkNode g ids false, Ok (materialize plan acks))
    end.

(** ** Accounts and reads *)

Definition CreateAccounts (accounts : list Account) (n : Node) : Node * result (list (Account * option error)) error :=
  if n_isFollower n then (n, Err ErrNotLeader)
  else if (length accounts =? 0)%nat then (n, Ok [])
  else if MaxAccountBatchSize <? Z.of_nat (length accounts)
  then (n, Err (ErrBatchTooLarge (Z.of_nat (length accounts)) MaxAccountBatchSize))
  else
    let '(g, results) := processAccountCreate accounts (n_engine n) in
    (mkNode g (n_idempKey n) false, Ok (zip accounts results)).

Definition CreateAccount (acc : Account) (n : Node) : Node * result Account error :=
  if n_isFollower n then (n, Err ErrNotLeader)
  else match CreateAccounts [acc] n with
       | (n, Err err) => (n, Err err)
       | (n, Ok outcomes) =>
           match outcomes with
           | (_, Some err) :: _ => (n, Err err)
           | (a, None) :: _ => (n, Ok a)
           | [] => (n, Err ErrLedgerClosed)
           end
       end.

Definition GetAccount (id : ID) (n : Node) : result Account error :=
  match handleRead id (n_engine n) with
  | (a, None) => Ok a
  | (_, Some err) => Err err
  end.
Definition GetBalance (id : ID) (n : Node) : result Uint128 error :=
  acc <-? GetAccount id n ;; Balance acc.
Definition Ledger_GetTransfer (id : ID) (n : Node) : result Transfer error :=
  match handleReadTransfer id (n_engine n) with
  | Some t => Ok t
  | None => Err (ErrTransferNotFound id)
  end.
Definition GetAccountTransfers (accountID afterID : ID) (limit : Z) (n : Node) : list Transfer :=
  handleReadAccountTransfers accountID afterID limit (n_engine n).
