(* ===== verification/RequestsProps.v ===== *)
(** * Properties of the client calls

    A store at rest holds no reservation; while a call is in progress the
    reserved keys are those of its own transfers. *)

From S2P Require Import Prelude Core Uint128 Codec Accounts LedgerSpec AccountsRefine AccountsProps.
From S2P Require Import Transfers TransfersRefine TransfersProps Record Wal Recovery WalProps RecoveryProps.
From S2P Require Import Idempotency IdempotencyProps Engine EngineRefine EngineProps Requests.

(** ** The store during a call *)

(** Every pending entry is one of [keys]. *)
Definition quiet (keys : list Key) (ids : IdempotencyStore) : Prop :=
  exists l, rep ids l /\ Forall (fun x => sl_pending x = true -> sl_key x ∈ keys) (view ids l)
    /\ 0 < st_maxSize ids.

Lemma quiet_settled ids : quiet [] ids <-> settled ids.
Proof.
  unfold quiet, settled. split; intros (l & Hr & H & Hm); exists l; (split; [done|]); split; try done.
  - apply pendings_nil. eapply Forall_impl; [exact H|]. intros x Hx. cbn in Hx. destruct (sl_pending x); [|done].
    by destruct (not_elem_of_nil _ (Hx eq_refl)).
  - apply pendings_nil in H. eapply Forall_impl; [exact H|]. cbn. congruence.
Qed.

Lemma quiet_mono keys keys' ids : quiet keys ids -> (forall k, k ∈ keys -> k ∈ keys') -> quiet keys' ids.
Proof.
  intros (l & Hr & H & Hm) Hk. exists l. split; [done|]. split; [|done].
  eapply Forall_impl; [exact H|]. cbn. auto.
Qed.

Lemma evict_Forall (P : slot -> Prop) now L : Forall P L -> Forall P (evict now L).
Proof.
  intros H. destruct (evict_prefix now L) as (K & EK & _). rewrite EK in H. by apply Forall_app in H as [H _].
Qed.
Lemma drop_Forall (P : slot -> Prop) key L : Forall P L -> Forall P (drop_key key L).
Proof. rewrite !Forall_forall. intros H x [_ Hx]%list_elem_of_filter. by apply H. Qed.

Lemma quiet_check now key keys ids : quiet keys ids -> key ∉ keys ->
  exists ids' t, CheckAndReserve now key ids = (ids', Ok (t, true)) /\ quiet keys ids'
       /\ st_maxSize ids' = st_maxSize ids /\ st_ttl ids' = st_ttl ids
  \/ CheckAndReserve now key ids = (ids', Ok (zeroTransfer, false)) /\ quiet (key :: keys) ids'
       /\ st_maxSize ids' = st_maxSize ids /\ st_ttl ids' = st_ttl ids.
Proof.
  intros (l & Hr & Hf & Hm) Hk. pose proof (check_ok now key ids l Hr) as H.
  destruct (CheckAndReserve now key ids) as [ids' r]. unfold spec_check in H.
  assert (Hres : forall L, Forall (fun x => sl_pending x = true -> sl_key x ∈ keys) L ->
            Forall (fun x => sl_pending x = true -> sl_key x ∈ key :: keys)
              (mkSlot key zeroTransfer true (now + st_ttl ids) :: L)).
  { intros L HL. constructor; [intros _; by left|]. eapply Forall_impl; [exact HL|]. cbn. intros x Hx Hp.
    right. by apply Hx. }
  destruct (find_key key (view ids l)) as [x|] eqn:Ef.
  - destruct (sl_pending x) eqn:Ep.
    { exfalso. apply Hk. unfold find_key in Ef. destruct (list_find _ _) as [[i y]|] eqn:El; [|done]. injection Ef as ->.
      apply list_find_Some in El as (Hi & <- & _). rewrite Forall_forall in Hf.
      apply Hf; [by eapply list_elem_of_lookup_2|done]. }
    destruct (now <? sl_expires x); destruct H as [(l' & Hr' & Hv & Hm' & Ht) ->].
    + exists ids', (sl_transfer x). left. split; [done|]. split; [|done]. exists l'. rewrite Hv, Hm'. by split.
    + exists ids', zeroTransfer. right. split; [done|]. split; [|done]. exists l'. rewrite Hv, Hm'. split; [done|].
      split; [|done]. by apply Hres, drop_Forall, evict_Forall.
  - destruct H as [(l' & Hr' & Hv & Hm' & Ht) ->].
    exists ids', zeroTransfer. right. split; [done|]. split; [|done]. exists l'. rewrite Hv, Hm'. split; [done|].
    split; [|done]. by apply Hres, evict_Forall.
Qed.

Lemma others_kept key keys L : Forall (fun x => sl_pending x = true -> sl_key x ∈ key :: keys) L ->
  Forall (fun x => sl_pending x = true -> sl_key x ∈ keys) (drop_key key L).
Proof.
  rewrite !Forall_forall. intros H x [Hne Hx]%list_elem_of_filter Hp.
  by destruct (proj1 (elem_of_cons _ _ _) (H x Hx Hp)) as [E|].
Qed.

Lemma quiet_rollback key keys ids : quiet (key :: keys) ids ->
  quiet keys (Rollback key ids) /\ st_maxSize (Rollback key ids) = st_maxSize ids.
Proof.
  intros (l & Hr & Hf & Hm). destruct (rollback_ok key ids l Hr) as (l' & Hr' & Hv & Hm' & _).
  split; [|done]. exists l'. rewrite Hv, Hm'. split; [done|]. split; [|done]. unfold spec_rollback.
  destruct (find_key key (view ids l)) as [x|] eqn:Ef.
  - destruct (sl_pending x) eqn:Ep; [by apply others_kept|]. rewrite Forall_forall in Hf |- *. intros y Hy Hp.
    destruct (proj1 (elem_of_cons _ _ _) (Hf y Hy Hp)) as [E|]; [|done]. exfalso.
    pose proof (keys_distinct _ _ Hr) as Hn. unfold find_key in Ef.
    destruct (list_find _ _) as [[i z]|] eqn:El; [|done]. injection Ef as ->.
    apply list_find_Some in El as (Hi & Hk & _). apply list_elem_of_lookup in Hy as [j Hj].
    assert (i = j) as ->.
    { eapply NoDup_lookup; [exact Hn|by rewrite list_lookup_fmap, Hi|rewrite list_lookup_fmap, Hj; cbn; congruence]. }
    congruence.
  - pose proof (others_kept _ _ _ Hf) as H. by rewrite (drop_none _ _ Ef) in H.
Qed.

Lemma NoDup_keys_filter (P : slot -> Prop) `{forall x, Decision (P x)} L :
  NoDup (sl_key <$> L) -> NoDup (sl_key <$> filter P L).
Proof.
  induction L as [|x L IH]; [done|]. cbn [fmap list_fmap]. intros [Hx HL]%NoDup_cons.
  destruct (decide (P x)); [rewrite filter_cons_True by done|rewrite filter_cons_False by done; by apply IH].
  cbn [fmap list_fmap]. apply NoDup_cons. split; [|by apply IH].
  intros (y & E & [_ Hy]%list_elem_of_filter)%list_elem_of_fmap. apply Hx. rewrite E. by apply list_elem_of_fmap_2.
Qed.

(** The reservations of [keys] are at most as many. *)
Lemma pendings_bound keys L : NoDup (sl_key <$> L) ->
  Forall (fun x => sl_pending x = true -> sl_key x ∈ keys) L -> (length (pendings L) <= length keys)%nat.
Proof.
  intros Hn Hf. rewrite <- (length_fmap sl_key (pendings L)). apply submseteq_length, NoDup_submseteq.
  - by apply NoDup_keys_filter.
  - intros k (x & -> & [Hp Hx]%list_elem_of_filter)%list_elem_of_fmap. rewrite Forall_forall in Hf. by apply Hf.
Qed.

Lemma quiet_commit now key t keys ids : quiet (key :: keys) ids -> Z.of_nat (length keys) < st_maxSize ids ->
  exists ids', Commit now key t ids = Some ids' /\ quiet keys ids'
    /\ st_maxSize ids' = st_maxSize ids
    /\ forall now', now' < now + st_ttl ids -> CheckAndReserve now' key ids' = (ids', Ok (t, true)).
Proof.
  intros (l & Hr & Hf & Hm) Hlen.
  assert (Ho : Forall (fun x => sl_pending x = true -> sl_key x ∈ keys) (drop_key key (evict now (view ids l))))
    by (by apply others_kept, evict_Forall).
  assert (Hfl : in_flight now key ids l < st_maxSize ids).
  { unfold in_flight. pose proof (pendings_bound keys (drop_key key (evict now (view ids l)))) as Hb.
    specialize (fun H => Hb H Ho). enough (NoDup (sl_key <$> drop_key key (evict now (view ids l)))) by (specialize (Hb ltac:(done)); lia).
    pose proof (keys_distinct _ _ Hr) as Hn. destruct (evict_prefix now (view ids l)) as (K & EK & _).
    rewrite EK, fmap_app in Hn. apply NoDup_app in Hn as (Hn & _).
    by apply NoDup_keys_filter. }
  destruct (commit_found ids l now key t Hr Hfl) as (ids' & l' & E & Hr' & Hm' & Ht' & _ & Hp & Hfound).
  exists ids'. split; [done|]. split; [|by split].
  exists l'. split; [done|]. split; [|lia].
  apply Forall_forall. intros x Hx Hpx.
  assert (Hin : x ∈ pendings (view ids' l')) by (apply list_elem_of_filter; by split).
  rewrite Hp in Hin. apply list_elem_of_filter in Hin as [_ Hin]. rewrite Forall_forall in Ho. by apply Ho.
Qed.

(** ** One transfer *)

(** An idempotent request is applied once.  On a store at rest the call
    returns and leaves the store at rest; a key that was seen returns its
    transfer without touching the engine; a new key runs one engine batch, and
    after its success every later call with the key, whatever its transfer says,
    returns the same transfer and changes nothing, until the key expires. *)
Lemma keyed_transfer_applied_once n now full t : settled (n_idempKey n) -> n_isFollower n = false ->
  no_key t = false ->
  exists n' r, CreateTransfer now full t n = Some (n', r) /\ settled (n_idempKey n')
    /\ match (CheckAndReserve now (t_IdempotencyKey t) (n_idempKey n)).2 with
       | Ok (existing, true) => r = Ok existing /\ n_engine n' = n_engine n
       | _ => n_engine n' = (submit_one now full t (n_engine n)).1
              /\ r = (submit_one now full t (n_engine n)).2
              /\ forall t' now' full' t2, r = Ok t' -> t_IdempotencyKey t2 = t_IdempotencyKey t ->
                   now' < now + st_ttl (n_idempKey n) -> CreateTransfer now' full' t2 n' = Some (n', Ok t')
       end.
Proof.
  intros Hs Hf Hk. apply quiet_settled in Hs. unfold CreateTransfer. rewrite Hf, Hk.
  destruct (quiet_check now (t_IdempotencyKey t) [] (n_idempKey n) Hs (not_elem_of_nil _))
    as (ids' & x & [(-> & Hq & Hm & Ht)|(-> & Hq & Hm & Ht)]); cbn [snd].
  - eexists _, _. split; [done|]. cbn. split; [by apply quiet_settled|done].
  - destruct (submit_one now full t (n_engine n)) as [g [t'|e]]; cbn [fst snd].
    + assert (0 < st_maxSize ids') by (by destruct Hq as (? & _ & _ & ?)).
      destruct (quiet_commit now (t_IdempotencyKey t) t' [] ids' Hq ltac:(cbn; lia)) as (ids2 & -> & Hq2 & _ & Hfound).
      cbn [mbind option_bind]. eexists _, _. split; [done|]. cbn [n_idempKey n_engine]. split; [by apply quiet_settled|].
      split; [done|]. split; [done|]. intros t1 now' full' t2 [= <-] Ek Hn.
      unfold CreateTransfer. cbn [n_isFollower n_idempKey n_engine].
      assert (Hk2 : no_key t2 = false) by (unfold no_key in *; by rewrite Ek).
      rewrite Hk2, Ek, Hfound by lia. done.
    + eexists _, _. split; [done|]. cbn [n_idempKey n_engine].
      destruct (quiet_rollback _ _ _ Hq) as [Hq2 _]. split; [by apply quiet_settled|]. split; [done|]. by split.
Qed.

(** ** A batch *)

Definition keyed (ts : list Transfer) : list Key := t_IdempotencyKey <$> filter (fun t => no_key t = false) ts.

Lemma keyed_cons t ts : keyed (t :: ts) = (if no_key t then [] else [t_IdempotencyKey t]) ++ keyed ts.
Proof.
  unfold keyed. destruct (no_key t) eqn:E; [rewrite filter_cons_False by congruence|rewrite filter_cons_True by done]; done.
Qed.

Lemma reserve_keys_ok now batch : forall seen ids keys, quiet keys ids -> (forall k, k ∈ seen <-> k ∈ keys) ->
  exists plan ids', reserve_keys now batch seen ids = Some (plan, ids') /\ length plan = length batch
    /\ quiet (keyed (queued batch plan) ++ keys) ids' /\ st_maxSize ids' = st_maxSize ids
    /\ length (queued batch plan) = length (filter (fun o => o = None) plan).
Proof.
  induction batch as [|t batch IH]; intros seen ids keys Hq Hs; cbn [reserve_keys].
  { exists [], ids. by split_and!. }
  destruct (no_key t) eqn:Ek.
  { destruct (IH seen ids keys Hq Hs) as (plan & ids' & -> & Hl & Hq' & Hm & Hc). cbn [mbind option_bind].
    exists (None :: plan), ids'. cbn [queued length]. rewrite keyed_cons, Ek, Hl, filter_cons_True by done. cbn [length].
    split_and!; try done. by rewrite Hc. }
  destruct (decide (t_IdempotencyKey t ∈ seen)) as [Hin|Hin].
  { destruct (IH seen ids keys Hq Hs) as (plan & ids' & -> & Hl & Hq' & Hm & Hc). cbn [mbind option_bind].
    eexists (Some _ :: plan), ids'. cbn [queued length]. rewrite Hl, filter_cons_False by done. by split_and!. }
  destruct (quiet_check now (t_IdempotencyKey t) keys ids Hq ltac:(by rewrite <- Hs))
    as (ids1 & x & [(-> & Hq1 & Hm1 & _)|(-> & Hq1 & Hm1 & _)]).
  - destruct (IH seen ids1 keys Hq1 Hs) as (plan & ids' & -> & Hl & Hq' & Hm & Hc). cbn [mbind option_bind].
    eexists (Some _ :: plan), ids'. cbn [queued length]. rewrite Hl, filter_cons_False by done. split_and!; try done. lia.
  - destruct (IH ({[t_IdempotencyKey t]} ∪ seen) ids1 (t_IdempotencyKey t :: keys) Hq1) as (plan & ids' & -> & Hl & Hq' & Hm & Hc).
    { intros k. rewrite elem_of_union, elem_of_singleton, elem_of_cons, Hs. done. }
    cbn [mbind option_bind]. exists (None :: plan), ids'. cbn [queued length].
    rewrite keyed_cons, Ek, Hl, filter_cons_True by done. cbn [length app]. split_and!; try done; [|lia|by rewrite Hc].
    eapply quiet_mono; [exact Hq'|]. intros k. cbn. rewrite !elem_of_app, !elem_of_cons, !elem_of_app. tauto.
Qed.

Lemma settle_keys_ok now acks : forall ids, quiet (keyed (ack_Transfer <$> acks)) ids ->
  Z.of_nat (length acks) <= st_maxSize ids ->
  exists ids', settle_keys now acks ids = Some ids' /\ quiet [] ids'.
Proof.
  induction acks as [|a acks IH]; intros ids Hq Hl; cbn [settle_keys]; [by exists ids|].
  cbn [fmap list_fmap length] in Hq, Hl. rewrite keyed_cons in Hq. destruct (no_key (ack_Transfer a)).
  { apply IH; [done|lia]. }
  assert (Hlk : (length (keyed (ack_Transfer <$> acks)) <= length acks)%nat).
  { unfold keyed. rewrite length_fmap. etransitivity; [apply length_filter|]. by rewrite length_fmap. }
  destruct (ack_Err a) as [e|].
  - destruct (quiet_rollback _ _ _ Hq) as [Hq' Hm]. apply IH; [done|lia].
  - destruct (quiet_commit now (t_IdempotencyKey (ack_Transfer a)) (ack_Transfer a) _ ids Hq) as (ids' & -> & Hq' & Hm & _);
      [lia|]. cbn [mbind option_bind]. apply IH; [done|lia].
Qed.

Lemma materialize_length plan : forall acks, length acks = length (filter (fun o : option TransferAck => o = None) plan) ->
  length (materialize plan acks) = length plan.
Proof.
  induction plan as [|[a|] plan IH]; intros acks Hl; cbn [materialize length]; [done| |].
  - rewrite filter_cons_False in Hl by done. by rewrite IH.
  - rewrite filter_cons_True in Hl by done. destruct acks as [|a acks]; cbn in *; [lia|]. rewrite IH; lia.
Qed.

Lemma zip_acks evs : forall outs, length outs = length evs -> ack_Transfer <$> zip_with mkAck evs outs = evs.
Proof. induction evs as [|t evs IH]; intros [|o outs] Hl; try done. cbn in *. f_equal. apply IH. lia. Qed.

(** In a run, the loop acknowledges every event, in order, with its stamped
    transfer. *)
Lemma acks_positional size now0 ids0 g bs C wall events : consistent size now0 ids0 g bs -> 161 <= size ->
  C < 2 ^ 63 -> command_ok C (Transfers wall events) -> batch_clock wall g <= C ->
  ack_Transfer <$> (processBatch wall events g).2 = set_Timestamp (batch_clock wall g) <$> events.
Proof.
  intros Hco Hsize HC (Hw & Hto & Hlen) Hle. pose proof Hco as [H0 _ _ _ _ _ _ (r & ids & _ & _ & Hrel)].
  pose proof Hrel as (Hm & _ & Hmrec & _).
  pose proof (batch_clock_gt wall g). unfold processBatch. fold (batch_clock wall g).
  set (t0 := batch_clock wall g) in *. clearbody t0. assert (Hi : is_i64 t0) by (unfold is_i64; lia).
  destruct (batch_ok (g_accounts g) t0 events Hm Hmrec Hi Hw) as (Hg1 & A1 & m' & Eapp & _).
  set (outs := ValidateBatch (CloseExpired (SetClock t0 (g_accounts g))) (set_Timestamp t0 <$> events)) in *.
  set (evs := set_Timestamp t0 <$> events) in *. rewrite Eapp, makeWALRecords_accepted.
  assert (Hwe : Forall wf_transfer evs).
  { apply Forall_fmap. eapply Forall_impl; [exact Hw|]. intros t Ht. by apply set_timestamp_wf. }
  assert (Hrec1 : holds_recorded (abs (CloseExpired (SetClock t0 (g_accounts g))))).
  { rewrite A1. by apply closed_recorded. }
  assert (Hlo : length outs = length evs).
  { destruct (validate_decided _ evs Hg1 Hrec1 Hwe) as (L & S & Hd). fold outs in Hd.
    by destruct (decided_inv _ evs Hg1 Hrec1 Hwe _ _ _ _ Hd) as (_ & _ & ? & _). }
  assert (Hz : ack_Transfer <$> zip_with mkAck evs outs = evs).
  { by apply zip_acks. }
  fold transfer_record. change (fun t => mkRecord 0 RecordTypeTransfer (AppendTransferPayload [] t)) with transfer_record.
  destruct (accepted evs outs) as [|t ts] eqn:Eacc; [done|]. rewrite <- Eacc.
  assert (Hb : client_batch size (transfer_record <$> accepted evs outs)).
  { apply (records_client_batch _ 144); [by rewrite Eacc|done|lia| |].
    - eapply Forall_impl; [apply accepted_Forall, Hwe|]. apply transfer_record_shape.
    - pose proof (accepted_le evs outs). assert (length evs = length events) by apply length_fmap. lia. }
  destruct (log_batch _ _ _ _ _ _ _ _ _ _ Hco Hsize Hb) as (w & Ew & _).
  destruct (transfer_record <$> accepted evs outs) as [|r0 rs0] eqn:Erec; [by rewrite Eacc in Erec|].
  by rewrite Ew.
Qed.

(** A batch call settles what it reserves.  On an engine reached by any run
    and a store at rest that can hold the batch's keys, CreateTransfers returns
    one outcome for each transfer and leaves no reservation behind, whatever
    fails: an empty batch, too large a batch and a follower are refused before
    anything changes. *)
Theorem batch_call_settles size C cs n now batch : 161 <= size -> C < 2 ^ 63 -> Forall (command_ok C) cs ->
  n_engine n = run cs (fresh size) -> batch_clock now (n_engine n) <= C ->
  Forall wf_transfer batch -> Forall (fun t => t_Timeout t + C < 2 ^ 63) batch ->
  settled (n_idempKey n) -> Z.of_nat (length batch) <= st_maxSize (n_idempKey n) ->
  if n_isFollower n then CreateTransfers now batch n = Some (n, Err ErrNotLeader)
  else if MaxTransferBatchSize <? Z.of_nat (length batch)
  then CreateTransfers now batch n = Some (n, Err (ErrBatchTooLarge (Z.of_nat (length batch)) MaxTransferBatchSize))
  else exists n' outcomes, CreateTransfers now batch n = Some (n', Ok outcomes)
         /\ length outcomes = length batch /\ settled (n_idempKey n').
Proof.
  intros Hsize HC Hcs Hn Hle Hw Hto Hs Hcap. unfold CreateTransfers. destruct (n_isFollower n); [done|].
  destruct (Nat.eqb_spec (length batch) 0) as [E0|E0].
  { rewrite (proj2 (Z.ltb_ge _ _)) by (unfold MaxTransferBatchSize; lia). exists n, []. by rewrite E0. }
  destruct (Z.ltb_spec MaxTransferBatchSize (Z.of_nat (length batch))) as [Hbig|Hsm]; [done|].
  apply quiet_settled in Hs.
  destruct (reserve_keys_ok now batch ∅ (n_idempKey n) [] Hs) as (plan & ids' & -> & Hl & Hq & Hm & Hc).
  { intros k. rewrite elem_of_empty. split; [done|]. by intros ?%not_elem_of_nil. }
  cbn [mbind option_bind]. rewrite app_nil_r in Hq.
  assert (Hsub : forall b p, sublist (queued b p) b).
  { induction b as [|t b IH]; intros [|[a|] p]; cbn [queued]; try apply sublist_nil_l; by constructor. }
  assert (Hql : (length (queued batch plan) <= length batch)%nat) by apply sublist_length, Hsub.
  destruct (queued batch plan) as [|e es] eqn:Eq.
  { eexists _, _. split; [done|]. split; [by rewrite materialize_length|]. by apply quiet_settled. }
  rewrite <- Eq in *.
  assert (HP : forall P : Transfer -> Prop, Forall P batch -> Forall P (queued batch plan)).
  { intros P. rewrite !Forall_forall. intros H x Hx. apply H. by eapply elem_of_sublist; [|apply Hsub]. }
  destruct (run_consistent size 0 (NewIdempotencyStore 1 1) C cs (fresh size)
    (fresh_consistent _ _ _ Hsize (settled_new 1 1)) Hsize HC Hcs) as (bs & Hco & _).
  { rewrite <- Hn. pose proof (batch_clock_gt now (n_engine n)). lia. }
  rewrite <- Hn in Hco.
  assert (Hack : ack_Transfer <$> (processBatch now (queued batch plan) (n_engine n)).2
                 = set_Timestamp (batch_clock now (n_engine n)) <$> queued batch plan).
  { eapply acks_positional; try done. split; [by apply HP|]. split; [by apply HP|].
    unfold MaxTransferBatchSize in Hsm. lia. }
  rewrite Eq in Hack |- *.
  destruct (processBatch now (e :: es) (n_engine n)) as [g acks]. cbn [snd] in Hack. rewrite <- Eq in Hack.
  assert (Hla : length acks = length (queued batch plan)) by (apply (f_equal length) in Hack; by rewrite !length_fmap in Hack).
  assert (Hkeys : keyed (set_Timestamp (batch_clock now (n_engine n)) <$> queued batch plan) = keyed (queued batch plan)).
  { generalize (queued batch plan). clear. induction l as [|t l IH]; [done|]. cbn [fmap list_fmap]. rewrite !keyed_cons.
    by rewrite <- IH. }
  destruct (settle_keys_ok now acks ids') as (ids2 & -> & Hq2).
  { by rewrite Hack, Hkeys. }
  { rewrite Hm, Hla. lia. }
  cbn [mbind option_bind]. eexists _, _. split; [done|]. split; [|by apply quiet_settled].
  rewrite materialize_length; [done|]. by rewrite Hla.
Qed.

(** ** Witnesses, and a leak *)

Definition with_key (k : Key) (t : Transfer) : Transfer :=
  mkTransfer (t_ID t) (t_DebitAccountID t) (t_CreditAccountID t) (t_Amount t) k (t_UserData128 t) (t_Timestamp t)
    (t_Timeout t) (t_Ledger t) (t_Code t) (t_Flags t).
Definition node_of (size : Z) : Node :=
  mkNode (run [demo_accounts] (fresh size)) (NewIdempotencyStore 10 1000) false.
Definition keyed_xfer : Transfer := with_key (key_of 1) (xfer 11 1 2 7 0 0).

(** A log error leaks reservations.  When the append of an engine batch
    fails, the loop acknowledges every event with an empty transfer, and
    CreateTransfers settles by the key of the acknowledged transfer: the call
    returns the error but its keys stay reserved, and a retry waits for them.
    CreateTransfer settles by the key it reserved, and its retry does not. *)
Theorem log_error_leaks_keys :
  (CreateTransfers 100 [keyed_xfer] (node_of 150) ≫= fun '(n, r) =>
     Some (match r with Ok acks => ack_Err <$> acks | Err _ => [] end, CreateTransfers 101 [keyed_xfer] n))
  = Some ([Some (ErrRecordTooLarge 161 150)], None)
  /\ (CreateTransfer 100 false keyed_xfer (node_of 150) ≫= fun '(n, r) =>
        '(n', r') ← CreateTransfer 101 false keyed_xfer n; Some (r, r'))
     = Some (Err (ErrRecordTooLarge 161 150), Err (ErrRecordTooLarge 161 150)).
Proof. split; vm_compute; reflexivity. Qed.

Lemma batch_call_settles_witness :
  exists n' outcomes, CreateTransfers 1000 [keyed_xfer; xfer 12 1 2 3 0 0] (node_of 4096) = Some (n', Ok outcomes)
    /\ length outcomes = 2%nat /\ settled (n_idempKey n').
Proof.
  assert (Hw : Forall wf_transfer [keyed_xfer; xfer 12 1 2 3 0 0]).
  { constructor; [|constructor; [by apply xfer_wf|constructor]].
    assert (H : wf_transfer (xfer 11 1 2 7 0 0)) by (by apply xfer_wf). destruct H. by constructor. }
  apply (batch_call_settles 4096 5000 [demo_accounts] (node_of 4096) 1000 [keyed_xfer; xfer 12 1 2 3 0 0]).
  - lia.
  - lia.
  - constructor; [|constructor]. pose proof (demo_ok 5000 ltac:(lia)) as H. by inversion H.
  - reflexivity.
  - vm_compute. discriminate.
  - exact Hw.
  - repeat constructor.
  - apply settled_new.
  - vm_compute. discriminate.
Defined.
