(* ===== verification/Checkpoint.v ===== *)
(** * Checkpoints (internal/engine/ledger.go)

    A node is an engine with its directory of snapshots.  TriggerSnapshot runs
    on its caller's goroutine: only the view is taken by the event loop, and
    other batches, and other calls, may run before the file is written and
    before the log is truncated.  [n_calls] holds the calls in progress, and
    each step of one is a step of the node.  File operations succeed. *)

From S2P Require Import Prelude Core Accounts Wal Idempotency Engine Snapshot.

(** ** The directory of snapshots, sorted by name *)

Fixpoint name_before (a b : gostring) : bool :=
  match a, b with
  | [], _ :: _ => true
  | _, [] => false
  | x :: a, y :: b =>
      if byte_val x <? byte_val y then true
      else if byte_val y <? byte_val x then false
      else name_before a b
  end.
Fixpoint snap_insert (name : gostring) (data : list byte) (dir : SnapDir) : SnapDir :=
  match dir with
  | [] => [(name, data)]
  | f :: dir' => if name_before name f.1 then (name, data) :: dir else f :: snap_insert name data dir'
  end.
(** [os.Rename] onto the name replaces a file. *)
Definition snap_put (name : gostring) (data : list byte) (dir : SnapDir) : SnapDir :=
  snap_insert name data (filter (fun f => f.1 <> name) dir).
Definition snap_get (dir : SnapDir) (name : gostring) : option (list byte) :=
  snd <$> head (filter (fun f => f.1 = name) dir).

(** ** Nodes *)

(** A TriggerSnapshot in progress: it has its view, or has written its file. *)
Inductive snap_call : Type :=
| Viewed (accs : list Account) (pendings : list Transfer) (lsn : Z)
| Written (lsn : Z).

Record Node := mkNode {
  n_engine : Engine;
  n_snapshots : SnapDir;
  n_calls : list snap_call }.

Definition set_wal (w : WAL) (l : Engine) : Engine := mkEngine (g_accounts l) w (g_currentLSN l) (g_clock l).

Definition write_snapshot (accs : list Account) (pendings : list Transfer) (lsn : Z) (dir : SnapDir) : SnapDir :=
  let dir := snap_put (snapshot_name lsn) (Write lsn accs pendings) dir in
  CleanupOldSnapshots 3 dir.

(** The whole call when nothing else runs. *)
Definition TriggerSnapshot (nd : Node) : Node * Z :=
  let '(accs, pendings, lsn) := snapshot_view (n_engine nd) in
  if lsn <=? 0 then (nd, 0)
  else
    let dir := write_snapshot accs pendings lsn (n_snapshots nd) in
    let w := TruncateBefore lsn (g_wal (n_engine nd)) in
    (mkNode (set_wal w (n_engine nd)) dir (n_calls nd), lsn).

(** Its steps. *)
Definition snap_begin (nd : Node) : Node :=
  let '(accs, pendings, lsn) := snapshot_view (n_engine nd) in
  if lsn <=? 0 then nd
  else mkNode (n_engine nd) (n_snapshots nd) (n_calls nd ++ [Viewed accs pendings lsn]).
Definition snap_advance (i : nat) (nd : Node) : Node :=
  match n_calls nd !! i with
  | Some (Viewed accs pendings lsn) =>
      mkNode (n_engine nd) (write_snapshot accs pendings lsn (n_snapshots nd)) (<[i := Written lsn]> (n_calls nd))
  | Some (Written lsn) =>
      mkNode (set_wal (TruncateBefore lsn (g_wal (n_engine nd))) (n_engine nd)) (n_snapshots nd) (delete i (n_calls nd))
  | None => nd
  end.

(** ** The background checkpointer *)

Record Checkpointer := mkCheckpointer {
  cp_recovered : bool;
  cp_checkpointOn : bool;
  cp_snapshotCycleOK : bool;
  cp_lastSnapshotLSN : Z }.

(** TriggerSnapshot does not fail here, as file operations succeed. *)
Definition takeSnapshot (s : Node * Checkpointer) : Node * Checkpointer :=
  let '(nd, cp) := s in
  let '(nd, lsn) := TriggerSnapshot nd in
  let last := if 0 <? lsn then lsn else cp_lastSnapshotLSN cp in
  (nd, mkCheckpointer (cp_recovered cp) (cp_checkpointOn cp) true last).

(** The first cycle; the goroutine's later ones are [takeSnapshot] again.  The
    number of snapshots to keep is normalized but not used. *)
Definition StartCheckpointer (interval maxKept : Z) (s : Node * Checkpointer) : Node * Checkpointer :=
  let '(nd, cp) := s in
  if interval <=? 0 then s
  else if cp_checkpointOn cp then s
  else takeSnapshot (nd, mkCheckpointer (cp_recovered cp) true (cp_snapshotCycleOK cp) (cp_lastSnapshotLSN cp)).

Definition Ready (cp : Checkpointer) : bool :=
  if negb (cp_recovered cp) then false
  else if cp_checkpointOn cp && negb (cp_snapshotCycleOK cp) then false
  else true.

(** ** Starting a node *)

(** The snapshot NewLedger restores: the newest that reads back.  The outer
    [None] is a panic of Read. *)
Definition load_snapshot (dir : SnapDir) : option (option (list Account * list Transfer * Z)) :=
  match Latest dir with
  | None => None
  | Some None => Some None
  | Some (Some (path, _)) =>
      match snap_get dir path with
      | None => Some None
      | Some data =>
          match Read data with
          | None => None
          | Some (Ok snap) => Some (Some snap)
          | Some (Err _) => Some None
          end
      end
  end.

Definition StartNode (now : Z) (initial : list Account) (maxSize ttl : Z) (dir : SnapDir) (w : WAL)
    : option (result (Node * IdempotencyStore) error) :=
  snap ← load_snapshot dir;
  Some (match NewLedger now (mkConfig initial maxSize ttl snap) w with
        | Err err => Err err
        | Ok (g, ids) => Ok (mkNode g dir [], ids)
        end).
