(* ===== verification/SnapDirProps.v ===== *)
(** * The directory of snapshots over time

    Snapshots are written and cleaned up; the newest, whatever order the calls
    run in, stays and is the one a restart loads. *)

From S2P Require Import Prelude Core Uint128 Codec Crc Accounts Wal Idempotency Engine Snapshot SnapshotProps Checkpoint.

#[local] Arguments Write : simpl never.
#[local] Arguments Read : simpl never.
#[local] Arguments snapshot_name : simpl never.

(** ** File names *)

Lemma parse_digits_dec s acc : Forall is_digit s ->
  parse_digits acc s = Some (foldl (fun acc c => acc * 10 + (byte_val c - 48)) acc s).
Proof.
  intros H. revert acc. induction H as [|c s Hc _ IH]; intros acc; [done|]. cbn [parse_digits foldl].
  unfold digit_of. unfold is_digit in Hc. rewrite (proj2 (Z.leb_le 0 _)), (proj2 (Z.leb_le _ 9)) by lia.
  cbn [andb mbind option_bind]. apply IH.
Qed.

Lemma digit_not_dash c : is_digit c -> c <> x2d /\ c <> x2b.
Proof. unfold is_digit. intros H. split; intros ->; vm_compute in H; by destruct H. Qed.

Lemma last_part_digits s cur found : Forall is_digit s ->
  last_part s cur found = if found then Some (cur ++ s) else None.
Proof.
  intros H. revert cur. induction H as [|c s Hc _ IH]; intros cur; [by rewrite app_nil_r|].
  destruct (digit_not_dash c Hc) as [Hd _].
  assert (E : last_part (c :: s) cur found = last_part s (cur ++ [c]) found) by (by destruct c).
  rewrite E, IH, <- app_assoc. done.
Qed.

Lemma ParseInt_digits s : s <> [] -> Forall is_digit s -> dec_val s < 2 ^ 63 -> ParseInt s = Some (dec_val s).
Proof.
  intros Hne Hs Hm. destruct s as [|c s]; [done|]. pose proof Hs as [Hc _]%Forall_cons.
  destruct (digit_not_dash c Hc) as [H1 H2]. unfold ParseInt.
  pose proof (parse_digits_dec (c :: s) 0 Hs) as E. pose proof (dec_val_mono (c :: s) 0 ltac:(lia) Hs) as Hpos.
  fold (dec_val (c :: s)) in E, Hpos.
  assert (Ed : match c :: s with
               | x2d :: s => (true, s)
               | x2b :: s => (false, s)
               | _ => (false, c :: s)
               end = (false, c :: s)) by (by destruct c).
  rewrite Ed, E. cbn [mbind option_bind]. rewrite (proj2 (Z.leb_le _ _)), (proj2 (Z.ltb_lt _ _)) by lia. done.
Qed.

Lemma trim_snap_app base : trim_snap (base ++ suffix_snap) = Some base.
Proof.
  unfold trim_snap. rewrite length_app. replace (length base + length suffix_snap - length suffix_snap)%nat
    with (length base) by lia.
  rewrite drop_app_length, take_app_length, bool_decide_true by done.
  by rewrite (proj2 (Nat.leb_le _ _)) by lia.
Qed.

Lemma snapshot_name_lsn lsn : 0 < lsn < 2 ^ 63 -> name_lsn (snapshot_name lsn) = Some lsn.
Proof.
  intros H. unfold name_lsn, snapshot_name.
  rewrite (proj2 (Z.ltb_ge _ _)), (proj2 (Z.eqb_neq _ _)), Z.abs_eq by lia.
  destruct (decimal_spec 20 lsn []) as [Hd Hv]; [change (10 ^ Z.of_nat 20) with (10 ^ 20); lia|done|].
  cbn [foldl] in Hv. set (s := decimal 20 lsn []) in *. clearbody s.
  cbn [app]. rewrite app_assoc, trim_snap_app. cbn [mbind option_bind].
  assert (E : last_part (gostr "snapshot-" ++ s) [] false = last_part s [] true) by done.
  rewrite E, last_part_digits by done. cbn [mbind option_bind app]. rewrite <- Hv. apply ParseInt_digits; [|done|lia].
  intros ->. cbn in Hv. lia.
Qed.

(** ** Writing a file *)

Lemma snap_insert_perm name data dir : snap_insert name data dir ≡ₚ (name, data) :: dir.
Proof.
  induction dir as [|f dir IH]; [done|]. cbn [snap_insert]. destruct (name_before name f.1); [done|].
  rewrite IH. apply Permutation_swap.
Qed.

Lemma snap_put_in name data dir f : f ∈ snap_put name data dir <-> f = (name, data) \/ (f ∈ dir /\ f.1 <> name).
Proof. unfold snap_put. rewrite snap_insert_perm, elem_of_cons, list_elem_of_filter. tauto. Qed.

Lemma filter_names (P : gostring * list byte -> Prop) `{forall f, Decision (P f)} (dir : SnapDir) :
  NoDup dir.*1 -> NoDup (filter P dir).*1.
Proof.
  induction dir as [|f dir IH]; [done|]. cbn [fmap list_fmap]. intros [Hf Hd]%NoDup_cons.
  destruct (decide (P f)); [rewrite filter_cons_True by done|rewrite filter_cons_False by done; auto].
  cbn [fmap list_fmap]. constructor; [|auto]. intros (f' & E & [_ Hin]%list_elem_of_filter)%list_elem_of_fmap.
  apply Hf. rewrite E. by apply list_elem_of_fmap_2.
Qed.

Lemma snap_put_names name data dir : NoDup dir.*1 -> NoDup (snap_put name data dir).*1.
Proof.
  intros H. unfold snap_put. rewrite snap_insert_perm. cbn [fmap list_fmap fst]. constructor; [|by apply filter_names].
  intros (f & E & [Hf _]%list_elem_of_filter)%list_elem_of_fmap. by apply Hf.
Qed.

Lemma snap_get_in dir name data : NoDup dir.*1 -> (name, data) ∈ dir -> snap_get dir name = Some data.
Proof.
  intros Hn Hin. unfold snap_get. apply list_elem_of_split in Hin as (a & b & ->).
  rewrite fmap_app in Hn. apply NoDup_app in Hn as (_ & Ha & _).
  rewrite filter_app, (filter_nil _ a), filter_cons_True by
    (done || (apply Forall_forall; intros f Hf E; apply (Ha f.1); [by apply list_elem_of_fmap_2|rewrite E; by left])).
  done.
Qed.

(** ** The directory and the newest snapshot *)

Abbreviation Snap := (list Account * list Transfer * Z)%type.

Definition snap_ok (s : Snap) : Prop := let '(accs, pends, lsn) := s in snapshot_ok lsn accs pends /\ 0 < lsn.
Definition snap_file (s : Snap) : gostring * list byte := let '(accs, pends, lsn) := s in (snapshot_name lsn, Write lsn accs pends).
Definition snap_lsn (s : option Snap) : Z := match s with Some (_, _, lsn) => lsn | None => 0 end.

(** The files are written snapshots, the newest of them [latest]. *)
Record dir_ok (dir : SnapDir) (latest : option Snap) : Prop := {
  do_names : NoDup dir.*1;
  do_files : Forall (fun f => exists s, f = snap_file s /\ snap_ok s /\ s.2 <= snap_lsn latest) dir;
  do_latest : match latest with Some s => snap_ok s /\ snap_file s ∈ dir | None => dir = [] end }.

Lemma snap_ok_name s : snap_ok s -> name_lsn (snap_file s).1 = Some s.2 /\ is_i64 s.2 /\ 0 < s.2.
Proof. destruct s as [[a p] l]. intros [[Hl _ _ _] H0]. cbn. split; [apply snapshot_name_lsn; unfold is_i64 in *; lia|done]. Qed.

Lemma snap_ok_valid s : snap_ok s -> valid (snap_file s) s.2.
Proof.
  intros H. destruct (snap_ok_name s H) as (Hn & _ & H0). split; [done|]. split; [lia|].
  destruct s as [[a p] l]. destruct H as [H _]. cbn. exists a, p. by apply read_written.
Qed.

Lemma latest_returns dir latest : dir_ok dir latest -> exists best, Latest dir = Some best.
Proof.
  intros [_ Hf _]. unfold Latest. generalize (@None (gostring * Z)). induction Hf as [|f dir (s & -> & Hs & _) _ IH]; intros b.
  { by exists b. }
  destruct (snap_ok_name s Hs) as (Hn & _). destruct s as [[a p] l]. destruct Hs as [Hs _].
  cbn [snap_file latest_loop fst] in *. rewrite Hn. destruct (_ <? _); [|apply IH].
  rewrite read_written by done. apply IH.
Qed.

(** A restart loads the newest. *)
Lemma load_latest dir latest : dir_ok dir latest -> load_snapshot dir = Some latest.
Proof.
  intros H. destruct (latest_returns dir latest H) as [best E]. pose proof H as [Hn Hf Hl]. unfold load_snapshot. rewrite E.
  pose proof (latest_loop_ok dir [] None best ltac:(by intros f lsn ?%not_elem_of_nil) E) as Hb. cbn [app] in Hb.
  rewrite Forall_forall in Hf. destruct best as [[name lsn]|]; cbn in Hb.
  - destruct Hb as [(data & Hin & Hv) Hmax]. rewrite (snap_get_in dir name data) by done.
    destruct latest as [s|]; [|subst dir; by apply not_elem_of_nil in Hin].
    destruct Hl as [Hs Hls]. pose proof (Hmax _ _ Hls (snap_ok_valid s Hs)) as Hge.
    destruct (Hf _ Hin) as (s' & Es' & Hs' & Hle). destruct (snap_ok_name s' Hs') as (Hn' & _).
    destruct Hv as (Hv & _). rewrite Es' in Hv. assert (lsn = s'.2) as -> by congruence.
    destruct s as [[a p] l], s' as [[a' p'] l']. cbn in Hle, Hge, Es'. assert (l' = l) as -> by lia. injection Es' as -> ->.
    assert (Ew : Write l a' p' = Write l a p).
    { pose proof (snap_get_in _ _ _ Hn Hin) as G1. pose proof (snap_get_in _ _ _ Hn Hls) as G2. congruence. }
    rewrite Ew. destruct Hs as [Hs _]. by rewrite read_written.
  - destruct latest as [s|]; [|done]. destruct Hl as [Hs Hls]. by destruct (Hb _ _ Hls (snap_ok_valid s Hs)).
Qed.

(** ** Writing a snapshot keeps the newest *)

Definition newer_snap (s : Snap) (latest : option Snap) : option Snap :=
  if snap_lsn latest <=? s.2 then Some s else latest.

Lemma snapshot_name_inj a b : 0 < a < 2 ^ 63 -> 0 < b < 2 ^ 63 -> snapshot_name a = snapshot_name b -> a = b.
Proof. intros Ha%snapshot_name_lsn Hb%snapshot_name_lsn E. congruence. Qed.

Lemma put_dir dir latest s : dir_ok dir latest -> snap_ok s ->
  dir_ok (snap_put (snap_file s).1 (snap_file s).2 dir) (newer_snap s latest).
Proof.
  intros [Hn Hf Hl] Hs. pose proof (snap_ok_name s Hs) as (_ & Hi & H0).
  assert (Hnew : s.2 <= snap_lsn (newer_snap s latest) /\ snap_lsn latest <= snap_lsn (newer_snap s latest)).
  { unfold newer_snap. destruct (Z.leb_spec (snap_lsn latest) s.2); destruct s as [[a p] l]; cbn in *; lia. }
  constructor.
  - by apply snap_put_names.
  - apply Forall_forall. intros f [->|[Hin _]]%snap_put_in.
    + exists s. split; [by destruct (snap_file s)|]. tauto.
    + rewrite Forall_forall in Hf. destruct (Hf _ Hin) as (s' & -> & Hs' & Hle). exists s'. split_and!; [done..|lia].
  - unfold newer_snap. destruct (Z.leb_spec (snap_lsn latest) s.2) as [Hle|Hlt].
    + split; [done|]. apply snap_put_in. left. by destruct (snap_file s).
    + destruct latest as [s'|]; [|cbn in Hlt; lia]. destruct Hl as [Hs' Hin]. split; [done|].
      apply snap_put_in. right. split; [done|]. pose proof (snap_ok_name s' Hs') as (_ & Hi' & H0').
      destruct s as [[a p] l], s' as [[a' p'] l']. cbn in *. intros E%snapshot_name_inj; unfold is_i64 in *; lia.
Qed.

Lemma cleanup_dir n dir latest : 0 < n -> dir_ok dir latest -> dir_ok (CleanupOldSnapshots n dir) latest.
Proof.
  intros Hpos [Hn Hf Hl]. destruct (cleanup_split n dir Hpos Hn) as (kept & removed & HP & Hlen & Hord & E).
  rewrite E. constructor.
  - by apply filter_names.
  - rewrite Forall_forall in Hf |- *. intros f [_ Hin]%list_elem_of_filter. by apply Hf.
  - destruct latest as [s|]; [|by rewrite Hl]. destruct Hl as [Hs Hin]. split; [done|].
    apply list_elem_of_filter. split; [|done]. intros ([nm l] & En & Hr)%list_elem_of_fmap. cbn in En.
    destruct (snap_ok_name s Hs) as (Hns & _).
    assert (Hsf : forall x, x ∈ kept ++ removed -> exists s', x = ((snap_file s').1, s'.2) /\ snap_ok s' /\ s'.2 <= s.2).
    { intros [nm' l'] Hx. rewrite <- HP in Hx. apply snap_files_in in Hx as [Hnl [d Hd]]. rewrite Forall_forall in Hf.
      destruct (Hf _ Hd) as (s' & Es' & Hs' & Hle). exists s'. destruct (snap_ok_name s' Hs') as (Hn' & _).
      rewrite <- Es' in *. cbn in *. split_and!; [congruence|done|by destruct s as [[? ?] ?]]. }
    assert (Hk : exists k, k ∈ kept).
    { destruct kept as [|k kept]; [|exists k; by left]. exfalso. cbn in Hlen. rewrite HP in Hlen. cbn in Hlen.
      apply (f_equal Z.to_nat) in Hlen. destruct removed; [by apply not_elem_of_nil in Hr|cbn in Hlen; lia]. }
    destruct Hk as [[nk lk] Hk]. pose proof (Hord _ _ Hk Hr) as Hle. cbn in Hle.
    destruct (Hsf (nk, lk)) as (sk & Ek & Hsk & Hlk); [apply elem_of_app; by left|].
    destruct (Hsf (nm, l)) as (sr & Er & Hsr & Hlr); [apply elem_of_app; by right|].
    injection Ek as -> ->. injection Er as -> ->.
    assert (sr.2 = s.2) as Hl by (destruct (snap_ok_name sr Hsr) as (H1 & _); congruence).
    assert (Hname : (snap_file sk).1 = (snap_file sr).1).
    { destruct sk as [[? ?] lk], sr as [[? ?] lr], s as [[? ?] ls]. cbn in *. f_equal. lia. }
    pose proof (snap_files_names dir Hn) as Hnd. rewrite HP, fmap_app in Hnd. apply NoDup_app in Hnd as (_ & Hd & _).
    apply (Hd (snap_file sk).1); [by apply (list_elem_of_fmap_2 fst _ _ Hk)|]. rewrite Hname.
    by apply (list_elem_of_fmap_2 fst _ _ Hr).
Qed.

Lemma write_dir dir latest accs pends lsn : dir_ok dir latest -> snap_ok (accs, pends, lsn) ->
  dir_ok (write_snapshot accs pends lsn dir) (newer_snap (accs, pends, lsn) latest).
Proof. intros Hd Hs. apply cleanup_dir; [lia|]. apply (put_dir dir latest (accs, pends, lsn) Hd Hs). Qed.
