(* ===== verification/Restore.v ===== *)
(** * Restoring a snapshot

    What a snapshot holds of a ledger, and that restoring it gives the accounts
    and open holds back.  The recorded transfers and the histories are not part
    of a snapshot. *)

From S2P Require Import Prelude Core Uint128 Codec Balance Expiry Accounts LedgerSpec AccountsRefine AccountsProps.
From S2P Require Import Transfers TransfersRefine TransfersProps Record Wal Recovery WalProps RecoveryProps.
From S2P Require Import Idempotency IdempotencyProps Engine EngineRefine EngineProps Snapshot SnapshotProps.

(** ** What a snapshot can hold *)

(** Accounts with fields of the Go types, and holds no later than the clock. *)
Record storable (L : Ledger) : Prop := {
  st_accounts : forall id a, l_accounts L !! id = Some a -> wf_account a;
  st_holds : forall id h, l_holds L !! id = Some h -> t_Timestamp h <= l_clock L }.

Lemma wf_account_static a b : wf_account a -> same_static b a -> amounts_wf b -> wf_account b.
Proof. intros [] (E1 & E2 & E3 & E4 & E5 & E6) (? & ? & ? & ?). constructor; by rewrite ?E1, ?E2, ?E3, ?E4, ?E5, ?E6. Qed.

Lemma storable_closed c L : inv L -> storable L -> l_clock L <= c -> storable (closed c L).
Proof.
  intros HI [Ha Hh] Hc. pose proof (closed_inv c L HI) as HI'. constructor.
  - intros id b E. destruct (inv_account _ HI' _ _ E) as [_ Hw]. rewrite closed_account in E.
    destruct (l_accounts L !! id) as [a|] eqn:Ea; [|done]. cbn in E. injection E as <-.
    eapply wf_account_static; [by eapply Ha|apply release_all_vals|done].
  - intros id h. rewrite closed_hold. destruct (l_holds L !! id) as [h'|] eqn:Eh; [|done]. cbn.
    case_decide; [done|]. intros [= <-]. change (l_clock (closed c L)) with c. specialize (Hh id h' Eh). lia.
Qed.

Lemma storable_create a L : wf_account a -> storable L -> storable (spec_create a L).
Proof.
  intros Hw [Ha Hh]. constructor; [|exact Hh]. intros id b. cbn.
  intros [[_ <-]|[_ E]]%lookup_insert_Some; [done|by eapply Ha].
Qed.

Lemma storable_apply x t L : inv L -> wf_transfer t -> fresh_hold t L -> allowed x t L -> effect_fits x t L ->
  t_Timestamp t <= l_clock L -> storable L -> storable (spec_apply x t L).
Proof.
  intros HI Hw Hf Ha He Ht [Sa Sh]. pose proof (inv_apply x t L HI Hw Hf Ha He) as HI'.
  pose proof (effect_spec x t L HI Hw Hf Ha) as Hs. constructor.
  - intros id b E. destruct (inv_account _ HI' _ _ E) as [_ Hb]. revert E. unfold spec_apply.
    destruct (effect x t L) as [[[dr cr] p] q]. cbn. intros E. destruct Hs as [Hne _ _ _ _].
    apply move_back in E as (a & Ea & Hst & _); [|done]. eapply wf_account_static; [by eapply Sa|done|done].
  - intros id h. rewrite apply_clock. unfold spec_apply. destruct (effect x t L) as [[[dr cr] p] q].
    cbn [spec_record spec_move l_holds]. unfold holds_after, settle.
    destruct (isPost t).
    + destruct (l_holds L !! t_ID t) as [h'|] eqn:Eh; [|apply Sh]. destruct (amt h' =? x).
      * intros [_ ?]%lookup_delete_Some. by eapply Sh.
      * intros [[_ <-]|[_ ?]]%lookup_insert_Some; [|by eapply Sh]. apply (Sh _ _ Eh).
    + destruct (isVoid t); [intros [_ ?]%lookup_delete_Some; by eapply Sh|].
      destruct (isPending t); [|apply Sh]. intros [[_ <-]|[_ ?]]%lookup_insert_Some; [done|by eapply Sh].
Qed.

Lemma storable_runs L ts L' : spec_runs L ts L' -> inv L -> holds_recorded L -> storable L ->
  Forall (fun t => t_Timestamp t <= l_clock L) ts -> storable L'.
Proof.
  induction 1 as [|x t ts L L' Hw Ha Hf Hn _ IH]; [done|]. intros HI Hr Hs [Ht Hts]%Forall_cons.
  assert (Hfr : fresh_hold t L) by (apply fresh_of_new; [by destruct Ha|done|done]).
  apply IH; [by apply inv_apply|by apply apply_recorded|by apply storable_apply|]. by rewrite apply_clock.
Qed.

(** ** Snapshots of the account manager *)

Lemma snapshot_accounts m id a : good m ->
  l_accounts (abs m) !! id = Some a <-> a ∈ Snapshot m /\ a_ID a = id.
Proof.
  intros [Hs HI]. unfold Snapshot. rewrite accounts_lookup by done. split.
  - intros (i & Hi & Ea). split; [by eapply list_elem_of_lookup_2|].
    destruct (s_index _ Hs _ _ Hi) as (b & Eb & <-). congruence.
  - intros [[i Hi]%list_elem_of_lookup <-]. exists i. split; [|done]. by apply (s_accounts _ Hs).
Qed.
Lemma snapshot_ids m : good m -> NoDup (a_ID <$> Snapshot m).
Proof.
  intros [Hs _]. unfold Snapshot. apply NoDup_alt. intros i j id. rewrite !list_lookup_fmap.
  destruct (m_accounts m !! i) as [a|] eqn:Ea; [|done]. destruct (m_accounts m !! j) as [b|] eqn:Eb; [|done].
  cbn. intros [= <-] [= E]. apply (s_accounts _ Hs) in Ea, Eb. congruence.
Qed.

Lemma pending_holds m id h : good m -> l_holds (abs m) !! id = Some h <-> h ∈ PendingTransfers m /\ t_ID h = id.
Proof.
  intros [Hs HI]. unfold PendingTransfers. rewrite list_elem_of_fmap. cbn [abs l_holds].
  split.
  - intros E. destruct (inv_hold _ HI id h E) as [Hid _]. split; [|done]. rewrite lookup_fmap in E.
    destruct (m_pending m !! id) as [p|] eqn:Ep; [|done]. cbn in E. injection E as <-.
    exists (id, p). split; [done|]. by apply elem_of_map_to_list.
  - intros [([k p] & -> & Hk%elem_of_map_to_list) <-]. cbn.
    assert (E : l_holds (abs m) !! k = Some (pe_transfer (entry_at m p))) by (cbn; by rewrite lookup_fmap, Hk).
    destruct (inv_hold _ HI _ _ E) as [-> _]. exact E.
Qed.
Lemma pending_ids m : good m -> NoDup (t_ID <$> PendingTransfers m).
Proof.
  intros [Hs HI]. unfold PendingTransfers. rewrite <- list_fmap_compose.
  assert (E : (t_ID ∘ (fun kv : ID * nat => pe_transfer (entry_at m kv.2))) <$> map_to_list (m_pending m)
    = (map_to_list (m_pending m)).*1).
  { apply list_fmap_ext. intros i [k p] Hk%list_elem_of_lookup_2%elem_of_map_to_list. cbn.
    apply (inv_hold _ HI). cbn. by rewrite lookup_fmap, Hk. }
  rewrite E. apply NoDup_fst_map_to_list.
Qed.

(** ** Restoring *)

Lemma restore_accounts_ok accs : forall m, good m -> Forall amounts_wf accs -> NoDup (a_ID <$> accs) ->
  (forall a, a ∈ accs -> l_accounts (abs m) !! a_ID a = None) ->
  let m' := restore_accounts accs m in
  good m' /\ l_holds (abs m') = l_holds (abs m) /\ Clock m' = Clock m
  /\ forall id a, l_accounts (abs m') !! id = Some a <-> (a ∈ accs /\ a_ID a = id) \/ l_accounts (abs m) !! id = Some a.
Proof.
  induction accs as [|x accs IH]; intros m Hg Hw Hn Hnew; cbn zeta.
  { split_and!; [done..|]. intros id a. split; [by right|]. by intros [[?%not_elem_of_nil _]|]. }
  apply Forall_cons in Hw as [Hx Hw]. cbn [fmap list_fmap] in Hn. apply NoDup_cons in Hn as [Hxn Hn].
  pose proof (Create_ok x m Hg Hx) as C. rewrite Hnew in C by (by left). destruct C as (m1 & E & Hg1 & A1).
  cbn [restore_accounts foldl]. rewrite E. cbn [fst]. fold (restore_accounts accs m1).
  destruct (IH m1 Hg1 Hw Hn) as (H1 & H2 & H3 & H4).
  { intros a Ha. rewrite A1. cbn. rewrite lookup_insert_ne; [apply Hnew; by right|].
    intros Eid. apply Hxn. rewrite Eid. by apply list_elem_of_fmap_2. }
  split; [done|]. split; [by rewrite H2, A1|].
  split; [rewrite H3; change (l_clock (abs m1) = l_clock (abs m)); by rewrite A1|].
  intros id a. rewrite H4, A1. cbn [spec_create l_accounts]. rewrite lookup_insert_Some, elem_of_cons. split.
  - intros [[? ?]|[[<- <-]|[_ ?]]]; [left; tauto|left; tauto|by right].
  - intros [[[->|?] <-]|E']; [by right; left|by left|]. right. right. split; [|done]. intros <-.
    rewrite Hnew in E'; [done|by left].
Qed.

Lemma SetClock_struct c m : struct m -> struct (SetClock c m).
Proof. intros H. by destruct H. Qed.

Lemma restore_holds_ok ps : forall m, struct m -> NoDup (t_ID <$> ps) ->
  (forall h, h ∈ ps -> l_holds (abs m) !! t_ID h = None) ->
  exists m', restore_holds ps m = (m', Ok tt) /\ struct m' /\ l_accounts (abs m') = l_accounts (abs m)
  /\ Clock m <= Clock m' /\ (forall c, Clock m <= c -> (forall h, h ∈ ps -> t_Timestamp h <= c) -> Clock m' <= c)
  /\ forall id h, l_holds (abs m') !! id = Some h <-> (h ∈ ps /\ t_ID h = id) \/ l_holds (abs m) !! id = Some h.
Proof.
  induction ps as [|x ps IH]; intros m Hs Hn Hnew.
  { exists m. split_and!; [done|done|done|done|done|]. intros id h. split; [by right|]. by intros [[?%not_elem_of_nil _]|]. }
  cbn [fmap list_fmap] in Hn. apply NoDup_cons in Hn as [Hxn Hn].
  pose proof (RestorePending_ok x m Hs) as C. rewrite Hnew in C by (by left). destruct C as (m1 & E & Hs1 & A1).
  cbn [restore_holds]. rewrite E. set (m2 := if Clock m1 <? t_Timestamp x then SetClock (t_Timestamp x) m1 else m1).
  assert (H2 : struct m2 /\ l_accounts (abs m2) = l_accounts (abs m1) /\ l_holds (abs m2) = l_holds (abs m1)
    /\ Clock m2 = Z.max (Clock m1) (t_Timestamp x)).
  { unfold m2. destruct (Z.ltb_spec (Clock m1) (t_Timestamp x)).
    - split; [by apply SetClock_struct|]. split_and!; [done|done|]. cbn. lia.
    - split_and!; [done|done|done|lia]. }
  destruct H2 as (Hs2 & Ea2 & Eh2 & Ec2). clearbody m2.
  assert (Ec1 : Clock m1 = Clock m) by (change (l_clock (abs m1) = l_clock (abs m)); by rewrite A1).
  destruct (IH m2 Hs2 Hn) as (m' & E' & Hs' & Ea & Hc & Hcm & Hh).
  { intros h Hin. rewrite Eh2, A1. cbn. rewrite lookup_insert_ne; [apply Hnew; by right|].
    intros Eid. apply Hxn. rewrite Eid. by apply list_elem_of_fmap_2. }
  exists m'. split; [done|]. split; [done|]. split; [by rewrite Ea, Ea2, A1|]. split; [lia|].
  split.
  { intros c H0 Hps. apply Hcm; [|intros h Hin; apply Hps; by right]. specialize (Hps x ltac:(by left)). lia. }
  intros id h. rewrite Hh, Eh2, A1. cbn [spec_restore l_holds]. rewrite lookup_insert_Some, elem_of_cons. split.
  - intros [[? ?]|[[<- <-]|[_ ?]]]; [left; tauto|left; tauto|by right].
  - intros [[[->|?] <-]|Eo]; [by right; left|by left|]. right. right. split; [|done]. intros <-.
    rewrite Hnew in Eo; [done|by left].
Qed.

Lemma inv_same L L' : l_accounts L = l_accounts L' -> l_holds L = l_holds L' -> inv L -> inv L'.
Proof. destruct L, L'. cbn. intros -> -> []. by constructor. Qed.

(** Restoring what a snapshot took: the same accounts and holds, and a clock
    no later than the one it was taken at. *)
Lemma restore_ok m lsn : good m -> storable (abs m) -> 0 <= Clock m ->
  exists m0, restore_snapshot (Some (Snapshot m, PendingTransfers m, lsn)) NewAccountManager = (m0, Ok lsn)
    /\ good m0 /\ l_accounts (abs m0) = l_accounts (abs m) /\ l_holds (abs m0) = l_holds (abs m)
    /\ Clock m0 <= Clock m.
Proof.
  intros Hg [Sa Sh] Hc. pose proof Hg as [Hs HI].
  assert (Hw : Forall amounts_wf (Snapshot m)).
  { apply Forall_forall. intros a Ha. apply (inv_account _ HI (a_ID a)). by apply (snapshot_accounts m (a_ID a) a Hg). }
  destruct (restore_accounts_ok (Snapshot m) NewAccountManager NewAccountManager_good Hw (snapshot_ids m Hg))
    as (Hg1 & Eh1 & Ec1 & Ha1); [intros a _; cbn; by rewrite lookup_fmap, lookup_empty|].
  set (m1 := restore_accounts (Snapshot m) NewAccountManager) in *.
  destruct (restore_holds_ok (PendingTransfers m) m1 (proj1 Hg1) (pending_ids m Hg)) as (m0 & E & Hs0 & Ea0 & _ & Hcm & Hh0).
  { intros h _. rewrite Eh1. cbn. by rewrite lookup_fmap, lookup_empty. }
  exists m0. cbn [restore_snapshot]. fold m1. rewrite E. split; [done|].
  assert (EA : l_accounts (abs m0) = l_accounts (abs m)).
  { rewrite Ea0. apply map_eq. intros id. apply option_eq. intros a. rewrite Ha1, (snapshot_accounts m id a Hg).
    cbn. rewrite lookup_fmap, lookup_empty. naive_solver. }
  assert (EH : l_holds (abs m0) = l_holds (abs m)).
  { apply map_eq. intros id. apply option_eq. intros h. rewrite Hh0, (pending_holds m id h Hg), Eh1.
    cbn. rewrite lookup_fmap, lookup_empty. naive_solver. }
  split; [split; [done|]; by eapply inv_same|]. split; [done|]. split; [done|].
  apply Hcm; [rewrite Ec1; exact Hc|]. intros h Hin. apply (Sh (t_ID h) h). by apply pending_holds.
Qed.

(** Restored and brought to the clock, the ledger is the one that was stored. *)
Lemma restored_related m m0 : good m -> holds_recorded (abs m) -> none_overdue (Clock m) (abs m) -> good m0 ->
  l_accounts (abs m0) = l_accounts (abs m) -> l_holds (abs m0) = l_holds (abs m) -> Clock m0 <= Clock m ->
  related same_state (Clock m) m m0.
Proof.
  intros Hg Hr Hn Hg0 Ea Eh Hc. split_and!; try done.
  assert (E : closed (Clock m) (abs m0) = spec_set_clock (Clock m) (abs m0)).
  { unfold closed. apply close_expired_none; [apply inv_set_clock, Hg0|]. intros id h. cbn [spec_set_clock l_holds l_clock].
    rewrite Eh. apply Hn. }
  rewrite E. by split_and!.
Qed.

(** What a snapshot of the ledger writes can be read back. *)
Lemma snapshot_storable m lsn : good m -> storable (abs m) -> is_i64 lsn ->
  Z.of_nat (length (Snapshot m)) < 2 ^ 48 -> Z.of_nat (length (PendingTransfers m)) < 2 ^ 48 ->
  snapshot_ok lsn (Snapshot m) (PendingTransfers m).
Proof.
  intros Hg [Sa _] Hl H1 H2. constructor; [done| | |done].
  - apply Forall_forall. intros a Ha. apply (Sa (a_ID a)). by apply (snapshot_accounts m _ _ Hg).
  - apply Forall_forall. intros h Hh. apply (inv_hold_wf (abs m) (t_ID h)); [apply Hg|]. by apply (pending_holds m _ _ Hg).
Qed.
