(* ===== verification/CheckpointProps.v ===== *)
(** * Properties of checkpoints

    A node whose batches and snapshot calls interleave in any order can be
    restarted from what is on disk. *)

From S2P Require Import Prelude Core Uint128 Codec Balance Expiry Accounts LedgerSpec AccountsRefine AccountsProps.
From S2P Require Import Transfers TransfersRefine TransfersProps Record Wal Recovery WalProps RecoveryProps TruncateProps.
From S2P Require Import Idempotency IdempotencyProps Engine EngineRefine EngineProps Snapshot SnapshotProps.
From S2P Require Import Checkpoint SnapDirProps Restore.

#[local] Arguments Write : simpl never.
#[local] Arguments snapshot_name : simpl never.

(** ** Runs of a node *)

Inductive node_command : Type :=
| Batch (c : command)
| SnapBegin
| SnapAdvance (i : nat).

Definition set_engine (g : Engine) (nd : Node) : Node := mkNode g (n_snapshots nd) (n_calls nd).
Definition node_step (c : node_command) (nd : Node) : Node :=
  match c with
  | Batch c => set_engine (step c (n_engine nd)) nd
  | SnapBegin => snap_begin nd
  | SnapAdvance i => snap_advance i nd
  end.
Definition node_run (cs : list node_command) (nd : Node) : Node := foldl (fun nd c => node_step c nd) nd cs.
Definition new_node (size : Z) : Node := mkNode (fresh size) [] [].

(** Batches as in [command_ok]; a snapshot of fewer than 2^48 entries; a log
    whose segment files have a last LSN that can be read. *)
Definition node_command_ok (C : Z) (c : node_command) (nd : Node) : Prop :=
  match c with
  | Batch c => command_ok C c
  | SnapBegin => Z.of_nat (length (Snapshot (g_accounts (n_engine nd)))) < 2 ^ 48
      /\ Z.of_nat (length (PendingTransfers (g_accounts (n_engine nd)))) < 2 ^ 48
  | SnapAdvance _ => readable (g_wal (n_engine nd))
  end.
Fixpoint node_commands_ok (C : Z) (cs : list node_command) (nd : Node) : Prop :=
  match cs with
  | [] => True
  | c :: cs => node_command_ok C c nd /\ node_commands_ok C cs (node_step c nd)
  end.

(** A call that nothing interrupts does its three steps. *)
Lemma TriggerSnapshot_steps nd : (TriggerSnapshot nd).1
  = match n_calls (snap_begin nd) !! length (n_calls nd) with
    | Some _ => snap_advance (length (n_calls nd)) (snap_advance (length (n_calls nd)) (snap_begin nd))
    | None => nd
    end.
Proof.
  unfold TriggerSnapshot, snap_begin. destruct (snapshot_view (n_engine nd)) as [[a p] l].
  destruct (l <=? 0); cbn [fst n_calls]; [by rewrite lookup_ge_None_2 by lia|].
  rewrite list_lookup_middle by done. unfold snap_advance at 2. cbn [n_calls n_engine n_snapshots].
  rewrite list_lookup_middle by done. unfold snap_advance. cbn [n_calls n_engine n_snapshots].
  rewrite list_lookup_insert_eq by (rewrite length_app; cbn; lia). f_equal.
  rewrite insert_app_r_alt by lia. rewrite Nat.sub_diag. cbn. rewrite delete_middle. by rewrite app_nil_r.
Qed.

(** ** LSNs and the clock only grow *)

Lemma encode_lsn_mono rs : forall buf ends w w' r, encode_records rs buf ends w = (w', r) ->
  w_currentLSN w <= w_currentLSN w'.
Proof.
  induction rs as [|x rs IH]; intros buf ends w w' r; cbn [encode_records]; [by intros [= <- _]|].
  unfold sbind, smodify, sget, slift, sfail. cbn [w_currentLSN set_currentLSN].
  destruct (appendFrame buf _) as [buf'|e]; [|intros [= <- _]; cbn; lia].
  case_match; [intros [= <- _]; cbn; lia|]. intros E%IH. cbn [w_currentLSN set_currentLSN] in E. lia.
Qed.
Lemma write_lsn fuel : forall buf ends written fi w w' r, writeBuffered_loop fuel buf ends written fi w = (w', r) ->
  w_currentLSN w' = w_currentLSN w.
Proof.
  assert (Hrot : forall w, w_currentLSN (rotateLocked w) = w_currentLSN w).
  { intros w. unfold rotateLocked. by destruct (openSegment _ _ _). }
  induction fuel as [|fuel IH]; intros buf ends written fi w w' r; cbn [writeBuffered_loop]; [by intros [= <- _]|].
  case_match; [by intros [= <- _]|]. unfold sbind, smodify, sget, slift, sfail, sret.
  destruct (IsFull (w_current w) 1); destruct (fit_frames _ _ _ _ _ _) as [fi' e];
    (case_match; [case_match|]; [intros E%IH; by rewrite E, ?Hrot|intros [= <- _]; by rewrite ?Hrot|]);
    destruct (Segment_Write _ _ _) as [[d s] [z|err]];
    first [intros E%IH; rewrite E; apply Hrot|intros E%IH; by rewrite E|intros [= <- _]; apply Hrot|by intros [= <- _]].
Qed.
Lemma append_lsn_mono b w w' r : AppendBatch b w = (w', r) -> w_currentLSN w <= w_currentLSN w'.
Proof.
  unfold AppendBatch. destruct b as [|x b]; [by intros [= <- _]|].
  unfold sbind at 1, sget at 1. unfold sbind at 1. destruct (encode_records _ _ _ w) as [w1 [[buf ends]|e]] eqn:E.
  2:{ intros [= <- _]. by eapply encode_lsn_mono. }
  apply encode_lsn_mono in E. unfold sbind, smodify, sget, sret.
  destruct (writeBuffered _ _ _) as [w2 [u|e]] eqn:E2; intros [= <- _]; apply write_lsn in E2; cbn [w_currentLSN set_currentLSN] in E2; lia.
Qed.
Lemma step_lsn_mono c g : w_currentLSN (g_wal g) <= w_currentLSN (g_wal (step c g)).
Proof.
  destruct c as [wall events|accs]; cbn [step].
  - unfold processBatch. destruct (makeWALRecords _ _) as [|r rs].
    + by destruct (ApplyBatch _ _ _).
    + destruct (AppendBatch (r :: rs) (g_wal g)) as [w [z|e]] eqn:E; apply append_lsn_mono in E;
        [by destruct (ApplyBatch _ _ _)|done].
  - unfold processAccountCreate. destruct (account_records _ _) as [|r rs]; [done|].
    destruct (AppendBatch (r :: rs) (g_wal g)) as [w [z|e]] eqn:E; apply append_lsn_mono in E;
      [by destruct (create_logged _ _ _)|done].
Qed.

Lemma node_mono c nd : g_clock (n_engine nd) <= g_clock (n_engine (node_step c nd))
  /\ w_currentLSN (g_wal (n_engine nd)) <= w_currentLSN (g_wal (n_engine (node_step c nd))).
Proof.
  destruct c as [c| |i]; cbn [node_step].
  - split; [apply clock_mono|apply step_lsn_mono].
  - unfold snap_begin. destruct (snapshot_view _) as [[a p] l]. by destruct (l <=? 0).
  - unfold snap_advance. by destruct (n_calls nd !! i) as [[a p l|l]|].
Qed.
Lemma node_run_mono cs : forall nd, g_clock (n_engine nd) <= g_clock (n_engine (node_run cs nd))
  /\ w_currentLSN (g_wal (n_engine nd)) <= w_currentLSN (g_wal (n_engine (node_run cs nd))).
Proof.
  induction cs as [|c cs IH]; intros nd; [done|]. cbn [node_run foldl]. fold (node_run cs (node_step c nd)).
  destruct (node_mono c nd), (IH (node_step c nd)). lia.
Qed.

(** ** The live ledger stays storable *)

Lemma restore_storable accs : forall m, good m -> storable (abs m) -> Forall wf_account accs ->
  storable (abs (restore_accounts accs m)).
Proof.
  induction accs as [|a accs IH]; intros m Hg Hs Hw; [done|]. apply Forall_cons in Hw as [Ha Hw].
  cbn [restore_accounts foldl]. fold (restore_accounts accs (Create a m).1).
  pose proof (Create_ok a m Hg (wf_amounts a Ha)) as C. destruct (l_accounts (abs m) !! a_ID a).
  - rewrite C. by apply IH.
  - destruct C as (m1 & -> & Hg1 & A1). apply IH; [done| |done]. cbn [fst]. rewrite A1. by apply storable_create.
Qed.

Lemma step_storable C c g : good (g_accounts g) -> holds_recorded (abs (g_accounts g)) -> storable (abs (g_accounts g)) ->
  Clock (g_accounts g) = g_clock g -> 0 <= g_clock g -> g_clock (step c g) <= C -> C < 2 ^ 63 -> command_ok C c ->
  storable (abs (g_accounts (step c g))).
Proof.
  intros Hg Hr Hs Hk H0 Hc HC Hok. destruct c as [wall events|accs]; cbn [step] in *.
  - destruct Hok as (Hw & _). rewrite processBatch_clock in Hc. pose proof (batch_clock_gt wall g) as Hgt.
    unfold processBatch. fold (batch_clock wall g). set (t0 := batch_clock wall g) in *. clearbody t0.
    destruct (batch_ok (g_accounts g) t0 events Hg Hr ltac:(unfold is_i64; lia) Hw) as (Hg1 & A1 & m' & Eapp & Hg' & Hr' & Hrun & Hc').
    set (outs := ValidateBatch _ _) in *. set (evs := set_Timestamp t0 <$> events) in *.
    assert (Hs1 : storable (closed t0 (abs (g_accounts g)))).
    { apply storable_closed; [apply Hg|done|]. change (l_clock (abs (g_accounts g))) with (Clock (g_accounts g)). lia. }
    assert (Hs' : storable (abs m')).
    { eapply storable_runs; [exact Hrun|apply closed_inv, Hg|by apply closed_recorded|done|].
      change (l_clock (closed t0 (abs (g_accounts g)))) with t0. apply accepted_Forall, Forall_fmap.
      apply Forall_forall. intros t _. cbn. lia. }
    rewrite Eapp. destruct (makeWALRecords evs outs) as [|r rs]; [done|].
    destruct (AppendBatch (r :: rs) (g_wal g)) as [w [z|e]]; cbn [fst g_accounts]; [done|by rewrite A1].
  - destruct Hok as [Hw _]. unfold processAccountCreate. destruct (account_records _ _) as [|r rs]; [done|].
    destruct (AppendBatch (r :: rs) (g_wal g)) as [w [z|e]]; [|done].
    pose proof (create_logged_ok (g_accounts g) accs (g_accounts g)) as E.
    destruct (create_logged (g_accounts g) accs (g_accounts g)) as [os m']. cbn [fst snd g_accounts] in *. rewrite E.
    apply restore_storable; [done|done|]. rewrite Forall_forall in Hw |- *.
    intros a [_ Ha]%list_elem_of_filter. by apply Hw.
Qed.

(** ** The invariant of a node *)

Section Node.
Context (size now C : Z) (ids0 : IdempotencyStore).
Context (Hsize : 161 <= size) (HC : C < 2 ^ 63) (Hids : settled ids0).

(** The snapshot, restored, and the log past it rebuild the engine's ledger. *)
Definition based (snap : option Snap) (g : Engine) : Prop :=
  exists m0 pre bs, restore_snapshot snap NewAccountManager = (m0, Ok (snap_lsn snap))
    /\ tracked same_state m0 ids0 (snap_lsn snap) pre size now g bs
    /\ covers size (snap_lsn snap) pre bs.

(** A call in progress: its view is a base unless a newer one is on disk; its
    file, once written, is no newer than the newest. *)
Definition call_ok (latest : option Snap) (g : Engine) (call : snap_call) : Prop :=
  match call with
  | Viewed accs pends lsn => snap_ok (accs, pends, lsn)
      /\ (snap_lsn latest <= lsn -> based (Some (accs, pends, lsn)) g)
  | Written lsn => lsn <= snap_lsn latest
  end.

Record node_inv (nd : Node) (latest : option Snap) : Prop := {
  ni_dir : dir_ok (n_snapshots nd) latest;
  ni_based : based latest (n_engine nd);
  ni_calls : Forall (call_ok latest (n_engine nd)) (n_calls nd);
  ni_storable : storable (abs (g_accounts (n_engine nd))) }.

Lemma based_engine snap g : based snap g -> good (g_accounts g) /\ holds_recorded (abs (g_accounts g))
  /\ Clock (g_accounts g) = g_clock g /\ none_overdue (g_clock g) (abs (g_accounts g))
  /\ 0 <= g_clock g /\ g_currentLSN g = w_currentLSN (g_wal g) /\ snap_lsn snap <= w_currentLSN (g_wal g) < 2 ^ 63.
Proof using.
  intros (m0 & pre & bs & _ & [H0 _ Hl _ Hv _ _ (r & ids & _ & _ & Hm & Hr & Hrec & Hk & _ & HR)] & [_ _ _ _ _ _ _ _ Hmax]).
  destruct (agr_state _ _ HR) as (_ & Eh & _). pose proof (lsn_after_ge (snap_lsn snap) bs).
  split_and!; try done; try lia. intros id h. rewrite Eh. apply closed_none.
Qed.

Lemma based_step snap g c : based snap g -> command_ok C c -> g_clock (step c g) <= C ->
  w_currentLSN (g_wal (step c g)) < 2 ^ 63 -> based snap (step c g).
Proof using Hsize HC.
  intros (m0 & pre & bs & Er & Ht & Hc) Hok Hcl Hlsn.
  destruct (run_tracked m0 ids0 _ pre size now C Hsize HC [c] g bs Ht) as (bs' & Ht' & Hf%(commands_fit size));
    [by constructor|done|]. change (run [c] g) with (step c g) in Ht'. exists m0, pre, (bs ++ bs'). split_and!; [done..|].
  destruct Hc. constructor; try done; [apply (tk_batches _ _ _ _ _ _ _ _ _ Ht')|by apply Forall_app|].
  by rewrite <- (tk_lsn _ _ _ _ _ _ _ _ _ Ht').
Qed.

Lemma based_truncate snap g lsn : based snap g -> readable (g_wal g) -> lsn <= snap_lsn snap ->
  based snap (set_wal (TruncateBefore lsn (g_wal g)) g).
Proof using.
  intros (m0 & pre & bs & Er & [H0 Hbs Hl Hs Hv Hsy (gs & cur & Hh & Ha) Hrep] & Hc) Hrd Hlsn.
  destruct (truncate_covered lsn _ _ _ _ _ _ _ Hh Hs Ha Hc Hrd Hlsn) as (pre' & Hh' & Ha' & Hc').
  exists m0, pre', bs. split_and!; [done| |done]. constructor; try done. by exists (kept_groups lsn gs), cur.
Qed.

(** A view taken now is a base. *)
Lemma based_view snap g : based snap g -> storable (abs (g_accounts g)) ->
  based (Some (Snapshot (g_accounts g), PendingTransfers (g_accounts g), g_currentLSN g)) g.
Proof using Hids.
  intros Hb Hst. destruct (based_engine _ _ Hb) as (Hg & Hrec & Hk & Hno & H0 & Hv & Hlsn).
  destruct Hb as (_ & pre & bs & _ & [_ Hbs Hl Hs _ Hsy (gs & cur & Hh & Ha) _] & Hc).
  destruct (covers_all _ _ _ _ Hc) as [Hc' Hge].
  destruct (restore_ok (g_accounts g) (g_currentLSN g) Hg Hst ltac:(lia)) as (m0 & Er & Hg0 & Ea & Eh & Hc0).
  assert (El : g_currentLSN g = lsn_after (snap_lsn snap) bs) by congruence.
  exists m0, (pre ++ log_of (snap_lsn snap) bs), []. cbn [snap_lsn]. split; [done|]. split; [|by rewrite El].
  constructor; try done.
  - rewrite <- Hv. unfold lsn_after. cbn. lia.
  - exists gs, cur. split; [done|]. cbn [log_of]. by rewrite app_nil_r.
  - exists m0, ids0. split; [done|]. split; [done|]. rewrite <- Hk in *. by apply restored_related.
Qed.

Lemma call_step latest g c call : call_ok latest g call -> command_ok C c -> g_clock (step c g) <= C ->
  w_currentLSN (g_wal (step c g)) < 2 ^ 63 -> call_ok latest (step c g) call.
Proof using Hsize HC.
  destruct call as [a p l|l]; cbn; [|done]. intros [Hs Hb] ? ? ?. split; [done|]. intros Hl. apply based_step; auto.
Qed.

(** Once a newer base is on disk, and truncated to, the older calls are as
    good as before. *)
Lemma call_newer latest latest' g call : snap_lsn latest <= snap_lsn latest' -> call_ok latest g call -> call_ok latest' g call.
Proof using.
  destruct call as [a p l|l]; cbn; [|lia]. intros Hle [Hs Hb]. split; [done|]. intros. apply Hb. lia.
Qed.
Lemma call_truncate latest g call lsn : readable (g_wal g) -> lsn <= snap_lsn latest -> call_ok latest g call ->
  call_ok latest (set_wal (TruncateBefore lsn (g_wal g)) g) call.
Proof using.
  destruct call as [a p l|l]; cbn; [|done]. intros Hrd Hle [Hs Hb]. split; [done|]. intros Hl. apply based_truncate; [by apply Hb|done|].
  cbn. lia.
Qed.

Lemma advance_inv i nd latest : readable (g_wal (n_engine nd)) -> node_inv nd latest -> exists latest', node_inv (snap_advance i nd) latest'.
Proof using.
  intros Hrd [Hd Hb Hc Hs]. unfold snap_advance. destruct (n_calls nd !! i) as [[accs pends lsn|lsn]|] eqn:Ei; [| |by exists latest].
  - assert (Hci := Forall_lookup_1 _ _ _ _ Hc Ei). destruct Hci as [Hok Hbase].
    exists (newer_snap (accs, pends, lsn) latest).
    assert (Hle : snap_lsn latest <= snap_lsn (newer_snap (accs, pends, lsn) latest)
      /\ lsn <= snap_lsn (newer_snap (accs, pends, lsn) latest)).
    { unfold newer_snap. cbn [snd]. destruct (Z.leb_spec (snap_lsn latest) lsn); cbn; lia. }
    constructor; cbn [n_engine n_snapshots n_calls]; [by apply write_dir| | |done].
    + unfold newer_snap. cbn [snd]. destruct (Z.leb_spec (snap_lsn latest) lsn); auto.
    + apply Forall_insert; [|cbn; lia]. eapply Forall_impl; [exact Hc|]. intros call. apply call_newer. lia.
  - assert (Hci := Forall_lookup_1 _ _ _ _ Hc Ei). cbn in Hci. exists latest.
    constructor; cbn [n_engine n_snapshots n_calls]; [done|by apply based_truncate| |done].
    apply Forall_delete. eapply Forall_impl; [exact Hc|]. intros call. by apply call_truncate.
Qed.

Lemma node_step_inv c nd latest : node_inv nd latest -> node_command_ok C c nd ->
  g_clock (n_engine (node_step c nd)) <= C -> w_currentLSN (g_wal (n_engine (node_step c nd))) < 2 ^ 63 ->
  exists latest', node_inv (node_step c nd) latest'.
Proof using Hsize HC Hids.
  intros Hinv Hok Hcl Hlsn. destruct c as [c| |i]; [| |by eapply advance_inv].
  - destruct Hinv as [Hd Hb Hc Hs]. destruct (based_engine _ _ Hb) as (Hg & Hrec & Hk & _ & H0 & _).
    exists latest. cbn [node_step n_engine set_engine] in *. constructor; [done|exact (based_step latest (n_engine nd) c Hb Hok Hcl Hlsn)| |
      exact (step_storable C c _ Hg Hrec Hs Hk H0 Hcl HC Hok)].
    eapply Forall_impl; [exact Hc|]. intros call Hcall. by apply call_step.
  - destruct Hinv as [Hd Hb Hc Hs]. destruct (based_engine _ _ Hb) as (Hg & Hrec & Hk & _ & H0 & Hv & Hl).
    exists latest. cbn [node_step]. unfold snap_begin, snapshot_view. destruct (Z.leb_spec (g_currentLSN (n_engine nd)) 0); [done|].
    constructor; try done. cbn [n_calls n_engine]. apply Forall_app. split; [done|]. constructor; [|constructor].
    split; [|intros _; by eapply based_view]. destruct Hok as [Ha Hp]. split; [|done].
    apply snapshot_storable; try done. unfold is_i64. lia.
Qed.

Lemma node_run_inv cs : forall nd latest, node_inv nd latest -> node_commands_ok C cs nd ->
  g_clock (n_engine (node_run cs nd)) <= C -> w_currentLSN (g_wal (n_engine (node_run cs nd))) < 2 ^ 63 ->
  exists latest', node_inv (node_run cs nd) latest'.
Proof using Hsize HC Hids.
  induction cs as [|c cs IH]; intros nd latest Hinv Hok Hcl Hlsn; [by exists latest|].
  destruct Hok as [Hc Hcs]. cbn [node_run foldl] in *. fold (node_run cs (node_step c nd)) in *.
  destruct (node_run_mono cs (node_step c nd)). destruct (node_step_inv c nd latest Hinv Hc) as [l' Hinv']; [lia..|].
  by eapply IH.
Qed.

Lemma new_node_inv : node_inv (new_node size) None.
Proof using Hsize Hids.
  constructor; cbn [new_node n_engine n_snapshots n_calls]; [by repeat constructor| |done|].
  - destruct (fresh_consistent size now ids0) as [H0 Hbs Hl Hs Hv Hsy Hlog (r & ids & Er & Hi & Hm & Hr & Hrec & Hk & Hc & HR)]; [lia|done|].
    exists NewAccountManager, [], []. split; [done|]. split.
    + constructor; try done. exists r, ids. split; [done|]. split; [done|]. split_and!; try done.
      all: by rewrite HR.
    + constructor; first [done|lia|constructor].
  - constructor; intros id x; cbn; by rewrite lookup_fmap, lookup_empty.
Qed.
End Node.

(** Restart from a base. *)
Lemma based_restart size now maxSize ttl latest g : based size now (NewIdempotencyStore maxSize ttl) latest g ->
  readable (g_wal g) ->
  exists g' ids', NewLedger now (mkConfig [] maxSize ttl latest) (Open (w_disk (g_wal g)) size) = Ok (g', ids')
    /\ same_state (abs (g_accounts g)) (closed (g_clock g) (abs (g_accounts g'))) /\ good (g_accounts g')
    /\ CurrentLSN (g_wal g') = CurrentLSN (g_wal g).
Proof.
  intros (m0 & pre & bs & Er & [H0 Hbs Hl Hs Hv Hsy (gs & cur & Hh & Ha) (r & ids & Eh & Hids & Hrel)] & Hc) Hrd.
  pose proof Hc as [_ Hf _ _ _ _ _ _ Hm]. rewrite <- (replay_delivered now bs (snap_lsn latest)) in Eh.
  destruct (recover_past (replay_record now) _ _ _ _ _ _ _ _ _ Hh Hs Ha Hc Hrd Eh) as (w' & Ew & _ & El & _).
  unfold NewLedger, log_initial. cbn [cfg_InitialAccounts length Nat.eqb negb]. rewrite andb_false_r.
  cbn [cfg_snapshot cfg_IdempotencyMaxSize cfg_IdempotencyTTL]. rewrite Er. unfold RecoverFromSnapshot. rewrite Ew.
  do 2 eexists. split; [done|]. cbn [NewEventLoop g_accounts g_wal]. destruct Hrel as (_ & Hr & _ & _ & _ & HR).
  split; [exact HR|]. split; [done|]. pose proof (lsn_after_ge (snap_lsn latest) bs). unfold CurrentLSN, AdvanceLSNTo.
  destruct (Z.ltb_spec 0 (snap_lsn latest)); [|congruence]. rewrite (proj2 (Z.ltb_ge _ _)) by lia. congruence.
Qed.

(** ** Properties *)

(** C5. Snapshots do not lose state.  Let batches of transfers and account
    creations interleave with snapshot calls in any way - a call's view, its
    file with the clean-up, and its truncation of the log being separate steps,
    and any number of calls running at once - and stop at any point: the newest
    snapshot file with what is left of the log restarts the ledger, without an
    error, at the same LSN, with, at the old clock, the same accounts and open
    holds.  Provided the last LSN of each segment file can be read when the log
    is truncated and when it is recovered - as in segments of at most one tail
    chunk (64 KiB), or in longer ones when no payload passes for a chain of
    frames up to the end of the file: [truncate_can_remove_needed] is such a
    payload. *)
Theorem checkpointed_recovery size C cs now maxSize ttl : 161 <= size -> C < 2 ^ 63 ->
  node_commands_ok C cs (new_node size) -> let nd := node_run cs (new_node size) in
  let g := n_engine nd in
  g_clock g <= C -> CurrentLSN (g_wal g) < 2 ^ 63 -> readable (g_wal g) ->
  exists nd' ids', StartNode now [] maxSize ttl (n_snapshots nd) (Open (w_disk (g_wal g)) size) = Some (Ok (nd', ids'))
    /\ same_state (abs (CloseExpired (SetClock (g_clock g) (g_accounts (n_engine nd'))))) (abs (g_accounts g))
    /\ CurrentLSN (g_wal (n_engine nd')) = CurrentLSN (g_wal g).
Proof.
  intros Hsize HC Hok nd g Hcl Hlsn Hrd. pose proof (settled_new maxSize ttl) as Hids.
  destruct (node_run_inv size now C _ Hsize HC Hids cs _ None (new_node_inv _ now _ Hsize Hids) Hok Hcl Hlsn)
    as [latest [Hd Hb _ _]]. fold nd in Hd, Hb. fold g in Hb.
  destruct (based_restart _ _ _ _ _ _ Hb Hrd) as (g' & ids' & E & HR & Hg' & El).
  unfold StartNode. rewrite (load_latest _ _ Hd). cbn [mbind option_bind]. rewrite E. do 2 eexists. split; [done|].
  split; [|done]. cbn [n_engine].
  destruct (SetClock_ok (g_clock g) (g_accounts g') Hg') as [Hg1 A1].
  destruct (CloseExpired_loop_ok (length (m_expiry (SetClock (g_clock g) (g_accounts g')))) _ Hg1 ltac:(lia)) as [_ A2].
  unfold CloseExpired. rewrite A2, A1. destruct HR as (? & ? & ?). by split_and!.
Qed.

(** A snapshot whose file is written two batches after its view. *)
Definition demo_node_run : list node_command :=
  [Batch demo_accounts; Batch (demo_hold 1000 50); SnapBegin; Batch (Transfers 1020 [xfer 11 1 2 7 0 0]);
   Batch (Transfers 1030 [xfer 12 1 2 8 0 0]); SnapAdvance 0; SnapAdvance 0; Batch (demo_post 2000)].

Lemma demo_node_ok : node_commands_ok 3000 demo_node_run (new_node 300).
Proof.
  pose proof (demo_ok 3000 ltac:(lia)) as [H0 [H1 [H2 [H3 _]%Forall_cons]%Forall_cons]%Forall_cons]%Forall_cons.
  unfold demo_node_run. cbn [node_commands_ok node_command_ok]. split_and!; try done;
    [| |]; cycle 1;
    [by apply readable_check; vm_compute|by apply readable_check; vm_compute|].
  split_and!; [by repeat constructor|constructor; [cbn; lia|done]|cbn; lia].
Qed.

Lemma checkpointed_recovery_witness :
  let g := n_engine (node_run demo_node_run (new_node 300)) in
  exists nd' ids', StartNode 5 [] 100 100 (n_snapshots (node_run demo_node_run (new_node 300))) (Open (w_disk (g_wal g)) 300)
      = Some (Ok (nd', ids'))
    /\ same_state (abs (CloseExpired (SetClock (g_clock g) (g_accounts (n_engine nd'))))) (abs (g_accounts g))
    /\ CurrentLSN (g_wal (n_engine nd')) = CurrentLSN (g_wal g).
Proof.
  apply (checkpointed_recovery 300 3000 demo_node_run 5 100 100).
  - lia.
  - lia.
  - apply demo_node_ok.
  - vm_compute. discriminate.
  - vm_compute. reflexivity.
  - apply readable_check. vm_compute. reflexivity.
Defined.

(** A transfer whose ID and account ID spell the header of a frame that reaches
    to the end of the file. *)
Definition forged_transfer : Transfer :=
  mkTransfer (zeros 7 ++ be_bytes 8 1 ++ [x01]) (be_bytes 4 65519 ++ zeros 12) (idn 2) (FromUint64 1)
    (zeros 32) (zeros 16) 100 0 1 0 0.
Definition forged_batch : list Record := replicate 407 (transfer_record forged_transfer).

Lemma forged_ok : wf_transfer forged_transfer /\ client_batch 131072 forged_batch.
Proof.
  assert (Hw : wf_transfer forged_transfer) by (by constructor). split; [done|].
  assert (E : forged_batch = transfer_record <$> replicate 407 forged_transfer) by (by rewrite fmap_replicate).
  rewrite E. apply (records_client_batch transfer_record 144); [done|lia|lia| |rewrite length_replicate; lia].
  apply Forall_replicate. apply transfer_record_shape, Hw.
Qed.

(** A batch that fits in the first file, and a rotation. *)
Lemma one_file_disk size lsn b : 29 <= size -> client_batch size b -> batch_bytes b <= size ->
  let w := Rotate (Sync (AppendBatch b (set_currentLSN lsn (Open [] size))).1) in
  w_disk w = [(1, frames (log_of lsn [b])); (2, [])] /\ w_currentID w = 2 /\ w_currentLSN w = lsn + batch_size b.
Proof.
  intros Hs Hb Hfit. destruct (fresh_holds size) as [H0 Hs0]; [lia|]. apply (holds_set_LSN _ _ _ lsn) in H0.
  assert (Hid0 : w_currentID (set_currentLSN lsn (Open [] size)) = 1).
  { unfold Open. cbn. by destruct (size <=? 0). }
  set (w0 := set_currentLSN lsn (Open [] size)) in *. assert (Hl0 : w_currentLSN w0 = lsn) by done.
  assert (Hsz : w_segmentSize w0 = size) by done. clearbody w0. clear Hs0.
  assert (Hab : appendable_batch w0 b) by (apply client_appendable; by rewrite Hsz).
  destruct (append_ok _ _ _ _ H0 Hab) as (w & gs & g & E & H & Ea & El & Es & _ & Hone). rewrite Hl0 in *.
  destruct Hone as [-> Hid]; [cbn [app]; by rewrite Hsz, batch_bytes_frames|]. rewrite Hid0 in Hid.
  cbn zeta. rewrite E. cbn [fst]. destruct (rotate_holds _ _ _ (proj1 (sync_holds _ _ _ H))) as (Hr & Elr & _ & _).
  unfold Rotate. assert (Hid2 : w_currentID (rotateLocked (Sync w)) = 2).
  { unfold rotateLocked. destruct (openSegment _ _ _). cbn [w_currentID]. change (w_currentID (Sync w)) with (w_currentID w).
    by rewrite Hid. }
  split; [|split; [done|rewrite Elr; change (w_currentLSN (Sync w)) with (w_currentLSN w); rewrite El; unfold batch_size; lia]].
  rewrite (hf_disk _ _ _ Hr), Hid2. change (w_currentID (Sync w)) with (w_currentID w). rewrite Hid.
  unfold all_records in Ea. cbn [app fmap list_fmap concat seg_file fst snd log_of] in *. by rewrite Ea, app_nil_r.
Qed.

Lemma truncate_first lsn w c : w_disk w = [(1, c); (2, [])] -> w_currentID w = 2 -> peekSegmentMaxLSN c < lsn ->
  w_disk (TruncateBefore lsn w) = [(2, [])].
Proof.
  intros Hd Hid Hp. assert (Hn : NoDup [1; 2]) by (apply (bool_decide_unpack _); vm_compute; exact I).
  rewrite truncate_filter by (rewrite Hd; exact Hn). rewrite Hd, Hid.
  rewrite filter_cons_False by (unfold covered_file; cbn; lia). by rewrite filter_cons_True by (unfold covered_file; cbn; lia).
Qed.

(** Truncation can be misled by what a client writes.  In a file longer
    than one tail chunk the reading of the last LSN starts inside a record, and
    takes the client's bytes there for a frame: a log whose only records have
    LSNs 1001 to 1408 loses all of them to a truncation before 1000. *)
Theorem truncate_can_remove_needed :
  exists size b, Forall (fun r => exists t, wf_transfer t /\ r = transfer_record t) b /\ client_batch size b
  /\ let w := Rotate (Sync (AppendBatch b (set_currentLSN 1000 (Open [] size))).1) in
     w_disk w = [(1, frames (log_of 1000 [b])); (2, [])] /\ w_currentLSN w = 1408
     /\ w_disk (TruncateBefore 1000 w) = [(2, [])].
Proof.
  exists 131072, forged_batch. destruct forged_ok as [Hw Hb].
  destruct (one_file_disk 131072 1000 forged_batch) as (Hd & Hid & Hl); [lia|done|vm_compute; discriminate|].
  split; [unfold forged_batch; apply Forall_replicate; exists forged_transfer; split; [exact Hw|reflexivity]|].
  split; [exact Hb|]. cbn zeta. split; [exact Hd|]. split; [rewrite Hl; vm_compute; reflexivity|].
  apply (truncate_first 1000 _ _ Hd Hid). vm_compute. reflexivity.
Qed.

(** A segment longer than one tail chunk that can be read. *)
Definition long_batch : list Record := replicate 17 (mkRecord 0 1 (replicate 4000 xff)).

Lemma long_segment_readable :
  let w := Rotate (Sync (AppendBatch long_batch (set_currentLSN 0 (Open [] 131072))).1) in
  client_batch 131072 long_batch /\ fits_peek 131072 [long_batch] /\ readable w
  /\ exists f, f ∈ w_disk w /\ peekTailChunk < Z.of_nat (length f.2).
Proof.
  intros w. assert (Hb : client_batch 131072 long_batch).
  { constructor; [done| |by apply Forall_replicate|vm_compute; reflexivity].
    apply Forall_replicate. unfold appendable. cbn [r_Type r_Payload]. rewrite length_replicate. lia. }
  destruct (one_file_disk 131072 0 long_batch) as (Hd & _); [lia|done|vm_compute; discriminate|]. fold w in Hd.
  split; [done|]. split; [constructor; [apply Forall_replicate; right; vm_compute; discriminate|constructor]|].
  unfold readable. rewrite Hd. split.
  - constructor; [|constructor; [by left|constructor]]. apply (chains_readable _ 18). vm_compute. reflexivity.
  - eexists. split; [by left|]. vm_compute. reflexivity.
Qed.

Definition restarted_node (size : Z) (initial : list Account) (nd : Node) : option Node :=
  match StartNode 0 initial 100 100 (n_snapshots nd) (Open (w_disk (g_wal (n_engine nd))) size) with
  | Some (Ok (nd', _)) => Some nd'
  | _ => None
  end.
Definition snap_cycle : list node_command := [SnapBegin; SnapAdvance 0; SnapAdvance 0].

(** A snapshot forgets the transfers.  After a snapshot and a restart the
    recorded transfers it covers are gone: a transfer that was applied, and
    whose ID is refused by the node that stops, is not found by the restarted
    one, and submitted again it is applied again. *)
Theorem snapshot_restart_repeats_transfer : exists size cs t,
  node_commands_ok 3000 cs (new_node size)
  /\ let nd := node_run cs (new_node size) in
     let outcomes nd := (bool_decide (is_Some (handleReadTransfer (t_ID t) (n_engine nd))),
                         ack_Err <$> (processBatch 5000 [t] (n_engine nd)).2) in
     outcomes nd = (true, [Some (ErrDuplicateTransferID (t_ID t))])
     /\ outcomes <$> restarted_node size [] nd = Some (false, [None]).
Proof.
  exists 300, ([Batch demo_accounts; Batch (Transfers 1000 [xfer 11 1 2 7 0 0])] ++ snap_cycle), (xfer 11 1 2 7 0 0).
  split.
  - pose proof (demo_ok 3000 ltac:(lia)) as [H0 [_ [H2 _]%Forall_cons]%Forall_cons]%Forall_cons.
    cbn [app snap_cycle node_commands_ok node_command_ok]. split_and!; try done;
      by apply readable_check; vm_compute.
  - split; vm_compute; reflexivity.
Qed.

(** What account 1 has posted as debits. *)
Definition posted_debits (nd : Node) : Z := val (a_PostedDebits (handleRead (idn 1) (n_engine nd)).1).

(** Initial accounts rewind the log.  A node configured with initial
    accounts logs them again at every restart, because the LSN of an opened log
    is 0 until it is recovered; the LSN then restarts below those in the log.
    The next snapshot has such a low LSN, and the restart after it replays
    records that the snapshot covers: a transfer is applied twice. *)
Theorem initial_accounts_apply_twice : exists size initial cs1 cs2,
  let restart nd := default nd (restarted_node size initial nd) in
  let node0 := node_run cs1 (restart (new_node size)) in
  let node1 := node_run cs2 (restart node0) in
  Forall (fun nd => is_Some (restarted_node size initial nd)) [new_node size; node0; node1]
  /\ CurrentLSN (g_wal (n_engine (restart node0))) < CurrentLSN (g_wal (n_engine node0))
  /\ posted_debits node0 = 12 /\ posted_debits (restart node0) = 12
  /\ posted_debits node1 = 13 /\ posted_debits (restart node1) = 20.
Proof.
  exists 3000, [acct 1 100; acct 2 0],
    [Batch (Transfers 1000 [xfer 10 1 2 5 0 0]); Batch (Transfers 1000 [xfer 11 1 2 7 0 0])],
    (Batch (Transfers 1000 [xfer 12 1 2 1 0 0]) :: snap_cycle).
  split; [|split_and!; vm_compute; reflexivity].
  repeat (apply Forall_cons; split; [apply (bool_decide_unpack _); vm_compute; exact I|]). constructor.
Qed.
