(* ===== verification/Ring.v ===== *)
(** * The ring buffer and the batcher (engine/ring_buffer.go, engine/batch.go)

    Any number of producers call [Submit] while one consumer calls [Collect].
    Each function is a machine that makes one atomic access to the shared
    buffer per step, so a schedule of steps is an interleaving of the calls.
    Accesses under [notifyMu] to data only that lock guards are one step, and
    so is a load together with the consumer's reads of its own [tail] and
    [tailShared].  A channel is an address, with a flag for closed. *)

From S2P Require Import Prelude Core.

Record TransferEvent := mkEvent {
  te_Transfer : Transfer;
  te_Result : option nat;
  te_batch : option nat;
  te_index : nat }.
Definition zeroEvent : TransferEvent := mkEvent zeroTransfer None None 0.

#[export] Instance TransferEvent_eq_dec : EqDecision TransferEvent.
Proof. solve_decision. Defined.

Record RingBuffer := mkRing {
  rb_buf : list TransferEvent;
  rb_ready : list Z;
  rb_mask : Z;
  rb_cap : Z;
  rb_head : Z;
  rb_tail : Z;
  rb_tailShared : Z;
  rb_arrive : option nat;
  rb_waiting : bool;
  rb_chans : list bool }.

Definition NewRingBuffer (size : Z) : result RingBuffer error :=
  if (size <=? 0) || negb (Z.land size (size - 1) =? 0) then Err (ErrInvalidRingBufferSize size)
  else Ok (mkRing (replicate (Z.to_nat size) zeroEvent) (replicate (Z.to_nat size) 0) (size - 1) size
             0 0 0 None false []).

(** ** Field updates *)

Definition set_head (h : Z) (rb : RingBuffer) : RingBuffer :=
  mkRing (rb_buf rb) (rb_ready rb) (rb_mask rb) (rb_cap rb) h (rb_tail rb) (rb_tailShared rb)
    (rb_arrive rb) (rb_waiting rb) (rb_chans rb).
Definition set_tail (t : Z) (rb : RingBuffer) : RingBuffer :=
  mkRing (rb_buf rb) (rb_ready rb) (rb_mask rb) (rb_cap rb) (rb_head rb) t (rb_tailShared rb)
    (rb_arrive rb) (rb_waiting rb) (rb_chans rb).
Definition set_tailShared (t : Z) (rb : RingBuffer) : RingBuffer :=
  mkRing (rb_buf rb) (rb_ready rb) (rb_mask rb) (rb_cap rb) (rb_head rb) (rb_tail rb) t
    (rb_arrive rb) (rb_waiting rb) (rb_chans rb).
Definition set_slot (idx : nat) (ev : TransferEvent) (rb : RingBuffer) : RingBuffer :=
  mkRing (<[idx := ev]> (rb_buf rb)) (rb_ready rb) (rb_mask rb) (rb_cap rb) (rb_head rb) (rb_tail rb)
    (rb_tailShared rb) (rb_arrive rb) (rb_waiting rb) (rb_chans rb).
Definition set_ready (idx : nat) (seq : Z) (rb : RingBuffer) : RingBuffer :=
  mkRing (rb_buf rb) (<[idx := seq]> (rb_ready rb)) (rb_mask rb) (rb_cap rb) (rb_head rb) (rb_tail rb)
    (rb_tailShared rb) (rb_arrive rb) (rb_waiting rb) (rb_chans rb).
Definition set_notify (arrive : option nat) (waiting : bool) (chans : list bool) (rb : RingBuffer) : RingBuffer :=
  mkRing (rb_buf rb) (rb_ready rb) (rb_mask rb) (rb_cap rb) (rb_head rb) (rb_tail rb) (rb_tailShared rb)
    arrive waiting chans.

(** [seq & rb.mask]. *)
Definition slot (rb : RingBuffer) (seq : Z) : nat := Z.to_nat (Z.land seq (rb_mask rb)).

(** ** Arrival signalling *)

Definition close_arrive (rb : RingBuffer) : list bool :=
  match rb_arrive rb with Some ch => <[ch := true]> (rb_chans rb) | None => rb_chans rb end.

(** Returns the channel to block on; a fresh closed one when events wait. *)
Definition arriveChan (rb : RingBuffer) : RingBuffer * nat :=
  if rb_tailShared rb <? rb_head rb then
    let chans := close_arrive rb in
    (set_notify None false (chans ++ [true]) rb, length chans)
  else
    match rb_arrive rb with
    | Some ch => (set_notify (Some ch) true (rb_chans rb) rb, ch)
    | None => let ch := length (rb_chans rb) in
              (set_notify (Some ch) true (rb_chans rb ++ [false]) rb, ch)
    end.

Definition signalArrived (rb : RingBuffer) : RingBuffer := set_notify None false (close_arrive rb) rb.

Definition Len (rb : RingBuffer) : Z :=
  if rb_head rb <? rb_tailShared rb then 0 else i64 (u64 (rb_head rb - rb_tailShared rb)).

(** ** Submit *)

Inductive Submit_pc : Type :=
| S_load_head (ev : TransferEvent)
| S_load_tail (ev : TransferEvent) (h : Z)
| S_cas (ev : TransferEvent) (h t : Z)
| S_write (ev : TransferEvent) (h : Z)
| S_publish (ev : TransferEvent) (h : Z)
| S_signal
| S_return (err : option error).

Definition Submit_step (pc : Submit_pc) (rb : RingBuffer) : RingBuffer * Submit_pc :=
  match pc with
  | S_load_head ev => (rb, S_load_tail ev (rb_head rb))
  | S_load_tail ev h => (rb, S_cas ev h (rb_tailShared rb))
  | S_cas ev h t =>
      if rb_cap rb <=? u64 (h - t) then (rb, S_return (Some ErrBufferFull))
      else if rb_head rb =? h then (set_head (u64 (h + 1)) rb, S_write ev h)
      else (rb, S_load_head ev)
  | S_write ev h => (set_slot (slot rb h) ev rb, S_publish ev h)
  | S_publish ev h => (set_ready (slot rb h) (u64 (h + 1)) rb, S_signal)
  | S_signal => (signalArrived rb, S_return None)
  | S_return err => (rb, S_return err)
  end.

(** A call that runs without interference. *)
Fixpoint submit_run (fuel : nat) (pc : Submit_pc) (rb : RingBuffer) : option (RingBuffer * option error) :=
  match pc, fuel with
  | S_return err, _ => Some (rb, err)
  | _, O => None
  | _, S fuel' => let '(rb, pc) := Submit_step pc rb in submit_run fuel' pc rb
  end.
Definition Submit (ev : TransferEvent) (rb : RingBuffer) : option (RingBuffer * option error) :=
  submit_run 6 (S_load_head ev) rb.

(** ** DrainBatch *)

Inductive Drain_pc : Type :=
| D_start (max : Z)
| D_next (max head : Z) (out : list TransferEvent)
| D_read (max head : Z) (out : list TransferEvent)
| D_store (out : list TransferEvent)
| D_return (out : list TransferEvent).

Definition Drain_step (pc : Drain_pc) (rb : RingBuffer) : RingBuffer * Drain_pc :=
  match pc with
  | D_start max =>
      if max <=? 0 then (rb, D_return [])
      else
        let head := rb_head rb in
        if head =? rb_tail rb then (rb, D_return [])
        else
          let pending := u64 (head - rb_tail rb) in
          (rb, D_next (if pending <? u64 max then i64 pending else max) head [])
  | D_next max head out =>
      if (Z.of_nat (length out) <? max) && (rb_tail rb <? head) then
        if default 0 (rb_ready rb !! slot rb (rb_tail rb)) =? u64 (rb_tail rb + 1)
        then (rb, D_read max head out) else (rb, D_store out)
      else (rb, D_store out)
  | D_read max head out =>
      let out := out ++ [default zeroEvent (rb_buf rb !! slot rb (rb_tail rb))] in
      (set_tail (u64 (rb_tail rb + 1)) rb, D_next max head out)
  | D_store out => (set_tailShared (rb_tail rb) rb, D_return out)
  | D_return out => (rb, D_return out)
  end.

Fixpoint drain_run (fuel : nat) (pc : Drain_pc) (rb : RingBuffer) : option (RingBuffer * list TransferEvent) :=
  match pc, fuel with
  | D_return out, _ => Some (rb, out)
  | _, O => None
  | _, S fuel' => let '(rb, pc) := Drain_step pc rb in drain_run fuel' pc rb
  end.
Definition DrainBatch (max : Z) (rb : RingBuffer) : option (RingBuffer * list TransferEvent) :=
  drain_run (2 * length (rb_buf rb) + 4) (D_start max) rb.

(** ** Collect *)

(** What the environment decides at a step of the consumer: whether the select
    takes the timer or the ticker, whether [yield] reports control work, whether
    the deadline has passed.  Otherwise the select waits for the channel. *)
Record env := mkEnv { e_timer : bool; e_tick : bool; e_yield : bool; e_deadline : bool }.

Inductive Collect_pc : Type :=
| K_idle                                  (* no call in progress *)
| K_first                                 (* if Len() == 0 *)
| K_empty                                 (* for Len() == 0 *)
| K_arm                                   (* ch := arriveChan() *)
| K_recheck (ch : nat)                    (* if Len() != 0 { break } *)
| K_wait (ch : nat)                       (* the select of the idle loop *)
| K_fill                                  (* for Len() < maxBatchSize *)
| K_fill_arm
| K_fill_wait (ch : nat)
| K_drain (pc : Drain_pc).

Definition chan_closed (rb : RingBuffer) (ch : nat) : bool := default false (rb_chans rb !! ch).

(** The end of a call returns its batch. *)
Definition Collect_step (maxBatchSize : Z) (e : env) (pc : Collect_pc) (rb : RingBuffer)
    : RingBuffer * Collect_pc * option (list TransferEvent) :=
  match pc with
  | K_idle => (rb, K_first, None)
  | K_first => (rb, if Len rb =? 0 then K_empty else K_fill, None)
  | K_empty => (rb, if Len rb =? 0 then K_arm else K_fill, None)
  | K_arm => let '(rb, ch) := arriveChan rb in (rb, K_recheck ch, None)
  | K_recheck ch => (rb, if Len rb =? 0 then K_wait ch else K_fill, None)
  | K_wait ch =>
      if e_timer e then (rb, K_idle, Some [])
      else if e_tick e then if e_yield e then (rb, K_idle, Some []) else (rb, K_empty, None)
      else if chan_closed rb ch then (rb, K_empty, None)
      else (rb, K_wait ch, None)
  | K_fill =>
      if Len rb <? maxBatchSize then
        if e_yield e || e_deadline e then (rb, K_drain (D_start maxBatchSize), None)
        else (rb, K_fill_arm, None)
      else (rb, K_drain (D_start maxBatchSize), None)
  | K_fill_arm => let '(rb, ch) := arriveChan rb in (rb, K_fill_wait ch, None)
  | K_fill_wait ch =>
      if chan_closed rb ch || e_timer e || e_tick e then (rb, K_fill, None) else (rb, K_fill_wait ch, None)
  | K_drain (D_return out) => (rb, K_idle, Some out)
  | K_drain pc => let '(rb, pc) := Drain_step pc rb in (rb, K_drain pc, None)
  end.

(** [NewBatcher]: the batch size it uses. *)
Definition NewBatcher_size (maxSize : Z) : Z := if maxSize <=? 0 then 10000 else maxSize.

(** ** The system: producers, the consumer, the buffer *)

Record System := mkSystem {
  sys_rb : RingBuffer;
  sys_producers : gmap nat Submit_pc;
  sys_consumer : Collect_pc }.

(** A schedule: a producer calls Submit (when its last call has returned), a
    producer or the consumer makes its next step. *)
Inductive action : Type :=
| Call (p : nat) (ev : TransferEvent)
| Produce (p : nat)
| Consume (e : env).

(** What a step shows: a sequence number claimed for an event, or a batch. *)
Inductive shown : Type :=
| Claimed (ev : TransferEvent)
| Batch (evs : list TransferEvent).

Definition returned (pc : option Submit_pc) : bool :=
  match pc with None | Some (S_return _) => true | _ => false end.

Definition sys_step (maxBatchSize : Z) (a : action) (s : System) : System * list shown :=
  match a with
  | Call p ev =>
      if returned (sys_producers s !! p)
      then (mkSystem (sys_rb s) (<[p := S_load_head ev]> (sys_producers s)) (sys_consumer s), [])
      else (s, [])
  | Produce p =>
      match sys_producers s !! p with
      | None => (s, [])
      | Some pc =>
          let '(rb, pc') := Submit_step pc (sys_rb s) in
          (mkSystem rb (<[p := pc']> (sys_producers s)) (sys_consumer s),
           match pc, pc' with S_cas ev _ _, S_write _ _ => [Claimed ev] | _, _ => [] end)
      end
  | Consume e =>
      let '(rb, pc, out) := Collect_step maxBatchSize e (sys_consumer s) (sys_rb s) in
      (mkSystem rb (sys_producers s) pc, match out with Some evs => [Batch evs] | None => [] end)
  end.

Fixpoint sys_run (maxBatchSize : Z) (acts : list action) (s : System) : System * list shown :=
  match acts with
  | [] => (s, [])
  | a :: acts =>
      let '(s, o) := sys_step maxBatchSize a s in
      let '(s, o') := sys_run maxBatchSize acts s in (s, o ++ o')
  end.

Definition sys_init (rb : RingBuffer) : System := mkSystem rb ∅ K_idle.
