(* ===== verification/RingProps.v ===== *)
(** * Properties of the ring buffer

    The invariant [ring_inv] relates the shared buffer, the calls in progress
    and two histories: the events in the order their sequence numbers were
    claimed, and the events of the batches returned. *)

From S2P Require Import Prelude Core Ring.

(** ** Slots *)

Lemma power_of_two size : 0 < size -> Z.land size (size - 1) = 0 -> exists k, 0 <= k /\ size = 2 ^ k.
Proof.
  intros Hs Hl. exists (Z.log2 size). split; [apply Z.log2_nonneg|].
  destruct (Z.log2_spec size Hs) as [H1 H2]. destruct (decide (size = 2 ^ Z.log2 size)) as [|Hne]; [done|exfalso].
  assert (Hb : Z.testbit (Z.land size (size - 1)) (Z.log2 size) = true).
  { rewrite Z.land_spec, Z.bit_log2 by done. cbn.
    assert (E : Z.log2 (size - 1) = Z.log2 size) by (apply Z.log2_unique; [apply Z.log2_nonneg|lia]).
    assert (0 < size - 1 \/ size = 1) as [Hp| ->] by lia; [|done]. rewrite <- E. by apply Z.bit_log2. }
  rewrite Hl, Z.bits_0 in Hb. done.
Qed.

Definition ring_shape (rb : RingBuffer) : Prop :=
  (exists k, 0 <= k < 63 /\ rb_cap rb = 2 ^ k) /\ rb_mask rb = rb_cap rb - 1
  /\ length (rb_buf rb) = Z.to_nat (rb_cap rb) /\ length (rb_ready rb) = Z.to_nat (rb_cap rb).

Lemma cap_bounds rb : ring_shape rb -> 0 < rb_cap rb <= 2 ^ 62.
Proof. intros [(k & Hk & E) _]. rewrite E. split; [lia|]. apply Z.pow_le_mono_r; lia. Qed.

Lemma slot_mod rb q : ring_shape rb -> 0 <= q -> Z.of_nat (slot rb q) = q mod rb_cap rb.
Proof.
  intros [(k & Hk & E) [Em _]] Hq. unfold slot. rewrite Em, E.
  replace (2 ^ k - 1) with (Z.ones k) by (rewrite Z.ones_equiv; lia).
  rewrite Z.land_ones by lia. apply Z2Nat.id. apply Z.mod_pos_bound. lia.
Qed.

Lemma slot_lt rb q : ring_shape rb -> 0 <= q -> (slot rb q < Z.to_nat (rb_cap rb))%nat.
Proof.
  intros Hs Hq. pose proof (cap_bounds rb Hs). pose proof (slot_mod rb q Hs Hq).
  pose proof (Z.mod_pos_bound q (rb_cap rb)). lia.
Qed.

(** Sequence numbers less than a buffer apart have different slots. *)
Lemma slot_inj rb lo q q' : ring_shape rb -> 0 <= lo -> lo <= q < lo + rb_cap rb -> lo <= q' < lo + rb_cap rb ->
  slot rb q = slot rb q' -> q = q'.
Proof.
  intros Hs Hlo H H' E. pose proof (cap_bounds rb Hs).
  assert (Em : q mod rb_cap rb = q' mod rb_cap rb) by (rewrite <- !slot_mod by (done || lia); by rewrite E).
  pose proof (Z.div_mod q (rb_cap rb) ltac:(lia)) as D. pose proof (Z.div_mod q' (rb_cap rb) ltac:(lia)) as D'.
  destruct (Z.lt_trichotomy (q / rb_cap rb) (q' / rb_cap rb)) as [Hc|[Hc|Hc]]; [nia|congruence|nia].
Qed.

(** ** The invariant *)

Definition claims (tr : list shown) : list TransferEvent :=
  omap (fun o => match o with Claimed ev => Some ev | Batch _ => None end) tr.
Definition batches (tr : list shown) : list TransferEvent :=
  concat (omap (fun o => match o with Batch evs => Some evs | Claimed _ => None end) tr).

(** The events the consumer has taken and not yet returned. *)
Definition taken (pc : Collect_pc) : list TransferEvent :=
  match pc with
  | K_drain (D_next _ _ out | D_read _ _ out | D_store out | D_return out) => out
  | _ => []
  end.

Definition published (rb : RingBuffer) (q : Z) (ev : TransferEvent) : Prop :=
  rb_ready rb !! slot rb q = Some (q + 1) /\ rb_buf rb !! slot rb q = Some ev.

Definition in_flight (pc : Submit_pc) (ev : TransferEvent) (q : Z) : Prop :=
  pc = S_write ev q \/ pc = S_publish ev q.

(** A claim whose signal is still to come. *)
Definition signalling (pc : Submit_pc) : Prop :=
  match pc with S_write _ _ | S_publish _ _ | S_signal => True | _ => False end.

Definition seq_at (cl : list TransferEvent) (q : Z) (ev : TransferEvent) : Prop :=
  0 <= q /\ cl !! Z.to_nat q = Some ev.

Definition producer_ok (rb : RingBuffer) (cl : list TransferEvent) (pc : Submit_pc) : Prop :=
  match pc with
  | S_load_tail _ h => 0 <= h <= rb_head rb
  | S_cas _ h t => 0 <= h <= rb_head rb /\ 0 <= t <= rb_tailShared rb
  | S_write ev h => rb_tail rb <= h /\ seq_at cl h ev /\ rb_ready rb !! slot rb h <> Some (h + 1)
  | S_publish ev h => rb_tail rb <= h /\ seq_at cl h ev /\ rb_ready rb !! slot rb h <> Some (h + 1)
                      /\ rb_buf rb !! slot rb h = Some ev
  | _ => True
  end.

Definition valid_chan (rb : RingBuffer) (ch : nat) : Prop :=
  chan_closed rb ch = true \/ rb_arrive rb = Some ch.

Definition consumer_ok (rb : RingBuffer) (pc : Collect_pc) : Prop :=
  match pc with
  | K_recheck ch | K_wait ch => valid_chan rb ch
  | K_fill | K_fill_arm => rb_tailShared rb < rb_head rb
  | K_fill_wait ch => rb_tailShared rb < rb_head rb /\ chan_closed rb ch = true
  | K_drain (D_next _ head _) => head <= rb_head rb
  | K_drain (D_read _ head _) => rb_tail rb < head <= rb_head rb
      /\ rb_ready rb !! slot rb (rb_tail rb) = Some (rb_tail rb + 1)
  | _ => True
  end.

Record ring_inv (s : System) (cl dr : list TransferEvent) : Prop := {
  ri_shape : ring_shape (sys_rb s);
  ri_head : rb_head (sys_rb s) = Z.of_nat (length cl);
  ri_order : 0 <= rb_tailShared (sys_rb s) <= rb_tail (sys_rb s) /\ rb_tail (sys_rb s) <= rb_head (sys_rb s)
             /\ rb_head (sys_rb s) <= rb_tailShared (sys_rb s) + rb_cap (sys_rb s);
  ri_taken : dr ++ taken (sys_consumer s) = take (Z.to_nat (rb_tail (sys_rb s))) cl;
  ri_shared : match sys_consumer s with
              | K_drain (D_next _ _ _ | D_read _ _ _ | D_store _) => True
              | _ => rb_tailShared (sys_rb s) = rb_tail (sys_rb s)
              end;
  ri_ready : forall i v, rb_ready (sys_rb s) !! i = Some v -> v <= rb_head (sys_rb s);
  ri_seq : forall q ev, rb_tail (sys_rb s) <= q -> seq_at cl q ev ->
           published (sys_rb s) q ev
           \/ exists p pc, sys_producers s !! p = Some pc /\ in_flight pc ev q;
  ri_producer : forall p pc, sys_producers s !! p = Some pc -> producer_ok (sys_rb s) cl pc;
  ri_unique : forall p p' pc pc' ev ev' q, sys_producers s !! p = Some pc -> sys_producers s !! p' = Some pc' ->
              in_flight pc ev q -> in_flight pc' ev' q -> p = p';
  ri_consumer : consumer_ok (sys_rb s) (sys_consumer s);
  ri_arrive : forall ch, rb_arrive (sys_rb s) = Some ch -> rb_chans (sys_rb s) !! ch = Some false;
  ri_wake : rb_arrive (sys_rb s) <> None -> rb_tailShared (sys_rb s) < rb_head (sys_rb s) ->
            exists p pc, sys_producers s !! p = Some pc /\ signalling pc }.

Lemma seq_at_lt s cl dr q ev : ring_inv s cl dr -> seq_at cl q ev -> 0 <= q < rb_head (sys_rb s).
Proof.
  intros I [H0 H]. apply lookup_lt_Some in H. rewrite (ri_head _ _ _ I). lia.
Qed.

Lemma seq_at_snoc cl ev q ev' : seq_at (cl ++ [ev]) q ev' <-> seq_at cl q ev' \/ q = Z.of_nat (length cl) /\ ev' = ev.
Proof.
  unfold seq_at. split.
  - intros [H0 H]. destruct (decide (Z.to_nat q < length cl)%nat).
    + rewrite lookup_app_l in H by done. by left.
    + rewrite lookup_app_r in H by lia. right. destruct (Z.to_nat q - length cl)%nat eqn:E; [|done].
      cbn in H. split; [lia|congruence].
  - intros [[H0 H]|[-> ->]]; (split; [lia|]).
    + by apply lookup_app_l_Some.
    + rewrite Nat2Z.id, lookup_app_r by lia. by rewrite Nat.sub_diag.
Qed.

(** Two live sequence numbers in one slot are the same. *)
Lemma live_slot s cl dr q q' : ring_inv s cl dr -> rb_tail (sys_rb s) <= q < rb_head (sys_rb s) ->
  rb_tail (sys_rb s) <= q' < rb_head (sys_rb s) -> slot (sys_rb s) q = slot (sys_rb s) q' -> q = q'.
Proof.
  intros I H H' E. destruct (ri_order _ _ _ I) as ([? ?] & ? & ?).
  apply (slot_inj (sys_rb s) (rb_tail (sys_rb s))); [apply (ri_shape _ _ _ I)|lia..|done].
Qed.

Lemma flight_live s cl dr p pc ev q : ring_inv s cl dr -> sys_producers s !! p = Some pc -> in_flight pc ev q ->
  rb_tail (sys_rb s) <= q < rb_head (sys_rb s) /\ seq_at cl q ev
  /\ rb_ready (sys_rb s) !! slot (sys_rb s) q <> Some (q + 1).
Proof.
  intros I Hp Hf. pose proof (ri_producer _ _ _ I p pc Hp) as Hok.
  assert (H : rb_tail (sys_rb s) <= q /\ seq_at cl q ev /\ rb_ready (sys_rb s) !! slot (sys_rb s) q <> Some (q + 1)).
  { destruct Hf as [-> | ->]; cbn in Hok; tauto. }
  destruct H as (H1 & H2 & H3). pose proof (seq_at_lt _ _ _ _ _ I H2). split; [lia|done].
Qed.

(** ** Steps of a producer *)

(** A step that touches only the program counter of a producer. *)
Lemma inv_pc s cl dr p pc' : ring_inv s cl dr ->
  (forall pc ev q, sys_producers s !! p = Some pc -> ~ in_flight pc ev q) ->
  (forall pc, sys_producers s !! p = Some pc -> ~ signalling pc) ->
  (forall ev q, ~ in_flight pc' ev q) -> producer_ok (sys_rb s) cl pc' ->
  ring_inv (mkSystem (sys_rb s) (<[p := pc']> (sys_producers s)) (sys_consumer s)) cl dr.
Proof.
  intros I Hf Hs Hf' Hok. destruct I. constructor; cbn [sys_rb sys_producers sys_consumer]; try done.
  - intros q ev Hq Hc. destruct (ri_seq0 q ev Hq Hc) as [|(p' & pc & Hp & Hfl)]; [by left|right].
    exists p', pc. split; [|done]. rewrite lookup_insert_ne; [done|intros <-; by eapply Hf].
  - intros p' pc. destruct (decide (p = p')) as [<-|Hne].
    + rewrite lookup_insert_eq. by intros [= <-].
    + rewrite lookup_insert_ne by done. apply ri_producer0.
  - intros p1 p2 pc1 pc2 ev1 ev2 q. rewrite !lookup_insert.
    repeat case_decide; simplify_eq; try done; intros; simplify_eq; try (exfalso; by eapply Hf'). by eapply ri_unique0.
  - intros Ha Hlt. destruct (ri_wake0 Ha Hlt) as (p' & pc & Hp & Hsg). exists p', pc. split; [|done].
    rewrite lookup_insert_ne; [done|intros <-; by eapply Hs].
Qed.

Lemma inv_claim s cl dr p ev h t : ring_inv s cl dr -> Z.of_nat (length cl) + 1 < 2 ^ 64 ->
  sys_producers s !! p = Some (S_cas ev h t) -> u64 (h - t) < rb_cap (sys_rb s) -> rb_head (sys_rb s) = h ->
  ring_inv (mkSystem (set_head (u64 (h + 1)) (sys_rb s)) (<[p := S_write ev h]> (sys_producers s)) (sys_consumer s))
    (cl ++ [ev]) dr.
Proof.
  intros I Hb Hp Hc Hh. pose proof (ri_producer _ _ _ I _ _ Hp) as [Hh1 Ht1].
  pose proof (ri_head _ _ _ I) as Hhd. destruct (ri_order _ _ _ I) as (Ho1 & Ho2 & Ho3).
  rewrite u64_small in Hc by (unfold is_u64; lia). rewrite (u64_small (h + 1)) by (unfold is_u64; lia).
  pose proof (ri_shape _ _ _ I) as Hsh.
  assert (Hnr : rb_ready (sys_rb s) !! slot (sys_rb s) h <> Some (h + 1)).
  { intros E. apply (ri_ready _ _ _ I) in E. lia. }
  destruct I. constructor; cbn [sys_rb sys_producers sys_consumer set_head rb_head rb_tail rb_tailShared rb_cap rb_ready rb_buf rb_arrive rb_chans] in *; try done.
  - rewrite length_app. cbn. lia.
  - lia.
  - rewrite take_app_le by lia. done.
  - intros i v E. pose proof (ri_ready0 i v E). lia.
  - intros q ev' Hq [Hc'|[-> ->]]%seq_at_snoc.
    + destruct (ri_seq0 q ev' Hq Hc') as [|(p' & pc & Hp' & Hfl)]; [by left|right].
      exists p', pc. split; [|done]. rewrite lookup_insert_ne; [done|intros <-].
      rewrite Hp in Hp'. injection Hp' as <-. by destruct Hfl.
    + right. exists p, (S_write ev h). rewrite lookup_insert_eq. split; [done|]. left. f_equal. lia.
  - intros p' pc. destruct (decide (p = p')) as [<-|Hne].
    + rewrite lookup_insert_eq. intros [= <-]. cbn. split; [lia|]. split; [|done].
      apply seq_at_snoc. right. split; [lia|done].
    + rewrite lookup_insert_ne by done. intros Hp'. pose proof (ri_producer0 p' pc Hp') as Hok.
      destruct pc; cbn in *; try done; try lia.
      * destruct Hok as (? & ? & ?). split; [done|]. split; [|done]. apply seq_at_snoc. by left.
      * destruct Hok as (? & ? & ? & ?). split; [done|]. split; [|done]. apply seq_at_snoc. by left.
  - assert (Hnew : forall p' pc ev' q, <[p := S_write ev h]> (sys_producers s) !! p' = Some pc -> in_flight pc ev' q ->
                    p' = p /\ q = h \/ sys_producers s !! p' = Some pc /\ q < h).
    { intros p' pc ev' q. destruct (decide (p = p')) as [<-|Hne].
      - rewrite lookup_insert_eq. intros [= <-] [[= <- <-]|[=]]. by left.
      - rewrite lookup_insert_ne by done. intros Hp' Hf. right. split; [done|].
        pose proof (ri_producer0 p' pc Hp') as Hok. destruct Hf as [-> | ->]; cbn in Hok; destruct Hok as (_ & Hs & _);
          destruct Hs as [Hs0 Hs]; apply lookup_lt_Some in Hs; lia. }
    intros p1 p2 pc1 pc2 ev1 ev2 q H1 H2 F1 F2.
    destruct (Hnew _ _ _ _ H1 F1) as [[-> ?]|[H1' ?]], (Hnew _ _ _ _ H2 F2) as [[-> ?]|[H2' ?]]; try done; try lia.
    by eapply ri_unique0.
  - destruct (sys_consumer s) as [| | | | | | | | |[]]; cbn in *; try done; try lia; tauto || (split; [lia|tauto]) || idtac.
  - intros Ha Hlt. exists p, (S_write ev h). rewrite lookup_insert_eq. done.
Qed.

Ltac ring_fields := cbn [sys_rb sys_producers sys_consumer set_head set_tail set_tailShared set_slot set_ready set_notify
  rb_head rb_tail rb_tailShared rb_cap rb_mask rb_ready rb_buf rb_arrive rb_chans rb_waiting] in *.

(** Access to another producer's slot is not affected by a producer's own. *)
Lemma other_flight s cl dr p p' pc pc' ev ev' q q' : ring_inv s cl dr -> p <> p' ->
  sys_producers s !! p = Some pc -> in_flight pc ev q -> sys_producers s !! p' = Some pc' -> in_flight pc' ev' q' ->
  slot (sys_rb s) q <> slot (sys_rb s) q'.
Proof.
  intros I Hne Hp Hf Hp' Hf' E.
  destruct (flight_live _ _ _ _ _ _ _ I Hp Hf) as (H & _). destruct (flight_live _ _ _ _ _ _ _ I Hp' Hf') as (H' & _).
  pose proof (live_slot _ _ _ _ _ I H H' E) as ->. by eapply Hne, (ri_unique _ _ _ I).
Qed.

Lemma inv_write s cl dr p ev h : ring_inv s cl dr -> sys_producers s !! p = Some (S_write ev h) ->
  ring_inv (mkSystem (set_slot (slot (sys_rb s) h) ev (sys_rb s)) (<[p := S_publish ev h]> (sys_producers s)) (sys_consumer s))
    cl dr.
Proof.
  intros I Hp. assert (Hf : in_flight (S_write ev h) ev h) by (by left).
  destruct (flight_live _ _ _ _ _ _ _ I Hp Hf) as (Hl & Hsq & Hnr).
  pose proof (ri_shape _ _ _ I) as Hsh. pose proof (slot_lt _ h Hsh ltac:(destruct Hsq; lia)) as Hlt.
  assert (Hbl : length (rb_buf (sys_rb s)) = Z.to_nat (rb_cap (sys_rb s))) by (apply Hsh).
  pose proof (fun p' pc' ev' q' Hne => other_flight s cl dr p p' (S_write ev h) pc' ev ev' h q' I Hne Hp Hf) as Hoth.
  pose proof (live_slot s cl dr h) as Hlive. specialize (fun q' H => Hlive q' I Hl H).
  destruct I. constructor; ring_fields; try done.
  - destruct Hsh as (? & ? & ? & ?). split_and!; ring_fields; rewrite ?length_insert; done.
  - intros q ev' Hq Hc. destruct (ri_seq0 q ev' Hq Hc) as [[Hr Hbuf]|(p' & pc & Hp' & Hfl)].
    + left. split; [done|]. cbn. destruct (decide (q = h)) as [-> |Hne]; [congruence|].
      rewrite list_lookup_insert_ne; [done|]. intros E. apply Hne. symmetry. apply Hlive; [|done].
      destruct Hc as [? Hc]. apply lookup_lt_Some in Hc. lia.
    + right. destruct (decide (p = p')) as [<-|Hne].
      * exists p, (S_publish ev h). rewrite lookup_insert_eq. split; [done|].
        rewrite Hp in Hp'. injection Hp' as <-. destruct Hfl as [[= <- <-]|[=]]. by right.
      * exists p', pc. by rewrite lookup_insert_ne.
  - intros p' pc. destruct (decide (p = p')) as [<-|Hne].
    + rewrite lookup_insert_eq. intros [= <-]. cbn. split_and!; try done; try lia. apply list_lookup_insert_eq. lia.
    + rewrite lookup_insert_ne by done. intros Hp'. pose proof (ri_producer0 p' pc Hp') as Hok.
      destruct pc as [| | | |ev' h'| |]; cbn in *; try done. destruct Hok as (? & ? & ? & ?). split_and!; try done.
      rewrite list_lookup_insert_ne; [done|]. eapply Hoth; [done..|by right].
  - assert (Hnew : forall p' pc ev' q, <[p := S_publish ev h]> (sys_producers s) !! p' = Some pc -> in_flight pc ev' q ->
                    exists pc0, sys_producers s !! p' = Some pc0 /\ in_flight pc0 ev' q).
    { intros p' pc ev' q. destruct (decide (p = p')) as [<-|Hne].
      - rewrite lookup_insert_eq. intros [= <-] [[=]|[= <- <-]]. exists (S_write ev h). split; [done|by left].
      - rewrite lookup_insert_ne by done. by exists pc. }
    intros p1 p2 pc1 pc2 ev1 ev2 q H1 H2 F1 F2.
    destruct (Hnew _ _ _ _ H1 F1) as (? & ? & ?), (Hnew _ _ _ _ H2 F2) as (? & ? & ?). by eapply ri_unique0.
  - intros Ha Hq. exists p, (S_publish ev h). by rewrite lookup_insert_eq.
Qed.

Lemma inv_publish s cl dr p ev h : ring_inv s cl dr -> Z.of_nat (length cl) < 2 ^ 64 ->
  sys_producers s !! p = Some (S_publish ev h) ->
  ring_inv (mkSystem (set_ready (slot (sys_rb s) h) (u64 (h + 1)) (sys_rb s)) (<[p := S_signal]> (sys_producers s))
              (sys_consumer s)) cl dr.
Proof.
  intros I Hb Hp. assert (Hf : in_flight (S_publish ev h) ev h) by (by right).
  destruct (flight_live _ _ _ _ _ _ _ I Hp Hf) as (Hl & Hsq & Hnr).
  pose proof (ri_producer _ _ _ I _ _ Hp) as (_ & _ & _ & Hbuf0).
  pose proof (ri_shape _ _ _ I) as Hsh. pose proof (slot_lt _ h Hsh ltac:(destruct Hsq; lia)) as Hlt.
  assert (Hrl : length (rb_ready (sys_rb s)) = Z.to_nat (rb_cap (sys_rb s))) by (apply Hsh).
  pose proof (fun p' pc' ev' q' Hne => other_flight s cl dr p p' (S_publish ev h) pc' ev ev' h q' I Hne Hp Hf) as Hoth.
  pose proof (live_slot s cl dr h) as Hlive. specialize (fun q' H => Hlive q' I Hl H).
  pose proof (ri_head _ _ _ I) as Hhd. destruct (ri_order _ _ _ I) as (Ho1 & Ho2 & Ho3).
  rewrite (u64_small (h + 1)) by (unfold is_u64; lia).
  destruct I. constructor; ring_fields; try done.
  - destruct Hsh as (? & ? & ? & ?). split_and!; ring_fields; rewrite ?length_insert; done.
  - intros i v. destruct (decide (i = slot (sys_rb s) h)) as [-> |Hne].
    + rewrite list_lookup_insert_eq by lia. intros [= <-]. lia.
    + rewrite list_lookup_insert_ne by done. apply ri_ready0.
  - intros q ev' Hq Hc. destruct (decide (q = h)) as [-> |Hne].
    { left. assert (ev' = ev) as -> by (destruct Hc, Hsq; congruence). split; [|done]. cbn.
      apply list_lookup_insert_eq. lia. }
    destruct (ri_seq0 q ev' Hq Hc) as [[Hr Hbuf]|(p' & pc & Hp' & Hfl)].
    + left. split; [|done]. cbn. rewrite list_lookup_insert_ne; [done|]. intros E. apply Hne. symmetry. apply Hlive; [|done].
      destruct Hc as [? Hc]. apply lookup_lt_Some in Hc. lia.
    + right. exists p', pc. split; [|done]. rewrite lookup_insert_ne; [done|]. intros <-.
      rewrite Hp in Hp'. injection Hp' as <-. destruct Hfl as [[=]|[= -> ->]]. done.
  - intros p' pc. destruct (decide (p = p')) as [<-|Hne].
    + rewrite lookup_insert_eq. by intros [= <-].
    + rewrite lookup_insert_ne by done. intros Hp'. pose proof (ri_producer0 p' pc Hp') as Hok.
      destruct pc as [| | |ev' h'|ev' h'| |]; cbn in *; try done.
      * destruct Hok as (? & ? & ?). split_and!; try done.
        rewrite list_lookup_insert_ne; [done|]. eapply Hoth; [done..|by left].
      * destruct Hok as (? & ? & ? & ?). split_and!; try done.
        rewrite list_lookup_insert_ne; [done|]. eapply Hoth; [done..|by right].
  - intros p1 p2 pc1 pc2 ev1 ev2 q. rewrite !lookup_insert. repeat case_decide; simplify_eq; try done;
      intros; simplify_eq; try (by match goal with H : in_flight S_signal _ _ |- _ => destruct H end). by eapply ri_unique0.
  - destruct (sys_consumer s) as [| | | | | | | | |[]]; cbn in *; try done. destruct ri_consumer0 as [? Hr]. split; [done|].
    rewrite list_lookup_insert_ne; [done|]. intros E.
    assert (h = rb_tail (sys_rb s)) as -> by (apply Hlive; [lia|done]). done.
  - intros Ha Hq. exists p, S_signal. by rewrite lookup_insert_eq.
Qed.

Lemma closed_after rb ch : (forall c, rb_arrive rb = Some c -> rb_chans rb !! c = Some false) ->
  valid_chan rb ch -> close_arrive rb !! ch = Some true.
Proof.
  intros Ha Hv. unfold close_arrive. destruct (rb_arrive rb) as [c|] eqn:E.
  - pose proof (Ha c eq_refl) as Hc. apply lookup_lt_Some in Hc. destruct (decide (ch = c)) as [-> |Hne].
    + by apply list_lookup_insert_eq.
    + destruct Hv as [Hv|Hv]; [|congruence]. rewrite list_lookup_insert_ne by done. unfold chan_closed in Hv.
      by destruct (rb_chans rb !! ch) as [[]|].
  - destruct Hv as [Hv|Hv]; [|congruence]. unfold chan_closed in Hv. by destruct (rb_chans rb !! ch) as [[]|].
Qed.

Lemma inv_signal s cl dr p : ring_inv s cl dr -> sys_producers s !! p = Some S_signal ->
  ring_inv (mkSystem (signalArrived (sys_rb s)) (<[p := S_return None]> (sys_producers s)) (sys_consumer s)) cl dr.
Proof.
  intros I Hp. pose proof (fun ch => closed_after (sys_rb s) ch (ri_arrive _ _ _ I)) as Hcl.
  destruct I. constructor; unfold signalArrived; ring_fields; try done.
  - intros q ev' Hq Hc. destruct (ri_seq0 q ev' Hq Hc) as [|(p' & pc & Hp' & Hfl)]; [by left|right].
    exists p', pc. split; [|done]. rewrite lookup_insert_ne; [done|intros <-]. rewrite Hp in Hp'.
    injection Hp' as <-. by destruct Hfl.
  - intros p' pc. destruct (decide (p = p')) as [<-|Hne].
    + rewrite lookup_insert_eq. by intros [= <-].
    + rewrite lookup_insert_ne by done. intros Hp'. pose proof (ri_producer0 p' pc Hp') as Hok. by destruct pc.
  - intros p1 p2 pc1 pc2 ev1 ev2 q. rewrite !lookup_insert. repeat case_decide; simplify_eq; try done;
      intros; simplify_eq; try (by match goal with H : in_flight (S_return _) _ _ |- _ => destruct H end). by eapply ri_unique0.
  - destruct (sys_consumer s) as [| | | |ch|ch| | |ch|[]]; cbn in *; try done.
    + left. unfold chan_closed. cbn. by rewrite Hcl.
    + left. unfold chan_closed. cbn. by rewrite Hcl.
    + destruct ri_consumer0 as [? Hc]. split; [done|]. unfold chan_closed. cbn. rewrite Hcl; [done|]. by left.
Qed.

Definition with_consumer (pc : Collect_pc) (rb : RingBuffer) (s : System) : System := mkSystem rb (sys_producers s) pc.

(** A step of the consumer that only moves its program counter. *)
Lemma inv_consumer s cl dr pc : ring_inv s cl dr -> taken pc = taken (sys_consumer s) ->
  match pc with
  | K_drain (D_next _ _ _ | D_read _ _ _ | D_store _) => True
  | _ => rb_tailShared (sys_rb s) = rb_tail (sys_rb s)
  end -> consumer_ok (sys_rb s) pc -> ring_inv (with_consumer pc (sys_rb s) s) cl dr.
Proof. intros I Ht Hs Hc. destruct I. constructor; ring_fields; try done. unfold with_consumer. cbn. by rewrite Ht. Qed.

Lemma inv_arm s cl dr rb' ch pc : ring_inv s cl dr -> taken (sys_consumer s) = [] ->
  rb_tailShared (sys_rb s) = rb_tail (sys_rb s) -> arriveChan (sys_rb s) = (rb', ch) ->
  (pc = K_recheck ch \/ pc = K_fill_wait ch /\ rb_tailShared (sys_rb s) < rb_head (sys_rb s)) ->
  ring_inv (with_consumer pc rb' s) cl dr.
Proof.
  intros I Ht Hs E Hpc. assert (Ht' : taken pc = []) by (by destruct Hpc as [-> |[-> _]]).
  unfold arriveChan in E. destruct (Z.ltb_spec (rb_tailShared (sys_rb s)) (rb_head (sys_rb s))) as [Hlt|Hge].
  - injection E as <- <-. destruct I. constructor; unfold with_consumer; ring_fields; try done.
    + rewrite Ht', <- Ht. done.
    + by destruct Hpc as [-> |[-> _]].
    + assert (Hc : chan_closed (set_notify None false (close_arrive (sys_rb s) ++ [true]) (sys_rb s))
                     (length (close_arrive (sys_rb s))) = true).
      { unfold chan_closed. cbn. by rewrite lookup_app_r, Nat.sub_diag by lia. }
      destruct Hpc as [-> |[-> _]]; cbn; [by left|done].
  - destruct Hpc as [-> |[_ ?]]; [|lia].
    assert (Hr : exists chans, rb' = set_notify (Some ch) true chans (sys_rb s) /\ chans !! ch = Some false).
    { destruct (rb_arrive (sys_rb s)) as [c|] eqn:Ea; injection E as <- <-.
      - eexists. split; [done|]. by apply (ri_arrive _ _ _ I).
      - eexists. split; [done|]. by rewrite lookup_app_r, Nat.sub_diag by lia. }
    destruct Hr as (chans & -> & Hc). destruct I. constructor; unfold with_consumer; ring_fields; try done.
    + by rewrite Ht', <- Ht.
    + by right.
    + by intros ? [= <-].
    + lia.
Qed.

Lemma head_signed s cl dr : ring_inv s cl dr ->
  Len (sys_rb s) = rb_head (sys_rb s) - rb_tailShared (sys_rb s).
Proof.
  intros I. destruct (ri_order _ _ _ I) as (H1 & H2 & H3). pose proof (cap_bounds _ (ri_shape _ _ _ I)).
  unfold Len. rewrite (proj2 (Z.ltb_ge _ _)) by lia. rewrite u64_small by (unfold is_u64; lia).
  by rewrite i64_small by (unfold is_i64; lia).
Qed.

(** ** Steps of the consumer that take events *)

Lemma tail_published s cl dr : ring_inv s cl dr -> rb_tail (sys_rb s) < rb_head (sys_rb s) ->
  rb_ready (sys_rb s) !! slot (sys_rb s) (rb_tail (sys_rb s)) = Some (rb_tail (sys_rb s) + 1) ->
  exists ev, seq_at cl (rb_tail (sys_rb s)) ev
    /\ rb_buf (sys_rb s) !! slot (sys_rb s) (rb_tail (sys_rb s)) = Some ev.
Proof.
  intros I Hlt Hr. destruct (ri_order _ _ _ I) as (H1 & H2 & H3). pose proof (ri_head _ _ _ I).
  destruct (lookup_lt_is_Some_2 cl (Z.to_nat (rb_tail (sys_rb s)))) as [ev Hev]; [lia|].
  exists ev. assert (Hs : seq_at cl (rb_tail (sys_rb s)) ev) by (split; [lia|done]). split; [done|].
  destruct (ri_seq _ _ _ I _ _ (Z.le_refl _) Hs) as [[_ Hb]|(p & pc & Hp & Hf)]; [done|].
  by destruct (flight_live _ _ _ _ _ _ _ I Hp Hf) as (_ & _ & Hn).
Qed.

Lemma inv_read s cl dr mx hd out : ring_inv s cl dr -> Z.of_nat (length cl) < 2 ^ 64 ->
  sys_consumer s = K_drain (D_read mx hd out) ->
  ring_inv (with_consumer (K_drain (D_next mx hd
              (out ++ [default zeroEvent (rb_buf (sys_rb s) !! slot (sys_rb s) (rb_tail (sys_rb s)))])))
              (set_tail (u64 (rb_tail (sys_rb s) + 1)) (sys_rb s)) s) cl dr.
Proof.
  intros I Hb Hc. pose proof (ri_consumer _ _ _ I) as Hok. rewrite Hc in Hok. destruct Hok as [Hlt Hr].
  destruct (tail_published _ _ _ I ltac:(lia) Hr) as (ev & Hs & Hbuf). rewrite Hbuf. cbn [default].
  destruct (ri_order _ _ _ I) as (H1 & H2 & H3). pose proof (ri_head _ _ _ I) as Hhd.
  rewrite u64_small by (unfold is_u64; lia).
  destruct I. constructor; unfold with_consumer; ring_fields; try done.
  - lia.
  - rewrite Hc in ri_taken0. cbn in *. rewrite app_assoc, ri_taken0. destruct Hs as [_ Hs].
    replace (Z.to_nat (rb_tail (sys_rb s) + 1)) with (S (Z.to_nat (rb_tail (sys_rb s)))) by lia.
    by rewrite (take_S_r _ _ _ Hs).
  - intros q ev' Hq. apply ri_seq0. lia.
  - intros p pc Hp. pose proof (ri_producer0 p pc Hp) as Ho.
    assert (Hne : forall h, rb_tail (sys_rb s) <= h ->
              rb_ready (sys_rb s) !! slot (sys_rb s) h <> Some (h + 1) -> rb_tail (sys_rb s) + 1 <= h).
    { intros h Hh Hn. destruct (decide (h = rb_tail (sys_rb s))) as [-> |]; [done|lia]. }
    destruct pc; cbn in *; try done.
    + destruct Ho as (? & ? & ?). split; [by apply Hne|]. done.
    + destruct Ho as (? & ? & ? & ?). split; [by apply Hne|]. done.
  - cbn. lia.
Qed.

Lemma inv_store s cl dr out : ring_inv s cl dr -> sys_consumer s = K_drain (D_store out) ->
  ring_inv (with_consumer (K_drain (D_return out)) (set_tailShared (rb_tail (sys_rb s)) (sys_rb s)) s) cl dr.
Proof.
  intros I Hc. destruct (ri_order _ _ _ I) as (H1 & H2 & H3).
  destruct I. constructor; unfold with_consumer; ring_fields; try done.
  - lia.
  - rewrite Hc in ri_taken0. done.
  - intros p pc Hp. pose proof (ri_producer0 p pc Hp) as Ho. destruct pc; cbn in *; try done. lia.
  - intros Ha Hlt. apply ri_wake0; [done|lia].
Qed.

Lemma inv_return s cl dr out : ring_inv s cl dr -> taken (sys_consumer s) = out ->
  rb_tailShared (sys_rb s) = rb_tail (sys_rb s) ->
  ring_inv (with_consumer K_idle (sys_rb s) s) cl (dr ++ out).
Proof.
  intros I Ht Hs. destruct I. constructor; unfold with_consumer; ring_fields; try done.
  cbn. by rewrite app_nil_r, <- Ht.
Qed.

Lemma consumer_step m e s cl dr rb pc out : ring_inv s cl dr -> Z.of_nat (length cl) < 2 ^ 64 ->
  Collect_step m e (sys_consumer s) (sys_rb s) = (rb, pc, out) ->
  ring_inv (with_consumer pc rb s) cl (dr ++ default [] out).
Proof.
  intros I Hb E. pose proof (ri_shared _ _ _ I) as Hsh. pose proof (ri_consumer _ _ _ I) as Hok.
  pose proof (head_signed _ _ _ I) as HL.
  assert (Hlen : Len (sys_rb s) = 0 \/ rb_tailShared (sys_rb s) < rb_head (sys_rb s)).
  { rewrite HL. destruct (ri_order _ _ _ I) as (? & ? & ?). lia. }
  assert (Hmove : forall pc', taken pc' = taken (sys_consumer s) -> 
            match pc' with
            | K_drain (D_next _ _ _ | D_read _ _ _ | D_store _) => True
            | _ => rb_tailShared (sys_rb s) = rb_tail (sys_rb s)
            end -> consumer_ok (sys_rb s) pc' -> ring_inv (with_consumer pc' (sys_rb s) s) cl (dr ++ [])).
  { intros pc'. rewrite app_nil_r. by apply inv_consumer. }
  unfold Collect_step in E. destruct (sys_consumer s) as [| | | |ch|ch| | |ch|dpc] eqn:Ec; cbn [taken] in Hmove.
  - injection E as <- <- <-. by apply Hmove.
  - injection E as <- <- <-. destruct (Z.eqb_spec (Len (sys_rb s)) 0); apply Hmove; try done. cbn. lia.
  - injection E as <- <- <-. destruct (Z.eqb_spec (Len (sys_rb s)) 0); apply Hmove; try done. cbn. lia.
  - destruct (arriveChan (sys_rb s)) as [rb' ch] eqn:Ea. injection E as <- <- <-. cbn. rewrite app_nil_r.
    eapply inv_arm; [done|by rewrite Ec|done|done|by left].
  - injection E as <- <- <-. destruct (Z.eqb_spec (Len (sys_rb s)) 0); apply Hmove; try done. cbn. lia.
  - repeat case_match; injection E as <- <- <-; (apply Hmove; done) || (apply inv_return; [done|by rewrite Ec|done]).
  - repeat case_match; injection E as <- <- <-; by apply Hmove.
  - destruct (arriveChan (sys_rb s)) as [rb' ch] eqn:Ea. injection E as <- <- <-. cbn. rewrite app_nil_r.
    eapply inv_arm; [done|by rewrite Ec|done|done|by right].
  - destruct Hok. repeat case_match; injection E as <- <- <-; apply Hmove; done.
  - destruct dpc as [mx|mx hd o|mx hd o|o|o]; cbn in E; cbn [taken] in Hmove.
    + destruct (mx <=? 0); [injection E as <- <- <-; by apply Hmove|].
      destruct (rb_head (sys_rb s) =? rb_tail (sys_rb s)); injection E as <- <- <-; apply Hmove; done || cbn; lia.
    + destruct ((Z.of_nat (length o) <? mx) && (rb_tail (sys_rb s) <? hd)) eqn:Eb;
        [|injection E as <- <- <-; by apply Hmove].
      apply andb_true_iff in Eb as [_ Eb%Z.ltb_lt].
      destruct (Z.eqb_spec (default 0 (rb_ready (sys_rb s) !! slot (sys_rb s) (rb_tail (sys_rb s)))) (u64 (rb_tail (sys_rb s) + 1)))
        as [Er|]; injection E as <- <- <-; apply Hmove; try done.
      cbn in Hok. cbn. split; [lia|]. destruct (ri_order _ _ _ I) as (? & ? & ?). pose proof (ri_head _ _ _ I).
      rewrite u64_small in Er by (unfold is_u64; lia). destruct (rb_ready (sys_rb s) !! _); cbn in Er; [congruence|lia].
    + injection E as <- <- <-. cbn. rewrite app_nil_r. by apply inv_read.
    + injection E as <- <- <-. cbn. rewrite app_nil_r. by apply inv_store.
    + injection E as <- <- <-. apply inv_return; [done|by rewrite Ec|done].
Qed.

(** ** Runs *)

Ltac pc_side := first [done | by intros [] | by intros ? ? [|] | cbn in *; lia].

Lemma sys_step_ok m a s s' o cl dr : ring_inv s cl dr -> sys_step m a s = (s', o) ->
  Z.of_nat (length (cl ++ claims o)) < 2 ^ 64 -> ring_inv s' (cl ++ claims o) (dr ++ batches o).
Proof.
  intros I E Hb. destruct a as [p ev|p|e]; cbn in E.
  - destruct (returned (sys_producers s !! p)) eqn:Er; injection E as <- <-; cbn; rewrite !app_nil_r; [|done].
    apply inv_pc; try pc_side.
    + intros pc ev' q Hp Hf. rewrite Hp in Er. by destruct Hf as [-> | ->].
    + intros pc Hp Hf. rewrite Hp in Er. by destruct pc.
  - destruct (sys_producers s !! p) as [pc|] eqn:Hp; [|injection E as <- <-; cbn; by rewrite !app_nil_r].
    pose proof (ri_producer _ _ _ I _ _ Hp) as Hok. destruct (ri_order _ _ _ I) as (H1 & H2 & H3).
    assert (Hpc : forall pc', (forall ev q, ~ in_flight pc ev q) -> ~ signalling pc -> (forall ev q, ~ in_flight pc' ev q) ->
              producer_ok (sys_rb s) cl pc' ->
              ring_inv (mkSystem (sys_rb s) (<[p:=pc']> (sys_producers s)) (sys_consumer s)) (cl ++ []) (dr ++ [])).
    { intros pc' Ha Hb' Hc Hd. rewrite !app_nil_r. apply inv_pc; try done; intros pc0; rewrite Hp; by intros; simplify_eq. }
    destruct pc as [ev|ev h|ev h t|ev h|ev h| |err]; cbn in E.
    + injection E as <- <-. apply Hpc; pc_side.
    + injection E as <- <-. apply Hpc; pc_side.
    + destruct (Z.leb_spec (rb_cap (sys_rb s)) (u64 (h - t))); [injection E as <- <-; apply Hpc; pc_side|].
      destruct (Z.eqb_spec (rb_head (sys_rb s)) h) as [Eh|];
        injection E as <- <-; [|apply Hpc; pc_side].
      cbn in *. rewrite app_nil_r. rewrite length_app in Hb. cbn in Hb. eapply inv_claim; try done; lia.
    + injection E as <- <-. cbn in *. rewrite !app_nil_r. by apply inv_write.
    + injection E as <- <-. cbn in Hb |- *. rewrite !app_nil_r in *. by eapply inv_publish.
    + injection E as <- <-. cbn. rewrite !app_nil_r. by apply inv_signal.
    + injection E as <- <-. apply Hpc; pc_side.
  - destruct (Collect_step m e (sys_consumer s) (sys_rb s)) as [[rb pc] out] eqn:Ec. injection E as <- <-.
    pose proof (consumer_step m e s cl dr rb pc out I) as H.
    destruct out as [evs|]; cbn in *; rewrite !app_nil_r in *; by apply H.
Qed.

Lemma claims_app o o' : claims (o ++ o') = claims o ++ claims o'.
Proof. apply omap_app. Qed.
Lemma batches_app o o' : batches (o ++ o') = batches o ++ batches o'.
Proof. unfold batches. by rewrite omap_app, concat_app. Qed.

Lemma sys_run_ok m acts : forall s s' o cl dr, ring_inv s cl dr -> sys_run m acts s = (s', o) ->
  Z.of_nat (length (cl ++ claims o)) < 2 ^ 64 -> ring_inv s' (cl ++ claims o) (dr ++ batches o).
Proof.
  induction acts as [|a acts IH]; cbn; intros s s' o cl dr I E Hb.
  { injection E as <- <-. cbn. by rewrite !app_nil_r. }
  destruct (sys_step m a s) as [s1 o1] eqn:E1. destruct (sys_run m acts s1) as [s2 o2] eqn:E2.
  injection E as <- <-. rewrite claims_app, batches_app, !app_assoc in *.
  eapply IH; [|done|done]. eapply sys_step_ok; [done..|]. rewrite length_app in Hb |- *. rewrite length_app in Hb. lia.
Qed.

Lemma init_inv size rb : is_i64 size -> NewRingBuffer size = Ok rb -> ring_inv (sys_init rb) [] [].
Proof.
  unfold NewRingBuffer. intros Hi E. destruct ((size <=? 0) || negb (Z.land size (size - 1) =? 0)) eqn:Eb; [done|].
  apply orb_false_iff in Eb as [Hp%Z.leb_gt Hl]. apply negb_false_iff, Z.eqb_eq in Hl.
  injection E as <-. destruct (power_of_two size Hp Hl) as (k & Hk & Ek).
  assert (k < 63). { apply (Z.pow_lt_mono_r_iff 2); [lia..|]. unfold is_i64 in Hi. lia. }
  constructor; cbn; try done; try lia.
  - split_and!; cbn; [exists k; split; [lia|done]|done|by rewrite length_replicate..].
  - intros i v [-> _]%lookup_replicate. lia.
  - intros q ev _ [_ Hq]. by rewrite lookup_nil in Hq.
Qed.

(** The states the buffer reaches, with what the schedule showed. *)
Definition ring_reaches (size m : Z) (s : System) (tr : list shown) : Prop :=
  exists rb acts, is_i64 size /\ NewRingBuffer size = Ok rb /\ sys_run m acts (sys_init rb) = (s, tr)
    /\ Z.of_nat (length (claims tr)) < 2 ^ 64.

Lemma reaches_inv size m s tr : ring_reaches size m s tr -> ring_inv s (claims tr) (batches tr).
Proof.
  intros (rb & acts & Hi & Hn & Hr & Hb). apply (sys_run_ok m acts (sys_init rb) s tr [] []); [|done..].
  by eapply init_inv.
Qed.

Lemma run_cap m acts : forall s s' o, sys_run m acts s = (s', o) -> rb_cap (sys_rb s') = rb_cap (sys_rb s).
Proof.
  assert (Hd : forall pc rb, rb_cap (Drain_step pc rb).1 = rb_cap rb).
  { intros pc rb. destruct pc; cbn; by repeat case_match. }
  assert (Ha : forall rb, rb_cap (arriveChan rb).1 = rb_cap rb).
  { intros rb. unfold arriveChan. by repeat case_match. }
  assert (Hc : forall e pc rb, rb_cap (Collect_step m e pc rb).1.1 = rb_cap rb).
  { intros e pc rb. unfold Collect_step. destruct pc as [| | | | | | | | |dpc]; try (by repeat case_match).
    - specialize (Ha rb). by destruct (arriveChan rb).
    - specialize (Ha rb). by destruct (arriveChan rb).
    - specialize (Hd dpc rb). destruct dpc; try done; by destruct (Drain_step _ rb). }
  assert (Hp : forall pc rb, rb_cap (Submit_step pc rb).1 = rb_cap rb).
  { intros pc rb. destruct pc; cbn; by repeat case_match. }
  induction acts as [|a acts IH]; cbn; intros s s' o E; [by injection E as <- <-|].
  destruct (sys_step m a s) as [s1 o1] eqn:E1. destruct (sys_run m acts s1) as [s2 o2] eqn:E2. injection E as <- <-.
  rewrite (IH _ _ _ E2). clear IH E2. destruct a as [p ev|p|e]; cbn in E1.
  - by case_match; injection E1 as <- <-.
  - destruct (sys_producers s !! p) as [pc|]; [|by injection E1 as <- <-].
    specialize (Hp pc (sys_rb s)). destruct (Submit_step pc (sys_rb s)). by injection E1 as <- <-.
  - specialize (Hc e (sys_consumer s) (sys_rb s)). destruct (Collect_step _ _ _ _) as [[rb pc] out].
    by injection E1 as <- <-.
Qed.

Lemma reaches_cap size m s tr : ring_reaches size m s tr -> rb_cap (sys_rb s) = size.
Proof.
  intros (rb & acts & _ & Hn & Hr & _). rewrite (run_cap _ _ _ _ _ Hr). cbn. unfold NewRingBuffer in Hn.
  case_match; [done|]. by injection Hn as <-.
Qed.

(** ** Properties *)

(** C29. The ring buffer is a bounded queue.  In every interleaving of Submit
    and Collect calls, the batches returned so far, followed by the events the
    consumer has taken, followed by at most [size] waiting events, are the
    events in the order their sequence numbers were claimed: none is lost,
    repeated, reordered or overwritten. *)
Theorem ring_is_fifo size m s tr : ring_reaches size m s tr ->
  exists waiting, claims tr = batches tr ++ taken (sys_consumer s) ++ waiting
    /\ Z.of_nat (length waiting) <= size.
Proof.
  intros Hr. pose proof (reaches_inv _ _ _ _ Hr) as I. exists (drop (Z.to_nat (rb_tail (sys_rb s))) (claims tr)).
  rewrite app_assoc, (ri_taken _ _ _ I), take_drop. split; [done|].
  rewrite length_drop. destruct (ri_order _ _ _ I) as (? & ? & ?). rewrite <- (reaches_cap _ _ _ _ Hr).
  pose proof (ri_head _ _ _ I). lia.
Qed.

(** No two goroutines touch a slot at once: producers about to write their
    events write different slots, and none is the slot the consumer is about
    to read. *)
Theorem slots_exclusive size m s tr p ev h : ring_reaches size m s tr -> sys_producers s !! p = Some (S_write ev h) ->
  (forall p' ev' h', p <> p' -> sys_producers s !! p' = Some (S_write ev' h') ->
     slot (sys_rb s) h <> slot (sys_rb s) h')
  /\ (forall mx hd out, sys_consumer s = K_drain (D_read mx hd out) ->
      slot (sys_rb s) h <> slot (sys_rb s) (rb_tail (sys_rb s))).
Proof.
  intros Hr Hp. pose proof (reaches_inv _ _ _ _ Hr) as I. split.
  - intros p' ev' h' Hne Hp'. eapply other_flight; [done|exact Hne|exact Hp|by left|exact Hp'|by left].
  - intros mx hd out Hc E. pose proof (ri_consumer _ _ _ I) as Hok. rewrite Hc in Hok. destruct Hok as [Hlt Hrd].
    destruct (flight_live _ _ _ _ _ _ _ I Hp ltac:(by left)) as (Hl & _ & Hn).
    assert (h = rb_tail (sys_rb s)) as -> by (apply (live_slot _ _ _ _ _ I); [done|lia|done]). done.
Qed.

(** C31. No wake-up is lost.  When the consumer waits on a channel that is not
    closed and an event has been claimed, some producer's signal is still to
    come, and the signal closes that channel. *)
Theorem no_lost_wakeup size m s tr ch : ring_reaches size m s tr ->
  sys_consumer s = K_wait ch -> chan_closed (sys_rb s) ch = false ->
  rb_tailShared (sys_rb s) < rb_head (sys_rb s) ->
  (exists p pc, sys_producers s !! p = Some pc /\ signalling pc)
  /\ chan_closed (signalArrived (sys_rb s)) ch = true.
Proof.
  intros Hr Hc Ho Hlt. pose proof (reaches_inv _ _ _ _ Hr) as I.
  pose proof (ri_consumer _ _ _ I) as Hok. rewrite Hc in Hok. destruct Hok as [Hok|Ha]; [congruence|]. split.
  - apply (ri_wake _ _ _ I); [congruence|done].
  - unfold chan_closed, signalArrived. cbn. rewrite (closed_after _ ch (ri_arrive _ _ _ I)); [done|by right].
Qed.

(** The fill phase never blocks on the arrival channel: whenever it waits, the
    channel it waits on is already closed. *)
Lemma fill_never_blocks size m s tr ch : ring_reaches size m s tr -> sys_consumer s = K_fill_wait ch ->
  chan_closed (sys_rb s) ch = true.
Proof.
  intros Hr Hc. pose proof (ri_consumer _ _ _ (reaches_inv _ _ _ _ Hr)) as Hok. rewrite Hc in Hok. by destruct Hok.
Qed.

Lemma drain_all cl hd mx : hd < 2 ^ 64 -> hd <= Z.of_nat (length cl) -> forall fuel rb out,
  0 <= rb_tail rb <= hd -> (forall q ev, rb_tail rb <= q < hd -> seq_at cl q ev -> published rb q ev) ->
  (2 * Z.to_nat (hd - rb_tail rb) + 2 <= fuel)%nat ->
  exists rb', drain_run fuel (D_next mx hd out) rb
    = Some (rb', out ++ take (Z.to_nat mx - length out) (drop (Z.to_nat (rb_tail rb)) (take (Z.to_nat hd) cl))).
Proof.
  intros H64 Hcl. induction fuel as [[|fuel] IH] using lt_wf_ind; intros rb out Ht Hpub Hf; [lia|].
  cbn [drain_run Drain_step]. destruct (Z.ltb_spec (Z.of_nat (length out)) mx) as [Ho|Ho]; cbn [andb].
  - destruct (Z.ltb_spec (rb_tail rb) hd) as [Hlt|Hge].
    + destruct (lookup_lt_is_Some_2 cl (Z.to_nat (rb_tail rb))) as [ev Hev]; [lia|].
      destruct (Hpub (rb_tail rb) ev ltac:(lia) ltac:(split; [lia|done])) as [Hr Hb].
      rewrite Hr, (u64_small (rb_tail rb + 1)) by (unfold is_u64; lia). cbn [default]. rewrite Z.eqb_refl.
      destruct fuel as [|fuel]; [lia|]. cbn [drain_run Drain_step]. rewrite Hb, (u64_small (rb_tail rb + 1)) by (unfold is_u64; lia).
      change (default zeroEvent (Some ev)) with ev. destruct (IH fuel ltac:(lia) (set_tail (rb_tail rb + 1) rb) (out ++ [ev])) as [rb' E];
        [cbn; lia|cbn; intros q e Hq; apply Hpub; lia|cbn; lia|].
      exists rb'. rewrite E, <- app_assoc. do 2 f_equal. cbn [set_tail rb_tail].
      rewrite length_app. cbn [length]. replace (Z.to_nat (rb_tail rb + 1)) with (S (Z.to_nat (rb_tail rb))) by lia.
      assert (Hd : drop (Z.to_nat (rb_tail rb)) (take (Z.to_nat hd) cl)
                   = ev :: drop (S (Z.to_nat (rb_tail rb))) (take (Z.to_nat hd) cl)).
      { apply drop_S. by rewrite lookup_take_lt by lia. }
      rewrite Hd. replace (Z.to_nat mx - length out)%nat with (S (Z.to_nat mx - (length out + 1))) by lia. done.
    + destruct fuel as [|fuel]; [lia|]. cbn [drain_run Drain_step]. destruct fuel; cbn [drain_run].
      all: eexists; do 2 f_equal; rewrite drop_ge by (rewrite length_take; lia); by rewrite take_nil, app_nil_r.
  - destruct fuel as [|fuel]; [lia|]. cbn [drain_run Drain_step]. destruct fuel; cbn [drain_run].
    all: eexists; do 2 f_equal; replace (Z.to_nat mx - length out)%nat with 0%nat by lia; by rewrite app_nil_r.
Qed.

(** Calls without interference.  In any reached state with no event between
    claim and publication and no DrainBatch in progress, DrainBatch returns the
    oldest waiting events, up to [max], and terminates; a Submit that runs alone
    reports a full buffer exactly when [size] events wait, and otherwise puts its
    event last. *)
Theorem ring_alone size m s tr max ev : ring_reaches size m s tr ->
  (forall p pc ev q, sys_producers s !! p = Some pc -> ~ in_flight pc ev q) -> sys_consumer s = K_idle ->
  is_i64 max ->
  let waiting := drop (length (batches tr)) (claims tr) in
  (exists rb', DrainBatch max (sys_rb s) = Some (rb', take (Z.to_nat max) waiting))
  /\ (Z.of_nat (length waiting) = size -> Submit ev (sys_rb s) = Some (sys_rb s, Some ErrBufferFull))
  /\ (Z.of_nat (length waiting) < size -> exists rb', Submit ev (sys_rb s) = Some (rb', None)
        /\ rb_head rb' = u64 (rb_head (sys_rb s) + 1)
        /\ rb_buf rb' !! slot rb' (rb_head (sys_rb s)) = Some ev).
Proof.
  intros Hr Hq Hc Hmx waiting. pose proof (reaches_inv _ _ _ _ Hr) as I. pose proof (reaches_cap _ _ _ _ Hr) as Hcap.
  destruct (ri_order _ _ _ I) as (H1 & H2 & H3). pose proof (ri_head _ _ _ I) as Hh.
  pose proof (ri_shared _ _ _ I) as Hts. pose proof (ri_taken _ _ _ I) as Htk. rewrite Hc in Hts, Htk. cbn in Htk.
  rewrite app_nil_r in Htk.
  pose proof (ri_shape _ _ _ I) as Hsh. pose proof (cap_bounds _ Hsh) as Hcb.
  assert (H64 : rb_head (sys_rb s) < 2 ^ 64) by (rewrite Hh; by destruct Hr as (? & ? & _ & _ & _ & ?)).
  assert (Hw : waiting = drop (Z.to_nat (rb_tail (sys_rb s))) (claims tr)).
  { unfold waiting. rewrite Htk, length_take. f_equal. lia. }
  assert (Hlw : Z.of_nat (length waiting) = rb_head (sys_rb s) - rb_tail (sys_rb s)) by (rewrite Hw, length_drop; lia).
  assert (Hu : u64 (rb_head (sys_rb s) - rb_tail (sys_rb s)) = rb_head (sys_rb s) - rb_tail (sys_rb s)).
  { apply u64_small. unfold is_u64. lia. }
  split_and!.
  - unfold DrainBatch. replace (2 * length (rb_buf (sys_rb s)) + 4)%nat with (S (2 * length (rb_buf (sys_rb s)) + 3)) by lia.
    set (fuel := (2 * length (rb_buf (sys_rb s)) + 3)%nat). cbn [drain_run Drain_step].
    destruct (Z.leb_spec max 0) as [Hm|Hm].
    { exists (sys_rb s). destruct fuel; cbn [drain_run]; by replace (Z.to_nat max) with 0%nat by lia. }
    destruct (Z.eqb_spec (rb_head (sys_rb s)) (rb_tail (sys_rb s))) as [E|E].
    { exists (sys_rb s). rewrite Hw, drop_ge, take_nil by lia. by destruct fuel. }
    rewrite Hu, (u64_small max) by (unfold is_u64, is_i64 in *; lia). rewrite i64_small by (unfold is_i64; lia).
    set (mx := if rb_head (sys_rb s) - rb_tail (sys_rb s) <? max then rb_head (sys_rb s) - rb_tail (sys_rb s) else max).
    destruct (drain_all (claims tr) (rb_head (sys_rb s)) mx H64 ltac:(lia) fuel
                (sys_rb s) []) as [rb' E'].
    + lia.
    + intros q e Hqq Hs. destruct (ri_seq _ _ _ I q e ltac:(lia) Hs) as [|(p & pc & Hp & Hf)]; [done|].
      exfalso. by eapply Hq.
    + destruct Hsh as (_ & _ & Hl & _). lia.
    + exists rb'. rewrite E'. do 2 f_equal. cbn [length app].
      rewrite Nat.sub_0_r, Hw, (take_ge (claims tr)) by lia. unfold mx.
      destruct (Z.ltb_spec (rb_head (sys_rb s) - rb_tail (sys_rb s)) max); [|done].
      rewrite !take_ge; [done|rewrite length_drop; lia..].
  - intros Hf. unfold Submit. cbn [submit_run Submit_step]. rewrite Hts, Hu, (proj2 (Z.leb_le _ _)) by lia. done.
  - intros Hf. unfold Submit. cbn [submit_run Submit_step]. rewrite Hts, Hu, (proj2 (Z.leb_gt _ _)), Z.eqb_refl by lia.
    cbn [submit_run Submit_step]. eexists. split; [done|]. split; [done|].
    pose proof (slot_lt _ (rb_head (sys_rb s)) Hsh ltac:(lia)) as Hs. destruct Hsh as (_ & _ & Hl & _).
    unfold slot in *. cbn. apply list_lookup_insert_eq. by rewrite Hl.
Qed.

(** A Submit on an empty buffer can report that it is full: between its loads
    of [head] and of [tailShared] another event is submitted and drained, and
    [h - t] wraps below zero. *)
Definition spurious_schedule (ev : TransferEvent) : list action :=
  let consume := Consume (mkEnv false false true false) in
  [Call 1 ev; Produce 1]
  ++ Call 2 ev :: replicate 6 (Produce 2)
  ++ replicate 9 consume
  ++ [Produce 1; Produce 1].

(** A Submit can be refused by an empty buffer.  The two loads of Submit are
    not one: when the consumer passes the loaded head in between, [h - t] wraps
    around and the event is refused with ErrBufferFull though none waits. *)
Theorem submit_full_when_empty :
  exists s tr, ring_reaches 4 10 s tr /\ sys_producers s !! 1%nat = Some (S_return (Some ErrBufferFull))
    /\ Len (sys_rb s) = 0 /\ claims tr = batches tr /\ length (claims tr) = 1%nat.
Proof.
  destruct (NewRingBuffer 4) as [rb|] eqn:E; [|by vm_compute in E].
  destruct (sys_run 10 (spurious_schedule zeroEvent) (sys_init rb)) as [s tr] eqn:Er.
  exists s, tr. assert (H : ring_reaches 4 10 s tr /\ sys_producers s !! 1%nat = Some (S_return (Some ErrBufferFull))
    /\ Len (sys_rb s) = 0 /\ claims tr = batches tr /\ length (claims tr) = 1%nat); [|exact H].
  vm_compute in E. injection E as <-. vm_compute in Er. injection Er as <- <-. split.
  - exists (mkRing (replicate 4 zeroEvent) (replicate 4 0) 3 4 0 0 0 None false []), (spurious_schedule zeroEvent).
    split; [done|]. split; [done|]. split; [by vm_compute|done].
  - split_and!; by vm_compute.
Qed.

(** ** Witnesses *)

Definition ring4 : RingBuffer := mkRing (replicate 4 zeroEvent) (replicate 4 0) 3 4 0 0 0 None false [].
Definition ring_demo (acts : list action) : System * list shown := sys_run 10 acts (sys_init ring4).
Definition event_of (n : Z) : TransferEvent := mkEvent (set_Timestamp n zeroTransfer) None None 0.
Definition patient : action := Consume (mkEnv false false false true).
Definition submit (p n : nat) (ev : TransferEvent) : list action := Call p ev :: replicate n (Produce p).

Lemma demo_reaches acts s tr : ring_demo acts = (s, tr) -> Z.of_nat (length (claims tr)) < 2 ^ 64 ->
  ring_reaches 4 10 s tr.
Proof. intros E Hb. exists ring4, acts. by repeat split. Qed.

Lemma ring_is_fifo_witness : exists waiting,
  claims (ring_demo (submit 1 6 (event_of 1) ++ submit 2 6 (event_of 2) ++ replicate 6 patient)).2
  = [] ++ [event_of 1] ++ waiting /\ Z.of_nat (length waiting) <= 4.
Proof.
  apply (ring_is_fifo 4 10 (ring_demo (submit 1 6 (event_of 1) ++ submit 2 6 (event_of 2) ++ replicate 6 patient)).1).
  eapply demo_reaches; [apply surjective_pairing|]. vm_compute. reflexivity.
Defined.

Lemma slots_exclusive_witness :
  let s := (ring_demo (submit 1 3 (event_of 1) ++ submit 2 3 (event_of 2))).1 in
  slot (sys_rb s) 0 <> slot (sys_rb s) 1.
Proof.
  pose proof (slots_exclusive 4 10 (ring_demo (submit 1 3 (event_of 1) ++ submit 2 3 (event_of 2))).1
    (ring_demo (submit 1 3 (event_of 1) ++ submit 2 3 (event_of 2))).2 1 (event_of 1) 0) as H.
  apply H with (p' := 2%nat) (ev' := event_of 2).
  - eapply demo_reaches; [apply surjective_pairing|]. vm_compute. reflexivity.
  - vm_compute. reflexivity.
  - done.
  - vm_compute. reflexivity.
Defined.

Lemma no_lost_wakeup_witness :
  let s := (ring_demo (replicate 5 patient ++ submit 1 3 (event_of 1))).1 in
  (exists p pc, sys_producers s !! p = Some pc /\ signalling pc)
  /\ chan_closed (signalArrived (sys_rb s)) 0 = true.
Proof.
  apply (no_lost_wakeup 4 10 _ (ring_demo (replicate 5 patient ++ submit 1 3 (event_of 1))).2).
  - eapply demo_reaches; [apply surjective_pairing|]. vm_compute. reflexivity.
  - vm_compute. reflexivity.
  - vm_compute. reflexivity.
  - vm_compute. reflexivity.
Defined.

Lemma ring_alone_witness :
  let '(s, tr) := ring_demo (submit 1 6 (event_of 1) ++ submit 2 6 (event_of 2)) in
  exists rb', DrainBatch 1 (sys_rb s) = Some (rb', [event_of 1]).
Proof.
  destruct (ring_alone 4 10 (ring_demo (submit 1 6 (event_of 1) ++ submit 2 6 (event_of 2))).1
    (ring_demo (submit 1 6 (event_of 1) ++ submit 2 6 (event_of 2))).2 1 (event_of 3)) as (H & _).
  - eapply demo_reaches; [apply surjective_pairing|]. vm_compute. reflexivity.
  - intros p pc ev q Hp.
    assert (Hr : map_Forall (fun _ pc => returned (Some pc) = true)
                   (sys_producers (ring_demo (submit 1 6 (event_of 1) ++ submit 2 6 (event_of 2))).1))
      by (eapply bool_decide_unpack; vm_compute; exact I).
    specialize (Hr p pc Hp). intros [-> | ->]; discriminate Hr.
  - vm_compute. reflexivity.
  - done.
  - exact H.
Defined.
