(* ===== verification/Replication.v ===== *)
(** * Replication (internal/replication: term.go, server.go, follower.go, failover.go)

    A directory is a map from file names to contents; the term files lie beside
    the segments, in a map of their own here.  A connection is, for the
    follower, a function from the bytes it sends to the bytes it receives
    before the connection ends; for the server, the frames it writes, one per
    round of its loop, each round with the log as it is at that time.  Writes
    to files succeed.  TLS, metrics and printed messages are left out. *)

From S2P Require Import Prelude Core Codec Accounts Crc Record Wal Recovery Idempotency Engine Stream.

(** ** Terms (term.go) *)

Abbreviation Files := (gmap string (list byte)).

Definition primaryTermFile : string := "replication.term".
Definition followerTermFile : string := "replication.follower-term".

Definition loadTermUint (path : string) (fs : Files) : Z :=
  match fs !! path with
  | None => 0
  | Some data => if negb (length data =? 8)%nat then 0 else be_val data
  end.

(** Writes a temporary file and renames it. *)
Definition storeTermUint (path : string) (term : Z) (fs : Files) : Files :=
  let tmp := String.append path ".tmp" in
  let fs := <[tmp := be_bytes 8 term]> fs in
  <[path := be_bytes 8 term]> (delete tmp fs).

Definition PrimaryTerm (fs : Files) : Files * Z :=
  let term := loadTermUint primaryTermFile fs in
  if 0 <? term then (fs, term) else (storeTermUint primaryTermFile 1 fs, 1).

Definition BumpTerm (fs : Files) : Files * Z :=
  let term := u64 (loadTermUint primaryTermFile fs + 1) in
  (storeTermUint primaryTermFile term fs, term).

Definition loadFollowerTerm (fs : Files) : Z := loadTermUint followerTermFile fs.
Definition storeFollowerTerm (term : Z) (fs : Files) : Files := storeTermUint followerTermFile term fs.

(** ** The server (server.go) *)

Definition beUint64 (v : Z) : list byte := be_bytes 8 v.

(** The frame on the wire: a term before the frame of the log. *)
Definition writeFrame (term : Z) (rec : Record) : list byte :=
  let buf := be_bytes 8 term ++ record_header (r_LSN rec) (r_Type rec) (length (r_Payload rec)) ++ r_Payload rec in
  buf ++ be_bytes 4 (ChecksumIEEE buf).

Definition head_record (w : WAL) : Record := mkRecord 0 RecordTypeHead (beUint64 (u64 (CurrentLSN w))).

(** The loop of handleConn over the states [ws] of the log in its rounds. *)
Fixpoint serve_stream (ws : list WAL) (term : Z) (sr : StreamReader) : list (list byte) :=
  match ws with
  | [] => []
  | w :: ws =>
      match Next w sr with
      | (_, Err _) => []
      | (sr, Ok None) => writeFrame term (head_record w) :: serve_stream ws term sr
      | (sr, Ok (Some rec)) => writeFrame term rec :: serve_stream ws term sr
      end
  end.

Definition handleConn (ws : list WAL) (term : Z) (request : list byte) : list byte :=
  if (length request <? 8)%nat then []
  else
    let startLSN := i64 (be_val (take 8 request)) in
    be_bytes 8 term ++ concat (serve_stream ws term (NewStreamReader startLSN)).

(** ** The follower (follower.go) *)

Inductive sync_error : Type :=
| errStalePrimary
| errConn                            (* dialing, reading or writing fails *)
| errCRC (lsn : Z)
| errFlush (lsn : Z) (err : error)
| errPanic.                          (* a slice out of range: the process ends *)

Definition followerBackoffBase : Z := 100 * 10 ^ 6.    (* nanoseconds *)
Definition followerBackoffMax : Z := 5 * 10 ^ 9.
Definition followerBreakerLimit : Z := 8.
Definition followerFlushThreshold : nat := 4096.
Definition frameHeaderSize : nat := 21.

Record Follower := mkFollower {
  f_accounts : AccountManager;
  f_localWAL : WAL;
  f_files : Files;
  f_lastLSN : Z;
  f_lastTerm : Z;
  f_primaryHead : Z;
  f_connected : bool;
  f_failures : Z;
  f_BackoffBase : Z;
  f_BackoffMax : Z;
  f_BreakerLimit : Z;
  f_pending : list Record }.

Abbreviation FM := (M Follower sync_error).

Definition fset_accounts (m : AccountManager) (f : Follower) : Follower :=
  mkFollower m (f_localWAL f) (f_files f) (f_lastLSN f) (f_lastTerm f) (f_primaryHead f) (f_connected f)
    (f_failures f) (f_BackoffBase f) (f_BackoffMax f) (f_BreakerLimit f) (f_pending f).
Definition fset_wal (w : WAL) (f : Follower) : Follower :=
  mkFollower (f_accounts f) w (f_files f) (f_lastLSN f) (f_lastTerm f) (f_primaryHead f) (f_connected f)
    (f_failures f) (f_BackoffBase f) (f_BackoffMax f) (f_BreakerLimit f) (f_pending f).
Definition fset_lastLSN (lsn : Z) (f : Follower) : Follower :=
  mkFollower (f_accounts f) (f_localWAL f) (f_files f) lsn (f_lastTerm f) (f_primaryHead f) (f_connected f)
    (f_failures f) (f_BackoffBase f) (f_BackoffMax f) (f_BreakerLimit f) (f_pending f).
Definition fset_term (fs : Files) (term : Z) (f : Follower) : Follower :=
  mkFollower (f_accounts f) (f_localWAL f) fs (f_lastLSN f) term (f_primaryHead f) (f_connected f)
    (f_failures f) (f_BackoffBase f) (f_BackoffMax f) (f_BreakerLimit f) (f_pending f).
Definition fset_primaryHead (head : Z) (f : Follower) : Follower :=
  mkFollower (f_accounts f) (f_localWAL f) (f_files f) (f_lastLSN f) (f_lastTerm f) head (f_connected f)
    (f_failures f) (f_BackoffBase f) (f_BackoffMax f) (f_BreakerLimit f) (f_pending f).
Definition fset_conn (failures : Z) (connected : bool) (f : Follower) : Follower :=
  mkFollower (f_accounts f) (f_localWAL f) (f_files f) (f_lastLSN f) (f_lastTerm f) (f_primaryHead f) connected
    failures (f_BackoffBase f) (f_BackoffMax f) (f_BreakerLimit f) (f_pending f).
Definition fset_pending (pending : list Record) (f : Follower) : Follower :=
  mkFollower (f_accounts f) (f_localWAL f) (f_files f) (f_lastLSN f) (f_lastTerm f) (f_primaryHead f) (f_connected f)
    (f_failures f) (f_BackoffBase f) (f_BackoffMax f) (f_BreakerLimit f) pending.

Definition NewFollower (localWAL : WAL) (fs : Files) (initialAccounts : list Account) : Follower :=
  mkFollower (restore_accounts initialAccounts NewAccountManager) localWAL fs 0 (loadFollowerTerm fs) 0 false
    0 0 0 0 [].

Definition backoffBase (f : Follower) : Z := if 0 <? f_BackoffBase f then f_BackoffBase f else followerBackoffBase.
Definition backoffMax (f : Follower) : Z := if 0 <? f_BackoffMax f then f_BackoffMax f else followerBackoffMax.
Definition breakerLimit (f : Follower) : Z := if 0 <? f_BreakerLimit f then f_BreakerLimit f else followerBreakerLimit.
Definition min64 (a b : Z) : Z := if a <? b then a else b.

Definition LastLSN (f : Follower) : Z := f_lastLSN f.
Definition Lag (f : Follower) : Z := i64 (f_primaryHead f - LastLSN f).
Definition Connected (f : Follower) : bool := f_connected f.
Definition Follower_GetAccount (f : Follower) (id : ID) : result Account error :=
  i <-? Get (f_accounts f) id ;; Ok (acc_at (f_accounts f) i).
Definition Follower_Accounts (f : Follower) : list Account := Snapshot (f_accounts f).

Definition applyRecord (r : Record) : M AccountManager error unit := fun m =>
  if r_Type r =? RecordTypeAccount then
    match DecodeAccountPayload (r_Payload r) with
    | Err err => (m, Err err)
    | Ok acc =>
        match Get m (a_ID acc) with
        | Ok _ => (m, Ok tt)
        | Err _ => Create acc m
        end
    end
  else if r_Type r =? RecordTypeTransfer then
    match DecodeTransferPayload (r_Payload r) with
    | Err err => (m, Err err)
    | Ok t =>
        let m := if Clock m <? t_Timestamp t then SetClock (t_Timestamp t) m else m in
        let m := SetClock (Clock m) m in
        let m := CloseExpired m in
        ApplyTransferState t m
    end
  else (m, Ok tt).

(** The handler of the follower's own recovery. *)
Definition recover_record (r : Record) : M (AccountManager * Z) error unit := fun '(m, maxDataLSN) =>
  if (r_Type r =? RecordTypeBatchCommit) || (r_Type r =? RecordTypeHead) then ((m, maxDataLSN), Ok tt)
  else
    let maxDataLSN := if maxDataLSN <? i64 (r_LSN r) then i64 (r_LSN r) else maxDataLSN in
    let '(m, res) := applyRecord r m in ((m, maxDataLSN), res).

Definition recoverLocalState (f : Follower) : Follower * result unit error :=
  match Recover recover_record (f_localWAL f) (f_accounts f, 0) with
  | (w, (m, _), Err err) => (fset_accounts m (fset_wal w f), Err err)
  | (w, (m, maxDataLSN), Ok _) =>
      let applied := maxDataLSN in
      let applied := if 0 <? applied then i64 (applied + 1) else applied in
      (fset_lastLSN applied (fset_accounts m (fset_wal w f)), Ok tt)
  end.

Definition fullResync (f : Follower) : Follower :=
  fset_wal (Reset (f_localWAL f)) (fset_pending [] (fset_lastLSN 0 (fset_accounts NewAccountManager f))).

Definition flush (f : Follower) : Follower * result unit error :=
  match f_pending f with
  | [] => (f, Ok tt)
  | batch =>
      let f := fset_pending [] f in
      match AppendBatch batch (f_localWAL f) with
      | (w, Err err) => (fset_wal w f, Err err)
      | (w, Ok _) =>
          let f := fset_wal (Sync w) f in
          let '(m, res) := handle_all applyRecord batch (f_accounts f) in
          (fset_accounts m f, res)
      end
  end.
Definition flush_at (lsn : Z) : FM unit := fun f =>
  match flush f with (f, Ok _) => (f, Ok tt) | (f, Err err) => (f, Err (errFlush lsn err)) end.

(** Reads one frame: its term, its record and the bytes that follow. *)
Definition read_frame (conn : list byte) : result (Z * Record * list byte) sync_error :=
  if (length conn <? frameHeaderSize)%nat then Err errConn
  else
    let header := take frameHeaderSize conn in
    let conn := drop frameHeaderSize conn in
    let frameTerm := be_val (slice 0 8 header) in
    let lsn := i64 (be_val (slice 8 16 header)) in
    let recType := be_val (slice 16 17 header) in
    let payloadLen := Z.to_nat (be_val (slice 17 21 header)) in
    let bodyLen := Z.to_nat (u32 (Z.of_nat payloadLen + 4)) in
    if (length conn <? bodyLen)%nat then Err errConn
    (* body[:payloadLen], or frame[frameHeaderSize:] of a length that wrapped *)
    else if 2 ^ 32 <=? Z.of_nat payloadLen + Z.of_nat frameHeaderSize then Err errPanic
    else
      let body := take bodyLen conn in
      let payload := take payloadLen body in
      let expectedCRC := be_val (drop payloadLen body) in
      if negb (ChecksumIEEE (header ++ payload) =? expectedCRC) then Err (errCRC lsn)
      else Ok (frameTerm, mkRecord (u64 lsn) recType payload, drop bodyLen conn).

(** The switch on the type of a record whose frame was accepted. *)
Definition handle_frame (rec : Record) : FM unit :=
  let lsn := i64 (r_LSN rec) in
  if r_Type rec =? RecordTypeHead then
    if (8 <=? length (r_Payload rec))%nat
    then smodify (fset_primaryHead (i64 (be_val (take 8 (r_Payload rec)))))
    else sret tt
  else if r_Type rec =? RecordTypeBatchCommit then
    flush_at lsn >>
    smodify (fun f => if f_lastLSN f <? lsn then fset_lastLSN lsn f else f)
  else
    f <-- sget ;;
    if lsn <=? f_lastLSN f then sret tt
    else
      smodify (fset_pending (f_pending f ++ [rec])) >>
      f <-- sget ;;
      if (followerFlushThreshold <=? length (f_pending f))%nat then flush_at lsn else sret tt.

(** The frame loop; the context is found done after [n] frames. *)
Fixpoint sync_frames (n : nat) (conn : list byte) : FM unit :=
  match n with
  | O => sret tt
  | S n =>
      frame <-- slift (read_frame conn) ;;
      let '(frameTerm, rec, conn) := frame in
      f <-- sget ;;
      if frameTerm <? f_lastTerm f then sfail errStalePrimary
      else handle_frame rec >> sync_frames n conn
  end.

(** [peer] is what the dialed connection answers to the bytes sent; [None]: the
    dial fails. *)
Definition sync_body (peer : option (list byte -> list byte)) (n : nat) : FM unit :=
  match peer with
  | None => sfail errConn
  | Some peer =>
      f <-- sget ;;
      let resume := i64 (f_lastLSN f + 1) in
      let conn := peer (beUint64 (u64 resume)) in
      if (length conn <? 8)%nat then sfail errConn
      else
        let term := be_val (take 8 conn) in
        if negb (f_lastTerm f =? 0) && (term <? f_lastTerm f) then sfail errStalePrimary
        else
          smodify (fun f => if f_lastTerm f <? term then fset_term (storeFollowerTerm term (f_files f)) term f else f) >>
          smodify (fset_conn 0 true) >>
          sync_frames n (drop 8 conn)
  end.

Definition syncLoop (peer : option (list byte -> list byte)) (n : nat) (f : Follower)
    : Follower * result unit sync_error :=
  let '(f, res) := sync_body peer n (fset_pending [] f) in (fset_pending [] f, res).

(** [x << s] on int64, [s] a uint64. *)
Definition shl64 (x s : Z) : Z := if 64 <=? s then 0 else i64 (Z.shiftl x s).
Definition backoff (f : Follower) : Z :=
  let d := shl64 (backoffBase f) (u64 (min64 (f_failures f - 1) 6)) in
  if backoffMax f <? d then backoffMax f else d.

(** One round of the loop of Start, with the time it then sleeps; [None]: the
    process has ended.  fullResync does not fail, as file operations succeed. *)
Definition Start_round (peer : option (list byte -> list byte)) (n : nat) (f : Follower) : option (Follower * Z) :=
  match syncLoop peer n f with
  | (f, Ok _) => Some (f, 0)
  | (f, Err errStalePrimary) => Some (f, 500 * 10 ^ 6)
  | (f, Err errPanic) => None
  | (f, Err _) =>
      let f := fset_conn (f_failures f + 1) (f_connected f) f in
      let f := if breakerLimit f <=? f_failures f
               then let f := fullResync f in fset_conn 0 (f_connected f) f
               else f in
      Some (f, backoff f)
  end.

Fixpoint Start_loop (rounds : list (option (list byte -> list byte) * nat)) (f : Follower) : option Follower :=
  match rounds with
  | [] => Some f
  | (peer, n) :: rounds => '(f, _) ← Start_round peer n f; Start_loop rounds f
  end.

(** The goroutine of Start over the connections it makes until it is stopped. *)
Definition Start (rounds : list (option (list byte -> list byte) * nat)) (f : Follower) : option Follower :=
  match recoverLocalState f with
  | (f, Err _) => Some f
  | (f, Ok _) => Start_loop rounds f
  end.

(** ** Promotion (failover.go) *)

(** [f] as Stop leaves it. *)
Definition PromoteToPrimary (now : Z) (cfg : Config) (f : Follower)
    : Follower * result (Engine * IdempotencyStore) error :=
  let '(fs, term) := BumpTerm (f_files f) in
  let f := fset_term fs (f_lastTerm f) f in
  let cfg := mkConfig [] (cfg_IdempotencyMaxSize cfg) (cfg_IdempotencyTTL cfg) (cfg_snapshot cfg) in
  (f, NewLedger now cfg (f_localWAL f)).
