(* ===== verification/ReplicationProps.v ===== *)
(** * Properties of replication: frames, fencing, failures *)

From S2P Require Import Prelude Core Codec Accounts Crc Record Wal Recovery WalProps RecoveryProps Idempotency Engine Stream Replication.

(** ** Frames *)

Definition wire_header (term : Z) (r : Record) : list byte :=
  be_bytes 8 term ++ record_header (r_LSN r) (r_Type r) (length (r_Payload r)).

(** A record whose frame the follower can hold in one uint32-sized buffer. *)
Definition sendable (r : Record) : Prop := wf_record r /\ Z.of_nat (length (r_Payload r)) + 21 < 2 ^ 32.

Lemma writeFrame_split term r : writeFrame term r
  = wire_header term r ++ r_Payload r ++ be_bytes 4 (ChecksumIEEE (wire_header term r ++ r_Payload r)).
Proof. unfold writeFrame, wire_header. by rewrite <- !app_assoc. Qed.
Lemma length_wire_header term r : length (wire_header term r) = 21%nat.
Proof. unfold wire_header. by rewrite length_app, length_be_bytes, length_header. Qed.
Lemma length_writeFrame term r : length (writeFrame term r) = (21 + length (r_Payload r) + 4)%nat.
Proof. rewrite writeFrame_split, !length_app, length_be_bytes, length_wire_header. lia. Qed.

Lemma wire_fields term r : is_u64 term -> wf_record r ->
  be_val (slice 0 8 (wire_header term r)) = term /\ be_val (slice 8 16 (wire_header term r)) = r_LSN r
  /\ be_val (slice 16 17 (wire_header term r)) = r_Type r
  /\ be_val (slice 17 21 (wire_header term r)) = Z.of_nat (length (r_Payload r)).
Proof.
  intros Ht [HL HT HP]. unfold wire_header. set (h := record_header _ _ _).
  assert (E : forall a b, slice (8 + a) (8 + b) (be_bytes 8 term ++ h) = slice a b h).
  { intros a b. rewrite <- (length_be_bytes 8 term) at 1 2. apply slice_from. }
  pose proof (E 0%nat 8%nat) as E0. pose proof (E 8%nat 9%nat) as E8. pose proof (E 9%nat 13%nat) as E9.
  cbn [Nat.add] in E0, E8, E9. rewrite E0, E8, E9. rewrite <- (app_nil_r h) at 2 3 4. unfold h.
  rewrite header_lsn, header_type, header_len by (done || lia). split; [|done].
  unfold slice. rewrite drop_0, take_app_length' by (by rewrite length_be_bytes). by apply be_val_u64.
Qed.

Lemma u64_i64 z : is_u64 z -> u64 (i64 z) = z.
Proof.
  unfold is_u64, u64, i64. intros H. rewrite Zminus_mod_idemp_l. replace (z + 2 ^ 63 - 2 ^ 63) with z by lia.
  by apply Z.mod_small.
Qed.

(** What read_frame computes on a header, a payload of its length and a sum. *)
Lemma read_frame_parts h p c rest : length h = 21%nat -> be_val (slice 17 21 h) = Z.of_nat (length p) ->
  length c = 4%nat -> Z.of_nat (length p) + 21 < 2 ^ 32 ->
  read_frame (h ++ p ++ c ++ rest)
  = if negb (ChecksumIEEE (h ++ p) =? be_val c) then Err (errCRC (i64 (be_val (slice 8 16 h))))
    else Ok (be_val (slice 0 8 h), mkRecord (u64 (i64 (be_val (slice 8 16 h)))) (be_val (slice 16 17 h)) p, rest).
Proof.
  intros Hh Hl Hc Hb. unfold read_frame, frameHeaderSize. rewrite (app_assoc p c rest), length_app.
  rewrite (proj2 (Nat.ltb_ge _ _)) by lia. rewrite take_app_length', drop_app_length' by done. rewrite Hl, Nat2Z.id.
  unfold u32. rewrite Z.mod_small by lia. replace (Z.to_nat (Z.of_nat (length p) + 4)) with (length (p ++ c)) by (rewrite length_app; lia).
  rewrite (length_app (p ++ c)), (proj2 (Nat.ltb_ge _ _)) by lia. rewrite (proj2 (Z.leb_gt _ _)) by lia.
  rewrite take_app_length, drop_app_length. by rewrite take_app_length, drop_app_length.
Qed.

Lemma read_writeFrame term r rest : is_u64 term -> sendable r -> read_frame (writeFrame term r ++ rest) = Ok (term, r, rest).
Proof.
  intros Ht [Hw Hb]. destruct (wire_fields term r Ht Hw) as (E1 & E2 & E3 & E4).
  rewrite writeFrame_split, <- !app_assoc, read_frame_parts by (done || apply length_wire_header || by rewrite length_be_bytes).
  rewrite be_val_u32 by apply ChecksumIEEE_u32. rewrite Z.eqb_refl. cbn [negb]. rewrite E1, E2, E3, u64_i64 by apply Hw.
  by destruct r.
Qed.

(** A frame that has not arrived whole is not read. *)
Lemma read_frame_short term r n : is_u64 term -> sendable r -> (n < length (writeFrame term r))%nat ->
  read_frame (take n (writeFrame term r)) = Err errConn.
Proof.
  intros Ht [Hw Hb] Hn. destruct (wire_fields term r Ht Hw) as (_ & _ & _ & E4). rewrite length_writeFrame in Hn.
  unfold read_frame, frameHeaderSize. rewrite length_take, length_writeFrame.
  destruct (Nat.ltb_spec (n `min` (21 + length (r_Payload r) + 4)) 21); [done|].
  rewrite take_take, Nat.min_l by lia. rewrite writeFrame_split.
  assert (Eh : forall l, take 21 (wire_header term r ++ l) = wire_header term r).
  { intros l. by rewrite take_app_length' by (by rewrite length_wire_header). }
  rewrite Eh. clear Eh.
  rewrite E4, Nat2Z.id. unfold u32. rewrite Z.mod_small by lia.
  rewrite length_drop, length_take, !length_app, length_wire_header, length_be_bytes.
  by rewrite (proj2 (Nat.ltb_lt _ _)) by lia.
Qed.

(** One changed byte outside the length field. *)
Lemma read_frame_damaged term r rest i a b : is_u64 term -> sendable r -> writeFrame term r !! i = Some a -> a <> b ->
  (i < 17 \/ 21 <= i)%nat -> exists lsn, read_frame (<[i := b]> (writeFrame term r) ++ rest) = Err (errCRC lsn).
Proof.
  intros Ht [Hw Hb] Hi Hne Hf. destruct (wire_fields term r Ht Hw) as (_ & _ & _ & E4).
  pose proof (length_wire_header term r) as Hlh. rewrite writeFrame_split in Hi |- *. set (h := wire_header term r) in *.
  set (p := r_Payload r) in *. set (c := be_bytes 4 (ChecksumIEEE (h ++ p))) in *.
  assert (Ec : be_val c = ChecksumIEEE (h ++ p)) by (apply be_val_u32, ChecksumIEEE_u32).
  assert (Hlc : length c = 4%nat) by apply length_be_bytes. clearbody c.
  assert (Hins : forall j (l : list byte), length (<[j := b]> l) = length l) by (intros; apply length_insert).
  destruct (decide (i < 21)%nat) as [H1|H1]; [|destruct (decide (i < 21 + length p)%nat) as [H2|H2]].
  - rewrite insert_app_l, <- !app_assoc by lia. rewrite lookup_app_l in Hi by lia.
    rewrite read_frame_parts; rewrite ?Hins; try done.
    2:{ rewrite <- E4. f_equal. unfold slice. rewrite drop_insert_lt by lia. done. }
    rewrite (proj2 (Z.eqb_neq _ _)); [by eexists|]. rewrite Ec, <- insert_app_l by lia.
    apply (ChecksumIEEE_insert _ i a); [by rewrite lookup_app_l by lia|done].
  - rewrite insert_app_r_alt, insert_app_l, <- !app_assoc by lia. rewrite lookup_app_r, lookup_app_l in Hi by lia.
    rewrite read_frame_parts; rewrite ?Hins; try done.
    rewrite (proj2 (Z.eqb_neq _ _)); [by eexists|]. rewrite Ec, <- insert_app_r_alt by lia.
    apply (ChecksumIEEE_insert _ i a); [by rewrite lookup_app_r by lia|done].
  - rewrite !insert_app_r_alt, <- !app_assoc by lia. rewrite !lookup_app_r in Hi by lia.
    rewrite read_frame_parts; rewrite ?Hins; try done.
    rewrite (proj2 (Z.eqb_neq _ _)); [by eexists|]. rewrite <- Ec. intros E.
    apply (f_equal (be_bytes 4)) in E. rewrite !be_bytes_val in E by (by rewrite ?Hins).
    apply (f_equal (fun l => l !! (i - length h - length p)%nat)) in E.
    rewrite list_lookup_insert_eq in E; [congruence|]. by apply lookup_lt_Some in Hi.
Qed.

(** ** A connection of the follower *)

(** What the frames of the records do, one after the other. *)
Fixpoint feed (rs : list Record) : FM unit :=
  match rs with
  | [] => sret tt
  | r :: rs => handle_frame r >> feed rs
  end.

Lemma feed_app a b f : feed (a ++ b) f = (feed a >> feed b) f.
Proof.
  revert f. induction a as [|r a IH]; intros f; [done|]. cbn [app feed]. unfold sbind in *.
  destruct (handle_frame r f) as [f1 [u|e]]; [apply IH|done].
Qed.

(** What frames leave alone. *)
Definition control (f : Follower) : Z * Files * Z * bool * Z :=
  (f_lastTerm f, f_files f, f_failures f, f_connected f, breakerLimit f).

Lemma flush_control f : control (flush f).1 = control f.
Proof. unfold flush. repeat case_match; simplify_eq; done. Qed.

Lemma flush_at_control lsn f : control (flush_at lsn f).1 = control f.
Proof. pose proof (flush_control f). unfold flush_at. by destruct (flush f) as [f' [u|e]]. Qed.

Lemma handle_frame_control r f : control (handle_frame r f).1 = control f.
Proof.
  unfold handle_frame. destruct (r_Type r =? RecordTypeHead); [by destruct (8 <=? _)%nat|].
  destruct (r_Type r =? RecordTypeBatchCommit).
  - pose proof (flush_at_control (i64 (r_LSN r)) f) as H. unfold sbind.
    destruct (flush_at _ f) as [f1 [u|e]]; [|done]. cbn [smodify fst] in *.
    by destruct (f_lastLSN f1 <? _).
  - unfold sbind, sget, smodify. destruct (i64 (r_LSN r) <=? f_lastLSN f); [done|].
    destruct (_ <=? _)%nat; [|done]. by rewrite flush_at_control.
Qed.

Lemma control_term f g : control f = control g -> f_lastTerm f = f_lastTerm g.
Proof. by intros [= ? ? ? ? ?]. Qed.

Lemma sync_frames_control n : forall conn f, control (sync_frames n conn f).1 = control f.
Proof.
  induction n as [|n IH]; intros conn f; [done|]. cbn [sync_frames]. unfold slift, sget, sbind at 1.
  destruct (read_frame conn) as [[[t r] rest]|e]; [|done]. unfold sbind at 1.
  destruct (t <? f_lastTerm f); [done|]. pose proof (handle_frame_control r f) as H. unfold sbind.
  destruct (handle_frame r f) as [f1 [u|e]]; [|done]. by rewrite IH.
Qed.

(** The frames a server has sent, of which any number of bytes may arrive. *)
Definition wire (term : Z) (rs : list Record) : list byte := concat (writeFrame term <$> rs).

Lemma sync_wire n : forall cut term rs f, is_u64 term -> Forall sendable rs -> f_lastTerm f <= term ->
  exists j, (sync_frames n (take cut (wire term rs)) f).1 = (feed (take j rs) f).1
    /\ forall q, (q <= length rs)%nat -> (q <= n)%nat -> (length (wire term (take q rs)) <= cut)%nat -> (q <= j)%nat.
Proof.
  induction n as [|n IH]; intros cut term rs f Ht Hrs Hf.
  { exists 0%nat. split; [done|]. intros q _ Hq _. done. }
  cbn [sync_frames]. unfold slift, sget. destruct rs as [|r rs].
  { exists 0%nat. split; [|cbn; lia]. unfold wire. cbn [fmap list_fmap concat]. rewrite take_nil. done. }
  apply Forall_cons in Hrs as [Hr Hrs]. unfold wire at 1. cbn [fmap list_fmap concat]. fold (wire term rs).
  assert (Hw : forall q, length (wire term (take (S q) (r :: rs))) = (length (writeFrame term r) + length (wire term (take q rs)))%nat).
  { intros q. unfold wire. cbn [take fmap list_fmap concat]. by rewrite length_app. }
  destruct (decide (cut < length (writeFrame term r))%nat) as [Hc|Hc].
  { exists 0%nat. rewrite take_app_le by lia. unfold sbind at 1. rewrite read_frame_short by done. split; [done|].
    intros [|q] _ _ Hq; [done|]. rewrite Hw in Hq. lia. }
  rewrite take_app_ge by lia. unfold sbind at 1. rewrite read_writeFrame by done. unfold sbind at 1.
  rewrite (proj2 (Z.ltb_ge _ _)) by done. pose proof (control_term _ _ (handle_frame_control r f)) as Et.
  destruct (handle_frame r f) as [f1 [u|e]] eqn:E; cbn [fst] in Et.
  - destruct (IH (cut - length (writeFrame term r))%nat term rs f1 Ht Hrs ltac:(lia)) as (j & Ej & Hj).
    exists (S j). cbn [take feed]. rewrite !(sbind_run_Ok _ _ _ _ _ E). split; [done|].
    intros [|q] Hq1 Hq2 Hq3; [lia|]. rewrite Hw in Hq3. cbn [length] in Hq1. apply le_n_S, Hj; lia.
  - exists (length (r :: rs)). rewrite firstn_all. cbn [feed]. rewrite !(sbind_run_Err _ _ _ _ _ E). by split.
Qed.

(** ** Fencing *)

(** The terms of the first [n] frames of a connection. *)
Fixpoint frame_terms (n : nat) (conn : list byte) : list Z :=
  match n with
  | O => []
  | S n => match read_frame conn with
           | Ok (t, _, conn) => t :: frame_terms n conn
           | Err _ => []
           end
  end.

Lemma sync_frames_fenced n conn f : Forall (fun t => t < f_lastTerm f) (frame_terms n conn) ->
  (sync_frames n conn f).1 = f.
Proof.
  destruct n as [|n]; [done|]. cbn [frame_terms sync_frames]. unfold slift, sget, sbind at 1.
  destruct (read_frame conn) as [[[t r] rest]|e]; [|done]. intros [Ht _]%Forall_cons. unfold sbind at 1.
  by rewrite (proj2 (Z.ltb_lt _ _)).
Qed.

Lemma load_store path term fs : is_u64 term -> loadTermUint path (storeTermUint path term fs) = term.
Proof.
  intros H. unfold loadTermUint, storeTermUint. rewrite lookup_insert_eq, length_be_bytes. cbn [Nat.eqb negb].
  by apply be_val_u64.
Qed.

(** The part of the state that a primary can change through frames. *)
Definition ledger_state (f : Follower) : AccountManager * WAL * Z := (f_accounts f, f_localWAL f, f_lastLSN f).

(** The term a connection opens with. *)
Definition handshake_term (f : Follower) (peer : list byte -> list byte) : option Z :=
  let conn := peer (beUint64 (u64 (i64 (f_lastLSN f + 1)))) in
  if (length conn <? 8)%nat then None else Some (be_val (take 8 conn)).
Definition frames_of (f : Follower) (peer : list byte -> list byte) : list byte :=
  drop 8 (peer (beUint64 (u64 (i64 (f_lastLSN f + 1))))).

(** The accepted term and its file agree. *)
Definition term_stored (f : Follower) : Prop := loadFollowerTerm (f_files f) = f_lastTerm f.

(** A connection by the term it opens with. *)
Lemma syncLoop_cases peer n f :
  match handshake_term f peer with
  | None => syncLoop (Some peer) n f = (fset_pending [] f, Err errConn)
  | Some t =>
      if negb (f_lastTerm f =? 0) && (t <? f_lastTerm f)
      then syncLoop (Some peer) n f = (fset_pending [] f, Err errStalePrimary)
      else
        let f1 := if f_lastTerm f <? t then fset_term (storeFollowerTerm t (f_files f)) t f else f in
        let '(f2, res) := sync_frames n (frames_of f peer) (fset_conn 0 true (fset_pending [] f1)) in
        syncLoop (Some peer) n f = (fset_pending [] f2, res)
  end.
Proof.
  unfold handshake_term, frames_of, syncLoop, sync_body, sbind, sget, smodify.
  change (f_lastLSN (fset_pending [] f)) with (f_lastLSN f).
  change (f_lastTerm (fset_pending [] f)) with (f_lastTerm f).
  set (conn := peer _). destruct (length conn <? 8)%nat; [done|].
  destruct (negb (f_lastTerm f =? 0) && (be_val (take 8 conn) <? f_lastTerm f)); [done|].
  cbn [f_lastTerm fset_pending f_files]. destruct (f_lastTerm f <? be_val (take 8 conn)); by destruct (sync_frames n _ _).
Qed.

Lemma syncLoop_term peer n f : term_stored f -> 0 <= f_lastTerm f ->
  let f' := (syncLoop peer n f).1 in term_stored f' /\ f_lastTerm f <= f_lastTerm f' /\ breakerLimit f' = breakerLimit f.
Proof.
  intros Hs H0. destruct peer as [peer|]; [|by split].
  pose proof (syncLoop_cases peer n f) as H. unfold handshake_term in H.
  set (conn := peer _) in H. destruct (length conn <? 8)%nat eqn:El; [by rewrite H|].
  set (t := be_val (take 8 conn)) in H. destruct (negb (f_lastTerm f =? 0) && (t <? f_lastTerm f)); [by rewrite H|].
  cbv zeta in H. set (f1 := if f_lastTerm f <? t then _ else f) in H.
  pose proof (sync_frames_control n (frames_of f peer) (fset_conn 0 true (fset_pending [] f1))) as Hc.
  destruct (sync_frames n _ _) as [f2 res]. rewrite H. cbn [fst] in *. injection Hc as Et Ef _ _ Hb.
  assert (Hbl : breakerLimit f1 = breakerLimit f) by (unfold f1; by destruct (_ <? _)).
  assert (H1 : term_stored f1 /\ f_lastTerm f <= f_lastTerm f1).
  { unfold f1. destruct (Z.ltb_spec (f_lastTerm f) t); [|done]. split; [|cbn; lia].
    apply load_store. pose proof (be_val_range (take 8 conn)) as Hr. apply Nat.ltb_ge in El.
    rewrite length_take, Nat.min_l in Hr by lia. exact Hr. }
  destruct H1 as [Hs1 Hl]. split; [unfold term_stored; cbn; rewrite Ef, Et; exact Hs1|]. split; [cbn; rewrite Et; exact Hl|].
  rewrite <- Hbl. exact Hb.
Qed.

Lemma Start_round_term peer n f f' d : term_stored f -> 0 <= f_lastTerm f -> Start_round peer n f = Some (f', d) ->
  term_stored f' /\ f_lastTerm f <= f_lastTerm f'.
Proof.
  intros Hs H0. destruct (syncLoop_term peer n f Hs H0) as (Hs' & Hl & _). unfold Start_round.
  destruct (syncLoop peer n f) as [f1 [u|e]]; cbn [fst] in *; [by intros [= <- _]|].
  destruct e; intros [= <- _]; try done; by destruct (_ <=? _).
Qed.

Lemma Start_loop_term rounds : forall f f', term_stored f -> 0 <= f_lastTerm f -> Start_loop rounds f = Some f' ->
  term_stored f' /\ f_lastTerm f <= f_lastTerm f'.
Proof.
  induction rounds as [|[peer n] rounds IH]; intros f f' Hs H0; cbn [Start_loop].
  { intros [= <-]. by split. }
  destruct (Start_round peer n f) as [[f1 d]|] eqn:E; [|done]. cbn.
  destruct (Start_round_term _ _ _ _ _ Hs H0 E) as [Hs1 Hl]. intros E2.
  destruct (IH _ _ Hs1 ltac:(lia) E2). split; [done|lia].
Qed.

Lemma recoverLocalState_control f : control (recoverLocalState f).1 = control f.
Proof. unfold recoverLocalState. by destruct (Recover _ _ _) as [[w [m l]] [u|e]]. Qed.

Lemma frames_unchanged peer n f : Forall (fun t => t < f_lastTerm (syncLoop (Some peer) n f).1) (frame_terms n (frames_of f peer)) ->
  ledger_state (syncLoop (Some peer) n f).1 = ledger_state f.
Proof.
  intros Hf. pose proof (syncLoop_cases peer n f) as H. destruct (handshake_term f peer) as [t|]; [|by rewrite H].
  destruct (negb (f_lastTerm f =? 0) && (t <? f_lastTerm f)); [by rewrite H|].
  cbv zeta in H. set (f1 := if f_lastTerm f <? t then _ else f) in H.
  assert (El : ledger_state f1 = ledger_state f) by (unfold f1; by destruct (_ <? _)).
  pose proof (control_term _ _ (sync_frames_control n (frames_of f peer) (fset_conn 0 true (fset_pending [] f1)))) as Et.
  pose proof (sync_frames_fenced n (frames_of f peer) (fset_conn 0 true (fset_pending [] f1))) as Hn.
  destruct (sync_frames n _ _) as [f2 res]. rewrite H in Hf |- *. cbn [fst] in *.
  rewrite <- El, Hn; [done|]. rewrite <- Et. exact Hf.
Qed.

(** ** Properties *)

(** A frame arrives whole and undamaged, or not at all.  The follower reads
    back the term and the record the server framed, and what follows; a frame
    cut short is not read; and a frame with one byte changed, its length field
    apart, is refused. *)
Theorem stream_frames_checked term r rest : is_u64 term -> sendable r ->
  read_frame (writeFrame term r ++ rest) = Ok (term, r, rest)
  /\ (forall n, (n < length (writeFrame term r))%nat -> read_frame (take n (writeFrame term r)) = Err errConn)
  /\ (forall i a b, writeFrame term r !! i = Some a -> a <> b -> (i < 17 \/ 21 <= i)%nat ->
        exists lsn, read_frame (<[i := b]> (writeFrame term r) ++ rest) = Err (errCRC lsn)).
Proof.
  intros Ht Hr. split; [by apply read_writeFrame|]. split; [intros n; by apply read_frame_short|].
  intros i a b. by apply read_frame_damaged.
Qed.

Lemma stream_frames_checked_witness :
  read_frame (writeFrame 3 (mkRecord 7 1 [x41; x42]) ++ [x00]) = Ok (3, mkRecord 7 1 [x41; x42], [x00]).
Proof.
  assert (Hr : sendable (mkRecord 7 1 [x41; x42])).
  { split; [constructor; cbn [r_LSN r_Type r_Payload length]; unfold is_u64; lia|cbn [r_Payload length]; lia]. }
  assert (Ht : is_u64 3) by (unfold is_u64; lia).
  exact (proj1 (stream_frames_checked 3 (mkRecord 7 1 [x41; x42]) [x00] Ht Hr)).
Defined.

(** C19. Terms fence.  Through any connections the accepted term only grows, and
    the term file holds it, so a restart keeps it.  A primary that opens with a
    lower term is refused and changes nothing; and a connection whose frames
    all carry a term below the accepted one changes neither the accounts, nor
    the local log, nor the position. *)
Theorem follower_fences rounds f0 f peer n : term_stored f0 -> 0 <= f_lastTerm f0 -> Start rounds f0 = Some f ->
  term_stored f /\ f_lastTerm f0 <= f_lastTerm f
  /\ let '(f', res) := syncLoop (Some peer) n f in
     (forall t, handshake_term f peer = Some t -> 0 <= t < f_lastTerm f ->
        f' = fset_pending [] f /\ res = Err errStalePrimary)
     /\ (Forall (fun t => t < f_lastTerm f') (frame_terms n (frames_of f peer)) -> ledger_state f' = ledger_state f).
Proof.
  intros Hs H0 E.
  assert (H : term_stored f /\ f_lastTerm f0 <= f_lastTerm f).
  { unfold Start in E. pose proof (recoverLocalState_control f0) as Hc.
    destruct (recoverLocalState f0) as [f1 [u|e]]; cbn [fst] in Hc; injection Hc as Et Ef _ _ _.
    - rewrite <- Et. apply (Start_loop_term rounds); [unfold term_stored; by rewrite Ef, Et|lia|done].
    - injection E as <-. unfold term_stored. rewrite Ef, Et. split; [exact Hs|lia]. }
  destruct H as [Hs' Hl]. split; [done|]. split; [done|].
  pose proof (syncLoop_cases peer n f) as H. pose proof (frames_unchanged peer n f) as Hu.
  destruct (syncLoop (Some peer) n f) as [f' res] eqn:Ef. split; [|done].
  intros t Et Ht. rewrite Et in H. rewrite (proj2 (Z.eqb_neq _ _)), (proj2 (Z.ltb_lt _ _)) in H by lia.
  cbn [negb andb] in H. by injection H as -> ->.
Qed.

Lemma follower_fences_witness :
  let f0 := NewFollower (Open [] 64) {[followerTermFile := be_bytes 8 2]} [] in
  match Start [] f0 with
  | Some f => (syncLoop (Some (fun _ => be_bytes 8 1)) 5 f).2 = Err errStalePrimary
  | None => False
  end.
Proof.
  cbv zeta. set (f0 := NewFollower _ _ _). destruct (Start [] f0) as [f|] eqn:E; [|vm_compute in E; discriminate].
  destruct (follower_fences [] f0 f (fun _ => be_bytes 8 1) 5) as (_ & _ & H); [vm_compute; reflexivity|vm_compute; discriminate|done|].
  assert (Ef : f = (recoverLocalState f0).1) by (vm_compute in E |- *; congruence).
  destruct (syncLoop _ _ f) as [f' res]. destruct H as [H _].
  destruct (H 1) as [_ Hres]; [by rewrite Ef; vm_compute|rewrite Ef; vm_compute; split; congruence|exact Hres].
Defined.

(** A promotion need not outrank the old primary.  BumpTerm counts from the
    directory's own term as a primary and not from the term the follower had
    accepted: a follower that was never a primary is promoted to term 1, the
    term of every primary on its first start, whatever term it followed. *)
Theorem promotion_may_not_outrank now cfg f fs : f_files f !! primaryTermFile = None -> fs !! primaryTermFile = None ->
  let f' := (PromoteToPrimary now cfg f).1 in
  (PrimaryTerm (f_files f')).2 = 1 /\ (PrimaryTerm fs).2 = 1 /\ f_lastTerm f' = f_lastTerm f.
Proof.
  intros Hf Hfs. unfold PromoteToPrimary, PrimaryTerm, BumpTerm. cbn [fst f_files fset_term f_lastTerm].
  assert (E0 : loadTermUint primaryTermFile (f_files f) = 0) by (unfold loadTermUint; by rewrite Hf).
  rewrite E0, load_store by done.
  assert (E1 : loadTermUint primaryTermFile fs = 0) by (unfold loadTermUint; by rewrite Hfs). by rewrite E1.
Qed.

Lemma promotion_may_not_outrank_witness :
  let f := NewFollower (Open [] 64) {[followerTermFile := be_bytes 8 2]} [] in
  let f' := (PromoteToPrimary 0 (mkConfig [] 1 1 None) f).1 in
  (PrimaryTerm (f_files f')).2 = 1 /\ (PrimaryTerm ∅).2 = 1 /\ f_lastTerm f' = f_lastTerm f.
Proof. apply promotion_may_not_outrank; vm_compute; reflexivity. Defined.

(** A length of 2^32-1. *)
Lemma read_frame_wrapped h body : length h = 17%nat -> (3 <= length body)%nat ->
  read_frame (h ++ [xff; xff; xff; xff] ++ body) = Err errPanic.
Proof.
  intros Hh Hb. assert (Hl : length (h ++ [xff; xff; xff; xff]) = 21%nat) by (by rewrite length_app, Hh).
  assert (Es : slice 17 21 (h ++ [xff; xff; xff; xff]) = [xff; xff; xff; xff]).
  { unfold slice. by rewrite drop_app_length' by done. }
  rewrite app_assoc. set (hd := h ++ [xff; xff; xff; xff]) in *. clearbody hd.
  unfold read_frame, frameHeaderSize. rewrite length_app, Hl, (proj2 (Nat.ltb_ge (21 + length body) 21)) by lia.
  rewrite take_app_length', drop_app_length' by done.
  assert (Ev : be_val [xff; xff; xff; xff] = 2 ^ 32 - 1) by (vm_compute; reflexivity).
  assert (E3 : Z.to_nat (u32 (2 ^ 32 - 1 + 4)) = 3%nat) by (vm_compute; reflexivity).
  rewrite Es, Ev, Z2Nat.id, E3 by lia. rewrite (proj2 (Nat.ltb_ge (length body) 3)) by lia.
  by rewrite (proj2 (Z.leb_le _ _)) by lia.
Qed.

Lemma opening_term f peer term l : is_u64 term -> peer (beUint64 (u64 (i64 (f_lastLSN f + 1)))) = be_bytes 8 term ++ l ->
  handshake_term f peer = Some term /\ frames_of f peer = l.
Proof.
  intros Ht E. unfold handshake_term, frames_of. rewrite E. pose proof (length_be_bytes 8 term) as Hl.
  rewrite take_app_length', drop_app_length' by done. rewrite length_app, Hl, be_val_u64 by done.
  by rewrite (proj2 (Nat.ltb_ge _ _)) by lia.
Qed.

Lemma panic_ends_round peer n f term : handshake_term f peer = Some term -> f_lastTerm f <= term ->
  read_frame (frames_of f peer) = Err errPanic -> Start_round (Some peer) (S n) f = None.
Proof.
  intros Ht Hf Er. pose proof (syncLoop_cases peer (S n) f) as H. rewrite Ht in H.
  rewrite (proj2 (Z.ltb_ge term _)), andb_false_r in H by lia. cbv zeta in H. cbn [sync_frames] in H.
  unfold slift, sbind in H. rewrite Er in H. unfold Start_round. by rewrite H.
Qed.

(** A damaged length ends the follower.  The length field is used before
    the checksum is compared, in 32-bit arithmetic: with the value 2^32-1 the
    buffers wrap around, and the process ends with a slice out of range. *)
Theorem length_damage_ends_follower term r rest n f : is_u64 term -> f_lastTerm f <= term ->
  Start_round (Some (fun _ => be_bytes 8 term ++ take 17 (writeFrame term r) ++ [xff; xff; xff; xff]
                              ++ drop 21 (writeFrame term r) ++ rest)) (S n) f = None.
Proof.
  intros Ht Hf. set (body := drop 21 (writeFrame term r) ++ rest).
  assert (Hb : (3 <= length body)%nat).
  { unfold body. rewrite length_app, length_drop, length_writeFrame. lia. }
  set (h := take 17 (writeFrame term r)).
  assert (Hh : length h = 17%nat) by (unfold h; rewrite length_take, length_writeFrame; lia).
  pose proof (read_frame_wrapped h body Hh Hb) as Er.
  clearbody h body. set (peer := fun _ : list byte => be_bytes 8 term ++ h ++ [xff; xff; xff; xff] ++ body).
  destruct (opening_term f peer term _ Ht eq_refl) as [E1 E2]. apply (panic_ends_round peer n f term); [done..|by rewrite E2].
Qed.

Lemma length_damage_ends_follower_witness :
  let r := mkRecord 1 RecordTypeAccount [x41] in
  Start_round (Some (fun _ => be_bytes 8 1 ++ take 17 (writeFrame 1 r) ++ [xff; xff; xff; xff]
                              ++ drop 21 (writeFrame 1 r) ++ [])) 1 (NewFollower (Open [] 64) ∅ []) = None.
Proof. apply length_damage_ends_follower; [unfold is_u64; lia|vm_compute; discriminate]. Defined.
