(* ===== verification/FollowerProps.v ===== *)
(** * The follower keeps the primary's ledger

    A follower that has received the first batches of the primary's log, whole,
    has the same batches under the same numbers in its own log, the accounts
    their replay gives, and the LSN of their last marker.  Connections that end
    anywhere, restarts and commits of the primary keep this. *)

From S2P Require Import Prelude Core Codec Accounts Crc Record Wal Recovery WalProps RecoveryProps TruncateProps.
From S2P Require Import Idempotency Engine Stream StreamProps Replication ReplicationProps.

(** ** The local log *)

(** AppendBatch numbers its records afresh. *)
Lemma encode_number b : forall lsn buf ends w, encode_records (number lsn b) buf ends w = encode_records b buf ends w.
Proof.
  induction b as [|r b IH]; intros lsn buf ends w; [done|]. cbn [number encode_records r_Type r_Payload].
  unfold sbind, smodify, sget, slift. destruct (appendFrame buf _) as [buf'|e]; [|done].
  destruct (_ <? _); [done|]. apply IH.
Qed.

Lemma AppendBatch_number lsn b w : AppendBatch (number lsn b) w = AppendBatch b w.
Proof.
  destruct b as [|r b]; [done|]. unfold AppendBatch. rewrite (length_number lsn (r :: b)).
  change (number lsn (r :: b)) with (mkRecord (u64 (lsn + 1)) (r_Type r) (r_Payload r) :: number (lsn + 1) b) at 1.
  cbv iota. unfold sbind, sget. rewrite encode_number. done.
Qed.

(** Nor does applying a record read its number. *)
Lemma apply_number b : forall lsn m, handle_all applyRecord (number lsn b) m = handle_all applyRecord b m.
Proof.
  induction b as [|r b IH]; intros lsn m; [done|]. cbn [number handle_all]. unfold sbind.
  change (applyRecord (mkRecord _ (r_Type r) (r_Payload r)) m) with (applyRecord r m).
  destruct (applyRecord r m) as [m' [u|e]]; [apply IH|done].
Qed.

(** ** A follower in step with the first batches *)

Record in_sync (size : Z) (bs : list (list Record)) (f : Follower) : Prop := {
  is_last : f_lastLSN f = lsn_after 0 bs;
  is_lsn : w_currentLSN (f_localWAL f) = lsn_after 0 bs;
  is_size : w_segmentSize (f_localWAL f) = size;
  is_log : exists groups g, holds_frames (f_localWAL f) groups g /\ all_records groups g = log_of 0 bs;
  is_synced : s_syncedOffset (w_current (f_localWAL f)) = s_writeOffset (w_current (f_localWAL f));
  is_accounts : handle_all applyRecord (concat bs) NewAccountManager = (f_accounts f, Ok tt) }.

(** A batch that the follower stores in one group commit. *)
Record shippable (size : Z) (b : list Record) : Prop := {
  sb_client : client_batch size b;
  sb_data : Forall (fun r => r_Type r <> RecordTypeHead) b;
  sb_count : (length b < followerFlushThreshold)%nat }.

Definition applies (bs : list (list Record)) : Prop :=
  exists m, handle_all applyRecord (concat bs) NewAccountManager = (m, Ok tt).

Lemma applies_prefix a b : applies (a ++ b) -> applies a.
Proof.
  intros [m E]. rewrite concat_app, handle_all_app in E. unfold sbind in E. unfold applies.
  destruct (handle_all applyRecord (concat a) _) as [m1 [[]|e]]; [by exists m1|done].
Qed.

Lemma fresh_in_sync size fs : 0 < size -> in_sync size [] (NewFollower (Open [] size) fs []).
Proof.
  intros H. destruct (fresh_holds size H) as [Hh Hs].
  assert (E : Open [] size = mkWAL [(1, [])] size (mkSegment 1 size 0 0) 1 0).
  { unfold Open. cbn. by rewrite !(proj2 (Z.leb_gt size 0)) by done. }
  constructor; cbn [NewFollower f_lastLSN f_localWAL f_accounts restore_accounts foldl]; try done; rewrite ?E; try done.
  rewrite <- E. by exists [], [].
Qed.

(** The state that [in_sync] is about. *)
Lemma in_sync_ext size bs f f' : ledger_state f' = ledger_state f -> in_sync size bs f -> in_sync size bs f'.
Proof. intros [= E1 E2 E3] []. constructor; rewrite ?E1, ?E2, ?E3; done. Qed.

(** ** One group commit *)

(** A flush of a batch that its log and its accounts take. *)
Lemma flush_ok size b f lsn m groups g : holds_frames (f_localWAL f) groups g -> w_segmentSize (f_localWAL f) = size ->
  29 <= size -> client_batch size b -> f_pending f = number lsn b ->
  handle_all applyRecord b (f_accounts f) = (m, Ok tt) ->
  exists w groups' g', flush f = (fset_accounts m (fset_wal (Sync w) (fset_pending [] f)), Ok tt)
    /\ holds_frames (Sync w) groups' g'
    /\ all_records groups' g' = all_records groups g ++ batch_records (w_currentLSN (f_localWAL f)) b
    /\ w_currentLSN w = w_currentLSN (f_localWAL f) + batch_size b /\ w_segmentSize w = size.
Proof.
  intros Hh Hsz Hs Hb Hp Em.
  assert (Hab : appendable_batch (f_localWAL f) b) by (apply client_appendable; by rewrite Hsz).
  destruct (append_ok _ _ _ _ Hh Hab) as (w & gs' & g' & Ew & Hh' & Ha' & El & Es & _).
  exists w, gs', g'. unfold flush. rewrite Hp. destruct b as [|r0 b0] eqn:Eb; [by destruct Hb|]. rewrite <- Eb in *.
  assert (En : exists r1 b1, number lsn b = r1 :: b1) by (rewrite Eb; by eexists _, _).
  destruct En as (r1 & b1 & En). rewrite En. rewrite <- En.
  change (f_localWAL (fset_pending [] f)) with (f_localWAL f). rewrite AppendBatch_number, Ew.
  change (f_accounts (fset_wal (Sync w) (fset_pending [] f))) with (f_accounts f). rewrite apply_number, Em.
  split; [done|]. split; [by apply sync_holds|]. split; [done|]. split; [unfold batch_size; lia|congruence].
Qed.

Lemma flush_batch size bs b f lsn : in_sync size bs f -> 29 <= size -> client_batch size b ->
  applies (bs ++ [b]) -> f_pending f = number lsn b ->
  exists f', flush f = (f', Ok tt) /\ f_pending f' = [] /\ f_lastLSN f' = f_lastLSN f
    /\ in_sync size (bs ++ [b]) (fset_lastLSN (lsn_after 0 (bs ++ [b])) f').
Proof.
  intros [Hlast Hlsn Hsz (gs & g & Hh & Ha) Hsy Hacc] Hs Hb [m Em] Hp.
  rewrite concat_app, handle_all_app in Em. unfold sbind in Em. rewrite Hacc in Em. cbn [concat] in Em.
  rewrite app_nil_r in Em.
  destruct (flush_ok size b f lsn m gs g Hh Hsz Hs Hb Hp Em) as (w & gs' & g' & Ef & Hh' & Ha' & El & Es).
  rewrite Ef. eexists. split; [done|]. split; [done|]. split; [done|].
  assert (Elsn : w_currentLSN w = lsn_after 0 (bs ++ [b])).
  { rewrite El, Hlsn, lsn_after_app. unfold lsn_after at 2. cbn. lia. }
  constructor; cbn [fset_lastLSN fset_accounts fset_wal fset_pending f_lastLSN f_localWAL f_accounts]; try done.
  - exists gs', g'. split; [done|]. rewrite Ha', Ha, Hlsn, log_of_app. cbn [log_of]. by rewrite app_nil_r.
  - rewrite concat_app, handle_all_app. cbn [concat]. rewrite app_nil_r. unfold sbind. by rewrite Hacc.
Qed.

(** ** Frames *)

Lemma feed_data size b : forall f lsn, Forall not_commit b -> Forall (fun r => r_Type r <> RecordTypeHead) b ->
  f_lastLSN f <= lsn -> 0 <= lsn -> lsn + Z.of_nat (length b) < 2 ^ 63 ->
  (length (f_pending f) + length b < followerFlushThreshold)%nat -> 0 < size ->
  feed (number lsn b) f = (fset_pending (f_pending f ++ number lsn b) f, Ok tt).
Proof.
  induction b as [|r b IH]; intros f lsn Hc Hh Hl H0 Hm Hn Hsz.
  { cbn. rewrite app_nil_r. by destruct f. }
  apply Forall_cons in Hc as [Hc Hcs]. apply Forall_cons in Hh as [Hh Hhs]. cbn [length] in *.
  cbn [number feed]. set (r' := mkRecord _ _ _). unfold handle_frame, sbind, sget, smodify.
  change (r_Type r') with (r_Type r). rewrite !(proj2 (Z.eqb_neq _ _)) by done.
  assert (Er : i64 (r_LSN r') = lsn + 1) by (cbn [r' r_LSN]; apply i64_u64; unfold is_i64; lia).
  rewrite Er, (proj2 (Z.leb_gt _ _)) by lia. cbn [fset_pending f_pending].
  rewrite length_app. cbn [length]. rewrite (proj2 (Nat.leb_gt _ _)) by lia. unfold sret.
  rewrite IH; cbn [fset_pending f_lastLSN f_pending]; try done; [|lia..|rewrite length_app; cbn; lia].
  by rewrite <- app_assoc.
Qed.

Lemma feed_batch size bs b f : in_sync size bs f -> f_pending f = [] -> 29 <= size -> shippable size b ->
  applies (bs ++ [b]) -> lsn_after 0 (bs ++ [b]) < 2 ^ 63 ->
  exists f', feed (batch_records (lsn_after 0 bs) b) f = (f', Ok tt) /\ in_sync size (bs ++ [b]) f' /\ f_pending f' = [].
Proof.
  intros Hs Hp Hsz [Hb Hd Hn] Hap Hm. pose proof (lsn_after_ge 0 bs) as H0. pose proof (is_last _ _ _ Hs) as Hlast.
  assert (El : lsn_after 0 (bs ++ [b]) = lsn_after 0 bs + batch_size b).
  { rewrite lsn_after_app. unfold lsn_after at 1. cbn. lia. }
  unfold batch_size in El. unfold batch_records. rewrite feed_app. unfold sbind.
  rewrite (feed_data size) by (done || lia || apply Hb || by rewrite Hp). rewrite Hp. cbn [app].
  set (f1 := fset_pending _ f). assert (Hs1 : in_sync size bs f1) by (by eapply in_sync_ext; [|exact Hs]).
  destruct (flush_batch size bs b f1 _ Hs1 Hsz Hb Hap eq_refl) as (f2 & Ef & Hp2 & Hl2 & Hs2).
  cbn [feed]. unfold handle_frame, sbind. set (c := commit_record _ _).
  change (r_Type c) with RecordTypeBatchCommit. cbn [Z.eqb RecordTypeBatchCommit RecordTypeHead Pos.eqb].
  assert (Ec : i64 (r_LSN c) = lsn_after 0 (bs ++ [b])).
  { cbn [c commit_record r_LSN]. rewrite i64_u64 by (unfold is_i64; lia). lia. }
  rewrite Ec. unfold flush_at. rewrite Ef. unfold smodify, sret. rewrite Hl2.
  change (f_lastLSN f1) with (f_lastLSN f). rewrite Hlast, (proj2 (Z.ltb_lt _ _)) by lia.
  eexists. split; [done|]. by split.
Qed.

(** The threshold: 4096 records are flushed before their marker has come. *)
Lemma feed_threshold size b f lsn m groups g : length b = followerFlushThreshold -> client_batch size b ->
  Forall (fun r => r_Type r <> RecordTypeHead) b -> f_pending f = [] -> f_lastLSN f <= lsn -> 0 <= lsn ->
  lsn + Z.of_nat (length b) < 2 ^ 63 -> holds_frames (f_localWAL f) groups g -> w_segmentSize (f_localWAL f) = size ->
  29 <= size -> handle_all applyRecord b (f_accounts f) = (m, Ok tt) ->
  exists w groups' g',
    feed (number lsn b) f = (fset_accounts m (fset_wal (Sync w) (fset_pending [] f)), Ok tt)
    /\ holds_frames (Sync w) groups' g' /\ w_segmentSize w = size
    /\ w_currentLSN w = w_currentLSN (f_localWAL f) + batch_size b.
Proof.
  intros Hlen Hb Hh Hp Hl H0 Hm Hw Hsz Hs Em.
  assert (Hne : b <> []) by apply Hb. destruct (exists_last Hne) as (b0 & r & ->). clear Hne.
  rewrite length_app in Hlen, Hm. cbn [length] in Hlen, Hm. pose proof (cb_commit _ _ Hb) as Hc.
  apply Forall_app in Hc as [Hc0 [Hc _]%Forall_cons]. apply Forall_app in Hh as [Hh0 [Hh1 _]%Forall_cons].
  set (f1 := fset_pending (number lsn (b0 ++ [r])) f).
  destruct (flush_ok size (b0 ++ [r]) f1 lsn m groups g Hw Hsz Hs Hb eq_refl Em) as (w & gs' & g' & Ef & Hh' & _ & El & Es).
  exists w, gs', g'. split; [|by split_and!].
  assert (En : number lsn (b0 ++ [r]) = number lsn b0 ++ [mkRecord (u64 (lsn + Z.of_nat (length b0) + 1)) (r_Type r) (r_Payload r)]).
  { clear. revert lsn. induction b0 as [|x b0 IH]; intros lsn; cbn [app number length].
    - by replace (lsn + Z.of_nat 0) with lsn by lia.
    - rewrite IH. by replace (lsn + 1 + Z.of_nat (length b0)) with (lsn + Z.of_nat (S (length b0))) by lia. }
  unfold f1 in Ef. rewrite En in Ef |- *. set (r' := mkRecord _ _ _) in *.
  rewrite feed_app. unfold sbind. rewrite (feed_data size) by (done || lia || rewrite Hp; cbn [length]; lia). rewrite Hp.
  cbn [app feed]. unfold handle_frame, sbind, sget, smodify, sret. change (r_Type r') with (r_Type r).
  rewrite (proj2 (Z.eqb_neq (r_Type r) RecordTypeHead)), (proj2 (Z.eqb_neq (r_Type r) RecordTypeBatchCommit)) by assumption.
  assert (Er : i64 (r_LSN r') = lsn + Z.of_nat (length b0) + 1).
  { cbn [r' r_LSN]. apply i64_u64. unfold is_i64. lia. }
  rewrite Er. cbn [fset_pending f_lastLSN f_pending]. rewrite (proj2 (Z.leb_gt _ _)) by lia.
  rewrite length_app, length_number. cbn [length]. rewrite (proj2 (Nat.leb_le _ _)) by lia.
  unfold flush_at. change (fset_pending (number lsn b0 ++ [r']) (fset_pending (number lsn b0) f))
    with (fset_pending (number lsn b0 ++ [r']) f). rewrite Ef. done.
Qed.

(** Frames that only announce the head, or that the follower has already. *)
Definition passive (from : Z) (r : Record) : Prop := r_Type r = RecordTypeHead \/ lsn_of r <= from.

Lemma feed_passive rs : forall f, Forall (passive (f_lastLSN f)) rs -> f_pending f = [] ->
  exists h, feed rs f = (fset_primaryHead h f, Ok tt).
Proof.
  induction rs as [|r rs IH]; intros f Hrs Hp; [exists (f_primaryHead f); by destruct f|].
  apply Forall_cons in Hrs as [Hr Hrs]. cbn [feed].
  enough (Hh : exists h, handle_frame r f = (fset_primaryHead h f, Ok tt)).
  { destruct Hh as [h E]. unfold sbind. rewrite E. destruct (IH (fset_primaryHead h f) Hrs Hp) as [h' ->]. by exists h'. }
  assert (Ef : fset_primaryHead (f_primaryHead f) f = f) by (by destruct f).
  unfold handle_frame. destruct (Z.eqb_spec (r_Type r) RecordTypeHead) as [|Hne].
  { destruct (8 <=? _)%nat; [by eexists|]. exists (f_primaryHead f). by rewrite Ef. }
  destruct Hr as [?|Hr]; [done|]. unfold lsn_of in Hr. exists (f_primaryHead f). rewrite Ef.
  destruct (r_Type r =? RecordTypeBatchCommit).
  - unfold sbind, flush_at, flush. rewrite Hp. unfold smodify. by rewrite (proj2 (Z.ltb_ge _ _)) by lia.
  - unfold sbind, sget. by rewrite (proj2 (Z.leb_le _ _)) by lia.
Qed.

Lemma take_number b : forall lsn j, take j (number lsn b) = number lsn (take j b).
Proof. induction b as [|r b IH]; intros lsn [|j]; try done. cbn [number take]. f_equal. apply IH. Qed.

(** Any number of frames of the log that follows. *)
Lemma feed_log size bs : forall fed f j, in_sync size fed f -> f_pending f = [] -> 29 <= size ->
  Forall (shippable size) bs -> applies (fed ++ bs) -> lsn_after 0 (fed ++ bs) < 2 ^ 63 ->
  exists k f', feed (take j (log_of (lsn_after 0 fed) bs)) f = (f', Ok tt) /\ in_sync size (fed ++ take k bs) f'
    /\ (k <= length bs)%nat
    /\ ((length (log_of (lsn_after 0 fed) bs) <= j)%nat -> k = length bs /\ f_pending f' = []).
Proof.
  induction bs as [|b bs IH]; intros fed f j Hs Hp Hsz Hbs Hap Hm.
  { exists 0%nat, f. cbn [log_of]. rewrite !take_nil, app_nil_r. by split_and!. }
  apply Forall_cons in Hbs as [Hb Hbs]. cbn [log_of].
  assert (Eb : fed ++ b :: bs = (fed ++ [b]) ++ bs) by (by rewrite <- app_assoc).
  rewrite Eb in Hap, Hm. pose proof (lsn_after_ge (lsn_after 0 (fed ++ [b])) bs) as Hg. rewrite <- lsn_after_app in Hg.
  assert (El : lsn_after 0 (fed ++ [b]) = lsn_after 0 fed + batch_size b).
  { rewrite lsn_after_app. unfold lsn_after at 1. cbn. lia. }
  set (lsn := lsn_after 0 fed) in *. pose proof (lsn_after_ge 0 fed) as H0. fold lsn in H0.
  destruct (decide (j <= length b)%nat) as [Hj|Hj].
  - (* the batch has not arrived whole *)
    exists 0%nat, (fset_pending (take j (number lsn b)) f). cbn [take]. rewrite app_nil_r.
    assert (Et : take j (batch_records lsn b ++ log_of (lsn + batch_size b) bs) = number lsn (take j b)).
    { unfold batch_records. rewrite <- app_assoc, take_app_le by (by rewrite length_number). apply take_number. }
    rewrite Et. destruct Hb as [Hc Hd Hn].
    rewrite (feed_data size); rewrite ?Hp; cbn [length Nat.add app].
    + rewrite <- take_number. split; [done|]. split; [by eapply in_sync_ext; [|exact Hs]|]. split; [apply Nat.le_0_l|].
      unfold batch_records. rewrite !length_app, length_number. cbn [length]. lia.
    + apply Forall_take, Hc.
    + by apply Forall_take.
    + rewrite (is_last _ _ _ Hs). unfold lsn. lia.
    + done.
    + rewrite length_take. unfold batch_size in El. lia.
    + rewrite length_take. lia.
    + lia.
  - assert (Lb : length (batch_records lsn b) = S (length b)).
    { unfold batch_records. rewrite length_app, length_number. cbn [length]. lia. }
    rewrite take_app_ge by lia. rewrite feed_app. unfold sbind.
    destruct (feed_batch size fed b f Hs Hp Hsz Hb (applies_prefix _ _ Hap) ltac:(lia)) as (f1 & E1 & Hs1 & Hp1).
    fold lsn in E1. rewrite E1. rewrite <- El.
    destruct (IH (fed ++ [b]) f1 (j - length (batch_records lsn b))%nat Hs1 Hp1 Hsz Hbs Hap Hm) as (k & f' & E & Hs' & Hk & Hfull).
    exists (S k), f'. split; [done|]. cbn [take]. rewrite <- app_assoc in Hs'. split; [done|].
    cbn [length]. split; [lia|]. rewrite length_app. intros Hall.
    destruct Hfull as [-> ?]; [lia|]. by split.
Qed.

(** ** What a server sends *)

Lemma serve_resting n w term : forall sr, resting w sr ->
  serve_stream (replicate n w) term sr = writeFrame term <$> replicate n (head_record w).
Proof.
  induction n as [|n IH]; intros sr Hr; [done|]. cbn [replicate serve_stream].
  destruct (resting_next w sr Hr) as (sr1 & -> & Hr1). cbn [fmap list_fmap]. by rewrite IH.
Qed.

Lemma serve_drain p w term : forall n sr rs sr', drain p w sr = (rs, sr', None) -> resting w sr' ->
  serve_stream (replicate n w) term sr = writeFrame term <$> take n (rs ++ replicate n (head_record w)).
Proof.
  induction p as [|p IH]; intros n sr rs sr'; cbn [drain].
  { intros [= <- <-] Hr. cbn [app]. rewrite serve_resting by done. rewrite take_ge; [done|]. by rewrite length_replicate. }
  destruct n as [|n]; [done|]. cbn [replicate serve_stream]. destruct (Next w sr) as [sr1 [[r|]|e]] eqn:En; [| |done].
  - destruct (drain p w sr1) as [[rs1 sr2] e1] eqn:Ed. intros [= <- <- ->] Hr. cbn [app take fmap list_fmap]. f_equal.
    rewrite (IH n _ _ _ Ed Hr). f_equal.
    change (head_record w :: replicate n (head_record w)) with (replicate (S n) (head_record w)).
    rewrite replicate_S_end, app_assoc, (take_app_le (rs1 ++ replicate n (head_record w))); [done|]. rewrite length_app, length_replicate. lia.
  - intros [= <- <-] Hr. cbn [app take fmap list_fmap]. f_equal. rewrite (serve_resting n w term sr1) by done.
    f_equal. rewrite take_ge; [done|]. by rewrite length_replicate.
Qed.

(** The primary's log: its batches, synced. *)
Record primary_log (size : Z) (bs : list (list Record)) (w : WAL) : Prop := {
  pl_size : w_segmentSize w = size;
  pl_log : exists groups g, holds_frames w groups g /\ all_records groups g = log_of 0 bs;
  pl_synced : s_syncedOffset (w_current w) = s_writeOffset (w_current w) }.

(** No segment ends with the first record after [from]: the follower asks for
    [from + 1], and the stream skips the segments up to it. *)
Definition starts_cleanly (from : Z) (w : WAL) : Prop := Forall (fun f => peekSegmentMaxLSN f.2 <> from + 1) (w_disk w).

Lemma listed_cleanly from files : Forall (fun f => peekSegmentMaxLSN f.2 <> from + 1) (seg_file <$> files) ->
  listed_files (from + 1) files = listed_files from files.
Proof.
  unfold listed_files. induction files as [|[i rs] files IH]; [done|]. cbn [fmap list_fmap].
  intros [Hf Hfs]%Forall_cons. specialize (IH Hfs). cbn in Hf.
  destruct (decide (from + 1 < peekSegmentMaxLSN (frames rs))).
  - rewrite !filter_cons_True by (cbn [snd]; lia). by rewrite IH.
  - rewrite !filter_cons_False by (cbn [snd]; lia). done.
Qed.

(** The limits under which a log can be shipped. *)
Record shipping (psize fsize : Z) (bs : list (list Record)) : Prop := {
  sh_psize : 29 <= psize;
  sh_fsize : 29 <= fsize;
  sh_client : Forall (client_batch psize) bs;
  sh_fits : fits_peek psize bs;
  sh_batches : Forall (shippable fsize) bs;
  sh_lsn : lsn_after 0 bs + 1 < 2 ^ 63;
  sh_applies : applies bs }.

Lemma stream_from psize fsize bs w k : shipping psize fsize bs -> primary_log psize bs w -> readable w ->
  let from := lsn_after 0 (take k bs) in starts_cleanly from w ->
  exists old p sr, Forall (below from) old /\ Forall (walkable psize) old
    /\ drain p w (NewStreamReader (from + 1)) = (old ++ log_of from (drop k bs), sr, None) /\ resting w sr.
Proof.
  intros [Hps _ Hcb Hft _ Hm _] [Hsz (gs & g & Hh & Ha) Hsy] Hrd from Hcl.
  destruct (covers_log psize bs k Hps Hcb Hft ltac:(lia)) as [Hcv Hl]. fold from in Hcv, Hl.
  unfold starts_cleanly in Hcl. rewrite (all_files_disk _ _ _ Hh) in Hcl.
  destruct (drain_log w gs g psize from (from + 1) (log_of 0 (take k bs)) (drop k bs) Hh Hsz Hsy)
    as (cut & [q Hcut] & _ & Hdr); [congruence|done|done|by apply listed_cleanly|].
  destruct (Hdr (S (length (log_of 0 (take k bs) ++ log_of from (drop k bs)))) ltac:(lia)) as (sr & E & Hr).
  exists (emits cut []).1, (S (length (log_of 0 (take k bs) ++ log_of from (drop k bs)))), sr.
  pose proof (cv_below _ _ _ _ Hcv) as Hb. pose proof (cv_walkable _ _ _ _ Hcv) as Hw.
  rewrite Hcut in Hb, Hw. apply Forall_app in Hb as [_ Hb], Hw as [_ Hw].
  split_and!; [by apply emits_Forall|by apply emits_Forall|done|done].
Qed.

Lemma walkable_sendable size r : walkable size r -> sendable r.
Proof. intros [Hw _ Hp _]. split; [done|]. unfold peekMaxPayload in Hp. lia. Qed.

Lemma head_sendable w : sendable (head_record w).
Proof.
  split; [constructor|]; cbn [head_record r_LSN r_Type r_Payload]; unfold beUint64; rewrite ?length_be_bytes;
    unfold is_u64, RecordTypeHead; lia.
Qed.

Lemma handleConn_request ws term lsn : 0 <= lsn -> lsn + 1 < 2 ^ 63 ->
  handleConn ws term (beUint64 (u64 (i64 (lsn + 1)))) = be_bytes 8 term ++ concat (serve_stream ws term (NewStreamReader (lsn + 1))).
Proof.
  intros H0 H. unfold handleConn, beUint64. rewrite length_be_bytes. cbn [Nat.ltb Nat.leb].
  rewrite take_ge by (by rewrite length_be_bytes). rewrite (i64_small (lsn + 1)) by (unfold is_i64; lia).
  rewrite be_val_u64 by (apply u64_range). by rewrite i64_u64 by (unfold is_i64; lia).
Qed.

(** The frames of a connection, applied by a follower that has the first [k]
    batches. *)
Lemma feed_stream psize fsize bs k f old heads j : shipping psize fsize bs -> in_sync fsize (take k bs) f ->
  (k <= length bs)%nat -> f_pending f = [] -> Forall (below (f_lastLSN f)) old ->
  Forall (fun r => r_Type r = RecordTypeHead) heads ->
  exists k', (k <= k' <= length bs)%nat
    /\ in_sync fsize (take k' bs) (feed (take j (old ++ log_of (f_lastLSN f) (drop k bs) ++ heads)) f).1
    /\ ((length (old ++ log_of (f_lastLSN f) (drop k bs)) <= j)%nat -> k' = length bs).
Proof.
  intros [Hps Hfs _ _ Hsb Hm Hap] Hs Hk Hp Hold Hheads.
  rewrite take_app, feed_app. unfold sbind.
  destruct (feed_passive (take j old) f) as [h Eh].
  { apply Forall_take. eapply Forall_impl; [exact Hold|]. intros r Hr. by right. }
  { done. }
  rewrite Eh. assert (Hs1 : in_sync fsize (take k bs) (fset_primaryHead h f)) by (by eapply in_sync_ext; [|exact Hs]).
  rewrite <- (take_drop k bs) in Hap, Hm. rewrite take_app, feed_app. unfold sbind.
  destruct (feed_log fsize (drop k bs) (take k bs) _ (j - length old)%nat Hs1 Hp Hfs) as (q & f2 & E2 & Hs2 & Hq & Hfull);
    [by apply Forall_drop|done|lia|].
  rewrite (is_last _ _ _ Hs). rewrite E2. set (L := log_of _ _) in *. rewrite length_drop in Hq.
  assert (Et : take k bs ++ take q (drop k bs) = take (k + q) bs) by (by rewrite take_take_drop).
  rewrite Et in Hs2. exists (k + q)%nat. split; [lia|].
  assert (Hfull' : (length (old ++ L) <= j)%nat -> q = length (drop k bs)).
  { rewrite length_app. intros H. apply Hfull. lia. }
  split; [|rewrite length_drop in Hfull'; intros H; specialize (Hfull' H); lia].
  destruct (decide (length L <= j - length old)%nat) as [HL|HL].
  - destruct (Hfull HL) as [_ Hp2].
    destruct (feed_passive (take (j - length old - length L) heads) f2) as [h2 E3]; [|done|].
    { apply Forall_take. eapply Forall_impl; [exact Hheads|]. intros r Hr. by left. }
    rewrite E3. cbn [fst]. by eapply in_sync_ext; [|exact Hs2].
  - replace (j - length old - length L)%nat with 0%nat by lia. done.
Qed.

(** ** One connection *)

(** What the follower receives of a connection to a primary that stands still:
    [m] rounds of the server, of whose bytes [cut] arrive. *)
Definition stream_of (w : WAL) (term : Z) (m cut : nat) (request : list byte) : list byte :=
  take cut (handleConn (replicate m w) term request).

Lemma ledger_state_lastLSN f f' : ledger_state f' = ledger_state f -> f_lastLSN f' = f_lastLSN f.
Proof. by intros [= _ _ ?]. Qed.

Lemma connect_in_sync psize fsize bs w term k f : shipping psize fsize bs -> primary_log psize bs w -> readable w ->
  is_u64 term -> (k <= length bs)%nat -> in_sync fsize (take k bs) f -> f_lastTerm f <= term ->
  starts_cleanly (f_lastLSN f) w ->
  exists N, forall m cut n, let f' := (syncLoop (Some (stream_of w term m cut)) n f).1 in
    f_lastTerm f' <= term
    /\ exists k', (k <= k' <= length bs)%nat /\ in_sync fsize (take k' bs) f'
         /\ ((N <= m)%nat -> (N <= cut)%nat -> (N <= n)%nat -> k' = length bs).
Proof.
  intros Hsh Hpl Hrd Ht Hk Hs Hft Hcl. pose proof Hsh as [Hps _ Hcb Hfp _ Hm _].
  rewrite (is_last _ _ _ Hs) in Hcl. set (from := lsn_after 0 (take k bs)) in *.
  destruct (stream_from psize fsize bs w k Hsh Hpl Hrd Hcl) as (old & p & sr & Hb & Hwk & Ed & Hrest). fold from in Hb, Ed.
  set (L := log_of from (drop k bs)) in *.
  exists (8 + length (old ++ L) + length (wire term (old ++ L)))%nat. intros m cut n.
  assert (H0 : 0 <= from) by apply lsn_after_ge.
  assert (Hfm : from + 1 < 2 ^ 63).
  { pose proof (lsn_after_ge from (drop k bs)) as Hg. unfold from in Hg at 2. rewrite <- lsn_after_app, take_drop in Hg. lia. }
  set (rs := take m (old ++ L ++ replicate m (head_record w))).
  assert (Hpeer : stream_of w term m cut (beUint64 (u64 (i64 (f_lastLSN f + 1)))) = take cut (be_bytes 8 term ++ wire term rs)).
  { unfold stream_of. rewrite (is_last _ _ _ Hs). fold from. rewrite handleConn_request by done.
    rewrite (serve_drain _ _ _ _ _ _ _ Ed Hrest). by rewrite <- app_assoc. }
  destruct (decide (cut < 8)%nat) as [Hc|Hc].
  { pose proof (syncLoop_cases (stream_of w term m cut) n f) as H. unfold handshake_term in H. rewrite Hpeer in H.
    rewrite length_take, (proj2 (Nat.ltb_lt _ 8)) in H by lia. rewrite H. cbn [fst]. split; [done|].
    exists k. split; [lia|]. split; [by eapply in_sync_ext; [|exact Hs]|]. lia. }
  rewrite take_app_ge, length_be_bytes in Hpeer by (rewrite length_be_bytes; lia).
  destruct (opening_term f _ term _ Ht Hpeer) as [E1 E2].
  pose proof (syncLoop_cases (stream_of w term m cut) n f) as H. rewrite E1, E2 in H.
  rewrite (proj2 (Z.ltb_ge term _)), andb_false_r in H by lia. cbv zeta in H.
  set (f1 := fset_conn 0 true _) in H.
  assert (Hls : ledger_state f1 = ledger_state f) by (unfold f1; by destruct (_ <? _)).
  assert (Hft1 : f_lastTerm f1 <= term) by (unfold f1; destruct (Z.ltb_spec (f_lastTerm f) term); cbn; lia).
  assert (Hs1 : in_sync fsize (take k bs) f1) by (by eapply in_sync_ext; [exact Hls|exact Hs]).
  assert (Hp1 : f_pending f1 = []) by (unfold f1; by destruct (_ <? _)).
  assert (Efrom : f_lastLSN f1 = from) by (by rewrite (is_last _ _ _ Hs1)).
  clearbody f1.
  assert (Hsend : Forall sendable rs).
  { apply Forall_take. apply Forall_app. split; [|apply Forall_app; split].
    - eapply Forall_impl; [exact Hwk|]. apply walkable_sendable.
    - destruct (covers_log psize bs k Hps Hcb Hfp ltac:(lia)) as [Hcv _]. apply covers_walkable, Forall_app in Hcv as [_ Hcv].
      eapply Forall_impl; [exact Hcv|]. apply walkable_sendable.
    - apply Forall_replicate, head_sendable. }
  destruct (sync_wire n (cut - 8) term rs f1 Ht Hsend Hft1) as (j & Ej & Hj).
  pose proof (sync_frames_control n (take (cut - 8) (wire term rs)) f1) as Hctl.
  destruct (sync_frames n _ f1) as [f2 res]. rewrite H. cbn [fst] in *. split.
  { change (f_lastTerm (fset_pending [] f2)) with (f_lastTerm f2). rewrite (control_term _ _ Hctl). done. }
  unfold rs in Ej. rewrite take_take in Ej.
  destruct (feed_stream psize fsize bs k f1 old (replicate m (head_record w)) (j `min` m) Hsh Hs1 Hk Hp1) as (k' & Hk' & Hs' & Hfull).
  { by rewrite Efrom. }
  { by apply Forall_replicate. }
  rewrite Efrom in Hs', Hfull. fold L in Hs', Hfull. rewrite <- Ej in Hs'.
  exists k'. split; [done|]. split; [by eapply in_sync_ext; [|exact Hs']|].
  intros Hm1 Hc1 Hn1. apply Hfull. apply Nat.min_glb; [|lia]. apply Hj.
  - unfold rs. rewrite length_take, !length_app, length_replicate in *. lia.
  - lia.
  - unfold rs. rewrite take_take, Nat.min_l by lia. rewrite app_assoc, take_app_le, firstn_all by done. lia.
Qed.

(** ** A restart *)

Lemma recover_number size b : forall lsn m mx m', shippable size b -> 0 <= mx <= lsn -> lsn + Z.of_nat (length b) < 2 ^ 63 ->
  handle_all applyRecord b m = (m', Ok tt) ->
  handle_all recover_record (number lsn b) (m, mx) = ((m', lsn + Z.of_nat (length b)), Ok tt).
Proof.
  intros lsn m mx m' [Hc Hh _]. pose proof (cb_nonempty _ _ Hc) as Hne. destruct Hc as [_ _ Hc _].
  revert lsn m mx Hne. induction b as [|r b IH]; intros lsn m mx Hne Hmx Hm; [done|].
  apply Forall_cons in Hc as [Hc Hcs]. apply Forall_cons in Hh as [Hh Hhs]. cbn [number handle_all length] in *.
  unfold sbind. set (r' := mkRecord _ _ _).
  assert (Er : i64 (r_LSN r') = lsn + 1) by (cbn [r' r_LSN]; apply i64_u64; unfold is_i64; lia).
  unfold recover_record. change (r_Type r') with (r_Type r). rewrite !(proj2 (Z.eqb_neq _ _)) by done. cbn [orb].
  rewrite Er, (proj2 (Z.ltb_lt mx _)) by lia. change (applyRecord r' m) with (applyRecord r m).
  destruct (applyRecord r m) as [m1 [[]|e]]; [|done]. fold recover_record. destruct b as [|r2 b].
  - intros [= <-]. cbn. done.
  - intros E. rewrite (IH Hcs Hhs (lsn + 1)) by (done || lia). f_equal. f_equal. lia.
Qed.

Lemma recover_delivered size bs : forall lsn m mx m', Forall (shippable size) bs -> 0 <= mx <= lsn ->
  lsn_after lsn bs < 2 ^ 63 -> handle_all applyRecord (concat bs) m = (m', Ok tt) ->
  handle_all recover_record (delivered lsn bs) (m, mx)
  = ((m', match bs with [] => mx | _ => lsn_after lsn bs - 1 end), Ok tt).
Proof.
  induction bs as [|b bs IH]; intros lsn m mx m' Hbs Hmx Hm; [by intros [= <-]|].
  apply Forall_cons in Hbs as [Hb Hbs]. rewrite lsn_after_cons in *. pose proof (lsn_after_ge (lsn + batch_size b) bs).
  cbn [concat delivered]. rewrite !handle_all_app. unfold sbind, batch_size in *.
  destruct (handle_all applyRecord b m) as [m1 [[]|e]] eqn:E; [|done]. intros E2.
  rewrite (recover_number size b lsn m mx m1) by (done || lia). rewrite (IH _ _ _ m') by (done || lia).
  f_equal. f_equal. destruct bs; [|done]. unfold lsn_after. cbn. lia.
Qed.

Definition restarted (fsize : Z) (f : Follower) : Follower * result unit error :=
  recoverLocalState (NewFollower (Open (w_disk (f_localWAL f)) fsize) (f_files f) []).

Lemma restart_in_sync fsize bs f : Forall (shippable fsize) bs -> lsn_after 0 bs < 2 ^ 63 -> in_sync fsize bs f ->
  (restarted fsize f).2 = Ok tt /\ in_sync fsize bs (restarted fsize f).1.
Proof.
  intros Hbs Hm [Hlast Hlsn Hsz (gs & g & Hh & Ha) Hsy Hacc].
  destruct (open_holds _ gs g Hh) as (Hh' & E0 & Es). rewrite Hsz in *. unfold restarted.
  set (w := Open (w_disk (f_localWAL f)) fsize) in *.
  assert (Hcb : Forall (client_batch (w_segmentSize w)) bs).
  { rewrite Es. eapply Forall_impl; [exact Hbs|]. by intros b []. }
  pose proof (recover_delivered fsize bs 0 NewAccountManager 0 (f_accounts f) Hbs ltac:(lia) Hm Hacc) as Hd.
  destruct (recover_live recover_record w gs g 0 bs _ _ Hh' Ha Hcb ltac:(lia) Hm Hd ltac:(lia))
    as (w' & Er & Hh2 & El & Ez & Hy).
  unfold recoverLocalState. cbn [NewFollower f_localWAL f_accounts restore_accounts foldl]. rewrite Er.
  split; [done|]. pose proof (lsn_after_ge 0 bs) as Hg.
  assert (Hlc : last_commit 0 0 bs = lsn_after 0 bs) by (by destruct bs).
  constructor; cbn [fst fset_lastLSN fset_accounts fset_wal f_lastLSN f_localWAL f_accounts]; try done.
  - destruct bs as [|b bs]; [done|]. assert (Hp : 2 <= lsn_after 0 (b :: bs)).
    { rewrite lsn_after_cons. apply Forall_cons in Hbs as [[Hb _ _] _]. pose proof (cb_nonempty _ _ Hb) as Hne.
      pose proof (lsn_after_ge (0 + batch_size b) bs). unfold batch_size in *. destruct b; [done|]. cbn [length] in *. lia. }
    rewrite (proj2 (Z.ltb_lt _ _)) by lia. rewrite i64_small by (unfold is_i64; lia). lia.
  - rewrite El, E0, Hlc. lia.
  - congruence.
  - by exists gs, g.
Qed.

(** ** A follower and its primary *)

(** The primary commits batches; the follower starts empty, makes connections
    that end anywhere, and restarts. *)
Inductive replica (psize fsize term : Z) : list (list Record) -> Follower -> Prop :=
| replica_new fs : loadFollowerTerm fs <= term -> replica psize fsize term [] (NewFollower (Open [] fsize) fs [])
| replica_commit bs b f : replica psize fsize term bs f -> replica psize fsize term (bs ++ [b]) f
| replica_connect bs f w m cut n : replica psize fsize term bs f -> primary_log psize bs w ->
    readable w -> starts_cleanly (f_lastLSN f) w ->
    replica psize fsize term bs (syncLoop (Some (stream_of w term m cut)) n f).1
| replica_restart bs f : replica psize fsize term bs f -> replica psize fsize term bs (restarted fsize f).1.

Lemma shipping_prefix psize fsize bs b : shipping psize fsize (bs ++ [b]) -> shipping psize fsize bs.
Proof.
  intros [H1 H2 H3 Hf H4 H5 H6]. apply Forall_app in H3 as [H3 _], H4 as [H4 _], Hf as [Hf _]. rewrite lsn_after_app in H5.
  pose proof (lsn_after_ge (lsn_after 0 bs) [b]). constructor; try done; [lia|]. by apply applies_prefix in H6.
Qed.

Lemma loadTerm_nonneg path fs : 0 <= loadTermUint path fs.
Proof. unfold loadTermUint. destruct (fs !! path) as [d|]; [|lia]. destruct (negb _); [lia|]. apply be_val_range. Qed.

Lemma replica_in_sync psize fsize term bs f : replica psize fsize term bs f -> is_u64 term -> shipping psize fsize bs ->
  term_stored f /\ 0 <= f_lastTerm f <= term /\ exists k, (k <= length bs)%nat /\ in_sync fsize (take k bs) f.
Proof.
  intros H Ht. induction H as [fs Hfs|bs b f _ IH|bs f w m cut n _ IH Hw Hrd Hc|bs f _ IH]; intros Hsh.
  - split; [done|]. split; [split; [apply loadTerm_nonneg|done]|]. exists 0%nat. split; [done|]. apply fresh_in_sync.
    pose proof (sh_fsize _ _ _ Hsh). lia.
  - destruct (IH (shipping_prefix _ _ _ _ Hsh)) as (Hst & Hft & k & Hk & Hs). split; [done|]. split; [done|].
    exists k. rewrite length_app. split; [lia|]. by rewrite take_app_le.
  - destruct (IH Hsh) as (Hst & Hft & k & Hk & Hs).
    destruct (connect_in_sync _ _ _ _ _ _ _ Hsh Hw Hrd Ht Hk Hs (proj2 Hft) Hc) as [N HN].
    destruct (HN m cut n) as (Hle & k' & Hk' & Hs' & _).
    destruct (syncLoop_term (Some (stream_of w term m cut)) n f Hst ltac:(lia)) as (Hst' & Hge & _).
    split; [done|]. split; [lia|]. exists k'. by split; [lia|].
  - destruct (IH Hsh) as (Hst & Hft & k & Hk & Hs).
    pose proof (recoverLocalState_control (NewFollower (Open (w_disk (f_localWAL f)) fsize) (f_files f) [])) as Hctl.
    fold (restarted fsize f) in Hctl. injection Hctl as Et Ef _ _ _. cbn [NewFollower f_lastTerm f_files] in Et, Ef.
    split; [unfold term_stored; congruence|]. split; [rewrite Et, Hst; done|]. exists k. split; [done|].
    destruct Hsh as [_ _ _ _ Hsb Hm _]. rewrite <- (take_drop k bs) in Hm. rewrite lsn_after_app in Hm.
    pose proof (lsn_after_ge (lsn_after 0 (take k bs)) (drop k bs)).
    apply restart_in_sync; [by apply Forall_take|lia|done].
Qed.
