(* ===== verification/ReplicaProps.v ===== *)
(** * Replication: the ledger of a follower, and promotion *)

From S2P Require Import Prelude Core Codec Uint128 Balance Accounts LedgerSpec AccountsRefine AccountsProps Crc Record Wal Recovery.
From S2P Require Import WalProps RecoveryProps TruncateProps Idempotency IdempotencyProps Engine EngineRefine EngineProps.
From S2P Require Import Stream StreamProps Replication ReplicationProps FollowerProps.

(** ** The primary's replay and the follower's *)

Lemma apply_of_replay now r m ids m' ids' : replay_record now r (m, ids) = ((m', ids'), Ok tt) ->
  applyRecord r m = (m', Ok tt).
Proof.
  unfold replay_record, applyRecord. destruct (r_Type r =? RecordTypeAccount).
  { destruct (DecodeAccountPayload (r_Payload r)) as [a|e]; [|done]. unfold replay_account, Get.
    unfold Create, sbind, sget, smodify, sfail. destruct (m_index m !! a_ID a); by intros [= <- _]. }
  destruct (r_Type r =? RecordTypeTransfer); [|by intros [= <- _]].
  destruct (DecodeTransferPayload (r_Payload r)) as [t|e]; [|done]. fold (replay_transfer t m).
  destruct (replay_transfer t m) as [m1 [[]|e]]; [|done]. destruct (no_key t); [by intros [= <- _]|].
  destruct (Commit _ _ _ _); by intros [= <- _].
Qed.

Lemma apply_all_of_replay now rs : forall m ids m' ids', handle_all (replay_record now) rs (m, ids) = ((m', ids'), Ok tt) ->
  handle_all applyRecord rs m = (m', Ok tt).
Proof.
  induction rs as [|r rs IH]; intros m ids m' ids'; cbn [handle_all]; [by intros [= <- _]|]. unfold sbind.
  destruct (replay_record now r (m, ids)) as [[m1 ids1] [[]|e]] eqn:E; [|done].
  rewrite (apply_of_replay _ _ _ _ _ _ E). apply IH.
Qed.

(** ** The batches of an engine *)

Lemma client_batch_mono size size' b : size <= size' -> client_batch size b -> client_batch size' b.
Proof.
  intros Hs [H1 H2 H3 H4]. constructor; try done. eapply Forall_impl; [exact H2|].
  intros r (Ht & Hp & Hf). split; [done|]. split; [done|]. lia.
Qed.

Lemma command_shippable size fsize b cs : size <= fsize -> client_batch size b ->
  Forall (fun c => (command_length c < followerFlushThreshold)%nat) cs -> Exists (from_command b) cs -> shippable fsize b.
Proof.
  intros Hs Hb Hcs (c & Hc & Ht & Hl)%Exists_exists. rewrite Forall_forall in Hcs. specialize (Hcs c Hc).
  constructor; [by eapply client_batch_mono| |lia]. eapply Forall_impl; [exact Ht|].
  intros r [Hr _] E. unfold RecordTypeHead in E. lia.
Qed.

(** What a run leaves for replication. *)
Lemma run_shipping size fsize C cs now maxSize ttl : 161 <= size -> size <= fsize -> C < 2 ^ 63 ->
  Forall (command_ok C) cs -> Forall (fun c => (command_length c < followerFlushThreshold)%nat) cs ->
  let g := run cs (fresh size) in g_clock g <= C -> CurrentLSN (g_wal g) + 1 < 2 ^ 63 ->
  exists bs r ids, shipping size fsize bs /\ primary_log size bs (g_wal g) /\ CurrentLSN (g_wal g) = lsn_after 0 bs
    /\ handle_all (replay_record now) (concat bs) (NewAccountManager, NewIdempotencyStore maxSize ttl) = ((r, ids), Ok tt)
    /\ related eq (g_clock g) (g_accounts g) r.
Proof.
  intros Hsize Hfs HC Hcs Hlen g Hcl Hlsn.
  destruct (run_consistent size now (NewIdempotencyStore maxSize ttl) C cs (fresh size)
    (fresh_consistent _ _ _ Hsize (settled_new _ _)) Hsize HC Hcs Hcl)
    as (bs & [H0 Hbs Hl Hs Hv Hsy (gs & cur & Hh & Ha) (r & ids & Er & Hids & Hrel)] & Hsh).
  fold g in H0, Hl, Hs, Hsy, Hh, Hrel. unfold CurrentLSN in *. exists bs, r, ids. split; [constructor|].
  - lia.
  - lia.
  - done.
  - by eapply commands_fit.
  - rewrite Forall_forall in Hbs, Hsh |- *. intros b Hb. apply (command_shippable size fsize b cs); auto.
  - lia.
  - exists r. by apply (apply_all_of_replay now _ _ _ _ _ Er).
  - split; [constructor; [done|by exists gs, cur|done]|]. by split_and!.
Qed.

(** ** Properties *)

(** C12. A follower replicates the log.  Let the primary commit batches, and an
    initially empty follower make connections that end after any byte, and
    restart, in any order.  Let every batch have fewer than 4096 records, the
    primary's log stand still while a connection lasts, the last LSN of each of
    its segment files be readable (as in segments of at most one tail chunk),
    and none of them end at the record a connection resumes with.  Then the
    follower always holds a prefix of the primary's batches, whole - in its log,
    synced, under the primary's LSNs, and in its accounts, with its position at
    the last marker - and a connection that stays up long enough brings it to
    all of them.  The four conditions are needed: [broken_batch_applied_again],
    [stream_loses_records], [truncate_can_remove_needed] and
    [resume_skips_batch]. *)
Theorem follower_replicates psize fsize term bs f w : replica psize fsize term bs f -> is_u64 term ->
  shipping psize fsize bs -> primary_log psize bs w -> readable w -> starts_cleanly (f_lastLSN f) w ->
  (exists k, (k <= length bs)%nat /\ in_sync fsize (take k bs) f)
  /\ exists N, forall m cut n, (N <= m)%nat -> (N <= cut)%nat -> (N <= n)%nat ->
       in_sync fsize bs (syncLoop (Some (stream_of w term m cut)) n f).1.
Proof.
  intros Hr Ht Hsh Hpl Hrd Hcl. destruct (replica_in_sync _ _ _ _ _ Hr Ht Hsh) as (_ & Hft & k & Hk & Hs).
  split; [by exists k|].
  destruct (connect_in_sync _ _ _ _ _ _ _ Hsh Hpl Hrd Ht Hk Hs (proj2 Hft) Hcl) as [N HN]. exists N. intros m cut n H1 H2 H3.
  destruct (HN m cut n) as (_ & k' & Hk' & Hs' & Hall). rewrite (Hall H1 H2 H3), firstn_all in Hs'. done.
Qed.

(** C11. A promoted follower has the primary's ledger.  Run any batches of
    transfers and account creations on a primary, then let a new follower
    connect and stay connected long enough: at the primary's clock the
    follower's accounts, holds, transfers and histories are the primary's, and
    promotion yields, without an error, a ledger with the same and with the
    same LSN.  The conditions are those of the stream: batches of fewer than
    4096 records, a log that stands still during the connection, whose first
    segment does not end with its first record, and whose segment files have a
    last LSN that can be read, as in segments of at most one tail chunk. *)
Theorem promotion_keeps_ledger size fsize C cs now cfg term fs : 161 <= size -> size <= fsize ->
  C < 2 ^ 63 -> Forall (command_ok C) cs -> Forall (fun c => (command_length c < followerFlushThreshold)%nat) cs ->
  cfg_snapshot cfg = None -> is_u64 term -> loadFollowerTerm fs <= term ->
  let g := run cs (fresh size) in
  g_clock g <= C -> CurrentLSN (g_wal g) + 1 < 2 ^ 63 -> readable (g_wal g) -> starts_cleanly 0 (g_wal g) ->
  exists N, forall m cut n, (N <= m)%nat -> (N <= cut)%nat -> (N <= n)%nat ->
    let f := (syncLoop (Some (stream_of (g_wal g) term m cut)) n (NewFollower (Open [] fsize) fs [])).1 in
    abs (CloseExpired (SetClock (g_clock g) (f_accounts f))) = abs (g_accounts g)
    /\ exists g' ids', (PromoteToPrimary now cfg f).2 = Ok (g', ids')
       /\ abs (CloseExpired (SetClock (g_clock g) (g_accounts g'))) = abs (g_accounts g)
       /\ CurrentLSN (g_wal g') = CurrentLSN (g_wal g).
Proof.
  intros Hsize Hfs HC Hcs Hlen Hcfg Ht Hft g Hcl Hlsn Hrd Hclean.
  destruct (run_shipping size fsize C cs now (cfg_IdempotencyMaxSize cfg) (cfg_IdempotencyTTL cfg) Hsize Hfs HC Hcs Hlen Hcl Hlsn)
    as (bs & r & ids & Hsh & Hpl & El & Er & Hrel). fold g in Hpl, El, Hrel.
  set (f0 := NewFollower (Open [] fsize) fs []).
  assert (Hs0 : in_sync fsize (take 0 bs) f0) by (apply fresh_in_sync; lia).
  destruct (connect_in_sync size fsize bs (g_wal g) term 0 f0 Hsh Hpl Hrd Ht ltac:(lia) Hs0 Hft Hclean) as [N HN].
  exists N. intros m cut n H1 H2 H3 f. destruct (HN m cut n) as (_ & k & _ & Hs & Hall). fold f in Hs.
  rewrite (Hall H1 H2 H3), firstn_all in Hs. clear Hall HN. clearbody f.
  destruct Hs as [_ Hl2 Hsz (gs & cur & Hh & Ha) _ Hacc].
  assert (Em : f_accounts f = r).
  { pose proof (apply_all_of_replay _ _ _ _ _ _ Er) as E. rewrite Hacc in E. congruence. }
  rewrite Em. split; [by apply related_closed|].
  unfold PromoteToPrimary. destruct (BumpTerm (f_files f)) as [fs' t']. cbn [snd]. rewrite Hcfg.
  change (f_localWAL (fset_term fs' (f_lastTerm f) f)) with (f_localWAL f).
  assert (Hcb : Forall (client_batch (w_segmentSize (f_localWAL f))) bs).
  { rewrite Hsz. eapply Forall_impl; [exact (sh_batches _ _ _ Hsh)|]. by intros b []. }
  pose proof (lsn_after_ge 0 bs). pose proof (sh_lsn _ _ _ Hsh).
  destruct (ledger_from_log now (cfg_IdempotencyMaxSize cfg) (cfg_IdempotencyTTL cfg) _ gs cur bs r ids Hh Ha Hcb ltac:(lia) ltac:(lia) Er)
    as (w' & -> & _ & Ew).
  do 2 eexists. split; [done|]. cbn [NewEventLoop g_accounts g_wal]. split; [by apply related_closed|]. congruence.
Qed.

(** ** Concrete runs *)

Lemma starts_cleanly_check from w : forallb (fun f => negb (peekSegmentMaxLSN f.2 =? from + 1)) (w_disk w) = true ->
  starts_cleanly from w.
Proof.
  intros H. apply Forall_forall. intros f Hf. rewrite forallb_forall in H.
  specialize (H f (proj1 (list_elem_of_In _ _) Hf)). by apply negb_true_iff, Z.eqb_neq in H.
Qed.

Lemma short_check cs : forallb (fun c => (command_length c <? followerFlushThreshold)%nat) cs = true ->
  Forall (fun c => (command_length c < followerFlushThreshold)%nat) cs.
Proof.
  intros H. apply Forall_forall. intros c Hc. rewrite forallb_forall in H.
  specialize (H c (proj1 (list_elem_of_In _ _) Hc)). by apply Nat.ltb_lt in H.
Qed.

Lemma appended_primary size bs : 29 <= size -> Forall (client_batch size) bs ->
  primary_log size bs (Sync (append_all bs (Open [] size))).
Proof.
  intros Hs Hbs. destruct (fresh_holds size) as [H0 Hz]; [lia|].
  destruct (append_all_ok bs _ [] [] H0) as (gs & g & H & Ea & El & Es & _ & _); [lia|by rewrite Hz|].
  constructor; [change (w_segmentSize (append_all bs (Open [] size)) = size); congruence| |done].
  exists gs, g. split; [by apply sync_holds|]. exact Ea.
Qed.

Lemma follower_replicates_witness :
  let bs := [[account_record (acct 1 100)]; [account_record (acct 2 0)]] in
  let w := Sync (append_all bs (Open [] 400)) in
  exists N, forall m cut n, (N <= m)%nat -> (N <= cut)%nat -> (N <= n)%nat ->
    in_sync 400 bs (syncLoop (Some (stream_of w 1 m cut)) n (NewFollower (Open [] 400) ∅ [])).1.
Proof.
  intros bs w.
  assert (Hcb : Forall (client_batch 400) bs).
  { constructor; [|constructor; [|constructor]];
      apply (records_client_batch account_record 128 400 [acct _ _]);
      [done|lia|lia|constructor; [split; [done|vm_compute; reflexivity]|constructor]|cbn; lia
      |done|lia|lia|constructor; [split; [done|vm_compute; reflexivity]|constructor]|cbn; lia]. }
  assert (Hsb : Forall (shippable 400) bs).
  { rewrite Forall_forall in Hcb |- *. intros b Hb. constructor; [by apply Hcb| |].
    - apply elem_of_cons in Hb as [->|Hb]; [|apply list_elem_of_singleton in Hb as ->]; by constructor.
    - apply elem_of_cons in Hb as [->|Hb]; [|apply list_elem_of_singleton in Hb as ->];
        apply Nat.ltb_lt; reflexivity. }
  assert (Hap : applies bs) by (exists (handle_all applyRecord (concat bs) NewAccountManager).1; vm_compute; reflexivity).
  refine (proj2 (follower_replicates 400 400 1 bs _ w _ _ _ _ _ _)).
  - apply (replica_commit 400 400 1 [_] [_]), (replica_commit 400 400 1 [] [_]), replica_new. vm_compute. discriminate.
  - unfold is_u64. lia.
  - constructor; [lia|lia|exact Hcb|apply small_fits; unfold peekTailChunk; lia|exact Hsb|vm_compute; reflexivity|exact Hap].
  - apply appended_primary; [lia|done].
  - apply readable_check. vm_compute. reflexivity.
  - apply starts_cleanly_check. vm_compute. reflexivity.
Defined.

Lemma promotion_keeps_ledger_witness :
  let g := run demo_run (fresh 4096) in
  exists N, forall m cut n, (N <= m)%nat -> (N <= cut)%nat -> (N <= n)%nat ->
    let f := (syncLoop (Some (stream_of (g_wal g) 1 m cut)) n (NewFollower (Open [] 4096) ∅ [])).1 in
    abs (CloseExpired (SetClock (g_clock g) (f_accounts f))) = abs (g_accounts g)
    /\ exists g' ids', (PromoteToPrimary 0 (mkConfig [] 10 10 None) f).2 = Ok (g', ids')
       /\ abs (CloseExpired (SetClock (g_clock g) (g_accounts g'))) = abs (g_accounts g)
       /\ CurrentLSN (g_wal g') = CurrentLSN (g_wal g).
Proof.
  apply (promotion_keeps_ledger 4096 4096 2001 demo_run 0 (mkConfig [] 10 10 None) 1 ∅).
  - lia.
  - lia.
  - lia.
  - apply demo_ok. lia.
  - apply short_check. vm_compute. reflexivity.
  - done.
  - unfold is_u64. lia.
  - vm_compute. discriminate.
  - vm_compute. discriminate.
  - vm_compute. reflexivity.
  - apply readable_check. vm_compute. reflexivity.
  - apply starts_cleanly_check. vm_compute. reflexivity.
Defined.

(** ** Where replication fails *)

(** A resumed stream can lose a batch.  The follower resumes with the LSN
    after its last marker, and the server skips the segments whose last LSN is
    at most that: when the first record of the next batch ends a segment, the
    rest of the batch is dropped, and the follower, told of the primary's head,
    stays behind although the connection is up. *)
Theorem resume_skips_batch : exists size first second,
  Forall (shippable size) [first; second] /\ applies [first; second]
  /\ let w1 := Sync (append_all [first] (Open [] size)) in
     let w2 := Sync (append_all [second] w1) in
     let f1 := (syncLoop (Some (stream_of w1 1 10 2000)) 10 (NewFollower (Open [] size) ∅ [])).1 in
     let f2 := (syncLoop (Some (stream_of w2 1 10 2000)) 10 f1).1 in
     LastLSN f1 = 2 /\ CurrentLSN w2 = 5 /\ LastLSN f2 = 2 /\ Lag f2 = 3 /\ Follower_Accounts f2 = Follower_Accounts f1.
Proof.
  exists 319, [account_record (acct 1 100)], [account_record (acct 2 0); account_record (acct 3 0)].
  split.
  - constructor; [|constructor; [|constructor]]; constructor.
    + apply (records_client_batch account_record 128 319 [acct 1 100]); [done|lia|lia| |cbn; lia].
      constructor; [split; [done|vm_compute; reflexivity]|constructor].
    + by constructor.
    + apply Nat.ltb_lt. reflexivity.
    + apply (records_client_batch account_record 128 319 [acct 2 0; acct 3 0]); [done|lia|lia| |cbn; lia].
      constructor; [|constructor; [|constructor]]; (split; [done|vm_compute; reflexivity]).
    + constructor; [done|by constructor].
    + apply Nat.ltb_lt. reflexivity.
  - split; [exists (handle_all applyRecord [account_record (acct 1 100); account_record (acct 2 0); account_record (acct 3 0)] NewAccountManager).1; vm_compute; reflexivity|].
    vm_compute. split_and!; reflexivity.
Qed.

Definition tuned (limit : Z) (f : Follower) : Follower :=
  mkFollower (f_accounts f) (f_localWAL f) (f_files f) (f_lastLSN f) (f_lastTerm f) (f_primaryHead f) (f_connected f)
    (f_failures f) (f_BackoffBase f) (f_BackoffMax f) limit (f_pending f).

(** The breaker does not count stream errors.  Every accepted handshake
    resets the count of failures, so a follower whose flush fails - here its
    primary has truncated the log that created the accounts - stores the same
    batch again on every connection, and never re-synchronizes. *)
Theorem flush_failure_never_resyncs : exists size cs, Forall (command_ok 2001) cs
  /\ let g := run cs (fresh size) in
     let w := TruncateBefore (CurrentLSN (g_wal g)) (g_wal g) in
     let round := (Some (stream_of w 1 10 2000), 10%nat) in
     match Start [round; round; round] (tuned 2 (NewFollower (Open [] 4096) ∅ [])) with
     | None => False
     | Some f => LastLSN f = 0 /\ f_failures f = 1 /\ CurrentLSN (f_localWAL f) = 6 /\ Follower_Accounts f = []
     end.
Proof.
  exists 330, [demo_accounts; Transfers 1020 [xfer 11 1 2 7 0 0]]. split.
  - pose proof (demo_ok 2001 ltac:(lia)) as H. unfold demo_run in H.
    apply Forall_cons in H as [H1 H]. apply Forall_cons in H as [_ H]. apply Forall_cons in H as [H2 _].
    constructor; [exact H1|constructor; [exact H2|constructor]].
  - vm_compute. split_and!; reflexivity.
Qed.

Lemma sync_all term rs : forall n f f', is_u64 term -> Forall sendable rs -> f_lastTerm f <= term ->
  feed rs f = (f', Ok tt) -> (length rs < n)%nat -> sync_frames n (wire term rs) f = (f', Err errConn).
Proof.
  induction rs as [|r rs IH]; intros [|n] f f' Ht Hrs Hf E Hn; cbn [length] in Hn; try lia.
  { cbn in E. injection E as <-. done. }
  apply Forall_cons in Hrs as [Hr Hrs]. cbn [feed] in E. apply sbind_Ok in E as (u & f1 & E1 & E2).
  pose proof (control_term _ _ (handle_frame_control r f)) as Et. rewrite E1 in Et. cbn [fst] in Et.
  cbn [sync_frames]. unfold wire. cbn [fmap list_fmap concat]. fold (wire term rs). unfold slift, sget.
  unfold sbind at 1. rewrite read_writeFrame by done. unfold sbind at 1. rewrite (proj2 (Z.ltb_ge _ _)) by done.
  rewrite (sbind_run_Ok _ _ _ _ _ E1). apply IH; try done; lia.
Qed.

Lemma number_sendable size b lsn : size < 2 ^ 31 -> client_batch size b -> Forall sendable (number lsn b).
Proof.
  intros Hs [_ Hf _ _]. pose proof (number_wf _ lsn _ Hf) as Hw. revert lsn Hw.
  induction b as [|r b IH]; intros lsn Hw; [constructor|]. cbn [number] in *. apply Forall_cons in Hf as [(_ & _ & Hr) Hf].
  apply Forall_cons in Hw as [Hr' Hw]. constructor; [|by apply IH]. split; [done|]. cbn [r_Payload]. lia.
Qed.

(** A connection that breaks off after 4096 records of a longer batch. *)
Definition broken_off (term : Z) (b : list Record) : option (list byte -> list byte) :=
  Some (fun _ => be_bytes 8 term ++ wire term (take followerFlushThreshold (log_of 0 [b]))).

Record repeated (size term : Z) (h : list Record) (c : nat) (f : Follower) : Prop := {
  rp_last : f_lastLSN f = 0;
  rp_pend : f_pending f = [];
  rp_term : f_lastTerm f <= term;
  rp_limit : breakerLimit f = followerBreakerLimit;
  rp_size : w_segmentSize (f_localWAL f) = size;
  rp_lsn : CurrentLSN (f_localWAL f) = Z.of_nat c * batch_size h;
  rp_log : exists groups g, holds_frames (f_localWAL f) groups g;
  rp_accounts : handle_all applyRecord (concat (replicate c h)) NewAccountManager = (f_accounts f, Ok tt) }.

Lemma broken_round size term h rest c n f : repeated size term h c f -> is_u64 term -> 29 <= size ->
  size < 2 ^ 31 -> length h = followerFlushThreshold -> client_batch size h ->
  Forall (fun r => r_Type r <> RecordTypeHead) h -> (followerFlushThreshold < n)%nat -> applies (replicate (S c) h) ->
  exists f' d, Start_round (broken_off term (h ++ rest)) n f = Some (f', d) /\ repeated size term h (S c) f'.
Proof.
  intros [Hl Hp Ht Hb Hs Hn (gs & g & Hh) Ha] Hterm H29 H31 Hlen Hcb Hnh Hfr [m Em].
  pose proof (number_sendable size h 0 H31 Hcb) as Hsend.
  assert (Et : take followerFlushThreshold (log_of 0 [h ++ rest]) = number 0 h).
  { cbn [log_of]. unfold batch_records. rewrite <- app_assoc, take_app_le by (rewrite length_number, length_app; lia).
    by rewrite take_number, take_app_length'. }
  assert (Ec : concat (replicate (S c) h) = concat (replicate c h) ++ h).
  { rewrite replicate_S_end, concat_app. cbn [concat]. by rewrite app_nil_r. }
  pose proof Em as Em'. rewrite Ec, handle_all_app in Em. unfold sbind in Em. rewrite Ha in Em.
  unfold broken_off. rewrite Et. set (peer := fun _ : list byte => be_bytes 8 term ++ wire term (number 0 h)).
  destruct (opening_term f peer term _ Hterm eq_refl) as [E1 E2].
  pose proof (syncLoop_cases peer n f) as H. rewrite E1, E2 in H.
  rewrite (proj2 (Z.ltb_ge term _)), andb_false_r in H by lia. cbv zeta in H.
  set (f1 := fset_conn 0 true _) in H.
  assert (Hf1 : f_lastTerm f1 <= term /\ f_lastLSN f1 = 0 /\ f_pending f1 = [] /\ f_localWAL f1 = f_localWAL f
    /\ f_accounts f1 = f_accounts f /\ breakerLimit f1 = followerBreakerLimit /\ f_failures f1 = 0).
  { unfold f1. destruct (Z.ltb_spec (f_lastTerm f) term); cbn; split_and!; (done || lia). }
  clearbody f1. destruct Hf1 as (T1 & L1 & P1 & W1 & A1 & B1 & F1).
  assert (H4096 : Z.of_nat followerFlushThreshold < 2 ^ 63) by (vm_compute; reflexivity).
  rewrite <- W1 in Hh, Hs, Hn. rewrite <- A1 in Em.
  destruct (feed_threshold size h f1 0 m gs g Hlen Hcb Hnh P1 ltac:(lia) ltac:(lia) ltac:(rewrite Hlen; lia) Hh Hs H29 Em)
    as (w & gs' & g' & Ef & Hh' & Es & El).
  rewrite (sync_all term (number 0 h) n f1 _ Hterm Hsend T1 Ef) in H by (rewrite length_number; lia).
  unfold Start_round. rewrite H. cbn [fset_pending fset_accounts fset_wal f_failures]. rewrite F1.
  set (f2 := fset_conn _ _ _). change (breakerLimit f2) with (breakerLimit f1). change (f_failures f2) with (0 + 1).
  rewrite B1. change (followerBreakerLimit <=? 0 + 1) with false. cbv iota. do 2 eexists. split; [done|].
  constructor; try done.
  - change (w_currentLSN w = Z.of_nat (S c) * batch_size h). rewrite El. unfold CurrentLSN in Hn. rewrite Hn. lia.
  - by exists gs', g'.
Qed.

(** A broken connection applies a large batch again.  A batch of more than
    4096 records is flushed before its marker has come, without moving the
    position the follower resumes from; each connection that then breaks off
    makes it append the first 4096 records to its log, and apply them to its
    accounts, once more. *)
Theorem broken_batch_applied_again size term h rest n c : is_u64 term -> 29 <= size < 2 ^ 31 ->
  length h = followerFlushThreshold -> client_batch size h -> Forall (fun r => r_Type r <> RecordTypeHead) h ->
  (forall k, applies (replicate k h)) -> (followerFlushThreshold < n)%nat ->
  exists f, Start_loop (replicate c (broken_off term (h ++ rest), n)) (NewFollower (Open [] size) ∅ []) = Some f
    /\ LastLSN f = 0 /\ CurrentLSN (f_localWAL f) = Z.of_nat c * 4097
    /\ handle_all applyRecord (concat (replicate c h)) NewAccountManager = (f_accounts f, Ok tt).
Proof.
  intros Ht [Hs Hs2] Hlen Hcb Hnh Hap Hn.
  assert (Hall : forall d k f, repeated size term h k f ->
    exists f', Start_loop (replicate d (broken_off term (h ++ rest), n)) f = Some f' /\ repeated size term h (k + d) f').
  { induction d as [|d IH]; intros k f Hr; cbn [replicate Start_loop].
    { exists f. by rewrite Nat.add_0_r. }
    destruct (broken_round size term h rest k n f Hr Ht Hs Hs2 Hlen Hcb Hnh Hn (Hap (S k))) as (f1 & t & -> & Hr1).
    cbn. destruct (IH (S k) f1 Hr1) as (f2 & E & Hr2). exists f2. split; [done|]. by rewrite Nat.add_succ_r. }
  destruct (fresh_in_sync size ∅ ltac:(lia)) as [I1 I2 I3 (gs & g & I4 & _) _ _].
  destruct (Hall c 0%nat (NewFollower (Open [] size) ∅ [])) as (f & E & [R1 R2 R3 R4 R5 R6 R7 R8]).
  { constructor; try done; [|by exists gs, g]. change (0 <= term). unfold is_u64 in Ht. lia. }
  exists f. split; [done|]. split; [done|]. split; [|done]. rewrite R6. unfold batch_size. rewrite Hlen. cbn [Nat.add].
  reflexivity.
Qed.

Lemma concat_replicate {A} (x : A) n k : concat (replicate k (replicate n x)) = replicate (k * n) x.
Proof. induction k as [|k IH]; [done|]. cbn [replicate concat Nat.mul]. by rewrite IH, replicate_add. Qed.

Lemma apply_again r m k : applyRecord r m = (m, Ok tt) -> handle_all applyRecord (replicate k r) m = (m, Ok tt).
Proof. intros E. induction k as [|k IH]; [done|]. cbn [replicate handle_all]. unfold sbind. by rewrite E. Qed.

(** A batch of [n] times the same account. *)
Definition same_account (n : nat) : list Record := account_record <$> replicate n (acct 1 0).

Lemma same_account_ok n : (0 < n)%nat -> 145 * Z.of_nat n + 29 < 2 ^ 31 ->
  length (same_account n) = n /\ client_batch 4096 (same_account n)
  /\ Forall (fun r => r_Type r <> RecordTypeHead) (same_account n) /\ forall k, applies (replicate k (same_account n)).
Proof.
  intros Hn Hb. unfold same_account. split; [by rewrite length_fmap, length_replicate|]. split; [|split].
  - apply (records_client_batch account_record 128); [destruct n; [lia|done]|lia|lia| |rewrite length_replicate; lia].
    apply Forall_replicate. split; [done|vm_compute; reflexivity].
  - apply Forall_fmap, Forall_replicate. done.
  - intros k. unfold applies. rewrite fmap_replicate, concat_replicate. set (r := account_record (acct 1 0)).
    destruct (k * n)%nat as [|q]; [by eexists|]. cbn [replicate handle_all]. unfold sbind.
    set (m := (applyRecord r NewAccountManager).1).
    assert (E1 : applyRecord r NewAccountManager = (m, Ok tt)) by (vm_compute; reflexivity).
    assert (E2 : applyRecord r m = (m, Ok tt)) by (vm_compute; reflexivity).
    rewrite E1. exists m. by apply apply_again.
Qed.

Lemma broken_batch_applied_again_witness :
  let h := same_account followerFlushThreshold in
  exists f, Start_loop (replicate 2 (broken_off 1 (h ++ h), S followerFlushThreshold)) (NewFollower (Open [] 4096) ∅ []) = Some f
    /\ LastLSN f = 0 /\ CurrentLSN (f_localWAL f) = Z.of_nat 2 * 4097
    /\ handle_all applyRecord (concat (replicate 2 h)) NewAccountManager = (f_accounts f, Ok tt).
Proof.
  assert (Hn : (0 < followerFlushThreshold)%nat) by (apply Nat.ltb_lt; vm_compute; reflexivity).
  assert (Hb : 145 * Z.of_nat followerFlushThreshold + 29 < 2 ^ 31) by (vm_compute; reflexivity).
  destruct (same_account_ok followerFlushThreshold Hn Hb) as (Hlen & Hcb & Hnh & Hap). intros h.
  apply (broken_batch_applied_again 4096 1 h h (S followerFlushThreshold) 2); try assumption; [unfold is_u64; lia|lia|].
  apply Nat.lt_succ_diag_r.
Defined.
