(* ===== verification/Auditor.v ===== *)
(** * The auditor (internal/audit/audit.go)

    Walks the frames of every segment and reports what is wrong with them.  The
    directory is a [Disk], whose files can be read; a violation names its
    segment by id, and its text is left out.  The final checks range over Go
    maps, so the order of their violations is not fixed: here it is that of
    [map_to_list]. *)

From S2P Require Import Prelude Core Codec Accounts Crc Wal Engine.

Definition headerSize : nat := 13.
Definition crcSize : nat := 4.

Inductive ViolationKind : Type :=
| ViolationCorruptFrame
| ViolationTornTail
| ViolationBatchCount
| ViolationLSNOrder
| ViolationConservation
| ViolationDuplicateKey
| ViolationUnknownRecord.

(** The segment is [None] for the findings at the end of the log. *)
Record Violation := mkViolation {
  vi_Kind : ViolationKind;
  vi_Segment : option Z;
  vi_LSN : Z }.

Record Report := mkReport {
  ar_Segments : nat;
  ar_Records : nat;
  ar_Batches : nat;
  ar_Accounts : nat;
  ar_Transfers : nat;
  ar_TornTail : option Violation;
  ar_Violations : list Violation }.

Definition Valid (r : Report) : bool := (length (ar_Violations r) =? 0)%nat.

(** The low words of an account's posted amounts. *)
Record bal := mkBal { b_credits : Z; b_debits : Z; b_ledger : Z }.

(** The variables of Audit. *)
Record auditor := mkAuditor {
  au_rep : Report;
  au_balances : gmap ID bal;
  au_injected : gmap Z Z;
  au_keys : gmap Key ID;
  au_transferIDs : gmap ID Z;
  au_pending : gmap ID Transfer;
  au_pendingCount : nat;
  au_prevLSN : Z }.

Definition new_auditor (segments : nat) : auditor :=
  mkAuditor (mkReport segments 0 0 0 0 None []) ∅ ∅ ∅ ∅ ∅ 0 0.

Definition on_rep (f : Report -> Report) (a : auditor) : auditor :=
  mkAuditor (f (au_rep a)) (au_balances a) (au_injected a) (au_keys a) (au_transferIDs a) (au_pending a)
    (au_pendingCount a) (au_prevLSN a).
Definition on_balances (f : gmap ID bal -> gmap ID bal) (a : auditor) : auditor :=
  mkAuditor (au_rep a) (f (au_balances a)) (au_injected a) (au_keys a) (au_transferIDs a) (au_pending a)
    (au_pendingCount a) (au_prevLSN a).
Definition on_injected (f : gmap Z Z -> gmap Z Z) (a : auditor) : auditor :=
  mkAuditor (au_rep a) (au_balances a) (f (au_injected a)) (au_keys a) (au_transferIDs a) (au_pending a)
    (au_pendingCount a) (au_prevLSN a).
Definition on_keys (f : gmap Key ID -> gmap Key ID) (a : auditor) : auditor :=
  mkAuditor (au_rep a) (au_balances a) (au_injected a) (f (au_keys a)) (au_transferIDs a) (au_pending a)
    (au_pendingCount a) (au_prevLSN a).
Definition on_transferIDs (f : gmap ID Z -> gmap ID Z) (a : auditor) : auditor :=
  mkAuditor (au_rep a) (au_balances a) (au_injected a) (au_keys a) (f (au_transferIDs a)) (au_pending a)
    (au_pendingCount a) (au_prevLSN a).
Definition on_pending (f : gmap ID Transfer -> gmap ID Transfer) (a : auditor) : auditor :=
  mkAuditor (au_rep a) (au_balances a) (au_injected a) (au_keys a) (au_transferIDs a) (f (au_pending a))
    (au_pendingCount a) (au_prevLSN a).
Definition set_pendingCount (n : nat) (a : auditor) : auditor :=
  mkAuditor (au_rep a) (au_balances a) (au_injected a) (au_keys a) (au_transferIDs a) (au_pending a)
    n (au_prevLSN a).
Definition set_prevLSN (lsn : Z) (a : auditor) : auditor :=
  mkAuditor (au_rep a) (au_balances a) (au_injected a) (au_keys a) (au_transferIDs a) (au_pending a)
    (au_pendingCount a) lsn.

Definition add_violation (v : Violation) (r : Report) : Report :=
  mkReport (ar_Segments r) (ar_Records r) (ar_Batches r) (ar_Accounts r) (ar_Transfers r) (ar_TornTail r)
    (ar_Violations r ++ [v]).
Definition set_TornTail (v : Violation) (r : Report) : Report :=
  mkReport (ar_Segments r) (ar_Records r) (ar_Batches r) (ar_Accounts r) (ar_Transfers r) (Some v) (ar_Violations r).
Definition count_Record (r : Report) : Report :=
  mkReport (ar_Segments r) (S (ar_Records r)) (ar_Batches r) (ar_Accounts r) (ar_Transfers r) (ar_TornTail r)
    (ar_Violations r).
Definition count_Batch (r : Report) : Report :=
  mkReport (ar_Segments r) (ar_Records r) (S (ar_Batches r)) (ar_Accounts r) (ar_Transfers r) (ar_TornTail r)
    (ar_Violations r).
Definition count_Account (r : Report) : Report :=
  mkReport (ar_Segments r) (ar_Records r) (ar_Batches r) (S (ar_Accounts r)) (ar_Transfers r) (ar_TornTail r)
    (ar_Violations r).
Definition count_Transfer (r : Report) : Report :=
  mkReport (ar_Segments r) (ar_Records r) (ar_Batches r) (ar_Accounts r) (S (ar_Transfers r)) (ar_TornTail r)
    (ar_Violations r).

Definition violate (kind : ViolationKind) (seg : option Z) (lsn : Z) : auditor -> auditor :=
  on_rep (add_violation (mkViolation kind seg lsn)).

(** ** Records *)

Definition add_debits (n : Z) (b : bal) : bal := mkBal (b_credits b) (u64 (b_debits b + n)) (b_ledger b).
Definition add_credits (n : Z) (b : bal) : bal := mkBal (u64 (b_credits b + n)) (b_debits b) (b_ledger b).

(** [pend.Amount.Lo -= n]. *)
Definition less_Lo (n : Z) (t : Transfer) : Transfer :=
  set_Amount (mkUint128 (u64 (Lo (t_Amount t) - n)) (Hi (t_Amount t))) t.

Section Record.
Context (seg lsn : Z).

(** The end of the post case: a balance that is missing is skipped. *)
Definition audit_settle (tr pend : Transfer) (settleAmt : Z) (a : auditor) : auditor :=
  let a := on_balances (alter (add_debits settleAmt) (t_DebitAccountID pend)) a in
  let a := on_balances (alter (add_credits settleAmt) (t_CreditAccountID pend)) a in
  let pend := less_Lo settleAmt pend in
  if Lo (t_Amount pend) =? 0 then on_pending (delete (t_ID tr)) a
  else on_pending <[t_ID tr := pend]> a.

(** A case of a transfer returns whether it goes on to the key check; [false]
    is the [continue] of the code. *)
Definition audit_post (tr : Transfer) (a : auditor) : auditor * bool :=
  match au_pending a !! t_ID tr with
  | None => (violate ViolationConservation (Some seg) lsn a, false)
  | Some pend =>
      if 0 <? Lo (t_Amount tr) then
        if Lo (t_Amount pend) <? Lo (t_Amount tr)
        then (violate ViolationConservation (Some seg) lsn a, false)
        else (audit_settle tr pend (Lo (t_Amount tr)) a, true)
      else (audit_settle tr pend (Lo (t_Amount pend)) a, true)
  end.

Definition audit_void (tr : Transfer) (a : auditor) : auditor * bool :=
  match au_pending a !! t_ID tr with
  | None => (violate ViolationConservation (Some seg) lsn a, false)
  | Some _ => (on_pending (delete (t_ID tr)) a, true)
  end.

Definition missing (b : option bal) (a : auditor) : auditor :=
  match b with Some _ => a | None => violate ViolationConservation (Some seg) lsn a end.

Definition audit_ledgers (tr : Transfer) (deb cred : option bal) (a : auditor) : auditor :=
  match deb, cred with
  | Some deb, Some cred =>
      if negb (b_ledger deb =? t_Ledger tr) || negb (b_ledger cred =? t_Ledger tr)
      then violate ViolationConservation (Some seg) lsn a else a
  | _, _ => a
  end.

Definition audit_pending (tr : Transfer) (a : auditor) : auditor :=
  let deb := au_balances a !! t_DebitAccountID tr in
  let cred := au_balances a !! t_CreditAccountID tr in
  let a := missing deb a in
  let a := missing cred a in
  let a := audit_ledgers tr deb cred a in
  match au_transferIDs a !! t_ID tr with
  | Some _ => violate ViolationDuplicateKey (Some seg) lsn a
  | None => on_pending <[t_ID tr := tr]> (on_transferIDs <[t_ID tr := seg]> a)
  end.

(** The two balances may be one: they are updated through their map. *)
Definition audit_plain (tr : Transfer) (a : auditor) : auditor :=
  let deb := au_balances a !! t_DebitAccountID tr in
  let cred := au_balances a !! t_CreditAccountID tr in
  let a := match deb with
           | Some _ => on_balances (alter (add_debits (Lo (t_Amount tr))) (t_DebitAccountID tr)) a
           | None => violate ViolationConservation (Some seg) lsn a
           end in
  let a := match cred with
           | Some _ => on_balances (alter (add_credits (Lo (t_Amount tr))) (t_CreditAccountID tr)) a
           | None => violate ViolationConservation (Some seg) lsn a
           end in
  let a := audit_ledgers tr deb cred a in
  match au_transferIDs a !! t_ID tr with
  | Some _ => violate ViolationDuplicateKey (Some seg) lsn a
  | None => on_transferIDs <[t_ID tr := seg]> a
  end.

Definition audit_key (tr : Transfer) (a : auditor) : auditor :=
  if no_key tr then a
  else match au_keys a !! t_IdempotencyKey tr with
       | Some prev => if decide (prev = t_ID tr) then a else violate ViolationDuplicateKey (Some seg) lsn a
       | None => on_keys <[t_IdempotencyKey tr := t_ID tr]> a
       end.

Definition audit_transfer (payload : list byte) (a : auditor) : auditor :=
  let a := on_rep count_Transfer a in
  match DecodeTransferPayload payload with
  | Err _ => violate ViolationCorruptFrame (Some seg) lsn a
  | Ok tr =>
      let '(a, goes_on) :=
        if isPost tr then audit_post tr a
        else if isVoid tr then audit_void tr a
        else if isPending tr then (audit_pending tr a, true)
        else (audit_plain tr a, true) in
      if goes_on then let a := audit_key tr a in set_pendingCount (S (au_pendingCount a)) a
      else a
  end.

Definition audit_account (payload : list byte) (a : auditor) : auditor :=
  let a := on_rep count_Account a in
  match DecodeAccountPayload payload with
  | Err _ => violate ViolationCorruptFrame (Some seg) lsn a
  | Ok acc =>
      match au_balances a !! a_ID acc with
      | Some _ => set_pendingCount (S (au_pendingCount a)) a
      | None =>
          let credits := Lo (a_PostedCredits acc) in
          let debits := Lo (a_PostedDebits acc) in
          let a := on_balances <[a_ID acc := mkBal credits debits (a_Ledger acc)]> a in
          let a := if credits <? debits then violate ViolationConservation (Some seg) lsn a else a in
          let a := on_injected (fun inj =>
            <[a_Ledger acc := u64 (default 0 (inj !! a_Ledger acc) + u64 (credits - debits))]> inj) a in
          set_pendingCount (S (au_pendingCount a)) a
      end
  end.

Definition audit_commit (payload : list byte) (a : auditor) : auditor :=
  let a := on_rep count_Batch a in
  let expected := if (12 <=? length payload)%nat then be_val (slice 8 12 payload) else 0 in
  let a := if u32 (Z.of_nat (au_pendingCount a)) =? expected then a
           else violate ViolationBatchCount (Some seg) lsn a in
  set_pendingCount 0 a.

(** A frame whose checksum is right. *)
Definition audit_record (typ : Z) (payload : list byte) (a : auditor) : auditor :=
  let a := on_rep count_Record a in
  let a := if (0 <? au_prevLSN a) && (lsn <=? au_prevLSN a)
           then violate ViolationLSNOrder (Some seg) lsn a else a in
  let a := set_prevLSN lsn a in
  if typ =? 1 then audit_transfer payload a
  else if typ =? 2 then audit_account payload a
  else if typ =? 4 then audit_commit payload a
  else if typ =? 3 then set_pendingCount (S (au_pendingCount a)) a
  else violate ViolationUnknownRecord (Some seg) lsn a.
End Record.

(** ** Segments *)

(** Every frame has at least 17 bytes, so the length bounds the frames. *)
Fixpoint audit_frames (fuel : nat) (seg : Z) (data : list byte) (off : nat) (a : auditor) : auditor :=
  match fuel with
  | O => a
  | S fuel' =>
      if (off + headerSize <=? length data)%nat then
        let lsn := be_val (slice off (off + 8) data) in
        let typ := be_val (slice (off + 8) (off + 9) data) in
        let plen := Z.to_nat (be_val (slice (off + 9) (off + 13) data)) in
        let frameLen := (headerSize + plen + crcSize)%nat in
        if (length data <? off + frameLen)%nat then
          let v := mkViolation ViolationTornTail (Some seg) lsn in
          on_rep (set_TornTail v) (on_rep (add_violation v) a)
        else
          let frame := slice off (off + frameLen) data in
          if ChecksumIEEE (take (headerSize + plen) frame) =? be_val (drop (headerSize + plen) frame)
          then
            let payload := slice headerSize (headerSize + plen) frame in
            audit_frames fuel' seg data (off + frameLen) (audit_record seg lsn typ payload a)
          else
            let a := violate ViolationCorruptFrame (Some seg) lsn a in
            audit_frames fuel' seg data (off + frameLen) (on_rep count_Record a)
      else a
  end.
Definition audit_segment (a : auditor) (f : Z * list byte) : auditor :=
  audit_frames (S (length f.2)) f.1 f.2 0 a.

(** ** Conservation *)

(** The loop over the balances: an account with more debits than credits is
    reported and left out of its ledger's total. *)
Definition total_step (st : gmap Z Z * auditor) (kv : ID * bal) : gmap Z Z * auditor :=
  let '(totals, a) := st in
  let b := kv.2 in
  if b_credits b <? b_debits b then (totals, violate ViolationConservation None 0 a)
  else (<[b_ledger b := u64 (default 0 (totals !! b_ledger b) + (b_credits b - b_debits b))]> totals, a).

Definition injected_step (totals : gmap Z Z) (a : auditor) (kv : Z * Z) : auditor :=
  if default 0 (totals !! kv.1) =? kv.2 then a else violate ViolationConservation None 0 a.

Definition audit_conservation (a : auditor) : auditor :=
  let '(totals, a) := foldl total_step (∅, a) (map_to_list (au_balances a)) in
  foldl (injected_step totals) a (map_to_list (au_injected a)).

(** [Audit] keeps its variables to itself: the report is the result. *)
Definition audit_log (d : Disk) : auditor := foldl audit_segment (new_auditor (length d)) d.
Definition Audit (d : Disk) : Report := au_rep (audit_conservation (audit_log d)).
