(* ===== verification/AuditProps.v ===== *)
(** * Properties of the auditor

    What a valid audit guarantees of the bytes it read, that such a log
    recovers, and that the totals at the end follow from the checks on the
    way. *)

From S2P Require Import Prelude Core Codec Balance Accounts Crc Record Wal Recovery WalProps RecoveryProps Engine Auditor.

(** ** Over records *)

Definition audit_rec (a : auditor) (sr : Z * Record) : auditor :=
  audit_record sr.1 (r_LSN sr.2) (r_Type sr.2) (r_Payload sr.2) a.
Definition audits (a : auditor) (l : list (Z * Record)) : auditor := foldl audit_rec a l.

Definition violations (a : auditor) : list Violation := ar_Violations (au_rep a).
Definition quiet (a : auditor) : Prop := violations a = [].

Lemma audits_app a l1 l2 : audits a (l1 ++ l2) = audits (audits a l1) l2.
Proof. apply foldl_app. Qed.

Lemma frame_type_field r rest : wf_record r -> be_val (slice 8 9 (frame r ++ rest)) = r_Type r.
Proof. intros [_ Ht _]. rewrite frame_split. apply header_type. lia. Qed.
Lemma frame_lsn_field r rest : wf_record r -> be_val (slice 0 8 (frame r ++ rest)) = r_LSN r.
Proof. intros [Hl _ _]. rewrite frame_split. by apply header_lsn. Qed.

(** One frame at the front of the data. *)
Lemma audit_frame fuel seg pre r rest a : wf_record r ->
  audit_frames (S fuel) seg (pre ++ frame r ++ rest) (length pre) a
  = audit_frames fuel seg ((pre ++ frame r) ++ rest) (length (pre ++ frame r)) (audit_rec a (seg, r)).
Proof.
  intros Hw. cbn [audit_frames]. unfold headerSize, crcSize. pose proof (length_frame r) as Hl.
  rewrite (proj2 (Nat.leb_le _ _)) by (rewrite !length_app; lia).
  pose proof (slice_from pre (frame r ++ rest) 0 8) as E0. rewrite Nat.add_0_r in E0.
  rewrite E0, !slice_from, frame_lsn_field, frame_type_field, frame_payload_len by done.
  rewrite Nat2Z.id.
  rewrite (proj2 (Nat.ltb_ge _ _)) by (rewrite !length_app; lia).
  replace (length pre + (13 + length (r_Payload r) + 4))%nat with (length pre + length (frame r))%nat by lia.
  rewrite (slice_mid _ _ pre (frame r) rest) by done.
  assert (Et : take (13 + length (r_Payload r)) (frame r) = frame_body r).
  { unfold frame. by rewrite take_app_length' by (by rewrite length_frame_body). }
  assert (Ed : drop (13 + length (r_Payload r)) (frame r) = be_bytes 4 (ChecksumIEEE (frame_body r))).
  { unfold frame. by rewrite drop_app_length' by (by rewrite length_frame_body). }
  rewrite Et, Ed, be_val_u32, Z.eqb_refl by apply ChecksumIEEE_u32.
  assert (Ep : slice 13 (13 + length (r_Payload r)) (frame r) = r_Payload r).
  { unfold frame, frame_body. rewrite <- app_assoc. apply slice_mid; [by rewrite length_header|done]. }
  by rewrite Ep, app_assoc, length_app.
Qed.

(** Whole frames, then fewer bytes than a header. *)
Lemma audit_frames_records rs : forall fuel seg pre tail a, Forall wf_record rs -> (length tail < headerSize)%nat ->
  (length (frames rs ++ tail) < fuel)%nat ->
  audit_frames fuel seg (pre ++ frames rs ++ tail) (length pre) a = audits a (pair seg <$> rs).
Proof.
  induction rs as [|r rs IH]; intros fuel seg pre tail a Hwf Ht Hf; (destruct fuel as [|fuel]; [lia|]).
  { change (frames []) with (@nil byte). cbn [app fmap list_fmap audits foldl audit_frames].
    by rewrite (proj2 (Nat.leb_gt _ _)) by (rewrite length_app; lia). }
  apply Forall_cons in Hwf as [Hw Hwf]. rewrite frames_cons, <- app_assoc in *.
  rewrite audit_frame by done. cbn [fmap list_fmap audits foldl].
  rewrite !length_app in Hf. pose proof (length_frame r). apply IH; [done|done|]. rewrite length_app. lia.
Qed.

Lemma audit_segment_records a seg rs tail : Forall wf_record rs -> (length tail < headerSize)%nat ->
  audit_segment a (seg, frames rs ++ tail) = audits a (pair seg <$> rs).
Proof. intros Hw Ht. apply (audit_frames_records rs _ seg [] tail); [done|done|]. cbn [snd]. lia. Qed.

(** ** Violations stay *)

Lemma on_rep_violations f a : ar_Violations (f (au_rep a)) = ar_Violations (au_rep a) -> violations (on_rep f a) = violations a.
Proof. done. Qed.

Lemma violate_loud k s l a : ~ quiet (violate k s l a).
Proof. unfold quiet, violations, violate. cbn. by destruct (ar_Violations (au_rep a)). Qed.

(** ** A transfer the auditor passes *)

(** The maps a transfer reads and writes: balances, transfer IDs, holds. *)
Abbreviation maps := (gmap ID bal * gmap ID Z * gmap ID Transfer)%type.
Definition maps_of (a : auditor) : maps := (au_balances a, au_transferIDs a, au_pending a).

Definition moved (n : Z) (dr cr : ID) (B : gmap ID bal) : gmap ID bal :=
  alter (add_credits n) cr (alter (add_debits n) dr B).
Definition known (B : gmap ID bal) (tr : Transfer) : Prop :=
  exists d c, B !! t_DebitAccountID tr = Some d /\ B !! t_CreditAccountID tr = Some c
    /\ b_ledger d = t_Ledger tr /\ b_ledger c = t_Ledger tr.
(** The amount a post settles. *)
Definition settles (tr pend : Transfer) (x : Z) : Prop :=
  if 0 <? Lo (t_Amount tr) then x = Lo (t_Amount tr) /\ x <= Lo (t_Amount pend) else x = Lo (t_Amount pend).

Inductive passes (seg : Z) (tr : Transfer) : maps -> maps -> Prop :=
| passes_post B T P pend x : isPost tr = true -> P !! t_ID tr = Some pend -> settles tr pend x ->
    passes seg tr (B, T, P)
      (moved x (t_DebitAccountID pend) (t_CreditAccountID pend) B, T,
       if Lo (t_Amount (less_Lo x pend)) =? 0 then delete (t_ID tr) P else <[t_ID tr := less_Lo x pend]> P)
| passes_void B T P pend : isPost tr = false -> isVoid tr = true -> P !! t_ID tr = Some pend ->
    passes seg tr (B, T, P) (B, T, delete (t_ID tr) P)
| passes_pending B T P : isPost tr = false -> isVoid tr = false -> isPending tr = true ->
    known B tr -> T !! t_ID tr = None ->
    passes seg tr (B, T, P) (B, <[t_ID tr := seg]> T, <[t_ID tr := tr]> P)
| passes_plain B T P : isPost tr = false -> isVoid tr = false -> isPending tr = false ->
    known B tr -> T !! t_ID tr = None ->
    passes seg tr (B, T, P)
      (moved (Lo (t_Amount tr)) (t_DebitAccountID tr) (t_CreditAccountID tr) B, <[t_ID tr := seg]> T, P).

(** The key is free, or is the transfer's own. *)
Definition key_fits (K : gmap Key ID) (tr : Transfer) : Prop :=
  no_key tr = true \/ forall id, K !! t_IdempotencyKey tr = Some id -> id = t_ID tr.
Definition keys_with (K : gmap Key ID) (tr : Transfer) : gmap Key ID :=
  if no_key tr then K else <[t_IdempotencyKey tr := t_ID tr]> K.

Section Record.
Context (seg lsn : Z).

Lemma audit_key_quiet tr a : quiet (audit_key seg lsn tr a) -> quiet a /\ maps_of (audit_key seg lsn tr a) = maps_of a
  /\ au_injected (audit_key seg lsn tr a) = au_injected a /\ au_prevLSN (audit_key seg lsn tr a) = au_prevLSN a
  /\ au_pendingCount (audit_key seg lsn tr a) = au_pendingCount a.
Proof using. unfold audit_key. repeat case_match; try done. by intros ?%violate_loud. Qed.

Lemma audit_key_fits tr a : key_fits (au_keys a) tr ->
  audit_key seg lsn tr a = on_keys (fun K => keys_with K tr) a.
Proof using.
  intros H. unfold audit_key, keys_with. destruct (no_key tr) eqn:E; [by destruct a|].
  destruct H as [?|H]; [congruence|]. destruct (au_keys a !! _) as [id|] eqn:Ek; [|done].
  rewrite decide_True by (by apply H). specialize (H id eq_refl) as ->. unfold on_keys.
  rewrite insert_id by done. by destruct a.
Qed.

(** What a case of a transfer that adds no violation does. *)
Lemma audit_post_quiet tr a a' go : audit_post seg lsn tr a = (a', go) -> quiet a' -> isPost tr = true ->
  go = true /\ quiet a /\ passes seg tr (maps_of a) (maps_of a')
  /\ au_injected a' = au_injected a /\ au_prevLSN a' = au_prevLSN a /\ au_pendingCount a' = au_pendingCount a.
Proof using.
  unfold audit_post. intros E Hq Hp.
  destruct (au_pending a !! t_ID tr) as [pend|] eqn:Ep; [|injection E as <- <-; by apply violate_loud in Hq].
  assert (Hs : forall x, settles tr pend x -> (audit_settle tr pend x a, true) = (a', go) ->
    go = true /\ quiet a /\ passes seg tr (maps_of a) (maps_of a')
    /\ au_injected a' = au_injected a /\ au_prevLSN a' = au_prevLSN a /\ au_pendingCount a' = au_pendingCount a).
  { intros x Hx [= <- <-]. split; [done|].
    pose proof (passes_post seg tr (au_balances a) (au_transferIDs a) (au_pending a) pend x Hp Ep Hx) as P.
    unfold audit_settle in *. destruct (Lo _ =? 0); by split_and!. }
  unfold settles in Hs. destruct (0 <? Lo (t_Amount tr)).
  - destruct (Z.ltb_spec (Lo (t_Amount pend)) (Lo (t_Amount tr))).
    + injection E as <- <-. by apply violate_loud in Hq.
    + by apply (Hs _ (conj eq_refl H)).
  - by apply (Hs _ eq_refl).
Qed.

Lemma audit_void_quiet tr a a' go : audit_void seg lsn tr a = (a', go) -> quiet a' ->
  isPost tr = false -> isVoid tr = true ->
  go = true /\ quiet a /\ passes seg tr (maps_of a) (maps_of a')
  /\ au_injected a' = au_injected a /\ au_prevLSN a' = au_prevLSN a /\ au_pendingCount a' = au_pendingCount a.
Proof using.
  unfold audit_void. intros E Hq Hp Hv.
  destruct (au_pending a !! t_ID tr) as [pend|] eqn:Ep; injection E as <- <-; [|by apply violate_loud in Hq].
  split_and!; try done. by eapply passes_void.
Qed.

(** The cases of audit_pending and audit_plain. *)
Ltac on_maps tr a :=
  destruct (au_balances a !! t_DebitAccountID tr) as [d|] eqn:Ed;
  destruct (au_balances a !! t_CreditAccountID tr) as [c|] eqn:Ec; cbn [missing audit_ledgers];
  [destruct (Z.eqb_spec (b_ledger d) (t_Ledger tr)), (Z.eqb_spec (b_ledger c) (t_Ledger tr)); cbn [negb orb]|..];
  cbn [au_transferIDs violate on_rep on_balances];
  destruct (au_transferIDs a !! t_ID tr) eqn:Et.

Lemma audit_pending_quiet tr a : quiet (audit_pending seg lsn tr a) ->
  isPost tr = false -> isVoid tr = false -> isPending tr = true ->
  quiet a /\ passes seg tr (maps_of a) (maps_of (audit_pending seg lsn tr a))
  /\ au_injected (audit_pending seg lsn tr a) = au_injected a
  /\ au_prevLSN (audit_pending seg lsn tr a) = au_prevLSN a
  /\ au_pendingCount (audit_pending seg lsn tr a) = au_pendingCount a.
Proof using.
  unfold audit_pending. intros Hq Hp Hv Hh. revert Hq. on_maps tr a; intros Hq;
    try (by apply violate_loud in Hq); split_and!; try done.
  apply passes_pending; try done. by exists d, c.
Qed.

Lemma audit_plain_quiet tr a : quiet (audit_plain seg lsn tr a) ->
  isPost tr = false -> isVoid tr = false -> isPending tr = false ->
  quiet a /\ passes seg tr (maps_of a) (maps_of (audit_plain seg lsn tr a))
  /\ au_injected (audit_plain seg lsn tr a) = au_injected a
  /\ au_prevLSN (audit_plain seg lsn tr a) = au_prevLSN a
  /\ au_pendingCount (audit_plain seg lsn tr a) = au_pendingCount a.
Proof using.
  unfold audit_plain. intros Hq Hp Hv Hh. revert Hq. on_maps tr a; intros Hq;
    try (by apply violate_loud in Hq); split_and!; try done.
  apply passes_plain; try done. by exists d, c.
Qed.

(** What the auditor keeps besides the maps, a record counted. *)
Definition counted (a a' : auditor) : Prop :=
  au_injected a' = au_injected a /\ au_prevLSN a' = au_prevLSN a /\ au_pendingCount a' = S (au_pendingCount a).

Lemma audit_transfer_quiet payload a : quiet (audit_transfer seg lsn payload a) ->
  quiet a /\ counted a (audit_transfer seg lsn payload a)
  /\ exists tr, DecodeTransferPayload payload = Ok tr
       /\ passes seg tr (maps_of a) (maps_of (audit_transfer seg lsn payload a)).
Proof using.
  unfold audit_transfer. destruct (DecodeTransferPayload payload) as [tr|] eqn:Ed; [|by intros ?%violate_loud].
  set (a0 := on_rep count_Transfer a).
  assert (H : forall a' go, (if isPost tr then audit_post seg lsn tr a0
      else if isVoid tr then audit_void seg lsn tr a0
      else if isPending tr then (audit_pending seg lsn tr a0, true)
      else (audit_plain seg lsn tr a0, true)) = (a', go) -> quiet a' ->
    go = true /\ quiet a0 /\ passes seg tr (maps_of a0) (maps_of a')
    /\ au_injected a' = au_injected a0 /\ au_prevLSN a' = au_prevLSN a0 /\ au_pendingCount a' = au_pendingCount a0).
  { intros a' go E Hq. destruct (isPost tr) eqn:Hp; [by apply audit_post_quiet|].
    destruct (isVoid tr) eqn:Hv; [by apply audit_void_quiet|].
    destruct (isPending tr) eqn:Hh; injection E as <- <-; split; try done.
    - by apply audit_pending_quiet.
    - by apply audit_plain_quiet. }
  destruct (if isPost tr then _ else _) as [a1 go]. specialize (H a1 go eq_refl). destruct go.
  - intros Hq. apply audit_key_quiet in Hq as (Hq & Em & Ei & El & Ec).
    destruct (H Hq) as (_ & H0 & P & Hi & Hl & Hc). split; [exact H0|]. split.
    + unfold counted. cbn. rewrite Ei, El, Ec, Hi, Hl, Hc. done.
    + exists tr. split; [done|]. unfold maps_of in *. cbn in *. by rewrite Em.
  - intros Hq. by destruct (H Hq).
Qed.

(** ** An account and a commit marker the auditor passes *)

Definition opens (acc : Account) (B B' : gmap ID bal) (I I' : gmap Z Z) : Prop :=
  let credits := Lo (a_PostedCredits acc) in
  let debits := Lo (a_PostedDebits acc) in
  match B !! a_ID acc with
  | Some _ => B' = B /\ I' = I
  | None => debits <= credits /\ B' = <[a_ID acc := mkBal credits debits (a_Ledger acc)]> B
      /\ I' = <[a_Ledger acc := u64 (default 0 (I !! a_Ledger acc) + u64 (credits - debits))]> I
  end.

Lemma audit_account_quiet payload a : quiet (audit_account seg lsn payload a) ->
  let a' := audit_account seg lsn payload a in
  quiet a /\ au_prevLSN a' = au_prevLSN a /\ au_pendingCount a' = S (au_pendingCount a)
  /\ au_transferIDs a' = au_transferIDs a /\ au_pending a' = au_pending a
  /\ exists acc, DecodeAccountPayload payload = Ok acc
       /\ opens acc (au_balances a) (au_balances a') (au_injected a) (au_injected a').
Proof using.
  unfold audit_account. destruct (DecodeAccountPayload payload) as [acc|]; [|by intros ?%violate_loud].
  cbn [au_balances on_rep]. unfold opens. destruct (au_balances a !! a_ID acc) eqn:Eb.
  { intros Hq. split_and!; try done. exists acc. by rewrite Eb. }
  destruct (Z.ltb_spec (Lo (a_PostedCredits acc)) (Lo (a_PostedDebits acc))) as [|Hle]; intros Hq; [by apply violate_loud in Hq|].
  split_and!; try done. exists acc. rewrite Eb. by split_and!.
Qed.

Lemma audit_commit_quiet payload a : quiet (audit_commit seg lsn payload a) ->
  let a' := audit_commit seg lsn payload a in
  quiet a /\ au_prevLSN a' = au_prevLSN a /\ au_pendingCount a' = 0%nat /\ maps_of a' = maps_of a
  /\ au_injected a' = au_injected a
  /\ u32 (Z.of_nat (au_pendingCount a)) = commit_count (mkRecord lsn RecordTypeBatchCommit payload).
Proof using.
  unfold audit_commit, commit_count. cbn [r_Payload au_pendingCount on_rep].
  destruct (Z.eqb_spec (u32 (Z.of_nat (au_pendingCount a))) (if (12 <=? length payload)%nat then be_val (slice 8 12 payload) else 0));
    intros Hq; [by split_and!|]. by apply violate_loud in Hq.
Qed.
End Record.

(** ** A record the auditor passes *)

Inductive record_passes (seg : Z) (r : Record) (a a' : auditor) : Prop :=
| rp_transfer tr : r_Type r = RecordTypeTransfer -> DecodeTransferPayload (r_Payload r) = Ok tr ->
    passes seg tr (maps_of a) (maps_of a') -> au_injected a' = au_injected a ->
    au_pendingCount a' = S (au_pendingCount a) -> record_passes seg r a a'
| rp_account acc : r_Type r = RecordTypeAccount -> DecodeAccountPayload (r_Payload r) = Ok acc ->
    opens acc (au_balances a) (au_balances a') (au_injected a) (au_injected a') ->
    au_transferIDs a' = au_transferIDs a -> au_pending a' = au_pending a ->
    au_pendingCount a' = S (au_pendingCount a) -> record_passes seg r a a'
| rp_checkpoint : r_Type r = RecordTypeCheckpoint -> maps_of a' = maps_of a -> au_injected a' = au_injected a ->
    au_pendingCount a' = S (au_pendingCount a) -> record_passes seg r a a'
| rp_commit : r_Type r = RecordTypeBatchCommit -> maps_of a' = maps_of a -> au_injected a' = au_injected a ->
    au_pendingCount a' = 0%nat -> u32 (Z.of_nat (au_pendingCount a)) = commit_count r -> record_passes seg r a a'.

Lemma audit_rec_quiet a seg r : quiet (audit_rec a (seg, r)) ->
  let a' := audit_rec a (seg, r) in
  quiet a /\ (0 < au_prevLSN a -> au_prevLSN a < r_LSN r) /\ au_prevLSN a' = r_LSN r /\ record_passes seg r a a'.
Proof.
  unfold audit_rec, audit_record. cbn [fst snd]. set (a0 := on_rep count_Record a).
  set (a1 := set_prevLSN (r_LSN r) _).
  assert (H1 : quiet a1 -> quiet a /\ (0 < au_prevLSN a -> au_prevLSN a < r_LSN r) /\ maps_of a1 = maps_of a
    /\ au_injected a1 = au_injected a /\ au_pendingCount a1 = au_pendingCount a).
  { unfold a1. destruct ((0 <? au_prevLSN a0) && (r_LSN r <=? au_prevLSN a0)) eqn:E.
    - by intros Hq%violate_loud.
    - intros Hq. split_and!; try done. cbn in E. lia. }
  assert (HL : au_prevLSN a1 = r_LSN r) by done. clearbody a1.
  destruct (Z.eqb_spec (r_Type r) 1) as [Et|]; [|destruct (Z.eqb_spec (r_Type r) 2) as [Et|];
    [|destruct (Z.eqb_spec (r_Type r) 4) as [Et|]; [|destruct (Z.eqb_spec (r_Type r) 3) as [Et|];
      [|by intros ?%violate_loud]]]]; intros Hq.
  - apply audit_transfer_quiet in Hq as (Hq & (Hi & Hl & Hc) & tr & Hd & P).
    destruct (H1 Hq) as (? & ? & Em & Ei & Ec). split_and!; [done..|by rewrite Hl|].
    rewrite Em in P. by apply (rp_transfer _ _ _ _ tr); rewrite ?Hi, ?Hc, ?Ec.
  - apply audit_account_quiet in Hq as (Hq & Hl & Hc & HT & HP & acc & Hd & Ho).
    destruct (H1 Hq) as (? & ? & Em & Ei & Ec). injection Em as EB ET EP. split_and!; [done..|by rewrite Hl|].
    rewrite EB, Ei in Ho. by apply (rp_account _ _ _ _ acc); rewrite ?HT, ?HP, ?Hc, ?Ec.
  - apply audit_commit_quiet in Hq as (Hq & Hl & Hc & Hm & Hi & Hu).
    destruct (H1 Hq) as (? & ? & Em & Ei & Ec). split_and!; [done..|by rewrite Hl|].
    apply rp_commit; rewrite ?Hm, ?Hi; try done. by rewrite <- Ec.
  - change (quiet a1) in Hq. destruct (H1 Hq) as (? & ? & Em & Ei & Ec). split_and!; try done.
    apply rp_checkpoint; try done. cbn. by rewrite Ec.
Qed.

(** ** What holds of every log that passes *)

(** Sequence numbers grow, after any zeros at the start. *)
Definition lsns_grow (rs : list Record) : Prop := forall i j r r', (i < j)%nat -> rs !! i = Some r -> rs !! j = Some r' ->
  0 < r_LSN r -> r_LSN r < r_LSN r'.

(** A batch and the marker that counts it. *)
Abbreviation batch := (list Record * Record)%type.
Definition batch_list (b : batch) : list Record := b.1 ++ [b.2].
Definition closed_by (b : batch) : Prop :=
  Forall not_commit b.1 /\ r_Type b.2 = RecordTypeBatchCommit /\ commit_count b.2 = u32 (Z.of_nat (length b.1)).

Definition decodes (r : Record) : Prop :=
  match r_Type r with
  | 1 => exists t, DecodeTransferPayload (r_Payload r) = Ok t
  | 2 => exists a, DecodeAccountPayload (r_Payload r) = Ok a
  | _ => r_Type r = RecordTypeCheckpoint \/ r_Type r = RecordTypeBatchCommit
  end.

(** The IDs of the records that are new transfers or holds. *)
Definition new_id (r : Record) : list ID :=
  if r_Type r =? RecordTypeTransfer then
    match DecodeTransferPayload (r_Payload r) with
    | Ok t => if isPost t || isVoid t then [] else [t_ID t]
    | Err _ => []
    end
  else [].
Definition new_ids (rs : list Record) : list ID := concat (new_id <$> rs).

Record passed (rs : list Record) (a : auditor) : Prop := {
  pa_lsn : lsns_grow rs;
  pa_prev : Forall (fun r => 0 < r_LSN r -> r_LSN r <= au_prevLSN a) rs;
  pa_batches : exists bs rest, rs = concat (batch_list <$> bs) ++ rest /\ Forall closed_by bs
    /\ Forall not_commit rest /\ length rest = au_pendingCount a;
  pa_decodes : Forall decodes rs;
  pa_ids : NoDup (new_ids rs);
  pa_known : forall id, id ∈ new_ids rs -> is_Some (au_transferIDs a !! id) }.

Lemma lsns_grow_snoc rs r prev : lsns_grow rs -> Forall (fun r => 0 < r_LSN r -> r_LSN r <= prev) rs ->
  (0 < prev -> prev < r_LSN r) -> lsns_grow (rs ++ [r]).
Proof.
  intros Hg Hf Hr i j x y Hij Hi Hj Hx. pose proof (lookup_lt_Some _ _ _ Hj) as Hl. rewrite length_app in Hl. cbn in Hl.
  rewrite lookup_app_l in Hi by lia. apply lookup_app_Some in Hj as [Hj|[Hge Hj]]; [exact (Hg _ _ _ _ Hij Hi Hj Hx)|].
  apply list_lookup_singleton_Some in Hj as [_ <-]. rewrite Forall_lookup in Hf. specialize (Hf i x Hi Hx). lia.
Qed.

Lemma new_ids_snoc rs r : new_ids (rs ++ [r]) = new_ids rs ++ new_id r.
Proof. unfold new_ids. rewrite fmap_app, concat_app. cbn. by rewrite app_nil_r. Qed.

(** One more batch record, or the marker that closes the open ones. *)
Lemma batches_snoc rs r n : r_Type r <> RecordTypeBatchCommit ->
  (exists bs rest, rs = concat (batch_list <$> bs) ++ rest /\ Forall closed_by bs
    /\ Forall not_commit rest /\ length rest = n) ->
  exists bs rest, rs ++ [r] = concat (batch_list <$> bs) ++ rest /\ Forall closed_by bs
    /\ Forall not_commit rest /\ length rest = S n.
Proof.
  intros Hr (bs & rest & -> & Hb & Hc & Hl). exists bs, (rest ++ [r]). rewrite <- app_assoc. split_and!; try done.
  - apply Forall_app. split; [done|]. by constructor.
  - rewrite length_app. cbn. lia.
Qed.

(** A record that is not a new transfer adds no ID. *)
Lemma not_new r : r_Type r <> RecordTypeTransfer -> new_id r = [].
Proof. intros H. unfold new_id. by rewrite (proj2 (Z.eqb_neq _ _)). Qed.

Lemma passes_ids seg tr B T P B' T' P' : passes seg tr (B, T, P) (B', T', P') ->
  (isPost tr || isVoid tr = true /\ T' = T)
  \/ (isPost tr || isVoid tr = false /\ T !! t_ID tr = None /\ T' = <[t_ID tr := seg]> T).
Proof.
  inversion 1; subst; [left|left|right|right];
    repeat match goal with H : isPost _ = _ |- _ => rewrite H | H : isVoid _ = _ |- _ => rewrite H end; by split_and!.
Qed.

Lemma record_passes_batches seg r a a' rs : record_passes seg r a a' ->
  (exists bs rest, rs = concat (batch_list <$> bs) ++ rest /\ Forall closed_by bs
    /\ Forall not_commit rest /\ length rest = au_pendingCount a) ->
  exists bs rest, rs ++ [r] = concat (batch_list <$> bs) ++ rest /\ Forall closed_by bs
    /\ Forall not_commit rest /\ length rest = au_pendingCount a'.
Proof.
  intros [tr Et _ _ _ Hn|acc Et _ _ _ _ Hn|Et _ _ Hn|Et _ _ Hn Hc] H;
    [rewrite Hn; apply batches_snoc; [by rewrite Et|done]..|].
  destruct H as (bs & rest & -> & Hb & Hr & Hl). exists (bs ++ [(rest, r)]), []. rewrite Hn. split_and!; try done.
  - rewrite fmap_app, concat_app. cbn. by rewrite !app_nil_r, app_assoc.
  - apply Forall_app. split; [done|]. constructor; [|done]. split_and!; try done. cbn. by rewrite Hl, Hc.
Qed.

Lemma record_passes_ids seg r a a' : record_passes seg r a a' ->
  decodes r /\ (forall id, id ∈ new_id r -> au_transferIDs a !! id = None) /\ NoDup (new_id r)
  /\ forall id, is_Some (au_transferIDs a !! id) \/ id ∈ new_id r -> is_Some (au_transferIDs a' !! id).
Proof.
  assert (Hno : new_id r = [] -> au_transferIDs a' = au_transferIDs a ->
    (forall id, id ∈ new_id r -> au_transferIDs a !! id = None) /\ NoDup (new_id r)
    /\ forall id, is_Some (au_transferIDs a !! id) \/ id ∈ new_id r -> is_Some (au_transferIDs a' !! id)).
  { intros -> ->. split_and!; [by intros ? ?%not_elem_of_nil|constructor|].
    intros id [?|?%not_elem_of_nil]; done. }
  intros [tr Et Hd P _ _|acc Et Hd _ HT _ _|Et Hm _ _|Et Hm _ _ _].
  - split; [unfold decodes; rewrite Et; by exists tr|]. apply passes_ids in P.
    assert (En : new_id r = if isPost tr || isVoid tr then [] else [t_ID tr]) by (unfold new_id; by rewrite Et, Hd).
    destruct P as [[E HT]|(E & HN & HT)]; rewrite E in En; [by apply Hno|]. rewrite En.
    split_and!; [by intros id ->%list_elem_of_singleton|apply NoDup_singleton|].
    intros id H. rewrite HT. destruct (decide (t_ID tr = id)) as [->|Hne]; [by rewrite lookup_insert_eq|].
    rewrite lookup_insert_ne by done. destruct H as [?|H%list_elem_of_singleton]; [done|congruence].
  - split; [unfold decodes; rewrite Et; by exists acc|]. apply Hno; [apply not_new; by rewrite Et|done].
  - split; [unfold decodes; rewrite Et; by left|]. apply Hno; [apply not_new; by rewrite Et|by injection Hm].
  - split; [unfold decodes; rewrite Et; by right|]. apply Hno; [apply not_new; by rewrite Et|by injection Hm].
Qed.

Lemma passed_snoc rs seg r a : passed rs a -> quiet (audit_rec a (seg, r)) -> passed (rs ++ [r]) (audit_rec a (seg, r)).
Proof.
  intros [Hg Hp Hb Hd Hn Hk] Hq. apply audit_rec_quiet in Hq as (_ & Hl & Hprev & P).
  destruct (record_passes_ids _ _ _ _ P) as (Hdr & Hfree & Hnr & Hkr). constructor.
  - by eapply lsns_grow_snoc.
  - rewrite Hprev. apply Forall_app. split; [|by constructor].
    eapply Forall_impl; [exact Hp|]. cbn. intros x Hx ?. specialize (Hx ltac:(done)). lia.
  - by eapply record_passes_batches.
  - apply Forall_app. split; [done|]. by constructor.
  - rewrite new_ids_snoc. apply NoDup_app. split_and!; try done.
    intros id H1 H2. destruct (Hk id H1). rewrite (Hfree id H2) in *. done.
  - rewrite new_ids_snoc. intros id [H|H]%elem_of_app; apply Hkr; auto.
Qed.

Lemma passed_audits l : forall rs a, passed rs a -> quiet (audits a l) -> passed (rs ++ l.*2) (audits a l).
Proof.
  induction l as [|[seg r] l IH] using rev_ind; intros rs a Hp; [by rewrite app_nil_r|].
  rewrite audits_app. cbn [audits foldl]. intros Hq. pose proof Hq as Hq0. apply audit_rec_quiet in Hq0 as [Hq0 _].
  rewrite fmap_app, app_assoc. apply passed_snoc; [by apply IH|done].
Qed.

(** ** Bytes that pass *)

Lemma audit_frames_mono fuel : forall seg data off a, quiet (audit_frames fuel seg data off a) -> quiet a.
Proof.
  induction fuel as [|fuel IH]; intros seg data off a; [done|]. cbn [audit_frames].
  destruct (_ <=? _)%nat; [|done]. destruct (_ <? _)%nat; [by intros Hq%violate_loud|].
  destruct (_ =? _); intros Hq%IH.
  - by apply (audit_rec_quiet a seg (mkRecord _ _ _)) in Hq as [? _].
  - by apply violate_loud in Hq.
Qed.

Lemma slice_take {A} lo hi n (l : list A) : (hi <= n)%nat -> slice lo hi (take n l) = slice lo hi l.
Proof.
  intros H. unfold slice. destruct (decide (lo <= hi)%nat).
  - rewrite skipn_firstn_comm, take_take. f_equal. lia.
  - by replace (hi - lo)%nat with 0%nat by lia.
Qed.

(** The checks the auditor makes on a frame are those of the decoder. *)
Lemma checked_frame rest n : Z.to_nat (be_val (slice 9 13 rest)) = n -> (13 + n + 4 <= length rest)%nat ->
  be_val (slice 8 9 rest) <> 0 ->
  forall f, f = take (13 + n + 4) rest -> ChecksumIEEE (take (13 + n) f) = be_val (drop (13 + n) f) ->
  exists r, wf_record r /\ f = frame r.
Proof.
  intros Hn Hl Ht f Ef Hc. assert (Hf : length f = (13 + n + 4)%nat) by (rewrite Ef, length_take; lia).
  assert (Et : slice 8 9 f = slice 8 9 rest) by (rewrite Ef; apply slice_take; lia).
  assert (El : slice 9 13 f = slice 9 13 rest) by (rewrite Ef; apply slice_take; lia).
  enough (exists r, DecodeRecord f = Ok r) as [r [? ?]%DecodeRecord_Ok] by (by exists r).
  unfold DecodeRecord, RecordHeaderSize, RecordCRCSize. rewrite Hf, Et, El.
  rewrite (proj2 (Nat.ltb_ge _ _)) by lia.
  rewrite (proj2 (Z.eqb_neq _ _)) by done. rewrite Hn, Nat.eqb_refl. cbn [negb].
  assert (Es : slice (13 + n) (13 + n + 4) f = drop (13 + n) f).
  { unfold slice. apply take_ge. rewrite length_drop. lia. }
  rewrite Es, Hc, Z.eqb_refl. cbn [negb]. by eexists.
Qed.

Lemma audit_frames_quiet fuel : forall seg pre rest a, (length rest < fuel)%nat ->
  quiet (audit_frames fuel seg (pre ++ rest) (length pre) a) ->
  exists rs tail, rest = frames rs ++ tail /\ (length tail < headerSize)%nat /\ Forall wf_record rs.
Proof.
  induction fuel as [|fuel IH]; intros seg pre rest a Hf Hq; [lia|].
  destruct (decide (length rest < headerSize)%nat) as [Hs|Hs]; [by exists [], rest|].
  pose proof Hq as Hq0. cbn [audit_frames] in Hq0. unfold headerSize, crcSize in Hq0, Hs.
  rewrite (proj2 (Nat.leb_le _ _)) in Hq0 by (rewrite length_app; lia).
  pose proof (slice_from pre rest 0 8) as E0. rewrite Nat.add_0_r in E0. rewrite E0, !slice_from in Hq0. clear E0.
  set (n := Z.to_nat (be_val (slice 9 13 rest))) in *.
  destruct (Nat.ltb_spec (length (pre ++ rest)) (length pre + (13 + n + 4))) as [|Hn]; [by apply violate_loud in Hq0|].
  rewrite length_app in Hn. pose proof (slice_from pre rest 0 (13 + n + 4)) as E0. rewrite Nat.add_0_r in E0.
  rewrite E0 in Hq0. clear E0. unfold slice at 1 2 in Hq0. rewrite drop_0, Nat.sub_0_r in Hq0.
  set (f := take (13 + n + 4) rest) in *.
  destruct (Z.eqb_spec (ChecksumIEEE (take (13 + n) f)) (be_val (drop (13 + n) f))) as [Hc|];
    apply audit_frames_mono in Hq0; [|by apply violate_loud in Hq0].
  apply (audit_rec_quiet a seg (mkRecord _ _ _)) in Hq0 as (_ & _ & _ & Hp).
  assert (Ht : be_val (slice 8 9 rest) <> 0) by (destruct Hp as [? E|? E|E|E]; cbn [r_Type] in E; by rewrite E).
  destruct (checked_frame rest n eq_refl ltac:(lia) Ht f eq_refl Hc) as (r & Hw & Er).
  assert (Erest : rest = frame r ++ drop (13 + n + 4) rest) by (rewrite <- Er; unfold f; by rewrite take_drop).
  rewrite Erest, audit_frame in Hq by done.
  destruct (IH seg (pre ++ frame r) (drop (13 + n + 4) rest) _ ltac:(rewrite length_drop; lia) Hq) as (rs & tail & E & Hl & Hwf).
  exists (r :: rs), tail. rewrite frames_cons, <- app_assoc, <- E. split_and!; try done. by constructor.
Qed.

(** A file as the frames of its records and what is left over. *)
Abbreviation file := (Z * list Record * list byte)%type.
Definition file_bytes (f : file) : Z * list byte := (f.1.1, frames f.1.2 ++ f.2).
Definition file_ok (f : file) : Prop := Forall wf_record f.1.2 /\ (length f.2 < headerSize)%nat.
Definition file_records (f : file) : list (Z * Record) := pair f.1.1 <$> f.1.2.
Definition records_of (fs : list file) : list Record := concat (snd ∘ fst <$> fs).

Lemma file_records_snd fs : (concat (file_records <$> fs)).*2 = records_of fs.
Proof.
  unfold records_of. induction fs as [|[[i rs] tail] fs IH]; [done|]. cbn [fmap list_fmap concat].
  rewrite fmap_app. f_equal; [|done]. unfold file_records. cbn. rewrite <- list_fmap_compose. apply list_fmap_id.
Qed.

Lemma audit_files fs : forall a, Forall file_ok fs ->
  foldl audit_segment a (file_bytes <$> fs) = audits a (concat (file_records <$> fs)).
Proof.
  induction fs as [|[[i rs] tail] fs IH]; intros a Hf; [done|]. apply Forall_cons in Hf as [[Hw Ht] Hf].
  cbn [fmap list_fmap concat foldl]. unfold file_bytes at 2. cbn [fst snd].
  rewrite audits_app, <- IH by done. f_equal. by apply audit_segment_records.
Qed.

Lemma segments_mono d : forall a, quiet (foldl audit_segment a d) -> quiet a.
Proof. induction d as [|f d IH]; intros a; [done|]. cbn [foldl]. intros Hq%IH. by eapply audit_frames_mono. Qed.

Lemma quiet_files d : forall a, quiet (foldl audit_segment a d) -> exists fs, d = file_bytes <$> fs /\ Forall file_ok fs.
Proof.
  induction d as [|[i c] d IH]; intros a Hq; [by exists []|]. cbn [foldl] in Hq.
  destruct (IH _ Hq) as (fs & Ed & Hf). apply segments_mono in Hq.
  destruct (audit_frames_quiet _ i [] c a (Nat.lt_succ_diag_r _) Hq) as (rs & tail & Ec & Ht & Hw).
  exists ((i, rs, tail) :: fs). cbn [fmap list_fmap]. rewrite Ed, Ec. split; [done|]. by constructor.
Qed.

(** The checks at the end add violations only. *)
Lemma conservation_mono a : quiet (audit_conservation a) -> quiet a.
Proof.
  unfold audit_conservation.
  assert (Ht : forall l st, quiet (foldl total_step st l).2 -> quiet st.2).
  { induction l as [|[id b] l IH]; intros [T a0]; [done|]. cbn [foldl]. intros Hq%IH. cbn in Hq.
    destruct (_ <? _); [by apply violate_loud in Hq|done]. }
  assert (Hi : forall T l a0, quiet (foldl (injected_step T) a0 l) -> quiet a0).
  { intros T. induction l as [|[lg i] l IH]; intros a0; [done|]. cbn [foldl]. intros Hq%IH. unfold injected_step in Hq.
    destruct (_ =? _); [done|by apply violate_loud in Hq]. }
  specialize (Ht (map_to_list (au_balances a)) (∅, a)). destruct (foldl total_step _ _) as [T a1].
  intros Hq%Hi. by apply Ht.
Qed.

Lemma Valid_quiet d : Valid (Audit d) = true <-> quiet (audit_conservation (audit_log d)).
Proof.
  unfold Valid, Audit, quiet, violations. rewrite Nat.eqb_eq. split; [apply length_zero_iff_nil|by intros ->].
Qed.

Lemma passed_new n : passed [] (new_auditor n).
Proof.
  constructor; try constructor; try done.
  - exists [], []. by split_and!.
  - by intros ? ?%not_elem_of_nil.
Qed.

(** ** Recovery of what passes *)

Lemma deliver_batches bs : forall rest h, Forall closed_by bs -> Forall not_commit rest ->
  Forall (fun b => Z.of_nat (length b.1) < 2 ^ 32) bs ->
  exists h', deliver (concat (batch_list <$> bs) ++ rest) (mkReplay [] h) = (concat bs.*1, mkReplay rest h').
Proof.
  induction bs as [|[b c] bs IH]; intros rest h Hc Hr Hn.
  { exists h. by apply (deliver_not_commit rest []). }
  apply Forall_cons in Hc as [(Hb & Ht & Hcount) Hc]. apply Forall_cons in Hn as [Hl Hn]. cbn [fst snd] in *.
  cbn [fmap list_fmap concat]. unfold batch_list at 1. cbn [fst snd]. rewrite <- !app_assoc, (deliver_app b), (deliver_not_commit b [] h Hb).
  cbn [fst snd app deliver]. rewrite Ht, Z.eqb_refl. cbn [rp_pending].
  rewrite Hcount. unfold u32. rewrite Z.mod_small, Z.eqb_refl by lia.
  destruct (IH rest (i64 (r_LSN c)) Hc Hr Hn) as [h' ->]. by exists h'.
Qed.

Lemma batch_in_bound bs rest n : Z.of_nat (length (concat (batch_list <$> bs) ++ rest)) < n ->
  Forall (fun b => Z.of_nat (length b.1) < n) bs.
Proof.
  intros H. apply Forall_forall. intros b (l1 & l2 & ->)%list_elem_of_split.
  rewrite fmap_app, concat_app in H. cbn [fmap list_fmap concat] in H. unfold batch_list at 2 in H.
  rewrite !length_app in H. lia.
Qed.

(** A directory of whole frames. *)
Lemma whole_files fs : Forall file_ok fs -> Forall (fun f => f.2 = []) fs ->
  file_bytes <$> fs = seg_file <$> fs.*1 /\ Forall (fun gr => Forall wf_record gr.2) fs.*1.
Proof.
  induction fs as [|[[i rs] tail] fs IH]; [by split|]. intros [[Hw _] Hf]%Forall_cons [Ht Hts]%Forall_cons.
  destruct (IH Hf Hts) as [E Hg]. cbn in Ht. subst tail. cbn [fmap list_fmap fst].
  split; [|by constructor]. rewrite E. unfold file_bytes, seg_file. cbn [fst snd]. by rewrite app_nil_r.
Qed.

Lemma recover_files {S : Type} (handler : Record -> M S error unit) fs bs rest w s :
  Forall file_ok fs -> Forall (fun f => f.2 = []) fs -> Z.of_nat (length (records_of fs)) < 2 ^ 32 ->
  records_of fs = concat (batch_list <$> bs) ++ rest -> Forall closed_by bs -> Forall not_commit rest ->
  w_disk w = file_bytes <$> fs -> fs <> [] -> Forall (fun f => 0 < f.1.1) fs -> 0 <= w_currentLSN w ->
  (let '(_, s', r) := Recover handler w s in (s', r)) = handle_all (filter_handler 0 handler) (concat bs.*1) s.
Proof.
  intros Hok Hts Hn Hrs Hc Hr Hd Hne Hids Hlsn. destruct (whole_files fs Hok Hts) as [E Hg].
  destruct (exists_last Hne) as (fs' & [[id g] tail] & ->). clear Hne.
  apply Forall_app in Hids as [_ [Hid _]%Forall_cons]. cbn in Hid. 
  assert (E1 : (fs' ++ [(id, g, tail)]).*1 = fs'.*1 ++ [(id, g)]) by (by rewrite fmap_app).
  rewrite E1 in E, Hg. apply Forall_app in Hg as [Hg [Hgl _]%Forall_cons]. cbn [snd] in Hgl.
  rewrite (recover_run handler fs'.*1 id g [] w s); try done; [|by rewrite Hd, E, fmap_app, app_nil_r|by left].
  destruct (scan_files_deliver (fs'.*1 ++ [(id, g)]) (mkReplay [] 0)) as [p ->].
  assert (Er : concat (fs'.*1 ++ [(id, g)]).*2 = records_of (fs' ++ [(id, g, tail)])).
  { unfold records_of. rewrite <- E1, <- list_fmap_compose. done. }
  rewrite Er, Hrs. rewrite Hrs in Hn.
  destruct (deliver_batches bs rest 0 Hc Hr (batch_in_bound _ _ _ Hn)) as [h' ->]. cbn [fst snd].
  destruct (handle_all _ _ s) as [s' [[]|e]]; [|done]. by destruct (openSegment _ _ _).
Qed.

(** ** Conservation *)

(** What the balances of a ledger amount to. *)
Definition bal_net (lg : Z) (b : bal) : Z := if b_ledger b =? lg then b_credits b - b_debits b else 0.
Definition net_of (lg : Z) (B : gmap ID bal) : Z := msum (bal_net lg) B.

(** Balances of what was injected, modulo 2^64, and the accounts of the holds. *)
Record balanced (a : auditor) : Prop := {
  bl_net : forall lg, u64 (net_of lg (au_balances a)) = default 0 (au_injected a !! lg);
  bl_holds : forall id p, au_pending a !! id = Some p -> known (au_balances a) p }.

Lemma u64_add_l x y : u64 (u64 x + y) = u64 (x + y).
Proof. unfold u64. by rewrite Zplus_mod_idemp_l. Qed.
Lemma u64_add_r x y : u64 (x + u64 y) = u64 (x + y).
Proof. unfold u64. by rewrite Zplus_mod_idemp_r. Qed.
Lemma u64_sub_l x y : u64 (u64 x - y) = u64 (x - y).
Proof. unfold u64. by rewrite Zminus_mod_idemp_l. Qed.
Lemma u64_sub_r x y : u64 (x - u64 y) = u64 (x - y).
Proof. unfold u64. by rewrite Zminus_mod_idemp_r. Qed.

Lemma net_alter lg f id B b : B !! id = Some b ->
  net_of lg (alter f id B) = net_of lg B - bal_net lg b + bal_net lg (f b).
Proof.
  intros E. assert (Ea : alter f id B = <[id := f b]> B).
  { apply map_eq. intros k. destruct (decide (id = k)) as [<-|];
      [by rewrite lookup_alter_eq, lookup_insert_eq, E|by rewrite lookup_alter_ne, lookup_insert_ne]. }
  unfold net_of. rewrite Ea. by apply msum_insert.
Qed.

Lemma known_alter f id B p : (forall b, b_ledger (f b) = b_ledger b) -> known B p -> known (alter f id B) p.
Proof.
  intros Hf (d & c & Ed & Ec & Ld & Lc). unfold known. rewrite !lookup_alter, Ed, Ec.
  exists (if decide (id = t_DebitAccountID p) then f d else d), (if decide (id = t_CreditAccountID p) then f c else c).
  split_and!; repeat case_decide; cbn; subst; rewrite ?Ed, ?Ec, ?Hf; done.
Qed.

(** ** Injected funds are conserved *)

Lemma net_debits lg n id B b : B !! id = Some b ->
  u64 (net_of lg (alter (add_debits n) id B)) = u64 (net_of lg B - (if b_ledger b =? lg then n else 0)).
Proof.
  intros E. rewrite (net_alter _ _ _ _ b E). unfold bal_net. cbn [add_debits b_ledger b_credits b_debits].
  destruct (b_ledger b =? lg); [|f_equal; lia].
  replace (net_of lg B - (b_credits b - b_debits b) + (b_credits b - u64 (b_debits b + n)))
    with ((net_of lg B + b_debits b) - u64 (b_debits b + n)) by lia.
  rewrite u64_sub_r. f_equal. lia.
Qed.
Lemma net_credits lg n id B b : B !! id = Some b ->
  u64 (net_of lg (alter (add_credits n) id B)) = u64 (net_of lg B + (if b_ledger b =? lg then n else 0)).
Proof.
  intros E. rewrite (net_alter _ _ _ _ b E). unfold bal_net. cbn [add_credits b_ledger b_credits b_debits].
  destruct (b_ledger b =? lg); [|f_equal; lia].
  replace (net_of lg B - (b_credits b - b_debits b) + (u64 (b_credits b + n) - b_debits b))
    with ((net_of lg B - b_credits b) + u64 (b_credits b + n)) by lia.
  rewrite u64_add_r. f_equal. lia.
Qed.

(** A movement between two accounts of one ledger. *)
Lemma net_moved lg n p B : known B p ->
  u64 (net_of lg (moved n (t_DebitAccountID p) (t_CreditAccountID p) B)) = u64 (net_of lg B).
Proof.
  intros (d & c & Ed & Ec & Ld & Lc). unfold moved.
  set (B1 := alter (add_debits n) (t_DebitAccountID p) B).
  assert (H : exists c', B1 !! t_CreditAccountID p = Some c' /\ b_ledger c' = t_Ledger p).
  { destruct (known_alter (add_debits n) (t_DebitAccountID p) B p) as (d' & c' & _ & E & _ & L); [done|by exists d, c|].
    by exists c'. }
  destruct H as (c' & Ec' & Lc'). rewrite (net_credits _ _ _ _ c' Ec').
  rewrite <- u64_add_l. unfold B1. rewrite (net_debits _ _ _ _ d Ed), u64_add_l, Ld, Lc'. f_equal. lia.
Qed.
Lemma known_moved n dr cr B p : known B p -> known (moved n dr cr B) p.
Proof. intros H. unfold moved. by do 2 (apply known_alter; [done|]). Qed.

Lemma passes_balanced seg tr B T P B' T' P' : passes seg tr (B, T, P) (B', T', P') ->
  (forall id p, P !! id = Some p -> known B p) ->
  (forall lg, u64 (net_of lg B') = u64 (net_of lg B)) /\ (forall id p, P' !! id = Some p -> known B' p).
Proof.
  intros H HP. inversion H; subst.
  - assert (Hk : known B pend) by (by eapply HP). split; [intros lg; by apply net_moved|]. intros id p E. apply known_moved.
    revert E; case_match; intros E.
    + apply lookup_delete_Some in E as [_ E]. by eapply HP.
    + apply lookup_insert_Some in E as [[_ <-]|[_ E]]; [exact Hk|by eapply HP].
  - split; [done|]. intros id p [_ E]%lookup_delete_Some. by eapply HP.
  - split; [done|]. intros id p [[_ <-]|[_ E]]%lookup_insert_Some; [done|by eapply HP].
  - split; [intros lg; by apply net_moved|]. intros id p E. apply known_moved. by eapply HP.
Qed.

Lemma record_balanced seg r a a' : record_passes seg r a a' -> balanced a -> balanced a'.
Proof.
  intros [tr _ _ P Ei _|acc _ _ Ho _ HP _|_ Em Ei _|_ Em Ei _ _] [Hn Hk].
  - destruct (passes_balanced _ _ _ _ _ _ _ _ P Hk) as [Hn' Hk']. constructor; [|done].
    intros lg. by rewrite Ei, Hn', Hn.
  - unfold opens in Ho. destruct (au_balances a !! a_ID acc) eqn:Eb.
    { destruct Ho as [EB EI]. constructor; rewrite ?HP, EB, ?EI; done. }
    destruct Ho as (Hle & EB & EI). constructor; rewrite EB, ?EI, ?HP.
    + intros lg. unfold net_of in *. rewrite msum_insert_new by done. unfold bal_net at 1. cbn [b_ledger b_credits b_debits].
      rewrite <- u64_add_r, Hn. destruct (Z.eqb_spec (a_Ledger acc) lg) as [->|Hne].
      * rewrite lookup_insert_eq. rewrite u64_add_r, Z.add_comm. done.
      * rewrite lookup_insert_ne by done. rewrite <- Hn. unfold u64. by rewrite Z.add_0_l, Z.mod_mod by lia.
    + intros id p E. destruct (Hk id p E) as (d & c & Ed & Ec & Ld & Lc). exists d, c.
      rewrite !lookup_insert_ne by congruence. by split_and!.
  - injection Em as EB _ EP. constructor; rewrite ?EP, EB, ?Ei; done.
  - injection Em as EB _ EP. constructor; rewrite ?EP, EB, ?Ei; done.
Qed.

Lemma audits_balanced l : forall a, balanced a -> quiet (audits a l) -> balanced (audits a l).
Proof.
  induction l as [|[seg r] l IH] using rev_ind; intros a Hb; [done|].
  rewrite audits_app. cbn [audits foldl]. intros Hq. apply audit_rec_quiet in Hq as (Hq & _ & _ & P).
  apply (record_balanced _ _ _ _ P). by apply IH.
Qed.
Lemma balanced_new n : balanced (new_auditor n).
Proof. constructor; [|done]. intros lg. unfold net_of, new_auditor. cbn. by rewrite msum_empty. Qed.

Lemma default_Some {A} (d x : A) : default d (Some x) = x.
Proof. done. Qed.

(** The totals of the final loop, when no account is overdrawn. *)
Lemma totals_ok l : forall T a, Forall (fun kv : ID * bal => b_debits kv.2 <= b_credits kv.2) l ->
  exists T', foldl total_step (T, a) l = (T', a)
    /\ forall lg, u64 (default 0 (T' !! lg)) = u64 (default 0 (T !! lg) + lsum (fun kv => bal_net lg kv.2) l)
         /\ (is_u64 (default 0 (T !! lg)) -> is_u64 (default 0 (T' !! lg))).
Proof.
  induction l as [|[id b] l IH]; intros T a; [intros _; exists T; split; [done|]; intros lg; cbn; by rewrite Z.add_0_r|].
  intros [Hb Hl]%Forall_cons. cbn [foldl total_step snd] in *. rewrite (proj2 (Z.ltb_ge _ _)) by done.
  set (T1 := <[b_ledger b := _]> T). destruct (IH T1 a Hl) as (T' & E & Hlg). exists T'. split; [done|]. intros lg.
  destruct (Hlg lg) as [E' R]. rewrite E'. cbn [lsum foldr]. fold (lsum (fun kv : ID * bal => bal_net lg kv.2) l).
  unfold T1 in *. cbn [snd]. unfold bal_net at 2. destruct (Z.eqb_spec (b_ledger b) lg) as [<-|Hne].
  - rewrite lookup_insert_eq in *. rewrite default_Some in *. split; [rewrite u64_add_l; f_equal; lia|].
    intros _. apply R, u64_range.
  - rewrite lookup_insert_ne in * by done. split; [f_equal; lia|done].
Qed.

(** The ledger totals never fail on their own. *)
Lemma conservation_follows a : balanced a -> quiet a ->
  (forall id b, au_balances a !! id = Some b -> b_debits b <= b_credits b) -> audit_conservation a = a.
Proof.
  intros [Hn _] Hq Hb. unfold audit_conservation.
  destruct (totals_ok (map_to_list (au_balances a)) ∅ a) as (T & -> & HT).
  { apply Forall_forall. intros [id b] Hin%elem_of_map_to_list. by eapply Hb. }
  assert (Hl : forall l, (forall lg i, (lg, i) ∈ l -> au_injected a !! lg = Some i) -> foldl (injected_step T) a l = a).
  { induction l as [|[lg i] l IH]; intros Hin; [done|]. cbn [foldl]. unfold injected_step at 2. cbn [fst snd].
    assert (E : default 0 (T !! lg) = i).
    { destruct (HT lg) as [E R]. rewrite lookup_empty in *. change (default 0 None) with 0 in *.
      specialize (R ltac:(unfold is_u64; lia)). specialize (Hn lg). rewrite (Hin lg i), default_Some in Hn by (by left).
      rewrite u64_small, Z.add_0_l in E by done. by rewrite E. }
    rewrite E, Z.eqb_refl. apply IH. intros lg' i' H. apply Hin. by right. }
  apply Hl. intros lg i. by rewrite elem_of_map_to_list.
Qed.

Definition overdrawn (a : auditor) : Prop := exists id b, au_balances a !! id = Some b /\ b_credits b < b_debits b.

Lemma conservation_overdrawn a : quiet (audit_conservation a) -> ~ overdrawn a.
Proof.
  unfold audit_conservation.
  assert (Ht : forall l st, quiet (foldl total_step st l).2 -> quiet st.2 /\ Forall (fun kv => b_debits kv.2 <= b_credits kv.2) l).
  { induction l as [|[id b] l IH]; intros [T a0]; [done|]. cbn [foldl]. intros [Hq Hl]%IH. cbn in Hq.
    destruct (Z.ltb_spec (b_credits b) (b_debits b)); [by apply violate_loud in Hq|]. split; [done|]. by constructor. }
  assert (Hi : forall T l a0, quiet (foldl (injected_step T) a0 l) -> quiet a0).
  { intros T. induction l as [|[lg i] l IH]; intros a0; [done|]. cbn [foldl]. intros Hq%IH. unfold injected_step in Hq.
    destruct (_ =? _); [done|by apply violate_loud in Hq]. }
  specialize (Ht (map_to_list (au_balances a)) (∅, a)). destruct (foldl total_step _ _) as [T a1].
  intros Hq%Hi. destruct (Ht Hq) as [_ Hl]. intros (id & b & Hb%elem_of_map_to_list & Hlt).
  rewrite Forall_forall in Hl. specialize (Hl _ Hb). cbn in Hl. lia.
Qed.

Lemma quiet_log_balanced d : quiet (audit_log d) -> balanced (audit_log d).
Proof.
  unfold audit_log. intros Hq. destruct (quiet_files _ _ Hq) as (fs & Ed & Hf). rewrite Ed, length_fmap in *.
  rewrite audit_files in * by done. apply audits_balanced; [apply balanced_new|done].
Qed.

(** ** Properties *)

(** C18. What a valid audit guarantees.  The files are then whole frames with
    right checksums, followed by fewer bytes than a header; the sequence numbers
    grow; every transfer and account decodes and no two new transfers share an
    ID; and the records are batches, each counted by its marker, and an
    unfinished last one.  When no bytes are left over, recovering the log hands
    over exactly the records of those batches. *)
Theorem audit_sound d : Valid (Audit d) = true ->
  exists fs bs rest, d = file_bytes <$> fs /\ Forall file_ok fs
    /\ records_of fs = concat (batch_list <$> bs) ++ rest /\ Forall closed_by bs /\ Forall not_commit rest
    /\ lsns_grow (records_of fs) /\ Forall decodes (records_of fs) /\ NoDup (new_ids (records_of fs))
    /\ (Forall (fun f => f.2 = []) fs -> Z.of_nat (length (records_of fs)) < 2 ^ 32 -> fs <> [] ->
        Forall (fun f => 0 < f.1.1) fs ->
        forall S (handler : Record -> M S error unit) w s, w_disk w = d -> 0 <= w_currentLSN w ->
        (let '(_, s', r) := Recover handler w s in (s', r)) = handle_all (filter_handler 0 handler) (concat bs.*1) s).
Proof.
  intros Hv%Valid_quiet%conservation_mono. unfold audit_log in Hv.
  destruct (quiet_files _ _ Hv) as (fs & Ed & Hf). subst d. rewrite audit_files in Hv by done.
  pose proof (passed_audits _ [] _ (passed_new _) Hv) as Hp. rewrite app_nil_l, file_records_snd in Hp.
  destruct Hp as [Hg _ (bs & rest & E & Hb & Hr & _) Hd Hn _]. exists fs, bs, rest. split_and!; try done.
  intros Ht Hl Hne Hid S handler w s Hw H0. by apply (recover_files handler fs bs rest w s).
Qed.

(** The auditor's per-ledger totals hold whenever its other checks do: an
    audit is valid exactly when walking the log reports nothing and no account
    ends with more debits than credits, as 64-bit words.  Then each ledger's
    balances add up, modulo 2^64, to what its accounts were created with. *)
Theorem audit_totals_follow d :
  (Valid (Audit d) = true <-> ar_Violations (au_rep (audit_log d)) = [] /\ ~ overdrawn (audit_log d))
  /\ (ar_Violations (au_rep (audit_log d)) = [] -> forall lg,
        u64 (net_of lg (au_balances (audit_log d))) = default 0 (au_injected (audit_log d) !! lg)).
Proof.
  change (ar_Violations (au_rep (audit_log d)) = []) with (quiet (audit_log d)). rewrite Valid_quiet. split.
  - split; [intros H; split; [by apply conservation_mono|by apply conservation_overdrawn]|].
    intros [Hq Ho]. rewrite conservation_follows; [done|by apply quiet_log_balanced|done|].
    intros id b Eb. destruct (decide (b_debits b <= b_credits b)); [done|]. destruct Ho. exists id, b. split; [done|lia].
  - intros Hq. by apply quiet_log_balanced.
Qed.

(** A log of one account. *)
Definition demo_account_log (tail : list byte) : Disk :=
  [(1, frames [mkRecord 1 RecordTypeAccount (EncodeAccountPayload zeroAccount); commit_record 2 1] ++ tail)].

Lemma audit_sound_witness : Valid (Audit (demo_account_log [])) = true
  /\ exists fs bs rest, demo_account_log [] = file_bytes <$> fs /\ records_of fs = concat (batch_list <$> bs) ++ rest.
Proof.
  assert (E : Valid (Audit (demo_account_log [])) = true) by (vm_compute; reflexivity). split; [exact E|].
  destruct (audit_sound (demo_account_log []) E) as (fs & bs & rest & E1 & _ & E2 & _).
  exists fs, bs, rest. split; [exact E1|exact E2].
Defined.

(** Fewer bytes than a header at the end of a segment are not looked at, and
    neither is a batch without its marker: such a log is valid and reports no
    torn tail.  Recovery stops at the same bytes, so it removes the segments
    behind them, whose batches the audit has counted. *)
Theorem audit_passes_stray_bytes :
  let behind := (2, frames [mkRecord 3 RecordTypeCheckpoint [x00]; commit_record 4 1]) in
  let d := demo_account_log [x00] ++ [behind] in
  let r := Audit d in
  let '(w, delivered, _) := Recover (fun r l => (l ++ [r_LSN r], Ok tt)) (Open d 4096) [] in
  Valid r = true /\ ar_TornTail r = None /\ ar_Batches r = 2%nat
  /\ delivered = [1] /\ listSegmentIDs (w_disk w) = [1]
  /\ let open := Audit [(1, frames [mkRecord 1 RecordTypeAccount (EncodeAccountPayload zeroAccount)])] in
     Valid open = true /\ ar_TornTail open = None /\ ar_Batches open = 0%nat.
Proof. vm_compute. split_and!; reflexivity. Qed.
