(* ===== verification/AuditEngine.v ===== *)
(** * The audit of an engine's log

    The auditor shares none of the engine's code: here its balances and holds
    are those of the ledger, and it finds nothing wrong with what an engine
    writes, as long as the amounts have no high word. *)

From S2P Require Import Prelude Core Uint128 Codec Balance Expiry Accounts LedgerSpec AccountsRefine AccountsProps.
From S2P Require Import Transfers TransfersRefine TransfersProps Record Wal Recovery WalProps RecoveryProps.
From S2P Require Import Idempotency IdempotencyProps Engine EngineRefine EngineProps Auditor AuditProps.

(** ** The auditor's maps and the ledger *)

Definition bal_of (a : Account) : bal := mkBal (Lo (a_PostedCredits a)) (Lo (a_PostedDebits a)) (a_Ledger a).

(** The log has no record of an expiry: the auditor keeps the holds [X] that
    the ledger closed as overdue next to the open ones. *)
Record agrees (X : gmap ID Transfer) (L : Ledger) (m : maps) : Prop := {
  ag_balances : forall id, m.1.1 !! id = bal_of <$> l_accounts L !! id;
  ag_pending : m.2 = l_holds L ∪ X;
  ag_words : forall id h, l_holds L !! id = Some h -> Hi (t_Amount h) = 0;
  ag_lapsed : forall id, is_Some (X !! id) -> is_Some (l_transfers L !! id) /\ l_holds L !! id = None;
  ag_ids : forall id, is_Some (m.1.2 !! id) -> is_Some (l_transfers L !! id) }.

Lemma ag_holds X L m id h : agrees X L m -> l_holds L !! id = Some h ->
  m.2 !! id = Some h /\ Hi (t_Amount h) = 0.
Proof. intros Hag E. split; [|by apply (ag_words _ _ _ Hag id)]. rewrite (ag_pending _ _ _ Hag). by apply lookup_union_Some_l. Qed.
(** An open hold is none of the lapsed ones. *)
Lemma ag_apart X L m id h : agrees X L m -> l_holds L !! id = Some h -> X !! id = None.
Proof.
  intros Hag E. destruct (X !! id) eqn:EX; [|done].
  destruct (ag_lapsed _ _ _ Hag id) as [_ ?]; [by eexists|congruence].
Qed.

Lemma u64_val x n : u64 (val x + n) = u64 (Lo x + n).
Proof. unfold u64, val. rewrite <- Z.add_assoc, Z.add_comm, Z_mod_plus_full. done. Qed.

Lemma bal_shift_debit p q a : bal_of (shift_debit p q a) = add_debits p (bal_of a).
Proof. unfold bal_of, shift_debit, add_debits. cbn. f_equal. apply (u64_val (a_PostedDebits a) p). Qed.
Lemma bal_shift_credit p q a : bal_of (shift_credit p q a) = add_credits p (bal_of a).
Proof. unfold bal_of, shift_credit, add_credits. cbn. f_equal. apply (u64_val (a_PostedCredits a) p). Qed.

Lemma add_debits_0 a : amounts_wf a -> add_debits 0 (bal_of a) = bal_of a.
Proof. intros ([H _] & _). unfold add_debits, bal_of. cbn. by rewrite Z.add_0_r, u64_small. Qed.
Lemma add_credits_0 a : amounts_wf a -> add_credits 0 (bal_of a) = bal_of a.
Proof. intros (_ & [H _] & _). unfold add_credits, bal_of. cbn. by rewrite Z.add_0_r, u64_small. Qed.

Lemma alter_agrees (f : Account -> Account) (g : bal -> bal) (k : ID) (A : gmap ID Account) (B : gmap ID bal) :
  (forall a, bal_of (f a) = g (bal_of a)) -> (forall id : ID, B !! id = bal_of <$> A !! id) ->
  forall id : ID, alter g k B !! id = bal_of <$> alter f k A !! id.
Proof.
  intros Hf HB id. rewrite !lookup_alter, !HB. destruct (decide _); [|done].
  destruct (A !! _); [cbn; by rewrite Hf|done].
Qed.
Lemma move_agrees (dr cr : ID) (p q : Z) (A : gmap ID Account) (B : gmap ID bal) : (forall id : ID, B !! id = bal_of <$> A !! id) ->
  forall id : ID, moved p dr cr B !! id = bal_of <$> move dr cr p q A !! id.
Proof.
  intros H. unfold moved, move. apply alter_agrees; [intros; apply bal_shift_credit|].
  apply alter_agrees; [intros; apply bal_shift_debit|done].
Qed.

(** A movement of pending amounts alone. *)
Lemma move_pending_agrees (dr cr : ID) (q : Z) (A : gmap ID Account) (B : gmap ID bal) : dr <> cr -> (forall id a, A !! id = Some a -> amounts_wf a) ->
  (forall id : ID, B !! id = bal_of <$> A !! id) -> forall id : ID, B !! id = bal_of <$> move dr cr 0 q A !! id.
Proof.
  intros Hne Hw H id. rewrite H, lookup_move by done. destruct (A !! id) as [a|] eqn:E; [|by repeat case_decide].
  specialize (Hw id a E). repeat case_decide; cbn; [| |done].
  - by rewrite bal_shift_debit, add_debits_0.
  - by rewrite bal_shift_credit, add_credits_0.
Qed.

(** The holds that an expiry at [c] closes. *)
Definition overdue_holds (c : Z) (L : Ledger) : gmap ID Transfer :=
  filter (fun kv => overdue c kv.2) (l_holds L).

Lemma overdue_lookup c L id : overdue_holds c L !! id
  = l_holds L !! id ≫= (fun h => if decide (overdue c h) then Some h else None).
Proof.
  unfold overdue_holds. rewrite map_lookup_filter. destruct (l_holds L !! id) as [h|]; [|done]. cbn.
  case_decide; [by rewrite option_guard_True|by rewrite option_guard_False].
Qed.

Lemma closed_agrees X c L m : inv L -> holds_recorded L -> agrees X L m ->
  agrees (X ∪ overdue_holds c L) (closed c L) m.
Proof.
  intros HI Hr [Hb Hp Hh Hx Hi]. constructor; [| |intros id h|intros id|done].
  - intros id. rewrite Hb, closed_account. destruct (l_accounts L !! id) as [a|] eqn:E; [|done]. cbn. f_equal.
    unfold release_all. destruct (inv_account _ HI _ _ E) as [_ Ha].
    rewrite bal_shift_debit, bal_shift_credit, add_credits_0, add_debits_0; done.
  - rewrite Hp. apply map_eq. intros id. rewrite !lookup_union, overdue_lookup, closed_hold. specialize (Hx id).
    destruct (l_holds L !! id) as [h|] eqn:E; cbn; [|by destruct (X !! id)].
    destruct (X !! id); [destruct Hx; [by eexists|congruence]|]. by case_decide.
  - rewrite closed_hold. destruct (l_holds L !! id) as [h'|] eqn:E; [|done]. cbn. case_decide; [done|].
    intros [= <-]. by apply (Hh id).
  - rewrite lookup_union, overdue_lookup, closed_hold. specialize (Hx id).
    destruct (X !! id) as [h'|].
    + intros _. destruct Hx as [? ->]; [by eexists|done].
    + destruct (l_holds L !! id) as [h|] eqn:E; cbn; [|by intros [? ?]]. case_decide; [|by intros [? ?]].
      intros _. split; [by apply (Hr id h)|done].
Qed.
Lemma create_agrees X a L B T P : agrees X L (B, T, P) -> l_accounts L !! a_ID a = None ->
  agrees X (spec_create a L) (<[a_ID a := bal_of a]> B, T, P).
Proof.
  intros [Hb Hp Hh Hx Hi] E. constructor; [|done..]. intros id. cbn. rewrite !lookup_insert.
  case_decide; [done|]. apply Hb.
Qed.

(** ** Transfers *)

Definition one_word (t : Transfer) : Prop := Hi (t_Amount t) = 0.

Lemma one_word_amt t : one_word t -> amt t = Lo (t_Amount t).
Proof. unfold one_word, amt, val. intros ->. lia. Qed.

(** What is left of a hold. *)
Lemma less_Lo_of_Z h x : one_word h -> is_u64 (Lo (t_Amount h)) -> 0 <= x <= amt h ->
  less_Lo x h = set_Amount (of_Z (amt h - x)) h /\ (Lo (t_Amount (less_Lo x h)) =? 0) = (amt h =? x)
  /\ Hi (t_Amount (less_Lo x h)) = 0.
Proof.
  intros H0 Hw Hx. rewrite one_word_amt in * by done. unfold less_Lo, of_Z, one_word, is_u64 in *. rewrite H0.
  assert (E : (Lo (t_Amount h) - x) / 2 ^ 64 = 0) by (apply Z.div_small; lia).
  assert (E' : u64 (Lo (t_Amount h) - x) = Lo (t_Amount h) - x) by (apply u64_small; unfold is_u64; lia).
  split_and!; [|cbn; rewrite E'; lia|done]. f_equal. rewrite E. done.
Qed.

Lemma wf_Lo t : wf_transfer t -> is_u64 (Lo (t_Amount t)).
Proof. intros H. apply H. Qed.

(** Another transfer in the history. *)
Lemma ids_after (x : Z) (t : Transfer) (L : Ledger) (T : gmap ID Z) : (forall id, is_Some (T !! id) -> is_Some (l_transfers L !! id)) ->
  (forall id, is_Some (T !! id) -> is_Some (l_transfers (spec_apply x t L) !! id))
  /\ forall (seg : Z) id, is_Some (<[t_ID t := seg]> T !! id) -> is_Some (l_transfers (spec_apply x t L) !! id).
Proof.
  intros H. assert (E : forall id, l_transfers (spec_apply x t L) !! id
    = if decide (t_ID t = id) then Some (recorded t L) else l_transfers L !! id).
  { intros id. unfold spec_apply. destruct (effect x t L) as [[[dr cr] p] q].
    cbn [spec_record spec_move l_transfers]. by rewrite lookup_insert, recorded_id. }
  split; [intros id Hid|intros seg id Hid]; rewrite E; case_decide as Hd; try done; auto.
  rewrite lookup_insert_ne in Hid by done. auto.
Qed.

Section Step.
Context (seg : Z) (X : gmap ID Transfer) (L : Ledger) (B : gmap ID bal) (T : gmap ID Z) (P : gmap ID Transfer).
Context (HI : inv L) (Hag : agrees X L (B, T, P)).

Lemma lapsed_after x t : forall id, is_Some (X !! id) -> l_holds (spec_apply x t L) !! id = None ->
  is_Some (l_transfers (spec_apply x t L) !! id) /\ l_holds (spec_apply x t L) !! id = None.
Proof using Hag.
  intros id Hid E. split; [|done]. destruct (ag_lapsed _ _ _ Hag id Hid) as [Hr _].
  unfold spec_apply. destruct (effect x t L) as [[[dr cr] p] q]. cbn [spec_record spec_move l_transfers].
  rewrite recorded_id, lookup_insert. case_decide; [by eexists|done].
Qed.

Lemma settle_agrees x t : wf_transfer t -> allowed x t L -> one_word t -> is_settlement t = true ->
  exists m', passes seg t (B, T, P) m' /\ agrees X (spec_apply x t L) m'.
Proof using HI Hag.
  intros Hw [Hfl Ha] H1 Hs. unfold is_settlement in Hs. rewrite Hs in Ha. destruct Ha as (h & Eh & _ & Hx).
  destruct (ag_holds _ _ _ _ _ Hag Eh) as [EP H0]. pose proof (ag_apart _ _ _ _ _ Hag Eh) as EX.
  pose proof (lapsed_after x t) as Hlap. pose proof Hag as [Hb Hp Hh Hlx Hi]. cbn [fst snd] in *.
  destruct (inv_hold _ HI _ _ Eh) as [_ [Hwh Hpos Hne _]]. pose proof (one_word_amt h H0) as Eamt.
  pose proof (wf_Lo _ Hwh) as Hlo. pose proof (wf_Lo _ Hw) as Hlt. pose proof (one_word_amt t H1) as Et.
  destruct (ids_after x t L T Hi) as [Hi' _].
  assert (Eho : hold_of t L = h) by (unfold hold_of; by rewrite Eh).
  destruct (isPost t) eqn:Ep.
  - assert (Hset : settles t h x /\ 0 <= x <= amt h).
    { unfold settles. unfold is_u64 in *. rewrite Et in Hx. destruct (Z.ltb_spec 0 (Lo (t_Amount t))).
      - rewrite (proj2 (Z.eqb_neq _ _)) in Hx by lia. cbn in Hx. lia.
      - rewrite (proj2 (Z.eqb_eq _ _)) in Hx by lia. cbn in Hx. lia. }
    destruct Hset as [Hset Hrange]. destruct (less_Lo_of_Z h x H0 Hlo Hrange) as (El & Ez & Hz).
    eexists. split; [by apply (passes_post seg t B T P h x)|].
    unfold spec_apply, effect, holds_after, settle in *. rewrite Ep, Eho, Eh in *. rewrite Ez.
    cbn [spec_record spec_move l_accounts l_holds l_transfers] in *.
    constructor; cbn [fst snd spec_record spec_move l_accounts l_holds l_transfers]; [by apply move_agrees| | | |done].
    + rewrite Hp. destruct (amt h =? x); [by rewrite delete_union, (delete_id X)|by rewrite <- El, insert_union_l].
    + intros id h'. destruct (amt h =? x); [by intros [_ E]%lookup_delete_Some; apply (Hh id)|].
      rewrite <- El. intros [[_ <-]|[_ E]]%lookup_insert_Some; [done|by apply (Hh id)].
    + intros id Hid. apply Hlap; [done|]. destruct (Hlx id Hid) as [_ En].
      assert (t_ID t <> id) by congruence.
      destruct (amt h =? x); [by rewrite lookup_delete_ne|by rewrite lookup_insert_ne].
  - cbn [orb] in Hs. cbn [andb] in Hx. exists (B, T, delete (t_ID t) P). split; [by eapply passes_void|].
    unfold spec_apply, effect, holds_after in *. rewrite Ep, Hs, Eho in *.
    cbn [spec_record spec_move l_accounts l_holds l_transfers] in *.
    constructor; cbn [fst snd spec_record spec_move l_accounts l_holds l_transfers]; [| | | |done].
    + apply move_pending_agrees; [done|intros id a E; by apply (inv_account _ HI _ _ E)|done].
    + by rewrite Hp, delete_union, (delete_id X).
    + intros id h' [_ E]%lookup_delete_Some. by apply (Hh id).
    + intros id Hid. apply Hlap; [done|]. destruct (Hlx id Hid) as [_ En].
      assert (t_ID t <> id) by congruence. by rewrite lookup_delete_ne.
Qed.

Lemma new_agrees x t : wf_transfer t -> allowed x t L -> one_word t -> is_settlement t = false ->
  l_transfers L !! t_ID t = None -> exists m', passes seg t (B, T, P) m' /\ agrees X (spec_apply x t L) m'.
Proof using HI Hag.
  intros Hw [Hfl Ha] H1 Hs HN. unfold is_settlement in Hs. rewrite Hs in Ha.
  destruct Ha as (-> & Hpos & Hne & d & c & Ed & Ec & _ & Ld & Lc & _).
  pose proof (lapsed_after 0 t) as Hlap. pose proof Hag as [Hb Hp Hh Hlx Hi]. cbn [fst snd] in *.
  destruct (ids_after 0 t L T Hi) as [_ Hi'].
  apply orb_false_iff in Hs as [Ep Ev]. pose proof (one_word_amt t H1) as Et.
  assert (Hk : known B t).
  { exists (bal_of d), (bal_of c). rewrite !Hb, Ed, Ec. by split_and!. }
  assert (HT : T !! t_ID t = None).
  { destruct (T !! t_ID t) as [s|] eqn:E; [|done]. destruct (Hi (t_ID t)) as [? ?]; [by rewrite E|congruence]. }
  destruct (isPending t) eqn:Eh.
  - eexists. split; [by apply passes_pending|].
    unfold spec_apply, effect, holds_after in *. rewrite Ep, Ev, Eh in *.
    cbn [spec_record spec_move l_accounts l_holds l_transfers] in *.
    constructor; cbn [fst snd spec_record spec_move l_accounts l_holds l_transfers]; [| | | |by apply Hi'].
    + apply move_pending_agrees; [done|intros id a E; by apply (inv_account _ HI _ _ E)|done].
    + by rewrite Hp, insert_union_l.
    + intros id h' [[_ <-]|[_ E]]%lookup_insert_Some; [done|by apply (Hh id)].
    + intros id Hid. apply Hlap; [done|]. destruct (Hlx id Hid) as [[? ?] En].
      rewrite lookup_insert_ne by congruence. done.
  - eexists. split; [by apply passes_plain|].
    unfold spec_apply, effect, holds_after in *. rewrite Ep, Ev, Eh in *.
    cbn [spec_record spec_move l_accounts l_holds l_transfers] in *.
    constructor; cbn [fst snd spec_record spec_move l_accounts l_holds l_transfers]; [|done|done| |by apply Hi'].
    + rewrite <- Et. by apply move_agrees.
    + intros id Hid. apply Hlap; [done|]. by destruct (Hlx id Hid).
Qed.

Lemma step_agrees x t : wf_transfer t -> allowed x t L -> one_word t ->
  (is_settlement t = false -> l_transfers L !! t_ID t = None) ->
  exists m', passes seg t (B, T, P) m' /\ agrees X (spec_apply x t L) m'.
Proof using HI Hag.
  intros Hw Ha H1 HN. destruct (is_settlement t) eqn:E; [by apply settle_agrees|]. apply new_agrees; auto.
Qed.
End Step.

(** ** The auditor on a record it passes *)

Section Passing.
Context (seg lsn : Z).

Lemma case_passes tr a m' : quiet a -> passes seg tr (maps_of a) m' ->
  exists a', (if isPost tr then audit_post seg lsn tr a
              else if isVoid tr then audit_void seg lsn tr a
              else if isPending tr then (audit_pending seg lsn tr a, true)
              else (audit_plain seg lsn tr a, true)) = (a', true)
    /\ quiet a' /\ maps_of a' = m' /\ au_keys a' = au_keys a /\ au_prevLSN a' = au_prevLSN a
    /\ au_pendingCount a' = au_pendingCount a /\ au_injected a' = au_injected a.
Proof using.
  intros Hq P. inversion P as [B T H pend x Ep EP Hx E1 E2|B T H pend Ep Ev EP E1 E2
    |B T H Ep Ev Eh (d & c & Ed & Ec & Ld & Lc) HT E1 E2|B T H Ep Ev Eh (d & c & Ed & Ec & Ld & Lc) HT E1 E2]; subst.
  - rewrite Ep. unfold audit_post. rewrite EP.
    assert (Hs : exists a', (audit_settle tr pend x a, true) = (a', true) /\ quiet a'
      /\ maps_of a' = (moved x (t_DebitAccountID pend) (t_CreditAccountID pend) (au_balances a), au_transferIDs a,
           if Lo (t_Amount (less_Lo x pend)) =? 0 then delete (t_ID tr) (au_pending a)
           else <[t_ID tr := less_Lo x pend]> (au_pending a))
      /\ au_keys a' = au_keys a /\ au_prevLSN a' = au_prevLSN a /\ au_pendingCount a' = au_pendingCount a
      /\ au_injected a' = au_injected a).
    { eexists. split; [done|]. unfold audit_settle. destruct (Lo _ =? 0); by split_and!. }
    unfold settles in Hx. destruct (0 <? Lo (t_Amount tr)).
    + destruct Hx as [-> Hle]. by rewrite (proj2 (Z.ltb_ge _ _)) by lia.
    + by subst x.
  - rewrite Ep, Ev. unfold audit_void. rewrite EP. eexists. split; [done|]. by split_and!.
  - rewrite Ep, Ev, Eh. unfold audit_pending. rewrite Ed, Ec. cbn [missing audit_ledgers].
    rewrite Ld, Lc, Z.eqb_refl. cbn [negb orb]. rewrite HT. eexists. split; [done|]. by split_and!.
  - rewrite Ep, Ev, Eh. unfold audit_plain. rewrite Ed, Ec. cbn [audit_ledgers].
    rewrite Ld, Lc, Z.eqb_refl. cbn [negb orb au_transferIDs on_balances]. rewrite HT. eexists. split; [done|]. by split_and!.
Qed.

Lemma transfer_passes payload tr a m' : quiet a -> DecodeTransferPayload payload = Ok tr ->
  passes seg tr (maps_of a) m' -> key_fits (au_keys a) tr ->
  let a' := audit_transfer seg lsn payload a in
  quiet a' /\ maps_of a' = m' /\ au_keys a' = keys_with (au_keys a) tr /\ counted a a'.
Proof using.
  intros Hq Hd P Hk. unfold audit_transfer. rewrite Hd.
  destruct (case_passes tr (on_rep count_Transfer a) m' Hq P) as (a1 & -> & Hq1 & Em & Ek & El & Ec & Ei).
  rewrite audit_key_fits by (by rewrite Ek). unfold counted. cbn. rewrite Ek, El, Ec, Ei. by split_and!.
Qed.

(** The checks before the type of a record. *)
Lemma record_head r a : quiet a -> au_prevLSN a < r_LSN r ->
  audit_rec a (seg, r) = (let a := set_prevLSN (r_LSN r) (on_rep count_Record a) in
    if r_Type r =? 1 then audit_transfer seg (r_LSN r) (r_Payload r) a
    else if r_Type r =? 2 then audit_account seg (r_LSN r) (r_Payload r) a
    else if r_Type r =? 4 then audit_commit seg (r_LSN r) (r_Payload r) a
    else if r_Type r =? 3 then set_pendingCount (S (au_pendingCount a)) a
    else violate ViolationUnknownRecord (Some seg) (r_LSN r) a).
Proof using.
  intros Hq Hl. unfold audit_rec, audit_record. cbn [fst snd au_prevLSN on_rep].
  rewrite (proj2 (Z.leb_gt _ _)), andb_false_r by done. done.
Qed.
End Passing.

(** ** Runs *)

(** The events a run submits. *)
Definition events_of (cs : list command) : list Transfer :=
  concat ((fun c => match c with Transfers _ events => events | Accounts _ => [] end) <$> cs).
(** A key names one transfer. *)
Definition keys_distinct (E : list Transfer) : Prop := forall t t', t ∈ E -> t' ∈ E -> no_key t = false ->
  t_IdempotencyKey t = t_IdempotencyKey t' -> t_ID t = t_ID t'.

(** The auditor after [n] records since the last marker, the last numbered
    [lsn], and a ledger [L] that has closed the holds [X] as overdue. *)
Record follows (E : list Transfer) (X : gmap ID Transfer) (L : Ledger) (lsn : Z) (n : nat) (a : auditor) : Prop := {
  fo_quiet : quiet a;
  fo_agrees : agrees X L (maps_of a);
  fo_lsn : au_prevLSN a = lsn;
  fo_count : au_pendingCount a = n;
  fo_keys : forall k id, au_keys a !! k = Some id ->
    exists t, t ∈ E /\ no_key t = false /\ t_IdempotencyKey t = k /\ t_ID t = id }.

Lemma fits_keys E K t t0 : keys_distinct E -> t0 ∈ E -> t_IdempotencyKey t = t_IdempotencyKey t0 -> t_ID t = t_ID t0 ->
  (forall k id, K !! k = Some id -> exists t, t ∈ E /\ no_key t = false /\ t_IdempotencyKey t = k /\ t_ID t = id) ->
  key_fits K t /\ forall k id, keys_with K t !! k = Some id ->
    exists t, t ∈ E /\ no_key t = false /\ t_IdempotencyKey t = k /\ t_ID t = id.
Proof.
  intros HE Ht Ek Ei HK. assert (En : no_key t = no_key t0) by (unfold no_key; by rewrite Ek). split.
  - unfold key_fits. destruct (no_key t) eqn:E0; [by left|right]. intros id Hid.
    destruct (HK _ _ Hid) as (t1 & H1 & Hn1 & Ek1 & <-). rewrite Ei. apply HE; congruence.
  - unfold keys_with. destruct (no_key t) eqn:E0; [done|]. intros k id [[<- <-]|[_ Hk]]%lookup_insert_Some; [|by apply HK].
    exists t0. by split_and!.
Qed.

Lemma transfers_follow E ts : forall X L L' lsn n a l, keys_distinct E -> follows E X L lsn n a -> inv L -> holds_recorded L ->
  spec_runs L ts L' -> Forall (fun t => wf_transfer t /\ one_word t
    /\ exists t0, t0 ∈ E /\ t_IdempotencyKey t = t_IdempotencyKey t0 /\ t_ID t = t_ID t0) ts ->
  0 <= lsn -> lsn + Z.of_nat (length ts) < 2 ^ 64 -> l.*2 = number lsn (transfer_record <$> ts) ->
  follows E X L' (lsn + Z.of_nat (length ts)) (n + length ts) (audits a l).
Proof.
  induction ts as [|t ts IH]; intros X L L' lsn n a l HE Hf HI Hr Hrun Hts H0 Hmax El.
  { apply fmap_nil_inv in El as ->. apply runs_nil_inv in Hrun as ->. cbn. by rewrite Z.add_0_r, Nat.add_0_r. }
  destruct l as [|[seg r] l]; [done|]. cbn [fmap list_fmap number snd] in El. injection El as Er El.
  assert (Er' : mkRecord (u64 (lsn + 1)) RecordTypeTransfer (AppendTransferPayload [] t) = r) by exact (eq_sym Er).
  clear Er. cbn [snd] in Er'.
  apply Forall_cons in Hts as [(Hw & H1 & t0 & Ht0 & Ek & Ei) Hts]. cbn [length] in Hmax.
  inversion Hrun as [|x t' ts' L1 L2 _ Ha Hfit HN Hrun']; subst.
  destruct Hf as [Hq Hag Hl Hc Hk]. subst lsn n.
  destruct (step_agrees seg X L _ _ _ HI Hag x t Hw Ha H1 HN) as (m' & P & Hag').
  destruct (fits_keys E (au_keys a) t t0 HE Ht0 Ek Ei Hk) as [Hfits Hk'].
  set (r := mkRecord (u64 (au_prevLSN a + 1)) RecordTypeTransfer (AppendTransferPayload [] t)) in *.
  assert (Hu : u64 (au_prevLSN a + 1) = au_prevLSN a + 1) by (apply u64_small; unfold is_u64; lia).
  cbn [audits foldl].
  assert (E1 : audit_rec a (seg, r) = audit_transfer seg (r_LSN r) (r_Payload r) (set_prevLSN (r_LSN r) (on_rep count_Record a))).
  { rewrite record_head; [done|done|]. cbn. lia. }
  destruct (transfer_passes seg (r_LSN r) (r_Payload r) t (set_prevLSN (r_LSN r) (on_rep count_Record a)) m')
    as (Hq' & Hm' & Hk1 & _ & Hl1 & Hc1); [done|by apply decode_transfer_record|done|done|].
  assert (Hf' : follows E X (spec_apply x t L) (au_prevLSN a + 1) (S (au_pendingCount a)) (audit_rec a (seg, r))).
  { rewrite E1. constructor; [done|by rewrite Hm'|by rewrite Hl1|by rewrite Hc1|rewrite Hk1; exact Hk']. }
  assert (HI' : inv (spec_apply x t L)).
  { apply inv_apply; try done. apply fresh_of_new; [by destruct Ha|done|done]. }
  specialize (IH _ _ _ _ _ _ l HE Hf' HI' (apply_recorded x t L Hr) Hrun' Hts ltac:(lia) ltac:(lia) El).
  cbn [length]. unfold audits in IH. rewrite Nat2Z.inj_succ.
  replace (au_prevLSN a + Z.succ (Z.of_nat (length ts))) with (au_prevLSN a + 1 + Z.of_nat (length ts)) by lia.
  by rewrite Nat.add_succ_r.
Qed.

(** ** Accounts and markers *)

Definition account_one_word (a : Account) : Prop := Hi (a_PostedDebits a) = 0 /\ Hi (a_PostedCredits a) = 0.

Lemma account_passes seg lsn payload acc a : quiet a -> DecodeAccountPayload payload = Ok acc ->
  Lo (a_PostedDebits acc) <= Lo (a_PostedCredits acc) ->
  let a' := audit_account seg lsn payload a in
  quiet a' /\ au_keys a' = au_keys a /\ au_prevLSN a' = au_prevLSN a /\ au_pendingCount a' = S (au_pendingCount a)
  /\ maps_of a' = (match au_balances a !! a_ID acc with
                   | Some _ => au_balances a
                   | None => <[a_ID acc := bal_of acc]> (au_balances a)
                   end, au_transferIDs a, au_pending a).
Proof.
  intros Hq Hd Hle. unfold audit_account. rewrite Hd. cbn [au_balances on_rep].
  destruct (au_balances a !! a_ID acc); [by split_and!|]. rewrite (proj2 (Z.ltb_ge _ _)) by done. by split_and!.
Qed.

Lemma accounts_follow E X accs : forall m lsn n a l, follows E X (abs m) lsn n a -> good m ->
  Forall (fun acc => wf_account acc /\ account_one_word acc /\ vPD acc <= vPC acc) accs ->
  0 <= lsn -> lsn + Z.of_nat (length accs) < 2 ^ 64 -> l.*2 = number lsn (account_record <$> accs) ->
  follows E X (abs (restore_accounts accs m)) (lsn + Z.of_nat (length accs)) (n + length accs) (audits a l).
Proof.
  induction accs as [|acc accs IH]; intros m lsn n a l Hf Hg Hw H0 Hmax El.
  { apply fmap_nil_inv in El as ->. cbn. by rewrite Z.add_0_r, Nat.add_0_r. }
  destruct l as [|[seg r] l]; [done|]. cbn [fmap list_fmap number snd] in El. injection El as Er El.
  assert (Er' : mkRecord (u64 (lsn + 1)) RecordTypeAccount (AppendAccountPayload [] acc) = r) by exact (eq_sym Er).
  clear Er. apply Forall_cons in Hw as [(Hwa & [H1 H2] & Hle) Hw]. cbn [length] in Hmax.
  destruct Hf as [Hq [Hb Hp Hh Hx Hi] Hl Hc Hk]. subst lsn n r.
  set (r := mkRecord (u64 (au_prevLSN a + 1)) RecordTypeAccount (AppendAccountPayload [] acc)) in *.
  assert (Hu : u64 (au_prevLSN a + 1) = au_prevLSN a + 1) by (apply u64_small; unfold is_u64; lia).
  assert (E1 : audit_rec a (seg, r) = audit_account seg (r_LSN r) (r_Payload r) (set_prevLSN (r_LSN r) (on_rep count_Record a))).
  { rewrite record_head; [done|done|]. cbn. lia. }
  assert (Hle' : Lo (a_PostedDebits acc) <= Lo (a_PostedCredits acc)).
  { unfold vPD, vPC, val in Hle. rewrite H1, H2 in Hle. lia. }
  destruct (account_passes seg (r_LSN r) (r_Payload r) acc (set_prevLSN (r_LSN r) (on_rep count_Record a)))
    as (Hq' & Hk' & Hl' & Hc' & Hm'); [done|by apply decode_account_record|done|].
  pose proof (Create_ok acc m Hg (wf_amounts acc Hwa)) as Cr.
  assert (Hf' : good (Create acc m).1
    /\ follows E X (abs (Create acc m).1) (au_prevLSN a + 1) (S (au_pendingCount a)) (audit_rec a (seg, r))).
  { assert (Ebal : au_balances a !! a_ID acc = bal_of <$> l_accounts (abs m) !! a_ID acc) by apply Hb.
    rewrite E1. destruct (l_accounts (abs m) !! a_ID acc) as [b|] eqn:Eb; cbn [fmap option_fmap option_map] in Ebal.
    - rewrite Cr. split; [done|]. constructor; [done| |by rewrite Hl'|by rewrite Hc'|by rewrite Hk'].
      rewrite Hm'. cbn [au_balances set_prevLSN on_rep]. rewrite Ebal. by constructor.
    - destruct Cr as (m1 & -> & Hg1 & A1). split; [done|]. cbn [fst]. rewrite A1.
      constructor; [done| |by rewrite Hl'|by rewrite Hc'|by rewrite Hk'].
      rewrite Hm'. cbn [au_balances set_prevLSN on_rep]. rewrite Ebal. by apply create_agrees. }
  destruct Hf' as [Hg' Hf']. cbn [restore_accounts foldl audits length].
  specialize (IH _ _ _ _ l Hf' Hg' Hw ltac:(lia) ltac:(lia) El). unfold audits, restore_accounts in IH. rewrite Nat2Z.inj_succ.
  replace (au_prevLSN a + Z.succ (Z.of_nat (length accs))) with (au_prevLSN a + 1 + Z.of_nat (length accs)) by lia.
  by rewrite Nat.add_succ_r.
Qed.

Lemma commit_follows E X L lsn n a seg : follows E X L lsn n a -> 0 <= lsn -> lsn + 1 < 2 ^ 64 -> Z.of_nat n < 2 ^ 32 ->
  follows E X L (lsn + 1) 0 (audit_rec a (seg, commit_record (lsn + 1) n)).
Proof.
  intros [Hq Hag Hl Hc Hk] H0 Hmax Hn. subst lsn n.
  assert (Hu : u64 (au_prevLSN a + 1) = au_prevLSN a + 1) by (apply u64_small; unfold is_u64; lia).
  rewrite record_head; [|done|cbn; lia]. cbn [commit_record r_Type r_LSN Z.eqb RecordTypeBatchCommit Pos.eqb].
  unfold audit_commit. cbn [au_pendingCount on_rep set_prevLSN].
  pose proof (commit_count_record (au_prevLSN a + 1) _ Hn) as Hcc. unfold commit_count in Hcc. rewrite Hcc.
  assert (Hun : u32 (Z.of_nat (au_pendingCount a)) = Z.of_nat (au_pendingCount a)) by (apply Z.mod_small; lia).
  rewrite Hun, Z.eqb_refl. constructor; try done.
Qed.

Lemma closed_follows E X c L lsn n a : inv L -> holds_recorded L -> follows E X L lsn n a ->
  follows E (X ∪ overdue_holds c L) (closed c L) lsn n a.
Proof. intros HI Hr [? ? ? ? ?]. constructor; try done. by apply closed_agrees. Qed.

(** ** Commands *)

Definition small (c : command) : Prop :=
  match c with Transfers _ events => Forall one_word events | Accounts accounts => Forall account_one_word accounts end.

(** The holds that a command closes as overdue, and those of a run. *)
Definition lapses (c : command) (g : Engine) : gmap ID Transfer :=
  match c with
  | Transfers wall _ => overdue_holds (batch_clock wall g) (abs (g_accounts g))
  | Accounts _ => ∅
  end.
Fixpoint lapsed (cs : list command) (g : Engine) : gmap ID Transfer :=
  match cs with
  | [] => ∅
  | c :: cs => lapses c g ∪ lapsed cs (step c g)
  end.

(** A batch and its marker, or nothing. *)
Lemma batch_follows E X L L' lsn a l b : Z.of_nat (length b) < 2 ^ 32 ->
  (b = [] -> follows E X L lsn 0 a -> follows E X L' lsn 0 a) ->
  (forall l1, l1.*2 = number lsn b -> follows E X L' (lsn + Z.of_nat (length b)) (length b) (audits a l1)) ->
  follows E X L lsn 0 a -> 0 <= lsn -> lsn_after lsn (one_batch b) < 2 ^ 64 -> l.*2 = log_of lsn (one_batch b) ->
  follows E X L' (lsn_after lsn (one_batch b)) 0 (audits a l).
Proof.
  intros Hn H0 H1 Hf Hl Hmax El. destruct (decide (b = [])) as [->|Hne].
  { cbn in El. apply fmap_nil_inv in El as ->. unfold lsn_after. cbn. rewrite Z.add_0_r. by apply H0. }
  rewrite one_batch_ne in * by done. cbn [log_of] in El. rewrite app_nil_r in El. unfold batch_records in El.
  assert (Elsn : lsn_after lsn [b] = lsn + Z.of_nat (length b) + 1) by (unfold lsn_after, batch_size; simpl; lia).
  rewrite Elsn in *. apply fmap_app_inv in El as (l1 & l2 & E1 & E2 & ->).
  destruct l2 as [|[seg r] [|]]; try done. injection E2 as E2. cbn in E2. rewrite audits_app. cbn [audits foldl].
  rewrite <- E2. apply commit_follows; [by apply H1|lia..|done].
Qed.

Lemma command_follows E X c g g' b lsn a l : does c g g' b -> small c ->
  Forall (fun x => Z.of_nat (length x) < 2 ^ 32) b ->
  (match c with Transfers _ events => forall t, t ∈ events -> t ∈ E | Accounts accounts => Forall wf_account accounts end) ->
  keys_distinct E -> follows E X (abs (g_accounts g)) lsn 0 a -> 0 <= lsn -> lsn_after lsn b < 2 ^ 63 ->
  l.*2 = log_of lsn b -> follows E (X ∪ lapses c g) (abs (g_accounts g')) (lsn_after lsn b) 0 (audits a l).
Proof.
  intros (Hg & Hr & Hd) Hs Hlen HE Hkd Hf H0 Hmax El. destruct c as [wall events|accs].
  - destruct Hd as (ts & -> & Hrun & Hts).
    set (L0 := closed (batch_clock wall g) (abs (g_accounts g))) in *.
    assert (Hf0 : follows E (X ∪ lapses (Transfers wall events) g) L0 lsn 0 a)
      by (apply closed_follows; [apply Hg|done|done]).
    assert (Hb : Z.of_nat (length (transfer_record <$> ts)) < 2 ^ 32).
    { destruct ts as [|t ts]; [done|]. rewrite one_batch_ne in Hlen by done. by apply Forall_cons in Hlen as [? _]. }
    apply (batch_follows E _ L0); try done; [..|lia].
    + intros ->%fmap_nil_inv _. by apply runs_nil_inv in Hrun as ->.
    + intros l1 El1. rewrite length_fmap in *.
      assert (Hml : lsn + Z.of_nat (length ts) < 2 ^ 63).
      { destruct ts as [|t ts]; [unfold lsn_after in Hmax; simpl in *; lia|]. rewrite one_batch_ne in Hmax by done.
        unfold lsn_after, batch_size in Hmax. cbn [lsum foldr] in Hmax. rewrite length_fmap in Hmax. lia. }
      apply (transfers_follow E ts _ L0 _ lsn 0 a l1); try done; [apply closed_inv, Hg|by apply closed_recorded| |lia].
      eapply Forall_impl; [exact Hts|]. intros t (Hw & t0 & Ht0 & ->). split; [done|].
      cbn in Hs. rewrite Forall_forall in Hs. split; [by apply (Hs t0)|]. exists t0. split; [by apply HE|done].
  - cbn [lapses]. rewrite (right_id_L ∅ (∪) X). destruct Hd as [-> Eg]. rewrite Eg in *. set (accs' := logged (g_accounts g) accs) in *.
    assert (Hb : Z.of_nat (length (account_record <$> accs')) < 2 ^ 32).
    { destruct accs' as [|t ts]; [done|]. rewrite one_batch_ne in Hlen by done. by apply Forall_cons in Hlen as [? _]. }
    apply (batch_follows E X (abs (g_accounts g))); try done; [..|lia].
    + intros ->%fmap_nil_inv. done.
    + intros l1 El1. rewrite length_fmap in *.
      assert (Hml : lsn + Z.of_nat (length accs') < 2 ^ 63).
      { destruct accs' as [|t ts]; [unfold lsn_after in Hmax; simpl in *; lia|]. rewrite one_batch_ne in Hmax by done.
        unfold lsn_after, batch_size in Hmax. cbn [lsum foldr] in Hmax. rewrite length_fmap in Hmax. lia. }
      apply (accounts_follow E X accs' _ lsn 0 a l1); try done; [|lia].
      cbn in Hs. rewrite Forall_forall in HE, Hs |- *. intros acc [Href Hin]%list_elem_of_filter.
      split; [by apply HE|]. split; [by apply Hs|].
      unfold refusal, ValidateAccount in Href. destruct (Balance acc) as [bl|] eqn:Eb; [|done].
      by apply Balance_Ok in Eb as (_ & _ & ?); [|apply wf_amounts, HE].
Qed.

Lemma run_follows E cs : forall X g bs lsn a l, traced cs g bs -> Forall small cs ->
  Forall (fun c => match c with Accounts accounts => Forall wf_account accounts | _ => True end) cs ->
  Forall (fun x => Z.of_nat (length x) < 2 ^ 32) bs -> (forall t, t ∈ events_of cs -> t ∈ E) -> keys_distinct E ->
  follows E X (abs (g_accounts g)) lsn 0 a -> 0 <= lsn -> lsn_after lsn bs < 2 ^ 63 -> l.*2 = log_of lsn bs ->
  follows E (X ∪ lapsed cs g) (abs (g_accounts (run cs g))) (lsn_after lsn bs) 0 (audits a l).
Proof.
  induction cs as [|c cs IH]; intros X g bs lsn a l Htr Hs Hw Hlen HE Hk Hf H0 Hmax El.
  { cbn in Htr. subst bs. cbn in El. apply fmap_nil_inv in El as ->. unfold lsn_after. cbn.
    by rewrite Z.add_0_r, (right_id_L ∅ (∪) X). }
  destruct Htr as (b1 & b2 & -> & Hd & Htr). apply Forall_cons in Hs as [Hsc Hs]. apply Forall_cons in Hw as [Hwc Hw].
  apply Forall_app in Hlen as [Hl1 Hl2]. rewrite lsn_after_app in *. rewrite log_of_app in El.
  apply fmap_app_inv in El as (l1 & l2 & E1 & E2 & ->). rewrite audits_app. cbn [run foldl]. fold (run cs (step c g)).
  pose proof (lsn_after_ge (lsn_after lsn b1) b2). pose proof (lsn_after_ge lsn b1).
  cbn [lapsed]. rewrite (assoc_L (∪) X). apply IH; try done; [by intros t Ht; apply HE, elem_of_app; right| |lia].
  apply (command_follows E X c g (step c g) b1 lsn a l1); try done; [|lia].
  destruct c as [wall events|accs]; [|done]. intros t Ht. apply HE, elem_of_app. by left.
Qed.

Lemma fresh_follows E size n : follows E ∅ (abs (g_accounts (fresh size))) 0 0 (new_auditor n).
Proof.
  constructor; try done. constructor; cbn [maps_of fst snd new_auditor au_balances au_pending au_transferIDs].
  - intros id. cbn. by rewrite lookup_fmap, !lookup_empty.
  - rewrite (right_id_L ∅ (∪)). symmetry. apply map_eq. intros id. cbn. by rewrite lookup_fmap, lookup_empty.
  - intros id h. cbn. by rewrite lookup_fmap, lookup_empty.
  - intros id. rewrite lookup_empty. by intros [? ?].
  - intros id. rewrite lookup_empty. by intros [? ?].
Qed.

(** The files of a log, as the auditor walks them. *)
Lemma holds_files w groups g : holds_frames w groups g -> Forall wf_record (all_records groups g) ->
  exists l, audit_log (w_disk w) = audits (new_auditor (length (w_disk w))) l /\ l.*2 = all_records groups g.
Proof.
  intros Hh Hw. set (fs := ((fun gr => (gr, [])) <$> (groups ++ [(w_currentID w, g)])) : list file).
  assert (Ed : w_disk w = file_bytes <$> fs).
  { rewrite (hf_disk _ _ _ Hh). unfold fs. rewrite <- list_fmap_compose, fmap_app. f_equal.
    - apply list_fmap_ext. intros i [id rs] _. unfold file_bytes, seg_file. cbn. by rewrite app_nil_r.
    - unfold file_bytes. cbn. by rewrite app_nil_r. }
  assert (Er : records_of fs = all_records groups g).
  { unfold records_of, all_records, fs. rewrite <- list_fmap_compose, fmap_app, concat_app. cbn.
    rewrite app_nil_r. done. }
  exists (concat (file_records <$> fs)). split; [|by rewrite file_records_snd].
  unfold audit_log. rewrite Ed at 2. apply audit_files. unfold fs. apply Forall_fmap, Forall_app.
  unfold all_records in Hw. apply Forall_app in Hw as [Hwg Hw]. split.
  - apply Forall_groups in Hwg. eapply Forall_impl; [exact Hwg|]. intros gr H. split; [done|cbn; unfold headerSize; lia].
  - constructor; [|done]. split; [done|cbn; unfold headerSize; lia].
Qed.

(** ** Properties *)

(** C17. The auditor agrees with the engine.  Walking the log that any run of
    batches and account creations wrote, it reports nothing, provided every
    amount of the commands fits in 64 bits and a key names one transfer.  Its
    balances are the low words of the ledger's.  Its pending holds are the
    ledger's open holds and, since the log does not record expiry, those the
    run closed as overdue, none of which is open in the ledger.  The audit is
    then valid exactly when no account's posted debits exceed its posted
    credits, in their low words. *)
Theorem engine_log_audits size C cs : 161 <= size -> C < 2 ^ 63 ->
  Forall (command_ok C) cs -> Forall small cs -> keys_distinct (events_of cs) ->
  let g := run cs (fresh size) in
  let a := audit_log (w_disk (g_wal g)) in
  g_clock g <= C -> CurrentLSN (g_wal g) < 2 ^ 63 ->
  ar_Violations (au_rep a) = []
  /\ (forall id, au_balances a !! id = bal_of <$> l_accounts (abs (g_accounts g)) !! id)
  /\ au_pending a = l_holds (abs (g_accounts g)) ∪ lapsed cs (fresh size)
  /\ (forall id h, lapsed cs (fresh size) !! id = Some h -> l_holds (abs (g_accounts g)) !! id = None)
  /\ (Valid (Audit (w_disk (g_wal g))) = true
      <-> forall id acc, l_accounts (abs (g_accounts g)) !! id = Some acc ->
            Lo (a_PostedDebits acc) <= Lo (a_PostedCredits acc)).
Proof.
  intros Hsize HC Hcs Hsm Hk g a Hcl Hlsn.
  destruct (run_traced NewAccountManager (NewIdempotencyStore 1 1) 0 [] size 0 C Hsize HC cs (fresh size) []
    (fresh_consistent size 0 _ Hsize (settled_new 1 1)) Hcs Hcl)
    as (bs & [_ Hbs Hl _ _ _ (gs & cur & Hh & Ha) _] & _ & Htr). cbn [app] in *. fold g in Hl, Hh.
  unfold CurrentLSN in Hlsn. rewrite Hl in Hlsn. pose proof (log_wf _ _ 0 Hbs) as Hwf. rewrite <- Ha in Hwf.
  destruct (holds_files _ _ _ Hh Hwf) as (l & El & Er). fold a in El.
  assert (Hf : follows (events_of cs) (∅ ∪ lapsed cs (fresh size)) (abs (g_accounts g)) (lsn_after 0 bs) 0 a).
  { rewrite El. apply run_follows; try done; [| |apply fresh_follows|by rewrite Er, Ha].
    - eapply Forall_impl; [exact Hcs|]. intros [|accs]; [done|]. by intros [? _].
    - eapply Forall_impl; [exact Hbs|]. apply client_batch_count. }
  rewrite (left_id_L ∅ (∪)) in Hf. destruct Hf as [Hq [Hb Hho _ Hx _] _ _ _]. split; [done|]. split; [done|]. split; [done|].
  split; [intros id h E; apply Hx; by eexists|].
  rewrite Valid_quiet. fold a. pose proof (quiet_log_balanced _ Hq) as Hbal. fold a in Hbal. split.
  - intros Hv%conservation_overdrawn id acc E. destruct (decide (Lo (a_PostedDebits acc) <= Lo (a_PostedCredits acc))); [done|].
    destruct Hv. exists id, (bal_of acc). specialize (Hb id). rewrite E in Hb. split; [done|]. cbn. lia.
  - intros Hok. rewrite conservation_follows; [done..|]. intros id b E. specialize (Hb id). change ((maps_of a).1.1) with (au_balances a) in Hb. rewrite E in Hb.
    destruct (l_accounts (abs (g_accounts g)) !! id) as [acc|] eqn:Ea; [|done]. injection Hb as ->. by apply (Hok id).
Qed.

Lemma engine_log_audits_witness :
  let g := run demo_run (fresh 4096) in
  (forall id, au_balances (audit_log (w_disk (g_wal g))) !! id = bal_of <$> l_accounts (abs (g_accounts g)) !! id)
  /\ au_pending (audit_log (w_disk (g_wal g))) = l_holds (abs (g_accounts g)) ∪ lapsed demo_run (fresh 4096)
  /\ Valid (Audit (w_disk (g_wal g))) = true.
Proof.
  assert (Hk : Forall (fun t => no_key t = true) (events_of demo_run)) by (repeat constructor).
  assert (H := engine_log_audits 4096 2000 demo_run ltac:(lia) ltac:(lia) (demo_ok 2000 ltac:(lia))
    ltac:(repeat constructor)).
  assert (Hd : keys_distinct (events_of demo_run)).
  { intros t t' Ht _ Hn. rewrite Forall_forall in Hk. rewrite (Hk t Ht) in Hn. discriminate Hn. }
  assert (H1 : g_clock (run demo_run (fresh 4096)) <= 2000) by (vm_compute; discriminate).
  assert (H2 : CurrentLSN (g_wal (run demo_run (fresh 4096))) < 2 ^ 63) by (vm_compute; reflexivity).
  destruct (H Hd H1 H2) as (_ & Hb & Hp & _).
  split; [exact Hb|]. split; [exact Hp|]. vm_compute. reflexivity.
Defined.

(** A hold of 30 with a deadline, and a batch after it: the ledger has no open
    hold left, the auditor still has one pending. *)
Theorem auditor_keeps_lapsed_holds :
  let cs := [Accounts [acct 1 100; acct 2 0]; Transfers 1000 [xfer 11 1 2 30 5 TransferFlagPending];
             Transfers 2000 [xfer 12 1 2 7 0 0]] in
  let g := run cs (fresh 4096) in
  length (map_to_list (l_holds (abs (g_accounts g)))) = 0%nat
  /\ length (map_to_list (lapsed cs (fresh 4096))) = 1%nat
  /\ length (map_to_list (au_pending (audit_log (w_disk (g_wal g))))) = 1%nat.
Proof. vm_compute. split_and!; reflexivity. Qed.

(** The high words are not looked at.  An account of 2^64 units pays 7: the
    ledger's log is reported as overdrawn. *)
Theorem audit_ignores_high_words :
  let rich := set_PostedCredits (mkUint128 0 1) (acct 1 0) in
  let g := run [Accounts [rich; acct 2 0]; Transfers 1000 [xfer 11 1 2 7 0 0]] (fresh 4096) in
  ack_Err <$> (processBatch 1000 [xfer 11 1 2 7 0 0] (run [Accounts [rich; acct 2 0]] (fresh 4096))).2 = [None]
  /\ Valid (Audit (w_disk (g_wal g))) = false.
Proof. vm_compute. split; reflexivity. Qed.

(** Logs that the engine itself writes or cuts, and recovers from, are reported:
    the rest of a log truncated below its checkpoint, and a log to which a second
    start appends the initial accounts again, from LSN 1. *)
Theorem audit_reports_own_logs :
  let w := TruncateBefore 5 (g_wal (run demo_run (fresh 500))) in
  let cfg := mkConfig [acct 1 100] 100 100 None in
  let start w := match NewLedger 0 cfg w with Ok (g, _) => g_wal g | Err _ => w end in
  let w2 := start (Open (w_disk (start (Open [] 4096))) 4096) in
  listSegmentIDs (w_disk w) = [2] /\ Valid (Audit (w_disk w)) = false
  /\ vi_Kind <$> ar_Violations (Audit (w_disk w2)) = [ViolationLSNOrder].
Proof. vm_compute. split_and!; reflexivity. Qed.
