(* ===== verification/DirectSpec.v ===== *)
(** * What direct I/O promises, and what it breaks

    Any sequence of operations gives the results of the buffered log, no write
    is refused by the kernel, and a sync leaves in every file the buffered
    log's bytes, padded with zeros.  Recovery reads such files up to the first
    padding: a direct log that never left a padded segment is recovered whole,
    any other loses the segments that follow, synced or not. *)

From S2P Require Import Prelude Core Crc Record Wal Recovery WalProps RecoveryProps TruncateProps Direct DirectProps Stream StreamProps Auditor.

(** ** Operations *)

Inductive log_op : Type :=
| LogAppend (records : list Record)
| LogSync
| LogRotate
| LogCheckpoint (lsn : Z)
| LogAdvance (atLeast : Z).

(** The operations on the buffered log. *)
Definition log_do (op : log_op) : WM Z :=
  match op with
  | LogAppend records => AppendBatch records
  | LogSync => smodify Sync >> sret 0
  | LogRotate => smodify Rotate >> sret 0
  | LogCheckpoint lsn => AppendCheckpoint lsn >> sret 0
  | LogAdvance lsn => smodify (AdvanceLSNTo lsn) >> sret 0
  end.

(** The results of a sequence of operations; an error does not end it. *)
Fixpoint outcomes {S} (step : log_op -> M S error Z) (ops : list log_op) (s : S) : S * list (result Z error) :=
  match ops with
  | [] => (s, [])
  | op :: ops =>
      let '(s, r) := step op s in
      let '(s, rs) := outcomes step ops s in (s, r :: rs)
  end.

Section Spec.
Context (supported : bool) (alloc : Z -> Z).

Definition direct_do (op : log_op) : M DWAL error Z :=
  match op with
  | LogAppend records => d_AppendBatch supported alloc records
  | LogSync => d_Sync >> sret 0
  | LogRotate => d_Rotate supported alloc >> sret 0
  | LogCheckpoint lsn => d_AppendCheckpoint supported alloc lsn >> sret 0
  | LogAdvance lsn => d_lift (smodify (AdvanceLSNTo lsn)) >> sret 0
  end.

(** Where a direct log starts: an empty directory, or a log just recovered,
    whose last segment is open without direct I/O. *)
Inductive direct_start : DWAL -> WAL -> Prop :=
| start_fresh size directIO :
    direct_start (OpenWithOptions supported alloc [] size directIO) (Open [] size)
| start_recovered w directIO groups g :
    holds_frames w groups g -> direct_start (mkDWAL w directIO None) w.

Lemma sim_sync x w : direct_sim x w -> sim_run d_Sync (smodify Sync) x w.
Proof using.
  intros (P & D & f & c & H). destruct (sim_sync_at _ _ _ _ _ _ H) as (x' & f' & E & H' & _).
  exists x'. split; [done|]. by do 4 eexists.
Qed.

Lemma sim_lsn_eq x w : direct_sim x w -> w_currentLSN (d_log x) = w_currentLSN w.
Proof using. intros (P & D & f & c & []). done. Qed.

Lemma sim_lift_LSN x w (lsn : WAL -> Z) : direct_sim x w -> lsn (d_log x) = lsn w ->
  sim_run (d_lift (smodify (fun w => set_currentLSN (lsn w) w))) (smodify (fun w => set_currentLSN (lsn w) w)) x w.
Proof using.
  intros (P & D & f & c & H) E. eexists. split; [done|]. cbn. rewrite E.
  exists P, D, f, c. by apply sim_set_LSN.
Qed.

Lemma sim_append records x w : direct_sim x w ->
  sim_run (d_AppendBatch supported alloc records) (AppendBatch records) x w.
Proof using.
  intros H. unfold d_AppendBatch, AppendBatch. pose proof (sim_lsn_eq _ _ H) as El.
  destruct records as [|r0 rs0] eqn:Er; [apply sim_get; rewrite El; by apply sim_ret|].
  rewrite <- Er. clear Er r0 rs0. apply sim_get. rewrite El. apply sim_bind; [by apply sim_encode|].
  intros [encBuf frameEnds] x1 w1 H1. apply sim_bind.
  { apply (sim_lift_LSN _ _ (fun w => w_currentLSN w + 1) H1). by rewrite (sim_lsn_eq _ _ H1). }
  intros _ x2 w2 H2. apply sim_get. rewrite (sim_lsn_eq _ _ H2).
  apply sim_bind; [by apply sim_loop|]. intros _ x3 w3 H3. by apply sim_ret.
Qed.

Lemma sim_then {A} (m : M DWAL error A) (n : WM A) (z : Z) x w : sim_run m n x w ->
  sim_run (m >> sret z) (n >> sret z) x w.
Proof using. intros H. apply sim_bind; [done|]. intros. by apply sim_ret. Qed.

Lemma sim_do op x w : direct_sim x w -> sim_run (direct_do op) (log_do op) x w.
Proof using.
  intros H. destruct op; cbn [direct_do log_do]; [by apply sim_append|apply sim_then..].
  - by apply sim_sync.
  - by apply sim_rotate.
  - apply sim_bind; [by apply sim_append|]. intros _ x' w' H'. by apply sim_sync.
  - destruct H as (P & D & f & c & H). unfold sim_run, d_lift, smodify, AdvanceLSNTo.
    rewrite (sim_lsn _ _ _ _ _ _ H). destruct (_ <? _); eexists; (split; [done|]); exists P, D, f, c.
    + by apply sim_set_LSN.
    + by destruct x.
Qed.

Lemma sim_outcomes ops : forall x w, direct_sim x w ->
  exists x', outcomes direct_do ops x = (x', (outcomes log_do ops w).2) /\ direct_sim x' (outcomes log_do ops w).1.
Proof using.
  induction ops as [|op ops IH]; intros x w H; [by exists x|]. cbn [outcomes].
  destruct (sim_do op _ _ H) as (x1 & E & H1). rewrite E. destruct (log_do op w) as [w1 r]. cbn [fst snd] in *.
  destruct (IH _ _ H1) as (x2 & E2 & H2). rewrite E2. destruct (outcomes log_do ops w1) as [w2 rs]. by exists x2.
Qed.

Lemma direct_start_sim x w : direct_start x w -> direct_sim x w.
Proof using.
  intros [size directIO|l directIO groups g H].
  - unfold OpenWithOptions, openSegmentWithOptions, Open. cbn -[DefaultSegmentSize].
    exists [], [], [], []. constructor; cbn -[DefaultSegmentSize]; try done.
    destruct (openDirectFile _ _); cbn; [|done]. by apply (new_buffer_ok _ []).
  - destruct H as [Hd Hi Hc Hs Hm Ho Hb Hf Hy]. exists (seg_file <$> groups), (seg_file <$> groups), (frames g), (frames g).
    rewrite <- seg_ids in Hi. constructor; cbn; try done. apply padded_refl.
Qed.
End Spec.

(** ** The contract of the direct log *)

(** C14. Whatever is appended, synced, rotated or checkpointed, the direct log
    gives the results of the buffered log - so no write is ever refused for its
    alignment - with the same numbering, offsets and durable position.  Its
    closed files hold the buffered log's bytes, possibly followed by zeros up
    to a block boundary; in its current file the bytes reported as synced are
    the buffered log's; and a sync succeeds and makes that true of all bytes. *)
Theorem direct_log_refines supported alloc x w ops : direct_start supported alloc x w ->
  let '(x', results) := outcomes (direct_do supported alloc) ops x in
  let '(w', results') := outcomes log_do ops w in
  results = results'
  /\ w_current (d_log x') = w_current w' /\ w_currentID (d_log x') = w_currentID w'
  /\ w_currentLSN (d_log x') = w_currentLSN w'
  /\ (exists closed closed' file file',
        d_disk x' = closed ++ [(w_currentID w', file)] /\ w_disk w' = closed' ++ [(w_currentID w', file')]
        /\ Forall2 padded closed closed'
        /\ take (Z.to_nat (s_syncedOffset (w_current w'))) file = take (Z.to_nat (s_syncedOffset (w_current w'))) file')
  /\ exists x'', d_Sync x' = (x'', Ok tt) /\ files_padded x'' w'.
Proof.
  intros H%direct_start_sim. destruct (sim_outcomes supported alloc ops _ _ H) as (x' & E & H'). rewrite E.
  destruct (outcomes log_do ops w) as [w' rs]. cbn [fst snd] in *. clear E H.
  destruct H' as (P & D & f & c & H'). split; [done|].
  destruct (sim_sync_at _ _ _ _ _ _ H') as (x'' & f'' & Es & H'' & Hf & _).
  destruct (H') as [Hz Hi Hl Hs Hsi Ho [Hd _] [Hd' _] Hfs Hb].
  split_and!; try done.
  - exists P, D, f, c. split_and!; try done. destruct (d_buf x') as [b|]; cbn [buffer_ok] in Hb; [|by subst f].
    apply Hb.
  - exists x''. split; [done|]. destruct H'' as [_ _ _ _ _ _ [E _] _ _ _]. unfold files_padded. rewrite E, Hd'.
    apply Forall2_app; [done|]. constructor; [by split|done].
Qed.

(** ** Recovery *)

Lemma disk_get_put_ne d id i c : id <> i -> disk_get (disk_put id c d) i = disk_get d i.
Proof.
  intros Hne. induction d as [|[j c'] d IH]; cbn [disk_put disk_get]; [by rewrite (proj2 (Z.eqb_neq id i))|].
  destruct (Z.eqb_spec j id) as [->|Hj]; cbn [disk_get].
  - by rewrite (proj2 (Z.eqb_neq id i)).
  - destruct (id <? j); cbn [disk_get]; [by rewrite (proj2 (Z.eqb_neq id i))|]. by rewrite IH.
Qed.

(** The removed files are gone. *)
Lemma removed_gone ids i : forall d, i ∈ ids -> disk_get (foldl (fun d id => disk_remove id d) d ids) i = None.
Proof.
  assert (Hk : forall d id, disk_get d i = None \/ id = i -> disk_get (disk_remove id d) i = None).
  { intros d id. unfold disk_remove. induction d as [|[j c] d IH]; [done|]. cbn [disk_get]. intros H.
    destruct (decide (j = id)) as [->|Hj].
    - rewrite filter_cons_False by (intros ?; done). apply IH. destruct (Z.eqb_spec id i); tauto.
    - rewrite filter_cons_True by done. cbn [disk_get].
      destruct (Z.eqb_spec j i) as [->|]; [destruct H as [?| ->]; done|]. by apply IH. }
  assert (Hf : forall ids d, disk_get d i = None -> disk_get (foldl (fun d id => disk_remove id d) d ids) i = None).
  { induction ids0 as [|id ids0 IH]; intros d H; [done|]. apply IH, Hk. by left. }
  induction ids as [|id ids IH]; intros d; [by intros ?%elem_of_nil|].
  cbn [foldl]. intros [->|Hi]%elem_of_cons; [apply Hf, Hk; by right|by apply IH].
Qed.

(** A last file with a whole log before it. *)
Lemma recover_exact {S : Type} (handler : Record -> M S error unit) groups id g size s :
  0 < size -> 0 < id -> increasing 0 (groups.*1 ++ [id]) ->
  Forall (fun gr => Forall wf_record gr.2) groups -> Forall wf_record g ->
  exists w', Recover handler (Open (seg_file <$> groups ++ [(id, g)]) size) s
    = (let '(d, p, st) := scan_files (groups ++ [(id, g)]) (mkReplay [] 0) in
       match handle_all (filter_handler 0 handler) d s with
       | (s', Err e) => (Open (seg_file <$> groups ++ [(id, g)]) size, s', Err e)
       | (s', Ok _) => (w', s', Ok tt)
       end)
    /\ w_currentLSN w' = Z.max 0 (rp_highestLSN (scan_files (groups ++ [(id, g)]) (mkReplay [] 0)).2)
    /\ w_currentID w' = id.
Proof.
  intros Hs Hid Hi Hgs Hg.
  assert (Hd : seg_file <$> groups ++ [(id, g)] = (seg_file <$> groups) ++ [(id, frames g ++ [])])
    by (by rewrite fmap_app, app_nil_r).
  destruct (open_disk (seg_file <$> groups ++ [(id, g)]) size) as (E1 & E2 & E3); [|by rewrite Hd; intros [_ ?]%app_eq_nil|done|].
  { rewrite seg_ids, fmap_app. done. }
  assert (Ho : w_disk (Open (seg_file <$> groups ++ [(id, g)]) size) = (seg_file <$> groups) ++ [(id, frames g ++ [])])
    by (by rewrite E1).
  rewrite (recover_run handler groups id g [] _ s Ho) by (done || lia || by left).
  rewrite E1, E2, E3. destruct (scan_files _ _) as [[d p] st]. cbn [snd].
  destruct (openSegment _ _ _) as [disk seg].
  exists (mkWAL disk size seg id (Z.max 0 (rp_highestLSN st))). by split_and!.
Qed.

Lemma open_log supported alloc d size directIO :
  d_log (OpenWithOptions supported alloc d size directIO) = Open d size.
Proof. unfold OpenWithOptions, openSegmentWithOptions, Open. by destruct (openSegment _ _ _). Qed.

(** Zeros after a whole log, whatever follows them. *)
Lemma recover_padded {S : Type} (handler : Record -> M S error unit) groups id g k later size s :
  0 < size -> increasing 0 (groups.*1 ++ id :: later.*1) -> k <> 0%nat ->
  Forall (fun gr => Forall wf_record gr.2) groups -> Forall wf_record g ->
  let '(l, s1, r1) := Recover handler (Open ((seg_file <$> groups) ++ (id, frames g ++ zeros k) :: later) size) s in
  let '(w, s2, r2) := Recover handler (Open (seg_file <$> groups ++ [(id, g)]) size) s in
  s1 = s2 /\ r1 = r2
  /\ (r1 = Ok tt -> w_currentLSN l = w_currentLSN w /\ w_currentID l = w_currentID w
      /\ forall i, i ∈ later.*1 -> disk_get (w_disk l) i = None).
Proof.
  intros Hs Hi Hk Hgs Hg. set (d := _ ++ _ :: later).
  assert (Hid : increasing 0 (groups.*1 ++ [id]) /\ id ∉ later.*1).
  { clear -Hi. revert Hi. generalize 0. induction groups.*1 as [|j l IH]; intros lo; cbn [app increasing].
    - intros [H1 H2]. split; [done|]. intros Hin. destruct (increasing_NoDup _ _ H2) as [_ Hf].
      rewrite Forall_forall in Hf. specialize (Hf id Hin). cbn in Hf. lia.
    - intros [H1 H2]. destruct (IH _ H2). done. }
  destruct Hid as [Hi' Hnew]. pose proof (increasing_lt _ _ _ Hi') as [_ Hpos].
  destruct (open_disk d size) as (E1 & E2 & E3); [|by unfold d; intros [_ ?]%app_eq_nil|done|].
  { unfold d. rewrite fmap_app, seg_ids. done. }
  rewrite (recover_stops handler groups id g (zeros k) later _ s) by
    (done || (rewrite E2; done) || (right; right; left; by exists k) || (by destruct k)).
  destruct (recover_exact handler groups id g size s) as (w' & E & El & Ei); [done..|]. rewrite E. clear E.
  destruct (scan_files _ _) as [[dl p] st]. cbn [snd] in El.
  destruct (handle_all _ dl s) as [s' [u|e]]; [|done].
  rewrite E1, E2, E3. unfold openSegment. cbn [w_currentLSN w_currentID w_disk].
  split_and!; try done. intros _. split_and!; try done. intros i Hin.
  assert (Hne : id <> i) by (by intros ->).
  rewrite disk_get_put_ne by done. by apply removed_gone.
Qed.

(** The segments a restart reads: up to the first whose file is padded. *)
Fixpoint readable (files : Disk) (segs : list (Z * list Record)) : list (Z * list Record) :=
  match files, segs with
  | p :: files, s :: segs => if decide (p.2 = frames s.2) then s :: readable files segs else [s]
  | _, _ => []
  end.

Lemma readable_split files segs : Forall2 padded files (seg_file <$> segs) -> segs <> [] ->
  exists G id h k later, readable files segs = G ++ [(id, h)]
    /\ files = (seg_file <$> G) ++ (id, frames h ++ zeros k) :: later
    /\ (k = 0%nat -> later = []) /\ (exists rest, segs = G ++ (id, h) :: rest).
Proof.
  revert files. induction segs as [|[i h] segs IH]; intros files H Hne; [done|].
  cbn [fmap list_fmap] in H. inversion H as [|[j c] ? files' ? [Hj Hc] H']; simplify_eq/=.
  destruct (decide (c = frames h)) as [->|Hn].
  - destruct (decide (segs = [])) as [->|Hs].
    + inversion H'; subst. exists [], i, h, 0%nat, []. cbn. rewrite app_nil_r. split_and!; try done. by exists [].
    + destruct (IH files' H' Hs) as (G & id & h' & k & later & E & -> & Hk & rest & ->).
      exists ((i, h) :: G), id, h', k, later. rewrite E. split_and!; try done. by exists rest.
  - destruct Hc as [?|Hc]; [done|]. exists [], i, h, (pad_len (length (frames h))), files'.
    split_and!; try done; [by rewrite Hc| |by exists segs].
    intros E. exfalso. apply Hn. rewrite Hc. unfold pad. by rewrite E, app_nil_r.
Qed.

(** C15. A restart of a direct log reads its segments up to the first file that
    ends in padding, which it takes for a torn tail: it hands over what the
    recovery of a buffered log with exactly those segments hands over, and goes
    on in the last of them.  So a direct log whose closed files are unpadded is
    recovered whole; otherwise the later files, synced or not, are not read and
    are removed. *)
Theorem direct_restart_reads supported alloc directIO {S : Type} (handler : Record -> M S error unit) x w groups g s :
  holds_frames w groups g -> Forall wf_record (all_records groups g) -> files_padded x w ->
  let segs := groups ++ [(w_currentID w, g)] in
  let read := readable (d_disk x) segs in
  let '(x', s1, r1) := d_Recover handler (OpenWithOptions supported alloc (d_disk x) (w_segmentSize w) directIO) s in
  let '(w', s2, r2) := Recover handler (Open (seg_file <$> read) (w_segmentSize w)) s in
  s1 = s2 /\ r1 = r2
  /\ (r1 = Ok tt ->
      w_currentLSN (d_log x') = w_currentLSN w' /\ w_currentID (d_log x') = w_currentID w'
      /\ forall id, id ∈ drop (length read) segs.*1 -> disk_get (d_disk x') id = None).
Proof.
  intros H Hwf Hpad segs read.
  assert (Hsegs : Forall2 padded (d_disk x) (seg_file <$> segs)).
  { unfold files_padded in Hpad. rewrite (hf_disk _ _ _ H) in Hpad. unfold segs. by rewrite fmap_app. }
  assert (Hids : (d_disk x).*1 = segs.*1) by (rewrite (padded_ids _ _ Hsegs); apply seg_ids).
  assert (Hinc : increasing 0 segs.*1) by (unfold segs; rewrite fmap_app; apply (hf_ids _ _ _ H)).
  assert (Hw : Forall (fun gr => Forall wf_record gr.2) segs).
  { unfold all_records in Hwf. apply Forall_app in Hwf as [Hg1 Hg2]. apply Forall_app. split; [by apply Forall_groups|by constructor]. }
  assert (Hne : segs <> []) by (unfold segs; intros [_ ?]%app_eq_nil; done).
  destruct (readable_split _ _ Hsegs Hne) as (G & id & h & k & later & Er & Ed & Hk & rest & Es).
  unfold read. rewrite Er. clear read Er.
  assert (Hlater : later.*1 = rest.*1).
  { rewrite Ed, Es, !fmap_app, seg_ids in Hids. cbn [fmap list_fmap fst] in Hids.
    apply app_inv_head in Hids. by injection Hids. }
  assert (Hdrop : drop (length (G ++ [(id, h)])) segs.*1 = rest.*1).
  { rewrite Es. replace (G ++ (id, h) :: rest) with ((G ++ [(id, h)]) ++ rest) by (by rewrite <- app_assoc).
    rewrite fmap_app. apply drop_app_length'. by rewrite length_fmap. }
  rewrite Es in Hw. apply Forall_app in Hw as [HwG [Hwh _]%Forall_cons]. cbn [snd] in Hwh.
  rewrite Hdrop, <- Hlater. unfold d_Recover, d_RecoverFromLSN. rewrite open_log, Ed.
  destruct (decide (k = 0%nat)) as [->|Hk0].
  - rewrite (Hk eq_refl). cbn [zeros replicate]. rewrite app_nil_r.
    replace ((seg_file <$> G) ++ [(id, frames h)]) with (seg_file <$> G ++ [(id, h)]) by (by rewrite fmap_app).
    change (RecoverFromLSN 0 handler) with (Recover handler).
    destruct (Recover handler _ s) as [[l s1] r1]. split_and!; try done. intros _. split_and!; try done.
    by intros i ?%elem_of_nil.
  - change (RecoverFromLSN 0 handler) with (Recover handler).
    pose proof (recover_padded handler G id h k later (w_segmentSize w) s) as Hr.
    destruct (Recover handler (Open (_ ++ _ :: later) _) s) as [[l s1] r1].
    destruct (Recover handler _ s) as [[w' s2] r2]. cbn [d_log d_disk].
    apply Hr; try done; [apply (hf_size _ _ _ H)|]. rewrite Hlater.
    by rewrite Es, fmap_app in Hinc.
Qed.

(** ** Examples *)

Definition demo_alloc (id : Z) : Z := 1000 * id + 7.
Definition demo_ops : list log_op :=
  [LogAppend [demo_record x01]; LogSync; LogAppend [demo_record x02]; LogSync; LogAppend [demo_record x03]; LogSync].

(** Segments of 60 bytes hold one of these batches each. *)
Lemma direct_log_refines_witness :
  direct_start true demo_alloc (OpenWithOptions true demo_alloc [] 60 true) (Open [] 60)
  /\ (let '(x', results) := outcomes (direct_do true demo_alloc) demo_ops (OpenWithOptions true demo_alloc [] 60 true) in
      let '(w', results') := outcomes log_do demo_ops (Open [] 60) in
      results = results' /\ exists x'', d_Sync x' = (x'', Ok tt) /\ files_padded x'' w').
Proof.
  assert (H : direct_start true demo_alloc (OpenWithOptions true demo_alloc [] 60 true) (Open [] 60)) by constructor.
  split; [exact H|]. pose proof (direct_log_refines true demo_alloc _ _ demo_ops H) as Hr.
  destruct (outcomes (direct_do true demo_alloc) demo_ops _) as [x' rs].
  destruct (outcomes log_do demo_ops _) as [w' rs'].
  destruct Hr as (E & _ & _ & _ & _ & Hs). by split.
Defined.

(** Two segments, both padded. *)
Definition demo_groups : list (Z * list Record) := [(1, batch_records 0 [demo_record x01])].
Definition demo_last : list Record := batch_records 2 [demo_record x02].
Definition demo_buffered : WAL := (outcomes log_do (take 4 demo_ops) (Open [] 60)).1.
Definition demo_direct : DWAL :=
  (outcomes (direct_do true demo_alloc) (take 4 demo_ops) (OpenWithOptions true demo_alloc [] 60 true)).1.

Lemma demo_holds : holds_frames demo_buffered demo_groups demo_last.
Proof.
  constructor; [vm_compute; reflexivity|by vm_compute; split_and!|vm_compute; reflexivity|done|vm_compute; reflexivity|vm_compute; reflexivity|..].
  - by vm_compute.
  - constructor; [by vm_compute|constructor].
  - by vm_compute.
Qed.

Lemma demo_padded : files_padded demo_direct demo_buffered.
Proof.
  unfold files_padded. assert (E : d_disk demo_direct = [(1, pad (frames (batch_records 0 [demo_record x01]))); (2, pad (frames demo_last))])
    by (vm_compute; reflexivity).
  rewrite E, (hf_disk _ _ _ demo_holds). repeat constructor; by right.
Qed.

Lemma demo_wf : Forall wf_record (all_records demo_groups demo_last).
Proof. repeat (constructor; [constructor; vm_compute; split; congruence || (intros [=]) || reflexivity|]). constructor. Qed.

(** The restart reads the first segment only. *)
Lemma direct_restart_reads_witness :
  let '(x', s1, r1) := d_Recover collect (OpenWithOptions true demo_alloc (d_disk demo_direct) 60 true) [] in
  s1 = number 0 [demo_record x01] /\ r1 = Ok tt /\ disk_get (d_disk x') 2 = None.
Proof.
  pose proof (direct_restart_reads true demo_alloc true collect demo_direct demo_buffered demo_groups demo_last []
    demo_holds demo_wf demo_padded) as H.
  change (w_segmentSize demo_buffered) with 60 in H.
  change (w_currentID demo_buffered) with 2 in H.
  assert (E : readable (d_disk demo_direct) (demo_groups ++ [(2, demo_last)]) = demo_groups) by (vm_compute; reflexivity).
  cbv zeta in H. rewrite E in H.
  assert (E2 : (let '(_, s2, r2) := Recover collect (Open (seg_file <$> demo_groups) 60) [] in (s2, r2))
    = (number 0 [demo_record x01], Ok tt)) by (vm_compute; reflexivity).
  destruct (d_Recover collect _ []) as [[x' s1] r1]. destruct (Recover collect _ []) as [[w' s2] r2].
  injection E2 as -> ->. destruct H as (-> & -> & H). split_and!; [done..|].
  destruct (H eq_refl) as (_ & _ & Hgone). apply Hgone. cbn. by left.
Defined.

(** ** What goes wrong *)

(** With WAL_DIRECT_IO three batches are appended and synced, each in its own
    segment: every call succeeds.  The segment the recovery opened is buffered,
    the next ones are direct, so the second file is padded when the log rotates
    to the third.  A restart takes the padding for a torn tail: it succeeds, but
    hands over the first two batches only and deletes the file of the third. *)
Theorem direct_restart_loses_synced_batch :
  let w0 := (d_Recover collect (OpenWithOptions true demo_alloc [] 60 true) []).1.1 in
  let '(w1, results) := outcomes (direct_do true demo_alloc) demo_ops w0 in
  let '(w2, delivered, r) := d_Recover collect (OpenWithOptions true demo_alloc (d_disk w1) 60 true) [] in
  results = [Ok 1; Ok 0; Ok 3; Ok 0; Ok 5; Ok 0]
  /\ r = Ok tt /\ delivered = [mkRecord 1 RecordTypeTransfer [x01]; mkRecord 3 RecordTypeTransfer [x02]]
  /\ w_currentLSN (d_log w2) = 4 /\ listSegmentIDs (d_disk w1) = [1; 2; 3] /\ listSegmentIDs (d_disk w2) = [1; 2].
Proof. vm_compute. by split_and!. Qed.

(** A segment whose size is not a whole number of blocks is opened with an
    empty block that stands for its last bytes: the next sync overwrites them
    with zeros.  Only the reopening by the recovery, without direct I/O, keeps
    a ledger from it. *)
Theorem direct_reopen_overwrites :
  let w0 := (outcomes (direct_do true demo_alloc) [LogAppend [demo_record x01]; LogSync]
               (OpenWithOptions false demo_alloc [] 200 true)).1 in
  let w1 := (outcomes (direct_do true demo_alloc) [LogAppend [demo_record x02]; LogSync]
               (OpenWithOptions true demo_alloc (d_disk w0) 200 true)).1 in
  take 47 (default [] (disk_get (d_disk w0) 1)) = take 47 (frames (batch_records 0 [demo_record x01]))
  /\ take 47 (default [] (disk_get (d_disk w1) 1)) = zeros 47.
Proof. vm_compute. by split_and!. Qed.

(** A padded segment that is not the last ends the stream: a follower that has
    received the first batch receives the second and then an error, because the
    log has rotated to the third. *)
Theorem direct_stream_fails :
  let w0 := (d_Recover collect (OpenWithOptions true demo_alloc [] 60 true) []).1.1 in
  let '(w1, _) := outcomes (direct_do true demo_alloc) (take 2 demo_ops) w0 in
  let '(streamed1, sr, e1) := drain 10 (d_log w1) (NewStreamReader 0) in
  let '(w2, _) := outcomes (direct_do true demo_alloc) (drop 2 demo_ops) w1 in
  let '(streamed2, _, e2) := drain 10 (d_log w2) sr in
  r_LSN <$> streamed1 = [1; 2] /\ e1 = None /\ r_LSN <$> streamed2 = [3; 4] /\ e2 = Some ErrCorrupted.
Proof. vm_compute. by split_and!. Qed.

(** The auditor reports the padding of a direct log as corrupt frames. *)
Theorem direct_log_fails_audit :
  let w := (outcomes (direct_do true demo_alloc) (take 2 demo_ops) (OpenWithOptions true demo_alloc [] 60 true)).1 in
  Valid (Audit (d_disk w)) = false.
Proof. vm_compute. reflexivity. Qed.

(** A snapshot's truncation takes a padded segment of less than 4096 bytes for
    one without records: with a snapshot that covers the first batch only, it
    removes the file of the second. *)
Theorem direct_truncate_removes_needed :
  let w0 := (d_Recover collect (OpenWithOptions true demo_alloc [] 60 true) []).1.1 in
  let w1 := (outcomes (direct_do true demo_alloc) (take 5 demo_ops) w0).1 in
  listSegmentIDs (d_disk w1) = [1; 2; 3] /\ listSegmentIDs (w_disk (TruncateBefore 2 (d_log w1))) = [1; 3].
Proof. vm_compute. by split. Qed.
