(* ===== verification/Faults.v ===== *)
(** * Fault injection (internal/wal/fault_injector.go)

    The faults of a disk as operations on the segment files: a bit that flips,
    bytes that are overwritten, and a file that is cut.  A path is the id of
    its segment. *)

From S2P Require Import Prelude Core Record Wal Recovery.

Inductive fault_error : Type :=
| ErrBitIndex (bitIndex : Z)
| ErrOpenSegment
| ErrReadByte (offset : Z)
| ErrWriteBytes (offset : Z)
| ErrTruncate (offset : Z).

(** [File.WriteAt]: a gap behind the end of the file reads as zeros; nothing is
    written for no data. *)
Definition WriteAt (off : nat) (data c : list byte) : list byte :=
  match data with
  | [] => c
  | _ => take off (c ++ zeros (off - length c)) ++ data ++ drop (off + length data) c
  end.

(** [b[0] ^= 1 << bitIndex]. *)
Definition flip (bitIndex : Z) (b : byte) : byte := byte_of_Z (Z.lxor (byte_val b) (Z.shiftl 1 bitIndex)).

Definition FlipBit (path : Z) (byteOffset bitIndex : Z) : M Disk fault_error unit := fun d =>
  if 7 <? bitIndex then (d, Err (ErrBitIndex bitIndex))
  else
    match disk_get d path with
    | None => (d, Err ErrOpenSegment)
    | Some c =>
        if byteOffset <? 0 then (d, Err (ErrReadByte byteOffset))
        else
          match c !! Z.to_nat byteOffset with
          | None => (d, Err (ErrReadByte byteOffset))
          | Some b => (disk_put path (WriteAt (Z.to_nat byteOffset) [flip bitIndex b] c) d, Ok tt)
          end
    end.

Definition CorruptBytes (path : Z) (offset : Z) (corruptData : list byte) : M Disk fault_error unit := fun d =>
  match disk_get d path with
  | None => (d, Err ErrOpenSegment)
  | Some c =>
      if offset <? 0 then (d, Err (ErrWriteBytes offset))
      else (disk_put path (WriteAt (Z.to_nat offset) corruptData c) d, Ok tt)
  end.

(** [os.Truncate] also extends a file, with zeros. *)
Definition TornWrite (path : Z) (cutOffset : Z) : M Disk fault_error unit := fun d =>
  match disk_get d path with
  | None => (d, Err ErrOpenSegment)
  | Some c =>
      if cutOffset <? 0 then (d, Err (ErrTruncate cutOffset))
      else (disk_put path (truncate_file (Z.to_nat cutOffset) c) d, Ok tt)
  end.
