(* ===== verification/FaultProps.v ===== *)
(** * Properties of recovery under injected faults

    A log with one flipped bit: recovery ends before the damaged frame, with
    whole batches, and so does the ledger that restarts from it. *)

From S2P Require Import Prelude Core Crc Record Accounts LedgerSpec AccountsRefine AccountsProps Wal Recovery WalProps RecoveryProps TruncateProps Idempotency Engine EngineRefine EngineProps Auditor Faults.

(** ** A bit *)

Lemma flip_bits n b k : 0 <= n <= 7 -> 0 <= k < 8 ->
  Z.testbit (byte_val (flip n b)) k = xorb (Z.testbit (byte_val b) k) (k =? n).
Proof.
  intros Hn Hk. unfold flip. rewrite byte_val_of_Z. change 256 with (2 ^ 8).
  rewrite Z.mod_pow2_bits_low, Z.lxor_spec, Z.shiftl_1_l, Z.pow2_bits_eqb by lia. by rewrite Z.eqb_sym.
Qed.

Lemma flip_changes n b : 0 <= n <= 7 -> flip n b <> b.
Proof.
  intros Hn E. pose proof (flip_bits n b n Hn ltac:(lia)) as H. rewrite E, Z.eqb_refl in H.
  by destruct (Z.testbit (byte_val b) n).
Qed.

Lemma byte_high_bits b k : 8 <= k -> Z.testbit (byte_val b) k = false.
Proof.
  intros Hk. pose proof (byte_val_range b). rewrite <- (Z.mod_small (byte_val b) (2 ^ 8)) by (cbn; lia).
  apply Z.mod_pow2_bits_high. lia.
Qed.

Lemma flip_flip n b : 0 <= n <= 7 -> flip n (flip n b) = b.
Proof.
  intros Hn. apply byte_val_inj, Z.bits_inj'. intros k Hk.
  destruct (Z.ltb_spec k 8); [|by rewrite !byte_high_bits].
  rewrite !flip_bits by lia. by destruct (Z.testbit _ _), (k =? n).
Qed.

(** ** The files *)

Lemma WriteAt_one off b c : (off < length c)%nat -> WriteAt off [b] c = <[off := b]> c.
Proof.
  intros H. unfold WriteAt. replace (off - length c)%nat with 0%nat by lia. cbn [zeros replicate length app].
  by rewrite app_nil_r, insert_take_drop, Nat.add_1_r by done.
Qed.

Lemma disk_put_mid (x : Disk) id c c' y : Forall (fun i => i < id) x.*1 ->
  disk_put id c' (x ++ (id, c) :: y) = x ++ (id, c') :: y.
Proof.
  induction x as [|[i b] x IH]; cbn [fmap list_fmap app disk_put]; [by rewrite Z.eqb_refl|].
  intros [Hi Hx]%Forall_cons. cbn [fst] in Hi. rewrite (proj2 (Z.eqb_neq _ _)), (proj2 (Z.ltb_ge _ _)) by lia. by rewrite IH.
Qed.

(** The files before a segment, in bytes. *)
Fixpoint bytes_before (d : Disk) (id : Z) : nat :=
  match d with
  | [] => 0
  | (i, c) :: d => if i =? id then 0 else length c + bytes_before d id
  end.

Lemma bytes_before_app x id c y : Forall (fun i => i < id) x.*1 ->
  bytes_before (x ++ (id, c) :: y) id = length (concat x.*2).
Proof.
  induction x as [|[i b] x IH]; cbn [fmap list_fmap app bytes_before]; [by rewrite Z.eqb_refl|].
  intros [Hi Hx]%Forall_cons. cbn [fst] in Hi. rewrite (proj2 (Z.eqb_neq _ _)) by lia. rewrite IH by done.
  cbn [concat snd]. by rewrite length_app.
Qed.

Lemma disk_get_split (d : Disk) lo id c : increasing lo d.*1 -> disk_get d id = Some c ->
  exists x y, d = x ++ (id, c) :: y /\ Forall (fun i => i < id) x.*1.
Proof.
  revert lo. induction d as [|[i b] d IH]; intros lo; [done|]. cbn [fmap list_fmap fst increasing disk_get].
  intros [Hlo Hi]. destruct (Z.eqb_spec i id) as [->|Hne]; [intros [= ->]; by exists [], d|].
  intros Hg. destruct (IH _ Hi Hg) as (x & y & -> & Hx). exists ((i, b) :: x), y. split; [done|].
  cbn [fmap list_fmap fst]. constructor; [|done].
  rewrite fmap_app in Hi. cbn [fmap list_fmap fst] in Hi.
  assert (H : forall lo l, increasing lo (l ++ id :: y.*1) -> lo < id).
  { intros lo' l. revert lo'. induction l as [|j l IHl]; intros lo'; cbn; [tauto|]. intros [? ?%IHl]. lia. }
  by apply (H i x.*1).
Qed.

(** Two whole frames at the front of the same bytes are the same. *)
Lemma frames_inj a : forall b, Forall wf_record a -> Forall wf_record b -> frames a = frames b -> a = b.
Proof.
  assert (Hne : forall r rs, frames (r :: rs) <> []).
  { intros r rs E. apply (f_equal length) in E. rewrite frames_cons, length_app, length_frame in E. cbn in E. lia. }
  induction a as [|r a IH]; intros [|r' b] Ha Hb E; [done|by symmetry in E; apply Hne in E|by apply Hne in E|].
  apply Forall_cons in Ha as [Hr Ha]. apply Forall_cons in Hb as [Hr' Hb]. rewrite !frames_cons in E.
  assert (Hl : length (r_Payload r) = length (r_Payload r')).
  { pose proof (frame_payload_len r (frames a) Hr) as E1. rewrite E, (frame_payload_len r') in E1 by done. lia. }
  apply app_inj_1 in E as [E1 E2]; [|rewrite !length_frame; lia].
  pose proof (DecodeRecord_frame r Hr) as D. rewrite E1, DecodeRecord_frame in D by done. injection D as ->.
  by rewrite (IH b).
Qed.

(** ** Recovery of a damaged log *)

(** A byte of a frame other than those of its length field.  A length field
    says where the next checksum is: with it changed the reader compares other
    bytes. *)
Definition frame_byte (c : list byte) (off : nat) : Prop :=
  exists pre r post, Forall wf_record (pre ++ r :: post) /\ c = frames (pre ++ r :: post)
    /\ (length (frames pre) <= off < length (frames (pre ++ [r])))%nat
    /\ ~ (length (frames pre) + 9 <= off < length (frames pre) + 13)%nat.
Definition checked_byte (d : Disk) (id : Z) (off : nat) : Prop :=
  exists c, disk_get d id = Some c /\ frame_byte c off.

Lemma frames_concat (l : list (Z * list Record)) : concat (seg_file <$> l).*2 = frames (concat l.*2).
Proof. induction l as [|[i rs] l IH]; [done|]. cbn. by rewrite frames_app, <- IH. Qed.

(** The files around a checked byte. *)
Lemma checked_split w groups g id off : holds_frames w groups g -> Forall wf_record (all_records groups g) ->
  checked_byte (w_disk w) id off -> exists A B pre r post,
    groups ++ [(w_currentID w, g)] = A ++ (id, pre ++ r :: post) :: B
    /\ Forall (fun i => i < id) (seg_file <$> A).*1
    /\ (length (frames pre) <= off < length (frames (pre ++ [r])))%nat
    /\ ~ (length (frames pre) + 9 <= off < length (frames pre) + 13)%nat.
Proof.
  intros H Hwf (c & Hc & pre & r & post & Hw & -> & Hoff & Hlen).
  assert (Ed : w_disk w = seg_file <$> (groups ++ [(w_currentID w, g)])) by (rewrite fmap_app; apply H).
  pose proof (hf_ids _ _ _ H) as Hi.
  assert (Hi' : increasing 0 (w_disk w).*1).
  { rewrite Ed, seg_ids, fmap_app. done. }
  destruct (disk_get_split _ _ _ _ Hi' Hc) as (x & y & Exy & Hx). rewrite Ed in Exy.
  apply fmap_app_inv in Exy as (A & B' & -> & EB & EA). symmetry in EB.
  destruct B' as [|[i rs] B]; [done|]. injection EB as -> Ers <-.
  assert (Hrs : Forall wf_record rs).
  { assert (E : all_records groups g = concat (groups ++ [(w_currentID w, g)]).*2).
    { unfold all_records. rewrite fmap_app, concat_app. cbn. by rewrite app_nil_r. }
    rewrite E, EA, fmap_app, concat_app in Hwf. apply Forall_app in Hwf as [_ Hwf]. cbn in Hwf.
    by apply Forall_app in Hwf as [? _]. }
  apply frames_inj in Ers; [|done|done]. subst rs. by exists A, B, pre, r, post.
Qed.

(** What the flip leaves: whole files, one that breaks off, and the rest. *)
Lemma flipped_files w groups g id off bit d' : holds_frames w groups g -> Forall wf_record (all_records groups g) ->
  checked_byte (w_disk w) id off -> 0 <= bit -> FlipBit id (Z.of_nat off) bit (w_disk w) = (d', Ok tt) ->
  exists A B pre r post tail,
    groups ++ [(w_currentID w, g)] = A ++ (id, pre ++ r :: post) :: B
    /\ d' = (seg_file <$> A) ++ (id, frames pre ++ tail) :: (seg_file <$> B)
    /\ tail <> [] /\ torn tail
    /\ bytes_before (w_disk w) id = length (frames (concat A.*2))
    /\ (length (frames pre) <= off < length (frames (pre ++ [r])))%nat.
Proof.
  intros H Hwf Hb Hbit Hf. destruct (checked_split w groups g id off H Hwf Hb) as (A & B & pre & r & post & E & HA & Hoff & Hlen).
  assert (Ed : w_disk w = (seg_file <$> A) ++ (id, frames (pre ++ r :: post)) :: (seg_file <$> B)).
  { change ((id, frames (pre ++ r :: post)) :: (seg_file <$> B)) with (seg_file <$> ((id, pre ++ r :: post) :: B)).
    rewrite <- fmap_app, <- E, fmap_app. apply H. }
  assert (Hr : wf_record r).
  { assert (E' : all_records groups g = concat (groups ++ [(w_currentID w, g)]).*2).
    { unfold all_records. rewrite fmap_app, concat_app. cbn. by rewrite app_nil_r. }
    rewrite E', E, fmap_app, concat_app in Hwf. apply Forall_app in Hwf as [_ Hwf]. cbn in Hwf.
    apply Forall_app in Hwf as [Hwf _]. apply Forall_app in Hwf as [_ Hwf]. by apply Forall_cons in Hwf as [? _]. }
  rewrite frames_app, frames_one, length_app in Hoff.
  set (i := (off - length (frames pre))%nat). assert (Hi : (i < length (frame r))%nat) by lia.
  destruct (lookup_lt_is_Some_2 _ _ Hi) as [a Ha].
  exists A, B, pre, r, post, (<[i := flip bit a]> (frame r) ++ frames post). split; [done|].
  assert (Hbit7 : 0 <= bit <= 7) by (unfold FlipBit in Hf; destruct (Z.ltb_spec 7 bit); [done|lia]).
  split; [|split; [|split; [|split]]].
  - unfold FlipBit in Hf. rewrite (proj2 (Z.ltb_ge _ _)) in Hf by lia. rewrite Ed in Hf.
    assert (Hids : id ∉ (seg_file <$> A).*1).
    { intros Hin. rewrite Forall_forall in HA. specialize (HA _ Hin). lia. }
    rewrite disk_get_in in Hf by done. rewrite (proj2 (Z.ltb_ge _ 0)), Nat2Z.id in Hf by lia.
    rewrite frames_app, frames_cons in Hf. rewrite lookup_app_r, lookup_app_l in Hf by (fold i; lia).
    fold i in Hf. rewrite Ha in Hf. rewrite WriteAt_one in Hf by (rewrite !length_app; lia).
    apply (f_equal fst) in Hf. cbn [fst] in Hf. subst d'. rewrite disk_put_mid by done. do 2 f_equal. f_equal.
    rewrite insert_app_r_alt by lia. fold i. by rewrite insert_app_l.
  - intros [E0 _]%app_eq_nil. apply (f_equal length) in E0. rewrite length_insert in E0. cbn in E0. lia.
  - right. right. right. exists r, i, (flip bit a). split; [done|]. split; [exists a; split; [done|]|split; [lia|by eexists]].
    intros Heq. by apply (flip_changes bit a Hbit7).
  - rewrite Ed, bytes_before_app by done. by rewrite frames_concat.
  - by rewrite frames_app, frames_one, length_app.
Qed.

(** A part of a log hands over its whole batches. *)
Lemma part_delivered {S : Type} (handler : Record -> M S error unit) size bs part s :
  Forall (client_batch size) bs -> lsn_after 0 bs < 2 ^ 63 -> Forall not_commit part ->
  handle_all (filter_handler 0 handler) (deliver (log_of 0 bs ++ part) (mkReplay [] 0)).1 s
  = handle_all handler (delivered 0 bs) s.
Proof.
  intros Hbs Hmax Hpart. rewrite deliver_app, (deliver_log size) by (done || lia). cbn [fst snd].
  rewrite deliver_not_commit by done. cbn [fst snd]. rewrite app_nil_r.
  apply handle_all_filter. by apply delivered_positive.
Qed.

Lemma cut_in_frame pre r post off : wf_record r -> (length (frames pre) <= off < length (frames (pre ++ [r])))%nat ->
  crashed (pre ++ r :: post) off pre (r :: post) (take (off - length (frames pre)) (frame r)).
Proof.
  intros Hr Hoff. rewrite frames_app, frames_one, length_app in Hoff. constructor; [done| | |lia|].
  - rewrite frames_app, frames_cons, take_app_ge, take_app_le by lia. done.
  - right. left. exists r, (drop (off - length (frames pre)) (frame r)). split; [done|]. split; [|by rewrite take_drop].
    intros E0%(f_equal length). rewrite length_drop in E0. change (length (@nil byte)) with 0%nat in E0. lia.
  - intros r' l' [= <- <-]. rewrite frames_app, frames_one, length_app. lia.
Qed.

(** Recovery hands over exactly the batches that end before the damage. *)
Lemma recover_flipped w groups g bs id off bit d' : holds_frames w groups g -> all_records groups g = log_of 0 bs ->
  Forall (client_batch (w_segmentSize w)) bs -> lsn_after 0 bs < 2 ^ 63 ->
  checked_byte (w_disk w) id off -> 0 <= bit -> FlipBit id (Z.of_nat off) bit (w_disk w) = (d', Ok tt) ->
  exists k, (k < length bs)%nat
    /\ (forall j, (j <= length bs)%nat ->
          (length (frames (log_of 0 (take j bs))) <= bytes_before (w_disk w) id + off)%nat <-> (j <= k)%nat)
    /\ (forall S (handler : Record -> M S error unit) s,
          (let '(_, s', r) := Recover handler (Open d' (w_segmentSize w)) s in (s', r))
          = handle_all handler (delivered 0 (take k bs)) s).
Proof.
  intros H Ha Hbs Hmax Hb Hbit Hf. pose proof (log_wf _ _ 0 Hbs) as Hwf. rewrite <- Ha in Hwf.
  destruct (flipped_files w groups g id off bit d' H Hwf Hb Hbit Hf)
    as (A & B & pre & r & post & tail & E & -> & Hne & Ht & Hbb & Hoff).
  assert (Eall : log_of 0 bs = (concat A.*2 ++ pre) ++ r :: post ++ concat B.*2).
  { rewrite <- Ha. transitivity (concat (groups ++ [(w_currentID w, g)]).*2).
    - unfold all_records. rewrite fmap_app, concat_app. cbn. by rewrite app_nil_r.
    - rewrite E, fmap_app, concat_app. cbn. by rewrite <- !app_assoc. }
  assert (Hpre : concat A.*2 ++ pre `prefix_of` log_of 0 bs) by (rewrite Eall; by eexists).
  destruct (log_prefix _ _ _ _ Hbs Hpre) as (k & part & Hk & Hkept & Hpart & Hj).
  pose proof (log_wf _ _ 0 Hbs) as Hw. rewrite Eall in Hw. apply Forall_app in Hw as [Hw Hwr].
  apply Forall_app in Hw as [HwA Hwp]. apply Forall_groups in HwA. apply Forall_cons in Hwr as [Hwr _].
  pose proof (cut_in_frame pre r (post ++ concat B.*2) off Hwr Hoff) as Hc.
  assert (Hjk : forall j, (j <= length bs)%nat ->
    (length (frames (log_of 0 (take j bs))) <= bytes_before (w_disk w) id + off)%nat <-> (j <= k)%nat).
  { intros j Hjl. rewrite <- Hj, Hbb by done. apply (crashed_prefix _ _ _ _ _ _ _ Hc).
    rewrite app_assoc, <- Eall. exists (log_of (lsn_after 0 (take j bs)) (drop j bs)). by rewrite <- log_of_app, take_drop. }
  exists k. split; [|split; [done|]].
  { destruct (decide (k < length bs)%nat) as [|Hge]; [done|].
    pose proof (proj2 (Hjk (length bs) ltac:(lia)) ltac:(lia)) as Hall. rewrite firstn_all, Hbb, Eall in Hall.
    rewrite !frames_app, frames_cons, !length_app in Hall. rewrite frames_app, frames_one, length_app in Hoff. lia. }
  intros S handler s. set (d' := (seg_file <$> A) ++ (id, frames pre ++ tail) :: (seg_file <$> B)).
  assert (Hids : d'.*1 = (groups ++ [(w_currentID w, g)]).*1).
  { unfold d'. rewrite E, !fmap_app, seg_ids. cbn. by rewrite seg_ids. }
  assert (Hi : increasing 0 d'.*1) by (rewrite Hids, fmap_app; apply H).
  destruct (open_disk d' (w_segmentSize w) Hi) as (Ed & E0 & _); [by intros [_ ?]%app_eq_nil|apply H|].
  assert (Hid : 0 < id).
  { destruct (increasing_NoDup _ _ Hi) as [_ Hp]. rewrite Forall_forall in Hp. apply Hp. unfold d'.
    rewrite fmap_app. apply elem_of_app. right. by left. }
  rewrite (recover_stops handler A id pre tail (seg_file <$> B)) by first [done | lia].
  destruct (scan_files_deliver (A ++ [(id, pre)]) (mkReplay [] 0)) as [p Ep]. rewrite Ep.
  rewrite fmap_app, concat_app. cbn [fmap list_fmap concat snd]. rewrite app_nil_r, Hkept.
  rewrite (part_delivered handler (w_segmentSize w)); [|by apply Forall_take| |done].
  2:{ pose proof (lsn_after_ge (lsn_after 0 (take k bs)) (drop k bs)) as Hg. rewrite <- lsn_after_app, take_drop in Hg. lia. }
  destruct (handle_all handler (delivered 0 (take k bs)) s) as [s' [[]|e]]; [|done].
  by destruct (openSegment _ _ _).
Qed.

(** ** The ledger that restarts from a damaged log *)

(** The bytes of all segment files. *)
Definition log_bytes (w : WAL) : nat := length (concat (w_disk w).*2).

Lemma consistent_bytes size now ids0 g bs : consistent size now ids0 g bs ->
  log_bytes (g_wal g) = length (frames (log_of 0 bs)).
Proof.
  intros [_ _ _ _ _ _ (gs & cur & Hh & Ha) _]. cbn [app] in Ha. rewrite <- Ha. unfold log_bytes. rewrite (hf_disk _ _ _ Hh).
  rewrite fmap_app, concat_app, frames_concat. cbn [fmap list_fmap concat snd]. rewrite app_nil_r. unfold all_records.
  by rewrite frames_app.
Qed.

(** Cutting between the batches of commands. *)
Lemma concat_take {A} (bss : list (list A)) k : Forall (fun b => (length b <= 1)%nat) bss -> (k <= length (concat bss))%nat ->
  exists n, concat (take n bss) = take k (concat bss).
Proof.
  revert k. induction bss as [|b bss IH]; intros k H Hk; [exists 0%nat; by destruct k|]. apply Forall_cons in H as [Hb H].
  destruct (decide (k < length b)%nat) as [|Hge]; [exists 0%nat; by replace k with 0%nat by lia|].
  cbn [concat] in *. rewrite length_app in Hk. destruct (IH (k - length b)%nat H ltac:(lia)) as [n E].
  exists (S n). cbn [take concat]. by rewrite E, take_app_ge by lia.
Qed.
Lemma take_concat {A} (bss : list (list A)) n :
  concat (take n bss) = take (length (concat (take n bss))) (concat bss).
Proof. rewrite <- (take_drop n bss) at 3. by rewrite concat_app, take_app_length. Qed.

Lemma log_bytes_mono bs i j : (i <= j)%nat ->
  (length (frames (log_of 0 (take i bs))) <= length (frames (log_of 0 (take j bs))))%nat.
Proof.
  intros H. replace (take i bs) with (take i (take j bs)) by (rewrite take_take; f_equal; lia).
  rewrite <- (take_drop i (take j bs)) at 2. rewrite log_of_app, frames_app, length_app. lia.
Qed.

(** C26. One flipped bit loses what comes after it and nothing else.  Run any
    batches on a new engine and flip a bit of its log, in any segment and any
    frame, except in a length field.  The restart from the damaged files
    succeeds, and the ledger is that of the engine before some command: the
    last one whose log ends before the flipped byte.  No record that was
    altered, no part of a batch and no later batch is applied. *)
Theorem flipped_bit_restores_prefix size C cs now maxSize ttl id off bit d' : 161 <= size -> C < 2 ^ 63 ->
  Forall (command_ok C) cs -> let g := run cs (fresh size) in
  g_clock g <= C -> CurrentLSN (g_wal g) < 2 ^ 63 ->
  checked_byte (w_disk (g_wal g)) id off -> 0 <= bit ->
  FlipBit id (Z.of_nat off) bit (w_disk (g_wal g)) = (d', Ok tt) ->
  exists n g' ids', (n < length cs)%nat
    /\ NewLedger now (mkConfig [] maxSize ttl None) (Open d' size) = Ok (g', ids')
    /\ let p := run (take n cs) (fresh size) in
       abs (CloseExpired (SetClock (g_clock p) (g_accounts g'))) = abs (g_accounts p)
       /\ forall m, let q := run (take m cs) (fresh size) in
          (log_bytes (g_wal q) <= bytes_before (w_disk (g_wal g)) id + off)%nat
          <-> (log_bytes (g_wal q) <= log_bytes (g_wal p))%nat.
Proof.
  intros Hsize HC Hcs g Hcl Hlsn Hb Hbit Hf.
  pose proof (settled_new maxSize ttl) as Hids0. set (ids0 := NewIdempotencyStore maxSize ttl) in *.
  destruct (run_steps (R := eq) NewAccountManager ids0 0 [] size now C Hsize HC cs (fresh size) []
    (fresh_consistent size now ids0 Hsize Hids0) Hcs Hcl) as (bss & Hlen & Hone & Hsteps).
  change (forall n, consistent size now ids0 (run (take n cs) (fresh size)) (concat (take n bss))) in Hsteps.
  pose proof (Hsteps (length cs)) as Hg. rewrite firstn_all, <- Hlen, firstn_all in Hg. fold g in Hg.
  pose proof Hg as [H0 Hbs Hl Hs Hv Hsy (gs & cur & Hh & Ha) _]. rewrite <- Hs in Hbs. unfold CurrentLSN in Hlsn.
  destruct (recover_flipped _ gs cur (concat bss) id off bit d' Hh Ha Hbs ltac:(lia) Hb Hbit Hf) as (k & Hk & Hj & Hr).
  destruct (concat_take bss k Hone ltac:(lia)) as [n En]. pose proof (Hsteps n) as Hp. rewrite En in Hp.
  pose proof Hp as [_ _ _ _ _ _ _ (r & ids & Er & _ & Hrel)].
  specialize (Hr _ (replay_record now) (NewAccountManager, ids0)). rewrite replay_delivered, Er, Hs in Hr.
  destruct (Recover (replay_record now) (Open d' size) (NewAccountManager, ids0)) as [[w' s'] r'] eqn:Erec. injection Hr as -> ->.
  exists n, (NewEventLoop r w'), ids. split.
  { destruct (decide (n < length cs)%nat) as [|Hge]; [done|]. rewrite take_ge in En by lia.
    apply (f_equal length) in En. rewrite length_take in En. lia. }
  split.
  { unfold NewLedger, log_initial. cbn [cfg_InitialAccounts length Nat.eqb negb]. rewrite andb_false_r.
    cbn [cfg_snapshot restore_snapshot cfg_IdempotencyMaxSize cfg_IdempotencyTTL].
    unfold RecoverFromSnapshot. unfold Recover in Erec. fold ids0. by rewrite Erec. }
  intros p. split; [by apply related_closed|]. intros m q.
  pose proof (consistent_bytes _ _ _ _ _ Hp) as Bp. pose proof (consistent_bytes _ _ _ _ _ (Hsteps m)) as Bq.
  fold p in Bp. fold q in Bq. rewrite Bp, Bq, (take_concat bss m).
  assert (Hm : (length (concat (take m bss)) <= length (concat bss))%nat).
  { rewrite <- (take_drop m bss) at 2. rewrite concat_app, length_app. lia. }
  pose proof (proj2 (Hj k ltac:(lia)) ltac:(lia)) as Hkp. split; [|lia].
  intros Hq. apply log_bytes_mono. by apply Hj.
Qed.

(** The log of [demo_run]: two accounts, a hold, a transfer; the late post is
    refused.  A bit of the hold's payload flips. *)
Definition demo_batches : list (list Record) :=
  [account_record <$> [acct 1 100; acct 2 0]; [transfer_record (set_Timestamp 1000 (xfer 10 1 2 5 50 TransferFlagPending))];
   [transfer_record (set_Timestamp 1020 (xfer 11 1 2 7 0 0))]].
Definition demo_damaged : Disk := (FlipBit 1 372 0 (w_disk (g_wal (run demo_run (fresh 4096))))).1.

Lemma demo_checked : checked_byte (w_disk (g_wal (run demo_run (fresh 4096)))) 1 372.
Proof.
  exists (frames (log_of 0 demo_batches)). split; [vm_compute; reflexivity|].
  exists (take 3 (log_of 0 demo_batches)), (default (mkRecord 0 0 []) (log_of 0 demo_batches !! 3%nat)), (drop 4 (log_of 0 demo_batches)).
  split; [repeat constructor; vm_compute; (done || discriminate)|].
  split; [vm_compute; reflexivity|]. split; [split; vm_compute; lia|]. vm_compute. lia.
Qed.

Lemma flipped_bit_restores_prefix_witness :
  exists n g' ids', (n < 4)%nat
    /\ NewLedger 0 (mkConfig [] 100 100 None) (Open demo_damaged 4096) = Ok (g', ids')
    /\ let p := run (take n demo_run) (fresh 4096) in
       abs (CloseExpired (SetClock (g_clock p) (g_accounts g'))) = abs (g_accounts p)
       /\ (319 <= log_bytes (g_wal p) <= 372)%nat.
Proof.
  destruct (flipped_bit_restores_prefix 4096 2000 demo_run 0 100 100 1 372 0 demo_damaged) as (n & g' & ids' & Hn & E & Ha & Hm).
  - lia.
  - lia.
  - apply demo_ok. lia.
  - vm_compute. discriminate.
  - vm_compute. reflexivity.
  - apply demo_checked.
  - lia.
  - vm_compute. reflexivity.
  - exists n, g', ids'. split; [done|]. split; [done|]. split; [done|].
    assert (E1 : log_bytes (g_wal (run (take 1 demo_run) (fresh 4096))) = 319%nat) by (vm_compute; reflexivity).
    assert (E2 : bytes_before (w_disk (g_wal (run demo_run (fresh 4096)))) 1 = 0%nat) by (vm_compute; reflexivity).
    pose proof (proj1 (Hm 1%nat)) as H1. pose proof (proj2 (Hm n)) as H2. rewrite E1, E2 in *. lia.
Defined.

(** ** Other faults *)

(** A second flip of the same bit undoes the first. *)
Theorem flip_twice (d : Disk) lo id off bit d1 : increasing lo d.*1 -> 0 <= bit ->
  FlipBit id off bit d = (d1, Ok tt) -> FlipBit id off bit d1 = (d, Ok tt).
Proof.
  intros Hi Hbit. unfold FlipBit. destruct (Z.ltb_spec 7 bit); [done|].
  destruct (disk_get d id) as [c|] eqn:Eg; [|done]. destruct (Z.ltb_spec off 0); [done|].
  destruct (c !! Z.to_nat off) as [b|] eqn:Eb; [|done]. pose proof (lookup_lt_Some _ _ _ Eb) as Hlt.
  destruct (disk_get_split _ _ _ _ Hi Eg) as (x & y & -> & Hx). rewrite WriteAt_one, disk_put_mid by done.
  intros E%(f_equal fst). cbn [fst] in E. subst d1.
  assert (Hid : id ∉ x.*1).
  { intros Hin. rewrite Forall_forall in Hx. specialize (Hx _ Hin). lia. }
  rewrite disk_get_in, list_lookup_insert_eq by done. rewrite WriteAt_one by (by rewrite length_insert).
  rewrite disk_put_mid, flip_flip, list_insert_insert_eq, list_insert_id by (done || lia). done.
Qed.

(** Cutting the current segment is what a crash does. *)
Theorem torn_write_is_crash w groups g n : holds_frames w groups g -> (n <= length (frames g))%nat ->
  TornWrite (w_currentID w) (Z.of_nat n) (w_disk w) = (crash n w, Ok tt).
Proof.
  intros H Hn. rewrite (crash_holds n w groups g H). pose proof (hf_ids _ _ _ H) as Hi. rewrite <- seg_ids in Hi.
  unfold TornWrite. rewrite (hf_disk _ _ _ H), disk_get_last, disk_put_last by done.
  rewrite (proj2 (Z.ltb_ge _ _)) by lia. rewrite Nat2Z.id. unfold truncate_file.
  replace (n - length (frames g))%nat with 0%nat by lia. by rewrite app_nil_r.
Qed.

(** A segment that is cut between batches goes unnoticed: recovery does not
    compare the sequence numbers of what it reads, so it applies the batches of
    the later segments without those that were lost.  The auditor, which only
    asks that the numbers grow, reports nothing. *)
Definition cut_run : list command :=
  [demo_accounts; Transfers 1000 [xfer 11 1 2 7 0 0]; Transfers 1010 [xfer 12 1 2 8 0 0]; Transfers 1020 [xfer 13 1 2 9 0 0]].

Theorem cut_segment_unnoticed :
  let d := w_disk (g_wal (run cut_run (fresh 400))) in
  let d' := (TornWrite 2 0 d).1 in
  let posted disk := match NewLedger 0 (mkConfig [] 100 100 None) (Open disk 400) with
                     | Ok (g, _) => Some (val (a_PostedDebits (handleRead (idn 1) g).1))
                     | Err _ => None
                     end in
  listSegmentIDs d = [1; 2; 3] /\ posted d = Some 24 /\ posted d' = Some 9 /\ Valid (Audit d') = true.
Proof. vm_compute. repeat split. Qed.
