(* ===== verification/Text.v ===== *)
(** * Text helpers of the API (encoding/hex, strings, strconv)

    What the handlers use of the standard library on byte strings, and the
    conversions of internal/api/rest.go built on it. *)

From S2P Require Import Prelude Core Uint128 Snapshot.

(** ** encoding/hex *)

(** A digit of [hex.EncodeToString] and of the verb [%x]. *)
Definition hex_digit (v : Z) : byte := byte_of_Z (if v <? 10 then 48 + v else 87 + v).
Definition hex_encode (b : list byte) : gostring :=
  concat ((fun x => [hex_digit (byte_val x / 16); hex_digit (byte_val x mod 16)]) <$> b).

(** Both cases are read. *)
Definition hex_value (c : byte) : option Z :=
  let v := byte_val c in
  if (48 <=? v) && (v <=? 57) then Some (v - 48)
  else if (97 <=? v) && (v <=? 102) then Some (v - 87)
  else if (65 <=? v) && (v <=? 70) then Some (v - 55)
  else None.

(** [hex.DecodeString]; [None] is an error: a bad digit, or an odd length. *)
Fixpoint DecodeString (s : gostring) : option (list byte) :=
  match s with
  | [] => Some []
  | [_] => None
  | p :: q :: s => a ← hex_value p; b ← hex_value q; rest ← DecodeString s; Some (byte_of_Z (16 * a + b) :: rest)
  end.

(** ** strings, strconv and copy *)

Definition HasPrefix (p s : gostring) : bool := bool_decide (take (length p) s = p).
Definition TrimPrefix (p s : gostring) : gostring := if HasPrefix p s then drop (length p) s else s.
Definition HasSuffix (p s : gostring) : bool :=
  (length p <=? length s)%nat && bool_decide (drop (length s - length p) s = p).
Definition TrimSuffix (p s : gostring) : gostring := if HasSuffix p s then take (length s - length p) s else s.

(** [strings.TrimRight] of zero bytes. *)
Fixpoint TrimRight_zeros (s : gostring) : gostring :=
  match s with
  | [] => []
  | c :: s => match TrimRight_zeros s with
              | [] => if decide (c = x00) then [] else [c]
              | s' => c :: s'
              end
  end.

Definition Atoi (s : gostring) : option Z := ParseInt s.

(** [copy(a[:], b)] into a zero array of [n] bytes. *)
Definition copy_into (n : nat) (b : list byte) : list byte := take n b ++ zeros (n - length b).

(** ** internal/api/rest.go *)

Definition parseHexID (s : gostring) : option ID :=
  let s := TrimPrefix (gostr "0x") s in
  b ← DecodeString s;
  if negb (length b =? 16)%nat then None else Some (copy_into 16 b).

Definition parseUserData (s : gostring) : list byte :=
  let clean := TrimPrefix (gostr "0x") s in
  let decoded := if (length clean =? 32)%nat then DecodeString clean else None in
  match decoded with
  | Some d => if (length d =? 16)%nat then copy_into 16 d else copy_into 16 s
  | None => copy_into 16 s
  end.

Definition formatUserData (b : list byte) : gostring := if decide (b = zeros 16) then [] else hex_encode b.
