(* ===== verification/Sha256.v ===== *)
(** * SHA-256 (crypto/sha256 of the standard library)

    The hash that turns an idempotency key of any length into 32 bytes, as
    FIPS 180-4 defines it. *)

From S2P Require Import Prelude Core.

Record state8 := mkState8 { h0 : Z; h1 : Z; h2 : Z; h3 : Z; h4 : Z; h5 : Z; h6 : Z; h7 : Z }.

(** The constants of the standard are the first 32 bits of the fractional parts
    of roots of primes, and computed so here. *)
Fixpoint primes_upto (fuel : nat) (z : Z) (found : list Z) : list Z :=
  match fuel with
  | O => found
  | S fuel' =>
      primes_upto fuel' (z + 1)
        (if forallb (fun p => negb (z mod p =? 0)) found then found ++ [z] else found)
  end.
Definition primes64 : list Z := Eval vm_compute in take 64 (primes_upto 320 2 []).

(** The integer cube root below [2 ^ bits]. *)
Fixpoint cube_root (bits : nat) (z root : Z) : Z :=
  match bits with
  | O => root
  | S bits' =>
      let r := root + 2 ^ Z.of_nat bits' in
      cube_root bits' z (if r * r * r <=? z then r else root)
  end.

Definition K256 : list Z := Eval vm_compute in (fun p => u32 (cube_root 36 (Z.shiftl p 96) 0)) <$> primes64.
Definition sqrt_word (k : nat) : Z := u32 (Z.sqrt (Z.shiftl (default 0 (primes64 !! k)) 64)).
Definition init256 : state8 := Eval vm_compute in
  mkState8 (sqrt_word 0) (sqrt_word 1) (sqrt_word 2) (sqrt_word 3)
    (sqrt_word 4) (sqrt_word 5) (sqrt_word 6) (sqrt_word 7).

Definition rotr (n x : Z) : Z := Z.lor (Z.shiftr x n) (u32 (Z.shiftl x (32 - n))).
Definition Ch (x y z : Z) : Z := Z.lxor (Z.land x y) (Z.land (Z.lxor x 0xffffffff) z).
Definition Maj (x y z : Z) : Z := Z.lxor (Z.lxor (Z.land x y) (Z.land x z)) (Z.land y z).
Definition Sigma0 (x : Z) : Z := Z.lxor (Z.lxor (rotr 2 x) (rotr 13 x)) (rotr 22 x).
Definition Sigma1 (x : Z) : Z := Z.lxor (Z.lxor (rotr 6 x) (rotr 11 x)) (rotr 25 x).
Definition sigma0 (x : Z) : Z := Z.lxor (Z.lxor (rotr 7 x) (rotr 18 x)) (Z.shiftr x 3).
Definition sigma1 (x : Z) : Z := Z.lxor (Z.lxor (rotr 17 x) (rotr 19 x)) (Z.shiftr x 10).

(** One bit, zeros and the bit length fill the last block. *)
Definition pad256 (m : list byte) : list byte :=
  let n := Z.of_nat (length m) in
  m ++ [x80] ++ zeros (Z.to_nat ((55 - n) mod 64)) ++ be_bytes 8 (u64 (8 * n)).

Fixpoint chunks {A} (fuel n : nat) (l : list A) : list (list A) :=
  match fuel with
  | O => []
  | S fuel' => match l with [] => [] | _ => take n l :: chunks fuel' n (drop n l) end
  end.

(** The message schedule, the latest word first. *)
Fixpoint extend (n : nat) (ws : list Z) : list Z :=
  match n with
  | O => ws
  | S n' =>
      let at_ i := default 0 (ws !! i) in
      extend n' (u32 (sigma1 (at_ 1%nat) + at_ 6%nat + sigma0 (at_ 14%nat) + at_ 15%nat) :: ws)
  end.
Definition schedule (block : list byte) : list Z := rev (extend 48 (rev (be_val <$> chunks 16 4 block))).

Definition round256 (s : state8) (kw : Z * Z) : state8 :=
  let t1 := h7 s + Sigma1 (h4 s) + Ch (h4 s) (h5 s) (h6 s) + kw.1 + kw.2 in
  let t2 := Sigma0 (h0 s) + Maj (h0 s) (h1 s) (h2 s) in
  mkState8 (u32 (t1 + t2)) (h0 s) (h1 s) (h2 s) (u32 (h3 s + t1)) (h4 s) (h5 s) (h6 s).
Definition add8 (a b : state8) : state8 :=
  mkState8 (u32 (h0 a + h0 b)) (u32 (h1 a + h1 b)) (u32 (h2 a + h2 b)) (u32 (h3 a + h3 b))
    (u32 (h4 a + h4 b)) (u32 (h5 a + h5 b)) (u32 (h6 a + h6 b)) (u32 (h7 a + h7 b)).
Definition compress (s : state8) (block : list byte) : state8 :=
  add8 s (foldl round256 s (zip K256 (schedule block))).

Definition Sum256 (m : list byte) : list byte :=
  let p := pad256 m in
  let s := foldl compress init256 (chunks (length p) 64 p) in
  concat (be_bytes 4 <$> [h0 s; h1 s; h2 s; h3 s; h4 s; h5 s; h6 s; h7 s]).

Lemma length_Sum256 m : length (Sum256 m) = 32%nat.
Proof. done. Qed.

(** The digest of "abc", from the standard. *)
Lemma Sum256_abc : be_val <$> chunks 8 4 (Sum256 (gostr "abc"))
  = [0xba7816bf; 0x8f01cfea; 0x414140de; 0x5dae2223; 0xb00361a3; 0x96177a9c; 0xb410ff61; 0xf20015ad].
Proof. vm_compute. reflexivity. Qed.
Lemma Sum256_empty : be_val <$> chunks 8 4 (Sum256 [])
  = [0xe3b0c442; 0x98fc1c14; 0x9afbf4c8; 0x996fb924; 0x27ae41e4; 0x649b934c; 0xa495991b; 0x7852b855].
Proof. vm_compute. reflexivity. Qed.
