(* ===== verification/Api.v ===== *)
(** * The gRPC service (internal/api/server.go, idempotency.go)

    The handlers over the messages of ledger.proto, whose generated types are
    the records here: a field of type [bytes] or [string] is a list of bytes, a
    message field or array element that may be nil an option.  A handler returns
    [None] when its ledger call does not return, and the node with a response or
    a gRPC status otherwise; the text of a status is left out, except for the
    error a batch result carries. *)

From S2P Require Import Prelude Core Uint128 Balance Engine Requests Text Sha256.

#[export] Instance error_eq_dec : EqDecision error.
Proof. solve_decision. Defined.

(** [errors.Is] against a value: no error of internal/core has an [Is] or
    [Unwrap] method, so it is equality. *)
Definition errors_Is (err target : error) : bool := bool_decide (err = target).

(** google.golang.org/grpc/codes *)
Inductive code : Type :=
| InvalidArgument | NotFound | AlreadyExists | Unavailable | FailedPrecondition | Aborted | Internal.
#[export] Instance code_eq_dec : EqDecision code.
Proof. solve_decision. Defined.

(** ** Idempotency keys (idempotency.go) *)

(** A key of 32 bytes is taken as it is, another is hashed. *)
Definition key_bytes (raw : list byte) : Key :=
  if (length raw =? 32)%nat then copy_into 32 raw else Sum256 raw.

(** The key the interceptor puts into the context, from the values of the
    metadata entry idempotency-key.  Both [md.Get] calls read this entry, since
    Get lowers its argument. *)
Definition IdempotencyUnaryInterceptor (md : option (list (list byte))) : option Key :=
  match md with
  | None => None
  | Some values =>
      let rawKey := match values with v :: _ => v | [] => [] end in
      if bool_decide (rawKey = []) then None else Some (key_bytes rawKey)
  end.

(** The key of a request: its own, or the context's. *)
Definition request_key (ctx : option Key) (raw : list byte) : Key :=
  if (length raw =? 32)%nat then copy_into 32 raw
  else if (0 <? length raw)%nat then Sum256 raw
  else default (zeros 32) ctx.

(** ** Messages *)

Record ProtoTransfer := mkProtoTransfer {
  pt_Id : list byte;
  pt_DebitAccountId : list byte;
  pt_CreditAccountId : list byte;
  pt_Amount : option Uint128;
  pt_IdempotencyKey : list byte;
  pt_CreatedAt : Z;
  pt_Flags : Z;
  pt_Timeout : Z;
  pt_Ledger : Z;
  pt_Code : Z;   (* uint32 *)
  pt_UserData128 : list byte }.

(** CreateTransferRequest has the fields of Transfer but created_at. *)
Abbreviation CreateTransferRequest := ProtoTransfer.

Record CreateAccountRequest := mkCreateAccountRequest {
  ca_Id : list byte;
  ca_Currency : gostring;
  ca_InitialPostedCredits : option Uint128;
  ca_Ledger : Z;
  ca_Code : Z;   (* uint32 *)
  ca_UserData128 : list byte;
  ca_Flags : Z }.

Record ProtoAccount := mkProtoAccount {
  pa_Id : list byte;
  pa_Currency : gostring;
  pa_PostedDebits : Uint128;
  pa_PostedCredits : Uint128;
  pa_PendingDebits : Uint128;
  pa_PendingCredits : Uint128;
  pa_Balance : Uint128;
  pa_AvailableBalance : Uint128;
  pa_Ledger : Z;
  pa_Code : Z;
  pa_UserData128 : list byte;
  pa_Flags : Z }.

(** A positional result: the item, or its error. *)
Abbreviation ItemResult A := (result A error).

(** ** Conversions *)

Definition bytesToID (b : list byte) : option ID :=
  if (length b =? 0)%nat then None
  else if negb (length b =? 16)%nat then None
  else Some (copy_into 16 b).

Definition coreTransferToProto (t : Transfer) : ProtoTransfer :=
  mkProtoTransfer (t_ID t) (t_DebitAccountID t) (t_CreditAccountID t) (Some (t_Amount t)) (t_IdempotencyKey t)
    (t_Timestamp t) (t_Flags t) (t_Timeout t) (t_Ledger t) (t_Code t) (t_UserData128 t).

Definition coreAccountToProto (acc : Account) : result ProtoAccount error :=
  bal <-? Balance acc ;;
  avail <-? AvailableBalance acc ;;
  Ok (mkProtoAccount (a_ID acc) (a_Currency acc) (a_PostedDebits acc) (a_PostedCredits acc) (a_PendingDebits acc)
        (a_PendingCredits acc) bal avail (a_Ledger acc) (a_Code acc) (a_UserData128 acc) (a_Flags acc)).

Definition transferErrorStatus (err : error) : code :=
  if errors_Is err ErrNotLeader then Unavailable
  else if errors_Is err ErrZeroAmount || errors_Is err (ErrSelfTransfer (zeros 16)) then InvalidArgument
  else match err with
       | ErrInvalidTransferFlags _ => InvalidArgument
       | ErrAccountNotFound _ => NotFound
       | ErrTransferNotFound _ => NotFound
       | ErrPendingNotFound _ => NotFound
       | ErrInsufficientFunds _ _ _ => FailedPrecondition
       | ErrOverTransfer _ _ _ => FailedPrecondition
       | ErrLedgerMismatch _ _ _ => InvalidArgument
       | ErrLinkedChainFailed _ _ _ => Aborted
       | ErrLinkedChainOpen _ _ => InvalidArgument
       | ErrDuplicateTransferID _ => AlreadyExists
       | _ => Internal
       end.

(** The account of a request. *)
Definition account_of_request (req : CreateAccountRequest) : result Account code :=
  match bytesToID (ca_Id req) with
  | None => Err InvalidArgument
  | Some accID =>
      let currency := copy_into 4 (ca_Currency req) in
      let postedCredits := default zero128 (ca_InitialPostedCredits req) in
      let userData := copy_into 16 (ca_UserData128 req) in
      Ok (mkAccount accID currency (ca_Ledger req) (u16 (ca_Code req)) (ca_Flags req) userData
            zero128 postedCredits zero128 zero128)
  end.

(** The transfer of a request or of a batch item; its timestamp is left to the
    loop. *)
Definition transfer_of_request (ctx : option Key) (req : CreateTransferRequest) : result Transfer code :=
  match bytesToID (pt_Id req), bytesToID (pt_DebitAccountId req), bytesToID (pt_CreditAccountId req), pt_Amount req with
  | Some trID, Some debitID, Some creditID, Some amount =>
      let key := request_key ctx (pt_IdempotencyKey req) in
      let trUserData := copy_into 16 (pt_UserData128 req) in
      Ok (mkTransfer trID debitID creditID amount key trUserData 0 (pt_Timeout req) (pt_Ledger req)
            (u16 (pt_Code req)) (pt_Flags req))
  | _, _, _, _ => Err InvalidArgument
  end.

(** The items of a batch, up to the first that cannot be converted. *)
Fixpoint items {A B : Type} (f : A -> result B code) (l : list (option A)) : result (list B) code :=
  match l with
  | [] => Ok []
  | None :: _ => Err InvalidArgument
  | Some x :: l => y <-? f x ;; ys <-? items f l ;; Ok (y :: ys)
  end.

(** ** Handlers *)

Section Handlers.
Context (now : Z) (full : bool) (ctx : option Key).

Definition Handler_CreateAccount (req : option CreateAccountRequest) (n : Node) : Node * result ProtoAccount code :=
  match req with
  | None => (n, Err InvalidArgument)
  | Some req =>
      match account_of_request req with
      | Err c => (n, Err c)
      | Ok acc =>
          match Requests.CreateAccount acc n with
          | (n, Err err) =>
              (n, Err (if errors_Is err ErrNotLeader then Unavailable
                       else match err with ErrDuplicateAccountID _ => AlreadyExists | _ => Internal end))
          | (n, Ok created) => (n, map_err (fun _ => Internal) (coreAccountToProto created))
          end
      end
  end.

Definition Handler_GetAccount (id : option (list byte)) (n : Node) : result ProtoAccount code :=
  match id with
  | None => Err InvalidArgument
  | Some id =>
      match bytesToID id with
      | None => Err InvalidArgument
      | Some accID =>
          match Requests.GetAccount accID n with
          | Err (ErrAccountNotFound _) => Err NotFound
          | Err _ => Err Internal
          | Ok acc => map_err (fun _ => Internal) (coreAccountToProto acc)
          end
      end
  end.

Definition Handler_CreateTransfer (req : option CreateTransferRequest) (n : Node)
    : option (Node * result ProtoTransfer code) :=
  match req with
  | None => Some (n, Err InvalidArgument)
  | Some req =>
      match transfer_of_request ctx req with
      | Err c => Some (n, Err c)
      | Ok tr =>
          match Requests.CreateTransfer now full tr n with
          | None => None
          | Some (n, Err err) => Some (n, Err (transferErrorStatus err))
          | Some (n, Ok res) => Some (n, Ok (coreTransferToProto res))
          end
      end
  end.

Definition batch_error (err : error) : code :=
  if errors_Is err ErrNotLeader then Unavailable
  else match err with ErrBatchTooLarge _ _ => InvalidArgument | _ => Internal end.

Definition transfer_result (o : TransferAck) : ItemResult ProtoTransfer :=
  match ack_Err o with
  | Some err => Err err
  | None => Ok (coreTransferToProto (ack_Transfer o))
  end.
Definition account_result (o : Account * option error) : ItemResult ProtoAccount :=
  match o.2 with
  | Some err => Err err
  | None => coreAccountToProto o.1
  end.

Definition Handler_CreateTransfers (req : list (option ProtoTransfer)) (n : Node)
    : option (Node * result (list (ItemResult ProtoTransfer)) code) :=
  if (length req =? 0)%nat then Some (n, Err InvalidArgument)
  else match items (transfer_of_request ctx) req with
       | Err c => Some (n, Err c)
       | Ok batch =>
           match Requests.CreateTransfers now batch n with
           | None => None
           | Some (n, Err err) => Some (n, Err (batch_error err))
           | Some (n, Ok outcomes) => Some (n, Ok (transfer_result <$> outcomes))
           end
       end.

Definition Handler_CreateAccounts (req : list (option CreateAccountRequest)) (n : Node)
    : Node * result (list (ItemResult ProtoAccount)) code :=
  if (length req =? 0)%nat then (n, Err InvalidArgument)
  else match items account_of_request req with
       | Err c => (n, Err c)
       | Ok batch =>
           match Requests.CreateAccounts batch n with
           | (n, Err err) => (n, Err (batch_error err))
           | (n, Ok outcomes) => (n, Ok (account_result <$> outcomes))
           end
       end.

Definition Handler_GetTransfer (id : option (list byte)) (n : Node) : result ProtoTransfer code :=
  match id with
  | None => Err InvalidArgument
  | Some id =>
      match bytesToID id with
      | None => Err InvalidArgument
      | Some trID =>
          match Ledger_GetTransfer trID n with
          | Err (ErrTransferNotFound _) => Err NotFound
          | Err _ => Err Internal
          | Ok tr => Ok (coreTransferToProto tr)
          end
      end
  end.

(** A request of account id, cursor and limit. *)
Definition Handler_GetAccountTransfers (req : option (list byte * list byte * Z)) (n : Node)
    : result (list ProtoTransfer) code :=
  match req with
  | None => Err InvalidArgument
  | Some (accountId, afterId, lim) =>
      match bytesToID accountId with
      | None => Err InvalidArgument
      | Some accID =>
          match if (0 <? length afterId)%nat then bytesToID afterId else Some (zeros 16) with
          | None => Err InvalidArgument
          | Some afterID =>
              let limit := if lim <=? 0 then 50 else lim in
              Ok (coreTransferToProto <$> GetAccountTransfers accID afterID limit n)
          end
      end
  end.
End Handlers.
