(* ===== verification/Rest.v ===== *)
(** * The REST service (internal/api/rest.go)

    A request is its method, path, the header and query values the handlers
    read, and what encoding/json makes of its body for the type a handler
    decodes into: nothing when that fails.  A response is its status and its
    payload; the text of an error is left out, except for the error an item of a
    batch carries.  The mux redirects a path that is not clean: paths here are. *)

From S2P Require Import Prelude Core Uint128 Balance Engine Checkpoint Requests Text Sha256 Api.

(** ** Requests *)

Record createAccountReq := mkCreateAccountReq {
  qa_ID : gostring;
  qa_Currency : gostring;
  qa_InitialCredits : gostring;
  qa_Ledger : Z;
  qa_Code : Z;   (* uint16 *)
  qa_UserData128 : gostring;
  qa_Flags : Z }.

Record createTransferReq := mkCreateTransferReq {
  qt_ID : gostring;
  qt_DebitAccountID : gostring;
  qt_CreditAccountID : gostring;
  qt_Amount : gostring;
  qt_IdempotencyKey : gostring;
  qt_Flags : Z;
  qt_Timeout : Z;
  qt_Ledger : Z;
  qt_Code : Z;   (* uint16 *)
  qt_UserData128 : gostring }.

Inductive Body : Type :=
| BodyInvalid
| BodyAccount (req : createAccountReq)
| BodyTransfer (req : createTransferReq)
| BodyTransfers (reqs : list createTransferReq)
| BodyAccounts (reqs : list createAccountReq).

Inductive Method : Type := MethodGet | MethodPost | MethodOther.
#[export] Instance Method_eq_dec : EqDecision Method.
Proof. solve_decision. Defined.

(** Header and query values are empty when absent. *)
Record HTTPRequest := mkHTTPRequest {
  hr_Method : Method;
  hr_Path : gostring;
  hr_IdempotencyKey : gostring;
  hr_after : gostring;
  hr_limit : gostring;
  hr_Body : Body }.

(** ** Responses *)

Record accountResp := mkAccountResp {
  ra_ID : gostring;
  ra_Currency : gostring;
  ra_PostedDebits : gostring;
  ra_PostedCredits : gostring;
  ra_PendingDebits : gostring;
  ra_PendingCredits : gostring;
  ra_Balance : gostring;
  ra_AvailableBalance : gostring;
  ra_Ledger : Z;
  ra_Code : Z;
  ra_UserData128 : gostring;
  ra_Flags : Z }.

Record transferResp := mkTransferResp {
  rt_ID : gostring;
  rt_DebitAccountID : gostring;
  rt_CreditAccountID : gostring;
  rt_Amount : gostring;
  rt_IdempotencyKey : gostring;
  rt_Flags : Z;
  rt_Timeout : Z;
  rt_CreatedAt : Z;
  rt_Ledger : Z;
  rt_Code : Z;
  rt_UserData128 : gostring }.

Record transferResultJSON := mkTransferResult {
  tr_Index : nat; tr_OK : bool; tr_Transfer : option transferResp; tr_Error : option error }.
Record accountResultJSON := mkAccountResult {
  ar_Index : nat; ar_OK : bool; ar_Account : option accountResp; ar_Error : option error }.

Inductive Payload : Type :=
| PError
| PStatus (s : gostring)
| PAccount (r : accountResp)
| PTransfer (r : transferResp)
| PTransfers (rs : list transferResp)
| PTransferResults (rs : list transferResultJSON)
| PAccountResults (rs : list accountResultJSON).

(** net/http status codes. *)
Definition StatusOK : Z := 200.
Definition StatusCreated : Z := 201.
Definition StatusBadRequest : Z := 400.
Definition StatusNotFound : Z := 404.
Definition StatusMethodNotAllowed : Z := 405.
Definition StatusConflict : Z := 409.
Definition StatusUnprocessableEntity : Z := 422.
Definition StatusInternalServerError : Z := 500.
Definition StatusServiceUnavailable : Z := 503.

Abbreviation Response := (Z * Payload)%type.
Definition writeJSON (status : Z) (p : Payload) : Response := (status, p).
Definition writeError (status : Z) : Response := writeJSON status PError.

Definition formatTransferResp (res : Transfer) : transferResp :=
  mkTransferResp (hex_encode (t_ID res)) (hex_encode (t_DebitAccountID res)) (hex_encode (t_CreditAccountID res))
    (Uint128.String (t_Amount res)) (hex_encode (t_IdempotencyKey res)) (t_Flags res) (t_Timeout res)
    (t_Timestamp res) (t_Ledger res) (t_Code res) (formatUserData (t_UserData128 res)).

Definition formatAccountResp (acc : Account) : result accountResp error :=
  bal <-? Balance acc ;;
  avail <-? AvailableBalance acc ;;
  Ok (mkAccountResp (hex_encode (a_ID acc)) (TrimRight_zeros (a_Currency acc))
        (Uint128.String (a_PostedDebits acc)) (Uint128.String (a_PostedCredits acc))
        (Uint128.String (a_PendingDebits acc)) (Uint128.String (a_PendingCredits acc))
        (Uint128.String bal) (Uint128.String avail) (a_Ledger acc) (a_Code acc)
        (formatUserData (a_UserData128 acc)) (a_Flags acc)).

(** ** Conversions *)

Definition user_data (s : gostring) : list byte := if decide (s = []) then zeros 16 else parseUserData s.
(** An absent key stays zero. *)
Definition header_key (s : gostring) : Key := if decide (s = []) then zeros 32 else Sum256 s.

Definition parse_account (req : createAccountReq) : option Account :=
  accID ← parseHexID (qa_ID req);
  let curr := copy_into 4 (qa_Currency req) in
  initialCredits ← (if decide (qa_InitialCredits req = []) then Some zero128
                    else match FromString (qa_InitialCredits req) with Ok ic => Some ic | Err _ => None end);
  Some (mkAccount accID curr (qa_Ledger req) (qa_Code req) (qa_Flags req) (user_data (qa_UserData128 req))
          zero128 initialCredits zero128 zero128).

(** The single endpoint: no amount is 0, and the header's key goes first. *)
Definition parse_single (header : gostring) (req : createTransferReq) : option Transfer :=
  trID ← parseHexID (qt_ID req);
  debitID ← parseHexID (qt_DebitAccountID req);
  creditID ← parseHexID (qt_CreditAccountID req);
  amount ← (if decide (qt_Amount req = []) then Some zero128
            else match FromString (qt_Amount req) with Ok a => Some a | Err _ => None end);
  let idempHeader := if decide (header = []) then qt_IdempotencyKey req else header in
  Some (mkTransfer trID debitID creditID amount (header_key idempHeader) (user_data (qt_UserData128 req)) 0
          (qt_Timeout req) (qt_Ledger req) (qt_Code req) (qt_Flags req)).

Definition parseTransferReq (req : createTransferReq) : option Transfer :=
  trID ← parseHexID (qt_ID req);
  debitID ← parseHexID (qt_DebitAccountID req);
  creditID ← parseHexID (qt_CreditAccountID req);
  amount ← (match FromString (qt_Amount req) with Ok a => Some a | Err _ => None end);
  Some (mkTransfer trID debitID creditID amount (header_key (qt_IdempotencyKey req)) (user_data (qt_UserData128 req)) 0
          (qt_Timeout req) (qt_Ledger req) (qt_Code req) (qt_Flags req)).

(** The status of a failed transfer. *)
Definition transfer_status (err : error) : Z :=
  if errors_Is err ErrNotLeader then StatusServiceUnavailable
  else if errors_Is err ErrZeroAmount || errors_Is err (ErrSelfTransfer (zeros 16)) then StatusBadRequest
  else match err with
       | ErrPendingNotFound _ => StatusNotFound
       | ErrInvalidTransferFlags _ => StatusBadRequest
       | ErrOverTransfer _ _ _ => StatusUnprocessableEntity
       | ErrAccountNotFound _ => StatusNotFound
       | ErrInsufficientFunds _ _ _ => StatusUnprocessableEntity
       | ErrLedgerMismatch _ _ _ => StatusBadRequest
       | ErrLinkedChainFailed _ _ _ => StatusUnprocessableEntity
       | ErrLinkedChainOpen _ _ => StatusBadRequest
       | ErrDuplicateTransferID _ => StatusConflict
       | _ => StatusInternalServerError
       end.

Definition account_status (err : error) : Z :=
  if errors_Is err ErrNotLeader then StatusServiceUnavailable
  else match err with ErrDuplicateAccountID _ => StatusConflict | _ => StatusInternalServerError end.
Definition batch_status (err : error) : Z :=
  if errors_Is err ErrNotLeader then StatusServiceUnavailable else StatusInternalServerError.

(** ** Handlers *)

Definition handleHealthz : Response := writeJSON StatusOK (PStatus (gostr "UP")).

(** [readiness] is the answer of the override, when there is one. *)
Definition handleReadyz (cp : Checkpointer) (readiness : option bool) : Response :=
  let ready := default (Ready cp) readiness in
  if (ready : bool) then writeJSON StatusOK (PStatus (gostr "READY"))
  else writeJSON StatusServiceUnavailable (PStatus (gostr "NOT_READY")).

Definition handleAccounts (r : HTTPRequest) (n : Node) : Node * Response :=
  if negb (bool_decide (hr_Method r = MethodPost)) then (n, writeError StatusMethodNotAllowed)
  else match hr_Body r with
       | BodyAccount req =>
           match parse_account req with
           | None => (n, writeError StatusBadRequest)
           | Some acc =>
               match Requests.CreateAccount acc n with
               | (n, Err err) => (n, writeError (account_status err))
               | (n, Ok created) =>
                   match formatAccountResp created with
                   | Err _ => (n, writeError StatusInternalServerError)
                   | Ok resp => (n, writeJSON StatusCreated (PAccount resp))
                   end
               end
           end
       | _ => (n, writeError StatusBadRequest)
       end.

Definition handleGetAccountTransfers (r : HTTPRequest) (accID : ID) (n : Node) : Response :=
  let afterID := if decide (hr_after r = []) then Some (zeros 16) else parseHexID (hr_after r) in
  match afterID with
  | None => writeError StatusBadRequest
  | Some afterID =>
      let limit := match Atoi (hr_limit r) with
                   | Some l => if 0 <? l then l else 50
                   | None => 50
                   end in
      writeJSON StatusOK (PTransfers (formatTransferResp <$> GetAccountTransfers accID afterID limit n))
  end.

Definition handleGetAccount (r : HTTPRequest) (n : Node) : Response :=
  if negb (bool_decide (hr_Method r = MethodGet)) then writeError StatusMethodNotAllowed
  else
    let idStr := TrimPrefix (gostr "/v1/accounts/") (hr_Path r) in
    if decide (idStr = []) then writeError StatusBadRequest
    else if HasSuffix (gostr "/transfers") idStr then
      match parseHexID (TrimSuffix (gostr "/transfers") idStr) with
      | None => writeError StatusBadRequest
      | Some accID => handleGetAccountTransfers r accID n
      end
    else match parseHexID idStr with
         | None => writeError StatusBadRequest
         | Some accID =>
             match Requests.GetAccount accID n with
             | Err (ErrAccountNotFound _) => writeError StatusNotFound
             | Err _ => writeError StatusInternalServerError
             | Ok acc =>
                 match formatAccountResp acc with
                 | Err _ => writeError StatusInternalServerError
                 | Ok resp => writeJSON StatusOK (PAccount resp)
                 end
             end
         end.

Definition handleGetTransfer (r : HTTPRequest) (n : Node) : Response :=
  if negb (bool_decide (hr_Method r = MethodGet)) then writeError StatusMethodNotAllowed
  else
    let idStr := TrimPrefix (gostr "/v1/transfers/") (hr_Path r) in
    if decide (idStr = []) then writeError StatusBadRequest
    else match parseHexID idStr with
         | None => writeError StatusBadRequest
         | Some trID =>
             match Ledger_GetTransfer trID n with
             | Err (ErrTransferNotFound _) => writeError StatusNotFound
             | Err _ => writeError StatusInternalServerError
             | Ok tr => writeJSON StatusOK (PTransfer (formatTransferResp tr))
             end
         end.

Definition format_account_outcome (i : nat) (o : Account * option error) : accountResultJSON :=
  match o.2 with
  | Some err => mkAccountResult i false None (Some err)
  | None =>
      match formatAccountResp o.1 with
      | Err ferr => mkAccountResult i true None (Some ferr)
      | Ok resp => mkAccountResult i true (Some resp) None
      end
  end.
Definition format_transfer_outcome (i : nat) (o : TransferAck) : transferResultJSON :=
  match ack_Err o with
  | Some err => mkTransferResult i false None (Some err)
  | None => mkTransferResult i true (Some (formatTransferResp (ack_Transfer o))) None
  end.

Definition handleBatchAccounts (r : HTTPRequest) (n : Node) : Node * Response :=
  if negb (bool_decide (hr_Method r = MethodPost)) then (n, writeError StatusMethodNotAllowed)
  else match hr_Body r with
       | BodyAccounts reqs =>
           if (length reqs =? 0)%nat then (n, writeError StatusBadRequest)
           else if MaxAccountBatchSize <? Z.of_nat (length reqs) then (n, writeError StatusBadRequest)
           else match mapM parse_account reqs with
                | None => (n, writeError StatusBadRequest)
                | Some batch =>
                    match Requests.CreateAccounts batch n with
                    | (n, Err err) => (n, writeError (batch_status err))
                    | (n, Ok outcomes) => (n, writeJSON StatusOK (PAccountResults (imap format_account_outcome outcomes)))
                    end
                end
       | _ => (n, writeError StatusBadRequest)
       end.

Section Transfers.
Context (now : Z) (full : bool).

Definition handleCreateTransfer (r : HTTPRequest) (n : Node) : option (Node * Response) :=
  if negb (bool_decide (hr_Method r = MethodPost)) then Some (n, writeError StatusMethodNotAllowed)
  else match hr_Body r with
       | BodyTransfer req =>
           match parse_single (hr_IdempotencyKey r) req with
           | None => Some (n, writeError StatusBadRequest)
           | Some tr =>
               match Requests.CreateTransfer now full tr n with
               | None => None
               | Some (n, Err err) => Some (n, writeError (transfer_status err))
               | Some (n, Ok res) => Some (n, writeJSON StatusCreated (PTransfer (formatTransferResp res)))
               end
           end
       | _ => Some (n, writeError StatusBadRequest)
       end.

Definition handleBatchTransfers (r : HTTPRequest) (n : Node) : option (Node * Response) :=
  if negb (bool_decide (hr_Method r = MethodPost)) then Some (n, writeError StatusMethodNotAllowed)
  else match hr_Body r with
       | BodyTransfers reqs =>
           if (length reqs =? 0)%nat then Some (n, writeError StatusBadRequest)
           else if MaxTransferBatchSize <? Z.of_nat (length reqs) then Some (n, writeError StatusBadRequest)
           else match mapM parseTransferReq reqs with
                | None => Some (n, writeError StatusBadRequest)
                | Some batch =>
                    match Requests.CreateTransfers now batch n with
                    | None => None
                    | Some (n, Err err) => Some (n, writeError (batch_status err))
                    | Some (n, Ok outcomes) =>
                        Some (n, writeJSON StatusOK (PTransferResults (imap format_transfer_outcome outcomes)))
                    end
                end
       | _ => Some (n, writeError StatusBadRequest)
       end.

(** The mux: an exact pattern goes before the subtree it is in. *)
Definition ServeHTTP (cp : Checkpointer) (readiness : option bool) (r : HTTPRequest) (n : Node)
    : option (Node * Response) :=
  let p := hr_Path r in
  if bool_decide (p = gostr "/healthz") then Some (n, handleHealthz)
  else if bool_decide (p = gostr "/readyz") then Some (n, handleReadyz cp readiness)
  else if bool_decide (p = gostr "/v1/accounts") then Some (handleAccounts r n)
  else if bool_decide (p = gostr "/v1/accounts/batch") then Some (handleBatchAccounts r n)
  else if HasPrefix (gostr "/v1/accounts/") p then Some (n, handleGetAccount r n)
  else if bool_decide (p = gostr "/v1/transfers") then handleCreateTransfer r n
  else if bool_decide (p = gostr "/v1/transfers/batch") then handleBatchTransfers r n
  else if HasPrefix (gostr "/v1/transfers/") p then Some (n, handleGetTransfer r n)
  else Some (n, writeError StatusNotFound).
End Transfers.
