(* ===== verification/TextProps.v ===== *)
(** * Text round trips of the API

    Transfer and account IDs and user data as the REST service prints and reads
    them: encoding and decoding are inverse, and two texts name the same ID only
    when they differ in case and prefix. *)

From S2P Require Import Prelude Core Uint128 Codec AccountsProps Text Rest.

Definition hex_pair (x : byte) : list byte := [hex_digit (byte_val x / 16); hex_digit (byte_val x mod 16)].

Lemma hex_encode_cons x b : hex_encode (x :: b) = hex_pair x ++ hex_encode b.
Proof. done. Qed.
Lemma length_hex_encode b : length (hex_encode b) = (2 * length b)%nat.
Proof. induction b as [|x b IH]; [done|]. rewrite hex_encode_cons, length_app, IH. cbn. lia. Qed.

Lemma hex_value_digit v : 0 <= v < 16 -> hex_value (hex_digit v) = Some v.
Proof.
  intros H. unfold hex_value, hex_digit. rewrite byte_val_of_Z.
  destruct (Z.ltb_spec v 10); rewrite Z.mod_small by lia; repeat case_match; try (exfalso; lia); f_equal; lia.
Qed.
Lemma hex_pair_decodes x : exists a b, hex_pair x = [hex_digit a; hex_digit b]
  /\ hex_value (hex_digit a) = Some a /\ hex_value (hex_digit b) = Some b /\ byte_of_Z (16 * a + b) = x.
Proof.
  pose proof (byte_val_range x). exists (byte_val x / 16), (byte_val x mod 16). split; [done|].
  pose proof (Z.div_mod (byte_val x) 16). pose proof (Z.mod_pos_bound (byte_val x) 16).
  split; [apply hex_value_digit; lia|]. split; [apply hex_value_digit; lia|].
  rewrite <- (Z.div_mod (byte_val x) 16) by lia. apply byte_of_val.
Qed.

Lemma DecodeString_hex_encode b : DecodeString (hex_encode b) = Some b.
Proof.
  induction b as [|x b IH]; [done|]. rewrite hex_encode_cons.
  destruct (hex_pair_decodes x) as (p & q & -> & Ep & Eq & Ex). cbn [app DecodeString]. by rewrite Ep, Eq, IH; cbn; rewrite Ex.
Qed.

(** Lower case, on the digits. *)
Definition lower (c : byte) : byte :=
  if (65 <=? byte_val c) && (byte_val c <=? 70) then byte_of_Z (byte_val c + 32) else c.

Lemma hex_value_lower c v : hex_value c = Some v -> 0 <= v < 16 /\ lower c = hex_digit v.
Proof.
  unfold hex_value, lower, hex_digit. remember (byte_val c) as n eqn:En. intros H.
  destruct ((48 <=? n) && (n <=? 57)) eqn:E1; [|destruct ((97 <=? n) && (n <=? 102)) eqn:E2;
    [|destruct ((65 <=? n) && (n <=? 70)) eqn:E3; [|done]]]; injection H as <-; (split; [lia|]).
  - rewrite (proj2 (Z.ltb_lt _ _)) by lia. replace (48 + (n - 48)) with n by lia. rewrite En, byte_of_val, <- En.
    by destruct (Z.leb_spec 65 n), (Z.leb_spec n 70); [exfalso; lia|..].
  - rewrite (proj2 (Z.ltb_ge _ _)) by lia. replace (87 + (n - 87)) with n by lia. rewrite En, byte_of_val, <- En.
    by destruct (Z.leb_spec 65 n), (Z.leb_spec n 70); [exfalso; lia|..].
  - rewrite (proj2 (Z.ltb_ge _ _)) by lia. f_equal. lia.
Qed.

Lemma hex_pair_of p q : 0 <= p < 16 -> 0 <= q < 16 -> hex_pair (byte_of_Z (16 * p + q)) = [hex_digit p; hex_digit q].
Proof.
  intros Hp Hq. unfold hex_pair. rewrite byte_val_of_Z, (Z.mod_small (16 * p + q)) by lia.
  replace ((16 * p + q) / 16) with p by (apply Z.div_unique with q; lia).
  by replace ((16 * p + q) mod 16) with q by (apply Z.mod_unique with p; lia).
Qed.

Lemma DecodeString_canonical s : forall b, DecodeString s = Some b -> lower <$> s = hex_encode b.
Proof.
  enough (H : forall n s b, (length s <= n)%nat -> DecodeString s = Some b -> lower <$> s = hex_encode b) by eauto.
  clear s. induction n as [|n IH]; intros [|p [|q s]] b Hn; cbn in Hn |- *; try (by intros [= <-]); [lia|].
  destruct (hex_value p) as [vp|] eqn:Ep; [cbn|done]. destruct (hex_value q) as [vq|] eqn:Eq; [cbn|done].
  destruct (DecodeString s) as [b'|] eqn:Es; [cbn|done]. intros [= <-].
  apply hex_value_lower in Ep as [Rp ->]. apply hex_value_lower in Eq as [Rq ->].
  rewrite hex_encode_cons, hex_pair_of by done. cbn. do 2 f_equal. apply IH; [lia|done].
Qed.

Lemma DecodeString_length s b : DecodeString s = Some b -> length s = (2 * length b)%nat.
Proof. intros H%DecodeString_canonical. apply (f_equal length) in H. by rewrite length_fmap, length_hex_encode in H. Qed.

(** Hex digits have no prefix to trim. *)
Lemma TrimPrefix_hex b : TrimPrefix (gostr "0x") (hex_encode b) = hex_encode b.
Proof.
  unfold TrimPrefix, HasPrefix. case_bool_decide as H; [|done]. exfalso. destruct b as [|x b]; [done|].
  rewrite hex_encode_cons in H. destruct (hex_pair_decodes x) as (p & q & E & _ & Eq & _). rewrite E in H.
  cbn in H. injection H as _ H. by rewrite H in Eq.
Qed.
Lemma TrimPrefix_app p s : TrimPrefix p (p ++ s) = s.
Proof. unfold TrimPrefix, HasPrefix. rewrite take_app_length, bool_decide_true by done. by rewrite drop_app_length. Qed.

Lemma copy_into_full n b : length b = n -> copy_into n b = b.
Proof. intros <-. unfold copy_into. rewrite take_ge, Nat.sub_diag by lia. apply app_nil_r. Qed.
Lemma length_copy_into n b : length (copy_into n b) = n.
Proof. unfold copy_into. rewrite length_app, length_take, length_zeros. lia. Qed.

Lemma parseHexID_hex id : length id = 16%nat -> parseHexID (hex_encode id) = Some id.
Proof.
  intros H. unfold parseHexID. rewrite TrimPrefix_hex, DecodeString_hex_encode. cbn [mbind option_bind].
  rewrite H. cbn. by rewrite copy_into_full.
Qed.
Lemma parseHexID_length s id : parseHexID s = Some id -> length id = 16%nat.
Proof.
  unfold parseHexID. destruct (DecodeString _); [cbn|done]. destruct (negb _); [done|]. intros [= <-]. apply length_copy_into.
Qed.

(** Decoding does not see case. *)
Lemma hex_value_case c : hex_value (lower c) = hex_value c.
Proof.
  unfold lower. destruct ((65 <=? byte_val c) && (byte_val c <=? 70)) eqn:E; [|done].
  unfold hex_value. rewrite byte_val_of_Z, Z.mod_small, E by lia.
  repeat case_match; try (exfalso; lia); f_equal; lia.
Qed.
Lemma DecodeString_case s : DecodeString (lower <$> s) = DecodeString s.
Proof.
  enough (H : forall n s, (length s <= n)%nat -> DecodeString (lower <$> s) = DecodeString s) by eauto.
  clear s. induction n as [|n IH]; intros [|p [|q s]] Hn; cbn in Hn |- *; try done; [lia|].
  rewrite !hex_value_case. destruct (hex_value p); [cbn|done]. destruct (hex_value q); [cbn|done].
  change (list_fmap byte byte lower s) with (lower <$> s). by rewrite IH by lia.
Qed.

Lemma parseHexID_iff s id : parseHexID s = Some id <->
  length id = 16%nat /\ lower <$> TrimPrefix (gostr "0x") s = hex_encode id.
Proof.
  unfold parseHexID. set (t := TrimPrefix _ s). split.
  - destruct (DecodeString t) as [b|] eqn:E; [cbn [mbind option_bind]|done].
    destruct (Nat.eqb_spec (length b) 16) as [Hb|]; [|done]. cbn [negb]. rewrite copy_into_full by done.
    intros [= <-]. split; [done|]. by apply DecodeString_canonical.
  - intros [Hl E]. rewrite <- DecodeString_case, E, DecodeString_hex_encode. cbn [mbind option_bind]. rewrite Hl. cbn [Nat.eqb negb].
    by rewrite copy_into_full.
Qed.

Lemma user_data_format (b : ID) : length b = 16%nat -> user_data (formatUserData b) = b.
Proof.
  intros Hb. unfold user_data, formatUserData. destruct (decide (b = zeros 16)) as [->|Hz]; [done|]. rewrite decide_False.
    2: { intros H. apply (f_equal length) in H. rewrite length_hex_encode, Hb in H. done. }
    unfold parseUserData. rewrite TrimPrefix_hex, length_hex_encode, Hb. cbn [Nat.mul Nat.add Nat.eqb].
    rewrite DecodeString_hex_encode, Hb. cbn [Nat.eqb]. by apply copy_into_full.
Qed.

(** C33. IDs and user data as text.  A text is read as an ID exactly when,
    without its prefix 0x and in lower case, it is the hex of the ID, and every
    ID read has 16 bytes: two spellings of an ID differ in case and prefix
    only.  What the services print reads back: the hex of an ID, bare or
    prefixed, gives the ID, and the printed user data, empty for zeros, gives
    the user data. *)
Theorem text_roundtrip (b : ID) :
  (forall s, parseHexID s = Some b <->
    length b = 16%nat /\ lower <$> TrimPrefix (gostr "0x") s = hex_encode b)
  /\ (length b = 16%nat -> parseHexID (hex_encode b) = Some b /\ parseHexID (gostr "0x" ++ hex_encode b) = Some b
  /\ user_data (formatUserData b) = b).
Proof.
  split; [intros s; apply parseHexID_iff|]. intros Hb. split; [by apply parseHexID_hex|]. split.
  - apply parseHexID_iff. split; [done|]. rewrite TrimPrefix_app.
    apply DecodeString_canonical, DecodeString_hex_encode.
  - by apply user_data_format.
Qed.

Lemma text_roundtrip_witness : length (idn 200) = 16%nat
  /\ user_data (formatUserData (idn 200)) = idn 200 /\ parseHexID (gostr "000000000000000000000000000000C8") = Some (idn 200).
Proof.
  destruct (text_roundtrip (idn 200)) as (H & Hp). pose proof (idn_length 200) as Hl.
  destruct (Hp Hl) as (_ & _ & Hu). split; [exact Hl|]. split; [exact Hu|]. apply H. split; [exact Hl|reflexivity].
Defined.
