(* ===== verification/ApiErrors.v ===== *)
(** * The errors of a transfer request

    A lookup error never leaves the write path: whatever validation, the log or
    the application of a batch fails with, it is not ErrTransferNotFound, the
    one error the two services give different statuses. *)

From S2P Require Import Prelude Core Uint128 Balance Accounts Transfers Record Wal Idempotency Engine Requests.

(** ** Computations whose errors satisfy a predicate *)

Definition raises {S E A} (P : E -> Prop) (c : M S E A) : Prop := forall s s' e, c s = (s', Err e) -> P e.
Definition fails {A E} (P : E -> Prop) (r : result A E) : Prop := match r with Ok _ => True | Err e => P e end.

Section Raises.
Context {S E : Type} (P : E -> Prop).
Implicit Types s : S.

Lemma raises_bind {A B} (c : M S E A) (k : A -> M S E B) :
  raises P c -> (forall a, raises P (k a)) -> raises P (sbind c k).
Proof.
  intros Hc Hk s s' e. unfold sbind. destruct (c s) as [s1 [a|e1]] eqn:Ec; [apply Hk|].
  intros [= <- <-]. by eapply Hc.
Qed.
Lemma raises_ret {A} (a : A) : raises (S:=S) P (sret a).
Proof. by intros s s' e [= ]. Qed.
Lemma raises_get : raises P (@sget S E).
Proof. by intros s s' e [= ]. Qed.
Lemma raises_modify (f : S -> S) : raises P (smodify f).
Proof. by intros s s' e [= ]. Qed.
Lemma raises_fail {A} e : P e -> raises (S:=S) (A:=A) P (sfail e).
Proof. by intros He s s' e' [= _ <-]. Qed.
Lemma raises_lift {A} (r : result A E) : fails P r -> raises (S:=S) P (slift r).
Proof. intros Hr s s' e [= _ ->]. exact Hr. Qed.

Lemma fails_bind {A B} (r : result A E) (k : A -> result B E) :
  fails P r -> (forall a, fails P (k a)) -> fails P (rbind r k).
Proof. destruct r; cbn; auto. Qed.
Lemma fails_map {A E'} (f : E' -> E) (r : result A E') : (forall e, P (f e)) -> fails P (map_err f r).
Proof. destruct r; cbn; auto. Qed.
End Raises.

Create HintDb raises.
#[export] Hint Resolve raises_ret raises_get raises_modify raises_fail raises_lift : raises.

(** Walks down a computation, by cases on its tests. *)
Ltac raise :=
  repeat first
    [ apply raises_bind; [|intros ?]
    | apply fails_bind; [|intros ?]
    | apply fails_map; intros ?
    | progress auto with raises
    | apply raises_fail | apply raises_lift
    | match goal with
      | |- raises _ (match ?x with _ => _ end) => destruct x eqn:?
      | |- fails _ (match ?x with _ => _ end) => destruct x eqn:?
      end ];
  try done.

(** ** The write path *)

Definition not_lookup (e : error) : Prop := match e with ErrTransferNotFound _ => False | _ => True end.

Lemma balance_fails a : fails not_lookup (Balance a).
Proof. unfold Balance. raise. Qed.
Lemma available_fails a : fails not_lookup (AvailableBalance a).
Proof. unfold AvailableBalance. pose proof (balance_fails a). raise. Qed.
Lemma get_fails m id : fails not_lookup (Get m id).
Proof. unfold Get. raise. Qed.
Lemma hold_fails m id v : fails not_lookup (lookup_hold m id v).
Proof. unfold lookup_hold. raise. Qed.
#[export] Hint Resolve balance_fails available_fails get_fails hold_fails : raises.

Lemma getAccount_raises m id : raises not_lookup (getAccount m id).
Proof. unfold getAccount. raise. Qed.
#[export] Hint Resolve getAccount_raises : raises.

Lemma validateAndApply_raises m t i : raises not_lookup (validateAndApply m t i).
Proof. unfold validateAndApply, settle_staged, post_staged, claim_id, staged_at, upd_staged, restage. raise. Qed.

Lemma checkTransfer_fails m t : fails not_lookup (checkTransfer m t).
Proof. unfold checkTransfer. raise. Qed.
#[export] Hint Resolve checkTransfer_fails : raises.

Lemma ApplyTransferState_raises t : raises not_lookup (ApplyTransferState t).
Proof.
  unfold ApplyTransferState, movePending, releasePending, reservePending, postImmediate, applyPendingDebit,
    applyPendingCredit, ApplyDebit, ApplyCredit, upd_account. raise.
Qed.

Lemma writeBuffered_raises fuel buf ends : forall written fi, raises not_lookup (writeBuffered_loop fuel buf ends written fi).
Proof.
  induction fuel as [|fuel IH]; intros written fi; cbn [writeBuffered_loop]; raise.
  match goal with H : Segment_Write _ _ _ = _ |- _ => revert H end. unfold Segment_Write.
  destruct (IsFull _ _); by intros [= _ _ <-].
Qed.
Lemma appendFrame_fails dst r : fails not_lookup (appendFrame dst r).
Proof. unfold appendFrame. raise. Qed.
#[export] Hint Resolve appendFrame_fails : raises.
Lemma encode_records_raises records : forall buf ends, raises not_lookup (encode_records records buf ends).
Proof. induction records as [|r records IH]; intros buf ends; cbn [encode_records]; raise. Qed.
#[export] Hint Resolve validateAndApply_raises ApplyTransferState_raises writeBuffered_raises encode_records_raises : raises.

Lemma AppendBatch_raises records : raises not_lookup (AppendBatch records).
Proof.
  unfold AppendBatch, writeBuffered. raise.
Qed.

(** ** The outcomes of a batch *)

Definition not_lookup_outcome (o : option error) : Prop := match o with Some e => not_lookup e | None => True end.
Abbreviation clean := (Forall not_lookup_outcome).

Lemma imap_clean (f : nat -> option error -> option error) outs :
  (forall i o, not_lookup_outcome o -> not_lookup_outcome (f i o)) -> clean outs -> clean (imap f outs).
Proof.
  intros Hf Ho. apply Forall_lookup. intros i x. rewrite list_lookup_imap. intros (o & Eo & ->)%fmap_Some.
  apply Hf. by eapply Forall_lookup.
Qed.
Lemma fail_others_clean lo hi i x outs : not_lookup x -> clean outs -> clean (fail_others lo hi i x outs).
Proof. intros Hx. apply imap_clean. intros k o Ho. by case_match. Qed.
Lemma clear_range_clean lo hi outs : clean outs -> clean (clear_range lo hi outs).
Proof. apply imap_clean. intros k o Ho. by case_match. Qed.

Lemma ValidateBatch_loop_clean m events fuel : forall v outs start i, clean outs ->
  clean (ValidateBatch_loop m fuel events v outs start i).
Proof.
  induction fuel as [|fuel IH]; intros v outs start i Ho; [done|]. cbn [ValidateBatch_loop].
  destruct (events !! i) as [t|]; [|done].
  destruct (validateAndApply m t i _) as [v' [u|err]] eqn:E.
  - destruct (negb (isLinked t)); [by apply IH, clear_range_clean|]. destruct (i =? length events - 1)%nat; [|by apply IH].
    apply fail_others_clean; [done|]. by apply Forall_insert.
  - apply IH, fail_others_clean; [done|]. apply Forall_insert; [done|]. by apply validateAndApply_raises in E.
Qed.

Lemma ValidateBatch_clean m events : clean (ValidateBatch m events).
Proof. apply ValidateBatch_loop_clean, Forall_replicate. done. Qed.

Lemma ApplyBatch_clean events : forall outs m, clean outs -> clean (ApplyBatch events outs m).1.
Proof.
  induction events as [|t events IH]; intros [|o outs] m Ho; try done. apply Forall_cons in Ho as [Ho Hos]. cbn [ApplyBatch].
  destruct o as [e|].
  - specialize (IH outs m Hos). destruct (ApplyBatch events outs m). by constructor.
  - destruct (ApplyTransferState t m) as [m' r] eqn:E. specialize (IH outs m' Hos). destruct (ApplyBatch events outs m').
    constructor; [|done]. destruct r as [|e]; [done|]. by apply ApplyTransferState_raises in E.
Qed.

Lemma processBatch_clean now events g : clean (ack_Err <$> (processBatch now events g).2).
Proof.
  unfold processBatch. set (m := CloseExpired _). set (evs := set_Timestamp _ <$> events).
  pose proof (ApplyBatch_clean evs (ValidateBatch m evs) m (ValidateBatch_clean m evs)) as Hc.
  set (r := match makeWALRecords _ _ with [] => _ | _ => _ end).
  assert (Hr : match r.2 with Some e => not_lookup e | None => True end).
  { unfold r. destruct (makeWALRecords _ _) as [|r0 rs]; [done|].
    destruct (AppendBatch _ _) as [w [z|e]] eqn:E; [done|]. by apply AppendBatch_raises in E. }
  destruct r as [[w lsn] [e|]]; cbn [snd] in Hr |- *.
  - rewrite <- list_fmap_compose. apply Forall_fmap, Forall_true. done.
  - destruct (ApplyBatch evs _ m) as [outs m']. cbn [fst snd] in Hc |- *. clear - Hc.
    revert outs Hc. induction evs as [|t evs IH]; intros [|o outs] Hc; try done.
    apply Forall_cons in Hc as [Ho Hos]. constructor; [done|]. by apply IH.
Qed.

Lemma submit_one_error now full t g g' e : submit_one now full t g = (g', Err e) -> not_lookup e.
Proof.
  unfold submit_one. destruct full; [by intros [= _ <-]|]. pose proof (processBatch_clean now [t] g) as Hc.
  destruct (processBatch now [t] g) as [g1 [|[t1 [e1|]] [|a acks]]]; cbn [snd] in Hc; try (by intros [= _ <-]).
  intros [= _ <-]. by apply Forall_cons in Hc as [Hc _].
Qed.

Lemma CreateTransfer_error now full t n n' e : CreateTransfer now full t n = Some (n', Err e) -> not_lookup e.
Proof.
  unfold CreateTransfer. destruct (n_isFollower n); [by intros [= _ <-]|].
  destruct (submit_one now full t (n_engine n)) as [g [t'|e1]] eqn:Es.
  - destruct (no_key t); [done|]. destruct (CheckAndReserve _ _ _) as [ids [[ex []]|]]; [done| |done].
    by destruct (Commit _ _ _ _).
  - apply submit_one_error in Es. destruct (no_key t); [by intros [= _ <-]|].
    destruct (CheckAndReserve _ _ _) as [ids [[ex []]|]]; [done| |done]. by intros [= _ <-].
Qed.
