(* ===== verification/ApiProps.v ===== *)
(** * Properties of the services: types and agreement

    What the two services pass to the ledger is well-typed, and they are two
    views of one machine. *)

From S2P Require Import Prelude Core Uint128 Codec Balance Accounts Wal Idempotency Engine Requests Text Sha256 Api Rest.
From S2P Require Import AccountsProps ApiErrors TextProps.

(** ** Types *)

Lemma FromString_loop_wf s : forall acc a, wf128 acc -> FromString_loop acc s = Ok a -> wf128 a.
Proof.
  induction s as [|c s IH]; intros acc a Hacc; cbn [FromString_loop]; [by intros [= <-]|].
  pose proof (byte_val_range c). destruct (_ || _) eqn:E; [done|].
  pose proof (mul64_spec acc 10 Hacc ltac:(done)) as Sm. destruct (mul64 acc 10) as [m|]; [cbn [rbind]|done].
  assert (Hm : wf128 m) by (case_match; [destruct Sm as (? & [= ->] & ? & _)|]; done).
  destruct (Add m _) as [x|] eqn:Ex; [cbn [rbind]|done]. apply Add_Ok in Ex as [Hx _]; [by apply IH|done|].
  apply wf128_FromUint64. unfold is_u64. lia.
Qed.
Lemma FromString_wf s a : FromString s = Ok a -> wf128 a.
Proof. destruct s; [done|]. by apply FromString_loop_wf. Qed.

Lemma length_user_data s : length (user_data s) = 16%nat.
Proof.
  unfold user_data, parseUserData. repeat case_match; try apply length_copy_into. apply length_zeros.
Qed.
Lemma length_header_key s : length (header_key s) = 32%nat.
Proof. unfold header_key. case_match; [apply length_zeros|apply length_Sum256]. Qed.
Lemma length_key_bytes raw : length (key_bytes raw) = 32%nat.
Proof. unfold key_bytes. case_match; [apply length_copy_into|apply length_Sum256]. Qed.
Lemma length_interceptor md k : IdempotencyUnaryInterceptor md = Some k -> length k = 32%nat.
Proof.
  unfold IdempotencyUnaryInterceptor. destruct md as [values|]; [|done]. case_bool_decide; [done|]. intros [= <-].
  apply length_key_bytes.
Qed.
Lemma length_request_key ctx raw : (forall k, ctx = Some k -> length k = 32%nat) -> length (request_key ctx raw) = 32%nat.
Proof.
  intros Hc. unfold request_key. case_match; [apply length_copy_into|]. case_match; [apply length_Sum256|].
  destruct ctx; [by apply Hc|apply length_zeros].
Qed.
Lemma bytesToID_Some b id : bytesToID b = Some id -> length id = 16%nat.
Proof. unfold bytesToID. repeat case_match; try done. intros [= <-]. apply length_copy_into. Qed.
Lemma u16_range z : is_u16 (u16 z).
Proof. apply Z.mod_pos_bound. lia. Qed.

(** The types of the generated messages and of the decoded bodies. *)
Record typed_transfer (p : ProtoTransfer) : Prop := {
  tt_amount : forall a, pt_Amount p = Some a -> wf128 a;
  tt_timeout : is_u64 (pt_Timeout p);
  tt_ledger : is_u32 (pt_Ledger p);
  tt_flags : is_u32 (pt_Flags p) }.
Record typed_account (p : CreateAccountRequest) : Prop := {
  ta_credits : forall a, ca_InitialPostedCredits p = Some a -> wf128 a;
  ta_ledger : is_u32 (ca_Ledger p);
  ta_flags : is_u32 (ca_Flags p) }.
Record typed_transferReq (q : createTransferReq) : Prop := {
  tq_timeout : is_u64 (qt_Timeout q);
  tq_ledger : is_u32 (qt_Ledger q);
  tq_code : is_u16 (qt_Code q);
  tq_flags : is_u32 (qt_Flags q) }.
Record typed_accountReq (q : createAccountReq) : Prop := {
  aq_ledger : is_u32 (qa_Ledger q);
  aq_code : is_u16 (qa_Code q);
  aq_flags : is_u32 (qa_Flags q) }.

Create HintDb api.
#[export] Hint Resolve length_user_data length_header_key length_copy_into u16_range wf128_zero parseHexID_length
  bytesToID_Some FromString_wf length_zeros : api.

Lemma transfer_of_request_wf ctx req t : (forall k, ctx = Some k -> length k = 32%nat) -> typed_transfer req ->
  transfer_of_request ctx req = Ok t -> wf_transfer t /\ t_Timestamp t = 0.
Proof.
  intros Hc [] E. unfold transfer_of_request in E. cases_in E. split; [|done].
  constructor; cbn; eauto with api; try done. by apply length_request_key.
Qed.
Lemma account_of_request_wf req a : typed_account req -> account_of_request req = Ok a ->
  wf_account a /\ vPD a = 0 /\ vHD a = 0 /\ vHC a = 0.
Proof.
  intros [] E. unfold account_of_request in E. cases_in E. split; [|done].
  constructor; cbn; eauto with api; try done. destruct (ca_InitialPostedCredits req); cbn; eauto with api.
Qed.
Lemma parse_single_wf h q t : typed_transferReq q -> parse_single h q = Some t -> wf_transfer t /\ t_Timestamp t = 0.
Proof.
  intros [] E. unfold parse_single in E. apply bind_Some in E as (id & E1 & (d & E2 & (c & E3 & (a & E4 & E)%bind_Some)%bind_Some)%bind_Some).
  injection E as <-. split; [|done]. constructor; cbn; eauto with api; try done. cases_in E4; eauto with api.
Qed.
Lemma parseTransferReq_wf q t : typed_transferReq q -> parseTransferReq q = Some t -> wf_transfer t /\ t_Timestamp t = 0.
Proof.
  intros [] E. unfold parseTransferReq in E. apply bind_Some in E as (id & E1 & (d & E2 & (c & E3 & (a & E4 & E)%bind_Some)%bind_Some)%bind_Some).
  injection E as <-. split; [|done]. constructor; cbn; eauto with api; try done. cases_in E4; eauto with api.
Qed.
Lemma parse_account_wf q a : typed_accountReq q -> parse_account q = Some a ->
  wf_account a /\ vPD a = 0 /\ vHD a = 0 /\ vHC a = 0.
Proof.
  intros [] E. unfold parse_account in E. apply bind_Some in E as (id & E1 & (ic & E2 & E)%bind_Some).
  injection E as <-. split; [|done]. constructor; cbn; eauto with api; try done. cases_in E2; eauto with api.
Qed.

(** A batch converts item by item. *)
Lemma items_Forall {A B} (f : A -> result B code) (P : A -> Prop) (Q : B -> Prop) :
  (forall x y, P x -> f x = Ok y -> Q y) ->
  forall l ys, Forall (fun o => forall x, o = Some x -> P x) l -> items f l = Ok ys -> Forall Q ys /\ length ys = length l.
Proof.
  intros Hf l. induction l as [|[x|] l IH]; intros ys Hl E; cbn [items] in E; [by injection E as <-| |done].
  apply Forall_cons in Hl as [Hx Hl]. apply rbind_Ok in E as (y & Ey & (ys' & Es & [= <-])%rbind_Ok).
  destruct (IH ys' Hl Es) as [HQ Hn]. split; [constructor; [by eapply Hf; [apply Hx|]|done]|cbn; by rewrite Hn].
Qed.
Lemma mapM_Forall {A B} (f : A -> option B) (P : A -> Prop) (Q : B -> Prop) :
  (forall x y, P x -> f x = Some y -> Q y) ->
  forall l ys, Forall P l -> mapM f l = Some ys -> Forall Q ys /\ length ys = length l.
Proof.
  intros Hf l ys Hl E%mapM_Some_1. induction E as [|x y l ys Exy _ IH]; [done|].
  apply Forall_cons in Hl as [Hx Hl]. destruct (IH Hl) as [HQ Hn]. split; [constructor; [by eapply Hf|done]|cbn; by rewrite Hn].
Qed.

(** What the ledger is given: Go values, with no timestamp, and new accounts
    that have neither debits nor holds. *)
Definition new_transfer (t : Transfer) : Prop := wf_transfer t /\ t_Timestamp t = 0.
Definition new_account (a : Account) : Prop := wf_account a /\ vPD a = 0 /\ vHD a = 0 /\ vHC a = 0.

(** The services pass well-typed values on.  Whatever bytes and texts a
    request carries, a transfer that either service hands to the ledger, alone
    or in a batch, has IDs and user data of 16 bytes, a key of 32 and integers
    of their widths, and no timestamp; an account also has neither debits nor
    holds; and a batch has an item for each item of the request. *)
Theorem services_pass_typed_values :
  (forall md req t, typed_transfer req -> transfer_of_request (IdempotencyUnaryInterceptor md) req = Ok t -> new_transfer t)
  /\ (forall md reqs ts, Forall (fun o => forall x, o = Some x -> typed_transfer x) reqs ->
        items (transfer_of_request (IdempotencyUnaryInterceptor md)) reqs = Ok ts ->
        Forall new_transfer ts /\ length ts = length reqs)
  /\ (forall reqs accs, Forall (fun o => forall x, o = Some x -> typed_account x) reqs ->
        items account_of_request reqs = Ok accs -> Forall new_account accs /\ length accs = length reqs)
  /\ (forall header q t, typed_transferReq q -> parse_single header q = Some t -> new_transfer t)
  /\ (forall qs ts, Forall typed_transferReq qs -> mapM parseTransferReq qs = Some ts ->
        Forall new_transfer ts /\ length ts = length qs)
  /\ (forall qs accs, Forall typed_accountReq qs -> mapM parse_account qs = Some accs ->
        Forall new_account accs /\ length accs = length qs).
Proof.
  split_and!.
  - intros md req t Hr. apply transfer_of_request_wf; [|done]. intros k. apply length_interceptor.
  - intros md reqs ts. apply items_Forall. intros x y Hx. apply transfer_of_request_wf; [|done]. intros k. apply length_interceptor.
  - intros reqs accs. apply items_Forall. intros x y. apply account_of_request_wf.
  - intros h q t. apply parse_single_wf.
  - intros qs ts. apply mapM_Forall. intros x y. apply parseTransferReq_wf.
  - intros qs accs. apply mapM_Forall. intros x y. apply parse_account_wf.
Qed.

Lemma services_pass_typed_values_witness :
  exists t, parse_single (gostr "k") (mkCreateTransferReq (hex_encode (idn 1)) (hex_encode (idn 2)) (hex_encode (idn 3))
    (gostr "340282366920938463463374607431768211455") [] 0 0 1 0 (gostr "note")) = Some t
  /\ new_transfer t.
Proof.
  set (q := mkCreateTransferReq _ _ _ _ _ _ _ _ _ _).
  assert (Hq : typed_transferReq q) by (by constructor).
  assert (E : match parse_single (gostr "k") q with Some _ => true | None => false end = true) by (vm_compute; reflexivity).
  destruct (parse_single (gostr "k") q) as [t|] eqn:Et; [|discriminate E]. exists t. split; [reflexivity|].
  destruct services_pass_typed_values as (_ & _ & _ & H & _). exact (H (gostr "k") q t Hq Et).
Defined.

(** ** Agreement *)

(** The HTTP status of a gRPC code. *)
Definition code_status (c : code) : Z :=
  match c with
  | InvalidArgument => StatusBadRequest
  | NotFound => StatusNotFound
  | AlreadyExists => StatusConflict
  | Unavailable => StatusServiceUnavailable
  | FailedPrecondition | Aborted => StatusUnprocessableEntity
  | Internal => StatusInternalServerError
  end.

Lemma transfer_status_code e : not_lookup e -> transfer_status e = code_status (transferErrorStatus e).
Proof.
  intros He. unfold transfer_status, transferErrorStatus. destruct (errors_Is e ErrNotLeader); [done|].
  destruct (errors_Is e ErrZeroAmount || errors_Is e (ErrSelfTransfer (zeros 16))); [done|]. by destruct e.
Qed.

(** A transfer with a key text, as a REST request and as a gRPC message. *)
Definition rest_request (key : gostring) (t : Transfer) : HTTPRequest :=
  mkHTTPRequest MethodPost (gostr "/v1/transfers") key [] []
    (BodyTransfer (mkCreateTransferReq (hex_encode (t_ID t)) (hex_encode (t_DebitAccountID t))
      (hex_encode (t_CreditAccountID t)) (Uint128.String (t_Amount t)) [] (t_Flags t) (t_Timeout t) (t_Ledger t)
      (t_Code t) (formatUserData (t_UserData128 t)))).
Definition grpc_request (key : gostring) (t : Transfer) : CreateTransferRequest :=
  mkProtoTransfer (t_ID t) (t_DebitAccountID t) (t_CreditAccountID t) (Some (t_Amount t)) key 0 (t_Flags t)
    (t_Timeout t) (t_Ledger t) (t_Code t) (t_UserData128 t).

(** The transfer both stand for. *)
Definition with_key_text (key : gostring) (t : Transfer) : Transfer :=
  mkTransfer (t_ID t) (t_DebitAccountID t) (t_CreditAccountID t) (t_Amount t) (header_key key) (t_UserData128 t) 0
    (t_Timeout t) (t_Ledger t) (t_Code t) (t_Flags t).

Lemma FromString_String a : wf128 a -> FromString (Uint128.String a) = Ok a.
Proof. intros Ha. apply FromString_spec; [done|]. by apply String_digits. Qed.
Lemma String_ne a : wf128 a -> Uint128.String a <> [].
Proof. intros Ha. by apply String_digits. Qed.

Lemma u16_small z : is_u16 z -> u16 z = z.
Proof. intros. by apply Z.mod_small. Qed.
Lemma bytesToID_ID (id : ID) : length id = 16%nat -> bytesToID id = Some id.
Proof. intros H. unfold bytesToID. rewrite H. cbn. by rewrite copy_into_full. Qed.

Lemma rest_request_parsed key t : wf_transfer t ->
  exists q, hr_Body (rest_request key t) = BodyTransfer q /\ parse_single key q = Some (with_key_text key t).
Proof.
  intros []. eexists. split; [done|]. unfold parse_single.
  cbn [qt_ID qt_DebitAccountID qt_CreditAccountID qt_Amount qt_IdempotencyKey qt_Flags qt_Timeout qt_Ledger qt_Code qt_UserData128].
  rewrite !parseHexID_hex by done. cbn [mbind option_bind].
  rewrite (decide_False (P:=Uint128.String (t_Amount t) = [])) by (by apply String_ne). rewrite FromString_String by done. cbn [mbind option_bind].
  rewrite user_data_format by done. unfold with_key_text. by destruct (decide (key = [])) as [->|].
Qed.

Lemma grpc_request_parsed ctx kg key t : wf_transfer t -> request_key ctx kg = header_key key ->
  transfer_of_request ctx (grpc_request kg t) = Ok (with_key_text key t).
Proof.
  intros [] Hk. unfold transfer_of_request, grpc_request.
  cbn [pt_Id pt_DebitAccountId pt_CreditAccountId pt_Amount pt_IdempotencyKey pt_Flags pt_Timeout pt_Ledger pt_Code pt_UserData128].
  by rewrite !bytesToID_ID, u16_small, copy_into_full, Hk by done.
Qed.

(** When the two services derive the same key: the gRPC service takes a field
    of 32 bytes as it is and hashes any other; without a field it takes the
    key of the metadata, if there is one. *)
Lemma same_key_iff md kg kr : request_key (IdempotencyUnaryInterceptor md) kg = header_key kr <->
  if (length kg =? 32)%nat then kg = header_key kr
  else if bool_decide (kg = []) then default (zeros 32) (IdempotencyUnaryInterceptor md) = header_key kr
  else Sum256 kg = header_key kr.
Proof.
  unfold request_key. destruct (Nat.eqb_spec (length kg) 32) as [E|E]; [by rewrite copy_into_full|].
  by destruct kg.
Qed.

(** C21. The two services are one machine.  A transfer sent to either service,
    in hexadecimal to the one and as a message to the other, has the same
    effect on the node, whatever its state, when the services derive the same
    key: both calls wait, or both leave the same node and answer alike, with
    the same transfer or, for every error the engine returns, with the status
    that stands for the code.  They derive the same key from the same text in
    the field and the header unless it has 32 bytes - gRPC takes these as the
    key itself, REST hashes them -, and a request without a key in gRPC takes
    that of the metadata, which REST does not read. *)
Theorem services_agree now full md kg kr (t : Transfer) (n : Node) : wf_transfer t ->
  ((length kr <> 32%nat -> md = None -> kg = kr -> request_key (IdempotencyUnaryInterceptor md) kg = header_key kr)
   /\ (length kg = 32%nat -> request_key (IdempotencyUnaryInterceptor md) kg = header_key kr <-> kg = header_key kr))
  /\ (request_key (IdempotencyUnaryInterceptor md) kg = header_key kr ->
  match Handler_CreateTransfer now full (IdempotencyUnaryInterceptor md) (Some (grpc_request kg t)) n,
        handleCreateTransfer now full (rest_request kr t) n with
  | None, None => True
  | Some (n1, Ok p), Some (n2, resp) => n1 = n2
      /\ exists t', p = coreTransferToProto t' /\ resp = (StatusCreated, PTransfer (formatTransferResp t'))
  | Some (n1, Err c), Some (n2, resp) => n1 = n2 /\ resp = (code_status c, PError)
  | _, _ => False
  end).
Proof.
  intros Ht. split; [split|].
  - intros Hl -> ->. apply same_key_iff. rewrite (proj2 (Nat.eqb_neq _ _) Hl). unfold header_key.
    by destruct kr.
  - intros Hl. rewrite same_key_iff. by rewrite (proj2 (Nat.eqb_eq _ _) Hl).
  - intros Hk. destruct (rest_request_parsed kr t Ht) as (q & Eq & Ep).
    unfold Handler_CreateTransfer, handleCreateTransfer. rewrite (grpc_request_parsed _ _ kr), Eq by done.
    change (hr_IdempotencyKey (rest_request kr t)) with kr. rewrite Ep. rewrite bool_decide_true by done. cbn [negb].
    destruct (Requests.CreateTransfer now full (with_key_text kr t) n) as [[n' [t'|e]]|] eqn:E; [|split; [done|]|done].
    + split; [done|]. by exists t'.
    + unfold writeError, writeJSON. by rewrite transfer_status_code by (by eapply CreateTransfer_error).
Qed.

(** A key text of eight bytes: both services find no account. *)
Lemma services_agree_witness : wf_transfer (xfer 11 1 2 7 0 0) /\ exists n1 n2,
  Handler_CreateTransfer 1000 false None (Some (grpc_request (gostr "order-42") (xfer 11 1 2 7 0 0)))
    (mkNode (NewEventLoop NewAccountManager (Wal.Open [] 4096)) (NewIdempotencyStore 10 10) false) = Some (n1, Err NotFound)
  /\ handleCreateTransfer 1000 false (rest_request (gostr "order-42") (xfer 11 1 2 7 0 0))
    (mkNode (NewEventLoop NewAccountManager (Wal.Open [] 4096)) (NewIdempotencyStore 10 10) false) = Some (n2, (404, PError))
  /\ n1 = n2.
Proof.
  assert (Hw : wf_transfer (xfer 11 1 2 7 0 0)) by (by apply xfer_wf). split; [exact Hw|].
  set (n := mkNode _ _ _).
  destruct (services_agree 1000 false None (gostr "order-42") (gostr "order-42") (xfer 11 1 2 7 0 0) n Hw) as [[Hkey _] H].
  specialize (H (Hkey ltac:(by cbn) eq_refl eq_refl)). cbn [IdempotencyUnaryInterceptor] in H.
  assert (E : match Handler_CreateTransfer 1000 false None (Some (grpc_request (gostr "order-42") (xfer 11 1 2 7 0 0))) n with
    | Some (_, Err c) => bool_decide (c = NotFound) | _ => false end = true) by (vm_compute; reflexivity).
  destruct (Handler_CreateTransfer _ _ _ _ n) as [[n1 [p|c]]|]; [discriminate E| |discriminate E].
  apply bool_decide_eq_true in E. subst c.
  destruct (handleCreateTransfer _ _ _ n) as [[n2 resp]|]; [|destruct H]. destruct H as [Hn ->].
  exists n1, n2. split; [reflexivity|]. split; [reflexivity|exact Hn].
Defined.

(** Keys of 32 bytes are where they part: the one service hashes the text, the
    other takes it as the key. *)
Example long_keys_differ : let key := replicate 32 x61 in
  header_key key <> request_key None key /\ request_key None key = key.
Proof. cbv zeta. split; [|done]. intros H. apply (f_equal (fun k => k !! 0%nat)) in H. by vm_compute in H. Qed.

(** The engine's answer to a transfer from an account to itself is its own
    fault to both services, unless the account is the zero one: the target of
    [errors.Is] is the zero value. *)
Example self_transfer_internal id : id <> zeros 16 ->
  transferErrorStatus (ErrSelfTransfer id) = Internal /\ transfer_status (ErrSelfTransfer id) = StatusInternalServerError.
Proof.
  intros H. assert (E : errors_Is (ErrSelfTransfer id) (ErrSelfTransfer (zeros 16)) = false).
  { unfold errors_Is. apply bool_decide_false. by intros [= ?]. }
  unfold transferErrorStatus, transfer_status. by rewrite E.
Qed.

(** An absent amount is 0 to the single endpoint, which suits a post or void,
    and an error to the batch endpoint. *)
Example absent_amount : let q := mkCreateTransferReq (hex_encode (idn 7)) (hex_encode (idn 0)) (hex_encode (idn 0)) [] []
    TransferFlagVoidPending 0 0 0 [] in
  t_Amount <$> parse_single [] q = Some zero128 /\ parseTransferReq q = None.
Proof. split; vm_compute; reflexivity. Qed.

(** A code above 16 bits loses its high bits on the gRPC side. *)
Example code_truncated : t_Code <$> (match transfer_of_request None (mkProtoTransfer (idn 7) (idn 1) (idn 2)
    (Some (FromUint64 5)) [] 0 0 0 1 65537 []) with Ok t => Some t | Err _ => None end) = Some 1.
Proof. reflexivity. Qed.
