(* ===== verification/ServiceProps.v ===== *)
(** * Properties of the services: what a client reads back

    The REST service over a running ledger: what a successful request created is
    what the reads return.  Retries are in [RetryProps]. *)

From S2P Require Import Prelude Core Uint128 Codec Balance Accounts LedgerSpec AccountsRefine AccountsProps.
From S2P Require Import Transfers TransfersRefine TransfersProps Record Wal Recovery WalProps RecoveryProps.
From S2P Require Import Idempotency IdempotencyProps Engine EngineRefine EngineProps Checkpoint Requests RequestsProps.
From S2P Require Import Text Sha256 Api Rest ApiErrors TextProps ApiProps.

(** ** The engine, one request at a time *)

(** An accepted transfer is the request, stamped with the batch's clock, and
    the one operation of the batch. *)
Lemma submit_one_Ok now full t g g' t' : good (g_accounts g) -> holds_recorded (abs (g_accounts g)) ->
  is_i64 (batch_clock now g) -> wf_transfer t -> submit_one now full t g = (g', Ok t') ->
  t' = set_Timestamp (batch_clock now g) t /\ g_clock g' = batch_clock now g
  /\ spec_runs (closed (batch_clock now g) (abs (g_accounts g))) [t'] (abs (g_accounts g')).
Proof.
  intros Hg Hr Hi Hw. unfold submit_one. destruct full; [done|].
  pose proof (processBatch_clock now [t] g) as Hc. unfold processBatch in *. fold (batch_clock now g) in *.
  destruct (batch_ok (g_accounts g) (batch_clock now g) [t] Hg Hr Hi ltac:(by constructor)) as (_ & _ & m' & Eapp & _ & _ & Hrun & _).
  set (outs := ValidateBatch _ _) in *. cbn [fmap list_fmap] in *. rewrite Eapp in *. clearbody outs.
  set (l := match makeWALRecords _ _ with [] => _ | _ => _ end) in *. destruct l as [[w lsn] [err|]]; [done|].
  destruct outs as [|[e|] outs]; cbn [zip_with accepted] in *; try done. intros [= <- <-].
  split; [done|]. split; [done|]. by destruct outs.
Qed.

Lemma one_run_recorded L t L' : spec_runs L [t] L' -> is_settlement t = false -> l_transfers L' !! t_ID t = Some t.
Proof.
  intros H Hs. inversion_clear H as [|x ? ? ? ? _ _ _ _ Hrun]. apply runs_nil_inv in Hrun as ->.
  unfold spec_apply. destruct (effect x t L) as [[[dr cr] posted] pending]. cbn [spec_record l_transfers].
  unfold recorded. unfold is_settlement in Hs. rewrite Hs. by rewrite lookup_insert_eq.
Qed.

(** Creation by the state of the accounts alone; the log never refuses it. *)
Lemma create_one R m0 ids0 from pre size now g bs a : tracked R m0 ids0 from pre size now g bs -> 161 <= size ->
  wf_account a -> vPD a <= vPC a ->
  match l_accounts (abs (g_accounts g)) !! a_ID a with
  | Some _ => processAccountCreate [a] g = (g, [Some (ErrDuplicateAccountID (a_ID a))])
  | None => exists g', processAccountCreate [a] g = (g', [None]) /\ abs (g_accounts g') = spec_create a (abs (g_accounts g))
      /\ struct (g_accounts g')
  end.
Proof.
  intros Ht Hs Hw Hb. pose proof (tk_replay _ _ _ _ _ _ _ _ _ Ht) as (r & ids & _ & _ & Hg & _).
  assert (Hv : refusal (g_accounts g) a = match l_accounts (abs (g_accounts g)) !! a_ID a with
    Some _ => Some (ErrDuplicateAccountID (a_ID a)) | None => None end).
  { unfold refusal, ValidateAccount. destruct (Balance_total a (wf_amounts a Hw) Hb) as (b & -> & _). cbn [rbind].
    destruct (l_accounts _ !! _) as [b'|] eqn:E.
    - destruct (cell _ _ _ (proj1 Hg) E) as (i & -> & _). done.
    - by rewrite (proj2 (get_None _ _) E). }
  unfold processAccountCreate. cbn [account_records create_logged fmap list_fmap]. rewrite Hv.
  pose proof (Create_ok a (g_accounts g) Hg (wf_amounts a Hw)) as Hc.
  destruct (l_accounts _ !! _); [done|]. destruct Hc as (m' & Ec & Hg' & Am). rewrite Ec.
  assert (Hcb : client_batch size (account_record <$> [a])).
  { apply (records_client_batch _ 128); [done|done|lia| |cbn; lia]. constructor; [by apply account_record_shape|done]. }
  destruct (log_batch _ _ _ _ _ _ _ _ _ _ Ht Hs Hcb) as (w & Ew & _). cbn [fmap list_fmap] in Ew. rewrite Ew.
  eexists. split; [done|]. split; [done|]. apply Hg'.
Qed.

(** ** Paths *)

Definition get_request (path : gostring) : HTTPRequest := mkHTTPRequest MethodGet path [] [] [] BodyInvalid.
Definition post_request (path header : gostring) (b : Body) : HTTPRequest := mkHTTPRequest MethodPost path header [] [] b.

Lemma hex_id_ne (id : ID) s : length id = 16%nat -> length s <> 32%nat -> hex_encode id <> s.
Proof. intros Hl Hs <-. by rewrite length_hex_encode, Hl in Hs. Qed.

(** No hex digit is one of the letters of a route. *)
Lemma hex_no_suffix (id : ID) p c : hex_value c = None -> last p = Some c -> HasSuffix p (hex_encode id) = false.
Proof.
  intros Hc Hp. unfold HasSuffix. destruct (_ <=? _)%nat; [|done]. apply bool_decide_false. intros E.
  assert (Hl : last (hex_encode id) = Some c).
  { rewrite <- (take_drop (length (hex_encode id) - length p) (hex_encode id)), E. by rewrite last_app, Hp. }
  clear E. destruct id as [|x id] using rev_ind; [done|].
  assert (Ea : hex_encode (id ++ [x]) = hex_encode id ++ hex_pair x) by (unfold hex_encode; by rewrite fmap_app, concat_app).
  rewrite Ea, last_app in Hl. destruct (hex_pair_decodes x) as (a & b & Ex & _ & Eb & _). rewrite Ex in Hl. cbn in Hl.
  injection Hl as <-. congruence.
Qed.

Section Routes.
Context (now : Z) (full : bool) (cp : Checkpointer) (rd : option bool) (n : Node).

Lemma route_get_transfer (id : ID) : length id = 16%nat ->
  ServeHTTP now full cp rd (get_request (gostr "/v1/transfers/" ++ hex_encode id)) n
  = Some (n, match Ledger_GetTransfer id n with
             | Err (ErrTransferNotFound _) => writeError StatusNotFound
             | Err _ => writeError StatusInternalServerError
             | Ok tr => writeJSON StatusOK (PTransfer (formatTransferResp tr))
             end).
Proof.
  intros Hl. unfold ServeHTTP. cbn [hr_Path get_request].
  pose proof (hex_id_ne id [] Hl ltac:(done)) as Hne. pose proof (hex_id_ne id (gostr "batch") Hl ltac:(done)) as Hnb.
  unfold handleGetTransfer. cbn [hr_Path hr_Method get_request]. rewrite TrimPrefix_app.
  rewrite (decide_False (P:=hex_encode id = [])) by done. rewrite parseHexID_hex by done.
  by repeat (rewrite bool_decide_false by (cbn; intros H; simplify_eq)).
Qed.

Lemma route_get_account (id : ID) : length id = 16%nat ->
  ServeHTTP now full cp rd (get_request (gostr "/v1/accounts/" ++ hex_encode id)) n
  = Some (n, match Requests.GetAccount id n with
             | Err (ErrAccountNotFound _) => writeError StatusNotFound
             | Err _ => writeError StatusInternalServerError
             | Ok acc =>
                 match formatAccountResp acc with
                 | Err _ => writeError StatusInternalServerError
                 | Ok resp => writeJSON StatusOK (PAccount resp)
                 end
             end).
Proof.
  intros Hl. unfold ServeHTTP. cbn [hr_Path get_request].
  pose proof (hex_id_ne id [] Hl ltac:(done)) as Hne. pose proof (hex_id_ne id (gostr "batch") Hl ltac:(done)) as Hnb.
  unfold handleGetAccount. cbn [hr_Path hr_Method get_request]. rewrite TrimPrefix_app.
  rewrite (decide_False (P:=hex_encode id = [])) by done. rewrite parseHexID_hex by done.
  rewrite (hex_no_suffix id _ x73) by done.
  by repeat (rewrite bool_decide_false by (cbn; intros H; simplify_eq)).
Qed.
End Routes.

(** ** Transfers *)

(** The key of a transfer was committed before, and is still remembered. *)
Definition seen (now : Z) (t : Transfer) (ids : IdempotencyStore) : bool :=
  if no_key t then false
  else match (CheckAndReserve now (t_IdempotencyKey t) ids).2 with Ok (_, true) => true | _ => false end.

Lemma CreateTransfer_new now full t n n' t' : CreateTransfer now full t n = Some (n', Ok t') ->
  seen now t (n_idempKey n) = false -> submit_one now full t (n_engine n) = (n_engine n', Ok t').
Proof.
  unfold CreateTransfer, seen. destruct (n_isFollower n); [done|].
  destruct (submit_one now full t (n_engine n)) as [g [t1|e]]; destruct (no_key t); try done.
  - by intros [= <- <-] _.
  - destruct (CheckAndReserve _ _ _) as [ids [[ex []]|]]; cbn [snd]; try done.
    destruct (Commit _ _ _ _); [|done]. by intros [= <- <-] _.
  - destruct (CheckAndReserve _ _ _) as [ids [[ex []]|]]; done.
Qed.

Lemma post_transfer now full cp rd header q n :
  ServeHTTP now full cp rd (post_request (gostr "/v1/transfers") header (BodyTransfer q)) n
  = match parse_single header q with
    | None => Some (n, writeError StatusBadRequest)
    | Some tr =>
        match Requests.CreateTransfer now full tr n with
        | None => None
        | Some (n, Err err) => Some (n, writeError (transfer_status err))
        | Some (n, Ok res) => Some (n, writeJSON StatusCreated (PTransfer (formatTransferResp res)))
        end
    end.
Proof. done. Qed.

(** A created transfer reads back.  On any running ledger, when the REST
    service answers a transfer with 201, the answer is the transfer of the
    request, stamped with the batch's clock, and the read of the ID it prints
    returns 200 with the very same body; for a post or void, which answers for
    its hold, and a key seen before, which answers with the earlier transfer,
    nothing is said. *)
Theorem created_transfer_reads_back size C cs n now full cp rd header q n' resp :
  161 <= size -> C < 2 ^ 63 -> Forall (command_ok C) cs -> n_engine n = run cs (fresh size) ->
  batch_clock now (n_engine n) <= C -> typed_transferReq q ->
  ServeHTTP now full cp rd (post_request (gostr "/v1/transfers") header (BodyTransfer q)) n
    = Some (n', (StatusCreated, PTransfer resp)) ->
  exists t, parse_single header q = Some t /\
    (seen now t (n_idempKey n) = false -> is_settlement t = false ->
     resp = formatTransferResp (set_Timestamp (g_clock (n_engine n')) t)
     /\ forall now' full', ServeHTTP now' full' cp rd (get_request (gostr "/v1/transfers/" ++ rt_ID resp)) n'
          = Some (n', (StatusOK, PTransfer resp))).
Proof.
  intros Hsize HC Hcs En Hcl Hq. rewrite post_transfer. destruct (parse_single header q) as [t|] eqn:Et; [|by intros [= _ ?]].
  intros E. exists t. split; [done|]. intros Hs Hst. apply parse_single_wf in Et as [Hw _]; [|done].
  destruct (CreateTransfer now full t n) as [[n1 [t'|e]]|] eqn:Ec; [|by injection E|done]. injection E as -> <-.
  apply CreateTransfer_new in Ec; [|done]. pose proof (batch_clock_gt now (n_engine n)) as Hgt.
  destruct (run_consistent size 0 (NewIdempotencyStore 1 1) C cs (fresh size)
    (fresh_consistent _ _ _ Hsize (settled_new 1 1)) Hsize HC Hcs ltac:(rewrite <- En; lia)) as (bs & Hco & _).
  rewrite <- En in Hco. pose proof (tk_clock _ _ _ _ _ _ _ _ _ Hco) as H0.
  pose proof (tk_replay _ _ _ _ _ _ _ _ _ Hco) as (r & ids & _ & _ & Hm & _ & Hrec & _).
  apply submit_one_Ok in Ec as (-> & Hclk & Hrun); [|done|done|unfold is_i64; lia|done].
  split; [by rewrite Hclk|]. intros now' full'. cbn [formatTransferResp rt_ID]. rewrite route_get_transfer by apply Hw.
  apply one_run_recorded in Hrun; [|done]. cbn [abs l_transfers] in Hrun.
  unfold Ledger_GetTransfer, handleReadTransfer, GetTransfer. by rewrite Hrun.
Qed.

(** ** Accounts *)

(** A new account prints: its balances are its initial credits. *)
Lemma created_formats a : wf_account a -> vPD a = 0 -> vHD a = 0 -> vHC a = 0 ->
  exists resp, formatAccountResp a = Ok resp /\ ra_ID resp = hex_encode (a_ID a)
    /\ ra_Balance resp = Uint128.String (a_PostedCredits a) /\ ra_AvailableBalance resp = Uint128.String (a_PostedCredits a).
Proof.
  intros Hw Hd Hh Hc. unfold formatAccountResp. pose proof (wf_amounts a Hw) as Ha.
  assert (Hr : 0 <= vPC a < 2 ^ 128) by apply (val_range _ (wfa_pc _ Hw)).
  destruct (Balance_total a Ha ltac:(lia)) as (b & Eb & Wb & Vb).
  destruct (AvailableBalance_total a Ha ltac:(lia) ltac:(lia)) as (v & Ev).
  destruct (AvailableBalance_Ok a v Ha Ev) as (Wv & Vv & _). rewrite Eb, Ev. cbn [rbind].
  assert (Ex : b = a_PostedCredits a) by (apply val_inj; [done|apply Hw|]; change (val b = vPC a); lia).
  assert (Ey : v = a_PostedCredits a) by (apply val_inj; [done|apply Hw|]; change (val v = vPC a); lia).
  eexists. split; [done|]. by rewrite Ex, Ey.
Qed.

Lemma post_account now full cp rd header q n :
  ServeHTTP now full cp rd (post_request (gostr "/v1/accounts") header (BodyAccount q)) n
  = Some (match parse_account q with
          | None => (n, writeError StatusBadRequest)
          | Some acc =>
              match Requests.CreateAccount acc n with
              | (n, Err err) => (n, writeError (account_status err))
              | (n, Ok created) =>
                  match formatAccountResp created with
                  | Err _ => (n, writeError StatusInternalServerError)
                  | Ok resp => (n, writeJSON StatusCreated (PAccount resp))
                  end
              end
          end).
Proof. done. Qed.

(** C32. Account creation on every branch.  On any running ledger the REST
    service answers a well-typed request to create an account with 400 when a
    field does not parse, 503 on a follower and 409 when the ID is taken, each
    time leaving the node as it was, and with 201 otherwise, never with 500:
    then exactly that account was added to the ledger, its balances are its
    initial credits, and the read of the ID it prints returns 200 with the very
    same body. *)
Theorem account_creation_answers size C cs n now full cp rd header q :
  161 <= size -> C < 2 ^ 63 -> Forall (command_ok C) cs -> n_engine n = run cs (fresh size) ->
  g_clock (n_engine n) <= C -> typed_accountReq q ->
  exists n' resp,
    ServeHTTP now full cp rd (post_request (gostr "/v1/accounts") header (BodyAccount q)) n = Some (n', resp)
    /\ match parse_account q with
       | None => n' = n /\ resp = (StatusBadRequest, PError)
       | Some a =>
           if n_isFollower n then n' = n /\ resp = (StatusServiceUnavailable, PError)
           else match l_accounts (abs (g_accounts (n_engine n))) !! a_ID a with
                | Some _ => n' = n /\ resp = (StatusConflict, PError)
                | None => abs (g_accounts (n_engine n')) = spec_create a (abs (g_accounts (n_engine n)))
                    /\ exists body, resp = (StatusCreated, PAccount body)
                         /\ ra_Balance body = Uint128.String (a_PostedCredits a)
                         /\ ra_AvailableBalance body = Uint128.String (a_PostedCredits a)
                         /\ forall now' full',
                              ServeHTTP now' full' cp rd (get_request (gostr "/v1/accounts/" ++ ra_ID body)) n'
                              = Some (n', (StatusOK, PAccount body))
                end
       end.
Proof.
  intros Hsize HC Hcs En Hcl Hq. rewrite post_account.
  destruct (parse_account q) as [a|] eqn:Ea; [|by exists n, (StatusBadRequest, PError)].
  apply parse_account_wf in Ea as (Hw & Hd & Hh & Hc); [|done].
  unfold Requests.CreateAccount, Requests.CreateAccounts.
  destruct (n_isFollower n) eqn:Ef; [by exists n, (StatusServiceUnavailable, PError)|]. cbn [length Nat.eqb].
  rewrite (proj2 (Z.ltb_ge _ _)) by done.
  destruct (run_consistent size 0 (NewIdempotencyStore 1 1) C cs (fresh size)
    (fresh_consistent _ _ _ Hsize (settled_new 1 1)) Hsize HC Hcs ltac:(by rewrite <- En)) as (bs & Hco & _).
  rewrite <- En in Hco. pose proof (val_range _ (wfa_pc _ Hw)).
  pose proof (create_one _ _ _ _ _ _ _ _ _ a Hco Hsize Hw ltac:(unfold vPC in *; lia)) as Hone.
  destruct (l_accounts _ !! a_ID a) as [b|] eqn:El.
  - rewrite Hone. exists n, (StatusConflict, PError). cbn [zip_with zip]. split; [|done]. by destruct n; cbn in Ef; subst.
  - destruct Hone as (g' & -> & Habs & Hst). cbn [zip zip_with].
    destruct (created_formats a Hw Hd Hh Hc) as (body & Eb & Ei & Ebal & Eav). rewrite Eb.
    eexists _, _. split; [done|]. cbn [n_engine]. split; [done|]. exists body. split; [done|]. split; [done|]. split; [done|].
    intros now' full'. rewrite Ei, route_get_account by apply Hw. unfold Requests.GetAccount, handleRead. cbn [n_engine].
    assert (Hl : l_accounts (abs (g_accounts g')) !! a_ID a = Some a) by (rewrite Habs; apply lookup_insert_eq).
    destruct (cell _ _ _ Hst Hl) as (i & -> & -> & _). by rewrite Eb.
Qed.

(** ** Witnesses *)

(** A request for 7. *)
Definition demo_body (n d c : Z) : createTransferReq :=
  mkCreateTransferReq (hex_encode (idn n)) (hex_encode (idn d)) (hex_encode (idn c)) (gostr "7") [] 0 0 1 0 [].
Definition answers (status : Z) (r : option (Node * Response)) : bool :=
  match r with Some (_, (s, _)) => s =? status | None => false end.
Definition demo_cp : Checkpointer := mkCheckpointer true false false 0.

Lemma demo_commands C : C + 50 < 2 ^ 63 -> Forall (command_ok C) [demo_accounts].
Proof. intros H. constructor; [|constructor]. pose proof (demo_ok C H) as Hd. by inversion Hd. Qed.

Lemma created_transfer_reads_back_witness : exists n' resp,
  ServeHTTP 1000 false demo_cp None (post_request (gostr "/v1/transfers") [] (BodyTransfer (demo_body 11 1 2))) (node_of 4096)
    = Some (n', (StatusCreated, PTransfer resp))
  /\ ServeHTTP 1001 false demo_cp None (get_request (gostr "/v1/transfers/" ++ rt_ID resp)) n' = Some (n', (StatusOK, PTransfer resp)).
Proof.
  assert (Hq : typed_transferReq (demo_body 11 1 2)) by (by constructor).
  assert (E : match ServeHTTP 1000 false demo_cp None
    (post_request (gostr "/v1/transfers") [] (BodyTransfer (demo_body 11 1 2))) (node_of 4096) with
    | Some (_, (s, PTransfer _)) => s =? StatusCreated | _ => false end = true) by (vm_compute; reflexivity).
  destruct (ServeHTTP 1000 _ _ _ _ _) as [[n' [s []]]|] eqn:Eq; try discriminate E. apply Z.eqb_eq in E. subst s.
  exists n', r. split; [reflexivity|].
  destruct (created_transfer_reads_back 4096 5000 [demo_accounts] (node_of 4096) 1000 false demo_cp None []
    (demo_body 11 1 2) n' r) as (t & Et & H).
  - lia.
  - lia.
  - apply demo_commands. lia.
  - reflexivity.
  - vm_compute. discriminate.
  - exact Hq.
  - exact Eq.
  - assert (Hn : match parse_single [] (demo_body 11 1 2) with
      | Some t => negb (seen 1000 t (n_idempKey (node_of 4096))) && negb (is_settlement t) | None => false end = true)
      by (vm_compute; reflexivity).
    rewrite Et in Hn. apply andb_prop in Hn as [H1%negb_true_iff H2%negb_true_iff].
    destruct (H H1 H2) as [_ Hget]. apply Hget.
Defined.

Definition demo_account (n : Z) : createAccountReq :=
  mkCreateAccountReq (hex_encode (idn n)) (gostr "USD") (gostr "25") 1 0 [] 0.

Lemma account_creation_answers_witness : exists n' body,
  ServeHTTP 1000 false demo_cp None (post_request (gostr "/v1/accounts") [] (BodyAccount (demo_account 3))) (node_of 4096)
    = Some (n', (StatusCreated, PAccount body))
  /\ ra_Balance body = gostr "25"
  /\ ServeHTTP 1001 false demo_cp None (get_request (gostr "/v1/accounts/" ++ ra_ID body)) n' = Some (n', (StatusOK, PAccount body)).
Proof.
  destruct (account_creation_answers 4096 5000 [demo_accounts] (node_of 4096) 1000 false demo_cp None [] (demo_account 3))
    as (n' & resp & E & H).
  - lia.
  - lia.
  - apply demo_commands. lia.
  - reflexivity.
  - vm_compute. discriminate.
  - by constructor.
  - assert (Ep : parse_account (demo_account 3)
      = Some (mkAccount (idn 3) (gostr "USD" ++ [x00]) 1 0 0 (zeros 16) zero128 (FromUint64 25) zero128 zero128))
      by (vm_compute; reflexivity).
    rewrite Ep in H. cbn [n_isFollower node_of] in H.
    assert (Hl : l_accounts (abs (g_accounts (n_engine (node_of 4096)))) !! idn 3 = None) by (vm_compute; reflexivity).
    cbn [a_ID] in H. rewrite Hl in H. destruct H as (_ & body & -> & Hb & _ & Hget).
    exists n', body. split; [exact E|]. split; [rewrite Hb; reflexivity|apply Hget].
Defined.

(** ** A key for a whole batch *)

(** The key of the metadata becomes the key of every item that has none of its
    own, and the engine lets a key be used once in a batch: the first item is
    applied and the others are refused. *)
Example batch_shares_context_key : let key := replicate 32 x61 in
  (match Handler_CreateTransfers 1000 (IdempotencyUnaryInterceptor (Some [key]))
     [Some (grpc_request [] (xfer 11 1 2 7 0 0)); Some (grpc_request [] (xfer 12 1 2 3 0 0))] (node_of 4096) with
   | Some (_, Ok rs) => Some ((fun r => match r with Ok _ => None | Err e => Some e end) <$> rs)
   | _ => None
   end) = Some [None; Some (ErrIdempotencyConflict key)].
Proof. vm_compute. reflexivity. Qed.
