(* ===== verification/RetryProps.v ===== *)
(** * Retries among other traffic

    A committed key stays in the store while other requests come and go: an
    entry goes only when it expires, or when the store holds more keys than
    [maxSize] and the entry is the least recent.  So a retried request is
    applied once, whatever else is served meanwhile, until its key expires or
    the requests since the first use more keys than the store may hold. *)

From S2P Require Import Prelude Core Uint128 Codec Balance Accounts LedgerSpec AccountsRefine AccountsProps.
From S2P Require Import Transfers TransfersRefine TransfersProps Record Wal Recovery WalProps RecoveryProps.
From S2P Require Import Idempotency IdempotencyProps Engine EngineRefine EngineProps Checkpoint Requests RequestsProps.
From S2P Require Import Text Sha256 Api Rest ApiErrors TextProps ApiProps ServiceProps.

(** ** An entry that stays *)

Lemma evict_behind now A x B : expired now x = false -> evict now (A ++ x :: B) = A ++ x :: evict now B.
Proof.
  intros Hx. induction B as [|y B IH] using rev_ind; [by rewrite evict_snoc, Hx|].
  change (A ++ x :: B ++ [y]) with (A ++ (x :: B) ++ [y]). rewrite app_assoc, !evict_snoc.
  destruct (expired now y); [done|]. by rewrite <- app_assoc.
Qed.

Lemma drop_key_split key A x B : sl_key x <> key -> drop_key key (A ++ x :: B) = drop_key key A ++ x :: drop_key key B.
Proof. intros Hx. unfold drop_key. by rewrite filter_app, filter_cons_True. Qed.

Lemma find_key_split key A x B : NoDup (sl_key <$> A ++ x :: B) -> sl_key x = key -> find_key key (A ++ x :: B) = Some x.
Proof.
  intros Hn <-. unfold find_key. rewrite fmap_app in Hn. apply NoDup_app in Hn as (_ & Hd & _).
  rewrite list_find_app_r.
  - cbn [list_find]. by rewrite decide_True.
  - apply list_find_None, Forall_forall. intros y Hy E. apply (Hd (sl_key y)).
    + by apply list_elem_of_fmap_2.
    + rewrite E. cbn. by left.
Qed.

Section Remembered.
Context (k : Key) (t : Transfer) (deadline : Z) (Ks : gset Key) (M : Z).

(** The entry is in the list, the entries before it have keys in [Ks], and no
    entry behind it is pending. *)
Definition kept (L : list slot) : Prop :=
  exists A B, L = A ++ mkSlot k t false deadline :: B /\ Forall (fun y => sl_key y ∈ Ks) A
    /\ Forall (fun y => sl_pending y = false) B.

Definition remembers (ids : IdempotencyStore) : Prop :=
  st_maxSize ids = M /\ exists l, rep ids l /\ kept (view ids l).

Lemma kept_evict now L : now < deadline -> kept L -> kept (evict now L).
Proof using.
  intros Hn (A & B & -> & HA & HB). rewrite evict_behind by (unfold expired; cbn; lia).
  exists A, (evict now B). split; [done|]. split; [done|]. by apply evict_Forall.
Qed.

Lemma kept_drop key L : key <> k -> kept L -> kept (drop_key key L).
Proof using.
  intros Hne (A & B & -> & HA & HB). rewrite drop_key_split by (cbn; congruence).
  exists (drop_key key A), (drop_key key B). split; [done|]. split; by apply drop_Forall.
Qed.

Lemma kept_cons x L : sl_key x ∈ Ks -> kept L -> kept (x :: L).
Proof using. intros Hx (A & B & -> & HA & HB). exists (x :: A), B. split; [done|]. split; [by constructor|done]. Qed.

Lemma kept_find L : NoDup (sl_key <$> L) -> kept L -> find_key k L = Some (mkSlot k t false deadline).
Proof using. intros Hn (A & B & -> & _). by apply find_key_split. Qed.

(** A reservation of any key keeps the entry, and finds it by its own. *)
Lemma remembers_check now key ids : now < deadline -> remembers ids -> key = k \/ key ∈ Ks ->
  let '(ids', r) := CheckAndReserve now key ids in
  remembers ids' /\ (key = k -> ids' = ids /\ r = Ok (t, true)).
Proof using.
  intros Hnow (Hm & l & Hr & Hk) Hkey. pose proof (kept_find _ (keys_distinct _ _ Hr) Hk) as Hf.
  destruct (decide (key = k)) as [->|Hne].
  - destruct (st_entries ids !! k) as [a|] eqn:Ea; [|destruct (find_none _ _ _ Hr Ea); congruence].
    destruct (find_some _ _ _ _ Hr Ea) as (la & lb & -> & Hf' & _ & _). rewrite Hf in Hf'.
    apply (f_equal (default (slot_of zeroEntry))) in Hf'. cbn [default] in Hf'. unfold CheckAndReserve. rewrite Ea.
    pose proof (f_equal sl_pending Hf') as H1. pose proof (f_equal sl_expires Hf') as H2.
    pose proof (f_equal sl_transfer Hf') as H3. cbn in H1, H2, H3. rewrite <- H1, <- H2, <- H3.
    rewrite (proj2 (Z.ltb_lt _ _)) by done. split; [|done]. split; [done|]. by exists (la ++ a :: lb).
  - destruct Hkey as [?|Hin]; [done|]. pose proof (check_ok now key ids l Hr) as H.
    destruct (CheckAndReserve now key ids) as [ids' r]. unfold spec_check in H.
    assert (Hgo : forall L, becomes ids ids' L -> kept L -> remembers ids' /\ (key = k -> ids' = ids /\ r = Ok (t, true))).
    { intros L (l' & Hr' & <- & Hm' & _) HL. split; [|done]. split; [by rewrite Hm'|]. by exists l'. }
    destruct (find_key key (view ids l)) as [x|].
    + destruct (sl_pending x), (now <? sl_expires x); destruct H as [H _]; apply (Hgo _ H); try done.
      apply kept_cons; [done|]. apply kept_drop; [done|]. by apply kept_evict.
    + destruct H as [H _]. apply (Hgo _ H). apply kept_cons; [done|]. by apply kept_evict.
Qed.

Lemma remembers_rollback key ids : remembers ids -> remembers (Rollback key ids).
Proof using.
  intros (Hm & l & Hr & Hk). pose proof (kept_find _ (keys_distinct _ _ Hr) Hk) as Hf.
  destruct (rollback_ok key ids l Hr) as (l' & Hr' & Hv & Hm' & _). split; [by rewrite Hm'|]. exists l'.
  split; [done|]. rewrite Hv. unfold spec_rollback. destruct (find_key key (view ids l)) as [x|] eqn:E; [|done].
  destruct (sl_pending x) eqn:Ep; [|done]. apply kept_drop; [|done]. intros ->. rewrite Hf in E.
  apply (f_equal (default x)) in E. cbn in E. by subst x.
Qed.

(** ** The eviction of a full store *)

Context (Hbound : Z.of_nat (size ({[k]} ∪ Ks)) <= M).

Lemma front_bound A x B : NoDup (sl_key <$> A ++ x :: B) -> sl_key x = k -> Forall (fun y => sl_key y ∈ Ks) A ->
  Z.of_nat (length (A ++ [x])) <= M.
Proof using Hbound.
  intros Hn Hx HA. etransitivity; [|exact Hbound]. apply Nat2Z.inj_le.
  rewrite <- (length_fmap sl_key (A ++ [x])). change (A ++ x :: B) with (A ++ [x] ++ B) in Hn.
  rewrite app_assoc, fmap_app in Hn. apply NoDup_app in Hn as (Hn & _).
  rewrite <- (size_list_to_set (C := gset Key)) by done. apply subseteq_size. intros key Hkey.
  apply elem_of_list_to_set, list_elem_of_fmap in Hkey as (y & -> & Hy).
  apply elem_of_app in Hy as [Hy| ->%list_elem_of_singleton]; [|set_solver].
  rewrite Forall_forall in HA. specialize (HA y Hy). set_solver.
Qed.

(** Only entries behind it are evicted. *)
Lemma shrink_keeps fuel A x B L' : sl_pending x = false -> Forall (fun y => sl_pending y = false) B ->
  Z.of_nat (length (A ++ [x])) <= M -> spec_shrink fuel M (A ++ x :: B) = Some L' ->
  exists B', L' = A ++ x :: B' /\ Forall (fun y => sl_pending y = false) B'.
Proof using.
  clear Hbound. intros Hx. revert B. induction fuel as [|fuel IH]; intros B HB Hl; cbn [spec_shrink].
  all: destruct (Z.leb_spec (Z.of_nat (length (A ++ x :: B))) M) as [Hle|Hgt]; [intros [= <-]; by exists B|].
  { done. }
  destruct B as [|y B _] using rev_ind; [rewrite length_app in *; simpl in *; lia|].
  apply Forall_app in HB as [HB Hy]. apply Forall_cons in Hy as [Hy _].
  change (A ++ x :: B ++ [y]) with (A ++ (x :: B) ++ [y]). rewrite app_assoc, evict_lru_snoc, Hy. by apply IH.
Qed.

Lemma remembers_commit now key res ids ids' : now < deadline -> remembers ids -> key <> k -> key ∈ Ks ->
  Commit now key res ids = Some ids' -> remembers ids'.
Proof using Hbound.
  intros Hnow (Hm & l & Hr & Hk) Hne Hin E. pose proof (commit_ok now key res ids l Hr) as H.
  destruct (commit_entry_ok now key res ids l Hr) as (l1 & Hr1 & Hv1 & _ & _).
  pose proof (keys_distinct _ _ Hr1) as Hn. rewrite Hv1 in Hn.
  assert (HK : kept (spec_commit_entry (st_ttl ids) now key res (view ids l))).
  { apply kept_cons; [done|]. apply kept_drop; [done|]. by apply kept_evict. }
  unfold spec_commit in H. rewrite Hm in H. destruct HK as (A & B & EL & HA & HB). rewrite EL in H, Hn.
  pose proof (front_bound A _ B Hn eq_refl HA) as Hl.
  destruct (spec_shrink _ _ _) as [L|] eqn:Es; [|congruence].
  destruct (shrink_keeps _ A (mkSlot k t false deadline) B L eq_refl HB Hl Es) as (B' & -> & HB').
  destruct H as (s & Es' & l' & Hr' & Hv' & Hm' & _). rewrite E in Es'. injection Es' as <-.
  split; [by rewrite Hm'|]. exists l'. split; [done|]. rewrite Hv'. exists A, B'. by split.
Qed.
End Remembered.

(** A commit on a store without other reservations puts the entry first. *)
Lemma commit_remembers now k t Ks ids ids' : quiet [k] ids -> Commit now k t ids = Some ids' ->
  remembers k t (now + st_ttl ids) Ks (st_maxSize ids) ids'.
Proof.
  intros (l & Hr & Hf & Hm) E. pose proof (commit_ok now k t ids l Hr) as H. unfold spec_commit, spec_commit_entry in H.
  set (T := drop_key k (evict now (view ids l))) in *. set (x := mkSlot k t false (now + st_ttl ids)) in *.
  assert (HT : pendings T = []).
  { apply pendings_nil. assert (Ho : Forall (fun x => sl_pending x = true -> sl_key x ∈ []) T) by (by apply others_kept, evict_Forall).
    eapply Forall_impl; [exact Ho|]. intros y Hy. cbn in Hy. destruct (sl_pending y); [|done].
    by destruct (not_elem_of_nil _ (Hy eq_refl)). }
  assert (Hp : pendings (x :: T) = []) by (by rewrite pendings_cons_false).
  destruct (shrink_returns (length (x :: T)) (st_maxSize ids) (x :: T)) as (L' & Es & _ & Hpe & Hh); [rewrite Hp; cbn; lia|done|].
  rewrite Es in H. destruct H as (s & Es' & l' & Hr' & Hv' & Hm' & _). rewrite E in Es'. injection Es' as <-.
  destruct (Hh x T eq_refl) as [T' ->]; [rewrite HT; cbn; lia|]. rewrite Hp in Hpe.
  split; [done|]. exists l'. split; [done|]. rewrite Hv'. exists [], T'. split; [done|]. split; [by constructor|].
  apply pendings_nil in Hpe. by apply Forall_cons in Hpe as [_ ?].
Qed.

(** ** The calls of other clients *)

Section Traffic.
Context (k : Key) (t : Transfer) (deadline : Z) (Ks : gset Key) (M : Z).
Context (Hbound : Z.of_nat (size ({[k]} ∪ Ks)) <= M) (Hk : k <> zeros 32).

(** A node that still has the answer for [k]. *)
Definition has_answer (n : Node) : Prop := n_isFollower n = false /\ remembers k t deadline Ks M (n_idempKey n).

Definition keys_in (ts : list Transfer) : Prop :=
  Forall (fun t => no_key t = false -> t_IdempotencyKey t = k \/ t_IdempotencyKey t ∈ Ks) ts.

(** The answer of the call itself. *)
Lemma answered now full t2 n : has_answer n -> now < deadline -> t_IdempotencyKey t2 = k ->
  CreateTransfer now full t2 n = Some (n, Ok t).
Proof using Hk.
  intros [Hf Hr] Hnow Ek. unfold CreateTransfer.
  assert (Hn : no_key t2 = false) by (unfold no_key; rewrite Ek; by apply bool_decide_false).
  rewrite Hf, Hn, Ek. pose proof (remembers_check _ _ _ _ _ now k _ Hnow Hr (or_introl eq_refl)) as H.
  destruct (CheckAndReserve now k (n_idempKey n)) as [ids r]. destruct H as (_ & H).
  destruct (H eq_refl) as [-> ->]. destruct n as [g ids' b]. cbn in *. by subst b.
Qed.

Lemma CreateTransfer_keeps now full t2 n n' r : has_answer n -> now < deadline ->
  (no_key t2 = false -> t_IdempotencyKey t2 = k \/ t_IdempotencyKey t2 ∈ Ks) ->
  CreateTransfer now full t2 n = Some (n', r) -> has_answer n'.
Proof using Hbound.
  intros [Hf Hr] Hnow Hin. unfold CreateTransfer. rewrite Hf. destruct (no_key t2).
  { destruct (submit_one now full t2 (n_engine n)) as [g r']. by intros [= <- <-]. }
  specialize (Hin eq_refl). pose proof (remembers_check _ _ _ _ _ now _ _ Hnow Hr Hin) as H.
  destruct (CheckAndReserve now (t_IdempotencyKey t2) (n_idempKey n)) as [ids [[ex []]|e]]; [by intros [= <- <-]; destruct H| |done].
  destruct H as [Hr' Hk']. assert (Hne : t_IdempotencyKey t2 <> k) by (intros E0; by destruct (Hk' E0)).
  destruct Hin as [?|Hin]; [done|].
  destruct (submit_one now full t2 (n_engine n)) as [g [t'|e]].
  - destruct (Commit _ _ _ ids) as [ids2|] eqn:Ec; [|done]. intros [= <- <-]. split; [done|].
    eapply remembers_commit; eassumption.
  - intros [= <- <-]. split; [done|]. by apply remembers_rollback.
Qed.

Lemma reserve_keys_keep now batch : forall seen ids plan ids', remembers k t deadline Ks M ids -> now < deadline ->
  keys_in batch -> k ∉ seen -> reserve_keys now batch seen ids = Some (plan, ids') ->
  remembers k t deadline Ks M ids' /\ k ∉ keyed (queued batch plan).
Proof using.
  clear Hbound Hk. induction batch as [|t2 batch IH]; intros seen ids plan ids' Hr Hnow HK Hs; cbn [reserve_keys].
  { intros [= <- <-]. split; [done|]. apply not_elem_of_nil. }
  apply Forall_cons in HK as [Hin HK]. destruct (no_key t2) eqn:En.
  { destruct (reserve_keys now batch seen ids) as [[rest ids1]|] eqn:E; [|done]. intros [= <- <-].
    destruct (IH _ _ _ _ Hr Hnow HK Hs E) as [? Hq]. split; [done|]. cbn [queued]. by rewrite keyed_cons, En. }
  specialize (Hin eq_refl). destruct (decide _) as [Hd|Hd].
  { destruct (reserve_keys now batch seen ids) as [[rest ids1]|] eqn:E; [|done]. intros [= <- <-].
    by apply (IH _ _ _ _ Hr Hnow HK Hs E). }
  pose proof (remembers_check _ _ _ _ _ now _ _ Hnow Hr Hin) as H.
  destruct (CheckAndReserve now (t_IdempotencyKey t2) ids) as [ids2 [[ex []]|e]]; [..|done]; destruct H as [Hr2 Hk2].
  - destruct (reserve_keys now batch seen ids2) as [[rest ids1]|] eqn:E; [|done]. intros [= <- <-].
    by apply (IH _ _ _ _ Hr2 Hnow HK Hs E).
  - assert (Hne : t_IdempotencyKey t2 <> k) by (intros E0; by destruct (Hk2 E0)).
    destruct (reserve_keys now batch _ ids2) as [[rest ids1]|] eqn:E; [|done]. intros [= <- <-].
    destruct (IH ({[t_IdempotencyKey t2]} ∪ seen) _ _ _ Hr2 Hnow HK ltac:(set_solver) E) as [? Hq]. split; [done|]. cbn [queued].
    rewrite keyed_cons, En. set_solver.
Qed.

Lemma settle_keys_keep now acks : forall ids ids', remembers k t deadline Ks M ids -> now < deadline ->
  Forall (fun a => no_key (ack_Transfer a) = false ->
            t_IdempotencyKey (ack_Transfer a) <> k /\ t_IdempotencyKey (ack_Transfer a) ∈ Ks) acks ->
  settle_keys now acks ids = Some ids' -> remembers k t deadline Ks M ids'.
Proof using Hbound.
  induction acks as [|a acks IH]; intros ids ids' Hr Hnow HA; cbn [settle_keys]; [by intros [= <-]|].
  apply Forall_cons in HA as [Ha HA]. destruct (no_key (ack_Transfer a)); [by apply IH|].
  destruct (Ha eq_refl) as [Hne Hin]. destruct (ack_Err a).
  - apply IH; [by apply remembers_rollback|done|done].
  - destruct (Commit _ _ _ ids) as [ids2|] eqn:Ec; [|done]. cbn [mbind option_bind].
    apply IH; [|done|done]. eapply remembers_commit; eassumption.
Qed.

(** An acknowledgement has the key of an event of the batch, or none. *)
Lemma ack_keys now events g : Forall (fun a => no_key (ack_Transfer a) = true
  \/ exists t, t ∈ events /\ t_IdempotencyKey (ack_Transfer a) = t_IdempotencyKey t) (processBatch now events g).2.
Proof using.
  unfold processBatch. set (ts := if _ <=? _ then _ else _). clearbody ts.
  set (l := match makeWALRecords _ _ with [] => _ | _ => _ end). destruct l as [[w lsn] [err|]].
  - cbn [snd]. apply Forall_fmap, Forall_fmap, Forall_true. intros x. by left.
  - set (outs := ValidateBatch _ _). destruct (ApplyBatch _ _ _) as [os m]. cbn [snd]. clear.
    apply Forall_forall. intros a Ha. right. apply list_elem_of_lookup in Ha as [i Hi].
    apply lookup_zip_with_Some in Hi as (t' & o & -> & Ht & _). rewrite list_lookup_fmap in Ht.
    destruct (events !! i) as [t|] eqn:E; [|done]. injection Ht as <-. exists t. split; [|done].
    by eapply list_elem_of_lookup_2.
Qed.

Lemma CreateTransfers_keeps now batch n n' r : has_answer n -> now < deadline -> keys_in batch ->
  CreateTransfers now batch n = Some (n', r) -> has_answer n'.
Proof using Hbound Hk.
  intros [Hf Hr] Hnow HK. unfold CreateTransfers. rewrite Hf.
  destruct (length batch =? 0)%nat; [by intros [= <- <-]|]. destruct (_ <? _); [by intros [= <- <-]|].
  destruct (reserve_keys now batch ∅ (n_idempKey n)) as [[plan ids]|] eqn:E; [|done]. cbn [mbind option_bind].
  destruct (reserve_keys_keep now batch ∅ _ plan ids Hr Hnow HK ltac:(set_solver) E) as [Hr1 Hq].
  assert (Hqk : forall t2, t2 ∈ queued batch plan -> t2 ∈ batch).
  { clear. revert plan. induction batch as [|t2 batch IH]; intros [|[a|] plan] t3; cbn [queued]; try (by intros ?%elem_of_nil).
    - intros ?%IH. by right.
    - intros [->|?%IH]%elem_of_cons; [by left|by right]. }
  destruct (queued batch plan) as [|t1 ts] eqn:Eq; [by intros [= <- <-]|]. rewrite <- Eq in *. clear Eq t1 ts.
  pose proof (ack_keys now (queued batch plan) (n_engine n)) as Ha.
  destruct (processBatch now (queued batch plan) (n_engine n)) as [g acks]. cbn [snd] in Ha.
  destruct (settle_keys now acks ids) as [ids2|] eqn:Es; [|done]. intros [= <- <-]. split; [done|].
  eapply (settle_keys_keep now acks); [exact Hr1|exact Hnow| |exact Es].
  eapply Forall_impl; [exact Ha|]. intros a [Hn|(t2 & Ht2 & Ea)] Hna; [congruence|]. rewrite Ea.
  assert (Hn2 : no_key t2 = false) by (unfold no_key in *; by rewrite <- Ea).
  assert (Hne : t_IdempotencyKey t2 <> k).
  { intros <-. apply Hq. unfold keyed. apply list_elem_of_fmap. exists t2. split; [done|]. by apply list_elem_of_filter. }
  split; [done|]. unfold keys_in in HK. rewrite Forall_forall in HK. by destruct (HK t2 (Hqk _ Ht2) Hn2).
Qed.

Lemma CreateAccounts_keeps accounts n : has_answer n -> has_answer (CreateAccounts accounts n).1.
Proof using.
  clear Hbound Hk. intros H. unfold CreateAccounts. destruct (n_isFollower n) eqn:Hf; [done|].
  destruct (length accounts =? 0)%nat; [done|]. destruct (_ <? _); [done|].
  destruct (processAccountCreate _ _). split; [done|]. apply H.
Qed.
Lemma CreateAccount_keeps a n : has_answer n -> has_answer (CreateAccount a n).1.
Proof using.
  intros H. unfold CreateAccount. destruct (n_isFollower n) eqn:Hf; [done|].
  pose proof (CreateAccounts_keeps [a] n H) as H'. destruct (CreateAccounts [a] n) as [n' [outs|e]]; [|done].
  by destruct outs as [|[? [?|]] ?].
Qed.
End Traffic.

(** ** REST traffic *)

(** The text a request's key is made of. *)
Definition key_text (header : gostring) (q : createTransferReq) : gostring :=
  if decide (header = []) then qt_IdempotencyKey q else header.

Lemma parse_single_key header q t : parse_single header q = Some t -> t_IdempotencyKey t = header_key (key_text header q).
Proof. unfold parse_single. intros (? & _ & (? & _ & (? & _ & (? & _ & [= <-])%bind_Some)%bind_Some)%bind_Some)%bind_Some. done. Qed.
Lemma parseTransferReq_key q t : parseTransferReq q = Some t -> t_IdempotencyKey t = header_key (qt_IdempotencyKey q).
Proof. unfold parseTransferReq. intros (? & _ & (? & _ & (? & _ & (? & _ & [= <-])%bind_Some)%bind_Some)%bind_Some)%bind_Some. done. Qed.

(** The idempotency keys a request names, the absent key apart. *)
Definition request_keys (r : HTTPRequest) : gset Key :=
  list_to_set (match hr_Body r with
               | BodyTransfer q => [header_key (key_text (hr_IdempotencyKey r) q)]
               | BodyTransfers qs => (fun q => header_key (qt_IdempotencyKey q)) <$> qs
               | _ => []
               end) ∖ {[zeros 32]}.

(** Requests served one after the other, each at its time and with the ring
    full or not; [None] when one of them never returns. *)
Record arrival := mkArrival { ar_now : Z; ar_full : bool; ar_request : HTTPRequest }.
Fixpoint serve_all (cp : Checkpointer) (rd : option bool) (reqs : list arrival) (n : Node) : option Node :=
  match reqs with
  | [] => Some n
  | r :: reqs => '(n, _) ← ServeHTTP (ar_now r) (ar_full r) cp rd (ar_request r) n; serve_all cp rd reqs n
  end.
Definition traffic_keys (reqs : list arrival) : gset Key := ⋃ (request_keys ∘ ar_request <$> reqs).

Lemma request_keeps k t deadline Ks M now full cp rd r n n' resp : Z.of_nat (size ({[k]} ∪ Ks)) <= M -> k <> zeros 32 ->
  has_answer k t deadline Ks M n -> now < deadline -> request_keys r ⊆ {[k]} ∪ Ks ->
  ServeHTTP now full cp rd r n = Some (n', resp) -> has_answer k t deadline Ks M n'.
Proof.
  intros HM Hk0 Hn Hnow Hr. unfold ServeHTTP. repeat case_bool_decide; try (by intros [= <- <-]).
  - unfold handleAccounts. destruct (negb _); [by intros [= <- <-]|]. destruct (hr_Body r); try (by intros [= <- <-]).
    destruct (parse_account _) as [a|]; [|by intros [= <- <-]].
    pose proof (CreateAccount_keeps k t deadline Ks M a n Hn).
    destruct (CreateAccount a n) as [n1 [a1|e]]; [destruct (formatAccountResp a1)|]; by intros [= <- <-].
  - unfold handleBatchAccounts. destruct (negb _); [by intros [= <- <-]|]. destruct (hr_Body r); try (by intros [= <- <-]).
    destruct (length _ =? 0)%nat; [by intros [= <- <-]|]. destruct (_ <? _); [by intros [= <- <-]|].
    destruct (mapM parse_account _) as [accs|]; [|by intros [= <- <-]].
    pose proof (CreateAccounts_keeps k t deadline Ks M accs n Hn).
    destruct (CreateAccounts accs n) as [n1 [o|e]]; by intros [= <- <-].
  - destruct (HasPrefix _ _); [by intros [= <- <-]|].
    unfold handleCreateTransfer. destruct (negb _); [by intros [= <- <-]|]. unfold request_keys in Hr.
    destruct (hr_Body r) as [| |q| |]; try (by intros [= <- <-]).
    destruct (parse_single _ _) as [tr|] eqn:Ep; [|by intros [= <- <-]].
    destruct (CreateTransfer now full tr n) as [[n1 res]|] eqn:Ec; [|done].
    intros E. assert (n1 = n') as -> by (destruct res; by injection E).
    eapply CreateTransfer_keeps; [exact HM|exact Hn|exact Hnow| |exact Ec].
    intros Hno. rewrite (parse_single_key _ _ _ Ep).
    assert (header_key (key_text (hr_IdempotencyKey r) q) <> zeros 32).
    { rewrite <- (parse_single_key _ _ _ Ep). intros E0. unfold no_key in Hno. by rewrite bool_decide_true in Hno. }
    set_solver.
  - destruct (HasPrefix _ _); [by intros [= <- <-]|].
    unfold handleBatchTransfers. destruct (negb _); [by intros [= <- <-]|]. unfold request_keys in Hr.
    destruct (hr_Body r) as [| | |qs|]; try (by intros [= <- <-]).
    destruct (length qs =? 0)%nat; [by intros [= <- <-]|]. destruct (_ <? _); [by intros [= <- <-]|].
    destruct (mapM parseTransferReq qs) as [batch|] eqn:Ep; [|by intros [= <- <-]].
    destruct (CreateTransfers now batch n) as [[n1 res]|] eqn:Ec; [|done].
    intros E. assert (n1 = n') as -> by (destruct res; by injection E).
    eapply CreateTransfers_keeps; [exact HM|exact Hk0|exact Hn|exact Hnow| |exact Ec].
    apply mapM_Some in Ep. apply Forall_forall. intros t2 Ht2 Hno.
    apply list_elem_of_lookup in Ht2 as [i Hi]. destruct (Forall2_lookup_r _ _ _ _ _ Ep Hi) as (q & Hq & Eq).
    assert (Hin : t_IdempotencyKey t2 ∈ (fun q => header_key (qt_IdempotencyKey q)) <$> qs).
    { rewrite (parseTransferReq_key _ _ Eq). apply (list_elem_of_fmap_2 (fun q => header_key (qt_IdempotencyKey q))).
      by eapply list_elem_of_lookup_2. }
    assert (t_IdempotencyKey t2 <> zeros 32).
    { intros E0. unfold no_key in Hno. by rewrite bool_decide_true in Hno. }
    set_solver.
  - repeat case_match; by intros [= <- <-].
Qed.

Lemma traffic_keeps k t deadline Ks M cp rd reqs : forall n n', Z.of_nat (size ({[k]} ∪ Ks)) <= M -> k <> zeros 32 ->
  has_answer k t deadline Ks M n -> Forall (fun r => ar_now r < deadline) reqs -> traffic_keys reqs ⊆ {[k]} ∪ Ks ->
  serve_all cp rd reqs n = Some n' -> has_answer k t deadline Ks M n'.
Proof.
  induction reqs as [|r reqs IH]; intros n n' HM Hk0 Hn Ht Hr; cbn [serve_all]; [by intros [= <-]|].
  apply Forall_cons in Ht as [Ht Hts]. unfold traffic_keys in *. cbn [fmap list_fmap union_list foldr compose] in Hr.
  destruct (ServeHTTP _ _ _ _ _ n) as [[n1 resp]|] eqn:E; [|done]. cbn [mbind option_bind].
  apply IH; try done; [|set_solver]. eapply request_keeps; [exact HM|exact Hk0|exact Hn|exact Ht| |exact E]. set_solver.
Qed.

(** ** Properties *)

(** C20. A retried request is applied once.  On a store at rest, a transfer
    posted with an idempotency key is answered and leaves the store at rest.
    If the key was seen, the answer is the earlier transfer and the engine is
    untouched.  If it is new and the answer is 201, then other requests of any
    kind may be served - also failing ones, batches, and requests with the same
    key -; as long as their times are before the key's expiry and they name,
    with the key itself, at most [maxSize] different keys, a request with the
    same key text, in the header or in the body and whatever else it asks for,
    is answered with the same status and body and changes nothing at all. *)
Theorem retried_request_applied_once now full cp rd header q t n :
  settled (n_idempKey n) -> n_isFollower n = false -> parse_single header q = Some t -> no_key t = false ->
  exists n' resp,
    ServeHTTP now full cp rd (post_request (gostr "/v1/transfers") header (BodyTransfer q)) n = Some (n', resp)
    /\ settled (n_idempKey n')
    /\ if seen now t (n_idempKey n)
       then n_engine n' = n_engine n /\ exists body, resp = (StatusCreated, PTransfer body)
       else resp.1 = StatusCreated -> forall reqs n2, serve_all cp rd reqs n' = Some n2 ->
            Forall (fun r => ar_now r < now + st_ttl (n_idempKey n)) reqs ->
            Z.of_nat (size ({[t_IdempotencyKey t]} ∪ traffic_keys reqs)) <= st_maxSize (n_idempKey n) ->
            forall now' full' header' q', key_text header' q' = key_text header q ->
              parse_single header' q' <> None -> now' < now + st_ttl (n_idempKey n) ->
              ServeHTTP now' full' cp rd (post_request (gostr "/v1/transfers") header' (BodyTransfer q')) n2 = Some (n2, resp).
Proof.
  intros Hs Hf Hp Hk. destruct (keyed_transfer_applied_once n now full t Hs Hf Hk) as (n' & r & E & Hs' & H).
  exists n', (match r with Ok x => (StatusCreated, PTransfer (formatTransferResp x)) | Err e => writeError (transfer_status e) end).
  rewrite post_transfer, Hp, E. split; [by destruct r|]. split; [done|]. unfold seen. rewrite Hk.
  assert (Hk0 : t_IdempotencyKey t <> zeros 32).
  { intros E0. unfold no_key in Hk. by rewrite bool_decide_true in Hk. }
  set (goal := _ -> forall reqs n2, _).
  assert (Hgoal : (forall ex, (CheckAndReserve now (t_IdempotencyKey t) (n_idempKey n)).2 <> Ok (ex, true)) -> goal).
  { intros Hnew H201 reqs n2 Ereqs Hts Hsz now' full' header' q' Hkey Hp' Hnow.
    destruct r as [t'|e]; [|exfalso; clear - H201; cbn in H201; unfold transfer_status in H201; repeat case_match; done].
    assert (Ha : has_answer (t_IdempotencyKey t) t' (now + st_ttl (n_idempKey n)) (traffic_keys reqs) (st_maxSize (n_idempKey n)) n').
    { revert E. unfold CreateTransfer. rewrite Hf, Hk. apply quiet_settled in Hs.
      destruct (quiet_check now (t_IdempotencyKey t) [] (n_idempKey n) Hs (not_elem_of_nil _))
        as (ids' & x & [(Ec & _)|(Ec & Hq & Hm & Htt)]); [by destruct (Hnew x); rewrite Ec|]. rewrite Ec.
      destruct (submit_one now full t (n_engine n)) as [g [t1|e]]; [|done].
      destruct (Commit now (t_IdempotencyKey t) t1 ids') as [ids2|] eqn:Eco; [|done]. intros [= <- <-]. split; [done|].
      rewrite <- Hm, <- Htt. by apply commit_remembers. }
    pose proof (traffic_keeps _ _ _ _ _ cp rd reqs n' n2 Hsz Hk0 Ha Hts ltac:(set_solver) Ereqs) as Ha2.
    rewrite post_transfer. destruct (parse_single header' q') as [t2|] eqn:E2; [|done].
    rewrite (answered _ _ _ _ _ Hk0 now' full' t2 n2 Ha2 Hnow); [done|].
    apply parse_single_key in Hp, E2. congruence. }
  destruct ((CheckAndReserve now (t_IdempotencyKey t) (n_idempKey n)).2) as [[ex []]|e]; [|by apply Hgoal..].
  destruct H as [-> ->]. split; [done|]. eauto.
Qed.

(** The retry asks for something else, later, after a read, a transfer with
    another key, a batch and a transfer that is refused. *)
Definition demo_traffic : list arrival :=
  [ mkArrival 1100 false (get_request (gostr "/v1/accounts/" ++ hex_encode (idn 1)));
    mkArrival 1200 false (post_request (gostr "/v1/transfers") (gostr "order-43") (BodyTransfer (demo_body 13 1 2)));
    mkArrival 1300 false (post_request (gostr "/v1/transfers/batch") []
      (BodyTransfers [demo_body 14 1 2; demo_body 15 1 2]));
    mkArrival 1400 false (post_request (gostr "/v1/transfers") (gostr "order-44") (BodyTransfer (demo_body 13 1 2))) ].

Lemma retried_request_applied_once_witness : let key := gostr "order-42" in exists n' resp n2,
  ServeHTTP 1000 false demo_cp None (post_request (gostr "/v1/transfers") key (BodyTransfer (demo_body 11 1 2))) (node_of 4096)
    = Some (n', resp) /\ resp.1 = StatusCreated
  /\ serve_all demo_cp None demo_traffic n' = Some n2
  /\ ServeHTTP 1500 true demo_cp None (post_request (gostr "/v1/transfers") key (BodyTransfer (demo_body 12 2 1))) n2 = Some (n2, resp).
Proof.
  intros key.
  assert (Hok : match parse_single key (demo_body 11 1 2) with
    | Some t => negb (no_key t) && negb (seen 1000 t (n_idempKey (node_of 4096)))
        && (Z.of_nat (size ({[t_IdempotencyKey t]} ∪ traffic_keys demo_traffic)) <=? st_maxSize (n_idempKey (node_of 4096)))
    | None => false end = true)
    by (vm_compute; reflexivity).
  destruct (parse_single key (demo_body 11 1 2)) as [t|] eqn:Et; [|discriminate Hok].
  apply andb_prop in Hok as [[Hk%negb_true_iff Hs%negb_true_iff]%andb_prop Hsz%Z.leb_le].
  destruct (retried_request_applied_once 1000 false demo_cp None key (demo_body 11 1 2) t (node_of 4096))
    as (n' & resp & E & _ & H).
  - apply settled_new.
  - reflexivity.
  - exact Et.
  - exact Hk.
  - rewrite Hs in H.
    assert (H201 : answers StatusCreated (ServeHTTP 1000 false demo_cp None
      (post_request (gostr "/v1/transfers") key (BodyTransfer (demo_body 11 1 2))) (node_of 4096)) = true)
      by (vm_compute; reflexivity).
    assert (Hall : match ServeHTTP 1000 false demo_cp None
      (post_request (gostr "/v1/transfers") key (BodyTransfer (demo_body 11 1 2))) (node_of 4096) with
      | Some (n, _) => match serve_all demo_cp None demo_traffic n with Some _ => true | None => false end | None => false end = true)
      by (vm_compute; reflexivity).
    rewrite E in H201, Hall. destruct (serve_all demo_cp None demo_traffic n') as [n2|] eqn:E2; [|discriminate Hall].
    exists n', resp, n2. split; [exact E|]. destruct resp as [s p]. apply Z.eqb_eq in H201. split; [exact H201|].
    split; [exact E2|]. apply (H H201 demo_traffic n2 E2).
    + repeat constructor; vm_compute; reflexivity.
    + exact Hsz.
    + reflexivity.
    + vm_compute; discriminate.
    + vm_compute; reflexivity.
Defined.

(** The bound on the keys is needed.  With a store of one key, a second key
    evicts the first one long before it expires, and the third request, with
    the key of the first, is applied again: account 2 gets three times 7. *)
Theorem evicted_key_applies_again :
  let post now key q := mkArrival now false (post_request (gostr "/v1/transfers") key (BodyTransfer q)) in
  let small := mkNode (n_engine (node_of 4096)) (NewIdempotencyStore 1 100000) false in
  option_map (fun n => option_map vPC (l_accounts (abs (g_accounts (n_engine n))) !! idn 2))
    (serve_all demo_cp None
      [post 1000 (gostr "k1") (demo_body 11 1 2); post 1001 (gostr "k2") (demo_body 12 1 2);
       post 1002 (gostr "k1") (demo_body 13 1 2)] small) = Some (Some 21).
Proof. vm_compute. reflexivity. Qed.
