(* ===== verification/Postgres.v ===== *)
(** * The SQL mirror (internal/store/postgres/store.go)

    A second store with the interface of the ledger, used as a baseline: two
    tables and one SQL transaction per transfer.  The database is a parameter:
    the class [Database] has one operation per statement of the file, over an
    abstract database state, with the texts that cross the connection. *)

From S2P Require Import Prelude Core Uint128 Balance Snapshot Text.

(** What a statement fails with: no row to scan, or an error of the server. *)
Inductive sql_error : Type :=
| ErrNoRows
| ErrServer.

Class Database (T : Type) : Type := {
  sql_create_tables : M T sql_error unit;
  (* INSERT INTO accounts (id, currency, posted_debits, posted_credits) *)
  sql_insert_account (id currency debits credits : gostring) : M T sql_error unit;
  (* SELECT currency, posted_debits, posted_credits FROM accounts WHERE id *)
  sql_select_account (id : gostring) : M T sql_error (gostring * gostring * gostring);
  sql_begin : M T sql_error unit;
  sql_commit : M T sql_error unit;
  (* SELECT posted_debits, posted_credits FROM accounts WHERE id FOR UPDATE *)
  sql_lock_account (id : gostring) : M T sql_error (gostring * gostring);
  (* INSERT INTO transfers (id, debit_account_id, credit_account_id, amount, idempotency_key) *)
  sql_insert_transfer (id debit credit amount : gostring) (key : list byte) : M T sql_error unit;
  (* UPDATE accounts SET posted_debits = posted_debits + amount WHERE id *)
  sql_add_debits (amount id : gostring) : M T sql_error unit;
  sql_add_credits (amount id : gostring) : M T sql_error unit;
  (* SELECT posted_debits, posted_credits FROM accounts *)
  sql_select_totals : M T sql_error (list (gostring * gostring));
  sql_truncate_tables : M T sql_error unit }.

(** The errors of the store: of the core, of the database, and the wrapped
    error of a SELECT in CreateTransfer. *)
Inductive store_error : Type :=
| CoreError (e : error)
| SqlError (e : sql_error)
| AccountLookupError (e : sql_error).

(** [first > second] on strings. *)
Fixpoint str_gt (a b : gostring) : bool :=
  match a, b with
  | [], _ => false
  | _ :: _, [] => true
  | x :: a, y :: b => if byte_val x =? byte_val y then str_gt a b else byte_val y <? byte_val x
  end.

(** The order in which a transfer locks its account rows. *)
Definition lock_order (tr : Transfer) : gostring * gostring :=
  let id1 := hex_encode (t_DebitAccountID tr) in
  let id2 := hex_encode (t_CreditAccountID tr) in
  if str_gt id1 id2 then (id2, id1) else (id1, id2).

(** [v, _ := core.FromString(s)]: zero when the text does not parse. *)
Definition FromString_or_zero (s : gostring) : Uint128 :=
  match FromString s with Ok v => v | Err _ => zero128 end.

Section Store.
Context {T : Type} `{!Database T}.

Definition sql {A} (c : M T sql_error A) : M T store_error A := fun t =>
  let '(t, r) := c t in (t, map_err SqlError r).

Definition InitSchema : M T store_error unit := sql sql_create_tables.

Definition Store_CreateAccount (acc : Account) : M T store_error unit :=
  sql (sql_insert_account (hex_encode (a_ID acc)) (TrimRight_zeros (a_Currency acc))
         (String (a_PostedDebits acc)) (String (a_PostedCredits acc))).

Definition Store_GetAccount (id : ID) : M T store_error Account := fun t =>
  match sql_select_account (hex_encode id) t with
  | (t, Err ErrNoRows) => (t, Err (CoreError (ErrAccountNotFound id)))
  | (t, Err e) => (t, Err (SqlError e))
  | (t, Ok (curr, debitsStr, creditsStr)) =>
      (t, Ok (mkAccount id (copy_into 4 curr) 0 0 0 (zeros 16)
                (FromString_or_zero debitsStr) (FromString_or_zero creditsStr) zero128 zero128))
  end.

(** The statements between BEGIN and COMMIT. *)
Definition lookup (id : gostring) : M T store_error (gostring * gostring) := fun t =>
  let '(t, r) := sql_lock_account id t in (t, map_err AccountLookupError r).

Definition transfer_body (tr : Transfer) : M T store_error Transfer :=
  let id1 := hex_encode (t_DebitAccountID tr) in
  let id2 := hex_encode (t_CreditAccountID tr) in
  let '(first, second) := lock_order tr in
  acc1 <-- lookup first ;;
  acc2 <-- lookup second ;;
  let '(debitDebitsStr, debitCreditsStr) := if decide (id1 = first) then acc1 else acc2 in
  let debAcc := mkAccount (t_DebitAccountID tr) (zeros 4) 0 0 0 (zeros 16)
                  (FromString_or_zero debitDebitsStr) (FromString_or_zero debitCreditsStr) zero128 zero128 in
  match Balance debAcc with
  | Err e => sfail (CoreError e)
  | Ok bal =>
      if Cmp bal (t_Amount tr) <? 0
      then sfail (CoreError (ErrInsufficientFunds (t_DebitAccountID tr) bal (t_Amount tr)))
      else
        let amtStr := String (t_Amount tr) in
        sql (sql_insert_transfer (hex_encode (t_ID tr)) id1 id2 amtStr (t_IdempotencyKey tr)) >>
        sql (sql_add_debits amtStr id1) >>
        sql (sql_add_credits amtStr id2) >>
        sql sql_commit >>
        sret tr
  end.

(** The deferred Rollback undoes a transaction that was not committed. *)
Definition Store_CreateTransfer (tr : Transfer) : M T store_error Transfer := fun t =>
  if IsZero (t_Amount tr) then (t, Err (CoreError ErrZeroAmount))
  else if decide (t_DebitAccountID tr = t_CreditAccountID tr)
  then (t, Err (CoreError (ErrSelfTransfer (t_DebitAccountID tr))))
  else
    match sql sql_begin t with
    | (_, Err e) => (t, Err e)
    | (tx, Ok _) =>
        match transfer_body tr tx with
        | (_, Err e) => (t, Err e)
        | (tx, Ok r) => (tx, Ok r)
        end
    end.

(** The sums are big integers; [dec_val] reads the digits. *)
Definition CheckInvariant : M T store_error bool :=
  rows <-- sql sql_select_totals ;;
  let totalDebits := lsum (fun r => dec_val r.1) rows in
  let totalCredits := lsum (fun r => dec_val r.2) rows in
  sret (totalDebits =? totalCredits).

Definition Store_Reset : M T store_error unit := sql sql_truncate_tables.
End Store.

(** ** What the store relies on

    PostgreSQL's documented behaviour for the two tables, as laws over the
    rows a database state stands for: the decimal text of NUMERIC(39, 0),
    primary keys, the UNIQUE key, the foreign keys, and the range check. *)

Definition is_numeric (s : gostring) (z : Z) : Prop := s <> [] /\ Forall is_digit s /\ dec_val s = z.

Definition numeric39 (z : Z) : Prop := 0 <= z < 10 ^ 39.

(** Text a VARCHAR column takes as it is. *)
Definition plain_text (n : nat) (s : gostring) : Prop :=
  (length s <= n)%nat /\ Forall (fun b => 0 < byte_val b < 128) s.

Record account_row := mkAccountRow {
  ar_currency : gostring;
  ar_debits : Z;
  ar_credits : Z }.
Record transfer_row := mkTransferRow {
  tr_debit : gostring;
  tr_credit : gostring;
  tr_amount : Z;
  tr_key : list byte }.

Definition row_debits (v : Z) (r : account_row) : account_row :=
  mkAccountRow (ar_currency r) (ar_debits r + v) (ar_credits r).
Definition row_credits (v : Z) (r : account_row) : account_row :=
  mkAccountRow (ar_currency r) (ar_debits r) (ar_credits r + v).

(** A new row of the table transfers meets the constraints. *)
Definition transfer_insertable (A : gmap gostring account_row) (X : gmap gostring transfer_row)
    (id : gostring) (r : transfer_row) : Prop :=
  X !! id = None /\ (forall id' r', X !! id' = Some r' -> tr_key r' <> tr_key r)
  /\ is_Some (A !! tr_debit r) /\ is_Some (A !! tr_credit r) /\ numeric39 (tr_amount r).

Class DatabaseLaws (T : Type) `{!Database T} : Type := {
  db_accounts : T -> gmap gostring account_row;
  db_transfers : T -> gmap gostring transfer_row;
  law_insert_account t id cur ds cs d c :
    plain_text 32 id -> plain_text 4 cur -> is_numeric ds d -> is_numeric cs c -> numeric39 d -> numeric39 c ->
    if decide (db_accounts t !! id = None)
    then exists t', sql_insert_account id cur ds cs t = (t', Ok tt)
      /\ db_accounts t' = <[id := mkAccountRow cur d c]> (db_accounts t) /\ db_transfers t' = db_transfers t
    else sql_insert_account id cur ds cs t = (t, Err ErrServer);
  law_select_account t id :
    match db_accounts t !! id with
    | None => sql_select_account id t = (t, Err ErrNoRows)
    | Some r => exists ds cs, sql_select_account id t = (t, Ok (ar_currency r, ds, cs))
                  /\ is_numeric ds (ar_debits r) /\ is_numeric cs (ar_credits r)
    end;
  law_begin t : sql_begin t = (t, Ok tt);
  law_commit t : sql_commit t = (t, Ok tt);
  law_lock_account t id :
    match db_accounts t !! id with
    | None => sql_lock_account id t = (t, Err ErrNoRows)
    | Some r => exists ds cs, sql_lock_account id t = (t, Ok (ds, cs))
                  /\ is_numeric ds (ar_debits r) /\ is_numeric cs (ar_credits r)
    end;
  law_insert_transfer t id dr cr amt key v : is_numeric amt v ->
    let r := mkTransferRow dr cr v key in
    transfer_insertable (db_accounts t) (db_transfers t) id r
      /\ (exists t', sql_insert_transfer id dr cr amt key t = (t', Ok tt)
          /\ db_accounts t' = db_accounts t /\ db_transfers t' = <[id := r]> (db_transfers t))
    \/ ~ transfer_insertable (db_accounts t) (db_transfers t) id r
      /\ (exists t', sql_insert_transfer id dr cr amt key t = (t', Err ErrServer));
  law_add_debits t amt id r v : is_numeric amt v -> db_accounts t !! id = Some r ->
    numeric39 (ar_debits r + v)
      /\ (exists t', sql_add_debits amt id t = (t', Ok tt)
          /\ db_accounts t' = <[id := row_debits v r]> (db_accounts t) /\ db_transfers t' = db_transfers t)
    \/ ~ numeric39 (ar_debits r + v) /\ (exists t', sql_add_debits amt id t = (t', Err ErrServer));
  law_add_credits t amt id r v : is_numeric amt v -> db_accounts t !! id = Some r ->
    numeric39 (ar_credits r + v)
      /\ (exists t', sql_add_credits amt id t = (t', Ok tt)
          /\ db_accounts t' = <[id := row_credits v r]> (db_accounts t) /\ db_transfers t' = db_transfers t)
    \/ ~ numeric39 (ar_credits r + v) /\ (exists t', sql_add_credits amt id t = (t', Err ErrServer));
  law_select_totals t : exists rows, sql_select_totals t = (t, Ok rows)
    /\ exists ids, map_to_list (db_accounts t) ≡ₚ ids
    /\ Forall2 (fun row kv => is_numeric row.1 (ar_debits kv.2) /\ is_numeric row.2 (ar_credits kv.2)) rows ids;
  law_truncate t : exists t', sql_truncate_tables t = (t', Ok tt) /\ db_accounts t' = ∅ /\ db_transfers t' = ∅ }.
