(* ===== verification/PostgresTables.v ===== *)
(** * An instance of the database laws

    Two finite maps of rows implement the statements of [Postgres] as their
    laws require, so that the laws hold together and the properties of the
    mirror can be evaluated. *)

From S2P Require Import Prelude Core Codec Uint128 Text Postgres.

(** ** Numbers as text *)

Definition numeric_text (z : Z) : gostring :=
  if z =? 0 then gostr "0" else decimal (S (Z.to_nat (Z.log2 z))) z [].

Lemma numeric_text_ok z : 0 <= z -> is_numeric (numeric_text z) z.
Proof.
  intros Hz. unfold numeric_text. destruct (Z.eqb_spec z 0) as [->|Hnz].
  { split; [done|]. split; [|done]. constructor; [by vm_compute|constructor]. }
  assert (Hlt : 0 <= z < 10 ^ Z.of_nat (S (Z.to_nat (Z.log2 z)))).
  { split; [done|]. pose proof (Z.log2_nonneg z). rewrite Nat2Z.inj_succ, Z2Nat.id by done.
    destruct (Z.log2_spec z) as [_ Hl]; [lia|]. eapply Z.lt_le_trans; [exact Hl|]. apply Z.pow_le_mono_l; lia. }
  destruct (decimal_spec _ z [] Hlt) as [H1 H2]; [constructor|]. split; [|by split].
  intros E. rewrite E in H2. cbn in H2. by unfold dec_val in H2.
Qed.

Lemma dec_val_nonneg s : Forall is_digit s -> 0 <= dec_val s.
Proof. intros H. apply (dec_val_mono s 0); [lia|done]. Qed.

(** ** Tables *)

(** Sums are kept as natural numbers. *)
Record Tables := mkTables {
  tb_accounts : gmap gostring (gostring * N * N);
  tb_transfers : gmap gostring transfer_row }.

Definition view_row (r : gostring * N * N) : account_row := mkAccountRow r.1.1 (Z.of_N r.1.2) (Z.of_N r.2).
Definition tables_accounts (t : Tables) : gmap gostring account_row := view_row <$> tb_accounts t.

#[export] Instance numeric39_dec z : Decision (numeric39 z).
Proof. unfold numeric39. apply _. Defined.

(** Decides whether a key is in use. *)
Definition key_unused (key : list byte) (X : gmap gostring transfer_row) : Prop := map_Forall (fun _ r => tr_key r <> key) X.
#[export] Instance key_unused_dec key X : Decision (key_unused key X).
Proof. unfold key_unused. apply _. Defined.

Definition put_accounts (A : gmap gostring (gostring * N * N)) (t : Tables) : Tables := mkTables A (tb_transfers t).

Definition select_row (id : gostring) : M Tables sql_error (gostring * gostring * gostring) := fun t =>
  match tb_accounts t !! id with
  | None => (t, Err ErrNoRows)
  | Some (cur, d, c) => (t, Ok (cur, numeric_text (Z.of_N d), numeric_text (Z.of_N c)))
  end.

(** An UPDATE of one of the sums. *)
Definition update_row (f : N -> gostring * N * N -> gostring * N * N) (sum : gostring * N * N -> N)
    (amount id : gostring) : M Tables sql_error unit := fun t =>
  match tb_accounts t !! id with
  | None => (t, Ok tt)
  | Some r =>
      if decide (numeric39 (Z.of_N (sum r) + dec_val amount))
      then (put_accounts (<[id := f (Z.to_N (dec_val amount)) r]> (tb_accounts t)) t, Ok tt)
      else (t, Err ErrServer)
  end.

#[export] Instance Tables_db : Database Tables := {
  sql_create_tables := sret tt;
  sql_insert_account id cur ds cs := fun t =>
    if decide (tb_accounts t !! id = None)
    then (put_accounts (<[id := (cur, Z.to_N (dec_val ds), Z.to_N (dec_val cs))]> (tb_accounts t)) t, Ok tt)
    else (t, Err ErrServer);
  sql_select_account := select_row;
  sql_begin := sret tt;
  sql_commit := sret tt;
  sql_lock_account id := r <-- select_row id ;; sret (r.1.2, r.2);
  sql_insert_transfer id dr cr amt key := fun t =>
    let r := mkTransferRow dr cr (dec_val amt) key in
    if decide (tb_transfers t !! id = None /\ key_unused key (tb_transfers t)
               /\ is_Some (tb_accounts t !! dr) /\ is_Some (tb_accounts t !! cr) /\ numeric39 (dec_val amt))
    then (mkTables (tb_accounts t) (<[id := r]> (tb_transfers t)), Ok tt)
    else (t, Err ErrServer);
  sql_add_debits := update_row (fun v r => (r.1.1, r.1.2 + v, r.2)%N) (fun r => r.1.2);
  sql_add_credits := update_row (fun v r => (r.1.1, r.1.2, r.2 + v)%N) (fun r => r.2);
  sql_select_totals := fun t =>
    (t, Ok ((fun kv => (numeric_text (Z.of_N kv.2.1.2), numeric_text (Z.of_N kv.2.2))) <$> map_to_list (tb_accounts t)));
  sql_truncate_tables := fun t => (mkTables ∅ ∅, Ok tt) }.

Lemma lookup_view t id : tables_accounts t !! id = view_row <$> (tb_accounts t !! id).
Proof. apply lookup_fmap. Qed.

Lemma is_numeric_nonneg s z : is_numeric s z -> 0 <= z.
Proof. intros (_ & H & <-). by apply dec_val_nonneg. Qed.

Lemma update_row_ok f sum amount id t r v (g : Z -> account_row -> account_row) :
  is_numeric amount v -> tables_accounts t !! id = Some r ->
  (forall n x, view_row (f n x) = g (Z.of_N n) (view_row x)) ->
  exists x, r = view_row x /\
  (numeric39 (Z.of_N (sum x) + v)
     /\ (exists t', update_row f sum amount id t = (t', Ok tt)
         /\ tables_accounts t' = <[id := g v r]> (tables_accounts t) /\ tb_transfers t' = tb_transfers t)
   \/ ~ numeric39 (Z.of_N (sum x) + v) /\ (exists t', update_row f sum amount id t = (t', Err ErrServer))).
Proof.
  intros Hn Hr Hg. rewrite lookup_view in Hr. apply fmap_Some in Hr as (x & Hx & ->). exists x. split; [done|].
  unfold update_row. rewrite Hx. pose proof (is_numeric_nonneg _ _ Hn) as H0. destruct Hn as (_ & _ & ->).
  destruct (decide _) as [Hd|Hd].
  - left. split; [done|]. eexists. split; [done|]. split; [|done]. unfold tables_accounts, put_accounts. cbn.
    by rewrite fmap_insert, Hg, Z2N.id.
  - right. split; [done|]. by eexists.
Qed.

Lemma select_row_ok t id :
  match tables_accounts t !! id with
  | None => select_row id t = (t, Err ErrNoRows)
  | Some r => exists ds cs, select_row id t = (t, Ok (ar_currency r, ds, cs))
                /\ is_numeric ds (ar_debits r) /\ is_numeric cs (ar_credits r)
  end.
Proof.
  rewrite lookup_view. unfold select_row. destruct (tb_accounts t !! id) as [[[cur d] c]|]; cbn; [|done].
  do 2 eexists. split; [done|]. split; apply numeric_text_ok; lia.
Qed.

#[export] Program Instance Tables_laws : DatabaseLaws Tables := {
  db_accounts := tables_accounts;
  db_transfers := tb_transfers }.
Next Obligation.
  intros t id cur ds cs d c _ _ Hd Hc [Hd0 _] [Hc0 _]. cbn. rewrite lookup_view.
  destruct Hd as (_ & _ & ->), Hc as (_ & _ & ->).
  destruct (tb_accounts t !! id) as [r|] eqn:E; cbn.
  - by rewrite decide_False by done.
  - eexists. split; [done|]. split; [|done]. unfold tables_accounts, put_accounts. cbn. rewrite fmap_insert.
    unfold view_row. cbn. by rewrite !Z2N.id.
Qed.
Next Obligation. apply select_row_ok. Qed.
Next Obligation. done. Qed.
Next Obligation. done. Qed.
Next Obligation.
  intros t id. pose proof (select_row_ok t id) as H. cbn. unfold sbind.
  destruct (tables_accounts t !! id) as [r|]; [|by rewrite H].
  destruct H as (ds & cs & -> & H). by exists ds, cs.
Qed.
Next Obligation.
  intros t id dr cr amt key v (_ & Hdig & Hv) r. cbn. rewrite Hv. fold r.
  assert (Hiff : (tb_transfers t !! id = None /\ key_unused key (tb_transfers t)
      /\ is_Some (tb_accounts t !! dr) /\ is_Some (tb_accounts t !! cr) /\ numeric39 v)
    <-> transfer_insertable (tables_accounts t) (tb_transfers t) id r).
  { unfold transfer_insertable, key_unused, map_Forall, r. cbn. rewrite !lookup_view, !fmap_is_Some. done. }
  destruct (decide _) as [Hd|Hd].
  - left. split; [by apply Hiff|]. by eexists.
  - right. split; [by rewrite <- Hiff|]. by eexists.
Qed.
Next Obligation.
  intros t amt id r v Hn Hr. cbn.
  destruct (update_row_ok (fun v r => (r.1.1, r.1.2 + v, r.2)%N) (fun r => r.1.2) amt id t r v row_debits Hn Hr) as (x & -> & H).
  { intros n [[cur d] c]. unfold view_row, row_debits. cbn. by rewrite N2Z.inj_add. }
  exact H.
Qed.
Next Obligation.
  intros t amt id r v Hn Hr. cbn.
  destruct (update_row_ok (fun v r => (r.1.1, r.1.2, r.2 + v)%N) (fun r => r.2) amt id t r v row_credits Hn Hr) as (x & -> & H).
  { intros n [[cur d] c]. unfold view_row, row_credits. cbn. by rewrite N2Z.inj_add. }
  exact H.
Qed.
Next Obligation.
  intros t. cbn. eexists. split; [done|].
  exists ((fun kv => (kv.1, view_row kv.2)) <$> map_to_list (tb_accounts t)). split.
  - unfold tables_accounts. by rewrite map_to_list_fmap.
  - induction (map_to_list (tb_accounts t)) as [|kv l IH]; [constructor|]. cbn. constructor; [|done].
    split; apply numeric_text_ok; cbn; lia.
Qed.
Next Obligation. intros t. cbn. eexists. split; [done|]. unfold tables_accounts. cbn. by rewrite fmap_empty. Qed.
