(* ===== verification/PostgresProps.v ===== *)
(** * Properties of the SQL mirror

    Against the laws of the database: what a transfer does on every branch,
    that it follows the ledger on plain transfers, and that the order in which
    it locks rows rules out deadlocks. *)

From S2P Require Import Prelude Core Codec Uint128 Balance Accounts LedgerSpec AccountsRefine AccountsProps Snapshot Text TextProps Postgres PostgresTables.

(** ** Text *)

Lemma numeric_String a : wf128 a -> is_numeric (String a) (val a).
Proof. intros H. destruct (String_digits a H) as (? & ? & ?). by split_and!. Qed.

Lemma FromString_numeric s z : is_numeric s z -> in128 z -> FromString_or_zero s = of_Z z.
Proof.
  intros (Hn & Hd & Hv) Hz. unfold FromString_or_zero.
  assert (E : FromString s = Ok (of_Z z)) by (apply FromString_spec; [by apply of_Z_wf|by rewrite val_of_Z]).
  by rewrite E.
Qed.

(** A number beyond 128 bits reads as zero. *)
Lemma FromString_beyond s z : is_numeric s z -> 2 ^ 128 <= z -> FromString_or_zero s = zero128.
Proof.
  intros (Hn & Hd & Hv) Hz. unfold FromString_or_zero. destruct (FromString s) as [v|e] eqn:E; [|done].
  assert (Hw : wf128 v).
  { clear -E. revert E. unfold FromString. destruct s as [|c s]; [done|]. generalize (c :: s). clear c s.
    assert (H : forall s acc, wf128 acc -> FromString_loop acc s = Ok v -> wf128 v).
    { induction s as [|c s IH]; intros acc Ha; cbn [FromString_loop]; [by intros [= <-]|].
      destruct (_ || _) eqn:Ec; [done|]. pose proof (mul64_spec acc 10 Ha ltac:(unfold is_u64; lia)) as Hm.
      pose proof (byte_val_range c).
      destruct (mul64 acc 10) as [m|]; [|done]. destruct (val acc * 10 <? 2 ^ 128); [|done].
      destruct Hm as (m' & [= <-] & Hm & _). cbn [rbind].
      assert (Hd : wf128 (FromUint64 (byte_val c - 48))) by (apply wf128_FromUint64; unfold is_u64; lia).
      pose proof (Add_spec m _ Hm Hd) as Hs. destruct (Add m _) as [x|]; [|done].
      case_in Hs; [|done]. destruct Hs as (x' & [= <-] & Hx & _). cbn [rbind]. by apply IH. }
    intros l. apply H, wf128_zero. }
  apply FromString_spec in E as (_ & _ & E); [|done]. pose proof (val_range v Hw). lia.
Qed.

#[export] Instance hex_encode_inj : Inj (=) (=) hex_encode.
Proof. intros a b E. pose proof (DecodeString_hex_encode a) as Ha. rewrite E, DecodeString_hex_encode in Ha. by injection Ha. Qed.

(** ** A transfer *)

Section Mirror.
Context {T : Type} `{!Database T, !DatabaseLaws T}.

(** The sums of an account fit in 128 bits, as the code reads them. *)
Definition row_in128 (t : T) (id : ID) : Prop :=
  forall r, db_accounts t !! hex_encode id = Some r -> in128 (ar_debits r) /\ in128 (ar_credits r).

(** The row a transfer inserts. *)
Definition transfer_row_of (tr : Transfer) : transfer_row :=
  mkTransferRow (hex_encode (t_DebitAccountID tr)) (hex_encode (t_CreditAccountID tr))
    (val (t_Amount tr)) (t_IdempotencyKey tr).

(** What the transaction does to the tables. *)
Definition transfer_effect (tr : Transfer) (A : gmap gostring account_row) : gmap gostring account_row :=
  alter (row_credits (val (t_Amount tr))) (hex_encode (t_CreditAccountID tr))
    (alter (row_debits (val (t_Amount tr))) (hex_encode (t_DebitAccountID tr)) A).

(** The database takes the inserted row and both sums. *)
Definition tables_take (tr : Transfer) (d c : account_row) (t : T) : Prop :=
  transfer_insertable (db_accounts t) (db_transfers t) (hex_encode (t_ID tr)) (transfer_row_of tr)
  /\ numeric39 (ar_debits d + val (t_Amount tr)) /\ numeric39 (ar_credits c + val (t_Amount tr)).

Lemma lookup_row t id :
  match db_accounts t !! id with
  | None => lookup id t = (t, Err (AccountLookupError ErrNoRows))
  | Some r => exists ds cs, lookup id t = (t, Ok (ds, cs)) /\ is_numeric ds (ar_debits r) /\ is_numeric cs (ar_credits r)
  end.
Proof using All.
  pose proof (law_lock_account t id) as H. unfold lookup. destruct (db_accounts t !! id) as [r|].
  - destruct H as (ds & cs & E & H). exists ds, cs. by rewrite E.
  - by rewrite H.
Qed.

(** The writes, once the balance covers the amount. *)
Definition transfer_writes (tr : Transfer) : M T store_error Transfer :=
  let id1 := hex_encode (t_DebitAccountID tr) in
  let id2 := hex_encode (t_CreditAccountID tr) in
  let amtStr := String (t_Amount tr) in
  sql (sql_insert_transfer (hex_encode (t_ID tr)) id1 id2 amtStr (t_IdempotencyKey tr)) >>
  sql (sql_add_debits amtStr id1) >>
  sql (sql_add_credits amtStr id2) >>
  sql sql_commit >>
  sret tr.

Lemma transfer_writes_spec tr t d c : wf_transfer tr -> t_DebitAccountID tr <> t_CreditAccountID tr ->
  db_accounts t !! hex_encode (t_DebitAccountID tr) = Some d ->
  db_accounts t !! hex_encode (t_CreditAccountID tr) = Some c ->
  tables_take tr d c t
    /\ (exists t', transfer_writes tr t = (t', Ok tr) /\ db_accounts t' = transfer_effect tr (db_accounts t)
        /\ db_transfers t' = <[hex_encode (t_ID tr) := transfer_row_of tr]> (db_transfers t))
  \/ ~ tables_take tr d c t /\ exists t', transfer_writes tr t = (t', Err (SqlError ErrServer)).
Proof using All.
  intros Hw Hne Hd Hc. pose proof (numeric_String _ (wft_amount _ Hw)) as Hn.
  assert (Hne' : hex_encode (t_DebitAccountID tr) <> hex_encode (t_CreditAccountID tr)) by (intros ?%(inj _); congruence).
  unfold transfer_writes, tables_take, sql, sbind. set (v := val (t_Amount tr)) in *.
  destruct (law_insert_transfer t (hex_encode (t_ID tr)) (hex_encode (t_DebitAccountID tr))
              (hex_encode (t_CreditAccountID tr)) (String (t_Amount tr)) (t_IdempotencyKey tr) _ Hn)
    as [[Hi (t1 & E1 & A1 & X1)]|[Hi (t1 & E1)]]; fold (transfer_row_of tr) in *; rewrite E1; cbn [map_err];
    [|right; split; [tauto|by eexists]].
  rewrite <- A1 in Hd.
  destruct (law_add_debits t1 (String (t_Amount tr)) _ d v Hn Hd)
    as [[Hs (t2 & E2 & A2 & X2)]|[Hs (t2 & E2)]]; rewrite E2; cbn [map_err]; [|right; split; [tauto|by eexists]].
  assert (Hc2 : db_accounts t2 !! hex_encode (t_CreditAccountID tr) = Some c) by (by rewrite A2, A1, lookup_insert_ne).
  destruct (law_add_credits t2 (String (t_Amount tr)) _ c v Hn Hc2)
    as [[Hs2 (t3 & E3 & A3 & X3)]|[Hs2 (t3 & E3)]]; rewrite E3; cbn [map_err]; [|right; split; [tauto|by eexists]].
  left. split; [tauto|]. rewrite law_commit. exists t3. split; [done|].
  rewrite A3, X3, A2, X2, X1. split; [|done]. unfold transfer_effect. fold v. rewrite <- A1.
  apply map_eq. intros id.
  destruct (decide (id = hex_encode (t_CreditAccountID tr))) as [->|Hi2].
  - rewrite lookup_insert_eq, lookup_alter_eq, lookup_alter_ne by done. rewrite A2, lookup_insert_ne in Hc2 by done.
    by rewrite Hc2.
  - rewrite lookup_insert_ne, lookup_alter_ne by done.
    destruct (decide (id = hex_encode (t_DebitAccountID tr))) as [->|Hi1].
    + by rewrite lookup_insert_eq, lookup_alter_eq, Hd.
    + by rewrite lookup_insert_ne, lookup_alter_ne.
Qed.
(** The body of the transaction, once the rows are read. *)
Lemma transfer_body_run tr t d c : t_DebitAccountID tr <> t_CreditAccountID tr ->
  db_accounts t !! hex_encode (t_DebitAccountID tr) = Some d ->
  db_accounts t !! hex_encode (t_CreditAccountID tr) = Some c ->
  in128 (ar_debits d) -> in128 (ar_credits d) ->
  transfer_body tr t
  = match Balance (mkAccount (t_DebitAccountID tr) (zeros 4) 0 0 0 (zeros 16) (of_Z (ar_debits d)) (of_Z (ar_credits d)) zero128 zero128) with
    | Err e => (t, Err (CoreError e))
    | Ok bal => if Cmp bal (t_Amount tr) <? 0
                then (t, Err (CoreError (ErrInsufficientFunds (t_DebitAccountID tr) bal (t_Amount tr))))
                else transfer_writes tr t
    end.
Proof using All.
  intros Hne Hd Hc Hwd Hwc. unfold transfer_body.
  pose proof (lookup_row t (hex_encode (t_DebitAccountID tr))) as Ld. rewrite Hd in Ld. destruct Ld as (ds & cs & Ed & Nd & Nc).
  pose proof (lookup_row t (hex_encode (t_CreditAccountID tr))) as Lc. rewrite Hc in Lc. destruct Lc as (ds' & cs' & Ec & _).
  assert (Hne' : hex_encode (t_DebitAccountID tr) <> hex_encode (t_CreditAccountID tr)) by (intros ?%(inj _); congruence).
  unfold lock_order. destruct (str_gt _ _); unfold sbind.
  - rewrite Ec, Ed. rewrite decide_False by done.
    rewrite (FromString_numeric _ _ Nd Hwd), (FromString_numeric _ _ Nc Hwc).
    destruct (Balance _) as [bal|e]; [|done]. by destruct (_ <? _).
  - rewrite Ed, Ec. rewrite decide_True by done.
    rewrite (FromString_numeric _ _ Nd Hwd), (FromString_numeric _ _ Nc Hwc).
    destruct (Balance _) as [bal|e]; [|done]. by destruct (_ <? _).
Qed.

Lemma transfer_body_missing tr t : t_DebitAccountID tr <> t_CreditAccountID tr ->
  db_accounts t !! hex_encode (t_DebitAccountID tr) = None \/ db_accounts t !! hex_encode (t_CreditAccountID tr) = None ->
  (transfer_body tr t).2 = Err (AccountLookupError ErrNoRows).
Proof using All.
  intros Hne Hm. unfold transfer_body.
  pose proof (lookup_row t (hex_encode (t_DebitAccountID tr))) as Ld.
  pose proof (lookup_row t (hex_encode (t_CreditAccountID tr))) as Lc.
  unfold lock_order. destruct (str_gt _ _); unfold sbind.
  - destruct (db_accounts t !! hex_encode (t_CreditAccountID tr)) as [c|].
    + destruct Hm as [Hm|]; [|done]. rewrite Hm in Ld. destruct Lc as (? & ? & -> & _). by rewrite Ld.
    + by rewrite Lc.
  - destruct (db_accounts t !! hex_encode (t_DebitAccountID tr)) as [d|].
    + destruct Hm as [|Hm]; [done|]. rewrite Hm in Lc. destruct Ld as (? & ? & -> & _). by rewrite Lc.
    + by rewrite Ld.
Qed.

Lemma Store_CreateTransfer_run tr t : wf_transfer tr ->
  Store_CreateTransfer tr t
  = if decide (val (t_Amount tr) = 0) then (t, Err (CoreError ErrZeroAmount))
    else if decide (t_DebitAccountID tr = t_CreditAccountID tr)
    then (t, Err (CoreError (ErrSelfTransfer (t_DebitAccountID tr))))
    else match transfer_body tr t with
         | (_, Err e) => (t, Err e)
         | (tx, Ok r) => (tx, Ok r)
         end.
Proof using All.
  intros Hw. unfold Store_CreateTransfer. rewrite IsZero_spec by apply Hw.
  destruct (decide (val (t_Amount tr) = 0)) as [->|Hv]; [done|]. rewrite (proj2 (Z.eqb_neq _ _)) by done.
  unfold sql. by rewrite law_begin.
Qed.

(** C35. What [CreateTransfer] of the mirror does on every branch: it refuses a
    zero amount, a transfer to the same account, a missing account, a debit
    account whose balance is negative or does not cover the amount, and what
    the constraints of the tables refuse - a used transfer ID or idempotency
    key, a sum out of range - with no change; otherwise it adds the amount to
    the two sums and inserts the transfer, and nothing else. *)
Theorem mirror_transfer_decides tr t : wf_transfer tr -> row_in128 t (t_DebitAccountID tr) ->
  let v := val (t_Amount tr) in
  let dr := t_DebitAccountID tr in
  if decide (v = 0) then Store_CreateTransfer tr t = (t, Err (CoreError ErrZeroAmount))
  else if decide (dr = t_CreditAccountID tr) then Store_CreateTransfer tr t = (t, Err (CoreError (ErrSelfTransfer dr)))
  else
    match db_accounts t !! hex_encode dr, db_accounts t !! hex_encode (t_CreditAccountID tr) with
    | Some d, Some c =>
        let bal := ar_credits d - ar_debits d in
        if decide (bal < 0)
        then Store_CreateTransfer tr t
             = (t, Err (CoreError (ErrInvariantViolation dr (of_Z (ar_debits d)) (of_Z (ar_credits d)))))
        else if decide (bal < v)
        then Store_CreateTransfer tr t = (t, Err (CoreError (ErrInsufficientFunds dr (of_Z bal) (t_Amount tr))))
        else tables_take tr d c t
             /\ (exists t', Store_CreateTransfer tr t = (t', Ok tr)
                 /\ db_accounts t' = transfer_effect tr (db_accounts t)
                 /\ db_transfers t' = <[hex_encode (t_ID tr) := transfer_row_of tr]> (db_transfers t))
             \/ ~ tables_take tr d c t /\ Store_CreateTransfer tr t = (t, Err (SqlError ErrServer))
    | _, _ => Store_CreateTransfer tr t = (t, Err (AccountLookupError ErrNoRows))
    end.
Proof using All.
  intros Hw Ht. cbv zeta. rewrite Store_CreateTransfer_run by done.
  destruct (decide (val (t_Amount tr) = 0)) as [Hv|Hv]; [done|].
  destruct (decide (t_DebitAccountID tr = t_CreditAccountID tr)) as [->|Hne]; [done|].
  pose proof (transfer_body_missing tr t Hne) as Hmiss.
  destruct (db_accounts t !! hex_encode (t_DebitAccountID tr)) as [d|] eqn:Ed.
  2:{ destruct (transfer_body tr t) as [t' r]. cbn [snd] in Hmiss. rewrite (Hmiss (or_introl eq_refl)); done. }
  destruct (db_accounts t !! hex_encode (t_CreditAccountID tr)) as [c|] eqn:Ec.
  2:{ destruct (transfer_body tr t) as [t' r]. cbn [snd] in Hmiss. rewrite (Hmiss (or_intror eq_refl)); done. }
  clear Hmiss. destruct (Ht _ Ed) as [Hd Hc].
  rewrite (transfer_body_run tr t d c) by done.
  set (a := mkAccount _ _ _ _ _ _ _ _ _ _).
  assert (Ha : amounts_wf a).
  { unfold amounts_wf, a. cbn. split_and!; try done; by apply of_Z_wf. }
  assert (Vd : vPD a = ar_debits d) by apply val_of_Z. assert (Vc : vPC a = ar_credits d) by apply val_of_Z.
  pose proof (Balance_iff a Ha) as Hb. destruct (Balance a) as [bal|e] eqn:Eb.
  - assert (Hle : vPD a <= vPC a) by (apply Hb; by eexists). rewrite decide_False by lia.
    destruct (Balance_Ok a bal Ha Eb) as [Hwb Hvb]. rewrite Cmp_ltb by (done || apply Hw).
    destruct (Z.ltb_spec (val bal) (val (t_Amount tr))) as [Hlt|Hge].
    + rewrite decide_True by lia. do 4 f_equal. symmetry. apply of_Z_eq; [done|]. lia.
    + rewrite decide_False by lia.
      destruct (transfer_writes_spec tr t d c Hw Hne Ed Ec) as [[H1 (t' & E & H2)]|[H1 (t' & E)]]; rewrite E.
      * left. split; [done|]. by exists t'.
      * by right.
  - assert (Hlt : ~ vPD a <= vPC a) by (intros [b Eb']%Hb; congruence). rewrite decide_True by lia.
    revert Eb. unfold Balance. destruct (Sub _ _); [done|]. by intros [= <-].
Qed.
(** A covered transfer that the tables take. *)
Lemma covered_transfer tr t d c : wf_transfer tr -> 0 < val (t_Amount tr) -> t_DebitAccountID tr <> t_CreditAccountID tr ->
  db_accounts t !! hex_encode (t_DebitAccountID tr) = Some d ->
  db_accounts t !! hex_encode (t_CreditAccountID tr) = Some c ->
  in128 (ar_debits d) -> in128 (ar_credits d) -> ar_debits d + val (t_Amount tr) <= ar_credits d ->
  tables_take tr d c t ->
  exists t', Store_CreateTransfer tr t = (t', Ok tr) /\ db_accounts t' = transfer_effect tr (db_accounts t)
    /\ db_transfers t' = <[hex_encode (t_ID tr) := transfer_row_of tr]> (db_transfers t).
Proof using All.
  intros Hw Hv Hne Ed Ec Hd Hc Hcov Htake. rewrite Store_CreateTransfer_run by done.
  rewrite decide_False by lia. rewrite decide_False by done. rewrite (transfer_body_run tr t d c) by done.
  set (a := mkAccount _ _ _ _ _ _ _ _ _ _).
  assert (Ha : amounts_wf a) by (unfold amounts_wf, a; cbn; split_and!; try done; by apply of_Z_wf).
  assert (Vd : vPD a = ar_debits d) by apply val_of_Z. assert (Vc : vPC a = ar_credits d) by apply val_of_Z.
  destruct (Balance_total a Ha) as (bal & -> & Hwb & Hvb); [lia|]. rewrite Cmp_ltb by (done || apply Hw).
  rewrite (proj2 (Z.ltb_ge _ _)) by lia.
  destruct (transfer_writes_spec tr t d c Hw Hne Ed Ec) as [[_ (t' & E & H)]|[Hno _]]; [|done].
  exists t'. by rewrite E.
Qed.

(** ** The mirror and the ledger *)

Definition row_of (a : Account) : account_row :=
  mkAccountRow (TrimRight_zeros (a_Currency a)) (vPD a) (vPC a).

(** The table of accounts shows the posted amounts of the ledger. *)
Definition mirrors (L : Ledger) (t : T) : Prop :=
  forall id, length id = 16%nat -> db_accounts t !! hex_encode id = row_of <$> (l_accounts L !! id).

(** Neither a settlement nor a hold. *)
Definition plain (tr : Transfer) : Prop := isPost tr = false /\ isVoid tr = false /\ isPending tr = false.

(** No transfer of the table has the ID or the key of one of these. *)
Definition unused (trs : list Transfer) (t : T) : Prop :=
  forall tr, tr ∈ trs -> db_transfers t !! hex_encode (t_ID tr) = None
    /\ forall id r, db_transfers t !! id = Some r -> tr_key r <> t_IdempotencyKey tr.

Fixpoint ledger_accepts (trs : list Transfer) (m : AccountManager) : option AccountManager :=
  match trs with
  | [] => Some m
  | tr :: trs => match ApplyTransferState tr m with
                 | (m, Ok _) => ledger_accepts trs m
                 | (_, Err _) => None
                 end
  end.
Fixpoint mirror_accepts (trs : list Transfer) (t : T) : option T :=
  match trs with
  | [] => Some t
  | tr :: trs => match Store_CreateTransfer tr t with
                 | (t, Ok _) => mirror_accepts trs t
                 | (_, Err _) => None
                 end
  end.

Lemma mirror_step tr m m' t : good m -> wf_transfer tr -> plain tr -> mirrors (abs m) t -> unused [tr] t ->
  ApplyTransferState tr m = (m', Ok tt) ->
  good m' /\ exists t', Store_CreateTransfer tr t = (t', Ok tr) /\ mirrors (abs m') t'
    /\ db_transfers t' = <[hex_encode (t_ID tr) := transfer_row_of tr]> (db_transfers t).
Proof using All.
  intros Hg Hw (Hpo & Hvo & Hpe) Hm Hu E.
  assert (Hfr : fresh_hold tr (abs m)) by (intros ?; congruence).
  destruct (apply_Ok_inv m tr m' Hg Hw Hfr E) as (v & Ha & Hf & Hg' & EL). split; [done|].
  unfold allowed in Ha. rewrite Hpo, Hvo in Ha. cbn [orb] in Ha.
  destruct Ha as (_ & _ & Hv & Hne & d & c & Ed & Ec & _ & _ & _ & _ & _ & Hfunds).
  unfold funds_allowed in Hfunds. rewrite Hpe in Hfunds.
  unfold effect_fits, effect in Hf. rewrite Hpo, Hvo, Hpe in Hf. destruct Hf as [Hfd Hfc].
  destruct (Hfd _ Ed) as [Fd _]. destruct (Hfc _ Ec) as [Fc _]. clear Hfd Hfc.
  destruct Hg as [_ HI]. destruct (inv_account _ HI _ _ Ed) as [_ (W1 & W2 & _)]. destruct (inv_account _ HI _ _ Ec) as [_ (W3 & W4 & _)].
  assert (Rd : db_accounts t !! hex_encode (t_DebitAccountID tr) = Some (row_of d)) by (rewrite Hm, Ed; [done|apply Hw]).
  assert (Rc : db_accounts t !! hex_encode (t_CreditAccountID tr) = Some (row_of c)) by (rewrite Hm, Ec; [done|apply Hw]).
  destruct (Hu tr) as [Hu1 Hu2]; [by left|].
  assert (Hp39 : 2 ^ 128 <= 10 ^ 39) by (vm_compute; discriminate).
  destruct (covered_transfer tr t (row_of d) (row_of c)) as (t' & Et & At & Xt); try done.
  - by apply val_range.
  - by apply val_range.
  - unfold tables_take, transfer_insertable, transfer_row_of, numeric39, in128, amt in *.
    cbn [row_of ar_debits ar_credits tr_debit tr_credit tr_amount tr_key]. rewrite Rd, Rc.
    pose proof (val_range _ (wft_amount _ Hw)). split_and!; try done; lia.
  - exists t'. split; [done|]. split; [|done]. intros id Hid. rewrite At, EL.
    unfold spec_apply, effect. rewrite Hpo, Hvo, Hpe. cbn [spec_record spec_move l_accounts]. unfold move, transfer_effect.
    assert (Hhex : forall a, a <> id -> hex_encode a <> hex_encode id) by (by intros a Ha ?%(inj _)).
    pose proof (Hm id Hid) as Hmid.
    destruct (decide (t_CreditAccountID tr = id)) as [<-|Hc'].
    { rewrite !lookup_alter_eq, !lookup_alter_ne by (done || by apply Hhex). rewrite Hmid, Ec. cbn.
      unfold row_credits, row_of, shift_credit. cbn. do 2 f_equal. unfold vPC. cbn. by rewrite val_of_Z. }
    rewrite !(lookup_alter_ne _ _ (t_CreditAccountID tr)), !(lookup_alter_ne _ _ (hex_encode (t_CreditAccountID tr)))
      by (done || by apply Hhex).
    destruct (decide (t_DebitAccountID tr = id)) as [<-|Hd'].
    + rewrite !lookup_alter_eq. rewrite Hmid, Ed. cbn. unfold row_debits, row_of, shift_debit. cbn. do 2 f_equal.
      unfold vPD. cbn. by rewrite val_of_Z.
    + rewrite !lookup_alter_ne by (done || by apply Hhex). done.
Qed.
(** C34. The mirror follows the ledger.  Any sequence of plain transfers that the
    ledger accepts, with IDs and keys of their own, is accepted by the mirror
    from tables with the same posted balances, and leaves the same posted
    balances on every account. *)
Theorem mirror_follows_ledger trs m m' t : good m -> Forall wf_transfer trs -> Forall plain trs ->
  NoDup (t_ID <$> trs) -> NoDup (t_IdempotencyKey <$> trs) ->
  mirrors (abs m) t -> unused trs t -> ledger_accepts trs m = Some m' ->
  exists t', mirror_accepts trs t = Some t' /\ mirrors (abs m') t'.
Proof using All.
  revert m t. induction trs as [|tr trs IH]; intros m t Hg Hw Hp Hid Hkey Hm Hu E; cbn [ledger_accepts mirror_accepts] in *.
  { injection E as <-. by exists t. }
  apply Forall_cons in Hw as [Hw Hws]. apply Forall_cons in Hp as [Hp Hps].
  cbn [fmap list_fmap] in Hid, Hkey. apply NoDup_cons in Hid as [Hid Hids]. apply NoDup_cons in Hkey as [Hkey Hkeys].
  destruct (ApplyTransferState tr m) as [m1 [[]|e]] eqn:E1; [|done].
  assert (Hu1 : unused [tr] t) by (intros x ->%list_elem_of_singleton; apply Hu; by left).
  destruct (mirror_step tr m m1 t Hg Hw Hp Hm Hu1 E1) as (Hg1 & t1 & Et & Hm1 & Xt). rewrite Et.
  apply (IH m1 t1); try done. intros x Hx. destruct (Hu x) as [Hx1 Hx2]; [by right|].
  rewrite Xt. split.
  - rewrite lookup_insert_ne; [done|]. intros Heq%(inj _). apply Hid. rewrite Heq. by apply list_elem_of_fmap_2.
  - intros id r [[<- <-]|[_ Hr]]%lookup_insert_Some; [|by apply (Hx2 id)]. cbn. intros Heq. apply Hkey. rewrite Heq.
    by apply list_elem_of_fmap_2.
Qed.

(** [CheckInvariant] compares the two sums of the table. *)
Theorem check_invariant_sums t :
  CheckInvariant t = (t, Ok (msum ar_debits (db_accounts t) =? msum ar_credits (db_accounts t))).
Proof using All.
  destruct (law_select_totals t) as (rows & E & ids & Hp & Hf). unfold CheckInvariant, sql, sbind. rewrite E. cbn [map_err].
  unfold msum. rewrite !(lsum_Permutation _ _ _ Hp). unfold sret. do 2 f_equal.
  assert (Hs : lsum (fun r => dec_val r.1) rows = lsum (fun kv => ar_debits kv.2) ids
    /\ lsum (fun r => dec_val r.2) rows = lsum (fun kv => ar_credits kv.2) ids).
  { clear -Hf. induction Hf as [|r kv rows ids [(_ & _ & E1) (_ & _ & E2)] _ [IH1 IH2]]; [done|].
    split; [change (dec_val r.1 + lsum (fun r => dec_val r.1) rows = ar_debits kv.2 + lsum (fun kv => ar_debits kv.2) ids)
           |change (dec_val r.2 + lsum (fun r => dec_val r.2) rows = ar_credits kv.2 + lsum (fun kv => ar_credits kv.2) ids)]; lia. }
  by destruct Hs as [-> ->].
Qed.
(** An amount of 2^128 or more, which the column takes, is read as zero: the
    error of the conversion is dropped. *)
Theorem large_sum_reads_zero t id r : db_accounts t !! hex_encode id = Some r -> 2 ^ 128 <= ar_credits r ->
  exists a, Store_GetAccount id t = (t, Ok a) /\ a_PostedCredits a = zero128.
Proof using All.
  intros Hr Hbig. pose proof (law_select_account t (hex_encode id)) as H. rewrite Hr in H.
  destruct H as (ds & cs & E & _ & Hc). unfold Store_GetAccount. rewrite E. eexists. split; [done|]. cbn.
  by apply (FromString_beyond _ _ Hc).
Qed.
End Mirror.

(** ** Examples *)

(** The tables that mirror [demo0]: account 1 with 100, account 2 with 0. *)
Definition demo_tables : Tables :=
  mkTables {[hex_encode (idn 1) := ([], 0, 100)%N; hex_encode (idn 2) := ([], 0, 0)%N]} ∅.

Definition with_key (k : Z) (tr : Transfer) : Transfer :=
  mkTransfer (t_ID tr) (t_DebitAccountID tr) (t_CreditAccountID tr) (t_Amount tr) (be_bytes 32 k)
    (t_UserData128 tr) (t_Timestamp tr) (t_Timeout tr) (t_Ledger tr) (t_Code tr) (t_Flags tr).
Definition demo_plain : list Transfer := [with_key 1 (xfer 8 1 2 30 0 0); with_key 2 (xfer 9 2 1 10 0 0)].

Lemma demo_plain_wf : Forall wf_transfer demo_plain.
Proof.
  assert (H : forall k n d c v, is_u64 v -> wf_transfer (with_key k (xfer n d c v 0 0))).
  { intros. constructor; cbn; try done; try apply idn_length; try apply length_be_bytes; auto with ledger. }
  repeat constructor; by apply H.
Qed.

(** Creating an account, seen from the abstract ledger. *)
Lemma created a m : good m -> amounts_wf a -> (Create a m).2 = Ok tt ->
  good (Create a m).1 /\ l_accounts (abs (Create a m).1) = <[a_ID a := a]> (l_accounts (abs m)).
Proof.
  intros Hg Ha E%run_Ok. pose proof (Create_ok a m Hg Ha) as C. destruct (l_accounts (abs m) !! a_ID a); [congruence|].
  destruct C as (m2 & E2 & Hg2 & A). rewrite E in E2. injection E2 as ->. by rewrite A.
Qed.

Lemma demo_accounts : l_accounts (abs demo0) = <[idn 2 := acct 2 0]> (<[idn 1 := acct 1 100]> ∅).
Proof.
  destruct (created (acct 1 100) NewAccountManager NewAccountManager_good) as [G1 A1];
    [by apply acct_amounts|vm_compute; reflexivity|].
  destruct (created (acct 2 0) _ G1) as [_ A2]; [by apply acct_amounts|vm_compute; reflexivity|].
  unfold demo0. by rewrite A2, A1.
Qed.

Lemma demo_mirrors : mirrors (abs demo0) demo_tables.
Proof.
  intros id _. change (db_accounts demo_tables) with (tables_accounts demo_tables). rewrite demo_accounts, lookup_view.
  unfold demo_tables. cbn [tb_accounts].
  destruct (decide (id = idn 2)) as [->|H2]; [rewrite lookup_insert_eq; vm_compute; reflexivity|].
  destruct (decide (id = idn 1)) as [->|H1].
  { rewrite (lookup_insert_ne _ (idn 2)) by done. rewrite (lookup_insert_eq _ (idn 1)); vm_compute; reflexivity. }
  assert (Hh : forall a, id <> a -> hex_encode a <> hex_encode id) by (by intros a Ha ?%(inj _)).
  rewrite !(lookup_insert_ne _ (idn _)) by done. rewrite lookup_empty.
  rewrite lookup_insert_ne by (by apply Hh). by rewrite lookup_singleton_ne by (by apply Hh).
Qed.

Lemma mirror_transfer_decides_witness :
  Store_CreateTransfer (xfer 8 2 1 30 0 0) demo_tables
  = (demo_tables, Err (CoreError (ErrInsufficientFunds (idn 2) zero128 (FromUint64 30)))).
Proof.
  assert (Hw : wf_transfer (xfer 8 2 1 30 0 0)) by (by apply xfer_wf).
  assert (Hr : row_in128 demo_tables (idn 2)).
  { intros r Hr. assert (E : db_accounts demo_tables !! hex_encode (idn 2) = Some (mkAccountRow [] 0 0)) by (vm_compute; reflexivity).
    rewrite E in Hr. injection Hr as <-. cbn [ar_debits ar_credits]. unfold in128. lia. }
  pose proof (mirror_transfer_decides (xfer 8 2 1 30 0 0) demo_tables Hw Hr) as H.
  assert (E1 : db_accounts demo_tables !! hex_encode (idn 2) = Some (mkAccountRow [] 0 0)) by (vm_compute; reflexivity).
  assert (E2 : db_accounts demo_tables !! hex_encode (idn 1) = Some (mkAccountRow [] 0 100)) by (vm_compute; reflexivity).
  cbv zeta in H. cbn [xfer t_Amount t_DebitAccountID t_CreditAccountID] in H. rewrite E1, E2 in H.
  rewrite decide_False in H by (by vm_compute). rewrite decide_False in H by (by vm_compute).
  cbn [ar_credits ar_debits] in H. rewrite decide_False in H by lia. rewrite decide_True in H by (by vm_compute).
  exact H.
Defined.

Lemma mirror_follows_ledger_witness :
  exists m' t', ledger_accepts demo_plain demo0 = Some m' /\ mirror_accepts demo_plain demo_tables = Some t'
    /\ mirrors (abs m') t'.
Proof.
  assert (Hs : bool_decide (is_Some (ledger_accepts demo_plain demo0)) = true) by (vm_compute; reflexivity).
  destruct (bool_decide_eq_true_1 _ Hs) as [m' E]. clear Hs.
  exists m'.
  assert (Hp : Forall plain demo_plain) by (repeat constructor).
  assert (Hid : NoDup (t_ID <$> demo_plain)) by (apply (bool_decide_unpack _); vm_compute; reflexivity).
  assert (Hk : NoDup (t_IdempotencyKey <$> demo_plain)) by (apply (bool_decide_unpack _); vm_compute; reflexivity).
  assert (Hu : unused demo_plain demo_tables).
  { intros tr _. split; [done|]. intros id r H. change (db_transfers demo_tables) with (∅ : gmap gostring transfer_row) in H.
    by rewrite lookup_empty in H. }
  destruct (mirror_follows_ledger demo_plain demo0 m' demo_tables demo0_good demo_plain_wf Hp Hid Hk demo_mirrors Hu E)
    as (t' & Et & Hm). exists t'. split; [exact E|split; [exact Et|exact Hm]].
Defined.

(** ** What goes wrong *)

(** Transfers without an idempotency key carry the zero key, and the mirror
    stores its 32 bytes under the UNIQUE constraint instead of NULL: the second
    transfer without a key, which the ledger accepts, is refused. *)
Theorem second_keyless_refused :
  let trs := [xfer 8 1 2 30 0 0; xfer 9 2 1 10 0 0] in
  bool_decide (is_Some (ledger_accepts trs demo0)) = true
  /\ (t ← mirror_accepts (take 1 trs) demo_tables; Some (Store_CreateTransfer (xfer 9 2 1 10 0 0) t).2)
     = Some (Err (SqlError ErrServer)).
Proof. split; vm_compute; reflexivity. Qed.

(** An account created with credits, as the benchmark does, is enough for
    [CheckInvariant] to report a violation. *)
Theorem initial_credits_break_invariant :
  (CheckInvariant (Store_CreateAccount (acct 1 100) (mkTables ∅ ∅)).1).2 = Ok false.
Proof. vm_compute. reflexivity. Qed.
