(* ===== verification/PostgresLocks.v ===== *)
(** * The lock order of the SQL mirror

    Transactions that run [CreateTransfer] at the same time take row locks with
    SELECT ... FOR UPDATE and keep them until they end.  [lock_order] is the
    order of the code; with it no set of transactions can wait for each other. *)

From S2P Require Import Prelude Core Codec Text TextProps Accounts AccountsProps Postgres PostgresProps.

(** ** Transactions and their locks *)

(** The locks a transaction holds, those it still takes, in order, and whether
    it has ended. *)
Record Txn := mkTxn {
  tx_held : list gostring;
  tx_wanted : list gostring;
  tx_ended : bool }.

Definition begin_txn (tr : Transfer) : Txn :=
  let '(first, second) := lock_order tr in mkTxn [] [first; second] false.

Definition ended_txn : Txn := mkTxn [] [] true.

(** A lock is free for transaction [i] when no other holds it. *)
Definition lock_free (s : list Txn) (i : nat) (l : gostring) : Prop :=
  forall j tx, s !! j = Some tx -> j <> i -> l ∉ tx_held tx.

(** A transaction takes its next lock, or commits with both. *)
Inductive txn_advances (s : list Txn) : list Txn -> Prop :=
| txn_locks i h l w : s !! i = Some (mkTxn h (l :: w) false) -> lock_free s i l ->
    txn_advances s (<[i := mkTxn (h ++ [l]) w false]> s)
| txn_commits i h : s !! i = Some (mkTxn h [] false) -> txn_advances s (<[i := ended_txn]> s).

(** It may also end early: a missing account, funds, a constraint. *)
Inductive txn_step (s : list Txn) : list Txn -> Prop :=
| txn_goes_on s' : txn_advances s s' -> txn_step s s'
| txn_rolls_back i tx : s !! i = Some tx -> tx_ended tx = false -> txn_step s (<[i := ended_txn]> s).

(** ** The order *)

Lemma str_gt_val a : forall b, length a = length b -> str_gt a b = (be_val b <? be_val a).
Proof.
  induction a as [|x a IH]; intros [|y b] Hl; try done. injection Hl as Hl. cbn [str_gt].
  rewrite !be_val_cons, Hl. pose proof (be_val_range a) as Ra. pose proof (be_val_range b) as Rb. rewrite Hl in Ra.
  set (P := 2 ^ (8 * Z.of_nat (length b))) in *. assert (0 < P) by (by apply Z.pow_pos_nonneg; lia). clearbody P.
  destruct (Z.eqb_spec (byte_val x) (byte_val y)) as [->|Hne].
  - rewrite IH by done. destruct (Z.ltb_spec (be_val b) (be_val a)); symmetry; [apply Z.ltb_lt|apply Z.ltb_ge]; lia.
  - destruct (Z.ltb_spec (byte_val y) (byte_val x)); symmetry; [apply Z.ltb_lt|apply Z.ltb_ge]; nia.
Qed.

Lemma be_val_inj a b : length a = length b -> be_val a = be_val b -> a = b.
Proof. intros Hl E. rewrite <- (be_bytes_val _ a eq_refl), E. by apply be_bytes_val. Qed.

Lemma lock_order_increasing tr : wf_transfer tr -> t_DebitAccountID tr <> t_CreditAccountID tr ->
  be_val (lock_order tr).1 < be_val (lock_order tr).2.
Proof.
  intros Hw Hne. unfold lock_order.
  assert (Hl : length (hex_encode (t_DebitAccountID tr)) = length (hex_encode (t_CreditAccountID tr)))
    by (by rewrite !length_hex_encode, (wft_debit _ Hw), (wft_credit _ Hw)).
  rewrite str_gt_val by done. destruct (Z.ltb_spec (be_val (hex_encode (t_CreditAccountID tr))) (be_val (hex_encode (t_DebitAccountID tr)))); cbn [fst snd]; [done|].
  assert (be_val (hex_encode (t_DebitAccountID tr)) <> be_val (hex_encode (t_CreditAccountID tr))); [|lia].
  intros E%be_val_inj; [|done]. by apply (inj _) in E.
Qed.

(** ** The invariant *)

Definition txn_ok (tx : Txn) : Prop :=
  if tx_ended tx then tx_held tx = [] /\ tx_wanted tx = []
  else exists a b, tx_held tx ++ tx_wanted tx = [a; b] /\ be_val a < be_val b.

Lemma advances_ok s s' : Forall txn_ok s -> txn_advances s s' -> Forall txn_ok s'.
Proof.
  intros H [i h l w Hi _|i h Hi]; (apply Forall_insert; [done|]); [|by split].
  pose proof (Forall_lookup_1 _ _ _ _ H Hi) as (a & b & E & Hlt). exists a, b. cbn in *. by rewrite <- app_assoc.
Qed.
Lemma txn_step_ok s s' : Forall txn_ok s -> txn_step s s' -> Forall txn_ok s'.
Proof.
  intros H [s1 Ha|i tx Hi _]; [by apply (advances_ok s)|]. apply Forall_insert; [done|by split].
Qed.

(** The steps that are left. *)
Definition txn_measure (tx : Txn) : Z := if tx_ended tx then 0 else Z.of_nat (length (tx_wanted tx)) + 1.

Lemma txn_step_measure s s' : txn_step s s' -> lsum txn_measure s' + 1 <= lsum txn_measure s.
Proof.
  intros [s1 [i h l w Hi _|i h Hi]|i tx Hi He]; rewrite (lsum_insert _ _ _ _ _ Hi); unfold txn_measure; cbn; [lia|lia|].
  rewrite He. lia.
Qed.

(** A waiting transaction leads to one that can go on. *)
Lemma waiting_advances s : Forall txn_ok s -> forall k i h l w bound,
  s !! i = Some (mkTxn h (l :: w) false) ->
  (forall j tx x, s !! j = Some tx -> x ∈ tx_wanted tx -> be_val x < bound) ->
  (Z.to_nat (bound - be_val l) <= k)%nat -> exists s', txn_advances s s'.
Proof.
  intros Hok. induction k as [|k IH]; intros i h l w bound Hi Hbound Hk;
    pose proof (Hbound i _ l Hi ltac:(by left)) as Hl; [lia|].
  destruct (decide (Exists (fun tx => l ∈ tx_held tx) (delete i s))) as [He|Hn].
  - apply Exists_exists in He as (tx & Htx & Hin). apply list_elem_of_lookup in Htx as (j' & Hj').
    assert (exists j, s !! j = Some tx) as [j Hj].
    { destruct (decide (j' < i)%nat); [rewrite list_lookup_delete_lt in Hj' by done|rewrite list_lookup_delete_ge in Hj' by lia]; by eexists. }
    pose proof (Forall_lookup_1 _ _ _ _ Hok Hj) as Htok. destruct tx as [hj wj ej]. unfold txn_ok in Htok. cbn [tx_held tx_wanted tx_ended] in *.
    destruct ej; [destruct Htok as [-> _]; by apply not_elem_of_nil in Hin|]. destruct Htok as (a & b & E & Hlt).
    destruct wj as [|b' wj]; [by exists (<[j := ended_txn]> s); eapply txn_commits|].
    assert (Hb : l = a /\ b' = b).
    { destruct hj as [|x [|y hj]]; cbn in E; [by apply not_elem_of_nil in Hin| |].
      - injection E as -> -> _. by apply list_elem_of_singleton in Hin as ->.
      - injection E as _ _ E. by destruct hj. }
    destruct Hb as [-> ->]. eapply (IH j hj b wj bound Hj Hbound). lia.
  - eexists. apply (txn_locks s i h l w Hi). intros j tx Hj Hne Hin. apply Hn. apply Exists_exists. exists tx. split; [|done].
    apply list_elem_of_lookup. destruct (decide (j < i)%nat).
    + exists j. by rewrite list_lookup_delete_lt.
    + exists (j - 1)%nat. rewrite list_lookup_delete_ge by lia. by replace (S (j - 1)) with j by lia.
Qed.

(** ** Every set of transfers ends *)

Lemma begin_ok trs :
  Forall wf_transfer trs -> Forall (fun tr => t_DebitAccountID tr <> t_CreditAccountID tr) trs ->
  Forall txn_ok (begin_txn <$> trs).
Proof.
  intros Hw Hd. apply Forall_fmap, Forall_forall. intros tr Hin.
  pose proof (lock_order_increasing tr (proj1 (Forall_forall _ _) Hw _ Hin) (proj1 (Forall_forall _ _) Hd _ Hin)) as H.
  cbn. unfold begin_txn. destruct (lock_order tr) as [a b]. by exists a, b.
Qed.

Lemma steps_ok n s s' : Forall txn_ok s -> nsteps txn_step n s s' ->
  Forall txn_ok s' /\ lsum txn_measure s' + Z.of_nat n <= lsum txn_measure s.
Proof.
  intros H Hn. induction Hn as [s|n s s1 s' H1 Hn IH]; [split; [done|lia]|].
  destruct (IH (txn_step_ok _ _ H H1)) as [? ?]. pose proof (txn_step_measure _ _ H1). split; [done|lia].
Qed.

Lemma measure_nonneg s : 0 <= lsum txn_measure s.
Proof. apply lsum_nonneg. intros tx. unfold txn_measure. destruct (tx_ended tx); lia. Qed.

Lemma measure_begin trs : lsum txn_measure (begin_txn <$> trs) = 3 * Z.of_nat (length trs).
Proof.
  induction trs as [|tr trs IH]; [done|]. rewrite fmap_cons.
  change (lsum txn_measure (begin_txn tr :: (begin_txn <$> trs))) with (txn_measure (begin_txn tr) + lsum txn_measure (begin_txn <$> trs)).
  rewrite IH. cbn [length].
  assert (txn_measure (begin_txn tr) = 3) as ->; [|lia]. unfold begin_txn. by destruct (lock_order tr).
Qed.

(** The largest lock that is wanted bounds the chain of waits. *)
Lemma wanted_bound (s : list Txn) : exists bound, forall (j : nat) tx x, s !! j = Some tx -> x ∈ tx_wanted tx -> be_val x < bound.
Proof.
  induction s as [|tx s [B IH]]; [by exists 0|].
  assert (exists B', forall x, x ∈ tx_wanted tx -> be_val x < B') as [B' HB'].
  { induction (tx_wanted tx) as [|y l [C HC]]; [exists 0; intros x Hx; by apply not_elem_of_nil in Hx|].
    exists (Z.max C (be_val y + 1)). intros x [->|Hx]%elem_of_cons; [lia|]. specialize (HC x Hx). lia. }
  exists (Z.max B B'). intros [|j] tx' x Hj Hx; cbn in Hj.
  - injection Hj as <-. specialize (HB' x Hx). lia.
  - specialize (IH j tx' x Hj Hx). lia.
Qed.

Lemma not_ended_advances s i tx : Forall txn_ok s -> s !! i = Some tx -> tx_ended tx = false ->
  exists s', txn_advances s s'.
Proof.
  intros Hok Hi He. destruct tx as [h [|l w] e]; cbn in He; subst e; [eexists; by eapply txn_commits|].
  destruct (wanted_bound s) as [B HB]. by eapply (waiting_advances s Hok _ i h l w B Hi HB).
Qed.

(** C36. However many transfers run at the same time on the SQL store, their
    transactions never wait for each other in a circle: as long as one has not
    ended, one can take its next row lock or commit, and all have ended after
    at most three steps each. *)
Theorem transfers_do_not_deadlock trs n s :
  Forall wf_transfer trs -> Forall (fun tr => t_DebitAccountID tr <> t_CreditAccountID tr) trs ->
  nsteps txn_step n (begin_txn <$> trs) s ->
  (n <= 3 * length trs)%nat
  /\ (Forall (fun tx => tx_ended tx = true) s \/ exists s', txn_advances s s').
Proof.
  intros Hw Hd Hn. destruct (steps_ok _ _ _ (begin_ok _ Hw Hd) Hn) as [Hok Hm].
  rewrite measure_begin in Hm. pose proof (measure_nonneg s). split; [lia|].
  destruct (decide (Forall (fun tx => tx_ended tx = true) s)) as [|Hx]; [by left|right].
  apply not_Forall_Exists in Hx; [|apply _]. apply Exists_exists in Hx as (tx & Hin & Hne).
  apply list_elem_of_lookup in Hin as [i Hi]. apply (not_ended_advances s i tx Hok Hi). by apply not_true_is_false.
Qed.
Lemma transfers_do_not_deadlock_witness :
  let trs := [xfer 8 1 2 30 0 0; xfer 9 2 1 10 0 0] in
  exists s, nsteps txn_step 1 (begin_txn <$> trs) s /\ exists s', txn_advances s s'.
Proof.
  intros trs. assert (Hw : Forall wf_transfer trs) by (repeat constructor; by apply xfer_wf).
  assert (Hd : Forall (fun tr => t_DebitAccountID tr <> t_CreditAccountID tr) trs) by (repeat constructor; by vm_compute).
  set (l := (lock_order (xfer 8 1 2 30 0 0)).1). set (l2 := (lock_order (xfer 8 1 2 30 0 0)).2).
  exists (<[0%nat := mkTxn [l] [l2] false]> (begin_txn <$> trs)).
  assert (H1 : nsteps txn_step 1 (begin_txn <$> trs) (<[0%nat := mkTxn [l] [l2] false]> (begin_txn <$> trs))).
  { eapply nsteps_once, txn_goes_on. apply (txn_locks _ 0 [] l [l2]); [by vm_compute|].
    intros [|[|j]] tx Hj Hne; [done| |done]. injection Hj as <-. apply not_elem_of_nil. }
  split; [done|]. destruct (transfers_do_not_deadlock trs 1 _ Hw Hd H1) as [_ [Ha|Hs]]; [|done].
  by apply Forall_inv in Ha.
Defined.
