(* ===== verification/Server.v ===== *)
(** * The server process (cmd/server/main.go)

    One process has one log, which its ledger and its replication share: the
    ledger's checkpointer truncates the log that the follower appends to and
    replays.  The log is [pr_wal]; the log inside the engine and inside the
    follower is replaced by it before each of their steps.  The steps of the
    goroutines are taken one at a time; the log is a buffered one. *)

From S2P Require Import Prelude Core Accounts Wal Idempotency Engine Snapshot Checkpoint Requests Ring Stream Replication Text.

(** The engine's configuration (engine/ledger.go): whether a directory of
    snapshots is named, and the rest as it is there. *)
Record EngineConfig := mkEngineConfig {
  ec_RingBufferSize : Z;
  ec_IdempotencyMaxSize : Z;
  ec_IdempotencyTTL : Z;
  ec_SnapshotDir : bool;
  ec_IsFollower : bool;
  ec_SnapshotInterval : Z;
  ec_MaxSnapshotsKept : Z }.

Definition DefaultConfig : EngineConfig := mkEngineConfig (2 ^ 16) 100000 (15 * 60 * 10 ^ 9) false false 0 0.

(** NewLedger replaces a configuration without a ring size as a whole. *)
Definition ledger_config (cfg : EngineConfig) : EngineConfig :=
  if ec_RingBufferSize cfg =? 0 then DefaultConfig else cfg.

(** What main reads of the configuration; it always names a directory. *)
Record ServerConfig := mkServerConfig {
  sc_LedgerRole : gostring;
  sc_WALSegmentSize : Z;
  sc_SnapshotInterval : Z;
  sc_MaxSnapshotsKept : Z;
  sc_RingBufferSize : Z;
  sc_IdempotencyMaxSize : Z }.

Definition is_follower_role (cfg : ServerConfig) : bool := bool_decide (sc_LedgerRole cfg = gostr "follower").

Definition engine_config (cfg : ServerConfig) : EngineConfig :=
  mkEngineConfig (sc_RingBufferSize cfg) (sc_IdempotencyMaxSize cfg) (ec_IdempotencyTTL DefaultConfig) true
    (is_follower_role cfg) (sc_SnapshotInterval cfg) (sc_MaxSnapshotsKept cfg).

(** What a process leaves on disk: segment files, the snapshots in the
    directory of the configuration and in the one below the log, term files. *)
Record Storage := mkStorage {
  st_wal : Disk;
  st_snapshots : SnapDir;
  st_walSnapshots : SnapDir;
  st_terms : Files }.

Record Process := mkProcess {
  pr_wal : WAL;
  pr_ledger : Requests.Node;
  pr_snapshots : SnapDir;
  pr_calls : list snap_call;
  pr_checkpointer : Checkpointer;
  pr_terms : Files;
  pr_follower : option Follower;   (* its goroutine runs *)
  pr_term : option Z }.            (* the term the replication server sends *)

(** The directory of snapshots that a process uses, and the storage it leaves. *)
Definition snapshots_of (cfg : ServerConfig) (s : Storage) : SnapDir :=
  if ec_SnapshotDir (ledger_config (engine_config cfg)) then st_snapshots s else st_walSnapshots s.
Definition storage_of (cfg : ServerConfig) (s : Storage) (p : Process) : Storage :=
  if ec_SnapshotDir (ledger_config (engine_config cfg))
  then mkStorage (w_disk (pr_wal p)) (pr_snapshots p) (st_walSnapshots s) (pr_terms p)
  else mkStorage (w_disk (pr_wal p)) (st_snapshots s) (pr_snapshots p) (pr_terms p).

(** NewLedger with its checks in their order: the snapshot, the ring's size. *)
Definition start_ledger (now : Z) (ec : EngineConfig) (dir : SnapDir) (w : WAL)
    : option (result (Checkpoint.Node * IdempotencyStore) error) :=
  snap ← load_snapshot dir;
  match restore_snapshot snap NewAccountManager, NewRingBuffer (ec_RingBufferSize ec) with
  | (_, Err err), _ => Some (Err err)
  | (_, Ok _), Err err => Some (Err err)
  | (_, Ok _), Ok _ => StartNode now [] (ec_IdempotencyMaxSize ec) (ec_IdempotencyTTL ec) dir w
  end.

(** main up to its listeners.  [None] is a panic, an error an exit. *)
Definition server_main (now : Z) (cfg : ServerConfig) (s : Storage) : option (result Process error) :=
  let w := Open (st_wal s) (sc_WALSegmentSize cfg) in
  let ec := ledger_config (engine_config cfg) in
  started ← start_ledger now ec (snapshots_of cfg s) w;
  Some (match started with
        | Err err => Err err
        | Ok (nd, ids) =>
            let '(nd, cp) := StartCheckpointer (ec_SnapshotInterval ec) (ec_MaxSnapshotsKept ec)
                               (nd, mkCheckpointer true false false 0) in
            let w := g_wal (Checkpoint.n_engine nd) in
            let ledger := Requests.mkNode (Checkpoint.n_engine nd) ids (ec_IsFollower ec) in
            if is_follower_role cfg
            then Ok (mkProcess w ledger (n_snapshots nd) (n_calls nd) cp (st_terms s)
                       (Some (NewFollower w (st_terms s) [])) None)
            else
              let '(terms, term) := PrimaryTerm (st_terms s) in
              Ok (mkProcess w ledger (n_snapshots nd) (n_calls nd) cp terms None (Some term))
        end).

(** ** The parts at work *)

Definition with_wal (w : WAL) (n : Requests.Node) : Requests.Node :=
  Requests.mkNode (set_wal w (Requests.n_engine n)) (n_idempKey n) (n_isFollower n).

(** The ledger as the services see it, and what a call makes of the process. *)
Definition ledger_of (p : Process) : Requests.Node := with_wal (pr_wal p) (pr_ledger p).
Definition after_call (n : Requests.Node) (p : Process) : Process :=
  mkProcess (g_wal (Requests.n_engine n)) n (pr_snapshots p) (pr_calls p) (pr_checkpointer p) (pr_terms p) (pr_follower p) (pr_term p).

(** The checkpointer's ticker. *)
Definition tick (p : Process) : Process :=
  let nd := Checkpoint.mkNode (Requests.n_engine (ledger_of p)) (pr_snapshots p) (pr_calls p) in
  let '(nd, cp) := takeSnapshot (nd, pr_checkpointer p) in
  let n := Requests.mkNode (Checkpoint.n_engine nd) (n_idempKey (pr_ledger p)) (n_isFollower (pr_ledger p)) in
  mkProcess (g_wal (Checkpoint.n_engine nd)) n (n_snapshots nd) (n_calls nd) cp (pr_terms p) (pr_follower p) (pr_term p).

Definition after_follower (f : option Follower) (w : WAL) (terms : Files) (p : Process) : Process :=
  mkProcess w (pr_ledger p) (pr_snapshots p) (pr_calls p) (pr_checkpointer p) terms f (pr_term p).

(** The follower's goroutine: it replays the log first, and ends when that
    fails; then it makes one connection after the other. *)
Definition follower_recovers (p : Process) : Process :=
  match pr_follower p with
  | None => p
  | Some f =>
      match recoverLocalState (fset_wal (pr_wal p) f) with
      | (f, Ok _) => after_follower (Some f) (f_localWAL f) (f_files f) p
      | (f, Err _) => after_follower None (f_localWAL f) (f_files f) p
      end
  end.
Definition follower_connects (peer : option (list byte -> list byte)) (n : nat) (p : Process) : option Process :=
  match pr_follower p with
  | None => Some p
  | Some f =>
      '(f, _) ← Start_round peer n (fset_wal (pr_wal p) f);
      Some (after_follower (Some f) (f_localWAL f) (f_files f) p)
  end.

(** ** Schedules *)

Inductive server_event : Type :=
| CallCreateTransfer (now : Z) (full : bool) (t : Transfer)
| CallCreateTransfers (now : Z) (batch : list Transfer)
| CallCreateAccounts (accounts : list Account)
| Tick
| FollowerRecovers
| FollowerConnects (peer : option (list byte -> list byte)) (n : nat).

(** [None]: the process has ended, or a call does not return. *)
Definition server_step (e : server_event) (p : Process) : option Process :=
  match e with
  | CallCreateTransfer now full t => '(n, _) ← CreateTransfer now full t (ledger_of p); Some (after_call n p)
  | CallCreateTransfers now batch => '(n, _) ← CreateTransfers now batch (ledger_of p); Some (after_call n p)
  | CallCreateAccounts accounts => Some (after_call (CreateAccounts accounts (ledger_of p)).1 p)
  | Tick => Some (tick p)
  | FollowerRecovers => Some (follower_recovers p)
  | FollowerConnects peer n => follower_connects peer n p
  end.
Fixpoint server_run (es : list server_event) (p : Process) : option Process :=
  match es with
  | [] => Some p
  | e :: es => p ← server_step e p; server_run es p
  end.
