(* ===== verification/ServerProps.v ===== *)
(** * Properties of the server process

    A process in the role of a follower: its services answer from the ledger
    that was made when it started, and its checkpointer removes log that its
    follower needs. *)

From S2P Require Import Prelude Core Uint128 Accounts LedgerSpec AccountsRefine AccountsProps Record Wal Recovery WalProps RecoveryProps.
From S2P Require Import Idempotency Engine EngineRefine EngineProps Snapshot Checkpoint Requests Stream Replication FollowerProps Text Server.

(** ** What the services of a follower answer *)

Lemma TriggerSnapshot_accounts nd : g_accounts (Checkpoint.n_engine (TriggerSnapshot nd).1) = g_accounts (Checkpoint.n_engine nd).
Proof. unfold TriggerSnapshot. destruct (snapshot_view _) as [[accs pendings] lsn]. by destruct (lsn <=? 0). Qed.

Lemma server_step_follower e p p' : n_isFollower (pr_ledger p) = true -> server_step e p = Some p' ->
  n_isFollower (pr_ledger p') = true
  /\ g_accounts (Requests.n_engine (pr_ledger p')) = g_accounts (Requests.n_engine (pr_ledger p)).
Proof.
  intros Hf. assert (Hf' : n_isFollower (ledger_of p) = true) by done.
  destruct e as [now full t|now batch|accounts| | |peer n]; cbn [server_step].
  - unfold CreateTransfer. rewrite Hf'. by intros [= <-].
  - unfold CreateTransfers. rewrite Hf'. by intros [= <-].
  - unfold CreateAccounts. rewrite Hf'. by intros [= <-].
  - intros [= <-]. unfold tick, takeSnapshot. set (nd := Checkpoint.mkNode _ _ _).
    pose proof (TriggerSnapshot_accounts nd) as E. destruct (TriggerSnapshot nd) as [nd' lsn]. by split.
  - intros [= <-]. unfold follower_recovers. destruct (pr_follower p) as [f|]; [|done].
    by destruct (recoverLocalState _) as [f' [[]|e]].
  - unfold follower_connects. destruct (pr_follower p) as [f|]; [|by intros [= <-]].
    destruct (Start_round peer n _) as [[f' d]|]; [|done]. by intros [= <-].
Qed.

(** The services of a follower answer from the ledger made at its start: every
    write is refused, and whatever the follower replicates later, the accounts
    that a read sees stay those. *)
Theorem follower_serves_start_state es p p' : n_isFollower (pr_ledger p) = true -> server_run es p = Some p' ->
  n_isFollower (pr_ledger p') = true
  /\ g_accounts (Requests.n_engine (ledger_of p')) = g_accounts (Requests.n_engine (ledger_of p)).
Proof.
  revert p. induction es as [|e es IH]; intros p Hf; cbn [server_run]; [by intros [= <-]|].
  destruct (server_step e p) as [p1|] eqn:E; [|done]. intros H.
  destruct (server_step_follower e p p1 Hf E) as [Hf1 E1]. destruct (IH p1 Hf1 H) as [Hf' E']. split; [done|].
  cbn in *. congruence.
Qed.

(** ** The restart of a follower

    A follower process replicates a log of two segments and is started again.
    Its ledger recovers, and the first cycle of its checkpointer, which runs
    before the follower, writes a snapshot and removes the first segment.  The
    follower knows no snapshots: it replays the rest of the log on no accounts,
    fails, and never connects again.  Without a checkpointer it resumes. *)
Definition follower_config (interval : Z) : ServerConfig := mkServerConfig (gostr "follower") 330 interval 3 8 100.
Definition empty_storage : Storage := mkStorage [] [] [] ∅.
Definition primary_run : list command := [demo_accounts; Transfers 1020 [xfer 11 1 2 7 0 0]].

Definition follower_process (interval : Z) : option Process :=
  match server_main 0 (follower_config interval) empty_storage with
  | Some (Ok p) =>
      server_run [FollowerRecovers; FollowerConnects (Some (stream_of (g_wal (run primary_run (fresh 330))) 1 10 2000)) 10] p
  | _ => None
  end.
Definition process_again (interval : Z) (p : Process) : option Process :=
  match server_main 0 (follower_config interval) (storage_of (follower_config interval) empty_storage p) with
  | Some (Ok p) => server_run [FollowerRecovers] p
  | _ => None
  end.
(** The follower's position, and what its process answers for the debits of
    account 1. *)
Definition follower_view (p : Process) : option Z * option Z :=
  (f_lastLSN <$> pr_follower p,
   match Requests.GetAccount (idn 1) (ledger_of p) with Ok a => Some (val (a_PostedDebits a)) | Err _ => None end).

Theorem follower_process_cannot_restart :
  follower_view <$> follower_process 60 = Some (Some 5, None)
  /\ follower_view <$> (follower_process 60 ≫= process_again 60) = Some (None, Some 7)
  /\ follower_view <$> (follower_process 0 ≫= process_again 0) = Some (Some 5, Some 7).
Proof. vm_compute. repeat split. Qed.

(** A ring size of 0 makes NewLedger drop the whole configuration, the role
    included: a process that follows a primary accepts writes. *)
Theorem zero_ring_follower_writes :
  let cfg := mkServerConfig (gostr "follower") 4096 60 3 0 100 in
  match server_main 0 cfg empty_storage with
  | Some (Ok p) => bool_decide (is_Some (pr_follower p)) = true
                   /\ (CreateAccounts [acct 1 100] (ledger_of p)).2 = Ok [(acct 1 100, None)]
  | _ => False
  end.
Proof. vm_compute. split; reflexivity. Qed.
