(* ===== verification/Loop.v ===== *)
(** * The event loop and its clients (engine/loop.go, event.go, ledger.go)

    One loop goroutine and any number of calls share the ring buffer, the
    request queues, the result channels and the idempotency store.  A step is one
    operation that other goroutines can observe - a send, a receive, a Submit, an
    operation of the store under its lock, a handler of the loop - with the local
    work that follows it, so a sequence of steps is an interleaving.  The ring is
    the list of the events in it, in the order of their claims ([Ring] shows that
    it is one); Submit claims a slot in one step and publishes it in the next, and
    may refuse at any time.  The calls are those of a leader; a call that is
    refused before it shares anything is in [Requests]. *)

From S2P Require Import Prelude Core Wal Idempotency Engine Ring Requests.

(** ** Events and results (event.go) *)

(** What a result channel, which holds one value, carries. *)
Inductive Msg : Type :=
| MAck (a : TransferAck)
| MAccount (acc : Account) (err : option error)
| MTransfer (t : option Transfer)
| MTransfers (ts : list Transfer)
| MView (accounts : list Account) (pendings : list Transfer) (lsn : Z).

Inductive ReadEvent : Type :=
| ReadAccount (id : ID)
| ReadTransfer (id : ID)
| ReadAccountTransfers (accountID afterID : ID) (limit : Z).

(** The pools of result channels, and the read queues, one of each type. *)
Inductive chan_type : Type := CAck | CAccount | CTransfer | CTransfers.
#[export] Instance chan_type_eq_dec : EqDecision chan_type.
Proof. solve_decision. Defined.
Definition read_type (ev : ReadEvent) : chan_type :=
  match ev with ReadAccount _ => CAccount | ReadTransfer _ => CTransfer | ReadAccountTransfers _ _ _ => CTransfers end.

Definition zeroAck : TransferAck := mkAck zeroTransfer None.

Record batchState := mkBatchState {
  bs_results : list TransferAck;
  bs_remaining : Z;
  bs_done : bool }.
Definition newBatchState (n : nat) : batchState := mkBatchState (replicate n zeroAck) (Z.of_nat n) false.
Definition batch_complete (index : nat) (ack : TransferAck) (b : batchState) : batchState :=
  let remaining := bs_remaining b - 1 in
  mkBatchState (<[index := ack]> (bs_results b)) remaining (if remaining =? 0 then true else bs_done b).

Record AccountCreateEvent := mkCreateEvent {
  ce_Accounts : list Account;
  ce_Results : list (option error);
  ce_Done : bool }.

(** ** Goroutines *)

(** Where drainControl returns to. *)
Inductive after_drain : Type := D_idle | D_again | D_batch (batch : list TransferEvent).

Inductive Run_pc : Type :=
| L_top                                                       (* select ctx.Done, default *)
| L_drain (k : after_drain)                                   (* drainControl *)
| L_idle (again : bool)                                       (* if batcher.Idle(); the second time, continue *)
| L_wait                                                      (* waitForWork *)
| L_collect
| L_process (batch : list TransferEvent)
| L_deliver (acks : list (TransferEvent * TransferAck)) (closing : bool)
| L_abandon                                                   (* abandonPending, the events *)
| L_abandon_control
| L_closed.

(** A call that ends with its context's error has the result [None]. *)
Abbreviation outcome A := (option (result A error)).

Inductive Call_pc : Type :=
| T_reserve (t : Transfer)
| T_acquire (t : Transfer)
| T_submit (t : Transfer) (ch : nat)
| T_publish (t : Transfer) (ch : nat)                         (* Submit, the slot claimed *)
| T_wait (t : Transfer) (ch : nat)
| T_settle (t : Transfer) (ack : TransferAck)
| T_return (t : Transfer) (r : outcome Transfer)
| B_reserve (batch todo : list Transfer) (plan : list (option TransferAck)) (seenKeys : gset Key) (reserved : list Key)
| B_submit (batch : list Transfer) (plan : list (option TransferAck)) (b j : nat)
| B_publish (batch : list Transfer) (plan : list (option TransferAck)) (b j : nat)
| B_tail (batch : list Transfer) (plan : list (option TransferAck)) (b j k : nat)
| B_wait (batch : list Transfer) (plan : list (option TransferAck)) (b : nat) (stop : option nat)
| B_settle (batch : list Transfer) (plan : list (option TransferAck)) (b j : nat) (stop : option nat)
| B_return (batch : list Transfer) (outcomes : list TransferAck) (canceled : bool)
| A_send (accounts : list Account)
| A_wait (accounts : list Account) (c : nat)
| A_return (accounts : list Account) (r : outcome (list (Account * option error)))
| R_acquire (ev : ReadEvent)
| R_send (ev : ReadEvent) (ch : nat)
| R_wait (ev : ReadEvent) (ch : nat)
| R_return (ev : ReadEvent) (r : option Msg)
| V_send
| V_wait (ch : nat)
| V_return (view : Msg).

Record Sys := mkSys {
  y_engine : Engine;
  y_ids : IdempotencyStore;
  y_ring : list TransferEvent;
  y_reads : list (ReadEvent * nat);          (* the three read queues, by type *)
  y_creates : list nat;                      (* accountCreateQueue *)
  y_views : list nat;                        (* snapshotRequests *)
  y_chans : list (option Msg);
  y_pool : list (chan_type * nat);
  y_batches : list batchState;
  y_events : list AccountCreateEvent;
  y_loop : Run_pc;
  y_cancelled : bool;                        (* the ledger's context *)
  y_calls : list (Call_pc * bool) }.         (* with its own context *)

Definition set_engine g y := mkSys g (y_ids y) (y_ring y) (y_reads y) (y_creates y) (y_views y) (y_chans y) (y_pool y) (y_batches y) (y_events y) (y_loop y) (y_cancelled y) (y_calls y).
Definition set_ids' ids y := mkSys (y_engine y) ids (y_ring y) (y_reads y) (y_creates y) (y_views y) (y_chans y) (y_pool y) (y_batches y) (y_events y) (y_loop y) (y_cancelled y) (y_calls y).
Definition set_ring r y := mkSys (y_engine y) (y_ids y) r (y_reads y) (y_creates y) (y_views y) (y_chans y) (y_pool y) (y_batches y) (y_events y) (y_loop y) (y_cancelled y) (y_calls y).
Definition set_reads q y := mkSys (y_engine y) (y_ids y) (y_ring y) q (y_creates y) (y_views y) (y_chans y) (y_pool y) (y_batches y) (y_events y) (y_loop y) (y_cancelled y) (y_calls y).
Definition set_creates q y := mkSys (y_engine y) (y_ids y) (y_ring y) (y_reads y) q (y_views y) (y_chans y) (y_pool y) (y_batches y) (y_events y) (y_loop y) (y_cancelled y) (y_calls y).
Definition set_views q y := mkSys (y_engine y) (y_ids y) (y_ring y) (y_reads y) (y_creates y) q (y_chans y) (y_pool y) (y_batches y) (y_events y) (y_loop y) (y_cancelled y) (y_calls y).
Definition set_chans c y := mkSys (y_engine y) (y_ids y) (y_ring y) (y_reads y) (y_creates y) (y_views y) c (y_pool y) (y_batches y) (y_events y) (y_loop y) (y_cancelled y) (y_calls y).
Definition set_pool p y := mkSys (y_engine y) (y_ids y) (y_ring y) (y_reads y) (y_creates y) (y_views y) (y_chans y) p (y_batches y) (y_events y) (y_loop y) (y_cancelled y) (y_calls y).
Definition set_batches b y := mkSys (y_engine y) (y_ids y) (y_ring y) (y_reads y) (y_creates y) (y_views y) (y_chans y) (y_pool y) b (y_events y) (y_loop y) (y_cancelled y) (y_calls y).
Definition set_events e y := mkSys (y_engine y) (y_ids y) (y_ring y) (y_reads y) (y_creates y) (y_views y) (y_chans y) (y_pool y) (y_batches y) e (y_loop y) (y_cancelled y) (y_calls y).
Definition set_loop pc y := mkSys (y_engine y) (y_ids y) (y_ring y) (y_reads y) (y_creates y) (y_views y) (y_chans y) (y_pool y) (y_batches y) (y_events y) pc (y_cancelled y) (y_calls y).
Definition set_cancelled c y := mkSys (y_engine y) (y_ids y) (y_ring y) (y_reads y) (y_creates y) (y_views y) (y_chans y) (y_pool y) (y_batches y) (y_events y) (y_loop y) c (y_calls y).
Definition set_calls c y := mkSys (y_engine y) (y_ids y) (y_ring y) (y_reads y) (y_creates y) (y_views y) (y_chans y) (y_pool y) (y_batches y) (y_events y) (y_loop y) (y_cancelled y) c.

Definition Sys_init (g : Engine) (ids : IdempotencyStore) : Sys :=
  mkSys g ids [] [] [] [] [] [] [] [] L_top false [].

(** ** Channels *)

(** A send to a result channel waits while it holds a value: [None]. *)
Definition send (ch : nat) (m : Msg) (y : Sys) : option Sys :=
  match y_chans y !! ch with
  | Some None => Some (set_chans (<[ch := Some m]> (y_chans y)) y)
  | _ => None
  end.

(** Acquire: the [k]th channel of the pool, when it is one of the type, or a
    new one. *)
Definition acquire (ty : chan_type) (k : option nat) (y : Sys) : option (nat * Sys) :=
  match k with
  | None => Some (length (y_chans y), set_chans (y_chans y ++ [None]) y)
  | Some k =>
      match y_pool y !! k with
      | Some (ty', ch) => if decide (ty = ty') then Some (ch, set_pool (delete k (y_pool y)) y) else None
      | None => None
      end
  end.
Definition release (ty : chan_type) (ch : nat) (y : Sys) : Sys := set_pool (y_pool y ++ [(ty, ch)]) y.

(** [ev.complete(ack)]. *)
Definition complete (ev : TransferEvent) (ack : TransferAck) (y : Sys) : option Sys :=
  match te_batch ev with
  | Some b => Some (set_batches (alter (batch_complete (te_index ev) ack) b (y_batches y)) y)
  | None => match te_Result ev with Some ch => send ch (MAck ack) y | None => None end
  end.

(** ** The loop *)

(** The branch a select takes, or the only way on. *)
Inductive branch : Type :=
| W_default
| W_done
| W_arrive
| W_read (ty : chan_type)
| W_create
| W_view
| W_go (n : nat) (wall : Z).

Definition read_reply (ev : ReadEvent) (g : Engine) : Msg :=
  match ev with
  | ReadAccount id => let '(a, err) := handleRead id g in MAccount a err
  | ReadTransfer id => MTransfer (handleReadTransfer id g)
  | ReadAccountTransfers accountID afterID limit => MTransfers (handleReadAccountTransfers accountID afterID limit g)
  end.

(** The first entry of a read queue, and the others. *)
Fixpoint take_read (ty : chan_type) (q : list (ReadEvent * nat)) : option ((ReadEvent * nat) * list (ReadEvent * nat)) :=
  match q with
  | [] => None
  | e :: q => if decide (read_type e.1 = ty) then Some (e, q)
              else '(x, q) ← take_read ty q; Some (x, e :: q)
  end.

Definition finish_create (rs : list (option error)) (e : AccountCreateEvent) : AccountCreateEvent :=
  mkCreateEvent (ce_Accounts e) rs true.

(** One control request, as drainControl and waitForWork serve it. *)
Definition serve (w : branch) (y : Sys) : option Sys :=
  match w with
  | W_read ty =>
      '((ev, ch), q) ← take_read ty (y_reads y);
      send ch (read_reply ev (y_engine y)) (set_reads q y)
  | W_view =>
      match y_views y with
      | ch :: q =>
          let '(accounts, pendings, lsn) := snapshot_view (y_engine y) in
          send ch (MView accounts pendings lsn) (set_views q y)
      | [] => None
      end
  | W_create =>
      match y_creates y with
      | c :: q =>
          e ← y_events y !! c;
          let '(g, rs) := processAccountCreate (ce_Accounts e) (y_engine y) in
          Some (set_engine g (set_events (alter (finish_create rs) c (y_events y)) (set_creates q y)))
      | [] => None
      end
  | _ => None
  end.

Definition controlPending (y : Sys) : bool :=
  negb ((length (y_reads y) =? 0)%nat && (length (y_creates y) =? 0)%nat && (length (y_views y) =? 0)%nat).

(** A slot of the ring by the completion of its event: a channel, or a place in a
    batch.  A slot is not ready while its Submit stands between the claim (the
    CompareAndSwap) and the publication (the store of its ready word). *)
Definition slot_id : Type := option nat * option nat * nat.
Definition ev_slot (ev : TransferEvent) : slot_id := (te_Result ev, te_batch ev, te_index ev).
Definition claim (pc : Call_pc) : option slot_id :=
  match pc with
  | T_publish _ ch => Some (Some ch, None, 0%nat)
  | B_publish _ _ b j => Some (None, Some b, j)
  | _ => None
  end.
Definition unready (y : Sys) : list slot_id := omap (fun c => claim c.1) (y_calls y).

(** The events up to the first slot that is not ready. *)
Fixpoint ready_prefix (busy : list slot_id) (ring : list TransferEvent) : list TransferEvent :=
  match ring with
  | [] => []
  | ev :: ring => if decide (ev_slot ev ∈ busy) then [] else ev :: ready_prefix busy ring
  end.

(** Collect: DrainBatch takes ready slots, at least one when the first is, and
    none when the first is claimed and not ready, whatever stands behind it. *)
Definition collect (n : nat) (y : Sys) : list TransferEvent * Sys :=
  let batch := take (Nat.max 1 n) (ready_prefix (unready y) (y_ring y)) in
  (batch, set_ring (drop (length batch) (y_ring y)) y).

Definition Run_step (maxBatch : nat) (w : branch) (y : Sys) : option Sys :=
  match y_loop y, w with
  | L_top, W_default => if y_cancelled y then None else Some (set_loop (L_drain D_idle) y)
  | L_top, W_done => if y_cancelled y then Some (set_loop L_abandon y) else None
  | L_drain k, W_default =>
      if controlPending y then None
      else Some (set_loop (match k with D_idle => L_idle false | D_again => L_idle true
                           | D_batch batch => L_process batch end) y)
  | L_drain _, w => serve w y
  | L_idle again, W_default =>
      Some (set_loop (if (length (y_ring y) =? 0)%nat then if again then L_top else L_wait else L_collect) y)
  | L_wait, W_done => if y_cancelled y then Some (set_loop L_abandon y) else None
  | L_wait, W_arrive => Some (set_loop (L_drain D_again) y)
  | L_wait, w => set_loop (L_drain D_again) <$> serve w y
  | L_collect, W_go n _ =>
      let '(batch, y) := collect (Nat.min n maxBatch) y in
      Some (set_loop (L_drain (D_batch batch)) y)
  | L_process batch, W_go _ wall =>
      if (length batch =? 0)%nat then Some (set_loop L_top y)
      else
        let '(g, acks) := processBatch wall (te_Transfer <$> batch) (y_engine y) in
        Some (set_loop (L_deliver (zip batch acks) false) (set_engine g y))
  | L_deliver ((ev, ack) :: acks) closing, W_default =>
      set_loop (L_deliver acks closing) <$> complete ev ack y
  | L_deliver [] closing, W_default => Some (set_loop (if closing then L_abandon else L_top) y)
  | L_abandon, W_go n _ =>
      let '(batch, y') := collect (Nat.min n maxBatch) y in
      if (length batch =? 0)%nat then Some (set_loop L_abandon_control y)
      else Some (set_loop (L_deliver ((fun ev => (ev, mkAck zeroTransfer (Some ErrLedgerClosed))) <$> batch) true) y')
  | L_abandon_control, W_view =>
      match y_views y with ch :: q => send ch (MView [] [] 0) (set_views q y) | [] => None end
  | L_abandon_control, W_create =>
      match y_creates y with
      | c :: q => Some (set_events (alter (fun e => finish_create ((fun _ => Some ErrLedgerClosed) <$> ce_Results e) e) c (y_events y))
                          (set_creates q y))
      | [] => None
      end
  | L_abandon_control, W_default =>
      if (length (y_views y) =? 0)%nat && (length (y_creates y) =? 0)%nat then Some (set_loop L_closed y) else None
  | _, _ => None
  end.

(** ** Calls *)

Definition read_capacity : nat := 1024.
Definition create_capacity : nat := 256.
Definition view_capacity : nat := 10.

Definition rollback_all (keys : list Key) (ids : IdempotencyStore) : IdempotencyStore :=
  foldl (fun ids k => Rollback k ids) ids keys.

Definition rollback_key (t : Transfer) (ids : IdempotencyStore) : IdempotencyStore :=
  if no_key t then ids else Rollback (t_IdempotencyKey t) ids.

(** The call continues at [pc]. *)
Definition goto (i : nat) (pc : Call_pc) (y : Sys) : Sys :=
  set_calls (alter (fun c => (pc, c.2)) i (y_calls y)) y.

(** What the environment decides at a step of a call: the clock, the pooled
    channel to take, whether the ring refuses, which ready branch a select
    takes. *)
Record call_env := mkCallEnv { v_now : Z; v_pooled : option nat; v_refuse : bool; v_done : bool }.

(** CreateTransfer. *)
Definition CreateTransfer_step (i : nat) (canceled : bool) (v : call_env) (pc : Call_pc) (y : Sys) : option Sys :=
  match pc with
  | T_reserve t =>
      if no_key t then Some (goto i (T_acquire t) y)
      else
        match CheckAndReserve (v_now v) (t_IdempotencyKey t) (y_ids y) with
        | (ids, Err _) =>
            Some (goto i (if canceled then T_return t None else T_reserve t) (set_ids' ids y))
        | (ids, Ok (existing, true)) => Some (goto i (T_return t (Some (Ok existing))) (set_ids' ids y))
        | (ids, Ok (_, false)) => Some (goto i (T_acquire t) (set_ids' ids y))
        end
  | T_acquire t => '(ch, y) ← acquire CAck (v_pooled v) y; Some (goto i (T_submit t ch) y)
  | T_submit t ch =>
      if v_refuse v then
        Some (goto i (T_return t (Some (Err ErrBufferFull))) (release CAck ch (set_ids' (rollback_key t (y_ids y)) y)))
      else Some (goto i (T_publish t ch) (set_ring (y_ring y ++ [mkEvent t (Some ch) None 0]) y))
  | T_publish t ch => Some (goto i (T_wait t ch) y)
  | T_wait t ch =>
      if v_done v then
        if canceled then Some (goto i (T_return t None) (set_ids' (rollback_key t (y_ids y)) y)) else None
      else
        match y_chans y !! ch with
        | Some (Some (MAck ack)) =>
            Some (goto i (T_settle t ack) (release CAck ch (set_chans (<[ch := None]> (y_chans y)) y)))
        | _ => None
        end
  | T_settle t ack =>
      match ack_Err ack with
      | Some err => Some (goto i (T_return t (Some (Err err))) (set_ids' (rollback_key t (y_ids y)) y))
      | None =>
          if no_key t then Some (goto i (T_return t (Some (Ok (ack_Transfer ack)))) y)
          else ids ← Commit (v_now v) (t_IdempotencyKey t) (ack_Transfer ack) (y_ids y);
               Some (goto i (T_return t (Some (Ok (ack_Transfer ack)))) (set_ids' ids y))
      end
  | _ => None
  end.

Definition stopped (stop : option nat) : bool := match stop with Some _ => true | None => false end.

(** CreateTransfers.  When the ledger closes while event [j] waits for the ring,
    the events from [j] on are completed here: [stop] is then that [j]. *)
Definition CreateTransfers_step (i : nat) (canceled : bool) (v : call_env) (pc : Call_pc) (y : Sys) : option Sys :=
  match pc with
  | B_reserve batch (t :: todo) plan seenKeys reserved =>
      let key := t_IdempotencyKey t in
      if no_key t then Some (goto i (B_reserve batch todo (plan ++ [None]) seenKeys reserved) y)
      else if decide (key ∈ seenKeys) then
        Some (goto i (B_reserve batch todo (plan ++ [Some (mkAck zeroTransfer (Some (ErrIdempotencyConflict key)))]) seenKeys reserved) y)
      else
        match CheckAndReserve (v_now v) key (y_ids y) with
        | (ids, Err _) =>
            if canceled then
              Some (goto i (B_return batch ((default zeroAck <$> plan) ++ replicate (S (length todo)) zeroAck) true)
                      (set_ids' (rollback_all reserved ids) y))
            else Some (goto i (B_reserve batch (t :: todo) plan seenKeys reserved) (set_ids' ids y))
        | (ids, Ok (existing, true)) =>
            Some (goto i (B_reserve batch todo (plan ++ [Some (mkAck existing None)]) seenKeys reserved) (set_ids' ids y))
        | (ids, Ok (_, false)) =>
            Some (goto i (B_reserve batch todo (plan ++ [None]) ({[key]} ∪ seenKeys) (reserved ++ [key])) (set_ids' ids y))
        end
  | B_reserve batch [] plan _ _ =>
      match queued batch plan with
      | [] => Some (goto i (B_return batch (materialize plan []) false) y)
      | events =>
          Some (goto i (B_submit batch plan (length (y_batches y)) 0)
                  (set_batches (y_batches y ++ [newBatchState (length events)]) y))
      end
  | B_submit batch plan b j =>
      match queued batch plan !! j with
      | None => Some (goto i (B_wait batch plan b None) y)
      | Some t =>
          if v_refuse v then
            if y_cancelled y then Some (goto i (B_tail batch plan b j j) y) else Some y
          else Some (goto i (B_publish batch plan b j) (set_ring (y_ring y ++ [mkEvent t None (Some b) j]) y))
      end
  | B_publish batch plan b j => Some (goto i (B_submit batch plan b (S j)) y)
  | B_tail batch plan b j k =>
      match queued batch plan !! k with
      | None => Some (goto i (B_wait batch plan b (Some j)) y)
      | Some t =>
          let y := set_batches (alter (batch_complete k (mkAck zeroTransfer (Some ErrLedgerClosed))) b (y_batches y)) y in
          Some (goto i (B_tail batch plan b j (S k)) (set_ids' (rollback_key t (y_ids y)) y))
      end
  | B_wait batch plan b stop =>
      match y_batches y !! b with
      | Some bs => if bs_done bs then Some (goto i (B_settle batch plan b 0 stop) y) else None
      | None => None
      end
  | B_settle batch plan b j stop =>
      bs ← y_batches y !! b;
      match bs_results bs !! j with
      | None => Some (goto i (B_return batch (materialize plan (bs_results bs)) (stopped stop)) y)
      | Some ack =>
          ids ← settle_keys (v_now v) [ack] (y_ids y);
          Some (goto i (B_settle batch plan b (S j) stop) (set_ids' ids y))
      end
  | _ => None
  end.

(** CreateAccounts. *)
Definition CreateAccounts_step (i : nat) (canceled : bool) (v : call_env) (pc : Call_pc) (y : Sys) : option Sys :=
  match pc with
  | A_send accounts =>
      if v_done v then if canceled then Some (goto i (A_return accounts None) y) else None
      else if (length (y_creates y) <? create_capacity)%nat then
        let c := length (y_events y) in
        Some (goto i (A_wait accounts c) (set_creates (y_creates y ++ [c])
                (set_events (y_events y ++ [mkCreateEvent accounts (replicate (length accounts) None) false]) y)))
      else None
  | A_wait accounts c =>
      if v_done v then if y_cancelled y then Some (goto i (A_return accounts (Some (Err ErrLedgerClosed))) y) else None
      else
        e ← y_events y !! c;
        if ce_Done e then Some (goto i (A_return accounts (Some (Ok (zip accounts (ce_Results e))))) y) else None
  | _ => None
  end.

(** GetAccount, GetTransfer and GetAccountTransfers. *)
Definition read_step (i : nat) (canceled : bool) (v : call_env) (pc : Call_pc) (y : Sys) : option Sys :=
  match pc with
  | R_acquire ev => '(ch, y) ← acquire (read_type ev) (v_pooled v) y; Some (goto i (R_send ev ch) y)
  | R_send ev ch =>
      if v_done v then
        if canceled then Some (goto i (R_return ev None) (release (read_type ev) ch y)) else None
      else if (length (filter (fun e => read_type e.1 = read_type ev) (y_reads y)) <? read_capacity)%nat then
        Some (goto i (R_wait ev ch) (set_reads (y_reads y ++ [(ev, ch)]) y))
      else None
  | R_wait ev ch =>
      if v_done v then if canceled then Some (goto i (R_return ev None) y) else None
      else
        match y_chans y !! ch with
        | Some (Some m) =>
            Some (goto i (R_return ev (Some m)) (release (read_type ev) ch (set_chans (<[ch := None]> (y_chans y)) y)))
        | _ => None
        end
  | _ => None
  end.

Definition RequestSnapshotView_step (i : nat) (v : call_env) (pc : Call_pc) (y : Sys) : option Sys :=
  match pc with
  | V_send =>
      if v_done v then
        match y_loop y with L_closed => Some (goto i (V_return (MView [] [] 0)) y) | _ => None end
      else if (length (y_views y) <? view_capacity)%nat then
        let ch := length (y_chans y) in
        Some (goto i (V_wait ch) (set_views (y_views y ++ [ch]) (set_chans (y_chans y ++ [None]) y)))
      else None
  | V_wait ch =>
      if v_done v then
        match y_loop y with L_closed => Some (goto i (V_return (MView [] [] 0)) y) | _ => None end
      else
        match y_chans y !! ch with
        | Some (Some m) => Some (goto i (V_return m) (set_chans (<[ch := None]> (y_chans y)) y))
        | _ => None
        end
  | _ => None
  end.

Definition control_step (i : nat) (canceled : bool) (v : call_env) (pc : Call_pc) (y : Sys) : option Sys :=
  match pc with
  | A_send _ | A_wait _ _ => CreateAccounts_step i canceled v pc y
  | R_acquire _ | R_send _ _ | R_wait _ _ => read_step i canceled v pc y
  | V_send | V_wait _ => RequestSnapshotView_step i v pc y
  | _ => None
  end.

Definition call_step (i : nat) (v : call_env) (y : Sys) : option Sys :=
  match y_calls y !! i with
  | Some (pc, canceled) =>
      match CreateTransfer_step i canceled v pc y with
      | Some y' => Some y'
      | None => match CreateTransfers_step i canceled v pc y with
                | Some y' => Some y'
                | None => control_step i canceled v pc y
                end
      end
  | None => None
  end.

(** ** Schedules *)

Inductive request : Type :=
| NewTransfer (t : Transfer)
| NewTransfers (batch : list Transfer)
| NewAccounts (accounts : list Account)
| NewRead (ev : ReadEvent)
| NewView.

Definition first_pc (r : request) : Call_pc :=
  match r with
  | NewTransfer t => T_reserve t
  | NewTransfers batch => B_reserve batch batch [] ∅ []
  | NewAccounts accounts => A_send accounts
  | NewRead ev => R_acquire ev
  | NewView => V_send
  end.

Inductive act : Type :=
| Begin (r : request)
| Cancel (i : nat)                 (* a request's context ends *)
| Step (i : nat) (v : call_env)
| Loop (w : branch)
| Close.                           (* l.cancel() *)

Definition sys_act (maxBatch : nat) (a : act) (y : Sys) : option Sys :=
  match a with
  | Begin r => Some (set_calls (y_calls y ++ [(first_pc r, false)]) y)
  | Cancel i => Some (set_calls (alter (fun c => (c.1, true)) i (y_calls y)) y)
  | Step i v => call_step i v y
  | Loop w => Run_step maxBatch w y
  | Close => Some (set_cancelled true y)
  end.

(** What a step shows: an event that enters the ring, a batch with its
    acknowledgements, the events an exiting loop gives up, a read with its
    reply, an account request with its results. *)
Inductive obs : Type :=
| O_submit (ev : TransferEvent)
| O_batch (wall : Z) (evs : list TransferEvent) (acks : list TransferAck)
| O_abandon (evs : list TransferEvent)
| O_reply (ev : ReadEvent) (m : Msg)
| O_create (accounts : list Account) (rs : list (option error)).

Definition serve_shows (w : branch) (y : Sys) : list obs :=
  match w with
  | W_read ty => match take_read ty (y_reads y) with
                 | Some ((ev, _), _) => [O_reply ev (read_reply ev (y_engine y))]
                 | None => []
                 end
  | W_create => match y_creates y with
                | c :: _ => match y_events y !! c with
                            | Some e => [O_create (ce_Accounts e) (processAccountCreate (ce_Accounts e) (y_engine y)).2]
                            | None => []
                            end
                | [] => []
                end
  | _ => []
  end.

Definition shows (maxBatch : nat) (a : act) (y : Sys) : list obs :=
  match a with
  | Step i v =>
      match y_calls y !! i with
      | Some (T_submit t ch, _) => if v_refuse v then [] else [O_submit (mkEvent t (Some ch) None 0)]
      | Some (B_submit batch plan b j, _) =>
          match queued batch plan !! j with
          | Some t => if v_refuse v then [] else [O_submit (mkEvent t None (Some b) j)]
          | None => []
          end
      | _ => []
      end
  | Loop w =>
      match y_loop y, w with
      | L_process batch, W_go _ wall =>
          if (length batch =? 0)%nat then []
          else [O_batch wall batch (processBatch wall (te_Transfer <$> batch) (y_engine y)).2]
      | L_abandon, W_go n _ =>
          let batch := (collect (Nat.min n maxBatch) y).1 in
          if (length batch =? 0)%nat then [] else [O_abandon batch]
      | L_drain _, w | L_wait, w => serve_shows w y
      | _, _ => []
      end
  | _ => []
  end.

(** A schedule whose steps are all possible, with what it shows. *)
Fixpoint sys_acts (maxBatch : nat) (acts : list act) (y : Sys) : option (Sys * list obs) :=
  match acts with
  | [] => Some (y, [])
  | a :: acts =>
      y' ← sys_act maxBatch a y;
      '(y'', tr) ← sys_acts maxBatch acts y';
      Some (y'', shows maxBatch a y ++ tr)
  end.
