(* ===== verification/LoopChannels.v ===== *)
(** * Result channels are never mixed up (engine/event.go, ledger.go)

    The channels of finished calls are handed to new ones.  The invariant: a
    channel is in one pool, or held by one call, or neither when its call gave
    up; at most one event or request names it; and it is empty until that one is
    answered.  So no call receives another call's answer, and no send of the loop
    waits. *)

From S2P Require Import Prelude Core Idempotency Engine Ring Requests Loop.

(** ** Where a channel is *)

Definition loop_events (pc : Run_pc) : list TransferEvent :=
  match pc with
  | L_drain (D_batch batch) | L_process batch => batch
  | L_deliver acks _ => acks.*1
  | _ => []
  end.

(** The events between Submit and their acknowledgement, the oldest first. *)
Definition flying (y : Sys) : list TransferEvent := loop_events (y_loop y) ++ y_ring y.

Definition ev_chans (ev : TransferEvent) : list nat := match te_Result ev with Some ch => [ch] | None => [] end.

Abbreviation Reads := (list (ReadEvent * nat)).

(** The channels that an event or a request still names. *)
Definition in_flight (fly : list TransferEvent) (reads : Reads) (views : list nat) : list nat :=
  (fly ≫= ev_chans) ++ reads.*2 ++ views.

Definition held (pc : Call_pc) : list nat :=
  match pc with T_submit _ ch | T_publish _ ch | T_wait _ ch | R_send _ ch | R_wait _ ch | V_wait ch => [ch] | _ => [] end.
Definition helds (calls : list (Call_pc * bool)) : list nat := calls ≫= (fun c => held c.1).

Definition closed_ack : TransferAck := mkAck zeroTransfer (Some ErrLedgerClosed).

(** The acknowledgements and the replies a schedule gave. *)
Definition acked_by (o : obs) : list (TransferEvent * TransferAck) :=
  match o with
  | O_batch _ evs acks => zip evs acks
  | O_abandon evs => (fun ev => (ev, closed_ack)) <$> evs
  | _ => []
  end.
Definition acked (tr : list obs) : list (TransferEvent * TransferAck) := tr ≫= acked_by.
Definition replied_by (o : obs) : list (ReadEvent * Msg) := match o with O_reply ev m => [(ev, m)] | _ => [] end.
Definition replied (tr : list obs) : list (ReadEvent * Msg) := tr ≫= replied_by.

(** What a call may rely on about its channel, and where its answer is from. *)
Definition call_ok (chans : list (option Msg)) (fly : list TransferEvent) (reads : Reads) (views : list nat)
    (tr : list obs) (pc : Call_pc) : Prop :=
  match pc with
  | T_submit _ ch | R_send _ ch => chans !! ch = Some None /\ ch ∉ in_flight fly reads views
  | T_publish t ch | T_wait t ch => mkEvent t (Some ch) None 0 ∈ fly
      \/ (ch ∉ in_flight fly reads views)
         /\ exists a, chans !! ch = Some (Some (MAck a)) /\ (mkEvent t (Some ch) None 0, a) ∈ acked tr
  | T_settle t a => exists ch, (mkEvent t (Some ch) None 0, a) ∈ acked tr
  | R_wait ev ch => (ev, ch) ∈ reads
      \/ (ch ∉ in_flight fly reads views) /\ exists m, chans !! ch = Some (Some m) /\ (ev, m) ∈ replied tr
  | R_return ev (Some m) => (ev, m) ∈ replied tr
  | V_wait ch => ch ∈ views \/ (ch ∉ in_flight fly reads views) /\ exists m, chans !! ch = Some (Some m)
  | _ => True
  end.

Record chans_ok (chans : list (option Msg)) (pool : list (chan_type * nat)) (fly : list TransferEvent)
    (reads : Reads) (views : list nat) (calls : list (Call_pc * bool)) (tr : list obs) : Prop := {
  co_owned : NoDup (pool.*2 ++ helds calls);
  co_named : NoDup (in_flight fly reads views);
  co_pool : forall ch, ch ∈ pool.*2 -> chans !! ch = Some None /\ ch ∉ in_flight fly reads views;
  co_empty : forall ch, ch ∈ in_flight fly reads views -> chans !! ch = Some None;
  co_call : forall i pc b, calls !! i = Some (pc, b) -> call_ok chans fly reads views tr pc }.

(** ** Generic lemmas *)

(** The events collected and those left are the ring. *)
Lemma ready_prefix_of busy ring : ready_prefix busy ring `prefix_of` ring.
Proof.
  induction ring as [|ev ring IH]; [done|]. cbn [ready_prefix]. destruct (decide _); [apply prefix_nil|by apply prefix_cons].
Qed.
Lemma collect_ring n y : y_ring y = (collect n y).1 ++ drop (length (collect n y).1) (y_ring y).
Proof.
  cbn [collect fst]. set (b := take _ _). assert (H : b `prefix_of` y_ring y).
  { etrans; [|apply ready_prefix_of]. apply prefix_take. }
  destruct H as [l El]. rewrite El. by rewrite drop_app_length.
Qed.

(** The branches of a step function. *)
Ltac call_case H :=
  repeat match type of H with
         | Some _ = Some _ => injection H as <-
         | None = Some _ => discriminate H
         | context [match ?x with _ => _ end] => destruct x eqn:?
         end.

Lemma acked_app tr o : acked (tr ++ o) = acked tr ++ acked o.
Proof. apply bind_app. Qed.
Lemma replied_app tr o : replied (tr ++ o) = replied tr ++ replied o.
Proof. apply bind_app. Qed.

Lemma in_flight_app fly fly' reads views :
  in_flight (fly ++ fly') reads views = (fly ≫= ev_chans) ++ in_flight fly' reads views.
Proof. unfold in_flight. by rewrite bind_app, <- app_assoc. Qed.

Lemma elem_of_ev_chans ch fly : ch ∈ fly ≫= ev_chans <-> exists ev, ev ∈ fly /\ te_Result ev = Some ch.
Proof.
  rewrite list_elem_of_bind. split; intros (ev & H1 & H2); exists ev.
  - split; [done|]. unfold ev_chans in H1. destruct (te_Result ev); [|by apply not_elem_of_nil in H1].
    apply list_elem_of_singleton in H1. by subst.
  - split; [|done]. unfold ev_chans. rewrite H2. by left.
Qed.

Lemma elem_of_in_flight ch fly reads views : ch ∈ in_flight fly reads views <->
  (exists ev, ev ∈ fly /\ te_Result ev = Some ch) \/ ch ∈ reads.*2 \/ ch ∈ views.
Proof. unfold in_flight. by rewrite !elem_of_app, elem_of_ev_chans. Qed.

(** One call moves; the others hold what they held. *)
Lemma helds_split calls i pc b : calls !! i = Some (pc, b) -> exists rest,
  helds calls ≡ₚ held pc ++ rest
  /\ (forall pc', helds (alter (fun c : Call_pc * bool => (pc', c.2)) i calls) ≡ₚ held pc' ++ rest)
  /\ (forall j pc2 b2, j <> i -> calls !! j = Some (pc2, b2) -> forall ch, ch ∈ held pc2 -> ch ∈ rest).
Proof.
  intros H. apply list_elem_of_split_length in H as (l1 & l2 & -> & ->). exists (helds l1 ++ helds l2).
  assert (E : forall x : Call_pc * bool, helds (l1 ++ x :: l2) ≡ₚ held x.1 ++ helds l1 ++ helds l2).
  { intros x. unfold helds. rewrite bind_app, bind_cons. by rewrite Permutation_app_swap_app. }
  split; [apply (E (pc, b))|]. split.
  - intros pc'. rewrite alter_app_r_alt, Nat.sub_diag by lia. apply (E (pc', b)).
  - intros j pc2 b2 Hj Hl ch Hch. apply elem_of_app. unfold helds.
    destruct (decide (j < length l1)%nat) as [Hlt|Hge].
    + left. rewrite lookup_app_l in Hl by done. apply list_elem_of_lookup_2 in Hl. apply list_elem_of_bind.
      by exists (pc2, b2).
    + right. rewrite lookup_app_r in Hl by lia. destruct (j - length l1)%nat as [|k] eqn:Ek; [lia|]. cbn in Hl.
      apply list_elem_of_lookup_2 in Hl. apply list_elem_of_bind.
      by exists (pc2, b2).
Qed.

Lemma calls_alter (calls : list (Call_pc * bool)) i pc' j pc2 b2 :
  alter (fun c : Call_pc * bool => (pc', c.2)) i calls !! j = Some (pc2, b2) ->
  j = i /\ pc2 = pc' \/ j <> i /\ calls !! j = Some (pc2, b2).
Proof.
  destruct (decide (i = j)) as [<-|Hne].
  - rewrite list_lookup_alter_eq. intros ([pc b] & _ & [= -> _])%fmap_Some. by left.
  - rewrite list_lookup_alter_ne by done. by right.
Qed.

(** A context that ends changes no program counter. *)
Lemma cancel_lookup i (calls : list (Call_pc * bool)) j pc b :
  alter (fun c : Call_pc * bool => (c.1, true)) i calls !! j = Some (pc, b) -> exists b', calls !! j = Some (pc, b').
Proof.
  destruct (decide (i = j)) as [<-|Hne].
  - rewrite list_lookup_alter_eq. intros ([pc' b'] & Hl & [= -> _])%fmap_Some. eauto.
  - rewrite list_lookup_alter_ne by done. eauto.
Qed.
Lemma cancel_lookup_inv i (calls : list (Call_pc * bool)) j pc b : calls !! j = Some (pc, b) ->
  exists b', alter (fun c : Call_pc * bool => (c.1, true)) i calls !! j = Some (pc, b').
Proof.
  intros Hj. destruct (decide (i = j)) as [<-|Hne].
  - rewrite list_lookup_alter_eq, Hj. by eexists.
  - rewrite list_lookup_alter_ne by done. eauto.
Qed.
(** A call keeps what it relies on when its channel is left alone. *)
Lemma call_ok_frame chans fly reads views tr chans' fly' reads' views' o pc : call_ok chans fly reads views tr pc ->
  (forall ch, ch ∈ held pc -> chans' !! ch = chans !! ch
    /\ (ch ∈ in_flight fly' reads' views' -> ch ∈ in_flight fly reads views)) ->
  (forall ev ch, ch ∈ held pc -> te_Result ev = Some ch -> ev ∈ fly -> ev ∈ fly') ->
  (forall ev ch, ch ∈ held pc -> (ev, ch) ∈ reads -> (ev, ch) ∈ reads') ->
  (forall ch, ch ∈ held pc -> ch ∈ views -> ch ∈ views') ->
  call_ok chans' fly' reads' views' (tr ++ o) pc.
Proof.
  intros H Hc Hf Hr Hv.
  assert (Ha : forall x, x ∈ acked tr -> x ∈ acked (tr ++ o)) by (intros x Hx; rewrite acked_app, elem_of_app; by left).
  assert (Hp : forall x, x ∈ replied tr -> x ∈ replied (tr ++ o)) by (intros x Hx; rewrite replied_app, elem_of_app; by left).
  destruct pc; cbn [call_ok held] in *; try done; try (destruct (Hc _ ltac:(by left)) as [Ec En]).
  - rewrite Ec. destruct H as [? H]. split; [done|tauto].
  - destruct H as [H|(Hn & a & Ea & Hin)]; [left; apply (Hf _ ch); [by left|done|done]|]. right. rewrite Ec. split; [tauto|]. naive_solver.
  - destruct H as [H|(Hn & a & Ea & Hin)]; [left; apply (Hf _ ch); [by left|done|done]|]. right. rewrite Ec. split; [tauto|]. naive_solver.
  - destruct H as [c ?]; eauto.
  - rewrite Ec. destruct H as [? H]. split; [done|tauto].
  - destruct H as [H|(Hn & m & Ea & Hin)]; [left; apply Hr; [by left|done]|]. right. rewrite Ec. split; [tauto|]. naive_solver.
  - destruct r; auto.
  - destruct H as [H|(Hn & m & Ea)]; [left; apply Hv; [by left|done]|]. right. rewrite Ec. split; [tauto|]. naive_solver.
Qed.

(** ** Steps *)

(** A step that touches only the channels [D]. *)
Lemma chans_step (D : list nat) chans pool fly reads views calls tr chans' pool' fly' reads' views' calls' o :
  chans_ok chans pool fly reads views calls tr ->
  NoDup (pool'.*2 ++ helds calls') -> NoDup (in_flight fly' reads' views') ->
  (forall ch, ch ∉ D -> chans' !! ch = chans !! ch) ->
  (forall ch, ch ∉ D -> ch ∈ in_flight fly' reads' views' -> ch ∈ in_flight fly reads views) ->
  (forall ev ch, ch ∉ D -> te_Result ev = Some ch -> ev ∈ fly -> ev ∈ fly') ->
  (forall ev ch, ch ∉ D -> (ev, ch) ∈ reads -> (ev, ch) ∈ reads') ->
  (forall ch, ch ∉ D -> ch ∈ views -> ch ∈ views') ->
  (forall ch, ch ∈ pool'.*2 -> (ch ∈ pool.*2 /\ ch ∉ D) \/ (chans' !! ch = Some None /\ ch ∉ in_flight fly' reads' views')) ->
  (forall ch, ch ∈ D -> ch ∈ in_flight fly' reads' views' -> chans' !! ch = Some None) ->
  (forall i pc b, calls' !! i = Some (pc, b) ->
     (exists j b', calls !! j = Some (pc, b') /\ forall ch, ch ∈ held pc -> ch ∉ D)
     \/ call_ok chans' fly' reads' views' (tr ++ o) pc) ->
  chans_ok chans' pool' fly' reads' views' calls' (tr ++ o).
Proof.
  intros [Ho Hn Hp He Hc] Ho' Hn' Hch Hfl Hf Hr Hv Hp' HD Hcalls. constructor; try done.
  - intros ch Hin. destruct (Hp' ch Hin) as [[Hin1 Hd]|]; [|done]. destruct (Hp ch Hin1) as [E1 E2].
    rewrite Hch by done. split; [done|]. intros Hx. by apply E2, Hfl.
  - intros ch Hin. destruct (decide (ch ∈ D)) as [Hd|Hd]; [by apply HD|]. rewrite Hch by done. by apply He, Hfl.
  - intros i pc b E. destruct (Hcalls i pc b E) as [(j & b' & Ej & Hd)|]; [|done].
    eapply call_ok_frame; [by eapply Hc|..].
    + intros ch Hh. specialize (Hd ch Hh). split; [by apply Hch|by apply Hfl].
    + intros ev ch Hh. by apply Hf, Hd.
    + intros ev ch Hh. by apply Hr, Hd.
    + intros ch Hh. by apply Hv, Hd.
Qed.

Section Moves.
Context (chans : list (option Msg)) (pool : list (chan_type * nat)) (fly : list TransferEvent).
Context (reads : Reads) (views : list nat) (calls : list (Call_pc * bool)) (tr : list obs).
Context (Hok : chans_ok chans pool fly reads views calls tr).

Lemma owned_bound ch : ch ∈ pool.*2 ++ helds calls -> (ch < length chans)%nat.
Proof using Hok.
  destruct Hok as [_ _ Hp He Hc]. rewrite elem_of_app. intros [H|H].
  - destruct (Hp ch H) as [E _]. by apply lookup_lt_Some in E.
  - unfold helds in H. apply list_elem_of_bind in H as ([pc b] & Hh & Hin). cbn in Hh.
    apply list_elem_of_lookup_1 in Hin as [i Hi]. specialize (Hc i pc b Hi).
    assert (Hx : ch ∈ in_flight fly reads views -> (ch < length chans)%nat).
    { intros Hx. specialize (He ch Hx). by apply lookup_lt_Some in He. }
    destruct pc; cbn in Hh, Hc; try (by apply not_elem_of_nil in Hh); apply list_elem_of_singleton in Hh; subst ch0.
    + destruct Hc as [E _]. by apply lookup_lt_Some in E.
    + destruct Hc as [H|(_ & a & E & _)]; [|by apply lookup_lt_Some in E]. apply Hx, elem_of_in_flight. left. eauto.
    + destruct Hc as [H|(_ & a & E & _)]; [|by apply lookup_lt_Some in E]. apply Hx, elem_of_in_flight. left. eauto.
    + destruct Hc as [E _]. by apply lookup_lt_Some in E.
    + destruct Hc as [H|(_ & a & E & _)]; [|by apply lookup_lt_Some in E]. apply Hx, elem_of_in_flight. right. left.
      by apply (list_elem_of_fmap_2 snd _ (ev, ch)).
    + destruct Hc as [H|(_ & a & E)]; [|by apply lookup_lt_Some in E]. apply Hx, elem_of_in_flight. by right; right.
Qed.

(** A call moves to [pc'], touching channels that it holds, takes from the pool
    or makes. *)
Lemma call_move (D : list nat) i pc b pc' chans' pool' fly' reads' views' o :
  calls !! i = Some (pc, b) ->
  (forall ch, ch ∈ D -> ch ∈ held pc \/ ch ∈ pool.*2 \/ (length chans <= ch)%nat) ->
  (forall rest, NoDup (pool.*2 ++ held pc ++ rest) -> Forall (fun ch => (ch < length chans)%nat) (pool.*2 ++ held pc ++ rest) ->
     NoDup (pool'.*2 ++ held pc' ++ rest)) ->
  NoDup (in_flight fly' reads' views') ->
  (forall ch, ch ∉ D -> chans' !! ch = chans !! ch) ->
  (forall ch, ch ∉ D -> ch ∈ in_flight fly' reads' views' -> ch ∈ in_flight fly reads views) ->
  (forall ev ch, ch ∉ D -> te_Result ev = Some ch -> ev ∈ fly -> ev ∈ fly') ->
  (forall ev ch, ch ∉ D -> (ev, ch) ∈ reads -> (ev, ch) ∈ reads') ->
  (forall ch, ch ∉ D -> ch ∈ views -> ch ∈ views') ->
  (forall ch, ch ∈ pool'.*2 -> (ch ∈ pool.*2 /\ ch ∉ D) \/ (chans' !! ch = Some None /\ ch ∉ in_flight fly' reads' views')) ->
  (forall ch, ch ∈ D -> ch ∈ in_flight fly' reads' views' -> chans' !! ch = Some None) ->
  call_ok chans' fly' reads' views' (tr ++ o) pc' ->
  chans_ok chans' pool' fly' reads' views' (alter (fun c : Call_pc * bool => (pc', c.2)) i calls) (tr ++ o).
Proof using Hok.
  intros Hi HD Hown Hn Hch Hfl Hf Hr Hv Hp HDf Hpc.
  destruct (helds_split calls i pc b Hi) as (rest & E1 & E2 & E3).
  assert (Hnd : NoDup (pool.*2 ++ held pc ++ rest)) by (rewrite <- E1; apply Hok).
  assert (Hb : Forall (fun ch => (ch < length chans)%nat) (pool.*2 ++ held pc ++ rest)).
  { apply Forall_forall. intros ch Hx. apply owned_bound. by rewrite E1. }
  eapply (chans_step D); try done; [rewrite (E2 pc'); by apply Hown|].
  intros j pc2 b2 Hj. apply calls_alter in Hj as [[-> ->]|[Hne Hj]]; [by right|]. left. exists j, b2. split; [done|].
  intros ch Hh Hd. specialize (E3 j pc2 b2 Hne Hj ch Hh). specialize (HD ch Hd).
  apply NoDup_app in Hnd as (_ & H1 & Hnd). apply NoDup_app in Hnd as (_ & H2 & _).
  destruct HD as [HD|[HD|HD]]; [by eapply H2|apply (H1 _ HD), elem_of_app; by right|].
  rewrite Forall_forall in Hb. specialize (Hb ch ltac:(rewrite !elem_of_app; auto)). lia.
Qed.

(** A step on nothing shared. *)
Lemma call_quiet i pc b pc' o : calls !! i = Some (pc, b) -> held pc' = held pc \/ held pc' = [] ->
  call_ok chans fly reads views (tr ++ o) pc' ->
  chans_ok chans pool fly reads views (alter (fun c : Call_pc * bool => (pc', c.2)) i calls) (tr ++ o).
Proof using Hok.
  intros Hi Hh Hpc. pose proof Hok as [Ho Hn Hp He Hc]. eapply (call_move []); try done.
  - by intros ch ?%not_elem_of_nil.
  - intros rest Hnd _. destruct Hh as [->| ->]; [done|]. eapply sublist_NoDup; [exact Hnd|].
    apply sublist_app; [done|]. by apply sublist_inserts_l.
  - intros ch Hin. left. split; [done|]. apply not_elem_of_nil.
  - by intros ch ?%not_elem_of_nil.
Qed.

Lemma call_new pc : held pc = [] -> call_ok chans fly reads views tr pc ->
  chans_ok chans pool fly reads views (calls ++ [(pc, false)]) tr.
Proof using Hok.
  intros Hh Hpc. destruct Hok as [Ho Hn Hp He Hc]. constructor; try done.
  - unfold helds in *. rewrite bind_app, bind_cons. cbn. by rewrite Hh, !app_nil_r.
  - intros i pc2 b [[_ E]|[-> E]]%lookup_snoc_Some; [by eapply Hc|]. by injection E as <- <-.
Qed.

(** Acquire: a new channel, or one of the pool. *)
Lemma fresh_unnamed : ~ (length chans ∈ in_flight fly reads views).
Proof using Hok. intros H. apply (co_empty _ _ _ _ _ _ _ Hok) in H. apply lookup_lt_Some in H. lia. Qed.

Lemma chans_snoc ch : ch ∉ [length chans] -> (chans ++ [None]) !! ch = chans !! ch.
Proof using Type.
  intros H%not_elem_of_cons. destruct (decide (ch < length chans)%nat) as [Hl|Hl]; [by apply lookup_app_l|].
  rewrite lookup_ge_None_2 by (rewrite length_app; cbn; lia). symmetry. apply lookup_ge_None_2. lia.
Qed.
Lemma chans_last : (chans ++ [None]) !! length chans = Some None.
Proof using Type. by rewrite lookup_app_r, Nat.sub_diag by lia. Qed.

(** A new channel joins what the call holds. *)
Lemma own_fresh pc pc' rest : held pc = [] -> held pc' = [length chans] -> NoDup (pool.*2 ++ held pc ++ rest) ->
  Forall (fun ch => (ch < length chans)%nat) (pool.*2 ++ held pc ++ rest) -> NoDup (pool.*2 ++ held pc' ++ rest).
Proof using Type.
  intros -> -> Hnd Hb. cbn [app] in *. rewrite <- Permutation_middle. apply NoDup_cons. split; [|done].
  intros Hx. rewrite Forall_forall in Hb. specialize (Hb _ Hx). lia.
Qed.

Lemma call_fresh i pc b pc' : calls !! i = Some (pc, b) -> held pc = [] -> held pc' = [length chans] ->
  call_ok (chans ++ [None]) fly reads views tr pc' ->
  chans_ok (chans ++ [None]) pool fly reads views (alter (fun c : Call_pc * bool => (pc', c.2)) i calls) tr.
Proof using Hok.
  intros Hi Hh Hh' Hpc. pose proof Hok as [Ho Hn Hp He Hc]. pose proof fresh_unnamed as Hfr. rewrite <- (app_nil_r tr) in Hpc |- *.
  eapply (call_move [length chans]); try done.
  - intros ch ->%list_elem_of_singleton. by right; right.
  - intros rest. by eapply own_fresh.
  - apply chans_snoc.
  - intros ch Hin. left. split; [done|]. intros ->%list_elem_of_singleton. destruct (Hp _ Hin) as [E _].
    apply lookup_lt_Some in E. lia.
  - by intros ch ->%list_elem_of_singleton Hin.
Qed.

Lemma pool_delete k (ty : chan_type) ch : pool !! k = Some (ty, ch) -> pool.*2 ≡ₚ ch :: (delete k pool).*2.
Proof using Type. intros H. rewrite (delete_Permutation _ _ _ H) at 1. done. Qed.

Lemma call_pooled i pc b pc' k ty ch : calls !! i = Some (pc, b) -> held pc = [] -> held pc' = [ch] ->
  pool !! k = Some (ty, ch) -> call_ok chans fly reads views tr pc' ->
  chans_ok chans (delete k pool) fly reads views (alter (fun c : Call_pc * bool => (pc', c.2)) i calls) tr.
Proof using Hok.
  intros Hi Hh Hh' Hk Hpc. pose proof Hok as [Ho Hn Hp He Hc]. pose proof (pool_delete _ _ _ Hk) as Ek. rewrite <- (app_nil_r tr) in Hpc |- *.
  eapply (call_move [ch]); try done.
  - intros c ->%list_elem_of_singleton. right; left. rewrite Ek. by left.
  - intros rest Hnd _. rewrite Hh, Ek in Hnd. rewrite Hh'. cbn [app] in *. by rewrite <- Permutation_middle.
  - intros c Hin. left. split; [rewrite Ek; by right|]. intros ->%list_elem_of_singleton.
    apply NoDup_app in Ho as (Ho & _). rewrite Ek in Ho. by apply NoDup_cons in Ho as [? _].
  - intros c Hc' Hin. by apply He.
Qed.

(** Release: the call's channel, emptied, goes back. *)
Lemma call_release i pc b pc' ty ch chans' : calls !! i = Some (pc, b) -> held pc = [ch] -> held pc' = [] ->
  (forall c, c <> ch -> chans' !! c = chans !! c) -> chans' !! ch = Some None -> ~ (ch ∈ in_flight fly reads views) ->
  call_ok chans' fly reads views tr pc' ->
  chans_ok chans' (pool ++ [(ty, ch)]) fly reads views (alter (fun c : Call_pc * bool => (pc', c.2)) i calls) tr.
Proof using Hok.
  intros Hi Hh Hh' Hch He' Hnf Hpc. pose proof Hok as [Ho Hn Hp He Hc]. rewrite <- (app_nil_r tr) in Hpc |- *.
  eapply (call_move [ch]); try done.
  - intros c Hc'. left. by rewrite Hh.
  - intros rest Hnd _. rewrite Hh in Hnd. rewrite Hh', fmap_app. cbn [fmap list_fmap app snd] in *. by rewrite <- app_assoc.
  - intros c Hx. apply Hch. intros ->. apply Hx. by left.
  - intros c. rewrite fmap_app, elem_of_app. intros [Hin|Hin%list_elem_of_singleton]; [|subst c; by right].
    destruct (decide (c = ch)) as [->|Hne]; [by right|]. left. split; [done|]. by intros ->%list_elem_of_singleton.
  - by intros c ->%list_elem_of_singleton Hin.
Qed.

(** Submit: the call's channel is named by its event; a batch's event names none. *)
Lemma call_submit i t b ch o : calls !! i = Some (T_submit t ch, b) ->
  chans_ok chans pool (fly ++ [mkEvent t (Some ch) None 0]) reads views
    (alter (fun c : Call_pc * bool => (T_publish t ch, c.2)) i calls) (tr ++ o).
Proof using Hok.
  intros Hi. pose proof Hok as [Ho Hn Hp He Hc]. destruct (Hc _ _ _ Hi) as [E Hnf].
  set (ev := mkEvent t (Some ch) None 0).
  assert (Ef : forall c, c ∈ in_flight (fly ++ [ev]) reads views <-> c = ch \/ c ∈ in_flight fly reads views).
  { intros c. rewrite !elem_of_in_flight. setoid_rewrite elem_of_app. setoid_rewrite list_elem_of_singleton. split.
    - intros [(e & [He1|He1] & Er)|H]; [right; left; eauto|left; subst e; by injection Er|by right; right].
    - intros [->|[(e & He1 & Er)|H]]; [left; exists ev; by split; [right|]|left; eauto|by right]. }
  eapply (call_move [ch]); try done.
  - intros c Hc'. by left.
  - rewrite in_flight_app. unfold in_flight at 1. rewrite bind_cons. cbn [ev_chans te_Result ev app].
    rewrite <- Permutation_middle. apply NoDup_cons. split; [exact Hnf|exact Hn].
  - intros c Hx. rewrite Ef. intros [->|H]; [|done]. by destruct Hx; left.
  - intros e c _ _ He1. apply elem_of_app. by left.
  - intros c Hin. left. split; [done|]. intros ->%list_elem_of_singleton.
    apply NoDup_app in Ho as (_ & Ho & _). apply (Ho ch Hin). unfold helds. apply list_elem_of_bind.
    exists (T_submit t ch, b). split; [by left|by eapply list_elem_of_lookup_2].
  - by intros c ->%list_elem_of_singleton _.
  - left. apply elem_of_app. right. by left.
Qed.

Lemma submit_batch ev o : te_Result ev = None -> chans_ok chans pool (fly ++ [ev]) reads views calls (tr ++ o).
Proof using Hok.
  intros Er. pose proof Hok as [Ho Hn Hp He Hc].
  assert (Ef : in_flight (fly ++ [ev]) reads views = in_flight fly reads views).
  { rewrite in_flight_app. unfold in_flight at 1. rewrite bind_cons. unfold ev_chans at 2. by rewrite Er. }
  apply (chans_step [] chans pool fly reads views calls tr); rewrite ?Ef; try done.
  - intros e c _ _ He1. apply elem_of_app. by left.
  - intros ch Hin. left. split; [done|]. apply not_elem_of_nil.
  - by intros ch ?%not_elem_of_nil.
  - intros i pc b Hi. left. exists i, b. split; [done|]. intros ch _. apply not_elem_of_nil.
Qed.

Lemma call_send_read i ev b ch : calls !! i = Some (R_send ev ch, b) ->
  chans_ok chans pool fly (reads ++ [(ev, ch)]) views (alter (fun c : Call_pc * bool => (R_wait ev ch, c.2)) i calls) tr.
Proof using Hok.
  intros Hi. pose proof Hok as [Ho Hn Hp He Hc]. destruct (Hc _ _ _ Hi) as [E Hnf].
  assert (Ep : in_flight fly (reads ++ [(ev, ch)]) views ≡ₚ ch :: in_flight fly reads views).
  { unfold in_flight. rewrite fmap_app. cbn. rewrite <- app_assoc, !Permutation_middle. done. }
  rewrite <- (app_nil_r tr). eapply (call_move [ch]); try done.
  - intros c Hc'. by left.
  - rewrite Ep. apply NoDup_cons. by split.
  - intros c Hx. rewrite Ep. intros [->|H]%elem_of_cons; [|done]. by destruct Hx; left.
  - intros e c _ He1. apply elem_of_app. by left.
  - intros c Hin. left. split; [done|]. intros ->%list_elem_of_singleton.
    apply NoDup_app in Ho as (_ & Ho & _). apply (Ho ch Hin). unfold helds. apply list_elem_of_bind.
    exists (R_send ev ch, b). split; [by left|by eapply list_elem_of_lookup_2].
  - by intros c ->%list_elem_of_singleton _.
  - left. apply elem_of_app. right. by left.
Qed.

Lemma call_send_view i b : calls !! i = Some (V_send, b) ->
  chans_ok (chans ++ [None]) pool fly reads (views ++ [length chans])
    (alter (fun c : Call_pc * bool => (V_wait (length chans), c.2)) i calls) tr.
Proof using Hok.
  intros Hi. pose proof Hok as [Ho Hn Hp He Hc]. pose proof fresh_unnamed as Hfr. set (ch := length chans) in *.
  assert (Ep : in_flight fly reads (views ++ [ch]) ≡ₚ ch :: in_flight fly reads views).
  { unfold in_flight. rewrite <- Permutation_cons_append. by rewrite !Permutation_middle. }
  rewrite <- (app_nil_r tr). eapply (call_move [ch]); try done.
  - intros c ->%list_elem_of_singleton. by right; right.
  - intros rest. by eapply own_fresh.
  - rewrite Ep. apply NoDup_cons. by split.
  - apply chans_snoc.
  - intros c Hx. rewrite Ep. intros [->|H]%elem_of_cons; [|done]. by destruct Hx; left.
  - intros c _ Hv. apply elem_of_app. by left.
  - intros c Hin. left. split; [done|]. intros ->%list_elem_of_singleton. destruct (Hp _ Hin) as [E _].
    apply lookup_lt_Some in E. unfold ch in E. lia.
  - intros c ->%list_elem_of_singleton _. apply chans_last.
  - left. apply elem_of_app. right. by left.
Qed.

(** The reply of a snapshot view: its channel is left to the collector. *)
Lemma call_drop i pc b pc' ch : calls !! i = Some (pc, b) -> held pc = [ch] -> held pc' = [] ->
  ~ (ch ∈ in_flight fly reads views) -> call_ok (<[ch := None]> chans) fly reads views tr pc' ->
  chans_ok (<[ch := None]> chans) pool fly reads views (alter (fun c : Call_pc * bool => (pc', c.2)) i calls) tr.
Proof using Hok.
  intros Hi Hh Hh' Hnf Hpc. pose proof Hok as [Ho Hn Hp He Hc]. rewrite <- (app_nil_r tr) in Hpc |- *.
  eapply (call_move [ch]); try done.
  - intros c Hc'. left. by rewrite Hh.
  - intros rest Hnd _. rewrite Hh'. eapply sublist_NoDup; [exact Hnd|]. apply sublist_app; [done|]. by apply sublist_inserts_l.
  - intros c Hx. apply list_lookup_insert_ne. intros ->. apply Hx. by left.
  - intros c Hin. left. split; [done|]. intros ->%list_elem_of_singleton. apply NoDup_app in Ho as (_ & Ho & _).
    apply (Ho ch Hin). unfold helds. apply list_elem_of_bind. exists (pc, b). cbn [fst]. rewrite Hh. split; [by left|by eapply list_elem_of_lookup_2].
  - by intros c ->%list_elem_of_singleton Hin.
Qed.

(** An answer on a channel: what named it is gone, and its call may receive. *)
Lemma answer ch m fly' reads' views' o :
  in_flight fly reads views ≡ₚ ch :: in_flight fly' reads' views' ->
  (forall e c, c <> ch -> te_Result e = Some c -> e ∈ fly -> e ∈ fly') ->
  (forall e c, c <> ch -> (e, c) ∈ reads -> (e, c) ∈ reads') ->
  (forall c, c <> ch -> c ∈ views -> c ∈ views') ->
  (forall i pc b, calls !! i = Some (pc, b) -> ch ∈ held pc ->
     call_ok (<[ch := Some m]> chans) fly' reads' views' (tr ++ o) pc) ->
  chans_ok (<[ch := Some m]> chans) pool fly' reads' views' calls (tr ++ o).
Proof using Hok.
  intros Ep Hf Hr Hv Hcall. pose proof Hok as [Ho Hn Hp He Hc]. rewrite Ep in Hn. apply NoDup_cons in Hn as [Hn1 Hn2].
  assert (Hin : ch ∈ in_flight fly reads views) by (rewrite Ep; by left).
  assert (Hd : forall c, c ∉ [ch] -> c <> ch) by (intros c Hx ->; apply Hx; by left).
  eapply (chans_step [ch] chans pool fly reads views calls tr); try done; eauto.
  - intros c Hx. apply list_lookup_insert_ne. by apply not_eq_sym, Hd.
  - intros c Hx H. rewrite Ep. by right.
  - intros c Hc'. left. split; [done|]. intros ->%list_elem_of_singleton. by destruct (Hp ch Hc').
  - by intros c ->%list_elem_of_singleton H.
  - intros i pc b Hi. destruct (decide (ch ∈ held pc)) as [Hh|Hh]; [right; by eapply Hcall|].
    left. exists i, b. split; [done|]. by intros c Hc' ->%list_elem_of_singleton.
Qed.

Lemma answer_unnamed ch m fly' reads' views' : in_flight fly reads views ≡ₚ ch :: in_flight fly' reads' views' ->
  ~ (ch ∈ in_flight fly' reads' views') /\ ch ∈ in_flight fly reads views
  /\ <[ch := Some m]> chans !! ch = Some (Some (m : Msg)).
Proof using Hok.
  intros Ep. pose proof Hok as [_ Hn _ He _]. assert (Hin : ch ∈ in_flight fly reads views) by (rewrite Ep; by left).
  rewrite Ep in Hn. apply NoDup_cons in Hn as [Hn _]. split; [done|]. split; [done|].
  apply list_lookup_insert_eq. specialize (He _ Hin). by apply lookup_lt_Some in He.
Qed.

Lemma deliver_ack ev rest ch a : fly = ev :: rest -> te_Result ev = Some ch -> (ev, a) ∈ acked tr ->
  chans_ok (<[ch := Some (MAck a)]> chans) pool rest reads views calls tr.
Proof using Hok.
  intros Ef Er Ha. pose proof Hok as [_ _ _ _ Hc].
  assert (Ep : in_flight fly reads views ≡ₚ ch :: in_flight rest reads views).
  { rewrite Ef. unfold in_flight. rewrite bind_cons. unfold ev_chans at 1. by rewrite Er. }
  destruct (answer_unnamed ch (MAck a) _ _ _ Ep) as (Hn & Hin & El).
  rewrite <- (app_nil_r tr). apply answer; [done|..|done|done|].
  - intros e c Hne Hc' He. rewrite Ef in He. apply elem_of_cons in He as [->|He]; [congruence|done].
  - rewrite app_nil_r. intros i pc b Hi Hh. specialize (Hc _ _ _ Hi). destruct pc; cbn in Hh; try (by apply not_elem_of_nil in Hh);
      apply list_elem_of_singleton in Hh; subst ch0; cbn in Hc |- *; try (by destruct Hc as [_ Hc]).
    + right. split; [done|]. exists a. split; [done|]. destruct Hc as [Hc|[Hc _]]; [|done].
      rewrite Ef in Hc. apply elem_of_cons in Hc as [->|Hc]; [done|]. destruct Hn. apply elem_of_in_flight. left. eauto.
    + right. split; [done|]. exists a. split; [done|]. destruct Hc as [Hc|[Hc _]]; [|done].
      rewrite Ef in Hc. apply elem_of_cons in Hc as [->|Hc]; [done|]. destruct Hn. apply elem_of_in_flight. left. eauto.
    + destruct Hc as [Hc|[Hc _]]; [|done]. destruct Hn. apply elem_of_in_flight. right; left.
      by apply (list_elem_of_fmap_2 snd _ (ev0, ch)).
    + destruct Hc as [Hc|[Hc _]]; [|done]. destruct Hn. apply elem_of_in_flight. by right; right.
Qed.

Lemma deliver_shared ev rest : fly = ev :: rest -> te_Result ev = None ->
  chans_ok chans pool rest reads views calls tr.
Proof using Hok.
  intros Ef Er. pose proof Hok as [Ho Hn Hp He Hc].
  assert (Ei : in_flight fly reads views = in_flight rest reads views).
  { rewrite Ef. unfold in_flight. rewrite bind_cons. unfold ev_chans at 1. by rewrite Er. }
  rewrite Ei in *. constructor; try done. intros i pc b Hi. specialize (Hc _ _ _ Hi).
  destruct pc; cbn in Hc |- *; rewrite ?Ei in *; try done.
  all: destruct Hc as [Hc|Hc]; [|by right]; left; rewrite Ef in Hc; by apply elem_of_cons in Hc as [<-|Hc].
Qed.

Lemma reply_read ev ch q m : reads ≡ₚ (ev, ch) :: q -> chans_ok (<[ch := Some m]> chans) pool fly q views calls (tr ++ [O_reply ev m]).
Proof using Hok.
  intros Er. pose proof Hok as [_ _ _ _ Hc].
  assert (Ep : in_flight fly reads views ≡ₚ ch :: in_flight fly q views).
  { unfold in_flight. rewrite Er. cbn [fmap list_fmap app snd]. symmetry. apply Permutation_middle. }
  destruct (answer_unnamed ch m _ _ _ Ep) as (Hn & Hin & El). apply answer; [done|done|..|done|].
  - intros e c Hne He. rewrite Er in He. apply elem_of_cons in He as [[= -> ->]|He]; done.
  - intros i pc b Hi Hh. specialize (Hc _ _ _ Hi). destruct pc; cbn in Hh; try (by apply not_elem_of_nil in Hh);
      apply list_elem_of_singleton in Hh; subst ch0; cbn in Hc |- *; try (by destruct Hc as [_ Hc]).
    + destruct Hc as [Hc|[Hc _]]; [|done]. destruct Hn. apply elem_of_in_flight. left. eauto.
    + destruct Hc as [Hc|[Hc _]]; [|done]. destruct Hn. apply elem_of_in_flight. left. eauto.
    + right. split; [done|]. exists m. split; [done|]. destruct Hc as [Hc|[Hc _]]; [|done].
      rewrite Er in Hc. apply elem_of_cons in Hc as [[= ->]|Hc].
      * rewrite replied_app. apply elem_of_app. right. by left.
      * destruct Hn. apply elem_of_in_flight. right; left. by apply (list_elem_of_fmap_2 snd _ (ev0, ch)).
    + destruct Hc as [Hc|[Hc _]]; [|done]. destruct Hn. apply elem_of_in_flight. by right; right.
Qed.

Lemma reply_view ch q m : views = ch :: q -> chans_ok (<[ch := Some m]> chans) pool fly reads q calls tr.
Proof using Hok.
  intros Ev. pose proof Hok as [_ _ _ _ Hc].
  assert (Ep : in_flight fly reads views ≡ₚ ch :: in_flight fly reads q).
  { unfold in_flight. rewrite Ev. by rewrite !Permutation_middle. }
  destruct (answer_unnamed ch m _ _ _ Ep) as (Hn & Hin & El). rewrite <- (app_nil_r tr). apply answer; [done|done|done|..].
  - intros c Hne He. rewrite Ev in He. apply elem_of_cons in He as [->|He]; done.
  - rewrite app_nil_r. intros i pc b Hi Hh. specialize (Hc _ _ _ Hi). destruct pc; cbn in Hh; try (by apply not_elem_of_nil in Hh);
      apply list_elem_of_singleton in Hh; subst ch0; cbn in Hc |- *; try (by destruct Hc as [_ Hc]).
    + destruct Hc as [Hc|[Hc _]]; [|done]. destruct Hn. apply elem_of_in_flight. left. eauto.
    + destruct Hc as [Hc|[Hc _]]; [|done]. destruct Hn. apply elem_of_in_flight. left. eauto.
    + destruct Hc as [Hc|[Hc _]]; [|done]. destruct Hn. apply elem_of_in_flight. right; left.
      by apply (list_elem_of_fmap_2 snd _ (ev, ch)).
    + right. split; [done|]. eauto.
Qed.
End Moves.
