(* ===== verification/LoopBatches.v ===== *)
(** * The shared completion of a batch (engine/event.go, ledger.go)

    A batch of transfers has one result slice, one counter and one channel that
    is closed at the end, whatever engine batches its events land in.  The
    invariant: the counter is the number of events not yet submitted or still
    flying, and every other event's result is the acknowledgement it got. *)

From S2P Require Import Prelude Core Idempotency Engine Ring Requests RequestsProps Loop LoopChannels.

(** The batch state a call owns, its events, and how many are submitted or
    completed by the call. *)
Definition batch_view (pc : Call_pc) : option (nat * list Transfer * nat) :=
  match pc with
  | B_submit batch plan b j => Some (b, queued batch plan, j)
  | B_publish batch plan b j => Some (b, queued batch plan, S j)
  | B_tail batch plan b _ k => Some (b, queued batch plan, k)
  | B_wait batch plan b _ => Some (b, queued batch plan, length (queued batch plan))
  | B_settle batch plan b _ _ => Some (b, queued batch plan, length (queued batch plan))
  | _ => None
  end.
(** The first event that was not submitted because the ledger closed. *)
Definition closing (pc : Call_pc) : option nat :=
  match pc with B_tail _ _ _ j _ => Some j | B_wait _ _ _ stop | B_settle _ _ _ _ stop => stop | _ => None end.
(** Past the wait for the channel. *)
Definition past_done (pc : Call_pc) : bool := match pc with B_settle _ _ _ _ _ => true | _ => false end.
Definition owned (pc : Call_pc) : list nat := match batch_view pc with Some (b, _, _) => [b] | None => [] end.

Definition batch_event (t : Transfer) (b k : nat) : TransferEvent := mkEvent t None (Some b) k.
Definition flying_of (b : nat) (fly : list TransferEvent) : list TransferEvent := filter (fun ev => te_batch ev = Some b) fly.

(** The index [k] was not submitted. *)
Definition cut (stop : option nat) (k : nat) : bool := match stop with Some j => (j <=? k)%nat | None => false end.

(** The result of an event: its own acknowledgement, or the one the call wrote
    when the ledger closed before the event was queued. *)
Definition result_ok (tr : list obs) (stop : option nat) (t : Transfer) (b k : nat) (a : TransferAck) : Prop :=
  if cut stop k then a = closed_ack else (batch_event t b k, a) ∈ acked tr.

(** What a finished batch returned. *)
Definition returned_ok (tr : list obs) (batch : list Transfer) (outs : list TransferAck) : Prop :=
  exists plan results b, length plan = length batch /\ outs = materialize plan results
    /\ length results = length (queued batch plan)
    /\ forall k t, queued batch plan !! k = Some t -> exists a, results !! k = Some a /\ (batch_event t b k, a) ∈ acked tr.

Definition plan_ok (tr : list obs) (pc : Call_pc) : Prop :=
  match pc with
  | B_reserve batch todo plan _ _ => (length plan + length todo = length batch)%nat
  | B_submit batch plan _ _ | B_publish batch plan _ _ | B_wait batch plan _ _ | B_settle batch plan _ _ _ => length plan = length batch
  | B_tail batch plan _ j k => length plan = length batch /\ (j <= k)%nat
  | B_return batch outs false => returned_ok tr batch outs
  | _ => True
  end.

Definition state_ok (batches : list batchState) (fly : list TransferEvent) (tr : list obs) (stop : option nat) (past : bool)
    (b : nat) (evs : list Transfer) (p : nat) : Prop :=
  exists bs, batches !! b = Some bs /\ length (bs_results bs) = length evs /\ (0 < length evs)%nat /\ (p <= length evs)%nat
    /\ bs_remaining bs = Z.of_nat (length evs - p + length (flying_of b fly))
    /\ bs_done bs = (bs_remaining bs =? 0) /\ (past = true -> bs_remaining bs = 0)
    /\ forall k t, (k < p)%nat -> evs !! k = Some t ->
         batch_event t b k ∈ fly \/ exists a, bs_results bs !! k = Some a /\ result_ok tr stop t b k a.

Definition owner_ok batches fly tr (pc : Call_pc) : Prop :=
  plan_ok tr pc /\ match batch_view pc with
                   | Some (b, evs, p) => state_ok batches fly tr (closing pc) (past_done pc) b evs p
                   | None => True
                   end.

(** An event of a batch is one its call submitted. *)
Definition event_ok (calls : list (Call_pc * bool)) (ev : TransferEvent) : Prop :=
  match te_batch ev with
  | None => te_Result ev <> None
  | Some b => te_Result ev = None /\ exists i pc c evs p, calls !! i = Some (pc, c)
      /\ batch_view pc = Some (b, evs, p) /\ (te_index ev < p)%nat /\ cut (closing pc) (te_index ev) = false /\ evs !! te_index ev = Some (te_Transfer ev)
  end.

Record batches_ok (batches : list batchState) (fly : list TransferEvent) (calls : list (Call_pc * bool)) (tr : list obs) : Prop := {
  bo_owner : forall i pc c, calls !! i = Some (pc, c) -> owner_ok batches fly tr pc;
  bo_unique : forall i j pc pc' c c' b, calls !! i = Some (pc, c) -> calls !! j = Some (pc', c') ->
    b ∈ owned pc -> b ∈ owned pc' -> i = j;
  bo_event : forall ev, ev ∈ fly -> event_ok calls ev }.

Lemma elem_of_owned b pc : b ∈ owned pc <-> exists evs p, batch_view pc = Some (b, evs, p).
Proof.
  unfold owned. destruct (batch_view pc) as [[[b' evs] p]|].
  - rewrite list_elem_of_singleton. split; [intros ->; eauto|]. by intros (? & ? & [= -> _ _]).
  - split; [by intros ?%not_elem_of_nil|]. by intros (? & ? & ?).
Qed.

Lemma result_ok_mono tr o stop t b k a : result_ok tr stop t b k a -> result_ok (tr ++ o) stop t b k a.
Proof. unfold result_ok. destruct (cut stop k); [done|]. intros H. rewrite acked_app. apply elem_of_app. by left. Qed.
Lemma plan_ok_mono tr o pc : plan_ok tr pc -> plan_ok (tr ++ o) pc.
Proof.
  destruct pc; cbn; try done. destruct canceled; [done|]. intros (plan & rs & b & H1 & H2 & H3 & H).
  exists plan, rs, b. split_and!; try done. intros k t Hk. destruct (H k t Hk) as (a & Ha & Hin). exists a. split; [done|].
  rewrite acked_app. apply elem_of_app. by left.
Qed.

(** Another batch's state and flying events do not matter. *)
Lemma state_ok_frame batches fly tr stop past b evs p batches' fly' o : state_ok batches fly tr stop past b evs p ->
  batches' !! b = batches !! b -> flying_of b fly' = flying_of b fly -> state_ok batches' fly' (tr ++ o) stop past b evs p.
Proof.
  intros (bs & Eb & Hl & H0 & Hp & Hr & Hd & Hpd & Hk) E1 E2. exists bs. rewrite E1, E2. split_and!; try done.
  intros k t Hlt Et. destruct (Hk k t Hlt Et) as [Hin|(a & Ea & Ha)].
  - left. assert (Hf : batch_event t b k ∈ flying_of b fly) by (by apply list_elem_of_filter).
    rewrite <- E2 in Hf. by apply list_elem_of_filter in Hf as [_ ?].
  - right. exists a. split; [done|]. by apply result_ok_mono.
Qed.

Section Steps.
Context (batches : list batchState) (fly : list TransferEvent) (calls : list (Call_pc * bool)) (tr : list obs).
Context (Hok : batches_ok batches fly calls tr).

Lemma owned_lt i pc c b : calls !! i = Some (pc, c) -> b ∈ owned pc -> (b < length batches)%nat.
Proof using Hok.
  intros Hi (evs & p & Ev)%elem_of_owned. destruct (bo_owner _ _ _ _ Hok _ _ _ Hi) as [_ H]. rewrite Ev in H.
  destruct H as (bs & E & _). by apply lookup_lt_Some in E.
Qed.

(** A call moves on, keeping, dropping or taking a fresh batch state; only that
    state and its flying events change. *)
Lemma batch_move i pc c pc' batches' fly' o : calls !! i = Some (pc, c) ->
  (forall b, b ∈ owned pc' -> b ∈ owned pc \/ (length batches <= b)%nat) ->
  (forall b, b ∉ owned pc -> (b < length batches)%nat -> batches' !! b = batches !! b /\ flying_of b fly' = flying_of b fly) ->
  owner_ok batches' fly' (tr ++ o) pc' ->
  (forall ev, ev ∈ fly' -> event_ok (alter (fun c : Call_pc * bool => (pc', c.2)) i calls) ev) ->
  batches_ok batches' fly' (alter (fun c : Call_pc * bool => (pc', c.2)) i calls) (tr ++ o).
Proof using Hok.
  intros Hi Hown Hsame Hpc Hev.
  assert (Hother : forall j pc2 c2 b, j <> i -> calls !! j = Some (pc2, c2) -> b ∈ owned pc2 -> b ∉ owned pc').
  { intros j pc2 c2 b Hne Hj Hb Hb'. destruct (Hown b Hb') as [H|H].
    - apply Hne. by eapply bo_unique.
    - pose proof (owned_lt _ _ _ _ Hj Hb). lia. }
  constructor; [| |done].
  - intros j pc2 c2 Hj. apply calls_alter in Hj as [[-> ->]|[Hne Hj]]; [done|].
    destruct (bo_owner _ _ _ _ Hok _ _ _ Hj) as [Hp H]. split; [by apply plan_ok_mono|].
    destruct (batch_view pc2) as [[[b evs] p]|] eqn:Ev; [|done].
    assert (Hb : b ∈ owned pc2) by (apply elem_of_owned; eauto).
    destruct (Hsame b) as [E1 E2]; [|by eapply owned_lt|by eapply state_ok_frame].
    intros Hb'. apply Hne. by eapply bo_unique.
  - intros j k pc2 pc3 c2 c3 b Hj Hk Hb Hb'. apply calls_alter in Hj as [[-> ->]|[Hne Hj]]; apply calls_alter in Hk as [[-> ->]|[Hne' Hk]].
    + done.
    + by destruct (Hother _ _ _ _ Hne' Hk Hb').
    + by destruct (Hother _ _ _ _ Hne Hj Hb).
    + by eapply bo_unique.
Qed.

(** The events' owners survive a move that keeps what it owns. *)
Lemma events_kept i pc c pc' : calls !! i = Some (pc, c) ->
  (forall b evs p, batch_view pc = Some (b, evs, p) -> flying_of b fly <> [] ->
     exists p', batch_view pc' = Some (b, evs, p') /\ (p <= p')%nat /\
       forall k, (k < p)%nat -> cut (closing pc) k = false -> cut (closing pc') k = false) ->
  forall ev, ev ∈ fly -> event_ok (alter (fun c : Call_pc * bool => (pc', c.2)) i calls) ev.
Proof using Hok.
  intros Hi Hv ev Hin. pose proof (bo_event _ _ _ _ Hok ev Hin) as H. unfold event_ok in *.
  destruct (te_batch ev) as [b|] eqn:Eb; [|done]. destruct H as (Hr & j & pc2 & c2 & evs & p & Hj & Ev & Hlt & Hcut & Et). split; [done|].
  destruct (decide (j = i)) as [->|Hne].
  - rewrite Hi in Hj. injection Hj as <- <-. destruct (Hv b evs p Ev) as (p' & Ev' & Hp & Hck).
    { intros Hn. assert (Hf : ev ∈ flying_of b fly) by (by apply list_elem_of_filter). rewrite Hn in Hf. by apply not_elem_of_nil in Hf. }
    exists i, pc', c, evs, p'. split; [by rewrite list_lookup_alter_eq, Hi|]. split; [done|]. split; [lia|]. split; [by apply Hck|done].
  - exists j, pc2, c2, evs, p. split; [by rewrite list_lookup_alter_ne|done].
Qed.

(** A step on no batch state. *)
Lemma batch_quiet i pc c pc' o : calls !! i = Some (pc, c) -> batch_view pc = None -> batch_view pc' = None ->
  plan_ok (tr ++ o) pc' -> batches_ok batches fly (alter (fun c : Call_pc * bool => (pc', c.2)) i calls) (tr ++ o).
Proof using Hok.
  intros Hi Ev Ev' Hp. apply (batch_move i pc c); try done.
  - intros b (evs & p & E)%elem_of_owned. congruence.
  - split; [done|]. by rewrite Ev'.
  - apply (events_kept i pc c); [done|]. intros b evs p. by rewrite Ev.
Qed.

Lemma batch_new pc : batch_view pc = None -> plan_ok tr pc -> batches_ok batches fly (calls ++ [(pc, false)]) tr.
Proof using Hok.
  intros Ev Hp. destruct Hok as [H1 H2 H3].
  assert (Hc : forall i pc2 c, (calls ++ [(pc, false)]) !! i = Some (pc2, c) -> calls !! i = Some (pc2, c) \/ pc2 = pc).
  { intros i pc2 c [[_ E]|[_ [= <- _]]]%lookup_snoc_Some; [by left|by right]. }
  assert (Hn : forall b, b ∉ owned pc) by (intros b (? & ? & E)%elem_of_owned; congruence).
  constructor.
  - intros i pc2 c [Hi| ->]%Hc; [by eapply H1|]. split; [done|]. by rewrite Ev.
  - intros i j pc2 pc3 c c' b [Hi| ->]%Hc; [|by intros _ ?%Hn]. intros [Hj| ->]%Hc; [|by intros _ ?%Hn]. by eapply H2.
  - intros ev Hin. specialize (H3 ev Hin). unfold event_ok in *. destruct (te_batch ev); [|done].
    destruct H3 as (Hr & i & pc2 & c2 & evs & p & Hi & ?). split; [done|]. exists i, pc2, c2, evs, p. split; [|done].
    by apply lookup_app_l_Some.
Qed.

(** Closing does not concern the events submitted before. *)
Definition closes (pc pc' : Call_pc) : Prop :=
  closing pc = closing pc' \/ closing pc = None /\ forall b evs p j, batch_view pc = Some (b, evs, p) -> closing pc' = Some j -> (p <= j)%nat.
Lemma same_cut pc pc' b evs p k :
  closes pc pc' ->
  batch_view pc = Some (b, evs, p) -> (k < p)%nat -> cut (closing pc) k = cut (closing pc') k.
Proof using Type.
  intros [->|[-> H]] Ev Hlt; [done|]. destruct (closing pc') as [j|] eqn:Ec; [|done]. specialize (H b evs p j Ev eq_refl).
  cbn. symmetry. apply Nat.leb_gt. lia.
Qed.

(** A call of a batch moves without touching its state. *)
Lemma batch_same i pc c pc' : calls !! i = Some (pc, c) -> batch_view pc' = batch_view pc ->
  closes pc pc' ->
  (past_done pc' = true -> past_done pc = true \/ forall b bs, b ∈ owned pc -> batches !! b = Some bs -> bs_remaining bs = 0) ->
  plan_ok tr pc' -> batches_ok batches fly (alter (fun c : Call_pc * bool => (pc', c.2)) i calls) tr.
Proof using Hok.
  intros Hi Ev Hcl Hpd Hp. rewrite <- (app_nil_r tr) in Hp |- *. apply (batch_move i pc c); try done.
  - intros b (evs & p & E)%elem_of_owned. left. apply elem_of_owned. rewrite <- Ev. eauto.
  - split; [done|]. destruct (bo_owner _ _ _ _ Hok _ _ _ Hi) as [_ H]. rewrite Ev.
    destruct (batch_view pc) as [[[b evs] p]|] eqn:E; [|done]. rewrite app_nil_r.
    destruct H as (bs & Eb & Hl & H0 & Hp' & Hr & Hd & Hpast & Hk). exists bs. split_and!; try done.
    + intros Ht. destruct (Hpd Ht) as [H|H]; [by apply Hpast|]. apply (H b); [|done]. apply elem_of_owned. eauto.
    + intros k t Hlt Et. destruct (Hk k t Hlt Et) as [|(a & Ea & Ha)]; [by left|right]. exists a. split; [done|]. unfold result_ok in *.
      rewrite (same_cut _ _ _ _ _ _ Hcl E Hlt) in Ha. done.
  - apply (events_kept i pc c); [done|]. intros b evs p E _. exists p. rewrite Ev. split_and!; [done|done|].
    intros k Hlt. by rewrite (same_cut _ _ _ _ _ _ Hcl E Hlt).
Qed.

(** The batch is made when its events are known. *)
Lemma batch_create i batch plan seen reserved c : calls !! i = Some (B_reserve batch [] plan seen reserved, c) ->
  queued batch plan <> [] ->
  batches_ok (batches ++ [newBatchState (length (queued batch plan))]) fly
    (alter (fun c : Call_pc * bool => (B_submit batch plan (length batches) 0, c.2)) i calls) tr.
Proof using Hok.
  intros Hi Hne. rewrite <- (app_nil_r tr). apply (batch_move i _ c _ _ _ _ Hi).
  - intros b (evs & p & [= <- _ _])%elem_of_owned. by right.
  - intros b _ Hlt. split; [by apply lookup_app_l|done].
  - rewrite app_nil_r. destruct (bo_owner _ _ _ _ Hok _ _ _ Hi) as [Hp _]. cbn in Hp. split; [cbn; lia|]. cbn [batch_view].
    set (evs := queued batch plan) in *. assert (Hn : (0 < length evs)%nat) by (destruct evs; [done|cbn; lia]).
    assert (Hf : flying_of (length batches) fly = []).
    { destruct (flying_of (length batches) fly) as [|ev l] eqn:E; [done|]. exfalso.
      assert (Hin : ev ∈ flying_of (length batches) fly) by (rewrite E; by left).
      apply list_elem_of_filter in Hin as [Eb Hin]. pose proof (bo_event _ _ _ _ Hok ev Hin) as He. unfold event_ok in He. rewrite Eb in He.
      destruct He as (_ & j & pc2 & c2 & evs2 & p2 & Hj & Ev & _).
      pose proof (owned_lt _ _ _ _ Hj ltac:(apply elem_of_owned; eauto)). lia. }
    exists (newBatchState (length evs)). rewrite lookup_app_r, Nat.sub_diag by lia. cbn [newBatchState bs_results bs_remaining bs_done].
    rewrite length_replicate, Hf. split_and!; try done; [lia|cbn; lia|lia|intros; lia].
  - apply (events_kept i _ c _ Hi). intros b evs p. done.
Qed.

(** An event enters the ring. *)
Lemma submit_event ev : event_ok calls ev -> te_batch ev = None -> batches_ok batches (fly ++ [ev]) calls tr.
Proof using Hok.
  intros Hev Eb. destruct Hok as [H1 H2 H3]. constructor; [|done|].
  - intros i pc c Hi. destruct (H1 _ _ _ Hi) as [Hp H]. split; [done|]. destruct (batch_view pc) as [[[b evs] p]|]; [|done].
    rewrite <- (app_nil_r tr). eapply state_ok_frame; [exact H|done|]. unfold flying_of. rewrite filter_app, filter_cons_False by congruence.
    apply app_nil_r.
  - intros e [Hin| ->%list_elem_of_singleton]%elem_of_app; [by apply H3|done].
Qed.

Lemma batch_submit i batch plan b j t c o : calls !! i = Some (B_submit batch plan b j, c) -> queued batch plan !! j = Some t ->
  batches_ok batches (fly ++ [batch_event t b j]) (alter (fun c : Call_pc * bool => (B_publish batch plan b j, c.2)) i calls) (tr ++ o).
Proof using Hok.
  intros Hi Et. destruct (bo_owner _ _ _ _ Hok _ _ _ Hi) as [Hp H]. cbn [batch_view closing past_done] in H.
  pose proof (lookup_lt_Some _ _ _ Et) as Hlt.
  assert (Hfb : flying_of b (fly ++ [batch_event t b j]) = flying_of b fly ++ [batch_event t b j]).
  { unfold flying_of. rewrite filter_app, filter_cons_True by done. done. }
  apply (batch_move i _ c _ _ _ _ Hi).
  - intros b' (evs & p & [= <- _ _])%elem_of_owned. left. by left.
  - intros b' Hb' _. split; [done|]. unfold flying_of. rewrite filter_app, filter_cons_False; [apply app_nil_r|].
    cbn. intros [= <-]. apply Hb'. by left.
  - split; [by apply plan_ok_mono|]. cbn [batch_view closing past_done]. destruct H as (bs & Eb & Hl & H0 & Hpn & Hr & Hd & Hpd & Hk).
    exists bs. rewrite Hfb, length_app. cbn [length]. split_and!; try done; [rewrite Hr; lia|].
    intros k t' Hk' Et'. destruct (decide (k = j)) as [->|Hne].
    + left. apply elem_of_app. right. rewrite Et in Et'. injection Et' as <-. by left.
    + destruct (Hk k t' ltac:(lia) Et') as [Hin|(a & Ea & Ha)]; [left; apply elem_of_app; by left|].
      right. exists a. split; [done|]. by apply result_ok_mono.
  - intros ev [Hin| ->%list_elem_of_singleton]%elem_of_app.
    + apply (events_kept i _ c _ Hi); [|done]. intros b' evs p [= <- <- <-] _. exists (S j). split_and!; [done|lia|done].
    + cbn. split; [done|]. exists i, (B_publish batch plan b j), c, (queued batch plan), (S j).
      rewrite list_lookup_alter_eq, Hi. split_and!; [done|done|lia|done|done].
Qed.

Lemma alter_state b k a bs : batches !! b = Some bs -> alter (batch_complete k a) b batches !! b = Some (batch_complete k a bs).
Proof using Type. intros E. by rewrite list_lookup_alter_eq, E. Qed.

(** The result of a completed index, and those of the others. *)
Lemma complete_results k k' a bs : (k < length (bs_results bs))%nat ->
  bs_results (batch_complete k a bs) !! k' = if decide (k' = k) then Some a else bs_results bs !! k'.
Proof using Type.
  intros Hlt. cbn. destruct (decide (k' = k)) as [->|Hne]; [by apply list_lookup_insert_eq|by apply list_lookup_insert_ne].
Qed.
Lemma complete_done k a bs : bs_done bs = (bs_remaining bs =? 0) -> 0 < bs_remaining bs ->
  bs_done (batch_complete k a bs) = (bs_remaining (batch_complete k a bs) =? 0).
Proof using Type. intros Hd Hr. cbn. rewrite Hd. repeat case_match; lia. Qed.

(** The call completes an event it never queued. *)
Lemma batch_tail i batch plan b j k t c : calls !! i = Some (B_tail batch plan b j k, c) -> queued batch plan !! k = Some t ->
  batches_ok (alter (batch_complete k closed_ack) b batches) fly
    (alter (fun c : Call_pc * bool => (B_tail batch plan b j (S k), c.2)) i calls) tr.
Proof using Hok.
  intros Hi Et. destruct (bo_owner _ _ _ _ Hok _ _ _ Hi) as [Hp H]. cbn [batch_view closing past_done] in H.
  pose proof (lookup_lt_Some _ _ _ Et) as Hlt. rewrite <- (app_nil_r tr). apply (batch_move i _ c _ _ _ _ Hi).
  - intros b' (evs & p & [= <- _ _])%elem_of_owned. left. by left.
  - intros b' Hb' _. split; [|done]. apply list_lookup_alter_ne. intros ->. apply Hb'. by left.
  - rewrite app_nil_r. destruct Hp as [Hp Hjk]. split; [split; [done|lia]|]. cbn [batch_view closing past_done]. destruct H as (bs & Eb & Hl & H0 & Hpn & Hr & Hd & Hpd & Hk).
    exists (batch_complete k closed_ack bs). split; [by apply alter_state|].
    split; [cbn; by rewrite length_insert|]. split_and!; [done|lia|cbn; rewrite Hr; lia|apply complete_done; [done|rewrite Hr; lia]|done|].
    intros k' t' Hk' Et'. rewrite complete_results by lia. destruct (decide (k' = k)) as [->|Hne].
    + right. exists closed_ack. split; [done|]. unfold result_ok. cbn. by rewrite (proj2 (Nat.leb_le _ _)) by lia.
    + destruct (Hk k' t' ltac:(lia) Et') as [|]; [by left|by right].
  - apply (events_kept i _ c _ Hi). intros b' evs p [= <- <- <-] _. exists (S k). split_and!; [done|lia|done].
Qed.

(** The loop completes a flying event. *)
Lemma complete_unary ev rest : fly = ev :: rest -> te_batch ev = None -> batches_ok batches rest calls tr.
Proof using Hok.
  intros Ef Eb. destruct Hok as [H1 H2 H3]. constructor; [|done|].
  - intros i pc c Hi. destruct (H1 _ _ _ Hi) as [Hp H]. split; [done|]. destruct (batch_view pc) as [[[b evs] p]|]; [|done].
    rewrite <- (app_nil_r tr). eapply state_ok_frame; [exact H|done|]. rewrite Ef. unfold flying_of. by rewrite filter_cons_False by congruence.
  - intros e Hin. apply H3. rewrite Ef. by right.
Qed.

Lemma complete_batch ev rest b a : fly = ev :: rest -> te_batch ev = Some b -> (ev, a) ∈ acked tr ->
  batches_ok (alter (batch_complete (te_index ev) a) b batches) rest calls tr.
Proof using Hok.
  intros Ef Eb Ha. pose proof Hok as [H1 H2 H3].
  pose proof (H3 ev ltac:(rewrite Ef; by left)) as Hev. unfold event_ok in Hev. rewrite Eb in Hev.
  destruct Hev as (Er & i & pc & c & evs & p & Hi & Ev & Hlt & Hcut & Et).
  assert (Hev : ev = batch_event (te_Transfer ev) b (te_index ev)) by (destruct ev; cbn in *; by subst).
  assert (Hfb : flying_of b fly = ev :: flying_of b rest) by (rewrite Ef; unfold flying_of; by rewrite filter_cons_True).
  constructor; [|done|].
  - intros j pc2 c2 Hj. destruct (H1 _ _ _ Hj) as [Hp H]. split; [done|]. destruct (batch_view pc2) as [[[b2 evs2] p2]|] eqn:Ev2; [|done].
    destruct (decide (b2 = b)) as [->|Hne].
    + assert (j = i) as -> by (eapply H2; [exact Hj|exact Hi|apply elem_of_owned; eauto..]).
      rewrite Hi in Hj. injection Hj as <- <-. rewrite Ev in Ev2. injection Ev2 as <- <-.
      destruct H as (bs & Ebs & Hl & H0 & Hpn & Hr & Hd & Hpd & Hk). rewrite Hfb in Hr. cbn [length] in Hr.
      exists (batch_complete (te_index ev) a bs). split; [by apply alter_state|].
      split; [cbn; by rewrite length_insert|]. split_and!; [done|done|cbn; rewrite Hr; lia|apply complete_done; [done|rewrite Hr; lia]| |].
      { intros Hp'. specialize (Hpd Hp'). lia. }
      intros k t Hk' Et'. rewrite complete_results by lia. destruct (decide (k = te_index ev)) as [->|Hnk].
      * right. exists a. split; [done|]. unfold result_ok. rewrite Hcut. rewrite Et in Et'. injection Et' as <-. by rewrite <- Hev.
      * destruct (Hk k t Hk' Et') as [Hin|]; [|by right]. left. rewrite Ef in Hin. apply elem_of_cons in Hin as [Hin|]; [|done].
        exfalso. apply Hnk. by rewrite <- Hin.
    + rewrite <- (app_nil_r tr). eapply state_ok_frame; [exact H|by apply list_lookup_alter_ne|].
      rewrite Ef. unfold flying_of. rewrite filter_cons_False; [done|]. rewrite Eb. congruence.
  - intros e Hin. apply H3. rewrite Ef. by right.
Qed.
End Steps.
