(* ===== verification/LoopProps.v ===== *)
(** * Properties of the event loop and its clients *)

From S2P Require Import Prelude Core Accounts Transfers Record Wal Idempotency Engine EngineProps Ring Requests RequestsProps.
From S2P Require Import Loop LoopChannels LoopBatches.

(** ** A batch has one acknowledgement for each event *)

Lemma ValidateBatch_loop_length m events fuel : forall v outs start i,
  length (ValidateBatch_loop m fuel events v outs start i) = length outs.
Proof.
  induction fuel as [|fuel IH]; intros v outs start i; [done|]. cbn [ValidateBatch_loop].
  destruct (events !! i) as [t|]; [|done].
  destruct (validateAndApply m t i _) as [v' [u|err]].
  - destruct (negb (isLinked t)); [by rewrite IH; unfold clear_range; rewrite length_imap|].
    destruct (i =? length events - 1)%nat; [|by rewrite IH]. unfold fail_others. by rewrite length_imap, length_insert.
  - rewrite IH. unfold fail_others. by rewrite length_imap, length_insert.
Qed.
Lemma ValidateBatch_length m events : length (ValidateBatch m events) = length events.
Proof. unfold ValidateBatch. by rewrite ValidateBatch_loop_length, length_replicate. Qed.

Lemma ApplyBatch_length events : forall outs m, length (ApplyBatch events outs m).1 = length outs.
Proof.
  induction events as [|t events IH]; intros [|o outs] m; try done. cbn [ApplyBatch]. destruct o as [e|].
  - specialize (IH outs m). destruct (ApplyBatch events outs m). cbn in *. by rewrite IH.
  - destruct (ApplyTransferState t m) as [m' r]. specialize (IH outs m'). destruct (ApplyBatch events outs m').
    cbn in *. by rewrite IH.
Qed.

Lemma processBatch_length wall events g : length (processBatch wall events g).2 = length events.
Proof.
  unfold processBatch. set (m := CloseExpired _). set (evs := set_Timestamp _ <$> events).
  assert (He : length evs = length events) by apply length_fmap.
  destruct (match makeWALRecords _ _ with [] => _ | _ => _ end) as [[w lsn] [e|]]; cbn [snd].
  - by rewrite length_fmap.
  - pose proof (ApplyBatch_length evs (ValidateBatch m evs) m) as Ha. rewrite ValidateBatch_length in Ha.
    destruct (ApplyBatch evs _ m) as [outs m']. cbn [fst snd] in *. rewrite length_zip_with. lia.
Qed.

(** ** The invariant of the system *)

(** The commands of a schedule, the events it submitted, and those it took out
    of the ring and answered. *)
Definition commands_of (o : obs) : list command :=
  match o with
  | O_batch wall evs _ => [Transfers wall (te_Transfer <$> evs)]
  | O_create accounts _ => [Accounts accounts]
  | _ => []
  end.
Definition commands (tr : list obs) : list command := tr ≫= commands_of.
Definition submitted (tr : list obs) : list TransferEvent := tr ≫= (fun o => match o with O_submit ev => [ev] | _ => [] end).
Definition handled (tr : list obs) : list TransferEvent :=
  tr ≫= (fun o => match o with O_batch _ evs _ | O_abandon evs => evs | _ => [] end).

(** What is shown is what the engine answers, one command after the other. *)
Fixpoint explains (g : Engine) (tr : list obs) : Prop :=
  match tr with
  | [] => True
  | O_batch wall evs acks :: tr =>
      acks = (processBatch wall (te_Transfer <$> evs) g).2 /\ explains (processBatch wall (te_Transfer <$> evs) g).1 tr
  | O_create accounts rs :: tr =>
      rs = (processAccountCreate accounts g).2 /\ explains (processAccountCreate accounts g).1 tr
  | O_reply ev m :: tr => m = read_reply ev g /\ explains g tr
  | _ :: tr => explains g tr
  end.

(** The batch that was collected and not yet processed. *)
Definition waiting_batch (pc : Run_pc) : list TransferEvent :=
  match pc with L_drain (D_batch batch) | L_process batch => batch | _ => [] end.

Lemma explains_app g tr o : explains g (tr ++ o) <-> explains g tr /\ explains (run (commands tr) g) o.
Proof.
  revert g. induction tr as [|x tr IH]; intros g; [cbn; tauto|].
  destruct x; cbn [app explains commands mbind list_bind commands_of]; rewrite IH; cbn; tauto.
Qed.
Lemma run_app cs cs' g : run (cs ++ cs') g = run cs' (run cs g).
Proof. apply foldl_app. Qed.
Lemma commands_app tr o : commands (tr ++ o) = commands tr ++ commands o.
Proof. apply bind_app. Qed.

Record sys_ok (g0 : Engine) (y : Sys) (tr : list obs) : Prop := {
  so_chans : chans_ok (y_chans y) (y_pool y) (flying y) (y_reads y) (y_views y) (y_calls y) tr;
  so_batches : batches_ok (y_batches y) (flying y) (y_calls y) tr;
  so_deliver : match y_loop y with L_deliver acks _ => forall x, x ∈ acks -> x ∈ acked tr | _ => True end;
  so_engine : y_engine y = run (commands tr) g0;
  so_explains : explains g0 tr;
  so_order : submitted tr = handled tr ++ waiting_batch (y_loop y) ++ y_ring y }.

(** A step of a call: the loop and the engine are left alone. *)
Lemma call_sys_ok g0 y tr y' o : sys_ok g0 y tr ->
  chans_ok (y_chans y') (y_pool y') (flying y') (y_reads y') (y_views y') (y_calls y') (tr ++ o) ->
  batches_ok (y_batches y') (flying y') (y_calls y') (tr ++ o) ->
  y_loop y' = y_loop y -> y_engine y' = y_engine y ->
  (o = [] /\ y_ring y' = y_ring y \/ exists ev, o = [O_submit ev] /\ y_ring y' = y_ring y ++ [ev]) ->
  sys_ok g0 y' (tr ++ o).
Proof.
  intros [_ _ Hd He Hx Ho] Hc Hb El Eg Hr. constructor; try done.
  - rewrite El. destruct (y_loop y); try done. intros x Hin. rewrite acked_app. apply elem_of_app. left. by apply Hd.
  - rewrite Eg, He, commands_app, run_app. by destruct Hr as [[-> _]|(ev & -> & _)].
  - apply explains_app. split; [done|]. by destruct Hr as [[-> _]|(ev & -> & _)].
  - rewrite El. unfold submitted, handled in *. rewrite !bind_app, Ho.
    destruct Hr as [[-> ->]|(ev & -> & ->)]; cbn; by rewrite ?app_nil_r, <- ?app_assoc.
Qed.

Ltac bquiet Hok Hi := eapply (batch_quiet _ _ _ _ (so_batches _ _ _ Hok)); [exact Hi|done..].
Ltac quiet Hok Hi :=
  apply (call_sys_ok _ _ _ _ [] Hok);
  [ eapply (call_quiet _ _ _ _ _ _ _ (so_chans _ _ _ Hok)); [exact Hi|first [by left|by right]|done]
  | bquiet Hok Hi
  | done | done | by left ].

(** A call takes a channel from the pool of its type, or a new one. *)
Lemma acquire_ok g0 y tr i b pc pc' ty k ch y' : sys_ok g0 y tr -> y_calls y !! i = Some (pc, b) ->
  acquire ty k y = Some (ch, y') -> held pc = [] -> held pc' = [ch] ->
  (forall chans, chans !! ch = Some None -> ch ∉ in_flight (flying y) (y_reads y) (y_views y) ->
     call_ok chans (flying y) (y_reads y) (y_views y) tr pc') ->
  batch_view pc = None -> batch_view pc' = None -> (forall tr', plan_ok tr' pc') ->
  sys_ok g0 (goto i pc' y') (tr ++ []).
Proof.
  intros Hok Hi Ha Hh Hh' Hpc Ev Ev' Hp. unfold acquire in Ha.
  assert (Hb : batches_ok (y_batches y) (flying y) (alter (fun c : Call_pc * bool => (pc', c.2)) i (y_calls y)) (tr ++ [])).
  { eapply (batch_quiet _ _ _ _ (so_batches _ _ _ Hok)); [exact Hi|done|done|apply Hp]. }
  destruct k as [k|].
  - destruct (y_pool y !! k) as [[ty' c]|] eqn:Ek; [|done]. destruct (decide (ty = ty')) as [<-|]; [|done]. injection Ha as -> <-.
    apply (call_sys_ok _ _ _ _ [] Hok); [rewrite app_nil_r|exact Hb|done|done|by left].
    destruct (co_pool _ _ _ _ _ _ _ (so_chans _ _ _ Hok) ch) as [E1 E2].
    { apply (list_elem_of_fmap_2 snd _ (ty, ch)). by eapply list_elem_of_lookup_2. }
    apply (call_pooled _ _ _ _ _ _ _ (so_chans _ _ _ Hok) i pc b _ _ ty ch); try done. by apply Hpc.
  - injection Ha as <- <-. apply (call_sys_ok _ _ _ _ [] Hok); [rewrite app_nil_r|exact Hb|done|done|by left].
    apply (call_fresh _ _ _ _ _ _ _ (so_chans _ _ _ Hok) i pc b); try done.
    apply Hpc; [apply chans_last|by eapply fresh_unnamed, Hok].
Qed.

(** A call receives from its channel. *)
Lemma received g0 y tr i b pc ch m : sys_ok g0 y tr -> y_calls y !! i = Some (pc, b) -> held pc = [ch] ->
  y_chans y !! ch = Some (Some m) ->
  ~ (ch ∈ in_flight (flying y) (y_reads y) (y_views y)) /\ <[ch := None]> (y_chans y) !! ch = Some (None : option Msg).
Proof.
  intros Hok Hi Hh Hm. split.
  - intros Hin. pose proof (co_empty _ _ _ _ _ _ _ (so_chans _ _ _ Hok) _ Hin). congruence.
  - apply list_lookup_insert_eq. by eapply lookup_lt_Some.
Qed.

Lemma T_step_ok g0 y tr i b v pc y' m : sys_ok g0 y tr -> y_calls y !! i = Some (pc, b) ->
  CreateTransfer_step i b v pc y = Some y' -> sys_ok g0 y' (tr ++ shows m (Step i v) y).
Proof.
  intros Hok Hi H. pose proof (co_call _ _ _ _ _ _ _ (so_chans _ _ _ Hok) _ _ _ Hi) as Hc.
  cbn [shows]. rewrite Hi. destruct pc; try discriminate H; cbn [CreateTransfer_step] in H; cbn [call_ok] in Hc.
  - destruct b; call_case H; quiet Hok Hi.
  - apply bind_Some in H as ([ch y2] & Ha & H). call_case H.
    by eapply acquire_ok; [exact Hok|exact Hi|exact Ha|..].
  - call_case H.
    + (* refused *) apply (call_sys_ok _ _ _ _ [] Hok); [|bquiet Hok Hi|done|done|by left].
      rewrite app_nil_r. by apply (call_release _ _ _ _ _ _ _ (so_chans _ _ _ Hok) i (T_submit t ch) b); [..|apply Hc|apply Hc|].
    + apply (call_sys_ok _ _ _ _ _ Hok); [| |done|done|right; by eexists].
      * unfold flying. cbn [y_ring y_loop goto set_calls set_ring]. rewrite app_assoc.
        by apply (call_submit _ _ _ _ _ _ _ (so_chans _ _ _ Hok) i t b).
      * unfold flying. cbn [y_ring y_loop goto set_calls set_ring]. rewrite app_assoc.
        apply submit_event; [|done|done]. bquiet Hok Hi.
  - call_case H. apply (call_sys_ok _ _ _ _ [] Hok); [|bquiet Hok Hi|done|done|by left].
    eapply (call_quiet _ _ _ _ _ _ _ (so_chans _ _ _ Hok)); [exact Hi|by left|by rewrite app_nil_r].
  - call_case H; [quiet Hok Hi|].
    apply (call_sys_ok _ _ _ _ [] Hok); [|bquiet Hok Hi|done|done|by left].
    match goal with Em : y_chans y !! ch = Some _ |- _ => destruct (received _ _ _ _ _ _ ch _ Hok Hi eq_refl Em) as [Hnf Hem] end.
    rewrite app_nil_r. apply (call_release _ _ _ _ _ _ _ (so_chans _ _ _ Hok) i (T_wait t ch) b); try done.
    + intros c Hne. cbn. by apply list_lookup_insert_ne.
    + destruct Hc as [Hin|(_ & a' & Ea & Ha)]; [|exists ch; congruence].
      assert (Hx : ch ∈ in_flight (flying y) (y_reads y) (y_views y)).
      { apply elem_of_in_flight. left. by exists (mkEvent t (Some ch) None 0). }
      apply (co_empty _ _ _ _ _ _ _ (so_chans _ _ _ Hok)) in Hx. congruence.
  - destruct (no_key t) eqn:Ek; call_case H; try quiet Hok Hi.
    apply bind_Some in H as (ids & _ & H). call_case H. quiet Hok Hi.
Qed.

(** The channels do not change in a step of CreateTransfers. *)
Ltac cquiet Hok Hi := eapply (call_quiet _ _ _ _ _ _ _ (so_chans _ _ _ Hok)); [exact Hi|by left|done].
Ltac batch_step Hok Hi := apply (call_sys_ok _ _ _ _ [] Hok); [cquiet Hok Hi| |done|done|by left].

Lemma queued_None batch plan j : queued batch plan !! j = None -> (length (queued batch plan) <= j)%nat.
Proof. apply lookup_ge_None_1. Qed.

(** A call that is past the submission of its last event. *)
Lemma all_submitted g0 y tr i b batch plan bs j pc pc' : sys_ok g0 y tr -> y_calls y !! i = Some (pc, b) ->
  batch_view pc = Some (bs, queued batch plan, j) -> queued batch plan !! j = None ->
  batch_view pc' = Some (bs, queued batch plan, length (queued batch plan)) -> batch_view pc' = batch_view pc.
Proof.
  intros Hok Hi Ev Hn Ev'. destruct (bo_owner _ _ _ _ (so_batches _ _ _ Hok) _ _ _ Hi) as [_ H]. rewrite Ev in H |- *.
  destruct H as (s & _ & _ & _ & Hp & _). apply queued_None in Hn. rewrite Ev'. do 2 f_equal. lia.
Qed.

(** What a call that has received all results returns. *)
Lemma returned_results g0 y tr i b batch plan n j bs : sys_ok g0 y tr ->
  y_calls y !! i = Some (B_settle batch plan n j None, b) -> y_batches y !! n = Some bs ->
  returned_ok tr batch (materialize plan (bs_results bs)).
Proof.
  intros Hok Hi Eb. destruct (bo_owner _ _ _ _ (so_batches _ _ _ Hok) _ _ _ Hi) as [Hp H]. cbn in Hp.
  cbn [batch_view closing past_done] in H. destruct H as (bs' & Eb' & Hl & H0 & _ & Hr & _ & Hpd & Hk).
  rewrite Eb in Eb'. injection Eb' as <-. specialize (Hpd eq_refl).
  exists plan, (bs_results bs), n. split_and!; try done. intros k t Et. pose proof (lookup_lt_Some _ _ _ Et) as Hlt.
  destruct (Hk k t Hlt Et) as [Hin|(a & Ea & Ha)]; [exfalso|by exists a].
  assert (Hf : batch_event t n k ∈ flying_of n (flying y)) by (by apply list_elem_of_filter).
  destruct (flying_of n (flying y)); [by apply not_elem_of_nil in Hf|]. cbn in Hr. lia.
Qed.

Lemma B_step_ok g0 y tr i b v pc y' m : sys_ok g0 y tr -> y_calls y !! i = Some (pc, b) ->
  CreateTransfers_step i b v pc y = Some y' -> sys_ok g0 y' (tr ++ shows m (Step i v) y).
Proof.
  intros Hok Hi H. pose proof (bo_owner _ _ _ _ (so_batches _ _ _ Hok) _ _ _ Hi) as [Hp Hs].
  cbn [shows]. rewrite Hi. destruct pc; try discriminate H; cbn [CreateTransfers_step] in H; cbn [plan_ok] in Hp.
  - (* phase 1 *) destruct todo as [|t todo]; cbn [length] in Hp.
    + destruct (decide (queued batch plan = [])) as [Eq|Hne].
      * rewrite Eq in H. call_case H. batch_step Hok Hi. eapply (batch_quiet _ _ _ _ (so_batches _ _ _ Hok)); [exact Hi|done|done|].
        cbn. exists plan, [], 0%nat. rewrite Eq. split_and!; try done. lia.
      * assert (E : y' = goto i (B_submit batch plan (length (y_batches y)) 0)
                          (set_batches (y_batches y ++ [newBatchState (length (queued batch plan))]) y)).
        { destruct (queued batch plan); [done|]. by injection H as <-. }
        clear H. subst y'. batch_step Hok Hi. rewrite app_nil_r. by eapply (batch_create _ _ _ _ (so_batches _ _ _ Hok)).
    + destruct b; call_case H; batch_step Hok Hi; (eapply (batch_quiet _ _ _ _ (so_batches _ _ _ Hok)); [exact Hi|done|done|]);
        cbn; rewrite ?length_app; cbn; try done; lia.
  - (* phase 2 *) destruct (queued batch plan !! j) as [t|] eqn:Et.
    + destruct (v_refuse v).
      * call_case H; [|by rewrite app_nil_r]. batch_step Hok Hi. rewrite app_nil_r.
        eapply (batch_same _ _ _ _ (so_batches _ _ _ Hok)); [exact Hi|done| |done|by split].
        right. split; [done|]. intros b' evs p j' [= _ _ <-] [= <-]. done.
      * call_case H. apply (call_sys_ok _ _ _ _ _ Hok); [| |done|done|right; by eexists]; unfold flying;
          cbn [y_ring y_loop goto set_calls set_ring]; rewrite app_assoc.
        -- eapply (submit_batch _ _ _ _ _ _ _); [|done]. rewrite <- (app_nil_r tr). cquiet Hok Hi.
        -- eapply (batch_submit _ _ _ _ (so_batches _ _ _ Hok)); [exact Hi|done].
    + call_case H. batch_step Hok Hi. rewrite app_nil_r.
      eapply (batch_same _ _ _ _ (so_batches _ _ _ Hok)); [exact Hi| |by left|done|done]. by eapply all_submitted.
  - (* published *) call_case H. batch_step Hok Hi. rewrite app_nil_r.
    by eapply (batch_same _ _ _ _ (so_batches _ _ _ Hok)); [exact Hi|done|by left|by left|].
  - (* the ledger closed *) destruct (queued batch plan !! k) as [t|] eqn:Et; call_case H; batch_step Hok Hi; rewrite app_nil_r.
    + by eapply (batch_tail _ _ _ _ (so_batches _ _ _ Hok)); [exact Hi|].
    + eapply (batch_same _ _ _ _ (so_batches _ _ _ Hok)); [exact Hi| |by left|done|apply Hp]. by eapply all_submitted.
  - (* phase 3 *) call_case H. batch_step Hok Hi. rewrite app_nil_r.
    eapply (batch_same _ _ _ _ (so_batches _ _ _ Hok)); [exact Hi|done|by left| |done]. right.
    intros b' bs ->%list_elem_of_singleton Eb. cbn [batch_view] in Hs. destruct Hs as (bs' & Eb' & _ & _ & _ & _ & Hd & _).
    repeat match goal with E1 : y_batches y !! b0 = Some _, E2 : y_batches y !! b0 = Some _ |- _ =>
      rewrite E1 in E2; injection E2 as -> end.
    apply Z.eqb_eq. congruence.
  - (* phase 4 *) apply bind_Some in H as (bs & Eb & H). destruct (bs_results bs !! j) as [ack|] eqn:Ea.
    + apply bind_Some in H as (ids & _ & H). call_case H. batch_step Hok Hi. rewrite app_nil_r.
      by eapply (batch_same _ _ _ _ (so_batches _ _ _ Hok)); [exact Hi|done|by left|by left|done].
    + call_case H. apply (call_sys_ok _ _ _ _ [] Hok); [cquiet Hok Hi| |done|done|by left]. rewrite app_nil_r.
      rewrite <- (app_nil_r tr). eapply (batch_move _ _ _ _ (so_batches _ _ _ Hok)); [exact Hi| | | |].
      * by intros b' (? & ? & ?)%elem_of_owned.
      * done.
      * split; [|done]. rewrite app_nil_r. cbn. destruct stop; [done|]. by eapply returned_results.
      * eapply (events_kept _ _ _ _ (so_batches _ _ _ Hok)); [exact Hi|]. intros b' evs p Ev Hf. exfalso. apply Hf.
        cbn [batch_view] in Hs, Ev. injection Ev as <- <- <-. destruct Hs as (bs' & Eb' & _ & _ & _ & Hr & _ & Hpd & _).
        specialize (Hpd eq_refl). apply length_zero_iff_nil. cbn [past_done] in Hpd. lia.
Qed.


Lemma control_step_ok g0 y tr i b v pc y' m : sys_ok g0 y tr -> y_calls y !! i = Some (pc, b) ->
  control_step i b v pc y = Some y' -> sys_ok g0 y' (tr ++ shows m (Step i v) y).
Proof.
  intros Hok Hi H. pose proof (co_call _ _ _ _ _ _ _ (so_chans _ _ _ Hok) _ _ _ Hi) as Hc.
  cbn [shows]. rewrite Hi. destruct pc; try discriminate H; cbn [control_step CreateAccounts_step read_step RequestSnapshotView_step] in H; cbn [call_ok] in Hc.
  - (* CreateAccounts *) call_case H; quiet Hok Hi.
  - destruct (v_done v); [call_case H; quiet Hok Hi|]. apply bind_Some in H as (e & _ & H). call_case H. quiet Hok Hi.
  - (* a read *) apply bind_Some in H as ([ch y2] & Ha & H). call_case H.
    by eapply acquire_ok; [exact Hok|exact Hi|exact Ha|..].
  - call_case H; apply (call_sys_ok _ _ _ _ [] Hok); try (by left); try done; try (bquiet Hok Hi); rewrite app_nil_r.
    + by eapply (call_release _ _ _ _ _ _ _ (so_chans _ _ _ Hok) _ _ _ _ _ _ _ Hi); [..|apply Hc|apply Hc|].
    + by apply (call_send_read _ _ _ _ _ _ _ (so_chans _ _ _ Hok) i ev b).
  - call_case H; [quiet Hok Hi|].
    match goal with Em : y_chans y !! ch = Some _ |- _ => destruct (received _ _ _ _ _ _ ch _ Hok Hi eq_refl Em) as [Hnf Hem] end.
    apply (call_sys_ok _ _ _ _ [] Hok); [|bquiet Hok Hi|done|done|by left].
    rewrite app_nil_r. apply (call_release _ _ _ _ _ _ _ (so_chans _ _ _ Hok) i (R_wait ev ch) b); try done.
    + intros c Hne. cbn. by apply list_lookup_insert_ne.
    + destruct Hc as [Hin|(_ & m' & Ea & Ha)]; [|cbn; congruence]. destruct Hnf. apply elem_of_in_flight. right; left.
      by apply (list_elem_of_fmap_2 snd _ (ev, ch)).
  - (* a view *) call_case H; try quiet Hok Hi. apply (call_sys_ok _ _ _ _ [] Hok); [|bquiet Hok Hi|done|done|by left].
    rewrite app_nil_r. by apply (call_send_view _ _ _ _ _ _ _ (so_chans _ _ _ Hok) i b).
  - call_case H; try quiet Hok Hi.
    match goal with Em : y_chans y !! ch = Some _ |- _ => destruct (received _ _ _ _ _ _ ch _ Hok Hi eq_refl Em) as [Hnf Hem] end.
    apply (call_sys_ok _ _ _ _ [] Hok); [|bquiet Hok Hi|done|done|by left].
    rewrite app_nil_r. by apply (call_drop _ _ _ _ _ _ _ (so_chans _ _ _ Hok) i (V_wait ch) b).
Qed.

(** ** Steps of the loop *)

(** A step that shows nothing about the engine and moves no event. *)
Lemma loop_sys_ok g0 y tr y' o : sys_ok g0 y tr ->
  chans_ok (y_chans y') (y_pool y') (flying y') (y_reads y') (y_views y') (y_calls y') (tr ++ o) ->
  batches_ok (y_batches y') (flying y') (y_calls y') (tr ++ o) ->
  match y_loop y' with L_deliver acks _ => forall x, x ∈ acks -> x ∈ acked (tr ++ o) | _ => True end ->
  y_engine y' = run (commands o) (y_engine y) -> explains (y_engine y) o ->
  submitted o = [] -> waiting_batch (y_loop y) ++ y_ring y = handled o ++ waiting_batch (y_loop y') ++ y_ring y' ->
  sys_ok g0 y' (tr ++ o).
Proof.
  intros [_ _ _ He Hx Ho] Hc Hb Hd Eg Hxo Hs Hw. constructor; try done.
  - by rewrite Eg, He, commands_app, run_app.
  - apply explains_app. by rewrite <- He.
  - unfold submitted, handled in *. by rewrite !bind_app, Ho, Hs, app_nil_r, <- app_assoc, Hw.
Qed.

(** The queues are not touched: neither are the calls' channels. *)
Lemma chans_mono chans pool fly reads views calls tr o : chans_ok chans pool fly reads views calls tr ->
  chans_ok chans pool fly reads views calls (tr ++ o).
Proof.
  intros H. eapply (chans_step []); try exact H; try done; try apply H.
  - intros ch Hin. left. split; [done|]. apply not_elem_of_nil.
  - by intros ch ?%not_elem_of_nil.
  - intros i pc b Hi. left. exists i, b. split; [done|]. intros ch _. apply not_elem_of_nil.
Qed.
Lemma batches_mono batches fly calls tr o : batches_ok batches fly calls tr -> batches_ok batches fly calls (tr ++ o).
Proof.
  intros [H1 H2 H3]. constructor; [|done..]. intros i pc c Hi. destruct (H1 i pc c Hi) as [Hp Hs].
  split; [by apply plan_ok_mono|]. destruct (batch_view pc) as [[[b evs] p]|]; [|done]. by eapply state_ok_frame.
Qed.

Lemma still_ok g0 y tr y' o : sys_ok g0 y tr ->
  y_chans y' = y_chans y -> y_pool y' = y_pool y -> flying y' = flying y -> y_reads y' = y_reads y -> y_views y' = y_views y ->
  y_calls y' = y_calls y -> y_batches y' = y_batches y ->
  match y_loop y' with L_deliver acks _ => forall x, x ∈ acks -> x ∈ acked (tr ++ o) | _ => True end ->
  y_engine y' = run (commands o) (y_engine y) -> explains (y_engine y) o ->
  submitted o = [] -> waiting_batch (y_loop y) ++ y_ring y = handled o ++ waiting_batch (y_loop y') ++ y_ring y' ->
  sys_ok g0 y' (tr ++ o).
Proof.
  intros Hok E1 E2 E3 E4 E5 E6 E7 Hd Hg Hx Hs Hw. apply (loop_sys_ok _ _ _ _ _ Hok); try done.
  - rewrite E1, E2, E3, E4, E5, E6. apply chans_mono, Hok.
  - rewrite E3, E6, E7. apply batches_mono, Hok.
Qed.

Lemma take_read_perm ty q e q' : take_read ty q = Some (e, q') -> q ≡ₚ e :: q'.
Proof.
  revert q'. induction q as [|x q IH]; intros q' H; [done|]. cbn [take_read] in H. destruct (decide _).
  - by injection H as <- <-.
  - apply bind_Some in H as ([x' q2] & Hq & [= <- <-]). rewrite (IH _ Hq). apply Permutation_swap.
Qed.

(** A control request is served. *)
Lemma serve_sys_ok g0 y tr w y' pc : sys_ok g0 y tr -> serve w y = Some y' ->
  loop_events pc = loop_events (y_loop y) -> waiting_batch pc = waiting_batch (y_loop y) ->
  match pc with L_deliver _ _ => False | _ => True end ->
  sys_ok g0 (set_loop pc y') (tr ++ serve_shows w y).
Proof.
  intros Hok H Hl Hw Hpc. destruct w; try discriminate H; cbn [serve serve_shows] in *.
  - apply bind_Some in H as ([[ev ch] q] & Ht & H). rewrite Ht. unfold send in H. call_case H.
    apply take_read_perm in Ht. apply (loop_sys_ok _ _ _ _ _ Hok).
    + unfold flying. cbn. rewrite Hl. by apply (reply_read _ _ _ _ _ _ _ (so_chans _ _ _ Hok)).
    + unfold flying. cbn. rewrite Hl. apply batches_mono, Hok.
    + by destruct pc.
    + done.
    + done.
    + done.
    + by rewrite <- Hw.
  - destruct (y_creates y) as [|c q]; [done|]. apply bind_Some in H as (e & -> & H).
    destruct (processAccountCreate (ce_Accounts e) (y_engine y)) as [g rs] eqn:Ep. injection H as <-.
    apply (still_ok _ _ _ _ _ Hok); try done.
    + unfold flying. cbn. by rewrite Hl.
    + by destruct pc.
    + cbn. by rewrite Ep.
    + cbn. by rewrite Ep.
    + by rewrite <- Hw.
  - destruct (y_views y) as [|ch q] eqn:Ev; [done|]. destruct (snapshot_view (y_engine y)) as [[a p] l]. unfold send in H. call_case H.
    apply (loop_sys_ok _ _ _ _ _ Hok).
    + unfold flying. cbn. rewrite Hl, app_nil_r. pose proof (so_chans _ _ _ Hok) as Hch. rewrite Ev in Hch.
      by apply (reply_view _ _ _ _ _ _ _ Hch).
    + unfold flying. cbn. rewrite Hl. apply batches_mono, Hok.
    + by destruct pc.
    + done.
    + done.
    + done.
    + by rewrite <- Hw.
Qed.

Lemma serve_loop w y y' : serve w y = Some y' -> y' = set_loop (y_loop y) y'.
Proof.
  intros H. destruct w; try discriminate H; cbn [serve] in H.
  - apply bind_Some in H as ([[ev ch] q] & _ & H). unfold send in H. by call_case H.
  - destruct (y_creates y); [done|]. apply bind_Some in H as (e & _ & H). by call_case H.
  - unfold send in H. by call_case H.
Qed.

(** The next acknowledgement is delivered. *)
Lemma complete_ok g0 y tr ev ack acks c y' : sys_ok g0 y tr -> y_loop y = L_deliver ((ev, ack) :: acks) c ->
  complete ev ack y = Some y' -> sys_ok g0 (set_loop (L_deliver acks c) y') (tr ++ []).
Proof.
  intros Hok El H. pose proof (so_deliver _ _ _ Hok) as Hd. rewrite El in Hd.
  assert (Ef : flying y = ev :: acks.*1 ++ y_ring y) by (unfold flying; by rewrite El).
  pose proof (so_chans _ _ _ Hok) as Hch. pose proof (so_batches _ _ _ Hok) as Hbs.
  pose proof (bo_event _ _ _ _ Hbs ev ltac:(rewrite Ef; by left)) as Hev. unfold event_ok in Hev.
  assert (Ha : (ev, ack) ∈ acked tr) by (apply Hd; by left).
  assert (Hd' : forall x, x ∈ acks -> x ∈ acked (tr ++ [])) by (intros x Hx; rewrite app_nil_r; apply Hd; by right).
  unfold complete in H. destruct (te_batch ev) as [b|] eqn:Eb.
  - destruct Hev as [Er _]. injection H as <-. apply (loop_sys_ok _ _ _ _ _ Hok); try done; [rewrite app_nil_r..|cbn; by rewrite El].
    + by apply (deliver_shared _ _ _ _ _ _ _ Hch ev).
    + by apply (complete_batch _ _ _ _ Hbs ev).
  - destruct (te_Result ev) as [ch|] eqn:Er; [|done]. unfold send in H. call_case H.
    apply (loop_sys_ok _ _ _ _ _ Hok); try done; [rewrite app_nil_r..|cbn; by rewrite El].
    + by apply (deliver_ack _ _ _ _ _ _ _ Hch ev).
    + by apply (complete_unary _ _ _ _ Hbs ev).
Qed.

Lemma acked_shown g tr batch wall :
  (forall x, x ∈ zip batch (processBatch wall (te_Transfer <$> batch) g).2 ->
     x ∈ acked (tr ++ [O_batch wall batch (processBatch wall (te_Transfer <$> batch) g).2])).
Proof. intros x Hx. rewrite acked_app. apply elem_of_app. right. cbn. by rewrite app_nil_r. Qed.

Ltac unmoved Hok El := apply (still_ok _ _ _ _ _ Hok); try done; unfold flying; cbn; by rewrite El.

Lemma Run_step_ok maxBatch g0 y tr w y' : sys_ok g0 y tr -> Run_step maxBatch w y = Some y' ->
  sys_ok g0 y' (tr ++ shows maxBatch (Loop w) y).
Proof.
  intros Hok H. unfold Run_step in H. cbn [shows]. destruct (y_loop y) as [|k|again| | |batch|acks c| | |] eqn:El.
  - destruct w; call_case H; unmoved Hok El.
  - assert (Hs : serve w y = Some y' \/ w = W_default) by (destruct w; auto). destruct Hs as [Hs| ->].
    + rewrite (serve_loop _ _ _ Hs), El. by apply serve_sys_ok; rewrite ?El.
    + call_case H; try destruct k; unmoved Hok El.
  - destruct w; try discriminate H. injection H as <-. destruct (length (y_ring y) =? 0)%nat, again; unmoved Hok El.
  - assert (Hs : (exists y1, serve w y = Some y1 /\ y' = set_loop (L_drain D_again) y1)
        \/ serve_shows w y = [] /\ (y' = set_loop (L_drain D_again) y \/ y' = set_loop L_abandon y)).
    { destruct w; try (apply fmap_Some in H as (y1 & Hs & ->); left; eauto); right; call_case H; auto. }
    destruct Hs as [(y1 & Hs & ->)|(-> & [-> | ->])]; [by apply serve_sys_ok; rewrite ?El|unmoved Hok El..].
  - destruct w; try discriminate H. injection H as <-. apply (still_ok _ _ _ _ _ Hok); try done.
    + unfold flying. cbn [y_loop y_ring set_loop set_ring loop_events]. rewrite El. symmetry. apply collect_ring.
    + cbn [waiting_batch y_loop set_loop y_ring set_ring]. rewrite El. apply collect_ring.
  - destruct w; try discriminate H. destruct (length batch =? 0)%nat eqn:En.
    + apply Nat.eqb_eq, length_zero_iff_nil in En as ->. call_case H. unmoved Hok El.
    + pose proof (processBatch_length wall (te_Transfer <$> batch) (y_engine y)) as Hlen. rewrite length_fmap in Hlen.
      pose proof (acked_shown (y_engine y) tr batch wall) as Ha.
      remember (processBatch wall (te_Transfer <$> batch) (y_engine y)) as r eqn:Er. destruct r as [g acks]. injection H as <-.
      cbn [snd] in *. apply (still_ok _ _ _ _ _ Hok); try done.
      * unfold flying. cbn [y_loop y_ring set_loop set_engine loop_events]. rewrite El. cbn. by rewrite fst_zip by lia.
      * cbn. by rewrite <- Er.
      * cbn. by rewrite <- Er.
      * cbn. by rewrite El, app_nil_r.
  - destruct acks as [|[ev ack] acks], w; try discriminate H.
    + call_case H. destruct c; unmoved Hok El.
    + apply fmap_Some in H as (y1 & H & ->). by eapply complete_ok.
  - destruct w; try discriminate H. pose proof (collect_ring (Nat.min n maxBatch) y) as Hr.
    destruct (collect _ y) as [b y1] eqn:Ec. cbn [fst] in Hr |- *. destruct (length b =? 0)%nat; [call_case H; unmoved Hok El|].
    assert (Ey : y1 = set_ring (drop (length b) (y_ring y)) y) by (unfold collect in Ec; by injection Ec as <- <-). subst y1. injection H as <-.
    apply (still_ok _ _ _ _ _ Hok); try done.
    + unfold flying. cbn [y_loop y_ring set_loop set_ring loop_events]. rewrite El, <- list_fmap_compose. cbn. 
      rewrite list_fmap_id. by symmetry.
    + intros x Hx. rewrite acked_app. apply elem_of_app. right. cbn. by rewrite app_nil_r.
    + cbn. by rewrite El, app_nil_r.
  - destruct w; try discriminate H.
    + call_case H; unmoved Hok El.
    + call_case H; unmoved Hok El.
    + destruct (y_views y) as [|ch q] eqn:Ev; [done|]. unfold send in H. call_case H.
      pose proof (so_chans _ _ _ Hok) as Hch. rewrite Ev in Hch. apply (loop_sys_ok _ _ _ _ _ Hok); try done.
      * unfold flying. cbn. rewrite El, app_nil_r. unfold flying in Hch. rewrite El in Hch. by apply (reply_view _ _ _ _ _ _ _ Hch).
      * unfold flying. cbn. rewrite El. pose proof (so_batches _ _ _ Hok) as Hbs. unfold flying in Hbs. rewrite El in Hbs. by apply batches_mono.
      * cbn. by rewrite El.
  - destruct w; discriminate H.
Qed.

(** ** Schedules *)

Lemma init_ok g ids : sys_ok g (Sys_init g ids) [].
Proof.
  constructor; try done; constructor; try done; cbn; try by constructor.
  - by intros ch ?%not_elem_of_nil.
  - by intros ch ?%not_elem_of_nil.
  - by intros ev ?%not_elem_of_nil.
Qed.

Lemma first_pc_ok r tr : held (first_pc r) = [] /\ batch_view (first_pc r) = None /\ plan_ok tr (first_pc r)
  /\ forall chans fly reads views, call_ok chans fly reads views tr (first_pc r).
Proof. by destruct r. Qed.

Lemma helds_cancel i calls : helds (alter (fun c : Call_pc * bool => (c.1, true)) i calls) = helds calls.
Proof.
  unfold helds. revert i. induction calls as [|c calls IH]; intros [|i]; try done.
  change (alter ?f (S i) (c :: calls)) with (c :: alter f i calls). by rewrite !bind_cons, IH.
Qed.

Lemma cancel_ok g0 y tr i : sys_ok g0 y tr -> sys_ok g0 (set_calls (alter (fun c : Call_pc * bool => (c.1, true)) i (y_calls y)) y) (tr ++ []).
Proof.
  intros Hok. pose proof (so_chans _ _ _ Hok) as [H1 H2 H3 H4 H5]. pose proof (so_batches _ _ _ Hok) as [B1 B2 B3].
  apply (call_sys_ok _ _ _ _ [] Hok); rewrite ?app_nil_r; [| |done|done|by left]; constructor; cbn; try done.
  - by rewrite helds_cancel.
  - intros j pc b (b' & Hj)%cancel_lookup. by eapply H5.
  - intros j pc b (b' & Hj)%cancel_lookup. by eapply B1.
  - intros j k pc pc' c c' b (? & Hj)%cancel_lookup (? & Hk)%cancel_lookup. by eapply B2.
  - intros ev Hin. specialize (B3 ev Hin). unfold event_ok in *. destruct (te_batch ev) as [b|]; [|done].
    destruct B3 as (Er & j & pc & c & evs & p & Hj & Hv). split; [done|].
    destruct (cancel_lookup_inv i _ _ _ _ Hj) as (c' & Hj'). by exists j, pc, c', evs, p.
Qed.

Lemma call_step_ok g0 y tr i v y' m : sys_ok g0 y tr -> call_step i v y = Some y' -> sys_ok g0 y' (tr ++ shows m (Step i v) y).
Proof.
  intros Hok H. unfold call_step in H. destruct (y_calls y !! i) as [[pc b]|] eqn:Hi; [|done].
  destruct (CreateTransfer_step i b v pc y) eqn:ET; [injection H as <-; by eapply T_step_ok|].
  destruct (CreateTransfers_step i b v pc y) eqn:EB; [injection H as <-; by eapply B_step_ok|].
  by eapply control_step_ok.
Qed.

Lemma sys_act_ok maxBatch g0 y tr a y' : sys_ok g0 y tr -> sys_act maxBatch a y = Some y' ->
  sys_ok g0 y' (tr ++ shows maxBatch a y).
Proof.
  intros Hok H. destruct a as [r|i|i v|w|]; cbn [sys_act] in H.
  - injection H as <-. destruct (first_pc_ok r tr) as (H1 & H2 & H3 & H4). cbn [shows].
    apply (call_sys_ok _ _ _ _ [] Hok); rewrite ?app_nil_r; [| |done|done|by left].
    + apply (call_new _ _ _ _ _ _ _ (so_chans _ _ _ Hok)); [done|apply H4].
    + by apply (batch_new _ _ _ _ (so_batches _ _ _ Hok)).
  - injection H as <-. by apply cancel_ok.
  - by eapply call_step_ok.
  - by eapply Run_step_ok.
  - injection H as <-. by apply (still_ok _ _ _ _ _ Hok); try (destruct Hok as [_ _ Hd _ _ _]; cbn; rewrite app_nil_r).
Qed.

Lemma sys_acts_app maxBatch acts acts' : forall y y1 tr y2 tr', sys_acts maxBatch acts y = Some (y1, tr) ->
  sys_acts maxBatch acts' y1 = Some (y2, tr') -> sys_acts maxBatch (acts ++ acts') y = Some (y2, tr ++ tr').
Proof.
  induction acts as [|a acts IH]; intros y y1 tr y2 tr' H H'; cbn [sys_acts app] in *; [by injection H as <- <-|].
  apply bind_Some in H as (y' & -> & H). apply bind_Some in H as ([y'' tr''] & H & [= <- <-]). cbn.
  rewrite (IH _ _ _ _ _ H H'). cbn. by rewrite app_assoc.
Qed.

Lemma sys_acts_ok maxBatch g0 acts : forall y tr y' tr', sys_ok g0 y tr ->
  sys_acts maxBatch acts y = Some (y', tr') -> sys_ok g0 y' (tr ++ tr').
Proof.
  induction acts as [|a acts IH]; intros y tr y' tr' Hok H; cbn [sys_acts] in H.
  - injection H as <- <-. by rewrite app_nil_r.
  - apply bind_Some in H as (y1 & H1 & H). apply bind_Some in H as ([y2 tr2] & H2 & [= <- <-]).
    rewrite app_assoc. eapply IH; [|exact H2]. by apply sys_act_ok.
Qed.
