(* ===== verification/LoopCreates.v ===== *)
(** * The batches of new accounts in the event loop (engine/ledger.go, loop.go)

    A CreateAccounts call and the loop share the accounts and their results until
    the loop closes [ev.Done].  The invariant: until then the event is queued,
    and then its results are what the engine answered for these accounts, or the
    refusals of a loop that exits. *)

From S2P Require Import Prelude Core Accounts Wal Idempotency Engine Ring Requests Loop LoopChannels.

Lemma create_logged_length m0 accounts : forall m, length (create_logged m0 accounts m).1 = length accounts.
Proof.
  induction accounts as [|a accounts IH]; intros m; [done|]. cbn [create_logged]. destruct (refusal m0 a).
  - specialize (IH m). destruct (create_logged m0 accounts m). cbn in *. by rewrite IH.
  - destruct (Create a m) as [m1 r]. specialize (IH m1). destruct (create_logged m0 accounts m1). cbn in *. by rewrite IH.
Qed.
Lemma processAccountCreate_length accounts g : length (processAccountCreate accounts g).2 = length accounts.
Proof.
  unfold processAccountCreate. destruct (account_records _ _) as [|r rs]; [cbn; by rewrite length_fmap|].
  destruct (AppendBatch _ _) as [w [lsn|e]]; [|cbn; by rewrite length_fmap].
  pose proof (create_logged_length (g_accounts g) accounts (g_accounts g)) as H. by destruct (create_logged _ _ _).
Qed.

(** The results a schedule gave for batches of accounts. *)
Definition created_by (o : obs) : list (list Account * list (option error)) :=
  match o with O_create accounts rs => [(accounts, rs)] | _ => [] end.
Definition created (tr : list obs) : list (list Account * list (option error)) := tr ≫= created_by.

(** One result for each account, from the engine or from the shutdown. *)
Definition answered (tr : list obs) (accounts : list Account) (rs : list (option error)) : Prop :=
  length rs = length accounts /\ ((accounts, rs) ∈ created tr \/ Forall (fun r => r = Some ErrLedgerClosed) rs).

Definition create_ok (events : list AccountCreateEvent) (creates : list nat) (tr : list obs) (pc : Call_pc) : Prop :=
  match pc with
  | A_wait accounts c => exists e, events !! c = Some e /\ ce_Accounts e = accounts
      /\ (ce_Done e = false /\ c ∈ creates \/ ce_Done e = true /\ answered tr accounts (ce_Results e))
  | A_return accounts (Some (Ok outs)) => exists rs, outs = zip accounts rs /\ answered tr accounts rs
  | _ => True
  end.

Record creates_ok (events : list AccountCreateEvent) (creates : list nat) (calls : list (Call_pc * bool)) (tr : list obs) : Prop := {
  cr_unique : NoDup creates;
  cr_queued : forall c, c ∈ creates -> exists e, events !! c = Some e /\ length (ce_Results e) = length (ce_Accounts e);
  cr_call : forall i pc b, calls !! i = Some (pc, b) -> create_ok events creates tr pc }.

Lemma created_app tr o : created (tr ++ o) = created tr ++ created o.
Proof. apply bind_app. Qed.
Lemma answered_mono tr o accounts rs : answered tr accounts rs -> answered (tr ++ o) accounts rs.
Proof. intros [Hl [H|H]]; (split; [done|]); [left; rewrite created_app; apply elem_of_app; by left|by right]. Qed.
Lemma create_ok_mono events creates tr o pc : create_ok events creates tr pc -> create_ok events creates (tr ++ o) pc.
Proof.
  destruct pc; cbn; try done.
  - intros (e & E & Ea & [H|[Hd H]]); exists e; (split_and!; [done|done|]); [by left|right; split; [done|by apply answered_mono]].
  - destruct r as [[outs|]|]; try done. intros (rs & -> & H). exists rs. split; [done|by apply answered_mono].
Qed.

Section Steps.
Context (events : list AccountCreateEvent) (creates : list nat) (calls : list (Call_pc * bool)) (tr : list obs).
Context (Hok : creates_ok events creates calls tr).

Lemma creates_mono o : creates_ok events creates calls (tr ++ o).
Proof using Hok. destruct Hok as [H1 H2 H3]. constructor; try done. intros i pc b Hi. by eapply create_ok_mono, H3. Qed.

Lemma creates_new pc : create_ok events creates tr pc -> creates_ok events creates (calls ++ [(pc, false)]) tr.
Proof using Hok.
  intros Hpc. destruct Hok as [H1 H2 H3]. constructor; try done.
  intros i pc2 b [[_ E]|[-> E]]%lookup_snoc_Some; [by eapply H3|]. by injection E as <- <-.
Qed.

Lemma creates_call i pc' o : create_ok events creates (tr ++ o) pc' ->
  creates_ok events creates (alter (fun c : Call_pc * bool => (pc', c.2)) i calls) (tr ++ o).
Proof using Hok.
  intros Hpc. destruct Hok as [H1 H2 H3]. constructor; try done.
  intros j pc2 b Hj. apply calls_alter in Hj as [[-> ->]|[Hne Hj]]; [done|]. by eapply create_ok_mono, H3.
Qed.

(** The batch is queued. *)
Lemma creates_send i accounts :
  creates_ok (events ++ [mkCreateEvent accounts (replicate (length accounts) None) false]) (creates ++ [length events])
    (alter (fun c : Call_pc * bool => (A_wait accounts (length events), c.2)) i calls) tr.
Proof using Hok.
  destruct Hok as [H1 H2 H3]. set (e := mkCreateEvent _ _ _).
  assert (Hlt : forall c, c ∈ creates -> (c < length events)%nat).
  { intros c Hc. destruct (H2 c Hc) as (e1 & E & _). by eapply lookup_lt_Some. }
  assert (He : (events ++ [e]) !! length events = Some e) by (by rewrite lookup_app_r, Nat.sub_diag).
  constructor.
  - apply NoDup_app. split; [done|]. split; [|apply NoDup_singleton]. intros c Hc ->%list_elem_of_singleton.
    specialize (Hlt _ Hc). lia.
  - intros c [Hc| ->%list_elem_of_singleton]%elem_of_app.
    + destruct (H2 c Hc) as (e1 & E & Hl). exists e1. split; [by apply lookup_app_l_Some|done].
    + exists e. split; [done|]. cbn. apply length_replicate.
  - intros j pc b Hj. apply calls_alter in Hj as [[-> ->]|[Hne Hj]].
    + exists e. split; [done|]. split; [done|]. left. split; [done|]. apply elem_of_app. right. by left.
    + specialize (H3 j pc b Hj). destruct pc; cbn in *; try done. destruct H3 as (e1 & E & Ea & Hx). exists e1.
      split; [by apply lookup_app_l_Some|]. split; [done|]. destruct Hx as [[? ?]|]; [left|by right]. split; [done|].
      apply elem_of_app. by left.
Qed.

(** The first queued batch is answered. *)
Lemma creates_answer c q e f o : creates = c :: q -> events !! c = Some e -> ce_Accounts (f e) = ce_Accounts e ->
  ce_Done (f e) = true -> answered (tr ++ o) (ce_Accounts e) (ce_Results (f e)) ->
  creates_ok (alter f c events) q calls (tr ++ o).
Proof using Hok.
  intros Eq Ec Ha Hd Hans. destruct Hok as [H1 H2 H3]. rewrite Eq in H1. apply NoDup_cons in H1 as [Hn H1].
  constructor; [done| |].
  - intros c' Hc'. destruct (H2 c') as (e1 & E & Hl); [rewrite Eq; by right|]. exists e1.
    rewrite list_lookup_alter_ne; [done|]. by intros <-.
  - intros i pc b Hi. specialize (H3 i pc b Hi). apply (create_ok_mono _ _ _ o) in H3. destruct pc; cbn in *; try done.
    destruct H3 as (e1 & E & Ea & Hx). destruct (decide (c = c0)) as [<-|Hne].
    + rewrite Ec in E. injection E as <-. exists (f e). rewrite list_lookup_alter_eq, Ec. split_and!; [done|by rewrite Ha|].
      right. split; [done|]. by rewrite <- Ea.
    + exists e1. rewrite list_lookup_alter_ne by done. split_and!; [done|done|]. destruct Hx as [[Hf Hin]|]; [|by right].
      left. split; [done|]. rewrite Eq in Hin. apply elem_of_cons in Hin as [->|]; done.
Qed.
End Steps.

(** ** Steps of the system *)

Definition sys_creates (y : Sys) (tr : list obs) : Prop := creates_ok (y_events y) (y_creates y) (y_calls y) tr.

Lemma acquire_frame ty k y ch y' : acquire ty k y = Some (ch, y') ->
  y_events y' = y_events y /\ y_creates y' = y_creates y /\ y_calls y' = y_calls y.
Proof.
  unfold acquire. intros H. destruct k as [k|]; [|by injection H as <- <-].
  destruct (y_pool y !! k) as [[ty' c]|]; [|done]. destruct (decide _); [|done]. by injection H as <- <-.
Qed.

Ltac moved Hok := apply (creates_call _ _ _ _ Hok); done.

Lemma T_creates i b v pc y y' tr o : sys_creates y tr -> CreateTransfer_step i b v pc y = Some y' -> sys_creates y' (tr ++ o).
Proof.
  intros Hok H. destruct pc; try discriminate H; cbn [CreateTransfer_step] in H.
  - destruct b; call_case H; moved Hok.
  - apply bind_Some in H as ([ch y2] & Ha & H). apply acquire_frame in Ha as (E1 & E2 & E3). call_case H.
    unfold sys_creates. cbn. rewrite E1, E2, E3. moved Hok.
  - call_case H; moved Hok.
  - call_case H; moved Hok.
  - call_case H; moved Hok.
  - call_case H; try moved Hok. apply bind_Some in H as (ids & _ & H). call_case H. moved Hok.
Qed.

Lemma B_creates i b v pc y y' tr o : sys_creates y tr -> CreateTransfers_step i b v pc y = Some y' -> sys_creates y' (tr ++ o).
Proof.
  intros Hok H. destruct pc; try discriminate H; cbn [CreateTransfers_step] in H.
  - call_case H; moved Hok.
  - call_case H; [moved Hok| |moved Hok..]. by apply creates_mono.
  - call_case H; moved Hok.
  - call_case H; moved Hok.
  - call_case H; moved Hok.
  - apply bind_Some in H as (bs & Eb & H). destruct (bs_results bs !! j); [|call_case H; moved Hok].
    apply bind_Some in H as (ids & _ & H). call_case H. moved Hok.
Qed.

Lemma control_creates i b v pc y y' tr : y_calls y !! i = Some (pc, b) -> sys_creates y tr ->
  control_step i b v pc y = Some y' -> sys_creates y' (tr ++ []).
Proof.
  intros Hi Hok H. pose proof (cr_call _ _ _ _ Hok _ _ _ Hi) as Hc.
  destruct pc; try discriminate H; cbn [control_step CreateAccounts_step read_step RequestSnapshotView_step] in H.
  - call_case H; [moved Hok|]. rewrite app_nil_r. by apply (creates_send _ _ _ _ Hok).
  - destruct (v_done v); [call_case H; moved Hok|]. apply bind_Some in H as (e & Ee & H). call_case H.
    apply (creates_call _ _ _ _ Hok). cbn in Hc. destruct Hc as (e1 & E & Ea & Hx). rewrite Ee in E. injection E as <-.
    destruct Hx as [[Hx _]|[_ Hx]]; [congruence|]. exists (ce_Results e). split; [done|]. by apply answered_mono.
  - apply bind_Some in H as ([ch y2] & Ha & H). apply acquire_frame in Ha as (E1 & E2 & E3). call_case H.
    unfold sys_creates. cbn. rewrite E1, E2, E3. moved Hok.
  - call_case H; moved Hok.
  - call_case H; moved Hok.
  - call_case H; moved Hok.
  - call_case H; moved Hok.
Qed.

Lemma send_frame ch m y y' : send ch m y = Some y' ->
  y_events y' = y_events y /\ y_creates y' = y_creates y /\ y_calls y' = y_calls y.
Proof. unfold send. intros H. by call_case H. Qed.
Lemma complete_frame ev a y y' : complete ev a y = Some y' ->
  y_events y' = y_events y /\ y_creates y' = y_creates y /\ y_calls y' = y_calls y.
Proof. unfold complete. intros H. call_case H; [done|by apply send_frame in H]. Qed.

Lemma serve_creates w y y' pc tr : sys_creates y tr -> serve w y = Some y' -> sys_creates (set_loop pc y') (tr ++ serve_shows w y).
Proof.
  intros Hok H. destruct w; try discriminate H; cbn [serve serve_shows] in *.
  - apply bind_Some in H as ([[ev ch] q] & _ & H). apply send_frame in H as (E1 & E2 & E3).
    unfold sys_creates. cbn. rewrite E1, E2, E3. by apply creates_mono.
  - destruct (y_creates y) as [|c q] eqn:Eq; [done|]. apply bind_Some in H as (e & Ee & H). rewrite Ee.
    pose proof (processAccountCreate_length (ce_Accounts e) (y_engine y)) as Hl.
    destruct (processAccountCreate (ce_Accounts e) (y_engine y)) as [g rs]. injection H as <-. cbn [snd] in *.
    apply (creates_answer _ _ _ _ Hok c q e); try done. split; [done|]. left. rewrite created_app. apply elem_of_app. right. by left.
  - destruct (y_views y) as [|ch q]; [done|]. destruct (snapshot_view (y_engine y)) as [[a p] l]. apply send_frame in H as (E1 & E2 & E3).
    unfold sys_creates. cbn. rewrite E1, E2, E3. by apply creates_mono.
Qed.

Lemma Run_creates maxBatch w y y' tr : sys_creates y tr -> Run_step maxBatch w y = Some y' ->
  sys_creates y' (tr ++ shows maxBatch (Loop w) y).
Proof.
  intros Hok H. unfold Run_step in H. cbn [shows]. destruct (y_loop y) as [|k|again| | |batch|acks c| | |] eqn:El.
  - destruct w; call_case H; by apply creates_mono.
  - assert (Hs : serve w y = Some y' \/ w = W_default) by (destruct w; auto). destruct Hs as [Hs| ->].
    + pose proof (serve_creates w y y' (y_loop y') tr Hok Hs) as Hx. by destruct y'.
    + call_case H; by apply creates_mono.
  - destruct w; try discriminate H. call_case H; by apply creates_mono.
  - destruct w; try (apply fmap_Some in H as (y1 & Hs & ->); by apply serve_creates); call_case H; by apply creates_mono.
  - destruct w; try discriminate H. unfold collect in H. injection H as <-. by apply creates_mono.
  - destruct w; try discriminate H. destruct (length batch =? 0)%nat; [call_case H; by apply creates_mono|].
    destruct (processBatch _ _ _). injection H as <-. by apply creates_mono.
  - destruct acks as [|[ev ack] acks], w; try discriminate H; [call_case H; by apply creates_mono|].
    apply fmap_Some in H as (y1 & H & ->). apply complete_frame in H as (E1 & E2 & E3).
    unfold sys_creates. cbn. rewrite E1, E2, E3. by apply creates_mono.
  - destruct w; try discriminate H. unfold collect in H. destruct (length _ =? 0)%nat; injection H as <-; by apply creates_mono.
  - destruct w; try discriminate H; [call_case H; by apply creates_mono|..].
    + destruct (y_creates y) as [|c q] eqn:Eq; [done|]. call_case H.
      destruct (cr_queued _ _ _ _ Hok c ltac:(rewrite Eq; by left)) as (e & Ee & Hl).
      apply (creates_answer _ _ _ _ Hok c q e); try done. split; [cbn; by rewrite length_fmap|]. right.
      apply Forall_fmap. by apply Forall_true.
    + destruct (y_views y) as [|ch q]; [done|]. apply send_frame in H as (E1 & E2 & E3).
      unfold sys_creates. cbn. rewrite E1, E2, E3. by apply creates_mono.
  - destruct w; discriminate H.
Qed.

Lemma sys_act_creates maxBatch y tr a y' : sys_creates y tr -> sys_act maxBatch a y = Some y' ->
  sys_creates y' (tr ++ shows maxBatch a y).
Proof.
  intros Hok H. destruct a as [r|i|i v|w|]; cbn [sys_act] in H.
  - injection H as <-. cbn [shows]. rewrite app_nil_r. apply (creates_new _ _ _ _ Hok). by destruct r.
  - injection H as <-. cbn [shows]. rewrite app_nil_r. destruct Hok as [H1 H2 H3]. constructor; try done.
    intros j pc b (b' & Hj)%cancel_lookup. by eapply H3.
  - unfold call_step in H. destruct (y_calls y !! i) as [[pc b]|] eqn:Hi; [|done].
    destruct (CreateTransfer_step i b v pc y) eqn:ET; [injection H as <-; by eapply T_creates|].
    destruct (CreateTransfers_step i b v pc y) eqn:EB; [injection H as <-; by eapply B_creates|].
    assert (Hs : shows maxBatch (Step i v) y = []).
    { cbn [shows]. rewrite Hi. destruct pc; try done; discriminate H. }
    rewrite Hs. by eapply control_creates.
  - by eapply Run_creates.
  - injection H as <-. by apply creates_mono.
Qed.
