(* ===== verification/LoopLive.v ===== *)
(** * The event loop makes progress (engine/loop.go)

    No send of the loop waits, so it always has a step; a measure bounds the
    steps it takes on its own before it waits for work or exits. *)

From S2P Require Import Prelude Core Wal Idempotency Engine Ring Requests.
From S2P Require Import Loop LoopChannels LoopBatches LoopCreates LoopProps.

(** ** The measure *)

Definition queued_control (y : Sys) : nat := length (y_reads y) + length (y_creates y) + length (y_views y).

Definition stage (y : Sys) : nat :=
  let empty := (length (y_ring y) =? 0)%nat in
  match y_loop y with
  | L_top => 6
  | L_drain D_idle => 5
  | L_drain D_again => 8
  | L_drain (D_batch batch) => 9 + length batch
  | L_idle again => if again then 7 else 4
  | L_wait => if empty then 3 else 9
  | L_collect => if empty then 10 else 0
  | L_process batch => 8 + length batch
  | L_deliver acks c => (if c then 3 else 7) + length acks
  | L_abandon => 2
  | L_abandon_control => 1
  | L_closed => 0
  end.

(** What is left to do for the loop. *)
Definition work (y : Sys) : nat := stage y + 11 * length (y_ring y) + 6 * queued_control y.

(** The loop waits with nothing to do, or has exited. *)
Definition settled (y : Sys) : bool :=
  match y_loop y with
  | L_wait => negb (y_cancelled y) && (length (y_ring y) =? 0)%nat && negb (controlPending y)
  | L_closed => true
  | _ => false
  end.

Lemma send_keeps ch m y y' : send ch m y = Some y' ->
  y_ring y' = y_ring y /\ y_reads y' = y_reads y /\ y_creates y' = y_creates y /\ y_views y' = y_views y
  /\ y_loop y' = y_loop y /\ y_cancelled y' = y_cancelled y.
Proof. unfold send. intros H. by call_case H. Qed.
Lemma complete_keeps ev a y y' : complete ev a y = Some y' ->
  y_ring y' = y_ring y /\ y_reads y' = y_reads y /\ y_creates y' = y_creates y /\ y_views y' = y_views y
  /\ y_loop y' = y_loop y /\ y_cancelled y' = y_cancelled y.
Proof. unfold complete. intros H. call_case H; [done|by apply send_keeps in H]. Qed.

Lemma serve_work w y y' : serve w y = Some y' ->
  y_ring y' = y_ring y /\ y_loop y' = y_loop y /\ y_cancelled y' = y_cancelled y /\ S (queued_control y') = queued_control y.
Proof.
  unfold queued_control. intros H. destruct w; try discriminate H; cbn [serve] in H.
  - apply bind_Some in H as ([[ev ch] q] & Ht & H). apply take_read_perm, Permutation_length in Ht.
    apply send_keeps in H as (-> & -> & -> & -> & -> & ->). cbn in *. split_and!; try done; lia.
  - destruct (y_creates y) as [|c q]; [done|]. apply bind_Some in H as (e & _ & H). call_case H. cbn. split_and!; try done; lia.
  - destruct (y_views y) as [|ch q]; [done|]. destruct (snapshot_view (y_engine y)) as [[a p] l].
    apply send_keeps in H as (-> & -> & -> & -> & -> & ->). cbn. split_and!; try done; lia.
Qed.

(** The first slot of the ring is claimed and not published. *)
Definition blocked (y : Sys) : bool :=
  match y_ring y with ev :: _ => bool_decide (ev_slot ev ∈ unready y) | [] => false end.
(** Steps that do nothing: a wakeup with an empty ring, and a Collect that finds
    the first slot claimed and not published. *)
Definition idle (w : branch) (y : Sys) : bool :=
  match y_loop y, w with
  | L_wait, W_arrive => (length (y_ring y) =? 0)%nat
  | L_collect, _ => blocked y
  | _, _ => false
  end.

Lemma collect_some n y : y_ring y <> [] -> blocked y = false -> (0 < length (collect n y).1)%nat.
Proof.
  unfold blocked, collect. destruct (y_ring y) as [|ev r]; [done|]. intros _ Hb. apply bool_decide_eq_false in Hb.
  cbn [fst ready_prefix]. rewrite decide_False by done. destruct (Nat.max 1 n) eqn:E; [lia|]. cbn. lia.
Qed.
Lemma unready_prefix ring : ready_prefix [] ring = ring.
Proof. induction ring as [|ev ring IH]; [done|]. cbn [ready_prefix]. rewrite decide_False by apply not_elem_of_nil. by rewrite IH. Qed.
Lemma unready_blocked y : unready y = [] -> blocked y = false.
Proof. unfold blocked. intros ->. destruct (y_ring y); [done|]. apply bool_decide_eq_false, not_elem_of_nil. Qed.

Lemma not_idle w y : unready y = [] -> w <> W_arrive -> idle w y = false.
Proof. intros Hu Hw. unfold idle. destruct (y_loop y); try done; [by destruct w|by apply unready_blocked]. Qed.

(** Every step of the loop is some of the work, but for the idle ones, each of
    which makes work for less than ten. *)
Lemma step_works maxBatch w y y' : Run_step maxBatch w y = Some y' ->
  if idle w y then (work y' < work y + 10)%nat else (work y' < work y)%nat.
Proof.
  intros H. unfold Run_step in H. unfold idle, work, stage, queued_control.
  destruct (y_loop y) as [|k|again| | |batch|acks c| | |] eqn:El.
  - destruct w; call_case H; cbn; lia.
  - assert (Hs : serve w y = Some y' \/ w = W_default) by (destruct w; auto). destruct Hs as [Hs| ->].
    + apply serve_work in Hs as (E1 & E2 & _ & Hq). unfold queued_control in *. rewrite E1, E2, El. destruct k; lia.
    + call_case H. destruct k; cbn; lia.
  - destruct w; try discriminate H. injection H as <-. cbn. destruct (y_ring y) as [|e r]; destruct again; cbn; lia.
  - assert (Hs : (exists y1, serve w y = Some y1 /\ y' = set_loop (L_drain D_again) y1)
        \/ w = W_arrive /\ y' = set_loop (L_drain D_again) y \/ w <> W_arrive /\ y' = set_loop L_abandon y).
    { destruct w; try (apply fmap_Some in H as (y1 & Hs & ->); left; eauto); right; call_case H; auto. }
    destruct Hs as [(y1 & Hs & ->)|[(-> & ->)|(Hw & ->)]].
    + assert (Hw : w <> W_arrive) by (by intros ->). destruct w; try done;
        apply serve_work in Hs as (E1 & E2 & _ & Hq); unfold queued_control in *; cbn; rewrite E1; destruct (y_ring y); cbn; lia.
    + cbn. destruct (y_ring y); cbn; lia.
    + destruct w; try done; cbn; destruct (y_ring y); cbn; lia.
  - destruct w; try discriminate H. pose proof (collect_some (Nat.min n maxBatch) y) as Hc.
    pose proof (f_equal length (collect_ring (Nat.min n maxBatch) y)) as Hl. rewrite length_app in Hl.
    unfold collect in *. injection H as <-. cbn [fst] in *. set (b := take _ _) in *.
    cbn [y_loop y_ring set_loop set_ring y_reads y_creates y_views]. unfold blocked in *.
    destruct (y_ring y) as [|e r]; cbn [length Nat.eqb] in *; [lia|].
    destruct (bool_decide _); [lia|]. specialize (Hc ltac:(done) eq_refl). lia.
  - destruct w; try discriminate H. destruct (length batch =? 0)%nat; [call_case H; cbn; lia|].
    pose proof (processBatch_length wall (te_Transfer <$> batch) (y_engine y)) as Hlen. rewrite length_fmap in Hlen.
    destruct (processBatch _ _ _) as [g acks]. injection H as <-. cbn [y_loop y_ring set_loop set_engine y_reads y_creates y_views].
    rewrite length_zip_with. cbn [snd] in Hlen. lia.
  - destruct acks as [|[ev ack] acks], w; try discriminate H.
    + call_case H; destruct c; cbn; lia.
    + apply fmap_Some in H as (y1 & H & ->). apply complete_keeps in H as (E1 & E2 & E3 & E4 & _). cbn.
      rewrite E1, E2, E3, E4. lia.
  - destruct w; try discriminate H. pose proof (f_equal length (collect_ring (Nat.min n maxBatch) y)) as Hl. rewrite length_app in Hl.
    unfold collect in *. cbn [fst] in *. set (b := take _ _) in *. destruct (length b =? 0)%nat eqn:En; injection H as <-; [cbn; lia|].
    apply Nat.eqb_neq in En. cbn [y_loop y_ring set_loop set_ring y_reads y_creates y_views]. rewrite length_fmap. lia.
  - destruct w; try discriminate H.
    + call_case H; cbn; lia.
    + destruct (y_creates y) as [|c q]; [done|]. call_case H. cbn. rewrite El. lia.
    + destruct (y_views y) as [|ch q]; [done|]. pose proof H as H'. apply send_keeps in H' as (E1 & E2 & E3 & E4 & E5 & _).
      rewrite E1, E2, E3, E4, E5. cbn. rewrite El. lia.
  - destruct w; discriminate H.
Qed.

(** ** Progress *)

Section Progress.
Context (maxBatch : nat) (g0 : Engine) (y : Sys) (tr : list obs).
Context (Hok : sys_ok g0 y tr) (Hcr : sys_creates y tr).

(** A channel that is named is empty, so the loop's send to it goes through. *)
Lemma send_goes ch m y1 : y_chans y1 = y_chans y -> ch ∈ in_flight (flying y) (y_reads y) (y_views y) -> exists y', send ch m y1 = Some y'.
Proof using Hok.
  intros Ec Hin. apply (co_empty _ _ _ _ _ _ _ (so_chans _ _ _ Hok)) in Hin. unfold send. rewrite Ec, Hin. eauto.
Qed.

Lemma view_goes ch q m : y_views y = ch :: q -> exists y', send ch m (set_views q y) = Some y'.
Proof using Hok. intros E. apply send_goes; [done|]. apply elem_of_in_flight. right; right. rewrite E. by left. Qed.

Lemma serve_goes : controlPending y = true -> exists w y', serve w y = Some y' /\ w <> W_arrive.
Proof using Hok Hcr.
  unfold controlPending. intros H. destruct (y_reads y) as [|[ev ch] q] eqn:Er.
  - destruct (y_creates y) as [|c q] eqn:Ec.
    + destruct (y_views y) as [|ch q] eqn:Ev; [done|]. exists W_view. cbn [serve]. rewrite Ev.
      destruct (snapshot_view (y_engine y)) as [[a p] l]. destruct (view_goes ch q (MView a p l) Ev) as [y' E]. eauto.
    + exists W_create. cbn [serve]. rewrite Ec. destruct (cr_queued _ _ _ _ Hcr c ltac:(rewrite Ec; by left)) as (e & -> & _). cbn.
      destruct (processAccountCreate _ _) as [g rs]. eauto.
  - exists (W_read (read_type ev)). cbn [serve]. rewrite Er. cbn [take_read fst]. rewrite decide_True by done. cbn.
    destruct (send_goes ch (read_reply ev (y_engine y)) (set_reads q y)) as [y' E]; [done| |eauto].
    apply elem_of_in_flight. right; left. rewrite Er. by left.
Qed.

Lemma complete_goes ev ack acks c : y_loop y = L_deliver ((ev, ack) :: acks) c -> exists y', complete ev ack y = Some y'.
Proof using Hok.
  intros El. assert (Hin : ev ∈ flying y) by (unfold flying; rewrite El; cbn; by left).
  pose proof (bo_event _ _ _ _ (so_batches _ _ _ Hok) _ Hin) as Hev. unfold event_ok in Hev. unfold complete.
  destruct (te_batch ev); [eauto|]. destruct (te_Result ev) as [ch|] eqn:Er; [|done].
  apply send_goes; [done|]. apply elem_of_in_flight. left. eauto.
Qed.

(** The loop has a step unless it is settled. *)
Lemma loop_goes : settled y = false -> exists w y', Run_step maxBatch w y = Some y' /\ (idle w y = true -> blocked y = true).
Proof using Hok Hcr.
  unfold settled, Run_step, idle. destruct (y_loop y) as [|k|again| | |batch|acks c| | |] eqn:El; intros Hs.
  - destruct (y_cancelled y); [exists W_done|exists W_default]; eexists; by split.
  - destruct (controlPending y) eqn:Ep.
    + destruct (serve_goes Ep) as (w & y' & Hw & Hn). exists w, y'. split; [by destruct w|done].
    + exists W_default. eexists; by split.
  - exists W_default. eexists; by split.
  - destruct (y_cancelled y); [by exists W_done; eexists; split|]. destruct (y_ring y) as [|e r] eqn:Er.
    + destruct (controlPending y) eqn:Ep; [|done]. destruct (serve_goes Ep) as (w & y' & Hw & Hn).
      exists w, (set_loop (L_drain D_again) y'). split; [destruct w; try done; by rewrite Hw|by destruct w].
    + exists W_arrive. eexists. split; [done|]. by cbn.
  - exists (W_go 0 0). destruct (collect _ _). eexists; by split.
  - exists (W_go 0 0). destruct (length batch =? 0)%nat; [eexists; by split|]. destruct (processBatch _ _ _). eexists; by split.
  - exists W_default. destruct acks as [|[ev ack] acks]; [eexists; by split|]. destruct (complete_goes _ _ _ _ El) as [y' ->]. cbn. eexists; by split.
  - exists (W_go 0 0). destruct (collect _ _). destruct (length _ =? 0)%nat; eexists; by split.
  - destruct (y_views y) as [|ch q] eqn:Ev.
    + destruct (y_creates y) as [|c q] eqn:Ec.
      * exists W_default. eexists; by split.
      * exists W_create. eexists; by split.
    + exists W_view. destruct (view_goes ch q (MView [] [] 0) Ev) as [y' E]. eexists; by split.
  - done.
Qed.
End Progress.

(** ** The loop on its own *)

Lemma loop_runs_app maxBatch w ws y y1 y' tr : Run_step maxBatch w y = Some y1 ->
  sys_acts maxBatch (Loop <$> ws) y1 = Some (y', tr) ->
  sys_acts maxBatch (Loop <$> w :: ws) y = Some (y', shows maxBatch (Loop w) y ++ tr).
Proof. intros H1 H2. change (Loop <$> w :: ws) with (Loop w :: (Loop <$> ws)). cbn [sys_acts sys_act]. rewrite H1. cbn [mbind option_bind]. by rewrite H2. Qed.

(** At the exit the ring was empty, when no slot was claimed and not published,
    and so are then the control queues. *)
Definition tidy (y : Sys) : Prop :=
  match y_loop y with
  | L_abandon_control => y_ring y = []
  | L_closed => y_ring y = [] /\ y_creates y = [] /\ y_views y = []
  | _ => True
  end.
Definition exiting (y : Sys) : bool := match y_loop y with L_abandon_control | L_closed => true | _ => false end.

Lemma serve_calls w y y' : serve w y = Some y' -> y_calls y' = y_calls y.
Proof.
  intros H. destruct w; try discriminate H; cbn [serve] in H.
  - apply bind_Some in H as ([[ev ch] q] & _ & H). by apply send_frame in H as (_ & _ & ->).
  - destruct (y_creates y) as [|c q]; [done|]. apply bind_Some in H as (e & _ & H). by call_case H.
  - destruct (y_views y) as [|ch q]; [done|]. destruct (snapshot_view (y_engine y)) as [[a p] l]. by apply send_frame in H as (_ & _ & ->).
Qed.

Lemma Run_calls maxBatch w y y' : Run_step maxBatch w y = Some y' ->
  y_calls y' = y_calls y /\ (unready y = [] -> tidy y -> tidy y').
Proof.
  intros H. unfold Run_step in H. unfold tidy. destruct (y_loop y) as [|k|again| | |batch|acks c| | |] eqn:El.
  - destruct w; by call_case H.
  - assert (Hs : serve w y = Some y' \/ w = W_default) by (destruct w; auto). destruct Hs as [Hs| ->].
    + pose proof (serve_work _ _ _ Hs) as (_ & -> & _). rewrite El. split; [by eapply serve_calls|done].
    + call_case H. by destruct k.
  - destruct w; try discriminate H. injection H as <-. cbn. by destruct (_ =? _)%nat, again.
  - destruct w; try (apply fmap_Some in H as (y1 & Hs & ->); cbn; split; [by eapply serve_calls|done]); by call_case H.
  - destruct w; try discriminate H. unfold collect in H. by injection H as <-.
  - destruct w; try discriminate H. destruct (length batch =? 0)%nat; [by call_case H|]. destruct (processBatch _ _ _). by injection H as <-.
  - destruct acks as [|[ev ack] acks], w; try discriminate H.
    + call_case H. by destruct c.
    + apply fmap_Some in H as (y1 & H & ->). apply complete_frame in H as (_ & _ & E). by split.
  - destruct w; try discriminate H. unfold collect in H. destruct (length _ =? 0)%nat eqn:En; injection H as <-; [|by split].
    split; [done|]. intros Hu _. cbn. rewrite Hu, unready_prefix in En. apply Nat.eqb_eq, length_zero_iff_nil in En.
    destruct (y_ring y); [done|]. by destruct (Nat.max 1 _) eqn:E; [lia|].
  - destruct w; try discriminate H.
    + destruct (y_views y) eqn:Ev, (y_creates y) eqn:Ec; cbn in H; by call_case H.
    + destruct (y_creates y) as [|c q]; [done|]. call_case H. cbn. by rewrite El.
    + destruct (y_views y) as [|ch q]; [done|]. pose proof (send_frame _ _ _ _ H) as (_ & _ & E).
      apply send_keeps in H as (E1 & _ & _ & _ & E2 & _). cbn in *. by rewrite E2, E1, El, E.
  - destruct w; discriminate H.
Qed.

Lemma loop_settles maxBatch g0 n : forall y tr, (work y < n)%nat -> unready y = [] -> sys_ok g0 y tr -> sys_creates y tr -> tidy y ->
  exists ws y' tr', sys_acts maxBatch (Loop <$> ws) y = Some (y', tr') /\ settled y' = true
    /\ sys_ok g0 y' (tr ++ tr') /\ sys_creates y' (tr ++ tr') /\ tidy y' /\ y_calls y' = y_calls y.
Proof.
  induction n as [|n IH]; intros y tr Hn Hu Hok Hcr Ht; [lia|]. destruct (settled y) eqn:Es.
  - exists [], y, []. rewrite app_nil_r. by split_and!.
  - destruct (loop_goes maxBatch g0 y tr Hok Hcr Es) as (w & y1 & Hw & Hn').
    pose proof (step_works _ _ _ _ Hw) as Hlt. destruct (Run_calls _ _ _ _ Hw) as [Ecalls Ht'].
    assert (Hu' : unready y1 = []) by (unfold unready in *; by rewrite Ecalls).
    destruct (idle w y) eqn:Ei; [specialize (Hn' eq_refl); by rewrite unready_blocked in Hn'|].
    destruct (IH y1 (tr ++ shows maxBatch (Loop w) y)) as (ws & y' & tr' & Hr & Hs & Hok' & Hcr' & Htd & Ec);
      [lia|done|by eapply Run_step_ok|by eapply Run_creates|by apply Ht'|].
    exists (w :: ws), y', (shows maxBatch (Loop w) y ++ tr'). rewrite app_assoc. split_and!; try done; [|by rewrite Ec].
    by eapply loop_runs_app.
Qed.

(** ** Waiting calls *)

Definition waits (pc : Call_pc) : bool :=
  match pc with T_wait _ _ | B_wait _ _ _ _ | A_wait _ _ | R_wait _ _ | V_wait _ => true | _ => false end.
Definition is_read (pc : Call_pc) : bool := match pc with R_wait _ _ => true | _ => false end.

(** A call whose event is no longer on its way has its answer. *)
Lemma has_answer g0 y tr i pc c v : sys_ok g0 y tr -> sys_creates y tr -> y_calls y !! i = Some (pc, c) -> waits pc = true ->
  flying y = [] -> y_creates y = [] -> y_views y = [] -> (y_reads y = [] \/ is_read pc = false) ->
  v_done v = false -> exists y', call_step i v y = Some y'.
Proof.
  intros Hok Hcr Hi Hw Hf Hc Hv Hr Hd. unfold call_step. rewrite Hi.
  pose proof (co_call _ _ _ _ _ _ _ (so_chans _ _ _ Hok) _ _ _ Hi) as Hp.
  destruct pc; try discriminate Hw; cbn [CreateTransfer_step CreateTransfers_step control_step CreateAccounts_step read_step RequestSnapshotView_step]; rewrite ?Hd; cbn [call_ok] in Hp.
  - destruct Hp as [Hin|(_ & a & Ea & _)]; [rewrite Hf in Hin; by apply not_elem_of_nil in Hin|]. rewrite Ea. eauto.
  - destruct (bo_owner _ _ _ _ (so_batches _ _ _ Hok) _ _ _ Hi) as [_ Hs]. cbn [batch_view] in Hs.
    destruct Hs as (bs & Eb & _ & _ & _ & Hrem & Hdone & _). rewrite Eb, Hdone, Hrem, Hf.
    replace (Z.of_nat _) with 0 by (cbn; lia). cbn. eauto.
  - destruct (cr_call _ _ _ _ Hcr _ _ _ Hi) as (e & Ee & _ & Hx). rewrite Ee. cbn.
    destruct Hx as [[_ Hin]|[-> _]]; [rewrite Hc in Hin; by apply not_elem_of_nil in Hin|eauto].
  - destruct Hr as [Hr|Hr]; [|done]. destruct Hp as [Hin|(_ & m & Em & _)]; [rewrite Hr in Hin; by apply not_elem_of_nil in Hin|].
    rewrite Em. eauto.
  - destruct Hp as [Hin|(_ & m & Em)]; [rewrite Hv in Hin; by apply not_elem_of_nil in Hin|]. rewrite Em. eauto.
Qed.

Lemma settled_empty y : settled y = true -> tidy y -> flying y = [] /\ y_creates y = [] /\ y_views y = []
  /\ (y_loop y = L_wait -> y_reads y = []).
Proof.
  unfold settled, tidy, flying, controlPending. destruct (y_loop y) as [|k|again| | |batch|acks c| | |] eqn:El; try done.
  - intros [[_ Hr]%andb_prop Hq]%andb_prop _. apply negb_true_iff, negb_false_iff in Hq.
    apply andb_prop in Hq as [[Hq1 Hq2]%andb_prop Hq3]. rewrite !Nat.eqb_eq, !length_zero_iff_nil in *. by rewrite Hr, Hq1, Hq2, Hq3.
  - intros _ (-> & -> & ->). by split_and!.
Qed.

(** A step of a call moves no other call. *)
Lemma acquire_calls ty k y ch y' : acquire ty k y = Some (ch, y') -> y_calls y' = y_calls y.
Proof. intros H. by apply acquire_frame in H as (_ & _ & ->). Qed.

Lemma other_calls i v y y' j : call_step i v y = Some y' -> i <> j -> y_calls y' !! j = y_calls y !! j.
Proof.
  intros H Hne.
  assert (Hg : forall pc y1, y_calls y1 = y_calls y -> y_calls (goto i pc y1) !! j = y_calls y !! j).
  { intros pc y1 E. cbn. rewrite E. by apply list_lookup_alter_ne. }
  unfold call_step in H. destruct (y_calls y !! i) as [[pc c]|]; [|done].
  destruct (CreateTransfer_step i c v pc y) as [y1|] eqn:ET.
  { injection H as <-. destruct pc; try discriminate ET; cbn [CreateTransfer_step] in ET.
    - call_case ET; by apply Hg.
    - apply bind_Some in ET as ([ch y2] & Ha & ET). injection ET as <-. apply Hg. by eapply acquire_calls.
    - call_case ET; by apply Hg.
    - call_case ET; by apply Hg.
    - call_case ET; by apply Hg.
    - call_case ET; try by apply Hg. apply bind_Some in ET as (ids & _ & ET). call_case ET. by apply Hg. }
  destruct (CreateTransfers_step i c v pc y) as [y1|] eqn:EB.
  { injection H as <-. clear ET. destruct pc; try discriminate EB; cbn [CreateTransfers_step] in EB.
    - call_case EB; by apply Hg.
    - call_case EB; try done; by apply Hg.
    - call_case EB; by apply Hg.
    - call_case EB; by apply Hg.
    - call_case EB; by apply Hg.
    - apply bind_Some in EB as (bs & _ & EB). destruct (bs_results bs !! j0); [|call_case EB; by apply Hg].
      apply bind_Some in EB as (ids & _ & EB). call_case EB. by apply Hg. }
  destruct pc; try discriminate H; cbn [control_step CreateAccounts_step read_step RequestSnapshotView_step] in H.
  - call_case H; by apply Hg.
  - destruct (v_done v); [call_case H; by apply Hg|]. apply bind_Some in H as (e & _ & H). call_case H. by apply Hg.
  - apply bind_Some in H as ([ch y2] & Ha & H). injection H as <-. apply Hg. by eapply acquire_calls.
  - call_case H; by apply Hg.
  - call_case H; by apply Hg.
  - call_case H; by apply Hg.
  - call_case H; by apply Hg.
Qed.
