(* ===== verification/LoopStore.v ===== *)
(** * The store of keys while nothing expires (engine/idempotency.go)

    Within one lifetime of its entries, and with room for all the keys in use,
    the store is a map from keys to reservations and results.  A status says who
    holds a reservation: the item [j] of the call [i]. *)

From S2P Require Import Prelude Core Idempotency IdempotencyProps Engine Requests RequestsProps.

Inductive status : Type :=
| SPre (i j : nat)                            (* reserved, its event not submitted *)
| SFly (i j : nat)                            (* submitted, not yet acknowledged *)
| SAck (i j : nat) (a : TransferAck)          (* acknowledged *)
| SDone (t : Transfer).

Definition owner (s : status) : option (nat * nat) :=
  match s with SPre i j | SFly i j | SAck i j _ => Some (i, j) | _ => None end.
Definition is_done (s : status) : bool := match s with SDone _ => true | _ => false end.

Definition slot_status (x : slot) (s : status) : Prop :=
  match s with
  | SDone t => sl_pending x = false /\ sl_transfer x = t
  | _ => sl_pending x = true
  end.

Section Store.
Context (keys : gset Key) (maxSize ttl start : Z).

(** The clock of the calls stays within one lifetime. *)
Definition in_time (now : Z) : Prop := start <= now < start + ttl.

Record store_ok (ids : IdempotencyStore) (M : gmap Key status) (l : list nat) : Prop := {
  sk_rep : rep ids l;
  sk_max : st_maxSize ids = maxSize;
  sk_ttl : st_ttl ids = ttl;
  sk_slot : forall x, x ∈ view ids l -> start + ttl <= sl_expires x /\ exists s, M !! sl_key x = Some s /\ slot_status x s;
  sk_all : forall k, is_Some (M !! k) -> k ∈ sl_key <$> view ids l;
  sk_keys : dom M ⊆ keys }.
Definition stores (ids : IdempotencyStore) (M : gmap Key status) : Prop := exists l, store_ok ids M l.

Lemma evict_live now L : (forall x, x ∈ L -> start + ttl <= sl_expires x) -> in_time now -> evict now L = L.
Proof using All.
  intros H [_ Hn]. induction L as [|x L IH] using rev_ind; [done|]. rewrite evict_snoc. unfold expired.
  rewrite (proj2 (Z.ltb_lt _ _)); [done|]. specialize (H x ltac:(apply elem_of_app; right; by left)). lia.
Qed.

Lemma drop_key_elem key L x : x ∈ drop_key key L <-> sl_key x <> key /\ x ∈ L.
Proof using All. unfold drop_key. by rewrite list_elem_of_filter. Qed.

Lemma find_key_spec key L : match find_key key L with Some x => x ∈ L /\ sl_key x = key | None => key ∉ sl_key <$> L end.
Proof using All.
  unfold find_key. destruct (list_find _ L) as [[i x]|] eqn:E; cbn.
  - apply list_find_Some in E as (E & Hk & _). split; [by eapply list_elem_of_lookup_2|done].
  - apply list_find_None in E. rewrite Forall_forall in E. intros (x & -> & Hx)%list_elem_of_fmap. by eapply E.
Qed.

Lemma length_keys ids M l : Z.of_nat (size keys) <= maxSize -> store_ok ids M l -> Z.of_nat (length (view ids l)) <= maxSize.
Proof using All.
  intros Hroom Hs. pose proof (keys_distinct _ _ (sk_rep _ _ _ Hs)) as Hn. rewrite <- (length_fmap sl_key).
  pose proof (size_list_to_set (C := gset Key) _ Hn) as Hl. rewrite <- Hl. etrans; [|exact Hroom]. apply inj_le, subseteq_size.
  intros k Hk%elem_of_list_to_set. apply list_elem_of_fmap in Hk as (x & -> & Hx). apply (sk_keys _ _ _ Hs), elem_of_dom.
  destruct (sk_slot _ _ _ Hs x Hx) as (_ & s & -> & _). eauto.
Qed.

(** A new list of slots that follows [M]. *)
Lemma store_new ids M l ids' M' L : store_ok ids M l -> becomes ids ids' L ->
  (forall x, x ∈ L -> start + ttl <= sl_expires x /\ exists s, M' !! sl_key x = Some s /\ slot_status x s) ->
  (forall k, is_Some (M' !! k) -> k ∈ sl_key <$> L) -> dom M' ⊆ keys -> stores ids' M'.
Proof using All.
  intros Hs (l' & Hr & Hv & Hm & Ht) Hx Hk Hd. exists l'. constructor; try done.
  - rewrite Hm. apply Hs.
  - rewrite Ht. apply Hs.
  - by rewrite Hv.
  - by rewrite Hv.
Qed.

(** A slot of [key] in front, the others as they were. *)
Lemma store_front ids M l ids' key s t p e : store_ok ids M l -> key ∈ keys ->
  becomes ids ids' (mkSlot key t p e :: drop_key key (view ids l)) -> start + ttl <= e ->
  slot_status (mkSlot key t p e) s -> stores ids' (<[key := s]> M).
Proof using All.
  intros Hs Hin Hb He Hst. eapply (store_new _ _ _ _ _ _ Hs Hb).
  - intros x [->|Hx]%elem_of_cons; cbn.
    + split; [done|]. exists s. by rewrite lookup_insert_eq.
    + apply drop_key_elem in Hx as [Hne Hx]. rewrite lookup_insert_ne by done. by apply Hs.
  - intros k Hk. rewrite fmap_cons. destruct (decide (k = key)) as [->|Hne]; [by left|]. right.
    rewrite lookup_insert_ne in Hk by done. apply (sk_all _ _ _ Hs) in Hk as (x & -> & Hx)%list_elem_of_fmap.
    apply list_elem_of_fmap_2, drop_key_elem. by split.
  - rewrite dom_insert. pose proof (sk_keys _ _ _ Hs). set_solver.
Qed.

Lemma store_check ids M now key : stores ids M -> in_time now -> key ∈ keys ->
  exists ids', match M !! key with
  | None => CheckAndReserve now key ids = (ids', Ok (zeroTransfer, false)) /\ forall i j, stores ids' (<[key := SPre i j]> M)
  | Some (SDone t) => CheckAndReserve now key ids = (ids', Ok (t, true)) /\ stores ids' M
  | Some _ => CheckAndReserve now key ids = (ids', Err (ErrIdempotencyConflict key)) /\ stores ids' M
  end.
Proof using All.
  intros [l Hs] Hnow Hkey. pose proof (check_ok now key ids l (sk_rep _ _ _ Hs)) as H.
  destruct (CheckAndReserve now key ids) as [ids' r]. exists ids'. unfold spec_check in H.
  pose proof (find_key_spec key (view ids l)) as Hf. destruct (find_key key (view ids l)) as [x|] eqn:Ef.
  - destruct Hf as [Hx Hk]. destruct (sk_slot _ _ _ Hs x Hx) as (He & s & Em & Hst). rewrite Hk in Em. rewrite Em.
    assert (Hsame : becomes ids ids' (view ids l) -> stores ids' M).
    { intros Hb. by apply (store_new _ _ _ _ _ _ Hs Hb); apply Hs. }
    destruct s; cbn in Hst; try (rewrite Hst in H; destruct H as [Hb ->]; split; [done|by apply Hsame]).
    destruct Hst as [Hp Ht]. rewrite Hp in H. destruct (Z.ltb_spec now (sl_expires x)) as [_|Hge]; [|unfold in_time in Hnow; lia].
    destruct H as [Hb ->]. rewrite Ht. split; [done|by apply Hsame].
  - destruct (M !! key) eqn:Em; [destruct Hf; by apply (sk_all _ _ _ Hs); rewrite Em|].
    destruct H as [Hb ->]. split; [done|]. intros i j. rewrite evict_live in Hb by (try done; intros y Hy; by apply Hs).
    rewrite <- (drop_none key (view ids l)) in Hb by done. apply (store_front _ _ _ _ _ _ _ _ _ Hs Hkey Hb); [|done].
    rewrite (sk_ttl _ _ _ Hs). unfold in_time in Hnow. lia.
Qed.

Lemma store_commit ids M now key t ids' : Z.of_nat (size keys) <= maxSize -> stores ids M -> in_time now -> is_Some (M !! key) ->
  Commit now key t ids = Some ids' -> stores ids' (<[key := SDone t]> M).
Proof using All.
  intros Hroom [l Hs] Hnow Hkey Hc. pose proof (commit_ok now key t ids l (sk_rep _ _ _ Hs)) as H.
  assert (Hin : key ∈ keys) by (by apply (sk_keys _ _ _ Hs), elem_of_dom).
  unfold spec_commit, spec_commit_entry in H. rewrite evict_live in H by (try done; intros y Hy; by apply Hs).
  set (L := mkSlot key t false (now + st_ttl ids) :: drop_key key (view ids l)) in *.
  assert (Hlen : Z.of_nat (length L) <= st_maxSize ids).
  { rewrite (sk_max _ _ _ Hs). etrans; [|apply (length_keys _ _ _ Hroom Hs)]. apply inj_le. cbn.
    apply (sk_all _ _ _ Hs) in Hkey as (x & -> & Hx)%list_elem_of_fmap. unfold drop_key.
    apply list_elem_of_split in Hx as (l1 & l2 & ->). rewrite filter_app, filter_cons_False by (intros Hn; by apply Hn).
    rewrite !length_app. cbn. pose proof (length_filter (fun y => sl_key y <> sl_key x) l1).
    pose proof (length_filter (fun y => sl_key y <> sl_key x) l2). lia. }
  assert (Hsh : spec_shrink (length L) (st_maxSize ids) L = Some L).
  { destruct (length L) eqn:El; cbn [spec_shrink]; rewrite El; by rewrite (proj2 (Z.leb_le _ _)). }
  rewrite Hsh in H. destruct H as (s' & Es & Hb). rewrite Hc in Es. injection Es as <-.
  apply (store_front _ _ _ _ _ _ _ _ _ Hs Hin Hb); [|done]. rewrite (sk_ttl _ _ _ Hs). unfold in_time in Hnow. lia.
Qed.

Lemma store_rollback ids M key s : stores ids M -> M !! key = Some s -> is_done s = false -> stores (Rollback key ids) (delete key M).
Proof using All.
  intros [l Hs] Em Hd. pose proof (rollback_ok key ids l (sk_rep _ _ _ Hs)) as Hb. unfold spec_rollback in Hb.
  pose proof (find_key_spec key (view ids l)) as Hf. destruct (find_key key (view ids l)) as [x|] eqn:Ef.
  - destruct Hf as [Hx Hk]. destruct (sk_slot _ _ _ Hs x Hx) as (He & s' & Em' & Hst). rewrite Hk, Em in Em'. injection Em' as <-.
    assert (Hp : sl_pending x = true) by (by destruct s). rewrite Hp in Hb. eapply (store_new _ _ _ _ _ _ Hs Hb).
    + intros y [Hne Hy]%drop_key_elem. rewrite lookup_delete_ne by done. by apply Hs.
    + intros k Hk'. destruct (decide (k = key)) as [->|Hne]; [rewrite lookup_delete_eq in Hk'; by destruct Hk'|].
      rewrite lookup_delete_ne in Hk' by done. apply (sk_all _ _ _ Hs) in Hk' as (y & -> & Hy)%list_elem_of_fmap.
      by apply list_elem_of_fmap_2, drop_key_elem.
    + rewrite dom_delete. pose proof (sk_keys _ _ _ Hs). set_solver.
  - destruct Hf. apply (sk_all _ _ _ Hs). by rewrite Em.
Qed.

(** A reservation changes hands: the store does not see it. *)
Lemma store_relabel ids M key s s' : stores ids M -> M !! key = Some s -> is_done s = false -> is_done s' = false ->
  stores ids (<[key := s']> M).
Proof using All.
  intros [l Hs] Em Hd Hd'. exists l. constructor; try apply Hs.
  - intros x Hx. destruct (sk_slot _ _ _ Hs x Hx) as (He & s0 & E0 & Hst). split; [done|].
    destruct (decide (sl_key x = key)) as [Ek|Hne].
    + exists s'. rewrite Ek, lookup_insert_eq. split; [done|]. rewrite Ek, Em in E0. injection E0 as <-.
      destruct s, s'; done.
    + exists s0. by rewrite lookup_insert_ne.
  - intros k Hk. apply (sk_all _ _ _ Hs). destruct (decide (k = key)) as [->|Hne]; [by rewrite Em|].
    by rewrite lookup_insert_ne in Hk.
  - rewrite dom_insert. pose proof (sk_keys _ _ _ Hs). assert (key ∈ dom M) by (by apply elem_of_dom; rewrite Em). set_solver.
Qed.
End Store.

Lemma store_init keys maxSize ttl start : 0 < maxSize -> 0 < ttl -> Z.of_nat (size keys) <= maxSize ->
  stores keys maxSize ttl start (NewIdempotencyStore maxSize ttl) ∅.
Proof.
  intros Hm Ht Hr. exists []. constructor; cbn; try done.
  - apply new_rep.
  - by rewrite (proj2 (Z.leb_gt _ _)).
  - by rewrite (proj2 (Z.leb_gt _ _)).
  - by intros x ?%not_elem_of_nil.
  - intros k. rewrite lookup_empty. by intros [].
Qed.
