(* ===== verification/LoopKeys.v ===== *)
(** * Idempotency keys in the concurrent system (engine/ledger.go, loop.go)

    Calls reserve keys, the loop applies their events, and the calls settle the
    keys, all interleaved.  While no request is cancelled and no entry leaves the
    store, the invariant gives each key in use one status, so at most one call
    and one event carry it. *)

From S2P Require Import Prelude Core Accounts Transfers Record Wal Idempotency IdempotencyProps Engine Ring Requests RequestsProps.
From S2P Require Import Loop LoopChannels LoopBatches LoopCreates LoopProps LoopLive LoopStore.

(** ** Events and their keys *)

Definition ekey (ev : TransferEvent) : Key := t_IdempotencyKey (te_Transfer ev).
Definition has_key (ev : TransferEvent) : Prop := no_key (te_Transfer ev) = false.
Definition fkeys (evs : list TransferEvent) : list Key := keyed (te_Transfer <$> evs).

Lemma elem_of_keyed k ts : k ∈ keyed ts <-> exists t, t ∈ ts /\ no_key t = false /\ t_IdempotencyKey t = k.
Proof.
  unfold keyed. rewrite list_elem_of_fmap. setoid_rewrite list_elem_of_filter. split.
  - intros (t & -> & H1 & H2). eauto.
  - intros (t & H1 & H2 & <-). eauto.
Qed.
Lemma elem_of_fkeys k evs : k ∈ fkeys evs <-> exists ev, ev ∈ evs /\ has_key ev /\ ekey ev = k.
Proof.
  unfold fkeys. rewrite elem_of_keyed. setoid_rewrite list_elem_of_fmap. split.
  - intros (t & (ev & -> & H) & H1 & H2). eauto.
  - intros (ev & H & H1 & H2). exists (te_Transfer ev). eauto.
Qed.
Lemma keyed_app ts ts' : keyed (ts ++ ts') = keyed ts ++ keyed ts'.
Proof. unfold keyed. by rewrite filter_app, fmap_app. Qed.
Lemma fkeys_app evs evs' : fkeys (evs ++ evs') = fkeys evs ++ fkeys evs'.
Proof. unfold fkeys. by rewrite fmap_app, keyed_app. Qed.

(** Collected or in the ring, and acknowledged but not yet delivered. *)
Definition unacked (y : Sys) : list TransferEvent := waiting_batch (y_loop y) ++ y_ring y.
Definition to_deliver (pc : Run_pc) : list (TransferEvent * TransferAck) := match pc with L_deliver acks _ => acks | _ => [] end.

Lemma flying_split y : flying y = (to_deliver (y_loop y)).*1 ++ unacked y.
Proof. unfold flying, unacked. by destruct (y_loop y) as [|[]| | | | | | | |]. Qed.

(** The successful acknowledgements, and their keys. *)
Definition succeeded (tr : list obs) : list (TransferEvent * TransferAck) := filter (fun p => ack_Err p.2 = None) (acked tr).
Definition skeys (tr : list obs) : list Key := fkeys (succeeded tr).*1.

Lemma elem_of_skeys k tr : k ∈ skeys tr <-> exists ev a, (ev, a) ∈ acked tr /\ ack_Err a = None /\ has_key ev /\ ekey ev = k.
Proof.
  unfold skeys, succeeded. rewrite elem_of_fkeys. split.
  - intros (ev & ([ev' a] & -> & [H1 H2]%list_elem_of_filter)%list_elem_of_fmap & H). eauto.
  - intros (ev & a & H1 & H2 & H). exists ev. split; [|done]. apply (list_elem_of_fmap_2 fst _ (ev, a)). by apply list_elem_of_filter.
Qed.
Lemma skeys_app tr o : skeys (tr ++ o) = skeys tr ++ skeys o.
Proof. unfold skeys, succeeded. by rewrite acked_app, filter_app, fmap_app, fkeys_app. Qed.

(** ** What a call holds *)

(** A reserved item is before its submission, between that and the receipt of
    its acknowledgement, or after. *)
Inductive phase : Type := Pre | Sub (ev : TransferEvent) | Settling (a : TransferAck).

Definition before (j p : nat) : bool := (j <? p)%nat.
#[local] Arguments before : simpl never.
#[local] Arguments cut : simpl never.
Definition slot (pc : Call_pc) (j : nat) : option (Transfer * phase) :=
  match pc with
  | T_acquire t | T_submit t _ => if before 0 j then None else Some (t, Pre)
  | T_publish t ch | T_wait t ch => if before 0 j then None else Some (t, Sub (mkEvent t (Some ch) None 0))
  | T_settle t a => if before 0 j then None else Some (t, Settling a)
  | B_reserve batch _ plan _ _ => t ← queued batch plan !! j; Some (t, Pre)
  | B_submit batch plan b p => t ← queued batch plan !! j; Some (t, if before j p then Sub (batch_event t b j) else Pre)
  | B_publish batch plan b p => t ← queued batch plan !! j; Some (t, if before j (S p) then Sub (batch_event t b j) else Pre)
  | B_tail batch plan b p k =>
      t ← queued batch plan !! j;
      if before j p then Some (t, Sub (batch_event t b j)) else if before j k then None else Some (t, Pre)
  | B_wait batch plan b stop => t ← queued batch plan !! j; if cut stop j then None else Some (t, Sub (batch_event t b j))
  | B_settle batch plan b n stop =>
      t ← queued batch plan !! j; if before j n || cut stop j then None else Some (t, Sub (batch_event t b j))
  | _ => None
  end.

(** The acknowledgement has reached the call. *)
Definition delivered (y : Sys) (ev : TransferEvent) (a : TransferAck) : Prop :=
  match te_batch ev with
  | Some b => exists bs, y_batches y !! b = Some bs /\ bs_results bs !! te_index ev = Some a
  | None => exists ch, te_Result ev = Some ch /\ y_chans y !! ch = Some (Some (MAck a))
  end.

Definition slot_ok (y : Sys) (M : gmap Key status) (i j : nat) (t : Transfer) (ph : phase) : Prop :=
  let k := t_IdempotencyKey t in
  match ph with
  | Pre => M !! k = Some (SPre i j)
  | Sub ev => M !! k = Some (SFly i j) /\ ev ∈ unacked y
      \/ exists a, M !! k = Some (SAck i j a)
         /\ ((ev, a) ∈ to_deliver (y_loop y) \/ delivered y ev a /\ k ∉ fkeys (flying y))
  | Settling a => M !! k = Some (SAck i j a) /\ k ∉ fkeys (flying y)
  end.

(** [x] answers the key [k]: a successful acknowledgement carries it. *)
Definition answers (tr : list obs) (k : Key) (x : Transfer) : Prop :=
  exists ev a, (ev, a) ∈ acked tr /\ ack_Err a = None /\ ekey ev = k /\ x = ack_Transfer a.

(** An acknowledgement has the key of its event, or failed and has none. *)
Definition ack_keyed (k : Key) (a : TransferAck) : Prop :=
  t_IdempotencyKey (ack_Transfer a) = k \/ ack_Err a <> None /\ no_key (ack_Transfer a) = true.

Definition status_ok (tr : list obs) (k : Key) (s : status) : Prop :=
  match s with
  | SAck _ _ a => ack_keyed k a /\ (ack_Err a = None -> answers tr k (ack_Transfer a))
  | SDone x => answers tr k x
  | _ => True
  end.
Definition ok_status (s : status) : Prop := match s with SAck _ _ a => ack_Err a = None | SDone _ => True | _ => False end.

Lemma answers_mono tr o k x : answers tr k x -> answers (tr ++ o) k x.
Proof. intros (ev & a & H & ?). exists ev, a. split; [|done]. rewrite acked_app. apply elem_of_app. by left. Qed.
Lemma status_mono tr o k s : status_ok tr k s -> status_ok (tr ++ o) k s.
Proof. destruct s; cbn; try done; [intros [? H]; split; [done|]; intros ?|]; by apply answers_mono; auto. Qed.

(** The channel or the batch state a submitted item waits on. *)
Lemma slot_sub pc j t ev : slot pc j = Some (t, Sub ev) -> te_Transfer ev = t
  /\ (te_batch ev = None /\ (exists ch, te_Result ev = Some ch /\ ch ∈ held pc)
      \/ (exists b, te_batch ev = Some b /\ te_index ev = j /\ exists evs p, batch_view pc = Some (b, evs, p) /\ evs !! j = Some t)).
Proof.
  destruct pc; try done; cbn [slot]; intros H.
  - by destruct (before 0 j).
  - by destruct (before 0 j).
  - destruct (before 0 j); [done|]. injection H as <- <-. split; [done|]. left. split; [done|]. exists ch. split; [done|by left].
  - destruct (before 0 j); [done|]. injection H as <- <-. split; [done|]. left. split; [done|]. exists ch. split; [done|by left].
  - by destruct (before 0 j).
  - apply bind_Some in H as (t' & _ & H). done.
  - apply bind_Some in H as (t' & Et & H). destruct (before j j0); [|done]. injection H as <- <-.
    split; [done|]. right. exists b. split_and!; [done|done|]. cbn [batch_view]. eauto.
  - apply bind_Some in H as (t' & Et & H). destruct (before j (S j0)); [|done]. injection H as <- <-.
    split; [done|]. right. exists b. split_and!; [done|done|]. cbn [batch_view]. eauto.
  - apply bind_Some in H as (t' & Et & H). destruct (before j j0); [|by destruct (before j k)]. injection H as <- <-.
    split; [done|]. right. exists b. split_and!; [done|done|]. cbn [batch_view]. eauto.
  - apply bind_Some in H as (t' & Et & H). destruct (cut stop j); [done|]. injection H as <- <-.
    split; [done|]. right. exists b. split_and!; [done|done|]. cbn [batch_view]. eauto.
  - apply bind_Some in H as (t' & Et & H). destruct (before j j0 || cut stop j); [done|]. injection H as <- <-.
    split; [done|]. right. exists b. split_and!; [done|done|]. cbn [batch_view]. eauto.
Qed.

(** An item stays as it is when its key's status, its event and its answer do. *)
Lemma slot_frame y y' M M' i j t ph : slot_ok y M i j t ph ->
  M' !! t_IdempotencyKey t = M !! t_IdempotencyKey t ->
  (forall ev, ev ∈ unacked y -> ev ∈ unacked y') -> to_deliver (y_loop y') = to_deliver (y_loop y) ->
  (t_IdempotencyKey t ∉ fkeys (flying y) -> t_IdempotencyKey t ∉ fkeys (flying y')) ->
  (forall ev a, ph = Sub ev -> delivered y ev a -> delivered y' ev a) ->
  slot_ok y' M' i j t ph.
Proof.
  unfold slot_ok. intros H Em Hu Hd Hf Hdl. rewrite Em. destruct ph as [|ev|a]; [done| |destruct H as [H1 H2]; by split; [|apply Hf]].
  destruct H as [[H1 H2]|(a & H1 & [H2|[H2 H3]])]; [left; by split; [|apply Hu]|right; exists a; (split; [done|])..].
  - left. by rewrite Hd.
  - right. split; [by eapply Hdl|by apply Hf].
Qed.

(** ** The invariant *)

Section Keys.
Context (keys : gset Key) (maxSize ttl start : Z).

Definition known (t : Transfer) : Prop := no_key t = false -> t_IdempotencyKey t ∈ keys.

Definition pc_ok (tr : list obs) (pc : Call_pc) : Prop :=
  match pc with
  | T_reserve t => known t
  | T_return t (Some (Ok x)) => no_key t = false -> answers tr (t_IdempotencyKey t) x
  | B_reserve batch todo plan _ _ => drop (length plan) batch = todo /\ forall t, t ∈ todo -> known t
  | _ => True
  end.

Record keys_ok (y : Sys) (tr : list obs) (M : gmap Key status) : Prop := {
  ko_store : stores keys maxSize ttl start (y_ids y) M;
  ko_calls : forall i pc c, y_calls y !! i = Some (pc, c) -> c = false /\ pc_ok tr pc;
  ko_slots : forall i pc c j t ph, y_calls y !! i = Some (pc, c) -> slot pc j = Some (t, ph) -> no_key t = false -> slot_ok y M i j t ph;
  ko_fly : NoDup (fkeys (flying y));
  ko_unacked : forall ev, ev ∈ unacked y -> has_key ev -> exists i j, M !! ekey ev = Some (SFly i j);
  ko_deliver : forall ev a, (ev, a) ∈ to_deliver (y_loop y) -> has_key ev -> exists i j, M !! ekey ev = Some (SAck i j a);
  ko_status : forall k s, M !! k = Some s -> status_ok tr k s;
  ko_acks : forall ev a, (ev, a) ∈ acked tr -> ack_keyed (ekey ev) a;
  ko_once : NoDup (skeys tr);
  ko_success : forall k, k ∈ skeys tr -> exists s, M !! k = Some s /\ ok_status s }.

Lemma pc_mono tr o pc : pc_ok tr pc -> pc_ok (tr ++ o) pc.
Proof using Type. destruct pc; cbn; try done. destruct r as [[x|]|]; try done. intros H Hk. by apply answers_mono, H. Qed.

(** The status of a flying event's key. *)
Lemma flying_status y tr M k : keys_ok y tr M -> k ∈ fkeys (flying y) ->
  exists i j, M !! k = Some (SFly i j) \/ exists a, M !! k = Some (SAck i j a).
Proof using Type.
  intros Hok (ev & Hin & Hk & <-)%elem_of_fkeys. rewrite flying_split in Hin. apply elem_of_app in Hin as [Hin|Hin].
  - apply list_elem_of_fmap in Hin as ([ev' a] & -> & Hin). destruct (ko_deliver _ _ _ Hok _ _ Hin Hk) as (i & j & H). exists i, j. eauto.
  - destruct (ko_unacked _ _ _ Hok _ Hin Hk) as (i & j & H). exists i, j. by left.
Qed.

(** The channels and batch states of other calls. *)
Lemma held_apart g y tr i j pc pc2 c c2 ch : sys_ok g y tr -> y_calls y !! i = Some (pc, c) -> y_calls y !! j = Some (pc2, c2) ->
  j <> i -> ch ∈ held pc2 -> ch ∉ held pc.
Proof using Type.
  intros Hs Hi Hj Hne Hh Hh'. destruct (helds_split _ _ _ _ Hi) as (rest & E1 & _ & E3).
  pose proof (co_owned _ _ _ _ _ _ _ (so_chans _ _ _ Hs)) as Hn. rewrite E1 in Hn.
  apply NoDup_app in Hn as (_ & _ & Hn). apply NoDup_app in Hn as (_ & Hn & _). apply (Hn ch Hh'). by eapply E3.
Qed.

(** A step of the call [i]: the statuses change at keys it owns or reserves. *)
Lemma keys_call g y tr M i pc pc' y' M' evs o : sys_ok g y tr -> keys_ok y tr M -> y_calls y !! i = Some (pc, false) ->
  y_calls y' = alter (fun c : Call_pc * bool => (pc', c.2)) i (y_calls y) -> y_loop y' = y_loop y -> y_ring y' = y_ring y ++ evs ->
  acked o = [] ->
  (forall ch m, ch ∉ held pc -> y_chans y !! ch = Some (Some m) -> y_chans y' !! ch = Some (Some m)) ->
  (forall b bs, b ∉ owned pc -> y_batches y !! b = Some bs -> y_batches y' !! b = Some bs) ->
  (forall k, M' !! k = M !! k \/ (k ∉ fkeys (flying y)) /\ forall s, M !! k = Some s -> exists j, owner s = Some (i, j)) ->
  (evs = [] \/ exists ev, evs = [ev] /\ (has_key ev -> (ekey ev ∉ fkeys (flying y)) /\ exists j, M' !! ekey ev = Some (SFly i j))) ->
  stores keys maxSize ttl start (y_ids y') M' ->
  (forall k s, M' !! k = Some s -> M !! k = Some s \/ status_ok tr k s) ->
  (forall k s, M !! k = Some s -> ok_status s -> exists s', M' !! k = Some s' /\ ok_status s') ->
  pc_ok tr pc' ->
  (forall j t ph, slot pc' j = Some (t, ph) -> no_key t = false -> slot_ok y' M' i j t ph) ->
  keys_ok y' (tr ++ o) M'.
Proof using Type.
  intros Hs Hok Hi Ec El Er Eo Hch Hb HM Hev Hst Hnew Hsucc Hpc Hsl.
  assert (Eu : unacked y' = unacked y ++ evs) by (unfold unacked; by rewrite El, Er, app_assoc).
  assert (Ef : flying y' = flying y ++ evs) by (unfold flying; by rewrite El, Er, app_assoc).
  assert (Ea : acked (tr ++ o) = acked tr) by (by rewrite acked_app, Eo, app_nil_r).
  assert (Ek : skeys (tr ++ o) = skeys tr) by (unfold skeys, succeeded; by rewrite Ea).
  assert (Hkeep : forall k i2 j2 s, M !! k = Some s -> owner s = Some (i2, j2) -> i2 <> i -> M' !! k = M !! k).
  { intros k i2 j2 s Em Eow Hne. destruct (HM k) as [E|[_ H]]; [done|]. destruct (H s Em) as (j & E). congruence. }
  constructor; try done.
  - intros j pc2 c2 Hj. rewrite Ec in Hj. apply calls_alter in Hj as Hj'. destruct Hj' as [[-> ->]|[Hne Hj']].
    + rewrite list_lookup_alter_eq, Hi in Hj. injection Hj as <-. split; [done|by apply pc_mono].
    + destruct (ko_calls _ _ _ Hok _ _ _ Hj') as [-> H]. split; [done|by apply pc_mono].
  - intros i2 pc2 c2 j t ph Hj Hslot Hkey. rewrite Ec in Hj. apply calls_alter in Hj as [[-> ->]|[Hne Hj]]; [by apply Hsl|].
    pose proof (ko_slots _ _ _ Hok _ _ _ _ _ _ Hj Hslot Hkey) as Hso.
    assert (Hown : exists s, M !! t_IdempotencyKey t = Some s /\ owner s = Some (i2, j)).
    { destruct ph as [|ev|a]; cbn in Hso; [|destruct Hso as [[Hso _]|(a & Hso & _)]|destruct Hso as [Hso _]]; rewrite Hso; eauto. }
    destruct Hown as (s & Em & Eow). pose proof (Hkeep _ _ _ _ Em Eow Hne) as Em'.
    eapply slot_frame; [exact Hso|done| | | |].
    + intros ev Hin. rewrite Eu. apply elem_of_app. by left.
    + by rewrite El.
    + intros Hn. rewrite Ef, fkeys_app, not_elem_of_app. split; [done|]. intros (ev & Hin & Hk & He)%elem_of_fkeys.
      destruct Hev as [->|(ev' & -> & Hev)]; [by apply not_elem_of_nil in Hin|]. apply list_elem_of_singleton in Hin as ->.
      destruct (Hev Hk) as (_ & j' & Hm). rewrite He, Em', Em in Hm. injection Hm as ->. cbn in Eow. congruence.
    + intros ev a -> Hdl. destruct (slot_sub _ _ _ _ Hslot) as (_ & Hw). unfold delivered in *.
      destruct Hw as [(Eb & ch & Ech & Hh)|(b & Eb & _ & evs' & p & Ev & _)]; rewrite Eb in *.
      * destruct Hdl as (ch' & Ech' & Hm). exists ch'. split; [done|]. apply Hch; [|done].
        rewrite Ech in Ech'. injection Ech' as <-. by eapply held_apart.
      * destruct Hdl as (bs & Ebs & Hr). exists bs. split; [|done]. apply Hb; [|done]. intros Hin. apply Hne.
        eapply (bo_unique _ _ _ _ (so_batches _ _ _ Hs)); [exact Hj|exact Hi| |exact Hin]. apply elem_of_owned. eauto.
  - rewrite Ef, fkeys_app. apply NoDup_app. split; [apply Hok|]. destruct Hev as [->|(ev & -> & Hev)].
    + split; [|constructor]. intros k _. apply not_elem_of_nil.
    + split.
      * intros k Hk (ev' & Hin & Hk' & <-)%elem_of_fkeys. apply list_elem_of_singleton in Hin as ->. by destruct (Hev Hk').
      * unfold fkeys, keyed. cbn [fmap list_fmap]. destruct (decide (no_key (te_Transfer ev) = false)).
        -- rewrite filter_cons_True by done. cbn. apply NoDup_singleton.
        -- rewrite filter_cons_False by done. constructor.
  - rewrite Eu. intros ev [Hin|Hin]%elem_of_app Hk.
    + destruct (ko_unacked _ _ _ Hok ev Hin Hk) as (i2 & j & Em). exists i2, j. destruct (HM (ekey ev)) as [->|[Hn _]]; [done|].
      destruct Hn. rewrite flying_split, fkeys_app. apply elem_of_app. right. apply elem_of_fkeys. eauto.
    + destruct Hev as [->|(ev' & -> & Hev)]; [by apply not_elem_of_nil in Hin|]. apply list_elem_of_singleton in Hin as ->.
      destruct (Hev Hk) as (_ & j & Hm). eauto.
  - rewrite El. intros ev a Hin Hk. destruct (ko_deliver _ _ _ Hok ev a Hin Hk) as (i2 & j & Em). exists i2, j.
    destruct (HM (ekey ev)) as [->|[Hn _]]; [done|]. destruct Hn. rewrite flying_split, fkeys_app. apply elem_of_app. left.
    apply elem_of_fkeys. exists ev. split; [|done]. by apply (list_elem_of_fmap_2 fst _ (ev, a)).
  - intros k s Hm. apply status_mono. destruct (Hnew k s Hm) as [H|H]; [by apply Hok|done].
  - rewrite Ea. apply Hok.
  - rewrite Ek. apply Hok.
  - rewrite Ek. intros k Hk. destruct (ko_success _ _ _ Hok k Hk) as (s & Em & Hs'). by eapply Hsucc.
Qed.

(** Without a change of the statuses. *)
Lemma keys_same g y tr M i pc pc' y' o : sys_ok g y tr -> keys_ok y tr M -> y_calls y !! i = Some (pc, false) ->
  y_calls y' = alter (fun c : Call_pc * bool => (pc', c.2)) i (y_calls y) -> y_loop y' = y_loop y -> y_ring y' = y_ring y ->
  acked o = [] ->
  (forall ch m, ch ∉ held pc -> y_chans y !! ch = Some (Some m) -> y_chans y' !! ch = Some (Some m)) ->
  (forall b bs, b ∉ owned pc -> y_batches y !! b = Some bs -> y_batches y' !! b = Some bs) ->
  stores keys maxSize ttl start (y_ids y') M -> pc_ok tr pc' ->
  (forall j t ph, slot pc' j = Some (t, ph) -> no_key t = false -> slot_ok y' M i j t ph) ->
  keys_ok y' (tr ++ o) M.
Proof using Type.
  intros Hs Hok Hi Ec El Er Eo Hch Hb Hst Hpc Hsl.
  apply (keys_call g y tr M i pc pc' y' M [] o); try done; [by rewrite app_nil_r|by left|by left|by left|by eauto].
Qed.

(** The status of one key that the call owns changes. *)
Definition owns (M : gmap Key status) (i : nat) (k : Key) : Prop := forall s, M !! k = Some s -> exists j, owner s = Some (i, j).

Lemma change_insert y M i k0 s0 : (k0 ∉ fkeys (flying y)) -> owns M i k0 -> forall k, <[k0 := s0]> M !! k = M !! k
  \/ (k ∉ fkeys (flying y)) /\ forall s, M !! k = Some s -> exists j, owner s = Some (i, j).
Proof using Type.
  intros Hn Ho k. destruct (decide (k = k0)) as [->|Hne]; [by right|left]. by apply lookup_insert_ne.
Qed.
Lemma change_delete y M i k0 : (k0 ∉ fkeys (flying y)) -> owns M i k0 -> forall k, delete k0 M !! k = M !! k
  \/ (k ∉ fkeys (flying y)) /\ forall s, M !! k = Some s -> exists j, owner s = Some (i, j).
Proof using Type.
  intros Hn Ho k. destruct (decide (k = k0)) as [->|Hne]; [by right|left]. by apply lookup_delete_ne.
Qed.

(** A key that is not flying: absent, or reserved, or its answer arrived. *)
Lemma absent_grounded y tr M k : keys_ok y tr M -> M !! k = None -> k ∉ fkeys (flying y).
Proof using Type. intros Hok Em Hin. destruct (flying_status _ _ _ _ Hok Hin) as (i & j & [E|(a & E)]); congruence. Qed.
Lemma pre_grounded y tr M k i j : keys_ok y tr M -> M !! k = Some (SPre i j) -> k ∉ fkeys (flying y).
Proof using Type. intros Hok Em Hin. destruct (flying_status _ _ _ _ Hok Hin) as (i' & j' & [E|(a & E)]); congruence. Qed.

(** The keys given back by a call. *)
Lemma keys_drop g y tr M i pc pc' y' k0 s0 o : sys_ok g y tr -> keys_ok y tr M -> y_calls y !! i = Some (pc, false) ->
  y_calls y' = alter (fun c : Call_pc * bool => (pc', c.2)) i (y_calls y) -> y_loop y' = y_loop y -> y_ring y' = y_ring y ->
  acked o = [] ->
  (forall ch m, ch ∉ held pc -> y_chans y !! ch = Some (Some m) -> y_chans y' !! ch = Some (Some m)) ->
  (forall b bs, b ∉ owned pc -> y_batches y !! b = Some bs -> y_batches y' !! b = Some bs) ->
  M !! k0 = Some s0 -> (exists j, owner s0 = Some (i, j)) -> ~ ok_status s0 -> (k0 ∉ fkeys (flying y)) ->
  y_ids y' = Rollback k0 (y_ids y) -> pc_ok tr pc' ->
  (forall j t ph, slot pc' j = Some (t, ph) -> no_key t = false -> slot_ok y' (delete k0 M) i j t ph) ->
  keys_ok y' (tr ++ o) (delete k0 M).
Proof using Type.
  intros Hs Hok Hi Ec El Er Eo Hch Hb Em Ho Hns Hf Eid Hpc Hsl.
  apply (keys_call g y tr M i pc pc' y' (delete k0 M) [] o); try done.
  - by rewrite app_nil_r.
  - apply change_delete; [done|]. intros s E. rewrite Em in E. by injection E as <-.
  - by left.
  - rewrite Eid. eapply store_rollback; [apply Hok|exact Em|]. destruct Ho as [j Ho]. by destruct s0.
  - intros k s [_ E]%lookup_delete_Some. by left.
  - intros k s E Hks. exists s. split; [|done]. apply lookup_delete_Some. split; [|done]. intros ->. congruence.
Qed.

Lemma acked_calls m i v y : acked (shows m (Step i v) y) = [].
Proof using Type.
  cbn [shows]. destruct (y_calls y !! i) as [[pc c]|]; [|done]. destruct pc; try done; [by destruct (v_refuse v)|].
  destruct (_ !! _); [|done]. by destruct (v_refuse v).
Qed.

(** Acquire changes the pool, or adds an empty channel. *)
Lemma acquire_parts ty k y ch y' : acquire ty k y = Some (ch, y') ->
  y_calls y' = y_calls y /\ y_ids y' = y_ids y /\ y_batches y' = y_batches y /\ y_loop y' = y_loop y /\ y_ring y' = y_ring y
  /\ forall c m, y_chans y !! c = Some m -> y_chans y' !! c = Some m.
Proof using Type.
  unfold acquire. intros H. destruct k as [k|].
  - destruct (y_pool y !! k) as [[ty' c]|]; [|done]. destruct (decide _); [|done]. by injection H as <- <-.
  - injection H as <- <-. split_and!; try done. intros c m E. cbn. by apply lookup_app_l_Some.
Qed.

(** The four moves of a key: reserved, submitted, given back, settled. *)
Lemma keys_reserve g y tr M i pc pc' k j ids' o : sys_ok g y tr -> keys_ok y tr M -> y_calls y !! i = Some (pc, false) ->
  acked o = [] -> M !! k = None -> stores keys maxSize ttl start ids' (<[k := SPre i j]> M) -> pc_ok tr pc' ->
  (forall j' t ph, slot pc' j' = Some (t, ph) -> no_key t = false ->
     slot_ok (goto i pc' (set_ids' ids' y)) (<[k := SPre i j]> M) i j' t ph) ->
  keys_ok (goto i pc' (set_ids' ids' y)) (tr ++ o) (<[k := SPre i j]> M).
Proof using Type.
  intros Hs Hok Hi Eo Em Hst Hpc Hsl. pose proof (absent_grounded _ _ _ _ Hok Em) as Hg.
  eapply (keys_call g y tr M i pc pc' _ _ []); try done.
  - by rewrite app_nil_r.
  - apply change_insert; [done|]. intros s. by rewrite Em.
  - by left.
  - intros k' s [[<- <-]|[_ Hm]]%lookup_insert_Some; [by right|by left].
  - intros k' s Hm Hks. exists s. split; [|done]. rewrite lookup_insert_ne; [done|congruence].
Qed.

Lemma keys_submit g y tr M i pc pc' ev j o : sys_ok g y tr -> keys_ok y tr M -> y_calls y !! i = Some (pc, false) ->
  acked o = [] -> M !! ekey ev = Some (SPre i j) -> pc_ok tr pc' ->
  (forall j' t ph, slot pc' j' = Some (t, ph) -> no_key t = false ->
     slot_ok (goto i pc' (set_ring (y_ring y ++ [ev]) y)) (<[ekey ev := SFly i j]> M) i j' t ph) ->
  keys_ok (goto i pc' (set_ring (y_ring y ++ [ev]) y)) (tr ++ o) (<[ekey ev := SFly i j]> M).
Proof using Type.
  intros Hs Hok Hi Eo Hm Hpc Hsl. pose proof (pre_grounded _ _ _ _ _ _ Hok Hm) as Hg.
  eapply (keys_call g y tr M i pc pc' _ _ [ev]); try done.
  - apply change_insert; [done|]. intros s E. rewrite Hm in E. injection E as <-. by eexists.
  - right. exists ev. split; [done|]. intros _. split; [done|]. exists j. apply lookup_insert_eq.
  - eapply store_relabel; [apply Hok|exact Hm|done|done].
  - intros k s [[<- <-]|[_ E]]%lookup_insert_Some; [by right|by left].
  - intros k s E Hks. exists s. split; [|done]. rewrite lookup_insert_ne; [done|]. intros <-. by rewrite Hm in E; injection E as <-.
Qed.
Lemma keys_submit_plain g y tr M i pc pc' ev o : sys_ok g y tr -> keys_ok y tr M -> y_calls y !! i = Some (pc, false) ->
  acked o = [] -> no_key (te_Transfer ev) = true -> pc_ok tr pc' ->
  (forall j' t ph, slot pc' j' = Some (t, ph) -> no_key t = false -> slot_ok (goto i pc' (set_ring (y_ring y ++ [ev]) y)) M i j' t ph) ->
  keys_ok (goto i pc' (set_ring (y_ring y ++ [ev]) y)) (tr ++ o) M.
Proof using Type.
  intros Hs Hok Hi Eo Hk Hpc Hsl. eapply (keys_call g y tr M i pc pc' _ M [ev]); try done; try apply Hok.
  - by left.
  - right. exists ev. split; [done|]. unfold has_key. congruence.
  - by left.
  - by eauto.
Qed.

Lemma keys_done g y tr M i pc pc' k j a now ids' o : Z.of_nat (size keys) <= maxSize -> sys_ok g y tr -> keys_ok y tr M ->
  y_calls y !! i = Some (pc, false) -> acked o = [] -> in_time ttl start now ->
  M !! k = Some (SAck i j a) -> ack_Err a = None -> (k ∉ fkeys (flying y)) ->
  Commit now k (ack_Transfer a) (y_ids y) = Some ids' -> pc_ok tr pc' ->
  (forall j' t ph, slot pc' j' = Some (t, ph) -> no_key t = false ->
     slot_ok (goto i pc' (set_ids' ids' y)) (<[k := SDone (ack_Transfer a)]> M) i j' t ph) ->
  keys_ok (goto i pc' (set_ids' ids' y)) (tr ++ o) (<[k := SDone (ack_Transfer a)]> M).
Proof using Type.
  intros Hroom Hs Hok Hi Eo Hnow Hm Ee Hf Hc Hpc Hsl. destruct (ko_status _ _ _ Hok _ _ Hm) as [_ Hans].
  eapply (keys_call g y tr M i pc pc' _ _ []); try done.
  - by rewrite app_nil_r.
  - apply change_insert; [done|]. intros s E. rewrite Hm in E. injection E as <-. by eexists.
  - by left.
  - eapply store_commit; [exact Hroom|apply Hok|exact Hnow| |exact Hc]. by rewrite Hm.
  - intros k' s [[<- <-]|[_ E]]%lookup_insert_Some; [right; by apply Hans|by left].
  - intros k' s E Hks. destruct (decide (k' = k)) as [->|Hne].
    + rewrite lookup_insert_eq. by eexists.
    + exists s. by rewrite lookup_insert_ne.
Qed.

(** CreateTransfer holds one item. *)
Lemma slot_first (x : option (Transfer * phase)) j t ph : (if before 0 j then None else x) = Some (t, ph) -> j = 0%nat /\ x = Some (t, ph).
Proof using Type. unfold before. destruct (Nat.ltb_spec 0 j); [done|]. intros E. split; [lia|done]. Qed.

Section T_steps.
Context (g : Engine) (y : Sys) (tr : list obs) (M : gmap Key status) (i : nat) (v : call_env) (o : list obs).
Context (Hroom : Z.of_nat (size keys) <= maxSize) (Hs : sys_ok g y tr) (Hok : keys_ok y tr M).
Context (Hnow : in_time ttl start (v_now v)) (Eo : acked o = []).

Lemma T_reserve_keys t y' : y_calls y !! i = Some (T_reserve t, false) -> CreateTransfer_step i false v (T_reserve t) y = Some y' ->
  exists M', keys_ok y' (tr ++ o) M'.
Proof using Hs Hok Hnow Eo.
  intros Hi H. cbn [CreateTransfer_step] in H. destruct (ko_calls _ _ _ Hok _ _ _ Hi) as [_ Hp]. destruct (no_key t) eqn:Ek.
  { injection H as <-. exists M. apply (keys_same g y tr M i (T_reserve t) (T_acquire t)); try done; [apply Hok|].
    intros j t' ph [_ [= <- <-]]%slot_first Hk'. congruence. }
  destruct (store_check keys maxSize ttl start _ M (v_now v) (t_IdempotencyKey t) (ko_store _ _ _ Hok) Hnow (Hp Ek)) as (ids' & Hck).
  destruct (M !! t_IdempotencyKey t) as [s|] eqn:Em.
  - destruct s as [i2 j2|i2 j2|i2 j2 a|x]; destruct Hck as [E Hst]; rewrite E in H; injection H as <-; exists M;
      eapply keys_same; try done; try exact Hp. cbn. intros _. by apply (ko_status _ _ _ Hok _ _ Em).
  - destruct Hck as [E Hst]. rewrite E in H. injection H as <-. exists (<[t_IdempotencyKey t := SPre i 0]> M).
    eapply keys_reserve; try done. intros j t' ph [-> [= <- <-]]%slot_first _. cbn. apply lookup_insert_eq.
Qed.

Lemma T_submit_keys t ch y' : y_calls y !! i = Some (T_submit t ch, false) ->
  CreateTransfer_step i false v (T_submit t ch) y = Some y' -> exists M', keys_ok y' (tr ++ o) M'.
Proof using Hs Hok Eo.
  intros Hi H. cbn [CreateTransfer_step] in H. pose proof (fun ph => ko_slots _ _ _ Hok i _ false 0%nat t ph Hi) as Hsl.
  destruct (v_refuse v); injection H as <-.
  - unfold rollback_key. destruct (no_key t) eqn:Ek.
    + exists M. eapply (keys_same g y tr M i (T_submit t ch)); try done. apply Hok.
    + exists (delete (t_IdempotencyKey t) M). pose proof (Hsl Pre eq_refl eq_refl) as Hm. cbn in Hm.
      eapply (keys_drop g y tr M i (T_submit t ch)); try done; cbn; eauto. by eapply pre_grounded.
  - set (ev := mkEvent t (Some ch) None 0). destruct (no_key t) eqn:Ek.
    + exists M. eapply (keys_submit_plain g y tr M i (T_submit t ch) (T_publish t ch) ev); try done.
      intros j t' ph [_ [= <- <-]]%slot_first Hk'. congruence.
    + exists (<[t_IdempotencyKey t := SFly i 0]> M).
      eapply (keys_submit g y tr M i (T_submit t ch) (T_publish t ch) ev); try done; [by apply (Hsl Pre)|].
      intros j t' ph [-> [= <- <-]]%slot_first _. left. split; [apply lookup_insert_eq|]. unfold unacked. cbn.
      rewrite !elem_of_app. right; right. by left.
Qed.

Lemma T_receive_keys t ch y' : y_calls y !! i = Some (T_wait t ch, false) ->
  CreateTransfer_step i false v (T_wait t ch) y = Some y' -> exists M', keys_ok y' (tr ++ o) M'.
Proof using Hs Hok Eo.
  intros Hi H. cbn [CreateTransfer_step] in H. pose proof (fun ph => ko_slots _ _ _ Hok i _ false 0%nat t ph Hi) as Hsl.
  destruct (v_done v); [done|]. destruct (y_chans y !! ch) as [[[a| | | |]|]|] eqn:Em; try discriminate H. injection H as <-.
  exists M. apply (keys_same g y tr M i (T_wait t ch) (T_settle t a)); try done.
  - intros ch' m' Hn E. cbn. rewrite list_lookup_insert_ne; [done|]. intros ->. apply Hn. by left.
  - apply Hok.
  - intros j t' ph [-> [= <- <-]]%slot_first Hk. pose proof (Hsl _ eq_refl Hk) as Hso. cbn in Hso |- *.
    assert (Hnf : mkEvent t (Some ch) None 0 ∉ flying y).
    { intros Hin. assert (Hx : ch ∈ in_flight (flying y) (y_reads y) (y_views y)) by (apply elem_of_in_flight; left; eauto).
      apply (co_empty _ _ _ _ _ _ _ (so_chans _ _ _ Hs)) in Hx. congruence. }
    rewrite flying_split in Hnf. apply not_elem_of_app in Hnf as [Hn1 Hn2].
    destruct Hso as [[_ Hin]|(a' & Hm & [Hin|[Hd Hf]])]; [done| |].
    + destruct Hn1. by apply (list_elem_of_fmap_2 fst _ (mkEvent t (Some ch) None 0, a')).
    + cbn in Hd. destruct Hd as (ch' & [= <-] & Hd). rewrite Em in Hd. injection Hd as ->. by split.
Qed.

Lemma T_settle_keys t ack y' : y_calls y !! i = Some (T_settle t ack, false) ->
  CreateTransfer_step i false v (T_settle t ack) y = Some y' -> exists M', keys_ok y' (tr ++ o) M'.
Proof using Hroom Hs Hok Hnow Eo.
  intros Hi H. cbn [CreateTransfer_step] in H. unfold rollback_key in H. destruct (no_key t) eqn:Ek.
  { exists M. destruct (ack_Err ack); injection H as <-; eapply (keys_same g y tr M i (T_settle t ack)); try done; try apply Hok.
    cbn. congruence. }
  destruct (ko_slots _ _ _ Hok i _ false 0%nat t (Settling ack) Hi eq_refl Ek) as [Hm Hf].
  destruct (ko_status _ _ _ Hok _ _ Hm) as [_ Hans]. destruct (ack_Err ack) as [e|] eqn:Ee.
  - injection H as <-. exists (delete (t_IdempotencyKey t) M).
    eapply (keys_drop g y tr M i (T_settle t ack) (T_return t (Some (Err e)))); try done; [by eexists|cbn; congruence].
  - apply bind_Some in H as (ids' & Hc & H). injection H as <-. eexists. eapply keys_done; try done. intros _. by apply Hans.
Qed.
End T_steps.

(** CreateTransfer. *)
Lemma T_keys g y tr M i v pc y' m : Z.of_nat (size keys) <= maxSize -> sys_ok g y tr -> keys_ok y tr M ->
  y_calls y !! i = Some (pc, false) -> in_time ttl start (v_now v) -> CreateTransfer_step i false v pc y = Some y' ->
  exists M', keys_ok y' (tr ++ shows m (Step i v) y) M'.
Proof using Type.
  intros Hroom Hs Hok Hi Hnow H. pose proof (acked_calls m i v y) as Eo. destruct pc; try discriminate H.
  - by eapply T_reserve_keys.
  - cbn [CreateTransfer_step] in H. apply bind_Some in H as ([ch y2] & Ha & H). injection H as <-.
    destruct (acquire_parts _ _ _ _ _ Ha) as (E1 & E2 & E3 & E4 & E5 & E6). exists M.
    apply (keys_same g y tr M i (T_acquire t) (T_submit t ch)); try done; cbn; [by rewrite E1|by intros ch' m' _; apply E6|..].
    + by rewrite E3.
    + rewrite E2. apply Hok.
    + intros j t' ph [-> [= <- <-]]%slot_first Hk. by apply (ko_slots _ _ _ Hok i _ _ 0%nat t Pre Hi).
  - by eapply T_submit_keys.
  - cbn [CreateTransfer_step] in H. injection H as <-. exists M.
    apply (keys_same g y tr M i (T_publish t ch) (T_wait t ch)); try done; [apply Hok|].
    intros j t' ph Hsl Hk. by apply (ko_slots _ _ _ Hok i _ _ j t' ph Hi).
  - by eapply T_receive_keys.
  - by eapply T_settle_keys.
Qed.

(** CreateTransfers, phase 1. *)
Lemma drop_snoc {A B} (plan : list A) x (batch : list B) t todo : drop (length plan) batch = t :: todo ->
  drop (length (plan ++ [x])) batch = todo.
Proof using Type.
  intros H. rewrite length_app, Nat.add_comm. cbn [length Nat.add]. change (S (length plan)) with (1 + length plan)%nat.
  by rewrite Nat.add_comm, <- drop_drop, H.
Qed.
Lemma queued_snoc : forall plan batch t todo (o : option TransferAck), drop (length plan) batch = t :: todo ->
  queued batch (plan ++ [o]) = queued batch plan ++ match o with None => [t] | Some _ => [] end.
Proof using Type.
  induction plan as [|p plan IH]; intros batch t todo o H; cbn [length] in H.
  - rewrite drop_0 in H. subst batch. by destruct o, todo.
  - destruct batch as [|t' batch]; [done|]. cbn in H. destruct p; cbn; by rewrite (IH _ _ _ o H).
Qed.

Lemma slot_reserve batch todo plan seen reserved j t ph : slot (B_reserve batch todo plan seen reserved) j = Some (t, ph) ->
  queued batch plan !! j = Some t /\ ph = Pre.
Proof using Type. cbn. intros H. apply bind_Some in H as (t' & E & [= -> <-]). done. Qed.

(** An item of the batch is planned: queued with a reserved key or none, or not. *)
Lemma keys_planned g y tr M i batch t todo plan seen reserved o' seen' reserved' ids' M' o : sys_ok g y tr -> keys_ok y tr M ->
  y_calls y !! i = Some (B_reserve batch (t :: todo) plan seen reserved, false) -> acked o = [] ->
  stores keys maxSize ttl start ids' M' ->
  M' = M /\ (o' = None -> no_key t = true)
  \/ o' = None /\ M !! t_IdempotencyKey t = None /\ M' = <[t_IdempotencyKey t := SPre i (length (queued batch plan))]> M ->
  keys_ok (goto i (B_reserve batch todo (plan ++ [o']) seen' reserved') (set_ids' ids' y)) (tr ++ o) M'.
Proof using Type.
  intros Hs Hok Hi Eo Hst HM. destruct (ko_calls _ _ _ Hok _ _ _ Hi) as [_ [Hd Hk]].
  assert (Hpc : pc_ok tr (B_reserve batch todo (plan ++ [o']) seen' reserved')).
  { split; [by eapply drop_snoc|]. intros t' Ht. apply Hk. by right. }
  assert (Hold : forall j t' ph, queued batch plan !! j = Some t' -> no_key t' = false -> ph = Pre -> slot_ok y M i j t' ph).
  { intros j t' ph E Hk' ->. apply (ko_slots _ _ _ Hok _ _ _ j t' Pre Hi); [cbn; by rewrite E|done]. }
  destruct HM as [[-> Hn]|(-> & Em & ->)].
  - eapply (keys_same g y tr M i); try done. intros j t' ph [E ->]%slot_reserve Hk'.
    rewrite (queued_snoc _ _ _ _ _ Hd) in E. apply lookup_app_Some in E as [E|[_ E]]; [exact (Hold j t' Pre E Hk' eq_refl)|].
    destruct o'; [done|]. apply list_lookup_singleton_Some in E as [_ <-]. rewrite Hn in Hk' by done. done.
  - eapply keys_reserve; try done. intros j t' ph [E ->]%slot_reserve Hk'. rewrite (queued_snoc _ _ _ _ _ Hd) in E. cbn.
    apply lookup_app_Some in E as [E|[Hl E]].
    + pose proof (Hold j t' Pre E Hk' eq_refl) as Hm. cbn in Hm. rewrite lookup_insert_ne; [done|congruence].
    + apply list_lookup_singleton_Some in E as [E <-]. rewrite lookup_insert_eq. do 2 f_equal. lia.
Qed.

Lemma B_reserve_keys g y tr M i batch todo plan seen reserved v y' o : sys_ok g y tr -> keys_ok y tr M ->
  y_calls y !! i = Some (B_reserve batch todo plan seen reserved, false) -> in_time ttl start (v_now v) -> acked o = [] ->
  CreateTransfers_step i false v (B_reserve batch todo plan seen reserved) y = Some y' ->
  exists M', keys_ok y' (tr ++ o) M'.
Proof using Type.
  intros Hs Hok Hi Hnow Eo H. destruct (ko_calls _ _ _ Hok _ _ _ Hi) as [_ [Hd Hk]]. pose proof (ko_store _ _ _ Hok) as Hst.
  cbn [CreateTransfers_step] in H. destruct todo as [|t todo].
  - exists M. assert (Hsl : forall j t ph, queued batch plan !! j = Some t -> no_key t = false -> ph = Pre -> slot_ok y M i j t ph).
    { intros j t ph E Hk' ->. apply (ko_slots _ _ _ Hok _ _ _ j t Pre Hi); [cbn; by rewrite E|done]. }
    destruct (queued batch plan) as [|e es] eqn:Eq; injection H as <-.
    + eapply keys_same; try done. 
    + eapply keys_same; try done.
      * intros b bs _ E. cbn. by apply lookup_app_l_Some.
      * intros j t ph E Hk'. cbn [slot] in E. rewrite Eq in E. apply bind_Some in E as (t' & E & E2).
        unfold before in E2. replace (j <? 0)%nat with false in E2 by (symmetry; apply Nat.ltb_ge; lia).
        injection E2 as -> <-. exact (Hsl j t Pre E Hk' eq_refl).
  - assert (E : set_ids' (y_ids y) y = y) by (by destruct y).
    destruct (no_key t) eqn:Ek.
    { injection H as <-. exists M. rewrite <- E. eapply keys_planned; try done. by left. }
    destruct (decide _) as [Hseen|Hseen].
    { injection H as <-. exists M. rewrite <- E. eapply keys_planned; try done. left. split; [done|]. done. }
    destruct (store_check keys maxSize ttl start _ M (v_now v) (t_IdempotencyKey t) Hst Hnow (Hk t ltac:(by left) Ek)) as (ids' & Hck).
    destruct (M !! t_IdempotencyKey t) as [s|] eqn:Em.
    + destruct s as [i2 j2|i2 j2|i2 j2 a|x]; destruct Hck as [Ec Hst']; rewrite Ec in H; injection H as <-; exists M.
      1-3: eapply keys_same; try done; intros j t' ph Hx Hk'; pose proof (ko_slots _ _ _ Hok _ _ _ j t' ph Hi Hx Hk') as Hso;
        apply slot_reserve in Hx as [_ ->]; exact Hso.
      eapply keys_planned; try done. left. by split.
    + destruct Hck as [Ec Hst']. rewrite Ec in H. injection H as <-.
      eexists. eapply keys_planned; try done. right. split_and!; done.
Qed.

(** CreateTransfers, phases 2 to 4. *)
Lemma slot_owner y M i j t ph : slot_ok y M i j t ph -> exists s, M !! t_IdempotencyKey t = Some s /\ owner s = Some (i, j).
Proof using Type. destruct ph; cbn; [|intros [[H _]|(a & H & _)]|intros [H _]]; eauto. Qed.
Lemma slot_apart y M i j j' t t' ph ph' : slot_ok y M i j t ph -> slot_ok y M i j' t' ph' -> j <> j' ->
  t_IdempotencyKey t <> t_IdempotencyKey t'.
Proof using Type.
  intros (s & E & O)%slot_owner (s' & E' & O')%slot_owner Hne Ek. rewrite Ek, E' in E. injection E as <-. congruence.
Qed.

Lemma keys_mono y tr M o : keys_ok y tr M -> acked o = [] -> keys_ok y (tr ++ o) M.
Proof using Type.
  intros [H1 H2 H3 H4 H5 H6 H7 H8 H9 H10] Eo. assert (Ea : acked (tr ++ o) = acked tr) by (by rewrite acked_app, Eo, app_nil_r).
  assert (Ek : skeys (tr ++ o) = skeys tr) by (unfold skeys, succeeded; by rewrite Ea).
  constructor; rewrite ?Ea, ?Ek; try done.
  - intros i pc c Hi. destruct (H2 i pc c Hi). split; [done|by apply pc_mono].
  - intros k s Em. by apply status_mono, H7.
Qed.

Lemma keys_goto g y tr M i pc pc' o : sys_ok g y tr -> keys_ok y tr M -> y_calls y !! i = Some (pc, false) -> acked o = [] ->
  pc_ok tr pc' -> (forall j t ph, slot pc' j = Some (t, ph) -> slot pc j = Some (t, ph)) ->
  keys_ok (goto i pc' y) (tr ++ o) M.
Proof using Type.
  intros Hs Hok Hi Eo Hpc Hsl. eapply keys_same; try done; [apply Hok|]. intros j t ph E Hk.
  exact (ko_slots _ _ _ Hok _ _ _ _ _ _ Hi (Hsl _ _ _ E) Hk).
Qed.

Lemma before_true j p : (j < p)%nat -> before j p = true.
Proof using Type. unfold before. apply Nat.ltb_lt. Qed.
Lemma before_false j p : (p <= j)%nat -> before j p = false.
Proof using Type. unfold before. apply Nat.ltb_ge. Qed.

Lemma B_submit_keys g y tr M i batch plan b j v y' o : sys_ok g y tr -> keys_ok y tr M ->
  y_calls y !! i = Some (B_submit batch plan b j, false) -> acked o = [] ->
  CreateTransfers_step i false v (B_submit batch plan b j) y = Some y' -> exists M', keys_ok y' (tr ++ o) M'.
Proof using Type.
  intros Hs Hok Hi Eo H. cbn [CreateTransfers_step] in H.
  pose proof (fun j' t ph => ko_slots _ _ _ Hok i _ _ j' t ph Hi) as Hsl.
  destruct (queued batch plan !! j) as [t|] eqn:Et.
  2: { injection H as <-. exists M. eapply keys_goto; try done. intros j' t ph E. cbn [slot] in E |- *.
       apply bind_Some in E as (t' & E & [= -> <-]). rewrite E. cbn. rewrite before_true; [done|].
       apply lookup_ge_None_1 in Et. apply lookup_lt_Some in E. lia. }
  destruct (v_refuse v).
  { destruct (y_cancelled y); injection H as <-; exists M; [|by apply keys_mono].
    eapply keys_goto; try done. intros j' t' ph. cbn [slot]. intros E. apply bind_Some in E as (t2 & -> & E). cbn.
    by destruct (before j' j). }
  injection H as <-. set (ev := mkEvent t None (Some b) j).
  assert (Hat : slot (B_submit batch plan b j) j = Some (t, Pre)).
  { cbn [slot]. rewrite Et. cbn. by rewrite before_false. }
  assert (Hcase : forall j' t' ph, slot (B_publish batch plan b j) j' = Some (t', ph) ->
            j' = j /\ t' = t /\ ph = Sub ev \/ j' <> j /\ slot (B_submit batch plan b j) j' = Some (t', ph)).
  { intros j' t' ph E. cbn [slot] in E |- *. apply bind_Some in E as (t2 & E2 & E). rewrite E2. cbn.
    destruct (decide (j' = j)) as [->|Hne].
    - left. rewrite before_true in E by lia. rewrite Et in E2. injection E2 as <-. by injection E as <- <-.
    - right. split; [done|]. unfold before in *. destruct (Nat.ltb_spec j' (S j)), (Nat.ltb_spec j' j); try done; lia. }
  assert (Hold : forall M' y1, flying y1 = flying y ++ [ev] -> unacked y1 = unacked y ++ [ev] -> y_loop y1 = y_loop y ->
            y_batches y1 = y_batches y -> y_chans y1 = y_chans y ->
            (forall k, k <> t_IdempotencyKey t -> M' !! k = M !! k) -> (no_key t = true -> M' = M) -> forall j' t' ph, no_key t' = false -> j' <> j ->
            slot (B_submit batch plan b j) j' = Some (t', ph) -> slot_ok y1 M' i j' t' ph).
  { intros M' y1 Ef Eu El Eb Ech HM HM' j' t' ph Hk Hne E. pose proof (Hsl _ _ _ E Hk) as Hso.
    assert (Hap : no_key t = false -> t_IdempotencyKey t' <> t_IdempotencyKey t).
    { intros Hkt. pose proof (Hsl _ _ _ Hat Hkt) as Hso'. by eapply slot_apart. }
    eapply slot_frame; [exact Hso| | | | |].
    - destruct (no_key t) eqn:Ek; [by rewrite HM'|]. by apply HM, Hap.
    - intros e He. rewrite Eu. apply elem_of_app. by left.
    - by rewrite El.
    - intros Hn. rewrite Ef, fkeys_app, not_elem_of_app. split; [done|]. intros (e & He & Hke & Hee)%elem_of_fkeys.
      apply list_elem_of_singleton in He as ->. by apply (Hap Hke).
    - intros e a _. unfold delivered. by rewrite Eb, Ech. }
  assert (Ef : forall r, loop_events r ++ (y_ring y ++ [ev]) = (loop_events r ++ y_ring y) ++ [ev]) by (intros; apply app_assoc).
  destruct (no_key t) eqn:Ek.
  - exists M. eapply (keys_submit_plain g y tr M i _ _ ev); try done.
    intros j' t' ph [(-> & -> & ->)|[Hne E]]%Hcase Hk; [congruence|]. apply (Hold M); try done; unfold flying, unacked; cbn; by rewrite app_assoc.
  - exists (<[t_IdempotencyKey t := SFly i j]> M). eapply (keys_submit g y tr M i _ _ ev j); try done; [exact (Hsl _ _ _ Hat Ek)|].
    intros j' t' ph [(-> & -> & ->)|[Hne E]]%Hcase Hk.
    + left. split; [apply lookup_insert_eq|]. unfold unacked. cbn. rewrite !elem_of_app. right; right; by left.
    + apply (Hold (<[t_IdempotencyKey t := SFly i j]> M)); try done; try (unfold flying, unacked; cbn; by rewrite app_assoc).
      intros k Hne'. by apply lookup_insert_ne.
Qed.

(** The results a call completes itself, and those of the other items. *)
Lemma delivered_complete y y1 M i j t ev a b k ack : slot_ok y M i j t (Sub ev) -> te_batch ev = Some b -> te_index ev = j -> j <> k ->
  y_batches y1 = alter (batch_complete k ack) b (y_batches y) -> delivered y ev a -> delivered y1 ev a.
Proof using Type.
  intros _ Eb Ej Hne E. unfold delivered. rewrite Eb, E. intros (bs & Ebs & Hr). exists (batch_complete k ack bs).
  rewrite list_lookup_alter_eq, Ebs. split; [done|]. cbn. rewrite list_lookup_insert_ne; [done|]. congruence.
Qed.

Lemma B_tail_keys g y tr M i batch plan b j k v y' o : sys_ok g y tr -> keys_ok y tr M ->
  y_calls y !! i = Some (B_tail batch plan b j k, false) -> acked o = [] ->
  CreateTransfers_step i false v (B_tail batch plan b j k) y = Some y' -> exists M', keys_ok y' (tr ++ o) M'.
Proof using Type.
  intros Hs Hok Hi Eo H. cbn [CreateTransfers_step] in H.
  pose proof (fun j' t ph => ko_slots _ _ _ Hok i _ _ j' t ph Hi) as Hsl.
  destruct (bo_owner _ _ _ _ (so_batches _ _ _ Hs) _ _ _ Hi) as [[_ Hjk] _].
  destruct (queued batch plan !! k) as [t|] eqn:Et.
  2: { injection H as <-. exists M. eapply keys_goto; try done. intros j' t ph. cbn [slot]. intros E.
       apply bind_Some in E as (t2 & E2 & E). rewrite E2. cbn [mbind option_bind]. unfold cut, before in *.
       destruct (Nat.leb_spec j j'); [done|]. by rewrite (proj2 (Nat.ltb_lt _ _)). }
  injection H as <-. set (y1 := set_batches (alter (batch_complete k (mkAck zeroTransfer (Some ErrLedgerClosed))) b (y_batches y)) y).
  assert (Hat : slot (B_tail batch plan b j k) k = Some (t, Pre)).
  { cbn [slot]. rewrite Et. cbn [mbind option_bind]. rewrite !before_false; [done|lia|lia]. }
  assert (Hcase : forall j' t' ph, slot (B_tail batch plan b j (S k)) j' = Some (t', ph) ->
            j' <> k /\ slot (B_tail batch plan b j k) j' = Some (t', ph)).
  { intros j' t' ph E. cbn [slot] in E |- *. apply bind_Some in E as (t2 & E2 & E). rewrite E2. cbn [mbind option_bind].
    unfold before in *. destruct (Nat.ltb_spec j' j); [split; [lia|done]|]. destruct (Nat.ltb_spec j' (S k)); [done|].
    split; [lia|]. destruct (Nat.ltb_spec j' k); [lia|done]. }
  assert (Hold : forall ids' M', (forall k', (no_key t = false -> k' <> t_IdempotencyKey t) -> M' !! k' = M !! k') -> forall j' t' ph,
            slot (B_tail batch plan b j (S k)) j' = Some (t', ph) -> no_key t' = false ->
            slot_ok (goto i (B_tail batch plan b j (S k)) (set_ids' ids' y1)) M' i j' t' ph).
  { intros ids' M' HM j' t' ph [Hne E]%Hcase Hk. pose proof (Hsl _ _ _ E Hk) as Hso.
    eapply slot_frame; [exact Hso| |done|done|done|].
    - apply HM. intros Hkt. pose proof (Hsl _ _ _ Hat Hkt) as Hso'. by eapply slot_apart.
    - intros e a -> Hd. destruct (slot_sub _ _ _ _ E) as (_ & [(_ & ch & _ & Hh)|(b' & Eb & Ej & evs & p & [= <- _ _] & _)]);
        [by apply not_elem_of_nil in Hh|]. by eapply delivered_complete. }
  destruct (no_key t) eqn:Ek; unfold rollback_key; rewrite Ek.
  - exists M. eapply keys_same; try done; [|apply Hok|by apply Hold].
    intros b' bs Hb' E. cbn. rewrite list_lookup_alter_ne; [done|]. intros ->. apply Hb'. by left.
  - pose proof (Hsl _ _ _ Hat Ek) as Hm. cbn in Hm. exists (delete (t_IdempotencyKey t) M).
    eapply keys_drop; try done; [|by eexists|cbn; tauto|by eapply pre_grounded|].
    + intros b' bs Hb' E. cbn. rewrite list_lookup_alter_ne; [done|]. intros ->. apply Hb'. by left.
    + apply Hold. intros k' Hk'. apply lookup_delete_ne. intros E. by apply (Hk' eq_refl).
Qed.

Lemma settle_one now a ids : settle_keys now [a] ids =
  if no_key (ack_Transfer a) then Some ids
  else match ack_Err a with
       | Some _ => Some (Rollback (t_IdempotencyKey (ack_Transfer a)) ids)
       | None => Commit now (t_IdempotencyKey (ack_Transfer a)) (ack_Transfer a) ids
       end.
Proof using Type. cbn. destruct (no_key _); [done|]. destruct (ack_Err a); [done|]. by destruct (Commit _ _ _ _). Qed.

Lemma no_key_eq t t' : t_IdempotencyKey t = t_IdempotencyKey t' -> no_key t = no_key t'.
Proof using Type. unfold no_key. by intros ->. Qed.

Lemma B_settle_keys g y tr M i batch plan b j stop v y' o : Z.of_nat (size keys) <= maxSize -> sys_ok g y tr -> keys_ok y tr M ->
  y_calls y !! i = Some (B_settle batch plan b j stop, false) -> in_time ttl start (v_now v) -> acked o = [] ->
  CreateTransfers_step i false v (B_settle batch plan b j stop) y = Some y' -> exists M', keys_ok y' (tr ++ o) M'.
Proof using Type.
  intros Hroom Hs Hok Hi Hnow Eo H. cbn [CreateTransfers_step] in H.
  pose proof (fun j' t ph => ko_slots _ _ _ Hok i _ _ j' t ph Hi) as Hsl.
  destruct (bo_owner _ _ _ _ (so_batches _ _ _ Hs) _ _ _ Hi) as [_ Hb]. cbn [batch_view closing past_done] in Hb.
  destruct Hb as (bs & Ebs & Hl & _ & _ & Hrem & _ & Hpd & Hres). specialize (Hpd eq_refl).
  assert (Hnf : forall t k, batch_event t b k ∉ flying y).
  { intros t k Hin. assert (Hf : batch_event t b k ∈ flying_of b (flying y)) by (by apply list_elem_of_filter).
    destruct (flying_of b (flying y)); [by apply not_elem_of_nil in Hf|]. cbn in Hrem. lia. }
  rewrite Ebs in H. cbn [mbind option_bind] in H. destruct (bs_results bs !! j) as [a|] eqn:Ea.
  2: { injection H as <-. exists M. eapply keys_goto; try done. }
  apply bind_Some in H as (ids' & Hset & H). injection H as <-. rewrite settle_one in Hset.
  assert (Hlt : (j < length (queued batch plan))%nat) by (rewrite <- Hl; by eapply lookup_lt_Some).
  destruct (lookup_lt_is_Some_2 _ _ Hlt) as [t Et]. destruct (Hres j t Hlt Et) as [Hin|(a' & Ea' & Hr)]; [by destruct (Hnf t j)|].
  rewrite Ea in Ea'. injection Ea' as <-. unfold result_ok in Hr.
  assert (Hcase : forall j' t' ph, slot (B_settle batch plan b (S j) stop) j' = Some (t', ph) ->
            j' <> j /\ slot (B_settle batch plan b j stop) j' = Some (t', ph)).
  { intros j' t' ph E. cbn [slot] in E |- *. apply bind_Some in E as (t2 & E2 & E). rewrite E2. cbn [mbind option_bind].
    unfold before in *. destruct (Nat.ltb_spec j' (S j)); [done|]. split; [lia|]. destruct (Nat.ltb_spec j' j); [lia|done]. }
  assert (Hsame : ids' = y_ids y -> keys_ok (goto i (B_settle batch plan b (S j) stop) (set_ids' ids' y)) (tr ++ o) M).
  { intros ->. eapply keys_same; try done; [apply Hok|]. intros j' t' ph [_ E]%Hcase Hk. exact (Hsl _ _ _ E Hk). }
  destruct (no_key (ack_Transfer a)) eqn:Eka; [injection Hset as <-; exists M; by apply Hsame|].
  destruct (cut stop j) eqn:Ecut; [by subst a|].
  (* an acknowledged item: its key is that of the acknowledgement *)
  pose proof (ko_acks _ _ _ Hok _ _ Hr) as [Hka|[_ ?]]; [|congruence]. unfold ekey in Hka. cbn in Hka.
  assert (Ek : no_key t = false) by (by rewrite <- Eka; apply no_key_eq).
  assert (Hat : slot (B_settle batch plan b j stop) j = Some (t, Sub (batch_event t b j))).
  { cbn [slot]. rewrite Et. cbn [mbind option_bind]. by rewrite before_false, Ecut by lia. }
  pose proof (Hsl _ _ _ Hat Ek) as Hso. cbn in Hso.
  assert (Hm : M !! t_IdempotencyKey t = Some (SAck i j a) /\ t_IdempotencyKey t ∉ fkeys (flying y)).
  { pose proof (Hnf t j) as Hn. rewrite flying_split in Hn. apply not_elem_of_app in Hn as [Hn1 Hn2].
    destruct Hso as [[_ Hin]|(a' & Hm & [Hin|[Hd Hf]])]; [done| |].
    - destruct Hn1. by apply (list_elem_of_fmap_2 fst _ (batch_event t b j, a')).
    - cbn in Hd. destruct Hd as (bs' & Ebs' & Hd). rewrite Ebs in Ebs'. injection Ebs' as <-. rewrite Ea in Hd. injection Hd as ->. done. }
  destruct Hm as [Hm Hf]. rewrite Hka in Hset. pose proof (ko_status _ _ _ Hok _ _ Hm) as [_ Hans].
  assert (Hold : forall M', (forall k', k' <> t_IdempotencyKey t -> M' !! k' = M !! k') -> forall j' t' ph,
            slot (B_settle batch plan b (S j) stop) j' = Some (t', ph) -> no_key t' = false ->
            slot_ok (goto i (B_settle batch plan b (S j) stop) (set_ids' ids' y)) M' i j' t' ph).
  { intros M' HM j' t' ph [Hne E]%Hcase Hk. pose proof (Hsl _ _ _ E Hk) as Hso'. eapply slot_frame; [exact Hso'| |done..].
    apply HM. eapply (slot_apart y M i j' j); [exact Hso'| |done]. exact (Hsl _ _ _ Hat Ek). }
  destruct (ack_Err a) as [e|] eqn:Ee.
  - injection Hset as <-. exists (delete (t_IdempotencyKey t) M). eapply keys_drop; try done; [by eexists|cbn; congruence|].
    apply Hold. intros k' Hne. by apply lookup_delete_ne.
  - eexists. eapply keys_done; try done. apply Hold. intros k' Hne. by apply lookup_insert_ne.
Qed.

(** The other calls hold no keys. *)
Lemma control_keys g y tr M i pc v y' o : sys_ok g y tr -> keys_ok y tr M -> y_calls y !! i = Some (pc, false) -> acked o = [] ->
  control_step i false v pc y = Some y' -> keys_ok y' (tr ++ o) M.
Proof using Type.
  intros Hs Hok Hi Eo H. pose proof (ko_store _ _ _ Hok) as Hst.
  assert (Hq : forall pc' y1, y_calls y1 = y_calls y -> y_ids y1 = y_ids y -> y_loop y1 = y_loop y -> y_ring y1 = y_ring y ->
            y_batches y1 = y_batches y ->
            (forall ch m, ch ∉ held pc -> y_chans y !! ch = Some (Some m) -> y_chans y1 !! ch = Some (Some m)) ->
            pc_ok tr pc' -> (forall j, slot pc' j = None) -> keys_ok (goto i pc' y1) (tr ++ o) M).
  { intros pc' y1 E1 E2 E3 E4 E5 Hch Hpc Hsl. eapply keys_same; try done; cbn; rewrite ?E1, ?E2, ?E5; try done.
    intros j t ph E. by rewrite Hsl in E. }
  destruct pc; try discriminate H; cbn [control_step CreateAccounts_step read_step RequestSnapshotView_step] in H.
  - call_case H; by apply Hq.
  - destruct (v_done v); [call_case H; by apply Hq|]. apply bind_Some in H as (e & _ & H). call_case H. by apply Hq.
  - apply bind_Some in H as ([ch y2] & Ha & H). injection H as <-.
    destruct (acquire_parts _ _ _ _ _ Ha) as (E1 & E2 & E3 & E4 & E5 & E6). apply Hq; try done. intros c m _. apply E6.
  - call_case H; by apply Hq.
  - call_case H; apply Hq; try done. intros c m' Hn E. cbn. rewrite list_lookup_insert_ne; [done|]. intros ->. apply Hn. by left.
  - call_case H; apply Hq; try done. intros c m' _ E. cbn. by apply lookup_app_l_Some.
  - call_case H; apply Hq; try done. intros c m' Hn E. cbn. rewrite list_lookup_insert_ne; [done|]. intros ->. apply Hn. by left.
Qed.

Lemma call_keys g y tr M i v y' m : Z.of_nat (size keys) <= maxSize -> sys_ok g y tr -> keys_ok y tr M -> in_time ttl start (v_now v) ->
  call_step i v y = Some y' -> exists M', keys_ok y' (tr ++ shows m (Step i v) y) M'.
Proof using Type.
  intros Hroom Hs Hok Hnow H. pose proof (acked_calls m i v y) as Eo. unfold call_step in H.
  destruct (y_calls y !! i) as [[pc c]|] eqn:Hi; [|done]. destruct (ko_calls _ _ _ Hok _ _ _ Hi) as [-> _].
  destruct (CreateTransfer_step i false v pc y) eqn:ET; [injection H as <-; by eapply T_keys|].
  destruct (CreateTransfers_step i false v pc y) eqn:EB.
  - injection H as <-. clear ET. destruct pc; try discriminate EB.
    + by eapply B_reserve_keys.
    + by eapply B_submit_keys.
    + exists M. cbn [CreateTransfers_step] in EB. injection EB as <-. eapply keys_goto; try done.
    + by eapply B_tail_keys.
    + exists M. cbn [CreateTransfers_step] in EB. call_case EB. eapply keys_goto; try done.
    + by eapply B_settle_keys.
  - exists M. by eapply control_keys.
Qed.

(** ** Steps of the loop *)

(** The calls and the statuses stay; no answer that has arrived is lost. *)
Lemma keys_loop y tr M y' o : keys_ok y tr M -> y_calls y' = y_calls y -> y_ids y' = y_ids y -> unacked y' = unacked y ->
  to_deliver (y_loop y') = to_deliver (y_loop y) -> y_batches y' = y_batches y ->
  (forall ch m, y_chans y !! ch = Some (Some m) -> y_chans y' !! ch = Some (Some m)) -> acked o = [] ->
  keys_ok y' (tr ++ o) M.
Proof using Type.
  intros Hok E1 E2 E3 E4 E5 Hch Eo. apply keys_mono; [|done].
  assert (Ef : flying y' = flying y) by (by rewrite !flying_split, E3, E4).
  destruct Hok as [H1 H2 H3 H4 H5 H6 H7 H8 H9 H10]. constructor; rewrite ?E1, ?E2, ?E3, ?E4, ?Ef; try done.
  intros i pc c j t ph Hi Hsl Hk. eapply slot_frame; [by eapply H3|done|by rewrite E3|done|by rewrite Ef|].
  intros ev a _. unfold delivered. rewrite E5. destruct (te_batch ev); [done|]. intros (ch & Ec & Hm). exists ch. split; [done|]. by apply Hch.
Qed.

Lemma send_kept ch m y y' : send ch m y = Some y' -> y_calls y' = y_calls y /\ y_ids y' = y_ids y /\ y_ring y' = y_ring y
  /\ y_loop y' = y_loop y /\ y_batches y' = y_batches y
  /\ y_chans y !! ch = Some None /\ y_chans y' = <[ch := Some m]> (y_chans y).
Proof using Type. unfold send. intros H. destruct (y_chans y !! ch) as [[]|] eqn:E; try done. by injection H as <-. Qed.
Lemma sent_others (chans : list (option Msg)) ch x c m : chans !! ch = Some None -> chans !! c = Some (Some m) ->
  <[ch := x]> chans !! c = Some (Some m).
Proof using Type. intros E H. rewrite list_lookup_insert_ne; [done|]. intros ->. congruence. Qed.

Lemma serve_keys y tr M w y' pc o : keys_ok y tr M -> serve w y = Some y' -> acked o = [] ->
  waiting_batch pc = waiting_batch (y_loop y) -> to_deliver pc = to_deliver (y_loop y) -> keys_ok (set_loop pc y') (tr ++ o) M.
Proof using Type.
  intros Hok H Eo Ew Ed. destruct w; try discriminate H; cbn [serve] in H.
  - apply bind_Some in H as ([[ev ch] q] & _ & H). apply send_kept in H as (E1 & E2 & E3 & E4 & E5 & E6 & E7).
    apply (keys_loop y); try done. { unfold unacked. cbn. by rewrite Ew, E3. } intros c m Hm. cbn. rewrite E7. by apply sent_others.
  - destruct (y_creates y) as [|c q]; [done|]. apply bind_Some in H as (e & _ & H). destruct (processAccountCreate _ _) as [g rs].
    injection H as <-. apply (keys_loop y); try done. unfold unacked. cbn. by rewrite Ew.
  - destruct (y_views y) as [|ch q]; [done|]. destruct (snapshot_view (y_engine y)) as [[a p] l].
    apply send_kept in H as (E1 & E2 & E3 & E4 & E5 & E6 & E7).
    apply (keys_loop y); try done. { unfold unacked. cbn. by rewrite Ew, E3. } intros c m Hm. cbn. rewrite E7. by apply sent_others.
Qed.

Lemma fkeys_cons ev evs : fkeys (ev :: evs) = (if no_key (te_Transfer ev) then [] else [ekey ev]) ++ fkeys evs.
Proof using Type.
  unfold fkeys, keyed. cbn [fmap list_fmap]. destruct (no_key (te_Transfer ev)) eqn:E.
  - by rewrite filter_cons_False by congruence.
  - by rewrite filter_cons_True.
Qed.

(** What complete does to the answers that arrived. *)
Lemma complete_kept ev a y y' : complete ev a y = Some y' -> y_calls y' = y_calls y /\ y_ids y' = y_ids y /\ y_ring y' = y_ring y
  /\ ((exists b, te_batch ev = Some b /\ y_batches y' = alter (batch_complete (te_index ev) a) b (y_batches y) /\ y_chans y' = y_chans y)
     \/ (exists ch, te_batch ev = None /\ te_Result ev = Some ch /\ y_batches y' = y_batches y
                    /\ y_chans y !! ch = Some None /\ y_chans y' = <[ch := Some (MAck a)]> (y_chans y))).
Proof using Type.
  unfold complete. intros H. destruct (te_batch ev) as [b|]; [injection H as <-; split_and!; try done; left; by exists b|].
  destruct (te_Result ev) as [ch|]; [|done]. apply send_kept in H as (E1 & E2 & E3 & _ & E5 & E6 & E7).
  split_and!; try done. right. by exists ch.
Qed.

(** An answer that arrived stays; another item of the same batch is completed. *)
Lemma delivered_kept g y tr i pc c j t e a ev ack y' : sys_ok g y tr -> y_calls y !! i = Some (pc, c) -> slot pc j = Some (t, Sub e) ->
  no_key t = false -> ev ∈ flying y -> complete ev ack y = Some y' -> delivered y e a -> (t_IdempotencyKey t ∉ fkeys (flying y)) ->
  delivered y' e a.
Proof using Type.
  intros Hs Hi Hsl Hk Hin H Hd Hn. apply complete_kept in H as (_ & _ & _ & H). unfold delivered in *.
  destruct (slot_sub _ _ _ _ Hsl) as (_ & [(Eb & _)|(b & Eb & Ej & evs & p & Ev & Et)]); rewrite Eb in *.
  - destruct Hd as (ch & Ech & Hm). exists ch. split; [done|]. destruct H as [(b & _ & _ & ->)|(ch' & _ & _ & _ & Em & ->)]; [done|].
    by apply sent_others.
  - destruct Hd as (bs & Ebs & Hr). destruct H as [(b' & Eb' & -> & _)|(ch' & _ & _ & -> & _)]; [|by exists bs].
    destruct (decide (b' = b)) as [->|Hne]; [|exists bs; by rewrite list_lookup_alter_ne].
    exists (batch_complete (te_index ev) ack bs). rewrite list_lookup_alter_eq, Ebs. split; [done|]. cbn.
    rewrite list_lookup_insert_ne; [done|]. intros Ei. apply Hn, elem_of_fkeys. exists ev. split; [done|].
    pose proof (bo_event _ _ _ _ (so_batches _ _ _ Hs) ev Hin) as Hev. unfold event_ok in Hev. rewrite Eb' in Hev.
    destruct Hev as (_ & i2 & pc2 & c2 & evs2 & p2 & Hi2 & Ev2 & _ & _ & Et2).
    assert (i2 = i) as -> by (eapply (bo_unique _ _ _ _ (so_batches _ _ _ Hs)); [exact Hi2|exact Hi|apply elem_of_owned; eauto..]).
    rewrite Hi in Hi2. injection Hi2 as <- <-. rewrite Ev in Ev2. injection Ev2 as <- <-. rewrite Ei, Ej, Et in Et2. injection Et2 as ->. done.
Qed.

Lemma delivered_now g y tr i pc c j t ev ack y' : sys_ok g y tr -> y_calls y !! i = Some (pc, c) -> slot pc j = Some (t, Sub ev) ->
  complete ev ack y = Some y' -> delivered y' ev ack.
Proof using Type.
  intros Hs Hi Hsl H. apply complete_kept in H as (_ & _ & _ & H). unfold delivered.
  destruct H as [(b & Eb & -> & _)|(ch & Eb & Er & _ & Em & ->)]; rewrite Eb.
  - destruct (slot_sub _ _ _ _ Hsl) as (_ & [(Eb' & _)|(b' & Eb' & Ej & evs & p & Ev & Et)]); [congruence|].
    rewrite Eb in Eb'. injection Eb' as <-. destruct (bo_owner _ _ _ _ (so_batches _ _ _ Hs) _ _ _ Hi) as [_ Hb]. rewrite Ev in Hb.
    destruct Hb as (bs & Ebs & Hl & _). exists (batch_complete (te_index ev) ack bs). rewrite list_lookup_alter_eq, Ebs. split; [done|].
    cbn. apply list_lookup_insert_eq. rewrite Hl, Ej. by eapply lookup_lt_Some.
  - exists ch. split; [done|]. apply list_lookup_insert_eq. by eapply lookup_lt_Some.
Qed.

Lemma deliver_keys g y tr M ev ack acks c y1 : sys_ok g y tr -> keys_ok y tr M -> y_loop y = L_deliver ((ev, ack) :: acks) c ->
  complete ev ack y = Some y1 -> keys_ok (set_loop (L_deliver acks c) y1) (tr ++ []) M.
Proof using Type.
  intros Hs Hok El H. pose proof (complete_kept _ _ _ _ H) as (E1 & E2 & E3 & _). apply keys_mono; [|done].
  assert (Ef : flying y = ev :: flying (set_loop (L_deliver acks c) y1)) by (unfold flying; cbn; by rewrite El, E3).
  assert (Eu : unacked (set_loop (L_deliver acks c) y1) = unacked y) by (unfold unacked; cbn; by rewrite El, E3).
  assert (Hd : to_deliver (y_loop y) = (ev, ack) :: acks) by (by rewrite El).
  pose proof (ko_fly _ _ _ Hok) as Hn. rewrite Ef, fkeys_cons in Hn.
  assert (Hsub : forall k, k ∉ fkeys (flying y) -> k ∉ fkeys (flying (set_loop (L_deliver acks c) y1))).
  { intros k Hx Hin. apply Hx. rewrite Ef, fkeys_cons. apply elem_of_app. by right. }
  assert (Hin : ev ∈ flying y) by (rewrite Ef; by left).
  pose proof Hok as [H1 H2 H3 H4 H5 H6 H7 H8 H9 H10]. constructor; cbn [y_ids y_calls set_loop]; rewrite ?E1, ?E2, ?Eu; try done.
  - intros i pc cc j t ph Hi Hsl Hk. pose proof (H3 _ _ _ _ _ _ Hi Hsl Hk) as Hso. destruct ph as [|e|a]; unfold slot_ok in Hso |- *; [done| |].
    + rewrite Eu. destruct Hso as [Hso|(a & Hm & Hso)]; [by left|]. right. exists a. split; [done|]. rewrite Hd in Hso.
      destruct (slot_sub _ _ _ _ Hsl) as [Ete _].
      destruct Hso as [[[= -> ->]|Hso]%elem_of_cons|[Hdl Hx]]; [|by left|].
      * right. split; [exact (delivered_now _ _ _ _ _ _ _ _ _ _ _ Hs Hi Hsl H)|]. rewrite Ete, Hk in Hn. cbn in Hn. apply NoDup_cons in Hn as [Hn _].
        unfold ekey in Hn. by rewrite Ete in Hn.
      * right. split; [exact (delivered_kept _ _ _ _ _ _ _ _ _ _ _ _ _ Hs Hi Hsl Hk Hin H Hdl Hx)|by apply Hsub].
    + destruct Hso as [Hm Hx]. split; [done|by apply Hsub].
  - by apply NoDup_app in Hn as (_ & _ & Hn).
  - cbn. intros e a Hx. apply H6. rewrite Hd. by right.
Qed.

(** A processed batch: its events' keys are acknowledged. *)
Definition ack_of (k : Key) (acks : list (TransferEvent * TransferAck)) : option TransferAck :=
  snd <$> head (filter (fun p : TransferEvent * TransferAck => ekey p.1 = k) acks).
Definition ack_status (acks : list (TransferEvent * TransferAck)) (k : Key) (s : status) : option status :=
  Some (match s with SFly i j => match ack_of k acks with Some a => SAck i j a | None => s end | _ => s end).
Definition ack_map (acks : list (TransferEvent * TransferAck)) (M : gmap Key status) : gmap Key status := map_imap (ack_status acks) M.

Lemma ack_map_lookup acks M k : ack_map acks M !! k = M !! k ≫= ack_status acks k.
Proof using Type. apply map_lookup_imap. Qed.

Lemma ack_of_some k acks a : ack_of k acks = Some a -> exists ev, (ev, a) ∈ acks /\ ekey ev = k.
Proof using Type.
  unfold ack_of. intros ([ev a'] & H & ->)%fmap_Some. apply head_Some_elem_of, list_elem_of_filter in H as [H1 H2]. eauto.
Qed.
Lemma ack_of_elem acks : NoDup (fkeys acks.*1) -> forall ev a, (ev, a) ∈ acks -> has_key ev -> ack_of (ekey ev) acks = Some a.
Proof using Type.
  unfold ack_of. induction acks as [|[ev' a'] acks IH]; intros Hn ev a Hin Hk; [by apply not_elem_of_nil in Hin|].
  cbn [fmap list_fmap] in Hn. rewrite fkeys_cons in Hn. apply NoDup_app in Hn as (_ & Hd & Hn). apply elem_of_cons in Hin as [[= -> ->]|Hin].
  - by rewrite filter_cons_True.
  - rewrite filter_cons_False; [by apply IH|]. cbn [fst] in Hd |- *. intros E. rewrite (no_key_eq (te_Transfer ev') (te_Transfer ev) E) in Hd.
    unfold has_key in Hk. rewrite Hk in Hd. apply (Hd (ekey ev')); [by left|]. rewrite E. apply elem_of_fkeys.
    exists ev. split; [|done]. by apply (list_elem_of_fmap_2 fst _ (ev, a)).
Qed.
Lemma ack_of_none acks k : (forall ev a, (ev, a) ∈ acks -> ekey ev <> k) -> ack_of k acks = None.
Proof using Type.
  intros H. destruct (ack_of k acks) as [a|] eqn:E; [|done]. apply ack_of_some in E as (ev & Hin & E). by destruct (H ev a).
Qed.

Lemma store_acks ids M acks : stores keys maxSize ttl start ids M -> stores keys maxSize ttl start ids (ack_map acks M).
Proof using Type.
  intros [l Hs]. exists l. constructor; try apply Hs.
  - intros x Hx. destruct (sk_slot _ _ _ _ _ _ _ Hs x Hx) as (He & s & E & Hst). split; [done|].
    rewrite ack_map_lookup, E. cbn. eexists. split; [reflexivity|]. destruct s; try done. by destruct (ack_of _ _).
  - intros k Hk. apply (sk_all _ _ _ _ _ _ _ Hs). rewrite ack_map_lookup in Hk. destruct (M !! k); [done|]. by destruct Hk.
  - intros k [s Hk]%elem_of_dom. apply (sk_keys _ _ _ _ _ _ _ Hs), elem_of_dom. rewrite ack_map_lookup in Hk. by destruct (M !! k).
Qed.

Lemma fkeys_sublist l l' : sublist l l' -> sublist (fkeys l) (fkeys l').
Proof using Type.
  unfold fkeys. intros H. apply fmap_sublist. induction H as [|x l l' _ IH|x l l' _ IH]; cbn [fmap list_fmap].
  - apply sublist_nil_l.
  - destruct (decide (no_key (te_Transfer x) = false)); [rewrite !filter_cons_True by done; by constructor|by rewrite !filter_cons_False].
  - destruct (decide (no_key (te_Transfer x) = false)); [rewrite filter_cons_True by done; by constructor|by rewrite filter_cons_False].
Qed.

Lemma acks_keys y tr M y' acks c o : keys_ok y tr M -> to_deliver (y_loop y) = [] -> y_loop y' = L_deliver acks c ->
  unacked y = acks.*1 ++ y_ring y' -> y_calls y' = y_calls y -> y_ids y' = y_ids y -> y_batches y' = y_batches y ->
  y_chans y' = y_chans y -> acked o = acks -> (forall ev a, (ev, a) ∈ acks -> ack_keyed (ekey ev) a) ->
  keys_ok y' (tr ++ o) (ack_map acks M).
Proof using Type.
  intros Hok Ed El Eu Ec Ei Eb Ech Eo Hak.
  assert (Ef : flying y' = flying y) by (rewrite !flying_split, Ed, Eu; unfold unacked; by rewrite El).
  assert (Eu' : unacked y' = y_ring y') by (unfold unacked; by rewrite El).
  pose proof (ko_fly _ _ _ Hok) as Hn. rewrite flying_split, Ed, Eu in Hn. cbn [app fmap list_fmap] in Hn. fold (fmap (M := list) fst acks) in Hn. rewrite fkeys_app in Hn.
  pose proof Hn as Hn'. apply NoDup_app in Hn' as (Hna & Hdis & _).
  assert (Hfly : forall ev a, (ev, a) ∈ acks -> has_key ev -> exists i j, M !! ekey ev = Some (SFly i j)).
  { intros ev a Hin. apply (ko_unacked _ _ _ Hok). rewrite Eu. apply elem_of_app. left. by apply (list_elem_of_fmap_2 fst _ (ev, a)). }
  assert (Hans : forall ev a, (ev, a) ∈ acks -> ack_Err a = None -> answers (tr ++ o) (ekey ev) (ack_Transfer a)).
  { intros ev a Hin He. exists ev, a. split; [|done]. rewrite acked_app, Eo. apply elem_of_app. by right. }
  assert (Ek : skeys (tr ++ o) = skeys tr ++ fkeys (filter (fun p => ack_Err p.2 = None) acks).*1).
  { rewrite skeys_app. unfold skeys, succeeded at 2. by rewrite Eo. }
  destruct Hok as [H1 H2 H3 H4 H5 H6 H7 H8 H9 H10]. constructor; rewrite ?Ec, ?Ei, ?Ef, ?Eu'; try done.
  - by apply store_acks.
  - intros i pc cc Hi. destruct (H2 _ _ _ Hi). split; [done|by apply pc_mono].
  - intros i pc cc j t ph Hi Hsl Hk. pose proof (H3 _ _ _ _ _ _ Hi Hsl Hk) as Hso. unfold slot_ok in *.
    rewrite ack_map_lookup, El, Ef, Eu'. cbn [to_deliver]. destruct ph as [|ev|a]; [by rewrite Hso| |destruct Hso as [-> Hx]; by split].
    destruct (slot_sub _ _ _ _ Hsl) as [Et _].
    assert (Ekt : ekey ev = t_IdempotencyKey t) by (unfold ekey; by rewrite Et). assert (Hke : has_key ev) by (unfold has_key; by rewrite Et).
    destruct Hso as [[-> Hin]|(a & -> & [Hin|Hx])]; cbn [mbind option_bind]; unfold ack_status.
    + rewrite Eu in Hin. apply elem_of_app in Hin as [Hin|Hin].
      * apply list_elem_of_fmap in Hin as ([ev' a] & -> & Hin). cbn [fst] in *. right. exists a. rewrite <- Ekt, (ack_of_elem acks Hna _ _ Hin Hke).
        split; [done|by left].
      * left. split; [|done]. rewrite ack_of_none; [done|]. intros ev' a Hin' E. apply (Hdis (ekey ev')); apply elem_of_fkeys.
        -- exists ev'. split; [by apply (list_elem_of_fmap_2 fst _ (ev', a))|]. split; [|done].
           unfold has_key. rewrite (no_key_eq _ t); [done|exact E].
        -- exists ev. by rewrite Ekt, E.
    + rewrite Ed in Hin. by apply not_elem_of_nil in Hin.
    + right. exists a. split; [done|]. right. unfold delivered in *. by rewrite Eb, Ech.
  - intros ev Hin Hk. destruct (H5 ev) as (i & j & Em); [rewrite Eu; apply elem_of_app; by right|done|]. exists i, j.
    rewrite ack_map_lookup, Em. cbn [mbind option_bind]; unfold ack_status. rewrite ack_of_none; [done|]. intros ev' a Hin' E. apply (Hdis (ekey ev')); apply elem_of_fkeys.
    + exists ev'. split; [by apply (list_elem_of_fmap_2 fst _ (ev', a))|]. split; [|done]. unfold has_key. rewrite (no_key_eq _ (te_Transfer ev)); [done|exact E].
    + exists ev. by rewrite E.
  - rewrite El. cbn. intros ev a Hin Hk. destruct (Hfly ev a Hin Hk) as (i & j & Em). exists i, j.
    rewrite ack_map_lookup, Em. cbn [mbind option_bind]; unfold ack_status. by rewrite (ack_of_elem acks Hna _ _ Hin Hk).
  - intros k s Em. rewrite ack_map_lookup in Em. destruct (M !! k) as [s0|] eqn:E0; [|done]. cbn [mbind option_bind] in Em; unfold ack_status in Em. injection Em as <-.
    destruct s0; try (apply status_mono; by apply H7). destruct (ack_of k acks) as [a|] eqn:Ea; [|done].
    apply ack_of_some in Ea as (ev & Hin & <-). split; [by eapply Hak|by apply Hans].
  - intros ev a. rewrite acked_app, Eo. intros [Hin|Hin]%elem_of_app; [by apply H8|by apply Hak].
  - rewrite Ek. apply NoDup_app. split; [done|]. split.
    + intros k Hk (ev & Hin & Hkev & <-)%elem_of_fkeys. destruct (H10 _ Hk) as (s & Em & Hs).
      apply list_elem_of_fmap in Hin as ([ev' a] & -> & [_ Hin]%list_elem_of_filter).
      destruct (Hfly _ _ Hin Hkev) as (i & j & Em'). cbn [fst] in Em. rewrite Em in Em'. by injection Em' as ->.
    + eapply sublist_NoDup; [exact Hna|]. apply fkeys_sublist, fmap_sublist, sublist_filter.
  - rewrite Ek. intros k [Hk|Hk]%elem_of_app.
    + destruct (H10 _ Hk) as (s & Em & Hs). rewrite ack_map_lookup, Em. cbn [mbind option_bind]; unfold ack_status. exists s. by destruct s.
    + apply elem_of_fkeys in Hk as (ev & Hin & Hkev & <-). apply list_elem_of_fmap in Hin as ([ev' a] & -> & [Ha Hin]%list_elem_of_filter).
      cbn [fst snd] in *. destruct (Hfly _ _ Hin Hkev) as (i & j & Em). rewrite ack_map_lookup, Em. cbn [mbind option_bind]; unfold ack_status.
      rewrite (ack_of_elem acks Hna _ _ Hin Hkev). by eexists.
Qed.

(** The engine's acknowledgements carry their events' keys, or fail. *)
Lemma batch_acks_keyed wall batch g ev a : (ev, a) ∈ zip batch (processBatch wall (te_Transfer <$> batch) g).2 -> ack_keyed (ekey ev) a.
Proof using Type.
  intros (i & Hi)%list_elem_of_lookup. apply lookup_zip_with_Some in Hi as (ev' & a' & [= <- <-] & Hb & Ha).
  unfold processBatch in Ha. set (m := CloseExpired _) in *. set (now := if wall <=? g_clock g then _ else _) in *.
  destruct (match makeWALRecords _ _ with [] => _ | _ => _ end) as [[w lsn] [e|]]; cbn [snd] in Ha.
  - apply list_lookup_fmap_Some in Ha as (t & -> & _). right. by split.
  - destruct (ApplyBatch _ _ m) as [outs m']. cbn [snd] in Ha. apply lookup_zip_with_Some in Ha as (t & o & -> & Ht & _).
    apply list_lookup_fmap_Some in Ht as (t0 & -> & Ht). apply list_lookup_fmap_Some in Ht as (ev2 & -> & Hb2).
    rewrite Hb in Hb2. injection Hb2 as <-. by left.
Qed.

Lemma Run_keys maxBatch y tr M w y' g : sys_ok g y tr -> keys_ok y tr M -> Run_step maxBatch w y = Some y' ->
  exists M', keys_ok y' (tr ++ shows maxBatch (Loop w) y) M'.
Proof using Type.
  intros Hs Hok H. unfold Run_step in H. cbn [shows]. destruct (y_loop y) as [|k|again| | |batch|acks c| | |] eqn:El.
  - exists M. destruct w; call_case H; apply (keys_loop y); try done; unfold unacked; cbn; by rewrite El.
  - exists M. assert (Hsv : serve w y = Some y' \/ w = W_default) by (destruct w; auto). destruct Hsv as [Hsv| ->].
    + pose proof (serve_keys y tr M w y' (y_loop y) (serve_shows w y) Hok Hsv) as Hx. rewrite (serve_loop _ _ _ Hsv).
      apply Hx; try done. destruct w; try done; cbn [serve_shows].
      * by destruct (take_read ty (y_reads y)) as [[[ev ch] q]|].
      * destruct (y_creates y) as [|c q]; [done|]. by destruct (y_events y !! c).
    + call_case H; apply (keys_loop y); try done; unfold unacked; cbn; rewrite El; by destruct k.
  - exists M. destruct w; try discriminate H. injection H as <-. apply (keys_loop y); try done; unfold unacked; cbn; rewrite El; by destruct (_ =? _)%nat, again.
  - exists M. assert (Hsv : (exists y1, serve w y = Some y1 /\ y' = set_loop (L_drain D_again) y1)
        \/ serve_shows w y = [] /\ (y' = set_loop (L_drain D_again) y \/ y' = set_loop L_abandon y)).
    { destruct w; try (apply fmap_Some in H as (y1 & Hsv & ->); left; eauto); right; call_case H; auto. }
    destruct Hsv as [(y1 & Hsv & ->)|(-> & [-> | ->])].
    + eapply serve_keys; try done; [|by rewrite El..]. destruct w; try done; cbn [serve_shows].
      * by destruct (take_read ty (y_reads y)) as [[[ev ch] q]|].
      * destruct (y_creates y) as [|c q]; [done|]. by destruct (y_events y !! c).
    + apply (keys_loop y); try done; unfold unacked; cbn; by rewrite El.
    + apply (keys_loop y); try done; unfold unacked; cbn; by rewrite El.
  - exists M. destruct w; try discriminate H. injection H as <-. apply (keys_loop y); try done; unfold unacked; cbn [y_loop y_ring set_loop set_ring to_deliver waiting_batch]; rewrite El; [|done].
    symmetry. apply collect_ring.
  - destruct w; try discriminate H. destruct (length batch =? 0)%nat eqn:En.
    + exists M. apply Nat.eqb_eq, length_zero_iff_nil in En as ->. call_case H. apply (keys_loop y); try done; unfold unacked; cbn; by rewrite El.
    + pose proof (processBatch_length wall (te_Transfer <$> batch) (y_engine y)) as Hlen. rewrite length_fmap in Hlen.
      pose proof (batch_acks_keyed wall batch (y_engine y)) as Hk.
      remember (processBatch wall (te_Transfer <$> batch) (y_engine y)) as r eqn:Er. destruct r as [g' acks]. injection H as <-.
      eexists. apply (acks_keys y tr M _ (zip batch acks) false _ Hok); try done; [by rewrite El| |].
      * unfold unacked. rewrite El. cbn [waiting_batch snd] in *. by rewrite fst_zip by lia.
      * cbn. apply app_nil_r.
  - exists M. destruct acks as [|[ev ack] acks], w; try discriminate H.
    + call_case H. destruct c; apply (keys_loop y); try done; unfold unacked; cbn; by rewrite El.
    + apply fmap_Some in H as (y1 & H & ->). by eapply deliver_keys.
  - destruct w; try discriminate H. pose proof (collect_ring (Nat.min n maxBatch) y) as Hr.
    destruct (collect _ y) as [b y1] eqn:Ec. cbn [fst] in Hr |- *. destruct (length b =? 0)%nat.
    { exists M. call_case H. apply (keys_loop y); try done; unfold unacked; cbn; by rewrite El. }
    assert (Ey : y1 = set_ring (drop (length b) (y_ring y)) y) by (unfold collect in Ec; by injection Ec as <- <-). subst y1.
    injection H as <-. eexists.
    apply (acks_keys y tr M _ ((fun ev => (ev, closed_ack)) <$> b) true _ Hok); try done; [by rewrite El| | |].
    + unfold unacked. rewrite El, <- list_fmap_compose. cbn. by rewrite list_fmap_id.
    + cbn. apply app_nil_r.
    + intros ev a (ev' & [= <- ->] & _)%list_elem_of_fmap. right. by split.
  - exists M. destruct w; try discriminate H.
    + call_case H; apply (keys_loop y); try done; unfold unacked; cbn; by rewrite El.
    + call_case H; apply (keys_loop y); try done; unfold unacked; cbn; by rewrite El.
    + destruct (y_views y) as [|ch q]; [done|]. apply send_kept in H as (E1 & E2 & E3 & E4 & E5 & E6 & E7). cbn in *.
      apply (keys_loop y); try done; [unfold unacked; by rewrite E4, E3|by rewrite E4|]. intros c m Hm. rewrite E7. by apply sent_others.
  - destruct w; discriminate H.
Qed.

(** ** Schedules *)

(** A schedule that cancels no request, within one lifetime of the keys, and
    whose transfers have the given keys. *)
Definition act_ok (a : act) : Prop :=
  match a with
  | Begin (NewTransfer t) => known t
  | Begin (NewTransfers batch) => forall t, t ∈ batch -> known t
  | Cancel _ => False
  | Step _ v => in_time ttl start (v_now v)
  | _ => True
  end.

Lemma act_keys maxBatch g y tr M a y' : Z.of_nat (size keys) <= maxSize -> act_ok a -> sys_ok g y tr -> keys_ok y tr M ->
  sys_act maxBatch a y = Some y' -> exists M', keys_ok y' (tr ++ shows maxBatch a y) M'.
Proof using Type.
  intros Hroom Ha Hs Hok H. destruct a as [r|i|i v|w|]; cbn [sys_act] in H; try done.
  - injection H as <-. exists M. apply keys_mono; [|done]. destruct Hok as [H1 H2 H3 H4 H5 H6 H7 H8 H9 H10].
    assert (Hpc : pc_ok tr (first_pc r)) by (destruct r; try done; by split).
    constructor; try done.
    + intros i pc c [[_ E]|[_ [= <- <-]]]%lookup_snoc_Some; [by eapply H2|by split].
    + intros i pc c j t ph [[_ E]|[_ [= <- <-]]]%lookup_snoc_Some Hsl; [by eapply H3|]. destruct r; try done.
      cbn in Hsl. destruct batch; [done|]. done.
  - by eapply call_keys.
  - by eapply Run_keys.
  - injection H as <-. exists M. by apply (keys_loop y).
Qed.

Lemma acts_keys maxBatch g acts : forall y tr M y' tr', Z.of_nat (size keys) <= maxSize -> Forall act_ok acts -> sys_ok g y tr ->
  keys_ok y tr M -> sys_acts maxBatch acts y = Some (y', tr') -> exists M', keys_ok y' (tr ++ tr') M'.
Proof using Type.
  induction acts as [|a acts IH]; intros y tr M y' tr' Hroom Ha Hs Hok H; cbn [sys_acts] in H.
  - injection H as <- <-. exists M. by rewrite app_nil_r.
  - apply Forall_cons in Ha as [Ha Has]. apply bind_Some in H as (y1 & H1 & H). apply bind_Some in H as ([y2 tr2] & H2 & [= <- <-]).
    destruct (act_keys _ _ _ _ _ _ _ Hroom Ha Hs Hok H1) as (M1 & Hok1). rewrite app_assoc.
    eapply (IH y1); try done. by eapply sys_act_ok.
Qed.

Lemma init_keys g : 0 < maxSize -> 0 < ttl -> Z.of_nat (size keys) <= maxSize ->
  keys_ok (Sys_init g (NewIdempotencyStore maxSize ttl)) [] ∅.
Proof using Type.
  intros Hm Ht Hr. constructor; cbn; try done; try (by constructor).
  - by apply store_init.
  - by intros ev ?%not_elem_of_nil.
  - by intros ev a ?%not_elem_of_nil.
  - by intros ev a ?%not_elem_of_nil.
  - by intros k ?%not_elem_of_nil.
Qed.
End Keys.
