(* ===== verification/LoopSpec.v ===== *)
(** * What the concurrent server promises (engine/loop.go, event.go, ledger.go)

    Any schedule of the loop and its clients is one run of the sequential engine
    of [Engine]; answers reach the calls they belong to.  The loop answers every
    waiting call once the submissions under way are published; until then a
    claimed slot blocks it, and a call waits for ever when its event enters the
    ring after the loop's exit, or stands behind a claimed slot then. *)

From S2P Require Import Prelude Core Uint128 Accounts AccountsProps Transfers Record Wal Idempotency IdempotencyProps.
From S2P Require Import Engine EngineProps Ring Requests RequestsProps.
From S2P Require Import Loop LoopChannels LoopBatches LoopCreates LoopProps LoopLive LoopStore LoopKeys.

Lemma reachable_ok maxBatch g ids acts y tr : sys_acts maxBatch acts (Sys_init g ids) = Some (y, tr) ->
  sys_ok g y tr /\ sys_creates y tr.
Proof.
  intros H. split; [apply (sys_acts_ok maxBatch g acts _ [] _ _ (init_ok g ids) H)|].
  assert (Hgen : forall acts y tr y' tr', sys_creates y tr -> sys_acts maxBatch acts y = Some (y', tr') -> sys_creates y' (tr ++ tr')).
  { clear. induction acts as [|a acts IH]; intros y tr y' tr' Hok H; cbn [sys_acts] in H.
    - injection H as <- <-. by rewrite app_nil_r.
    - apply bind_Some in H as (y1 & H1 & H). apply bind_Some in H as ([y2 tr2] & H2 & [= <- <-]).
      rewrite app_assoc. eapply IH; [|exact H2]. by apply sys_act_creates. }
  apply (Hgen acts (Sys_init g ids) []); [|done]. constructor; [constructor|by intros c ?%not_elem_of_nil|done].
Qed.

(** ** Serialization *)

(** C6. The loop serializes its clients.  After any interleaving of calls,
    cancellations, the loop and a shutdown, the engine is the one a sequential
    run of the handled batches reaches, every acknowledgement, read and account
    result is the answer of that run at its place, and events are handled in the
    order of their submission, each once: the submitted events are the handled
    ones, then the collected batch, then the ring. *)
Theorem loop_serializes maxBatch g ids acts y tr : sys_acts maxBatch acts (Sys_init g ids) = Some (y, tr) ->
  y_engine y = run (commands tr) g /\ explains g tr
  /\ submitted tr = handled tr ++ waiting_batch (y_loop y) ++ y_ring y.
Proof. intros H. apply reachable_ok in H as [Hok _]. split_and!; apply Hok. Qed.

(** ** Answers *)

Lemma queued_length : forall (plan : list (option TransferAck)) batch, length plan = length batch ->
  length (queued batch plan) = length (filter (fun o : option TransferAck => o = None) plan).
Proof.
  induction plan as [|[a|] plan IH]; intros [|t batch] Hl; try done; cbn [queued].
  - rewrite filter_cons_False by done. apply IH. by injection Hl.
  - rewrite filter_cons_True by done. cbn. f_equal. apply IH. by injection Hl.
Qed.

(** C7. No call receives another call's answer, though result channels are
    reused and the events of a batch land in several engine batches.
    CreateTransfer goes on with the acknowledgement of its own event, a read
    returns the reply to its own request, CreateAccounts returns one result for
    each of its accounts, from the engine or the shutdown, and a batch that
    returns has for each queued transfer the acknowledgement of that transfer. *)
Theorem calls_get_their_own_answers maxBatch g ids acts y tr i pc c :
  sys_acts maxBatch acts (Sys_init g ids) = Some (y, tr) -> y_calls y !! i = Some (pc, c) ->
  match pc with
  | T_settle t a => exists ch, (mkEvent t (Some ch) None 0, a) ∈ acked tr
  | R_return ev (Some m) => (ev, m) ∈ replied tr
  | A_return accounts (Some (Ok outs)) => exists rs, outs = zip accounts rs /\ answered tr accounts rs
  | B_return batch outs false => length outs = length batch /\ returned_ok tr batch outs
  | _ => True
  end.
Proof.
  intros H Hi. apply reachable_ok in H as [Hok Hcr]. pose proof (co_call _ _ _ _ _ _ _ (so_chans _ _ _ Hok) _ _ _ Hi) as Hc.
  destruct (bo_owner _ _ _ _ (so_batches _ _ _ Hok) _ _ _ Hi) as [Hp _]. pose proof (cr_call _ _ _ _ Hcr _ _ _ Hi) as Ha.
  destruct pc; try done. cbn in Hp. destruct canceled; [done|]. split; [|done].
  destruct Hp as (plan & rs & b & Hl & -> & Hr & _). rewrite materialize_length; [done|]. by rewrite Hr, queued_length.
Qed.

(** ** Keys *)

Lemma success_unique tr k x x' : NoDup (skeys tr) -> k <> zeros 32 -> answers tr k x -> answers tr k x' -> x = x'.
Proof.
  intros Hn Hk (ev & a & Hin & He & Ek & ->) (ev' & a' & Hin' & He' & Ek' & ->).
  assert (Hkey : forall e, ekey e = k -> has_key e) by (intros e E; apply bool_decide_eq_false; intros E'; apply Hk; by rewrite <- E).
  assert (Hs : forall e b, (e, b) ∈ acked tr -> ack_Err b = None -> ekey e = k -> ack_of k (succeeded tr) = Some b).
  { intros e b Hb Hbe E. rewrite <- E. apply ack_of_elem; [exact Hn|by apply list_elem_of_filter|by apply Hkey]. }
  pose proof (Hs _ _ Hin He Ek) as E1. rewrite (Hs _ _ Hin' He' Ek') in E1. by injection E1 as ->.
Qed.

(** C8. A keyed transfer is applied once, however calls interleave.  While no
    request is cancelled, the clock stays within one lifetime of the store's
    entries and the store has room for the keys in use, the loop acknowledges at
    most one transfer with each key as successful, whatever calls and batches
    race, and every CreateTransfer that succeeds under a key returns that
    transfer. *)
Theorem keyed_transfers_apply_once maxBatch g keys maxSize ttl start acts y tr : 0 < maxSize -> 0 < ttl ->
  Z.of_nat (size keys) <= maxSize -> Forall (act_ok keys ttl start) acts ->
  sys_acts maxBatch acts (Sys_init g (NewIdempotencyStore maxSize ttl)) = Some (y, tr) ->
  NoDup (skeys tr)
  /\ (forall i t x c, y_calls y !! i = Some (T_return t (Some (Ok x)), c) -> no_key t = false -> answers tr (t_IdempotencyKey t) x)
  /\ forall i i' t t' x x' c c', y_calls y !! i = Some (T_return t (Some (Ok x)), c) ->
       y_calls y !! i' = Some (T_return t' (Some (Ok x')), c') -> no_key t = false ->
       t_IdempotencyKey t = t_IdempotencyKey t' -> x = x'.
Proof.
  intros Hm Ht Hr Ha H.
  destruct (acts_keys keys maxSize ttl start maxBatch g acts _ [] ∅ _ _ Hr Ha (init_ok g _) (init_keys keys maxSize ttl start g Hm Ht Hr) H) as [M Hok].
  assert (Hans : forall i t x c, y_calls y !! i = Some (T_return t (Some (Ok x)), c) -> no_key t = false -> answers tr (t_IdempotencyKey t) x).
  { intros i t x c Hi Hk. destruct (ko_calls _ _ _ _ _ _ _ Hok _ _ _ Hi) as [_ Hp]. by apply Hp. }
  pose proof (ko_once _ _ _ _ _ _ _ Hok) as Hn. split_and!; [done|done|].
  intros i i' t t' x x' c c' Hi Hi' Hk Ek. eapply (success_unique _ (t_IdempotencyKey t)); [exact Hn| |by eapply Hans|].
  - unfold no_key in Hk. by apply bool_decide_eq_false in Hk.
  - rewrite Ek. eapply Hans; [exact Hi'|]. rewrite <- Hk. by apply no_key_eq.
Qed.

(** ** Progress *)

(** The idle steps of a run of the loop. *)
Fixpoint idle_steps (maxBatch : nat) (ws : list branch) (y : Sys) : nat :=
  match ws with
  | [] => 0
  | w :: ws =>
      match Run_step maxBatch w y with
      | Some y' => (if idle w y then 1 else 0) + idle_steps maxBatch ws y'
      | None => 0
      end
  end%nat.

(** C10. The loop works for a bounded number of steps.  From any reachable state,
    whatever branches its selects take, the loop can take on its own at most
    [work y] steps, and ten for each idle one: a wakeup with an empty ring, or a
    Collect that finds the first slot of the ring claimed and not published.
    When no submission is between its claim and its publication, and the loop is
    not woken for nothing, no step is idle. *)
Theorem loop_works_bounded maxBatch g ids acts y tr ws y' tr' : sys_acts maxBatch acts (Sys_init g ids) = Some (y, tr) ->
  sys_acts maxBatch (Loop <$> ws) y = Some (y', tr') ->
  (length ws + work y' <= work y + 10 * idle_steps maxBatch ws y)%nat
  /\ (unready y = [] -> W_arrive ∉ ws -> idle_steps maxBatch ws y = 0%nat).
Proof.
  intros _. revert y tr'. induction ws as [|w ws IH]; intros y tr' H.
  - injection H as <- _. split; [cbn; lia|done].
  - change (Loop <$> w :: ws) with (Loop w :: (Loop <$> ws)) in H. cbn [sys_acts sys_act] in H.
    apply bind_Some in H as (y1 & H1 & H). apply bind_Some in H as ([y2 tr2] & H2 & [= <- _]).
    specialize (IH _ _ H2). destruct IH as [IH1 IH2]. pose proof (step_works _ _ _ _ H1) as Hw.
    destruct (Run_calls _ _ _ _ H1) as [Ec _]. cbn [idle_steps length]. rewrite H1. split; [destruct (idle w y); lia|].
    intros Hu [Hne Hws]%not_elem_of_cons. rewrite IH2 by (done || (unfold unready in *; by rewrite Ec)).
    rewrite (not_idle _ _ Hu) by congruence. done.
Qed.

(** The publications that are due. *)
Definition publish (pc : Call_pc) : Call_pc :=
  match pc with T_publish t ch => T_wait t ch | B_publish batch plan b j => B_submit batch plan b (S j) | _ => pc end.
Definition publish_all (y : Sys) : Sys := set_calls ((fun c => (publish c.1, c.2)) <$> y_calls y) y.

(** A call whose submission is under way publishes it: no other step of it is
    possible, and nothing stops this one. *)
Lemma publish_step m y i pc c v : y_calls y !! i = Some (pc, c) -> claim pc <> None ->
  call_step i v y = Some (goto i (publish pc) y) /\ shows m (Step i v) y = [].
Proof. intros Hi Hc. unfold call_step. cbn [shows]. rewrite Hi. by destruct pc. Qed.

Lemma publications maxBatch v y : forall n, exists ps,
  Forall (fun i => exists pc c, y_calls y !! i = Some (pc, c) /\ claim pc <> None) ps
  /\ sys_acts maxBatch ((fun i => Step i v) <$> ps) y
     = Some (set_calls (((fun c : Call_pc * bool => (publish c.1, c.2)) <$> take n (y_calls y)) ++ drop n (y_calls y)) y, []).
Proof.
  induction n as [|n (ps & Hf & E)].
  { exists []. split; [constructor|]. by destruct y. }
  destruct (y_calls y !! n) as [[pc c]|] eqn:Hn.
  2:{ exists ps. split; [done|]. rewrite E. apply lookup_ge_None_1 in Hn. by rewrite !take_ge, !drop_ge by lia. }
  pose proof (lookup_lt_Some _ _ _ Hn) as Hlt.
  rewrite (take_S_r _ _ _ Hn), fmap_app, <- app_assoc. rewrite (drop_S _ _ _ Hn) in E.
  destruct (claim pc) eqn:Hc.
  - exists (ps ++ [n]). split; [apply Forall_app; split; [done|constructor; [|constructor]]; exists pc, c; by rewrite Hc|].
    rewrite fmap_app. apply (sys_acts_app _ _ _ _ _ _ _ _ E).
    set (y1 := set_calls _ y). assert (Hi : y_calls y1 !! n = Some (pc, c)).
    { cbn. rewrite lookup_app_r by (rewrite length_fmap, length_take; lia). rewrite length_fmap, length_take.
      by replace (n - n `min` length (y_calls y))%nat with 0%nat by lia. }
    destruct (publish_step maxBatch y1 n pc c v Hi ltac:(congruence)) as [E1 E2]. cbn [fmap list_fmap sys_acts sys_act].
    rewrite E1, E2. cbn [mbind option_bind app]. unfold goto. cbn [y1 set_calls y_calls].
    rewrite alter_app_r_alt, length_fmap, length_take by (rewrite length_fmap, length_take; lia).
    by replace (n - n `min` length (y_calls y))%nat with 0%nat by lia.
  - exists ps. split; [done|]. rewrite E. do 4 f_equal. cbn. by destruct pc.
Qed.

Lemma publish_all_ready y : unready (publish_all y) = [].
Proof.
  unfold unready, publish_all. cbn. induction (y_calls y) as [|[pc c] calls IH]; [done|]. cbn. by destruct pc.
Qed.

(** C9. Waiting calls are answered.  From any reachable state in which the loop has
    not passed its last look at the ring: each submission that is between its
    claim and its publication can be published, and then the loop alone reaches a
    state in which it waits for work or has exited, and there every call that
    waits for a transfer, a batch, new accounts or a view can receive its answer
    at once; so can every read when the loop did not exit.  (An exiting loop does
    not look at the read queues, and a loop that exits while a slot is claimed
    and not published leaves the events behind it: [exit_leaves_events].) *)
Theorem waiting_calls_are_answered maxBatch g ids acts y tr : sys_acts maxBatch acts (Sys_init g ids) = Some (y, tr) ->
  exiting y = false -> exists ps ws y' tr',
    Forall (fun i => exists pc c, y_calls y !! i = Some (pc, c) /\ claim pc <> None) ps
    /\ sys_acts maxBatch ((fun i => Step i (mkCallEnv 0 None false false)) <$> ps) y = Some (publish_all y, [])
    /\ sys_acts maxBatch (Loop <$> ws) (publish_all y) = Some (y', tr')
    /\ LoopLive.settled y' = true /\ y_calls y' = y_calls (publish_all y)
    /\ forall i pc c v, y_calls y' !! i = Some (pc, c) -> waits pc = true -> y_loop y' = L_wait \/ is_read pc = false ->
         v_done v = false -> exists y'', call_step i v y' = Some y''.
Proof.
  intros H He. destruct (publications maxBatch (mkCallEnv 0 None false false) y (length (y_calls y))) as (ps & Hf & Hp).
  rewrite firstn_all, drop_all, app_nil_r in Hp. fold (publish_all y) in Hp.
  pose proof (sys_acts_app _ _ _ _ _ _ _ _ H Hp) as H1. apply reachable_ok in H1 as [Hok Hcr].
  destruct (loop_settles maxBatch g (S (work (publish_all y))) (publish_all y) (tr ++ [])) as (ws & y' & tr' & Hr & Hs & Hok' & Hcr' & Ht & Ec);
    [lia|apply publish_all_ready|exact Hok|exact Hcr| |].
  { unfold exiting, tidy in *. cbn. by destruct (y_loop y). }
  exists ps, ws, y', tr'. split_and!; try done. intros i pc c v Hi Hw Hrd Hd.
  destruct (settled_empty _ Hs Ht) as (Hfl & Hc & Hv & Hrw).
  eapply has_answer; try done. destruct Hrd as [Hrd|Hrd]; [left; by apply Hrw|by right].
Qed.

(** ** A claimed slot *)

Lemma blocked_ring maxBatch w y y' : blocked y = true -> Run_step maxBatch w y = Some y' -> y_ring y' = y_ring y.
Proof.
  intros Hb H. assert (Hc : forall n, (collect n y).1 = []).
  { intros n. unfold blocked, collect in *. cbn. destruct (y_ring y) as [|ev r]; [done|]. cbn [ready_prefix].
    rewrite decide_True by (by apply bool_decide_eq_true in Hb). apply take_nil. }
  unfold Run_step in H. destruct (y_loop y) as [|k|again| | |batch|acks c| | |] eqn:El.
  - destruct w; by call_case H.
  - assert (Hs : serve w y = Some y' \/ w = W_default) by (destruct w; auto). destruct Hs as [Hs| ->]; [by apply serve_work in Hs as (-> & _)|].
    by call_case H.
  - destruct w; try discriminate H. by injection H as <-.
  - destruct w; try (apply fmap_Some in H as (y1 & Hs & ->); cbn; by apply serve_work in Hs as (-> & _)); by call_case H.
  - destruct w; try discriminate H. specialize (Hc (Nat.min n maxBatch)). unfold collect in *. injection H as <-. cbn [fst] in Hc. by rewrite Hc.
  - destruct w; try discriminate H. destruct (length batch =? 0)%nat; [by call_case H|]. destruct (processBatch _ _ _). by injection H as <-.
  - destruct acks as [|[ev ack] acks], w; try discriminate H; [by call_case H|]. apply fmap_Some in H as (y1 & H & ->). cbn. by apply complete_keeps in H as (-> & _).
  - destruct w; try discriminate H. specialize (Hc (Nat.min n maxBatch)). destruct (collect _ y) as [b y1]. cbn [fst] in Hc. subst b. cbn in H. by injection H as <-.
  - destruct w; try discriminate H; try by call_case H.
    destruct (y_views y); [done|]. by apply send_keeps in H as (-> & _).
  - destruct w; discriminate H.
Qed.

(** A claimed slot blocks the loop.  While the first slot of the ring is claimed
    and not published, no step of the loop takes an event out of the ring, though
    the events behind it are published; and the loop does not wait but spins, for
    as many rounds as the submission takes. *)
Theorem claimed_slot_blocks_loop maxBatch y : blocked y = true ->
  (forall ws y' tr, sys_acts maxBatch (Loop <$> ws) y = Some (y', tr) -> y_ring y' = y_ring y)
  /\ (y_loop y = L_top -> y_cancelled y = false -> controlPending y = false -> forall n, exists ws,
        length ws = (6 * n)%nat /\ (W_arrive ∉ ws) /\ sys_acts maxBatch (Loop <$> ws) y = Some (y, [])).
Proof.
  intros Hb. split.
  - intros ws. revert y Hb. induction ws as [|w ws IH]; intros y Hb y' tr H; [by injection H as <- _|].
    change (Loop <$> w :: ws) with (Loop w :: (Loop <$> ws)) in H. cbn [sys_acts sys_act] in H.
    apply bind_Some in H as (y1 & H1 & H). apply bind_Some in H as ([y2 tr2] & H2 & [= <- _]).
    pose proof (blocked_ring _ _ _ _ Hb H1) as Er. destruct (Run_calls _ _ _ _ H1) as [Ec _].
    rewrite <- Er. eapply IH; [|exact H2]. unfold blocked, unready in *. by rewrite Er, Ec.
  - intros El Hc Hp. set (cycle := [W_default; W_default; W_default; W_go 0 0; W_default; W_go 0 0]).
    assert (Hcy : sys_acts maxBatch (Loop <$> cycle) y = Some (y, [])).
    { assert (Hcol : forall n pc, collect n (set_loop pc y) = ([], set_loop pc y)).
      { intros n pc. unfold blocked in Hb. unfold collect. change (unready (set_loop pc y)) with (unready y). cbn [set_loop y_ring].
        destruct (y_ring y) as [|ev r] eqn:Er; [done|]. cbn [ready_prefix]. rewrite decide_True by (by apply bool_decide_eq_true in Hb).
        rewrite take_nil. cbn [length drop]. rewrite <- Er. by destruct y. }
      assert (Hr : (length (y_ring y) =? 0)%nat = false) by (unfold blocked in Hb; by destruct (y_ring y)).
      assert (H1 : Run_step maxBatch W_default y = Some (set_loop (L_drain D_idle) y)) by (unfold Run_step; by rewrite El, Hc).
      assert (Hd : forall k, Run_step maxBatch W_default (set_loop (L_drain k) y)
                 = Some (set_loop (match k with D_idle => L_idle false | D_again => L_idle true | D_batch batch => L_process batch end) y)).
      { intros k. unfold Run_step. change (controlPending (set_loop _ y)) with (controlPending y). cbn [set_loop y_loop]. by rewrite Hp. }
      assert (Hi : Run_step maxBatch W_default (set_loop (L_idle false) y) = Some (set_loop L_collect y)).
      { unfold Run_step. cbn [set_loop y_loop y_ring]. by rewrite Hr. }
      assert (Hg : Run_step maxBatch (W_go 0 0) (set_loop L_collect y) = Some (set_loop (L_drain (D_batch [])) y)).
      { unfold Run_step. rewrite Hcol. done. }
      assert (Eid : set_loop L_top y = y) by (destruct y; cbn in *; by subst).
      unfold cycle. cbn [fmap list_fmap sys_acts sys_act]. rewrite H1. cbn [mbind option_bind]. rewrite Hd. cbn [mbind option_bind].
      rewrite Hi. cbn [mbind option_bind]. rewrite Hg. cbn [mbind option_bind]. rewrite Hd. cbn [mbind option_bind].
      change (Run_step maxBatch (W_go 0 0) (set_loop (L_process []) y)) with (Some (set_loop L_top y)). cbn [mbind option_bind].
      rewrite Eid. unfold shows. cbn [set_loop y_loop]. by rewrite El. }
    induction n as [|n (ws & Hl & Hw & E)]; [exists []; split_and!; [done|apply not_elem_of_nil|done]|].
    exists (cycle ++ ws). rewrite length_app, Hl, fmap_app. split_and!; [cbn; lia| |by apply (sys_acts_app _ _ _ _ _ _ _ _ Hcy)].
    rewrite not_elem_of_app. split; [|done]. intros Hin. unfold cycle in Hin. set_solver.
Qed.

(** ** After the exit *)

(** An event of the batch [b] is in the ring of a loop that has exited. *)
Definition stranded (b : nat) (y : Sys) : Prop := y_loop y = L_closed /\ exists ev, ev ∈ y_ring y /\ te_batch ev = Some b.

Lemma acquire_stranded ty k y ch y' b : acquire ty k y = Some (ch, y') -> stranded b y -> stranded b y'.
Proof.
  unfold acquire. intros H Hs. destruct k as [k|]; [|by injection H as <- <-].
  destruct (y_pool y !! k) as [[ty' c]|]; [|done]. destruct (decide _); [|done]. by injection H as <- <-.
Qed.

Ltac grows Hs := let ev := fresh in let Hin := fresh in
  destruct Hs as (? & ev & Hin & ?); split; [done|exists ev; split; [apply elem_of_app; by left|done]].

Lemma stranded_stays maxBatch b a y y' : stranded b y -> sys_act maxBatch a y = Some y' -> stranded b y'.
Proof.
  intros Hs H. destruct a as [r|i|i v|w|]; cbn [sys_act] in H; try by injection H as <-.
  - unfold call_step in H. destruct (y_calls y !! i) as [[pc c]|]; [|done].
    destruct (CreateTransfer_step i c v pc y) as [y1|] eqn:ET.
    { injection H as <-. destruct pc; try discriminate ET; cbn [CreateTransfer_step] in ET.
      - by call_case ET.
      - apply bind_Some in ET as ([ch y2] & Ha & ET). injection ET as <-. by eapply acquire_stranded in Ha.
      - call_case ET; [done|]. grows Hs.
      - by call_case ET.
      - by call_case ET.
      - call_case ET; try done. apply bind_Some in ET as (ids & _ & ET). by call_case ET. }
    destruct (CreateTransfers_step i c v pc y) as [y1|] eqn:EB.
    { injection H as <-. clear ET. destruct pc; try discriminate EB; cbn [CreateTransfers_step] in EB.
      - by call_case EB.
      - call_case EB; try done. grows Hs.
      - by call_case EB.
      - by call_case EB.
      - by call_case EB.
      - apply bind_Some in EB as (bs & _ & EB). destruct (bs_results bs !! j); [|by call_case EB].
        apply bind_Some in EB as (ids & _ & EB). by call_case EB. }
    destruct pc; try discriminate H; cbn [control_step CreateAccounts_step read_step RequestSnapshotView_step] in H.
    + by call_case H.
    + destruct (v_done v); [by call_case H|]. apply bind_Some in H as (e & _ & H). by call_case H.
    + apply bind_Some in H as ([ch y2] & Ha & H). injection H as <-. by eapply acquire_stranded in Ha.
    + by call_case H.
    + by call_case H.
    + by call_case H.
    + by call_case H.
  - unfold Run_step in H. destruct Hs as [El _]. rewrite El in H. by destruct w.
Qed.

(** An event that enters the ring after the loop has exited strands its
    batch.  Submit does not refuse it and nobody takes it out: the call waits for
    the shared completion for ever, whatever happens next, and its context is
    not consulted. *)
Theorem submitted_after_exit_waits_forever maxBatch g ids acts y tr i batch plan b c k :
  sys_acts maxBatch acts (Sys_init g ids) = Some (y, tr) -> y_calls y !! i = Some (B_wait batch plan b c, k) ->
  stranded b y -> forall acts' y' tr', sys_acts maxBatch acts' y = Some (y', tr') ->
  exists k', y_calls y' !! i = Some (B_wait batch plan b c, k').
Proof.
  intros H Hi Hs acts'. apply reachable_ok in H as [Hok _]. revert y tr k Hok Hi Hs.
  induction acts' as [|a acts' IH]; intros y tr k Hok Hi Hs y' tr' H; cbn [sys_acts] in H.
  { injection H as <- <-. eauto. }
  apply bind_Some in H as (y1 & H1 & H). apply bind_Some in H as ([y2 tr2] & H2 & [= <- <-]).
  assert (Hi1 : exists k1, y_calls y1 !! i = Some (B_wait batch plan b c, k1)).
  { clear IH H2. destruct a as [r|j|j v|w|]; cbn [sys_act] in H1.
    - injection H1 as <-. exists k. by apply lookup_app_l_Some.
    - injection H1 as <-. by eapply cancel_lookup_inv.
    - destruct (decide (j = i)) as [->|Hne].
      + exfalso. unfold call_step in H1. rewrite Hi in H1. cbn [CreateTransfer_step CreateTransfers_step control_step CreateAccounts_step read_step RequestSnapshotView_step] in H1.
        destruct (bo_owner _ _ _ _ (so_batches _ _ _ Hok) _ _ _ Hi) as [_ Hb]. cbn [batch_view] in Hb.
        destruct Hb as (bs & Eb & _ & _ & _ & Hrem & Hdone & _). rewrite Eb, Hdone in H1. destruct (Z.eqb_spec (bs_remaining bs) 0) as [E|E]; [|done].
        destruct Hs as (El & ev & Hin & Ev). assert (Hf : ev ∈ flying_of b (flying y)).
        { apply list_elem_of_filter. split; [done|]. unfold flying. apply elem_of_app. by right. }
        destruct (flying_of b (flying y)); [by apply not_elem_of_nil in Hf|]. cbn in Hrem. lia.
      + exists k. by rewrite (other_calls _ _ _ _ _ H1 Hne).
    - exists k. by destruct (Run_calls _ _ _ _ H1) as [-> _].
    - injection H1 as <-. eauto. }
  destruct Hi1 as [k1 Hi1]. eapply (IH y1); [by eapply sys_act_ok|exact Hi1|by eapply stranded_stays|exact H2].
Qed.

(** ** A schedule *)

Definition demo_sys : Sys := Sys_init (run [demo_accounts] (fresh 4096)) (NewIdempotencyStore 10 1000).
Definition now_env : call_env := mkCallEnv 1000 None false false.
Definition done_env : call_env := mkCallEnv 1000 None false true.
Definition steps (i n : nat) : list act := replicate n (Step i now_env).

(** A unary call, a batch and a read, one engine batch, and their answers. *)
Definition demo_submits : list act :=
  [Begin (NewTransfer keyed_xfer); Begin (NewTransfers [xfer 12 1 2 3 0 0]); Begin (NewRead (ReadAccount (idn 1)))]
  ++ steps 0 2 ++ steps 1 5 ++ steps 0 2 ++ steps 2 2.
Definition demo_branches : list branch :=
  [W_default; W_read CAccount; W_default; W_default; W_go 10 0; W_default; W_go 0 1000; W_default; W_default; W_default].
Definition demo_loop : list act := Loop <$> demo_branches.
Definition demo_acts : list act := demo_submits ++ demo_loop ++ steps 0 1 ++ steps 1 3 ++ steps 2 1.

(** A submission between its claim and its publication, and a batch behind it. *)
Definition claimed_acts : list act :=
  [Begin (NewTransfer keyed_xfer); Begin (NewTransfers [xfer 12 1 2 3 0 0])] ++ steps 0 3 ++ steps 1 5.

(** What a schedule leads to. *)
Definition ends {A} (f : Sys -> list obs -> A) (acts : list act) (y : Sys) : option A :=
  '(y', tr) ← sys_acts 10 acts y; Some (f y' tr).
Lemma ends_Some {A} (f : Sys -> list obs -> A) acts y a : ends f acts y = Some a ->
  exists y' tr, sys_acts 10 acts y = Some (y', tr) /\ f y' tr = a.
Proof. unfold ends. intros H. apply bind_Some in H as ([y' tr] & H & [= <-]). eauto. Qed.

Definition returned (y : Sys) (tr : list obs) : bool :=
  match y_calls y with
  | [(T_settle _ a, _); (B_return _ [b] false, _); (R_return _ (Some (MAccount acc None)), _)] =>
      match ack_Err a, ack_Err b with None, None => (length (acked tr) =? 2)%nat | _, _ => false end
  | _ => false
  end.
Lemma demo_ends : ends returned demo_acts demo_sys = Some true.
Proof. vm_compute. reflexivity. Qed.

Lemma loop_serializes_witness : exists y tr, sys_acts 10 demo_acts demo_sys = Some (y, tr) /\ returned y tr = true
  /\ y_engine y = run (commands tr) (run [demo_accounts] (fresh 4096)).
Proof.
  destruct (ends_Some _ _ _ _ demo_ends) as (y & tr & H & Hr). exists y, tr. split; [exact H|]. split; [exact Hr|].
  exact (proj1 (loop_serializes 10 _ _ _ _ _ H)).
Defined.

Lemma calls_get_their_own_answers_witness : exists y tr a c ch, sys_acts 10 demo_acts demo_sys = Some (y, tr)
  /\ y_calls y !! 0%nat = Some (T_settle keyed_xfer a, c) /\ (mkEvent keyed_xfer (Some ch) None 0, a) ∈ acked tr.
Proof.
  assert (E : ends (fun y _ => match y_calls y !! 0%nat with Some (T_settle t a, c) => if decide (t = keyed_xfer) then true else false | _ => false end)
                demo_acts demo_sys = Some true) by (vm_compute; reflexivity).
  destruct (ends_Some _ _ _ _ E) as (y & tr & H & Hr). clear E.
  destruct (y_calls y !! 0%nat) as [[[] c]|] eqn:Hi; try discriminate Hr. destruct (decide _) as [Et|]; [|discriminate Hr]. rewrite Et in Hi.
  destruct (calls_get_their_own_answers 10 _ _ _ _ _ _ _ _ H Hi) as [ch Hch].
  exists y, tr, ack, c, ch. split; [exact H|]. split; [exact Hi|exact Hch].
Defined.

Lemma loop_works_bounded_witness : exists y tr y' tr', sys_acts 10 demo_submits demo_sys = Some (y, tr)
  /\ sys_acts 10 demo_loop y = Some (y', tr')
  /\ (length demo_loop + work y' <= work y + 10 * idle_steps 10 demo_branches y)%nat /\ idle_steps 10 demo_branches y = 0%nat.
Proof.
  assert (E : ends (fun y _ => match sys_acts 10 demo_loop y, unready y with Some _, [] => true | _, _ => false end) demo_submits demo_sys = Some true)
    by (vm_compute; reflexivity).
  destruct (ends_Some _ _ _ _ E) as (y & tr & H & Hr). clear E. destruct (sys_acts 10 demo_loop y) as [[y' tr']|] eqn:E; [|discriminate Hr].
  exists y, tr, y', tr'. split; [exact H|]. split; [exact E|].
  destruct (loop_works_bounded 10 _ _ _ _ _ demo_branches _ _ H E) as [Hb Hi]. split; [exact Hb|].
  apply Hi; [by destruct (unready y)|]. intros Hin. repeat (apply elem_of_cons in Hin as [Hin|Hin]; [discriminate Hin|]).
  by apply not_elem_of_nil in Hin.
Defined.

Lemma waiting_calls_are_answered_witness : exists y tr, sys_acts 10 claimed_acts demo_sys = Some (y, tr) /\ blocked y = true
  /\ (exists t ch, y_calls y !! 0%nat = Some (T_publish t ch, false))
  /\ exists ws y' tr' y'', sys_acts 10 (Loop <$> ws) (publish_all y) = Some (y', tr') /\ call_step 0 now_env y' = Some y''.
Proof.
  assert (E : ends (fun y _ => negb (exiting y) && blocked y && match y_calls y !! 0%nat with Some (T_publish _ _, false) => true | _ => false end)
                claimed_acts demo_sys = Some true) by (vm_compute; reflexivity).
  destruct (ends_Some _ _ _ _ E) as (y & tr & H & Hr). clear E. apply andb_prop in Hr as [Hr Hp].
  apply andb_prop in Hr as [He Hb]. apply negb_true_iff in He.
  destruct (y_calls y !! 0%nat) as [[[] []]|] eqn:Hi; try discriminate Hp.
  destruct (waiting_calls_are_answered 10 _ _ _ _ _ H He) as (ps & ws & y' & tr' & _ & _ & Hw & _ & Ec & Hans).
  assert (Hi' : y_calls y' !! 0%nat = Some (T_wait t ch, false)).
  { rewrite Ec. cbn [publish_all set_calls y_calls]. rewrite list_lookup_fmap, Hi. reflexivity. }
  destruct (Hans _ _ _ now_env Hi' eq_refl (or_intror eq_refl) eq_refl) as [y'' Hy].
  exists y, tr. split; [exact H|]. split; [exact Hb|]. split; [eauto|]. exists ws, y', tr', y''. split; [exact Hw|exact Hy].
Defined.

(** The ledger closes and its loop exits; then a batch arrives. *)
Definition late_acts : list act :=
  [Close; Loop W_done; Loop (W_go 0 0); Loop W_default; Begin (NewTransfers [xfer 12 1 2 3 0 0])] ++ steps 0 5.
Lemma submitted_after_exit_waits_forever_witness : exists y tr batch plan b c k, sys_acts 10 late_acts demo_sys = Some (y, tr)
  /\ y_calls y !! 0%nat = Some (B_wait batch plan b c, k)
  /\ forall acts' y' tr', sys_acts 10 acts' y = Some (y', tr') -> exists k', y_calls y' !! 0%nat = Some (B_wait batch plan b c, k').
Proof.
  assert (E : ends (fun y _ => match y_loop y, y_calls y !! 0%nat, y_ring y with
                               | L_closed, Some (B_wait _ _ b _, _), ev :: _ => if decide (te_batch ev = Some b) then true else false
                               | _, _, _ => false end) late_acts demo_sys = Some true) by (vm_compute; reflexivity).
  destruct (ends_Some _ _ _ _ E) as (y & tr & H & Hr). clear E.
  destruct (y_loop y) eqn:El; try discriminate Hr. destruct (y_calls y !! 0%nat) as [[[] k]|] eqn:Hi; try discriminate Hr.
  destruct (y_ring y) as [|ev r] eqn:Er; [discriminate Hr|]. destruct (decide _) as [Eb|]; [|discriminate Hr].
  assert (Hs : stranded b y). { split; [exact El|]. exists ev. rewrite Er. split; [left|exact Eb]. }
  exists y, tr, batch, plan, b, stop, k. split; [exact H|]. split; [exact Hi|].
  exact (submitted_after_exit_waits_forever 10 _ _ _ _ _ _ _ _ _ _ _ H Hi Hs).
Defined.

(** The ledger closes while a slot is claimed: the loop finds no ready event,
    takes the ring for empty and exits, and the batch behind the slot, published
    long before, waits for ever. *)
Theorem exit_leaves_events : exists acts y tr batch plan b k, sys_acts 10 acts demo_sys = Some (y, tr)
  /\ y_calls y !! 1%nat = Some (B_wait batch plan b None, k) /\ y_loop y = L_closed /\ unready y = []
  /\ forall acts' y' tr', sys_acts 10 acts' y = Some (y', tr') -> exists k', y_calls y' !! 1%nat = Some (B_wait batch plan b None, k').
Proof.
  exists (claimed_acts ++ [Close; Loop W_done; Loop (W_go 0 0); Loop W_default] ++ steps 0 1).
  assert (E : ends (fun y _ => match y_loop y, y_calls y !! 1%nat, y_ring y, unready y with
                               | L_closed, Some (B_wait _ _ b None, _), _ :: ev :: _, [] => if decide (te_batch ev = Some b) then true else false
                               | _, _, _, _ => false end)
                (claimed_acts ++ [Close; Loop W_done; Loop (W_go 0 0); Loop W_default] ++ steps 0 1) demo_sys = Some true) by (vm_compute; reflexivity).
  destruct (ends_Some _ _ _ _ E) as (y & tr & H & Hr). clear E.
  destruct (y_loop y) eqn:El; try discriminate Hr. destruct (y_calls y !! 1%nat) as [[[] k]|] eqn:Hi; try discriminate Hr.
  destruct stop; [discriminate Hr|]. destruct (y_ring y) as [|e [|ev r]] eqn:Er; try discriminate Hr.
  destruct (unready y) eqn:Eu; [|discriminate Hr]. destruct (decide _) as [Eb|]; [|discriminate Hr].
  assert (Hs : stranded b y). { split; [exact El|]. exists ev. rewrite Er. split; [right; left|exact Eb]. }
  exists y, tr, batch, plan, b, k. split; [exact H|]. split; [exact Hi|]. split; [exact El|]. split; [exact Eu|].
  exact (submitted_after_exit_waits_forever 10 _ _ _ _ _ _ _ _ _ _ _ H Hi Hs).
Qed.

(** A cancelled call gives its key back while its event is on the way: the retry
    under the same key is applied as well. *)
Definition cancel_acts : list act :=
  Begin (NewTransfer keyed_xfer) :: steps 0 4
  ++ [Cancel 0; Step 0 done_env; Begin (NewTransfer (with_key (key_of 1) (xfer 13 1 2 7 0 0)))] ++ steps 1 4
  ++ (Loop <$> [W_default; W_default; W_default; W_go 10 0; W_default; W_go 0 1000; W_default; W_default; W_default]) ++ steps 1 2.
Example cancelled_key_applied_twice :
  ends (fun y tr => ((fun p => (t_IdempotencyKey (te_Transfer p.1), ack_Err p.2)) <$> acked tr,
                     val (a_PostedDebits (handleRead (idn 1) (y_engine y)).1))) cancel_acts demo_sys
  = Some ([(key_of 1, None); (key_of 1, None)], 14).
Proof. vm_compute. reflexivity. Qed.

(** Two calls race under one key: one waits for the other and gets its result. *)
Definition race_acts : list act :=
  [Begin (NewTransfer keyed_xfer); Begin (NewTransfer (with_key (key_of 1) (xfer 13 1 2 7 0 0)))] ++ steps 0 4 ++ steps 1 1
  ++ (Loop <$> [W_default; W_default; W_default; W_go 10 0; W_default; W_go 0 1000; W_default; W_default]) ++ steps 0 2 ++ steps 1 1.
Lemma keyed_transfers_apply_once_witness : exists y tr x c, sys_acts 10 race_acts demo_sys = Some (y, tr) /\ NoDup (skeys tr)
  /\ y_calls y !! 0%nat = Some (T_return keyed_xfer (Some (Ok x)), c)
  /\ y_calls y !! 1%nat = Some (T_return (with_key (key_of 1) (xfer 13 1 2 7 0 0)) (Some (Ok x)), c).
Proof.
  assert (E : ends (fun y _ => match y_calls y with
                               | [(T_return t (Some (Ok x)), false); (T_return t' (Some (Ok x')), false)] =>
                                   if decide (t = keyed_xfer /\ t' = with_key (key_of 1) (xfer 13 1 2 7 0 0)) then true else false
                               | _ => false end) race_acts demo_sys = Some true) by (vm_compute; reflexivity).
  destruct (ends_Some _ _ _ _ E) as (y & tr & H & Hr). clear E.
  destruct (y_calls y) as [|[pc0 c0] l] eqn:Hc; [discriminate Hr|].
  destruct pc0 as [| | | | | |t [[x|]|]| | | | | | | | | | | | | | | | |]; try discriminate Hr. destruct c0; [discriminate Hr|].
  destruct l as [|[pc1 c1] l]; [discriminate Hr|].
  destruct pc1 as [| | | | | |t' [[x'|]|]| | | | | | | | | | | | | | | | |]; try discriminate Hr. destruct c1; [discriminate Hr|].
  destruct l; [|discriminate Hr]. destruct (decide _) as [[Et Et']|]; [|discriminate Hr]. subst t t'.
  assert (Ha : Forall (act_ok {[key_of 1]} 1000 1000) race_acts).
  { unfold race_acts. repeat (apply Forall_cons; split; [first [exact I|intros _; by apply elem_of_singleton|split; reflexivity || lia]|]). apply Forall_nil. exact I. }
  destruct (keyed_transfers_apply_once 10 _ {[key_of 1]} 10 1000 1000 _ _ _ eq_refl eq_refl ltac:(by rewrite size_singleton) Ha H) as (Hn & _ & Hu).
  assert (H0 : y_calls y !! 0%nat = Some (T_return keyed_xfer (Some (Ok x)), false)) by (by rewrite Hc).
  assert (H1 : y_calls y !! 1%nat = Some (T_return (with_key (key_of 1) (xfer 13 1 2 7 0 0)) (Some (Ok x')), false)) by (by rewrite Hc).
  assert (Ex : x = x') by (exact (Hu _ _ _ _ _ _ _ _ H0 H1 eq_refl eq_refl)). rewrite <- Ex in H1.
  exists y, tr, x, false. split; [exact H|]. split; [exact Hn|]. split; [exact H0|exact H1].
Defined.
